(* ===== verification/_CoqProject ===== *)
-Q . S2P
Prelude.v
Keys.v
Block.v
BlockFacts.v
BlockMoves.v
BlockMerge.v
Types.v
Instances.v
BlockProps.v
BucketMap.v
BucketMapFacts.v
Sums.v
SizeManager.v
Float64.v
ReferenceSet.v
ReferenceSetFacts.v
Density.v
Rebalancing.v
RebalancingFacts.v
RebalancingUpdate.v
RebalancingShape.v
RebalancingTasks.v
Search.v
SearchFacts.v
ArrayContents.v
Sds.v
SdsInsert.v
SdsDistribute.v
SdsRebalance.v
BlockSeq.v
BlockSplit.v
BlockFill.v
SdsSplit.v
SdsLayout.v
SdsRange.v
SdsFill.v
SdsTasks.v
SdsMove.v
SdsPlan.v
SdsExecute.v
SdsSpread.v
SdsRewrite.v
SdsInsertPhase.v
SdsRebalanced.v
SdsExecuteTasks.v
SdsUpdated.v
OverallocatedBlock.v
Gbpma.v
GbpmaInsert.v
GbpmaDistribute.v
FirstElement.v
SdsBatch.v
SdsClient.v
GbpmaWrite.v
GbpmaContents.v
GbpmaOutput.v
GbpmaRange.v
GbpmaInPlace.v
GbpmaInPlaceRange.v
GbpmaRewrite.v
GbpmaBatch.v
GbpmaThreads.v
GbpmaInPlaceBatch.v
GbpmaPrepare.v
GbpmaOutBatch.v
GbpmaClient.v
Generator.v
GeneratorFacts.v
BucketMapProps.v
SizeManagerProps.v
RebalancingProps.v
ArrayProps.v
InsertionProps.v
GbpmaProps.v
GbpmaBatchProps.v
BatchProps.v
SdsProps.v
ReferenceSetProps.v
Benchmark.v
BenchmarkProps.v
