(* ===== verification/Prelude.v ===== *)
(** * Verification of the batch-parallel packed memory arrays

    ** The program

    Two packed memory arrays that take sorted batches of elements and insert them with
    several threads, src/dataStructures/batchedSparseArray.hpp (BBPMA, buffer blocks and
    local rebalancing) and src/dataStructures/overallocatedBatchedSparseArray.hpp (GBPMA, in
    place or by rewriting the whole array).  Both keep an array [pma] of entries; an entry
    is null or has a block, a small sorted array of elements with its first key beside it.
    [insertBatch] distributes the batch to tasks by looking for the blocks of splitters,
    each task inserts its part into its range of the array, blocks that overflow are split
    and written elsewhere ([bufferArray], [swapPma], or free cells), and the blocks are
    then spread again.  The BBPMA asks a binary tree of block counts
    (binaryRebalancingManager.hpp, with the thresholds of densityManager.hpp) which ranges
    are too dense; threads report these through a map with one lock per bucket
    (concurrentBucketMap.hpp).  The GBPMA keeps element counts per range of entries
    (blockSizeManager.hpp) and an overallocation factor (overallocationFactorManager.hpp).
    The benchmark (src/benchmark/benchmarks.hpp) fills an array with generated batches and
    then runs generated operations on it (inputGenerator.hpp, randomDistributions.hpp).

    ** Reading guide: components, files, sources

    - Prelude.v (this file): results and faults, loops with fuel, arrays with checked
      accesses, weakest preconditions [wp] for them, lemmas on lists and integers.
    - Keys.v: the template parameters (class [SdsTypes]), key order, sorted sequences and
      [smerge], the reference for every insertion: insert each element of a batch unless
      its key is present.
    - Block.v, BlockMerge.v ([PmaEntry], block.hpp), with BlockFacts.v, BlockMoves.v; the
      results are in BlockProps.v.  Instances.v has the concrete parameters of witnesses.
    - Types.v: intervals, nodes, tasks (helpers.hpp), and [TaskMemory], what a task holds
      before it is first written.
    - BucketMap.v, BucketMapFacts.v, BucketMapProps.v (concurrentBucketMap.hpp).
    - Sums.v, SizeManager.v, SizeManagerProps.v (blockSizeManager.hpp).
    - Float64.v (doubles and the rounding of products), Density.v (densityManager.hpp,
      overallocationFactorManager.hpp).
    - ReferenceSet.v, ReferenceSetFacts.v, ReferenceSetProps.v: the sets that the tests
      compare with (simpleOrderedSet.hpp, simpleUnorderedSet.hpp), and threads that share
      one: each member function as a sequence of instructions (lock, begin and end of an
      access, unlock) and a step relation over the interleavings.
    - Rebalancing.v (binaryRebalancingManager.hpp), RebalancingFacts.v (shape of the tree),
      RebalancingUpdate.v and RebalancingShape.v (updates, growth, recounting),
      RebalancingTasks.v (block search, dominance), RebalancingProps.v.
    - Search.v: the searches, queries and iterators (iterators.hpp) that both arrays share,
      against the class [SparseArray]; SearchFacts.v and ArrayContents.v are proved against
      this class, ArrayProps.v has the results.
    - Sds.v, SdsInsert.v, SdsDistribute.v, SdsRebalance.v: the BBPMA, i.e. its state, the
      insertion of a batch range, the distribution phase and the rebalancing phase.
    - BlockSeq.v, BlockSplit.v, BlockFill.v: what both arrays do with sequences of blocks.
      The class [BlockSink] is the interface between the loops that produce blocks and the
      places that take them; [splitting_ok] and [filling_ok] are the correctness of every
      loop that simulates the common split step or fill step.
    - SdsSplit.v (the buffer array as a sink, block splits), SdsLayout.v, SdsRange.v,
      SdsFill.v, InsertionProps.v: the insertion tasks of the BBPMA.
    - [insertBatch] of the BBPMA: SdsInsertPhase.v, SdsUpdated.v (the first phase of a batch
      and what it means for the hierarchy), SdsTasks.v, SdsPlan.v (the tasks, how many
      blocks they have, and how they are divided), SdsMove.v, SdsExecute.v, SdsSpread.v,
      SdsRewrite.v, SdsRebalanced.v, SdsExecuteTasks.v (moving the blocks of the tasks to
      [swapPma] and back), SdsBatch.v (the invariant [idle] between batches), SdsClient.v
      (sequences of batches), SdsProps.v.
    - OverallocatedBlock.v (overallocatedBlock.hpp), Gbpma.v, GbpmaInsert.v,
      GbpmaDistribute.v: the GBPMA, i.e. its state and in-place writes, the insertion of a
      batch range, and [insertBatch].
    - GbpmaWrite.v (writing in place), GbpmaOutput.v (cells of [swapPma] as a sink and
      block splits into a sink), GbpmaContents.v (the invariant
      [valid_array]), GbpmaRange.v (a task out of place), GbpmaRewrite.v (copies and
      redistribution), GbpmaBatch.v (what surrounds the tasks), GbpmaProps.v.
    - GbpmaInPlace.v, GbpmaInPlaceRange.v (a task in place), GbpmaThreads.v (the tasks of
      several threads), GbpmaInPlaceBatch.v (all tasks in place), GbpmaPrepare.v (the
      distribution finds these tasks), GbpmaOutBatch.v (all tasks through the second
      array), GbpmaClient.v (the first batch, one thread, sequences of batches),
      GbpmaBatchProps.v.
    - FirstElement.v, BatchProps.v: the first batch element of a task and the checks of a
      batch, in both arrays.
    - Generator.v, GeneratorFacts.v: the key distributions, operations, configurations and
      generators (randomDistributions.hpp, zipfian_int_distribution.h, definitions.hpp,
      configuration.hpp, inputGenerator.hpp, operationsGenerator.hpp, prefillGenerator.hpp).
    - Benchmark.v, BenchmarkProps.v: [BatchBenchmark::run] (benchmarks.hpp) on any structure
      behind the class [BatchStructure]; [BatchSet] is what both arrays guarantee there, and
      they are its instances.

    A class of the source is a Module, its fields are a Record that the operations take and
    return, and its member functions keep their names.  Template parameters and other
    classes that a component only uses through an interface are type classes.

    ** Assumptions of the theorems

    Classes of properties state what a configuration must satisfy: [BlockConfigOk] (blocks
    fit the 16-bit size type), [HalfBlocks] ([MaxSize = 2 * MinSize], [MinSize] at least
    two), [FasterMergeOk] (blocks of at most 32768 elements; in debug builds [NULL_KEY] is
    zero), [ThresholdLaw] and [DenseLaw] (the thresholds of the density manager, checked by
    evaluation for the one of the witnesses).  Batches are strictly increasing, not empty and
    without [NULL_KEY] and the key of a value-initialised element ([insertable],
    [good_batch]); a first batch has at least [MinSize] elements.  [key_limit] bounds the
    elements of the BBPMA, [2^52] those of the GBPMA with insertions in place.  The comment
    of each property names the assumptions it makes.

    ** What the theorems show

    - The array as a set: [insertBatches_implement_set] and [insertBatch_maintains], the
      GBPMA with one thread, in place or through the second array, from the constructor
      over any number of batches to [contains] and [rangeQuery];
      [batches_implement_set] and [batch_keeps_array_idle], the same for the BBPMA, as long
      as its hierarchy is not full; [arrays_agree], the two arrays against each other;
      [arrays_agree_with_reference], both arrays against the reference set;
      [insertBatch_threads_maintains], the GBPMA with any number of threads whose splitters
      are in different blocks, and [insertBatch_in_place_safe], any splitters when the
      distribution decides for an insertion in place; [array_contains_correct], [lowerBound_correct],
      [iteration_correct] and [rangeQuery_correct] for any array whose
      blocks are in order.
    - The benchmark: [generator_correct], what the generators create;
      [benchmarked_arrays_agree], a run with one thread of the release build on both arrays.
    - The second phase of the BBPMA: [createTasks_correct] and [executeTasks_correct].
    - Tasks: [insertBatchRange_correct] (BBPMA), [insertBatchRangeOutOfPlace_correct] and
      [writeBlockInPlace_correct] (GBPMA), [insertIntoBlockWithSplit_correct],
      [insertIntoEmptyRange_correct], [inverseMerge_correct], [rewrite_correct]: old
      elements and new ones in order, blocks at least half full, the writes inside the range
      of the task, so that tasks do not meet.
    - Blocks: every operation of an entry against lists; [mergeFaster_equiv_merge], the
      merge from the back against the simple one; [entries_correct] for the second class.
    - Bookkeeping: the counters of the size manager under every update
      ([updates_preserve_valid], [hierarchical_equals_linear], [recompute_establishes]); the
      tree under [update] ([update_correct]: counts, flags and the nodes to rebalance),
      [recompute_then_validate], [findBlock_correct], [dominance_correct]; the bucket map
      as a finite map whose insertions commute ([insertions_commute]).
    - Threads at the reference set: [calls_linearize] (no races, one order of the operations
      that explains content and answers) and [calls_complete] (no deadlock, every schedule
      ends, what the set then holds), for every interleaving of the instructions of the
      functions that lock; [size_races] for one that does not.
    - Termination, bounds, errors: [resize_correct], [increaseSize_terminates],
      [rewrite_correct], [insertBatch_rejects]; and a theorem that ends in [Ok] excludes failing assertions,
      accesses outside an array, and loops that run out of fuel.
    - What goes wrong: [full_root_hides_blocks], [size_from_last_task_hides_block] and
      [growth_loses_blocks] (SdsProps.v) are runs of the BBPMA whose hierarchy is full; they
      are the reason for the bound [key_limit] in the theorems on sequences of batches.
      [indeterminate_sentinel_fails] (GbpmaBatchProps.v): in a debug build the first batch can fail
      because of an uninitialised task.  [zipf_leaves_range] (BenchmarkProps.v): a key
      outside of the configured range.

    ** Modelling decisions

    - Keys are integers under [std::less]; values are any type with a key; [NULL_KEY], the
      value-initialised element [zeroValue] and NDEBUG are parameters, so theorems hold
      with and without assertions unless they say otherwise.
    - Integers of 16 bits wrap explicitly ([u16], [i16]), which matters for block indices;
      64-bit indices and sizes are unbounded, as arrays of 2^63 entries do not exist.
      Doubles are IEEE binary64 (Standard Library, SpecFloat).
    - An entry holds its block by value: two entries never share a block in the source once
      an operation is finished.  Cells of a block behind its size keep what was left there
      ("stale" cells); the operations compare with them, and [fresh] and [stales] state when
      that does no harm.  Fresh blocks are value-initialised, as for non-trivial values.
    - The tasks of a new array are not initialised in the source: [create] takes their
      content from [TaskMemory].  Only validateTaskDistribution of the GBPMA reads a task
      that was not written, in debug builds; [benign_memory] is the assumption there.
    - Debug builds of an instance whose values are its keys also overwrite unused cells and
      check them (IsTrivialType in block.hpp).  This is not modelled; [SdsTypes] excludes
      such builds, so that the benchmark, whose values are keys, is a release build.
    - A [for] loop is structural recursion over its range.  A [while] loop has as much fuel
      as a bound of its measure, written at the loop; running out of it is the fault
      [Diverged], which the theorems exclude.
    - Parallel regions run their threads in the order of their numbers.  That the order
      does not matter rests on the tasks writing disjoint cells, which the task theorems
      state, on [insertions_commute] for the map, and on additions for the counters.
    - The random engine, the distributions of the standard library and [std::pow] are the
      class [RandomSource], of which [RandomLaws] states the ranges.  Converting a double to
      a key is undefined outside of the range of the key type (fault [Undefined]).  The loop
      of the normal distribution repeats until a number is in the range; how long is a
      parameter ([patience]), and [settles] asks of the random source that a number in the
      range comes by then.  The Zipf distribution is modelled, but can leave its range: the
      theorems leave it out.

    ** What is not modelled

    Printing, profiling, timing, the parsing of the command line and the EXTENDED_TESTS
    checks; destructors other than that of the GBPMA; [isValid] of a block; the backward
    direction of the iterators, which does not compile when used; the GBPMA's insertion
    without precalculated lengths, discarded at compile time; the sequential benchmark and
    the one for vectors of batches, which no array of src/dataStructures is run with, the
    main functions of the experiments and src/tests; thread_coordination.hpp and
    barrier.hpp, which the benchmarks include and do not use.  src/CPMA, src/parallelBST and src/lib are
    other people's code.

    ** Not proved

    [insertBatch] of the GBPMA with several threads when two splitters are in the same block
    and the batch does not fit in place: tasks are then merged, and the later ones insert
    from the back; the definitions cover this, no theorem does.
    [insertBatch] of the BBPMA with several threads: the definitions take any number of
    threads and the tasks have theorems, their composition is proved for one thread only.
    The BBPMA beyond [key_limit], where the runs above show that it loses elements. *)

From stdpp Require Export base tactics numbers option list list_numbers sorting sets fin_maps gmap.
From Stdlib Require Export ZArith Lia.

#[global] Open Scope Z_scope.

(** ** Results: what a C++ call can do

    A call returns a value, runs into a failing [AssertMsg], accesses an array
    outside its bounds (or through a null pointer), runs out of the fuel of a
    loop, calls [std::terminate], or evaluates an arithmetic expression whose result is
    undefined.  The faults are kept apart, so a theorem that ends in [Ok] rules all of them
    out. *)

Inductive fault := AssertionFailed | BadAccess | Diverged | Terminated | Undefined.

Inductive result (A : Type) :=
| Ok (a : A)
| Err (f : fault).
Arguments Ok {A} a.
Arguments Err {A} f.

#[export] Instance result_ret : MRet result := @Ok.
#[export] Instance result_bind : MBind result :=
  λ A B k m, match m with Ok a => k a | Err f => Err f end.
#[export] Instance result_fmap : FMap result :=
  λ A B g m, match m with Ok a => Ok (g a) | Err f => Err f end.

Definition is_ok {A} (m : result A) : bool :=
  match m with Ok _ => true | Err _ => false end.

(** [AssertMsg] of helpers/assert.hpp: active unless [NDEBUG] is defined. *)
Definition assert_unless (ndebug b : bool) : result unit :=
  if ndebug then Ok tt else if b then Ok tt else Err AssertionFailed.

(** ** Loops *)

(** [loop fuel step s] iterates [step] until it leaves the loop with [inr]. *)
Fixpoint loop {St R : Type} (fuel : nat) (step : St → result (St + R)) (s : St) : result R :=
  match fuel with
  | O => Err Diverged
  | S n =>
      r ← step s;
      match r with inl s' => loop n step s' | inr x => Ok x end
  end.

(** [while (cond) body] on the loop state [s]. *)
Definition while {St : Type} (fuel : nat) (cond : St → result bool) (body : St → result St)
    (s : St) : result St :=
  loop fuel (λ s : St, b ← cond s;
                       if b : bool then s' ← body s; Ok (inl s' : St + St)
                       else Ok (inr s)) s.

Fixpoint for_nat {St : Type} (n : nat) (i : Z) (body : Z → St → result St) (s : St)
    : result St :=
  match n with
  | O => Ok s
  | S n => s' ← body i s; for_nat n (i + 1) body s'
  end.

(** [for (i = a; i < b; ++i) body] when [body] writes neither [i] nor [b]. *)
Definition for_range {St : Type} (a b : Z) (body : Z → St → result St) (s : St)
    : result St :=
  for_nat (Z.to_nat (b - a)) a body s.

(** ** Arrays: checked reads and writes at integer indices *)

Definition zlen {A} (l : list A) : Z := Z.of_nat (length l).

(** The element at index [i], when there is one. *)
Definition at_ {A} (l : list A) (i : Z) : option A :=
  if 0 <=? i then l !! Z.to_nat i else None.

Definition zget {A} (l : list A) (i : Z) : result A :=
  match at_ l i with Some a => Ok a | None => Err BadAccess end.

Definition zupd {A} (l : list A) (i : Z) (a : A) : list A := <[Z.to_nat i := a]> l.

Definition zset {A} (l : list A) (i : Z) (a : A) : result (list A) :=
  if (0 <=? i) && (i <? zlen l) then Ok (zupd l i a) else Err BadAccess.

(** The slice [l[a, b)]. *)
Definition slice {A} (l : list A) (a b : Z) : list A :=
  take (Z.to_nat (b - a)) (drop (Z.to_nat a) l).

(** [std::copy] between two arrays: [n] elements of [src] from [s] to [dst] at
    [d].  With [src] the same array as [dst], the loop runs upwards. *)
Definition copy_up {A} (src : list A) (s n : Z) (dst : list A) (d : Z) : result (list A) :=
  for_range 0 n (λ i dst, v ← zget src (s + i); zset dst (d + i) v) dst.

(** [std::copy] inside one array, from the front. *)
Definition copy_within {A} (l : list A) (s n d : Z) : result (list A) :=
  for_range 0 n (λ i l, v ← zget l (s + i); zset l (d + i) v) l.

(** [std::copy_backward] inside one array: [n] elements from [s] move to [s + k]. *)
Definition copy_within_backward {A} (l : list A) (s n k : Z) : result (list A) :=
  for_range 0 n (λ i l, v ← zget l (s + n - 1 - i); zset l (s + n - 1 - i + k) v) l.

(** ** Fixed-width integers of typedefs.hpp *)

(** BlockSizeType, BlockIndexType: std::uint16_t. *)
Definition u16 (z : Z) : Z := z mod 65536.
(** SignedBlockIndexType: std::int16_t. *)
Definition i16 (z : Z) : Z := (z + 32768) mod 65536 - 32768.

(** ** Total correctness of results *)

(** [wp m Q]: the call [m] returns, and its value satisfies [Q]. *)
Definition wp {A} (m : result A) (Q : A → Prop) : Prop :=
  match m with Ok a => Q a | Err _ => False end.

Lemma wp_returns {A} (m : result A) (Q : A → Prop) : wp m Q ↔ ∃ a, m = Ok a ∧ Q a.
Proof. destruct m; simpl; naive_solver. Qed.

Lemma wp_bind {A B} (m : result A) (k : A → result B) (Q : B → Prop) :
  wp m (λ a, wp (k a) Q) → wp (m ≫= k) Q.
Proof. by destruct m. Qed.

Lemma wp_bind_inv {A B} (m : result A) (k : A → result B) (Q : B → Prop) :
  wp (m ≫= k) Q → wp m (λ a, wp (k a) Q).
Proof. by destruct m. Qed.

Lemma wp_mono {A} (m : result A) (P Q : A → Prop) :
  wp m P → (∀ a, P a → Q a) → wp m Q.
Proof. destruct m; simpl; auto. Qed.

Lemma wp_eq {A} (m : result A) (Q : A → Prop) (a : A) : m = Ok a → Q a → wp m Q.
Proof. by intros ->. Qed.

Lemma wp_is {A} (m : result A) (a : A) : wp m (λ x, x = a) → m = Ok a.
Proof. intros (x&->&->)%wp_returns. done. Qed.

Lemma wp_conj {A} (m : result A) (P Q : A → Prop) :
  wp m P → wp m Q → wp m (λ a, P a ∧ Q a).
Proof. destruct m; simpl; auto. Qed.

Lemma wp_assert (ndebug b : bool) (Q : unit → Prop) :
  b = true → Q tt → wp (assert_unless ndebug b) Q.
Proof. intros ->. by destruct ndebug. Qed.

(** The loop rule: an invariant and a measure bounded by the fuel. *)
Lemma wp_loop {St R} (I : St → Prop) (μ : St → Z) (fuel : nat)
    (step : St → result (St + R)) (s : St) (Q : R → Prop) :
  (∀ s, I s → 0 ≤ μ s ∧
     wp (step s) (λ r, match r with
                       | inl s' => I s' ∧ μ s' < μ s
                       | inr x => Q x
                       end)) →
  I s → μ s < Z.of_nat fuel →
  wp (loop fuel step s) Q.
Proof.
  intros Hstep. revert s. induction fuel as [|n IH]; intros s HI Hμ.
  - destruct (Hstep s HI). lia.
  - simpl. destruct (Hstep s HI) as [? Hs]. apply wp_bind.
    eapply wp_mono; [exact Hs|]. intros [s'|x]; [intros [? ?]; apply IH; [done|lia]|done].
Qed.

Lemma wp_while {St} (I : St → Prop) (μ : St → Z) (fuel : nat)
    (cond : St → result bool) (body : St → result St) (s : St) (Q : St → Prop) :
  (∀ s, I s → 0 ≤ μ s ∧
     wp (cond s) (λ b, if b : bool then wp (body s) (λ s', I s' ∧ μ s' < μ s) else Q s)) →
  I s → μ s < Z.of_nat fuel →
  wp (while fuel cond body s) Q.
Proof.
  intros Hstep HI Hμ. unfold while. apply (wp_loop I μ); [|done|done].
  intros s' HI'. destruct (Hstep s' HI') as [? Hc]. split; [done|].
  apply wp_bind. eapply wp_mono; [exact Hc|]. intros [|]; simpl; [|done].
  intros Hb. apply wp_bind. eapply wp_mono; [exact Hb|]. done.
Qed.

(** A [for] loop: the invariant is indexed by the loop variable. *)
Lemma wp_for {St} (I : Z → St → Prop) (a b : Z) (body : Z → St → result St) (s : St)
    (Q : St → Prop) :
  (∀ i s, a ≤ i < b → I i s → wp (body i s) (I (i + 1))) →
  I a s → (∀ s, I (Z.max a b) s → Q s) →
  wp (for_range a b body s) Q.
Proof.
  intros Hstep HI HQ. unfold for_range.
  assert (∀ n i s, a ≤ i → i + Z.of_nat n = Z.max a b → I i s →
            wp (for_nat n i body s) Q) as Hgen.
  { induction n as [|n IH]; intros i s' Hi Hn Hs; simpl.
    - apply HQ. by replace (Z.max a b) with i by lia.
    - apply wp_bind. eapply wp_mono; [apply Hstep; [lia|done]|].
      intros s'' Hs''. apply IH; [lia|lia|done]. }
  apply Hgen; [lia|lia|done].
Qed.

(** Partial correctness: what holds of a result if there is one. *)
Definition wlp {A} (m : result A) (Q : A → Prop) : Prop := ∀ a, m = Ok a → Q a.

Lemma wlp_bind {A B} (m : result A) (k : A → result B) (Q : B → Prop) :
  wlp m (λ a, wlp (k a) Q) → wlp (m ≫= k) Q.
Proof. destruct m as [a|]; [|done]. intros Hm. by apply Hm. Qed.

Lemma wlp_ok {A} (a : A) (Q : A → Prop) : Q a → wlp (Ok a) Q.
Proof. by intros Ha a' [= <-]. Qed.

Lemma wlp_mono {A} (m : result A) (P Q : A → Prop) : wlp m P → (∀ a, P a → Q a) → wlp m Q.
Proof. intros Hm HPQ a Ha. by apply HPQ, Hm. Qed.

Lemma wlp_any {A} (m : result A) (Q : A → Prop) : (∀ a, m = Ok a → Q a) → wlp m Q.
Proof. done. Qed.

Lemma wlp_for {St} (I : Z → St → Prop) (a b : Z) (body : Z → St → result St) (s : St) :
  (∀ i s, a ≤ i < b → I i s → wlp (body i s) (I (i + 1))) → a ≤ b → I a s →
  wlp (for_range a b body s) (I b).
Proof.
  intros Hstep Hab HI. unfold for_range.
  assert (∀ n i s, a ≤ i → i + Z.of_nat n = b → I i s → wlp (for_nat n i body s) (I b)) as Hgen.
  { induction n as [|n IH]; intros i s' Hi Hn Hs; simpl.
    - apply wlp_ok. by replace b with i by lia.
    - apply wlp_bind. eapply wlp_mono; [apply Hstep; [lia|done]|]. intros s''. apply IH; lia. }
  apply Hgen; [lia|lia|done].
Qed.

(** A call that returns, and what holds of its result. *)
Lemma wp_wlp {A} (m : result A) (P Q : A → Prop) : wp m P → wlp m Q → wp m (λ a, P a ∧ Q a).
Proof. destruct m as [a|]; [|done]. intros Hp Hq. split; [done|by apply Hq]. Qed.

(** The loop state of a [for] loop as an equation, for induction. *)
Lemma for_range_nil {St} (a b : Z) (body : Z → St → result St) (s : St) :
  b ≤ a → for_range a b body s = Ok s.
Proof. intros. unfold for_range. by replace (Z.to_nat (b - a)) with O by lia. Qed.

Lemma for_range_cons {St} (a b : Z) (body : Z → St → result St) (s : St) :
  a < b → for_range a b body s = (s' ← body a s; for_range (a + 1) b body s').
Proof.
  intros. unfold for_range.
  by replace (Z.to_nat (b - a)) with (S (Z.to_nat (b - (a + 1)))) by lia.
Qed.

Lemma for_range_once {St} (a b : Z) (body : Z → St → result St) (s : St) :
  b = a + 1 → for_range a b body s = body a s.
Proof.
  intros ->. rewrite for_range_cons by lia. destruct (body a s); [|done]. by apply for_range_nil.
Qed.

Lemma for_range_snoc {St} (a b : Z) (body : Z → St → result St) (s : St) :
  a < b → for_range a b body s = (s' ← for_range a (b - 1) body s; body (b - 1) s').
Proof.
  intros Hab. remember (Z.to_nat (b - a)) as n eqn:Hn.
  revert a s Hab Hn. induction n as [|n IH]; intros a s Hab Hn; [lia|].
  rewrite (for_range_cons a b) by lia.
  destruct (decide (a + 1 = b)) as [<-|].
  - replace (a + 1 - 1) with a by lia. rewrite (for_range_nil a a) by lia. simpl.
    destruct (body a s); simpl; [|done]. by rewrite for_range_nil by lia.
  - rewrite (for_range_cons a (b - 1)) by lia. destruct (body a s); simpl; [|done].
    apply IH; lia.
Qed.

(** ** Lemmas on arrays *)

Section arrays.
Context {A : Type}.
Implicit Types (l src dst : list A) (i j a b d n s : Z) (x : A).

Lemma zlen_nonneg l : 0 ≤ zlen l.
Proof. unfold zlen. lia. Qed.

Lemma at_Some_bound l i x : at_ l i = Some x → 0 ≤ i < zlen l.
Proof.
  unfold at_, zlen. destruct (Z.leb_spec 0 i); [|done].
  intros ?%lookup_lt_Some. lia.
Qed.

Lemma at_lookup {B} (x : list B) i y : at_ x i = Some y → 0 ≤ i ∧ x !! Z.to_nat i = Some y.
Proof. unfold at_. destruct (Z.leb_spec 0 i); [done|discriminate]. Qed.

Lemma at_in_bound l i : 0 ≤ i < zlen l → ∃ x, at_ l i = Some x.
Proof.
  unfold at_, zlen. intros. destruct (Z.leb_spec 0 i); [|lia].
  apply lookup_lt_is_Some_2. lia.
Qed.

Lemma at_None_bound l i : i < 0 ∨ zlen l ≤ i → at_ l i = None.
Proof.
  unfold at_, zlen. intros. destruct (Z.leb_spec 0 i); [|done].
  apply lookup_ge_None_2. lia.
Qed.

Lemma at_nat l (k : nat) : at_ l (Z.of_nat k) = l !! k.
Proof. unfold at_. destruct (Z.leb_spec 0 (Z.of_nat k)); [|lia]. by rewrite Nat2Z.id. Qed.

Lemma at_ext l l' :
  zlen l = zlen l' → (∀ i, 0 ≤ i < zlen l → at_ l i = at_ l' i) → l = l'.
Proof.
  intros Hlen Hat. apply list_eq. intros k. rewrite <-!at_nat.
  destruct (decide (Z.of_nat k < zlen l)); [apply Hat; lia|].
  by rewrite !at_None_bound by lia.
Qed.

Lemma zlen_app l l' : zlen (l ++ l') = zlen l + zlen l'.
Proof. unfold zlen. rewrite length_app. lia. Qed.

Lemma zlen_cons x l : zlen (x :: l) = 1 + zlen l.
Proof. unfold zlen. simpl. lia. Qed.

Lemma zlen_nil : zlen (@nil A) = 0.
Proof. done. Qed.

Lemma zlen_replicate (k : nat) x : zlen (replicate k x) = Z.of_nat k.
Proof. unfold zlen. by rewrite length_replicate. Qed.

Lemma zlen_zupd l i x : zlen (zupd l i x) = zlen l.
Proof. unfold zlen, zupd. by rewrite length_insert. Qed.

Lemma at_zupd_eq l i x : 0 ≤ i < zlen l → at_ (zupd l i x) i = Some x.
Proof.
  unfold at_, zupd, zlen. intros. destruct (Z.leb_spec 0 i); [|lia].
  apply list_lookup_insert_eq. lia.
Qed.

Lemma at_zupd_ne l i j x : 0 ≤ i → i ≠ j → at_ (zupd l i x) j = at_ l j.
Proof.
  unfold at_, zupd. intros. destruct (Z.leb_spec 0 j); [|done].
  apply list_lookup_insert_ne. lia.
Qed.

Lemma zupd_zupd l i x y : zupd (zupd l i x) i y = zupd l i y.
Proof. unfold zupd. apply list_insert_insert_eq. Qed.

Lemma at_app l l' i :
  at_ (l ++ l') i = if i <? zlen l then at_ l i else at_ l' (i - zlen l).
Proof.
  unfold at_, zlen. destruct (Z.leb_spec 0 i).
  - destruct (Z.ltb_spec i (Z.of_nat (length l))).
    + apply lookup_app_l. lia.
    + rewrite lookup_app_r by lia.
      destruct (Z.leb_spec 0 (i - Z.of_nat (length l))); [|lia]. f_equal. lia.
  - destruct (Z.ltb_spec i (Z.of_nat (length l))); [done|].
    destruct (Z.leb_spec 0 (i - Z.of_nat (length l))); [lia|done].
Qed.

Lemma at_cons l x i : at_ (x :: l) i = if i =? 0 then Some x else at_ l (i - 1).
Proof.
  change (x :: l) with ([x] ++ l). rewrite at_app. rewrite zlen_cons, zlen_nil.
  destruct (Z.eqb_spec i 0) as [->|]; [done|].
  destruct (Z.ltb_spec i (1 + 0)); [|done].
  rewrite !at_None_bound by lia. done.
Qed.

Lemma at_replicate (k : nat) x i : 0 ≤ i < Z.of_nat k → at_ (replicate k x) i = Some x.
Proof.
  intros. unfold at_. destruct (Z.leb_spec 0 i); [|lia].
  apply lookup_replicate_2. lia.
Qed.

Lemma zlen_slice l a b :
  zlen (slice l a b) = Z.max 0 (Z.min (b - Z.max 0 a) (zlen l - Z.max 0 a)) ∨ a < 0.
Proof. unfold zlen, slice. rewrite length_take, length_drop. lia. Qed.

Lemma zlen_slice_in l a b : 0 ≤ a → a ≤ b → b ≤ zlen l → zlen (slice l a b) = b - a.
Proof. intros. unfold zlen, slice in *. rewrite length_take, length_drop. lia. Qed.

Lemma at_slice l a b i :
  0 ≤ a → at_ (slice l a b) i = if (0 <=? i) && (i <? b - a) then at_ l (a + i) else None.
Proof.
  intros. unfold at_, slice. destruct (Z.leb_spec 0 i); simpl; [|done].
  destruct (Z.ltb_spec i (b - a)).
  - destruct (Z.leb_spec 0 (a + i)); [|lia].
    rewrite lookup_take_lt by lia. rewrite lookup_drop. f_equal. lia.
  - apply lookup_take_ge. lia.
Qed.

Lemma slice_full l : slice l 0 (zlen l) = l.
Proof. unfold slice, zlen. simpl. rewrite drop_0. apply take_ge. lia. Qed.

Lemma slice_nil l a b : b ≤ a → slice l a b = [].
Proof. intros. unfold slice. by replace (Z.to_nat (b - a)) with O by lia. Qed.

Lemma zget_at l i x : at_ l i = Some x → zget l i = Ok x.
Proof. unfold zget. by intros ->. Qed.

Lemma wp_get l i x (Q : A → Prop) : at_ l i = Some x → Q x → wp (zget l i) Q.
Proof. unfold zget. by intros ->. Qed.

Lemma wp_get_bound l i (Q : A → Prop) :
  0 ≤ i < zlen l → (∀ x, at_ l i = Some x → Q x) → wp (zget l i) Q.
Proof. intros [x Hx]%at_in_bound HQ. eapply wp_get; eauto. Qed.

Lemma zset_in l i x : 0 ≤ i < zlen l → zset l i x = Ok (zupd l i x).
Proof.
  intros. unfold zset.
  destruct (Z.leb_spec 0 i); [|lia]. by destruct (Z.ltb_spec i (zlen l)); [|lia].
Qed.

Lemma wp_set l i x (Q : list A → Prop) :
  0 ≤ i < zlen l → Q (zupd l i x) → wp (zset l i x) Q.
Proof. intros ? HQ. by rewrite zset_in. Qed.
End arrays.

Create Rewrite HintDb zlen.
#[export] Hint Rewrite @zlen_app @zlen_cons @zlen_nil @zlen_replicate @zlen_zupd : zlen.

(** Linear arithmetic over lengths. *)
Ltac zlen_facts :=
  repeat match goal with
  | |- context [zlen ?l] =>
      lazymatch goal with
      | _ : 0 ≤ zlen l |- _ => fail
      | _ => pose proof (zlen_nonneg l)
      end
  | _ : context [zlen ?l] |- _ =>
      lazymatch goal with
      | _ : 0 ≤ zlen l |- _ => fail
      | _ => pose proof (zlen_nonneg l)
      end
  end.
Ltac zlen := autorewrite with zlen in *; zlen_facts; lia.

(** Case analysis on the boolean comparisons of the goal and the context. *)
Ltac bool_cases :=
  repeat match goal with
  | |- context [?a <? ?b] => destruct (Z.ltb_spec a b)
  | |- context [?a <=? ?b] => destruct (Z.leb_spec a b)
  | |- context [?a =? ?b] => destruct (Z.eqb_spec a b)
  | H : context [?a <? ?b] |- _ => destruct (Z.ltb_spec a b)
  | H : context [?a <=? ?b] |- _ => destruct (Z.leb_spec a b)
  | H : context [?a =? ?b] |- _ => destruct (Z.eqb_spec a b)
  end.

(** One symbolic step of [wp]: open a bind, an assertion or a return. *)
Ltac wp_step :=
  match goal with
  | |- wp (mbind _ _) _ => apply wp_bind
  | |- wp (Ok _) _ => simpl
  | |- wp (mret _) _ => simpl
  | |- wp (assert_unless _ _) _ => apply wp_assert
  | |- wp (zset _ _ _) _ => apply wp_set
  end.

(** One iteration of [while]. *)
Lemma while_unfold {St} (n : nat) (cond : St → result bool) (body : St → result St) (s : St) :
  while (S n) cond body s =
  (b ← cond s; if b : bool then s' ← body s; while n cond body s' else Ok s).
Proof.
  unfold while. cbn [loop]. destruct (cond s) as [[|]|]; simpl; [|done|done].
  by destruct (body s).
Qed.

Lemma while_exit {St} (n : nat) (cond : St → result bool) (body : St → result St) (s : St) :
  cond s = Ok false → while (S n) cond body s = Ok s.
Proof. intros Hc. rewrite while_unfold, Hc. done. Qed.

Lemma while_iterate {St} (n : nat) (cond : St → result bool) (body : St → result St)
    (s s' : St) :
  cond s = Ok true → body s = Ok s' → while (S n) cond body s = while n cond body s'.
Proof. intros Hc Hb. rewrite while_unfold, Hc. simpl. by rewrite Hb. Qed.

Lemma u16_small (z : Z) : 0 ≤ z < 65536 → u16 z = z.
Proof. intros. by apply Z.mod_small. Qed.

Lemma i16_small (z : Z) : -32768 ≤ z < 32768 → i16 z = z.
Proof. intros. unfold i16. rewrite Z.mod_small by lia. lia. Qed.

Lemma at_middle {A} (l l' : list A) (x : A) : at_ (l ++ x :: l') (zlen l) = Some x.
Proof.
  rewrite at_app. destruct (Z.ltb_spec (zlen l) (zlen l)); [lia|].
  by rewrite Z.sub_diag.
Qed.

Lemma at_app_l {A} (l l' : list A) (i : Z) : i < zlen l → at_ (l ++ l') i = at_ l i.
Proof. intros. rewrite at_app. by destruct (Z.ltb_spec i (zlen l)); [|lia]. Qed.

Lemma at_app_r {A} (l l' : list A) (i : Z) :
  zlen l ≤ i → at_ (l ++ l') i = at_ l' (i - zlen l).
Proof. intros. rewrite at_app. by destruct (Z.ltb_spec i (zlen l)); [lia|]. Qed.

Lemma zupd_middle {A} (l l' : list A) (x y : A) :
  zupd (l ++ x :: l') (zlen l) y = l ++ y :: l'.
Proof.
  unfold zupd, zlen. rewrite Nat2Z.id. rewrite insert_app_r_alt by lia.
  by rewrite Nat.sub_diag.
Qed.

Lemma zset_middle {A} (l l' : list A) (x y : A) (i : Z) :
  i = zlen l → zset (l ++ x :: l') i y = Ok (l ++ y :: l').
Proof. intros ->. rewrite zset_in by zlen. by rewrite zupd_middle. Qed.

(** Any in-range index splits its array. *)
Lemma at_split {A} (l : list A) (i : Z) (x : A) :
  at_ l i = Some x → ∃ l1 l2, l = l1 ++ x :: l2 ∧ zlen l1 = i.
Proof.
  intros Hi. pose proof (at_Some_bound _ _ _ Hi) as Hb. unfold at_ in Hi.
  destruct (Z.leb_spec 0 i); [|done].
  exists (take (Z.to_nat i) l), (drop (S (Z.to_nat i)) l). split.
  - by rewrite take_drop_middle.
  - unfold zlen in *. rewrite length_take. lia.
Qed.

Lemma split_at {A} (l : list A) (i : Z) :
  0 ≤ i ≤ zlen l → ∃ l1 l2, l = l1 ++ l2 ∧ zlen l1 = i.
Proof.
  intros. exists (take (Z.to_nat i) l), (drop (Z.to_nat i) l).
  rewrite take_drop. split; [done|]. unfold zlen in *. rewrite length_take. lia.
Qed.

Lemma slice_app_l {A} (l l' : list A) : slice (l ++ l') 0 (zlen l) = l.
Proof. unfold slice, zlen. rewrite drop_0, Z.sub_0_r, Nat2Z.id. by rewrite take_app_length. Qed.

Lemma slice_middle {A} (l m r : list A) :
  slice (l ++ m ++ r) (zlen l) (zlen l + zlen m) = m.
Proof.
  unfold slice, zlen. rewrite Nat2Z.id, drop_app_length.
  replace (Z.to_nat (_ - _)) with (length m) by lia. apply take_app_length.
Qed.

(** A copy between two arrays, by the contents of both. *)
Lemma copy_up_spec {A} (s1 m s2 d1 x d2 : list A) :
  zlen x = zlen m →
  copy_up (s1 ++ m ++ s2) (zlen s1) (zlen m) (d1 ++ x ++ d2) (zlen d1) = Ok (d1 ++ m ++ d2).
Proof.
  intros Hlen. unfold copy_up.
  assert (∀ m1 m2 x2, m = m1 ++ m2 → zlen x2 = zlen m2 →
    for_range (zlen m1) (zlen m)
      (λ i dst, v ← zget (s1 ++ m ++ s2) (zlen s1 + i); zset dst (zlen d1 + i) v)
      (d1 ++ (m1 ++ x2) ++ d2) = Ok (d1 ++ m ++ d2)) as Hgen.
  { intros m1 m2. revert m1. induction m2 as [|v m2 IH]; intros m1 x2 -> Hx.
    - destruct x2; [|unfold zlen in Hx; done]. rewrite for_range_nil; [done|].
      rewrite app_nil_r. lia.
    - destruct x2 as [|y x2]; [unfold zlen in Hx; done|].
      pose proof (zlen_nonneg m2).
      rewrite for_range_cons by (rewrite zlen_app, zlen_cons; lia).
      erewrite zget_at; cycle 1.
      { rewrite at_app_r by (pose proof (zlen_nonneg m1); lia).
        replace (zlen s1 + zlen m1 - zlen s1) with (zlen m1) by lia.
        rewrite <-app_assoc. simpl. apply at_middle. }
      simpl.
      replace (d1 ++ (m1 ++ y :: x2) ++ d2) with ((d1 ++ m1) ++ y :: (x2 ++ d2))
        by (rewrite <-!app_assoc; done).
      replace (zlen d1 + zlen m1) with (zlen (d1 ++ m1)) by apply zlen_app.
      rewrite zset_in; cycle 1.
      { pose proof (zlen_nonneg (x2 ++ d2)). pose proof (zlen_nonneg (d1 ++ m1)).
        rewrite (zlen_app (d1 ++ m1)), zlen_cons. lia. }
      simpl. rewrite zupd_middle.
      specialize (IH (m1 ++ [v]) x2). rewrite zlen_app, zlen_cons, zlen_nil in IH.
      rewrite Z.add_0_r in IH. rewrite !zlen_cons in Hx.
      replace ((d1 ++ m1) ++ v :: x2 ++ d2) with (d1 ++ ((m1 ++ [v]) ++ x2) ++ d2)
        by (rewrite <-!app_assoc; done).
      apply IH; [by rewrite <-app_assoc|lia]. }
  apply (Hgen [] m x); [done|done].
Qed.

(** A [for] loop whose states are known in advance. *)
Lemma for_range_states {St} (a b : Z) (body : Z → St → result St) (f : Z → St) :
  a ≤ b → (∀ i, a ≤ i < b → body i (f i) = Ok (f (i + 1))) →
  for_range a b body (f a) = Ok (f b).
Proof.
  intros Hab Hbody.
  cut (wp (for_range a b body (f a)) (λ s, s = f b)).
  { intros Hwp. apply wp_returns in Hwp as (s&->&->). done. }
  apply (wp_for (λ i s, s = f i)).
  - intros i s Hi ->. rewrite Hbody by lia. done.
  - done.
  - intros s ->. by rewrite Z.max_r by lia.
Qed.

Lemma drop_at {A} (l : list A) (k : nat) :
  (k < length l)%nat → ∃ x, l !! k = Some x ∧ drop k l = x :: drop (S k) l.
Proof.
  intros Hk. destruct (lookup_lt_is_Some_2 l k Hk) as [x Hx]. exists x.
  split; [done|]. by apply drop_S.
Qed.

(** Moving [y] down over [x], front to back: the cells after [i] steps. *)
Definition moved_down {A} (x y z : list A) (i : Z) : list A :=
  take (Z.to_nat i) y ++ drop (Z.to_nat i) (x ++ y ++ z).

Lemma moved_down_at {A} (x y z : list A) (i : Z) :
  0 ≤ i < zlen y → at_ (moved_down x y z i) (zlen x + i) = at_ y i.
Proof.
  intros Hi. unfold moved_down, at_, zlen in *.
  destruct (Z.leb_spec 0 (Z.of_nat (length x) + i)), (Z.leb_spec 0 i); [|lia..].
  replace (Z.to_nat (Z.of_nat (length x) + i)) with (length x + Z.to_nat i)%nat by lia.
  rewrite lookup_app_r; rewrite length_take; [|lia]. rewrite lookup_drop.
  replace (Z.to_nat i + _)%nat with (length x + Z.to_nat i)%nat by lia.
  rewrite lookup_app_r by lia. rewrite lookup_app_l by lia. f_equal. lia.
Qed.

Lemma moved_down_step {A} (p x y z : list A) (i : Z) (v : A) :
  at_ y i = Some v →
  zset (p ++ moved_down x y z i) (zlen p + i) v = Ok (p ++ moved_down x y z (i + 1)).
Proof.
  intros Hv. pose proof (at_Some_bound _ _ _ Hv). unfold moved_down, zlen in *.
  destruct (drop_at (x ++ y ++ z) (Z.to_nat i)) as (w&_&Hd); [rewrite !length_app; lia|].
  rewrite Hd, app_assoc. rewrite zset_middle by (unfold zlen; rewrite length_app, length_take; lia).
  replace (Z.to_nat (i + 1)) with (S (Z.to_nat i)) by lia.
  unfold at_ in Hv. destruct (0 <=? i); [|done].
  rewrite (take_S_r _ _ v) by done. by rewrite <-!app_assoc.
Qed.

Lemma moved_down_0 {A} (x y z : list A) : moved_down x y z 0 = x ++ y ++ z.
Proof. done. Qed.

Lemma moved_down_all {A} (x y z : list A) :
  moved_down x y z (zlen y) = y ++ drop (length y) (x ++ y ++ z).
Proof. unfold moved_down, zlen. rewrite Nat2Z.id. by rewrite take_ge by lia. Qed.

Lemma copy_within_down {A} (x y z : list A) :
  copy_within (x ++ y ++ z) (zlen x) (zlen y) 0 =
  Ok (y ++ drop (length y) (x ++ y ++ z)).
Proof.
  unfold copy_within. rewrite <-(moved_down_all x y z), <-(moved_down_0 x y z).
  apply (for_range_states 0 (zlen y) _ (moved_down x y z)); [zlen|].
  intros i Hi. destruct (at_in_bound y i Hi) as [v Hv].
  erewrite zget_at by (rewrite moved_down_at by done; exact Hv). cbn [mbind result_bind].
  by apply (moved_down_step []).
Qed.

(** Moving [y] up by [k] cells, back to front. *)
Lemma copy_within_backward_up {A} (y x z : list A) :
  copy_within_backward (y ++ x ++ z) 0 (zlen y) (zlen x) =
  Ok (take (length x) (y ++ x ++ z) ++ y ++ z).
Proof.
  set (L := y ++ x ++ z).
  set (f := λ i, take (length y - Z.to_nat i + length x)%nat L ++
                 drop (length y - Z.to_nat i)%nat y ++ z).
  unfold copy_within_backward.
  assert (length L = length y + length x + length z)%nat as HL
    by (unfold L; rewrite !length_app; lia).
  assert (L = f 0) as HfL.
  { unfold f. replace (length y - Z.to_nat 0)%nat with (length y) by lia.
    rewrite drop_all. unfold L. rewrite (app_assoc y x z).
    rewrite take_app_length' by (rewrite length_app; lia). done. }
  rewrite HfL at 1. rewrite (for_range_states 0 (zlen y) _ f); [..|].
  - unfold f, zlen. rewrite Nat2Z.id, Nat.sub_diag. done.
  - zlen.
  - intros i Hi. unfold f, zlen in *.
    set (n := (length y - Z.to_nat (i + 1))%nat).
    replace (length y - Z.to_nat i)%nat with (S n) by lia.
    destruct (drop_at y n) as (v&Hv&Hd); [lia|].
    erewrite zget_at; cycle 1.
    { unfold at_. destruct (Z.leb_spec 0 (0 + Z.of_nat (length y) - 1 - i)); [|lia].
      instantiate (1 := v). replace (Z.to_nat _) with n by lia.
      rewrite lookup_app_l by (rewrite length_take; lia).
      rewrite lookup_take_lt by lia. unfold L. by rewrite lookup_app_l by lia. }
    simpl. destruct (lookup_lt_is_Some_2 L (n + length x)) as [w Hw]; [lia|].
    rewrite (take_S_r _ _ w) by done. rewrite <-app_assoc. cbn [app].
    assert (length (take (n + length x) L) = n + length x)%nat as Hl
      by (rewrite length_take; lia).
    rewrite zset_middle by (unfold zlen; lia). f_equal. by rewrite Hd.
Qed.

(** ** Standard algorithms *)

(** [std::lower_bound] on the index range [first, first + count): [less i] says whether
    the element at [i] is smaller than the searched value.  Halves the range until it is
    empty. *)
Definition lower_bound (less : Z → result bool) (first last : Z) : result Z :=
  '(first, _) ← while (S (Z.to_nat (last - first)))
    (λ '(first, count), Ok (0 <? count))
    (λ '(first, count),
       let step := count ÷ 2 in
       b ← less (first + step);
       if b : bool then Ok (first + step + 1, count - (step + 1)) else Ok (first, step))
    (first, last - first);
  Ok first.

(** On a partitioned range it returns the partition point. *)
Lemma lower_bound_spec (less : Z → result bool) (P : Z → bool) (first last : Z) :
  first ≤ last → (∀ i, first ≤ i < last → less i = Ok (P i)) →
  (∀ i j, first ≤ i ≤ j → j < last → P j = true → P i = true) →
  ∃ k, lower_bound less first last = Ok k ∧ first ≤ k ≤ last ∧
    (∀ i, first ≤ i < k → P i = true) ∧ (∀ i, k ≤ i < last → P i = false).
Proof.
  intros Hle Hless Hpart. apply wp_returns. unfold lower_bound. apply wp_bind.
  apply (wp_while (λ '(f, c), first ≤ f ∧ 0 ≤ c ∧ f + c ≤ last ∧
    (∀ i, first ≤ i < f → P i = true) ∧ (∀ i, f + c ≤ i < last → P i = false))
    (λ '(_, c), c)).
  - intros [f c] (Hf&Hc&Hl&Hlow&Hhigh). split; [done|]. cbn [wp].
    destruct (Z.ltb_spec 0 c) as [Hpos|Hz].
    + assert (0 ≤ c ÷ 2 < c) as Hstep by (rewrite Z.quot_div_nonneg by lia; Z.div_mod_to_equations; lia).
      rewrite Hless by lia. cbn [mbind result_bind].
      destruct (P (f + c ÷ 2)) eqn:HP; cbn [wp].
      * split; [|lia]. split_and!; [lia|lia|lia| |].
        -- intros i Hi. destruct (decide (i < f)); [apply Hlow; lia|].
           eapply (Hpart i (f + c ÷ 2)); [lia|lia|done].
        -- intros i Hi. apply Hhigh. lia.
      * split; [|lia]. split_and!; [lia|lia|lia|done|].
        intros i Hi. destruct (decide (f + c ≤ i)); [apply Hhigh; lia|].
        apply not_true_is_false. intros Hi'.
        rewrite (Hpart (f + c ÷ 2) i) in HP; [done|lia|lia|done].
    + cbn [mbind result_bind wp]. split_and!; [lia|lia|done|].
      intros i Hi. apply Hhigh. lia.
  - split_and!; [lia|lia|lia|intros; lia|intros; lia].
  - lia.
Qed.

(** Filters that keep everything or nothing. *)
Lemma filter_all {A} (P : A → Prop) `{∀ x, Decision (P x)} (l : list A) :
  (∀ x, x ∈ l → P x) → filter P l = l.
Proof.
  induction l as [|x l IH]; intros Hall; [done|].
  rewrite filter_cons_True by (apply Hall; by left). f_equal. apply IH. intros y ?. apply Hall. by right.
Qed.

Lemma filter_none {A} (P : A → Prop) `{∀ x, Decision (P x)} (l : list A) :
  (∀ x, x ∈ l → ¬ P x) → filter P l = [].
Proof.
  induction l as [|x l IH]; intros Hnone; [done|].
  rewrite filter_cons_False by (apply Hnone; by left). apply IH. intros y ?. apply Hnone. by right.
Qed.
