(* ===== verification/Keys.v ===== *)
(** * Keys, values and sorted sequences of values

    The template parameters shared by all data structures, the key comparison,
    and the reference operations on strictly sorted sequences that the block and
    array operations are specified against: [sinsert] inserts one value unless
    its key is present, [smerge] inserts a batch. *)

From S2P Require Export Prelude.

(** The template parameters KEY, VALUE, NULL_KEY and KEY_OF.  Keys are integers
    compared by [std::less], the default KEY_COMPARE.  [zeroValue] is a
    value-initialised [ValueType{}], [indeterminate] the content of a variable
    declared without initialiser.  [IsTrivialType] is [std::is_same_v<KeyType, ValueType>]:
    debug builds of such an instance also overwrite unused cells of blocks by [NULL_KEY] and
    check them, which is not modelled; [trivial_release] leaves these builds out. *)
Class SdsTypes := {
  ValueType : Type;
  keyOfValue : ValueType → Z;
  NULL_KEY : Z;
  zeroValue : ValueType;
  indeterminate : ValueType;
  NDEBUG : bool;
  IsTrivialType : bool;
  trivial_release : IsTrivialType = true → NDEBUG = true;
}.

Definition comp (a b : Z) : bool := a <? b.

Definition AssertMsg `{SdsTypes} (b : bool) : result unit := assert_unless NDEBUG b.

Section sorted.
Context `{T : SdsTypes}.
Implicit Types (v w : ValueType) (l batch : list ValueType) (k : Z).

Definition keys l : list Z := keyOfValue <$> l.

(** Strictly increasing keys: no duplicates. *)
Definition sorted l : Prop := StronglySorted (λ v w, keyOfValue v < keyOfValue w) l.

(** Sorted, but possibly with repeated keys. *)
Definition nondecreasing l : Prop :=
  StronglySorted (λ v w, keyOfValue v ≤ keyOfValue w) l.

Definition below l k : Prop := Forall (λ v, keyOfValue v < k) l.
Definition above k l : Prop := Forall (λ v, k < keyOfValue v) l.

Fixpoint sinsert v l : list ValueType :=
  match l with
  | [] => [v]
  | w :: l' =>
      if keyOfValue w <? keyOfValue v then w :: sinsert v l'
      else if keyOfValue w =? keyOfValue v then w :: l'
      else v :: w :: l'
  end.

(** Insert a batch; a value whose key is already present is dropped. *)
Definition smerge l batch : list ValueType := foldl (λ l v, sinsert v l) l batch.

Lemma sorted_nil : sorted [].
Proof. constructor. Qed.

Lemma sorted_cons v l : sorted (v :: l) ↔ above (keyOfValue v) l ∧ sorted l.
Proof.
  unfold sorted, above. split.
  - inversion 1; subst. done.
  - intros [? ?]. by constructor.
Qed.

Lemma nondecreasing_cons v l :
  nondecreasing (v :: l) ↔ above (keyOfValue v - 1) l ∧ nondecreasing l.
Proof.
  unfold nondecreasing, above. split.
  - inversion 1; subst. split; [|done]. eapply Forall_impl; [done|]. simpl. lia.
  - intros [? ?]. constructor; [done|]. eapply Forall_impl; [done|]. simpl. lia.
Qed.

Lemma sorted_nondecreasing l : sorted l → nondecreasing l.
Proof.
  induction l as [|v l IH]; [constructor|]. rewrite sorted_cons, nondecreasing_cons.
  intros [Ha ?]. split; [|auto]. eapply Forall_impl; [exact Ha|]. simpl. lia.
Qed.

Lemma below_weaken l k k' : below l k → k ≤ k' → below l k'.
Proof. intros H ?. eapply Forall_impl; [exact H|]. simpl. lia. Qed.

Lemma above_weaken l k k' : above k l → k' ≤ k → above k' l.
Proof. intros H ?. eapply Forall_impl; [exact H|]. simpl. lia. Qed.

Lemma below_app l l' k : below (l ++ l') k ↔ below l k ∧ below l' k.
Proof. apply Forall_app. Qed.

Lemma above_app l l' k : above k (l ++ l') ↔ above k l ∧ above k l'.
Proof. apply Forall_app. Qed.

Lemma below_cons v l k : below (v :: l) k ↔ keyOfValue v < k ∧ below l k.
Proof. unfold below, above. by rewrite Forall_cons. Qed.

Lemma above_cons v l k : above k (v :: l) ↔ k < keyOfValue v ∧ above k l.
Proof. unfold below, above. by rewrite Forall_cons. Qed.

Lemma sorted_app l l' :
  sorted (l ++ l') ↔
  sorted l ∧ sorted l' ∧ (∀ v w, v ∈ l → w ∈ l' → keyOfValue v < keyOfValue w).
Proof.
  unfold sorted. rewrite StronglySorted_app. naive_solver.
Qed.

(** A strictly sorted sequence around one of its values. *)
Lemma sorted_middle l v l' :
  sorted (l ++ v :: l') ↔
  sorted l ∧ sorted l' ∧ below l (keyOfValue v) ∧ above (keyOfValue v) l'.
Proof.
  rewrite sorted_app, sorted_cons. unfold below, above. rewrite !Forall_forall.
  setoid_rewrite elem_of_cons. split.
  - intros (?&(?&?)&Hlt). split_and!; eauto.
  - intros (?&?&Hb&Ha). split_and!; [done|done|done|].
    intros w x ? [->|]; [by apply Hb|].
    apply (Z.lt_trans _ (keyOfValue v)); [by apply Hb|by apply Ha].
Qed.

Lemma elem_of_keys k l : k ∈ keys l ↔ ∃ v, v ∈ l ∧ keyOfValue v = k.
Proof. unfold keys. rewrite list_elem_of_fmap. naive_solver. Qed.

Lemma keys_nil : keys [] = [].
Proof. done. Qed.

Lemma keys_cons v l : keys (v :: l) = keyOfValue v :: keys l.
Proof. done. Qed.

Lemma elem_of_keys_cons v l k : k ∈ keys (v :: l) ↔ k = keyOfValue v ∨ k ∈ keys l.
Proof. rewrite keys_cons. apply elem_of_cons. Qed.

Lemma keys_app l l' : keys (l ++ l') = keys l ++ keys l'.
Proof. apply fmap_app. Qed.

Lemma below_keys l k : below l k ↔ ∀ k', k' ∈ keys l → k' < k.
Proof. unfold below, keys. rewrite Forall_forall. setoid_rewrite list_elem_of_fmap. naive_solver. Qed.

Lemma above_keys l k : above k l ↔ ∀ k', k' ∈ keys l → k < k'.
Proof. unfold above, keys. rewrite Forall_forall. setoid_rewrite list_elem_of_fmap. naive_solver. Qed.

Lemma sinsert_new l v l' :
  below l (keyOfValue v) → above (keyOfValue v) l' →
  sinsert v (l ++ l') = l ++ v :: l'.
Proof.
  induction l as [|w l IH]; simpl.
  - intros _. destruct l' as [|w l']; [done|]. rewrite above_cons. intros [? _]. simpl.
    bool_cases; done || lia.
  - rewrite below_cons. intros [? ?] ?. bool_cases; [|lia|lia]. f_equal. auto.
Qed.

Lemma sinsert_present l v w l' :
  below l (keyOfValue v) → keyOfValue w = keyOfValue v →
  sinsert v (l ++ w :: l') = l ++ w :: l'.
Proof.
  induction l as [|x l IH]; simpl.
  - intros _ ->. bool_cases; done || lia.
  - rewrite below_cons. intros [? ?] ?. bool_cases; [|lia|lia]. f_equal. auto.
Qed.

Lemma sinsert_app_l v l l' :
  above (keyOfValue v) l' → sinsert v (l ++ l') = sinsert v l ++ l'.
Proof.
  intros Ha. induction l as [|w l IH]; simpl.
  - apply (sinsert_new [] v l'); [constructor|done].
  - bool_cases; simpl; [by f_equal|done|done].
Qed.

Lemma sinsert_app_r v l l' :
  below l (keyOfValue v) → sinsert v (l ++ l') = l ++ sinsert v l'.
Proof.
  induction l as [|w l IH]; simpl; [done|]. rewrite below_cons. intros [? ?].
  bool_cases; [|lia|lia]. f_equal. auto.
Qed.

Lemma keys_sinsert v l k : k ∈ keys (sinsert v l) ↔ k = keyOfValue v ∨ k ∈ keys l.
Proof.
  induction l as [|w l IH]; cbn [sinsert].
  - apply elem_of_keys_cons.
  - bool_cases; rewrite ?elem_of_keys_cons; naive_solver.
Qed.

Lemma sorted_sinsert v l : sorted l → sorted (sinsert v l).
Proof.
  induction l as [|w l IH]; simpl.
  - intros _. apply sorted_cons. split; [constructor|apply sorted_nil].
  - rewrite sorted_cons. intros [Ha Hs]. bool_cases.
    + apply sorted_cons. split; [|auto]. apply above_keys. intros k'.
      rewrite keys_sinsert. rewrite above_keys in Ha. naive_solver.
    + by apply sorted_cons.
    + rewrite !sorted_cons, above_cons. split_and!; [lia| |done|done].
      eapply above_weaken; [done|lia].
Qed.

Lemma elem_of_sinsert v l w :
  sorted l → w ∈ sinsert v l ↔ w ∈ l ∨ (w = v ∧ keyOfValue v ∉ keys l).
Proof.
  induction l as [|x l IH]; cbn [sinsert].
  - intros _. rewrite keys_nil. set_solver.
  - rewrite sorted_cons. intros [Ha Hs]. rewrite above_keys in Ha.
    rewrite elem_of_keys_cons. bool_cases; rewrite ?elem_of_cons, ?IH by done.
    + split; [|tauto]. intros [?|[?|[? ?]]]; [tauto|tauto|]. right. split; [done|].
      intros [?|?]; [lia|done].
    + split; [tauto|]. intros [?|[-> Hn]]; [done|]. destruct Hn. by left.
    + split; [|tauto]. intros [->|?]; [|tauto]. right. split; [done|].
      intros [?|Hin%Ha]; lia.
Qed.

Lemma sinsert_comm v w l :
  sorted l → keyOfValue v ≠ keyOfValue w → sinsert v (sinsert w l) = sinsert w (sinsert v l).
Proof.
  intros Hs Hne. induction l as [|x l IH]; cbn [sinsert].
  - bool_cases; done || lia.
  - apply sorted_cons in Hs as [_ Hs].
    repeat (cbn [sinsert]; bool_cases; try lia; try done). f_equal. auto.
Qed.

Lemma smerge_nil l : smerge l [] = l.
Proof. done. Qed.

Lemma smerge_cons l v batch : smerge l (v :: batch) = smerge (sinsert v l) batch.
Proof. done. Qed.

Lemma smerge_app l b1 b2 : smerge l (b1 ++ b2) = smerge (smerge l b1) b2.
Proof. apply foldl_app. Qed.

Lemma smerge_snoc l batch v : smerge l (batch ++ [v]) = sinsert v (smerge l batch).
Proof. by rewrite smerge_app. Qed.

Lemma keys_smerge l batch k : k ∈ keys (smerge l batch) ↔ k ∈ keys l ∨ k ∈ keys batch.
Proof.
  revert l. induction batch as [|v batch IH]; intros l; rewrite ?smerge_nil, ?smerge_cons.
  - rewrite keys_nil. set_solver.
  - rewrite IH, keys_sinsert, elem_of_keys_cons. tauto.
Qed.

Lemma sorted_smerge l batch : sorted l → sorted (smerge l batch).
Proof.
  revert l. induction batch as [|v batch IH]; intros l ?; simpl; [done|].
  apply IH. by apply sorted_sinsert.
Qed.

Lemma elem_of_smerge l batch w :
  sorted l → NoDup (keys batch) →
  w ∈ smerge l batch ↔ w ∈ l ∨ (w ∈ batch ∧ keyOfValue w ∉ keys l).
Proof.
  revert l. induction batch as [|v batch IH]; intros l Hs Hnd; simpl.
  - set_solver.
  - rewrite keys_cons in Hnd. apply NoDup_cons in Hnd as [Hv Hnd].
    rewrite IH by (by try apply sorted_sinsert).
    rewrite elem_of_sinsert, keys_sinsert, elem_of_cons by done. split.
    + intros [[?|[-> ?]]|[? ?]]; [tauto|tauto|]. right. split; [tauto|]. tauto.
    + intros [?|[[->|?] Hn]]; [tauto|tauto|]. right. split; [done|].
      intros [Heq|]; [|done]. apply Hv. rewrite <-Heq. by apply list_elem_of_fmap_2.
Qed.

(** The last value of a batch may be inserted first. *)
Lemma smerge_last l batch v :
  sorted l → (keyOfValue v ∉ keys batch) →
  smerge l (batch ++ [v]) = smerge (sinsert v l) batch.
Proof.
  rewrite smerge_snoc. revert l. induction batch as [|w batch IH]; intros l Hs Hv; [done|].
  rewrite !smerge_cons. rewrite elem_of_keys_cons in Hv.
  rewrite IH by (by apply sorted_sinsert || tauto). f_equal. apply sinsert_comm; [done|tauto].
Qed.

(** The batch splits along the sequence it is merged into. *)
Lemma smerge_app_l l l' batch :
  (∀ k, k ∈ keys batch → above k l') → smerge (l ++ l') batch = smerge l batch ++ l'.
Proof.
  revert l. induction batch as [|v batch IH]; intros l Ha; simpl; [done|].
  rewrite sinsert_app_l.
  - apply IH. intros k ?. apply Ha, elem_of_keys_cons. by right.
  - apply Ha, elem_of_keys_cons. by left.
Qed.

Lemma smerge_app_r l l' batch :
  (∀ k, k ∈ keys batch → below l k) → smerge (l ++ l') batch = l ++ smerge l' batch.
Proof.
  revert l'. induction batch as [|v batch IH]; intros l' Hb; simpl; [done|].
  rewrite sinsert_app_r.
  - apply IH. intros k ?. apply Hb, elem_of_keys_cons. by right.
  - apply Hb, elem_of_keys_cons. by left.
Qed.

Lemma length_sinsert v l :
  zlen l ≤ zlen (sinsert v l) ≤ zlen l + 1.
Proof.
  induction l as [|w l IH]; simpl; [unfold zlen; simpl; lia|].
  bool_cases; rewrite ?zlen_cons in *; lia.
Qed.

Lemma length_smerge l batch :
  zlen l ≤ zlen (smerge l batch) ≤ zlen l + zlen batch.
Proof.
  revert l. induction batch as [|v batch IH]; intros l; simpl.
  - rewrite zlen_nil. lia.
  - specialize (IH (sinsert v l)). pose proof (length_sinsert v l).
    rewrite zlen_cons. lia.
Qed.

(** Where a key falls in a sequence: all smaller keys before it. *)
Lemma split_at_key l k :
  sorted l → ∃ l1 l2, l = l1 ++ l2 ∧ below l1 k ∧ above (k - 1) l2.
Proof.
  induction l as [|v l IH]; intros Hs.
  - exists [], []. split_and!; [done|constructor|constructor].
  - apply sorted_cons in Hs as [Ha Hs]. destruct (decide (keyOfValue v < k)) as [Hlt|Hge].
    + destruct (IH Hs) as (l1&l2&->&Hb&Hab). exists (v :: l1), l2.
      split_and!; [done|by apply below_cons|done].
    + exists [], (v :: l). split_and!; [done|constructor|].
      apply above_cons. split; [lia|]. eapply above_weaken; [exact Ha|lia].
Qed.

Lemma above_pred k l :
  above (k - 1) l → k ∉ keys l → above k l.
Proof.
  rewrite !above_keys. intros Ha Hn k' Hk'. specialize (Ha k' Hk').
  assert (k' ≠ k) by congruence. lia.
Qed.

Lemma below_not_in l k : below l k → k ∉ keys l.
Proof. rewrite below_keys. intros Hb Hk%Hb. lia. Qed.

Lemma above_not_in l k : above k l → k ∉ keys l.
Proof. rewrite above_keys. intros Ha Hk%Ha. lia. Qed.

(** Indexed forms. *)
Lemma sorted_at_lt l i j v w :
  sorted l → at_ l i = Some v → at_ l j = Some w → i < j → keyOfValue v < keyOfValue w.
Proof.
  intros Hs Hi Hj Hij.
  pose proof (at_Some_bound _ _ _ Hi). pose proof (at_Some_bound _ _ _ Hj).
  revert i j Hi Hj Hij H H0. induction l as [|x l IH]; intros i j Hi Hj Hij ? ?.
  { unfold zlen in *. simpl in *. lia. }
  apply sorted_cons in Hs as [Ha Hs]. rewrite at_cons in Hi, Hj. rewrite zlen_cons in *.
  destruct (Z.eqb_spec j 0); [lia|]. destruct (Z.eqb_spec i 0).
  - simplify_eq. unfold above in Ha. rewrite Forall_forall in Ha. apply Ha.
    unfold at_ in Hj. destruct (0 <=? j - 1); [|done]. by eapply list_elem_of_lookup_2.
  - eapply (IH Hs (i - 1) (j - 1)); eauto; lia.
Qed.

Lemma below_at l k : below l k ↔ ∀ i v, at_ l i = Some v → keyOfValue v < k.
Proof.
  unfold below. rewrite Forall_lookup. split.
  - intros H i v. unfold at_. destruct (0 <=? i); [|done]. apply H.
  - intros H i v Hi. apply (H (Z.of_nat i)). by rewrite at_nat.
Qed.

Lemma above_at l k : above k l ↔ ∀ i v, at_ l i = Some v → k < keyOfValue v.
Proof.
  unfold above. rewrite Forall_lookup. split.
  - intros H i v. unfold at_. destruct (0 <=? i); [|done]. apply H.
  - intros H i v Hi. apply (H (Z.of_nat i)). by rewrite at_nat.
Qed.

Lemma sorted_NoDup_keys l : sorted l → NoDup (keys l).
Proof.
  induction l as [|v l IH]; [constructor|]. rewrite sorted_cons. intros [Ha Hs].
  rewrite keys_cons. constructor; [by apply above_not_in|auto].
Qed.

Lemma filter_key_absent l k : (k ∉ keys l) → filter (λ v, keyOfValue v ≠ k) l = l.
Proof.
  induction l as [|v l IH]; [done|]. rewrite elem_of_keys_cons. intros Hn.
  rewrite filter_cons_True by (intros Heq; apply Hn; auto). f_equal. apply IH. tauto.
Qed.

Lemma filter_key_middle l v l' :
  sorted (l ++ v :: l') → filter (λ w, keyOfValue w ≠ keyOfValue v) (l ++ v :: l') = l ++ l'.
Proof.
  intros (_&_&Hb&Ha)%sorted_middle. rewrite filter_app, filter_cons_False by tauto.
  by rewrite !filter_key_absent by first [by apply below_not_in|by apply above_not_in].
Qed.

(** Several batches. *)
Lemma keys_foldl (batches : list (list ValueType)) l k :
  k ∈ keys (foldl smerge l batches) ↔ k ∈ keys l ∨ k ∈ keys (concat batches).
Proof.
  revert l. induction batches as [|b bs IH]; intros l; simpl.
  - split; [tauto|]. intros [?|?%elem_of_nil]; done.
  - rewrite IH, keys_smerge, keys_app, elem_of_app. tauto.
Qed.

Lemma length_foldl (batches : list (list ValueType)) l : zlen (foldl smerge l batches) ≤ zlen l + zlen (concat batches).
Proof.
  revert l. induction batches as [|b bs IH]; intros l; simpl; [change (zlen []) with 0; lia|].
  specialize (IH (smerge l b)). pose proof (length_smerge l b). rewrite zlen_app. lia.
Qed.
End sorted.
