(* ===== verification/Block.v ===== *)
(** * PmaEntry: one block of a packed memory array (dataStructures/block.hpp)

    The operations of class [PmaEntry], one definition per member function.  A
    block pointer is [None] for [nullptr] and otherwise the whole
    [std::array<ValueType, MaxSize>], including the cells behind [size], which the
    code does read.  [AssertMsg] is checked unless [NDEBUG] is set; the branches
    under [if constexpr (IsTrivialType)] are those of a value type with a mapped
    part, for which they are not compiled. *)

From S2P Require Export Keys.

(** The template parameters MIN_SIZE and MAX_SIZE. *)
Class BlockConfig := { MinSize : Z; MaxSize : Z }.

Module PmaEntry.
Section definitions.
  Context `{T : SdsTypes} `{C : BlockConfig}.

Record PmaEntry := mkPmaEntry {
  block : option (list ValueType);
  head : Z;
  size : Z;
}.

(** [PmaEntry()]. *)
Definition null_entry : PmaEntry := mkPmaEntry None NULL_KEY 0.

Definition set_block (b : PmaEntry) (x : option (list ValueType)) : PmaEntry :=
  mkPmaEntry x (head b) (size b).
Definition set_head (b : PmaEntry) (x : Z) : PmaEntry := mkPmaEntry (block b) x (size b).
Definition set_size (b : PmaEntry) (x : Z) : PmaEntry := mkPmaEntry (block b) (head b) x.

Definition has_block (b : PmaEntry) : bool :=
  match block b with Some _ => true | None => false end.

Definition isEmpty (b : PmaEntry) : bool := negb (has_block b).

(** Dereferencing the block pointer. *)
Definition deref (b : PmaEntry) : result (list ValueType) :=
  match block b with Some c => Ok c | None => Err BadAccess end.

Definition allocateBlock (b : PmaEntry) : result PmaEntry :=
  AssertMsg (isEmpty b);;
  Ok (set_block b (Some (replicate (Z.to_nat MaxSize) zeroValue))).

Definition deleteBlock (b : PmaEntry) : result PmaEntry :=
  AssertMsg (has_block b);;
  Ok (set_block b None).

Definition get (b : PmaEntry) (index : Z) : result ValueType :=
  AssertMsg (has_block b);;
  c ← deref b;
  zget c index.

(** [( *block)[index] = v]. *)
Definition put (b : PmaEntry) (index : Z) (v : ValueType) : result PmaEntry :=
  c ← deref b;
  c' ← zset c index v;
  Ok (set_block b (Some c')).

Definition updateHead (b : PmaEntry) : result PmaEntry :=
  v ← get b 0;
  Ok (set_head b (keyOfValue v)).

(** [size == 0 || head == KeyOf::keyOfValue(get(0))]. *)
Definition headValid (b : PmaEntry) : result bool :=
  if size b =? 0 then Ok true else
  v ← get b 0;
  Ok (head b =? keyOfValue v).

(** [AssertMsg(size == 0 || head == ..., "Wrong head")]: the condition is only
    evaluated when assertions are compiled. *)
Definition assertHead (b : PmaEntry) : result unit :=
  if NDEBUG then Ok tt else (ok ← headValid b; AssertMsg ok).

Definition linearSearch (b : PmaEntry) (e searchStart : Z) : result Z :=
  while (S (Z.to_nat (size b - searchStart)))
    (λ pos, if pos <? size b then v ← get b pos; Ok (comp (keyOfValue v) e) else Ok false)
    (λ pos, Ok (u16 (pos + 1)))
    searchStart.

(** State of the loop of [makeFree]: the shift index, the block and the carry. *)
Definition makeFree (b : PmaEntry) (index : Z) : result PmaEntry :=
  '(_, b', _) ← while (S (Z.to_nat (size b + 1 - index)))
    (λ '(shift, b', _), Ok (shift <=? size b))
    (λ '(shift, b', carry),
       old ← (c ← deref b'; zget c shift);
       b'' ← put b' shift carry;
       Ok (u16 (shift + 1), b'', old))
    (index, b, indeterminate);
  Ok b'.

Definition insertAtIndex (b : PmaEntry) (e : ValueType) (index : Z) : result PmaEntry :=
  AssertMsg (has_block b);;
  b1 ← makeFree b index;
  b2 ← put b1 index e;
  Ok (set_size b2 (u16 (size b2 + 1))).

Definition moveForward (b : PmaEntry) (index : Z) : result PmaEntry :=
  '(_, b') ← while (S (Z.to_nat (size b - index)))
    (λ '(shift, b'), Ok (shift + 1 <? size b))
    (λ '(shift, b'),
       v ← get b' (shift + 1);
       b'' ← put b' shift v;
       Ok (u16 (shift + 1), b''))
    (index, b);
  Ok b'.

(** Returns the block, whether the element was inserted, and its index. *)
Definition insertWithIndex (b : PmaEntry) (e : ValueType) (searchStartIndex : Z)
    : result (PmaEntry * (bool * Z)) :=
  AssertMsg (has_block b);;
  AssertMsg (size b <? MaxSize);;
  insertionPosition ← linearSearch b (keyOfValue e) searchStartIndex;
  v ← get b insertionPosition;
  if keyOfValue v =? keyOfValue e then
    assertHead b;;
    Ok (b, (false, insertionPosition))
  else
    b1 ← insertAtIndex b e insertionPosition;
    b2 ← (if insertionPosition =? 0 then updateHead b1 else Ok b1);
    assertHead b2;;
    Ok (b2, (true, insertionPosition)).

(** [merge(batch + from, numberOfElements)]. *)
Definition merge (b : PmaEntry) (batch : list ValueType) (from numberOfElements : Z)
    : result PmaEntry :=
  AssertMsg (has_block b);;
  AssertMsg (0 <? numberOfElements);;
  e0 ← zget batch from;
  insertionPosition ← linearSearch b (keyOfValue e0) 0;
  v ← get b insertionPosition;
  b0 ← (if negb (keyOfValue v =? keyOfValue e0) then
          b1 ← insertAtIndex b e0 insertionPosition;
          if insertionPosition =? 0 then updateHead b1 else Ok b1
        else Ok b);
  '(b', _) ← for_range 1 numberOfElements
    (λ i '(b, insertionPosition),
       e ← zget batch (from + i);
       pos ← linearSearch b (keyOfValue e) insertionPosition;
       v ← get b pos;
       if negb (keyOfValue v =? keyOfValue e) then
         b1 ← insertAtIndex b e pos;
         Ok (b1, pos)
       else Ok (b, pos))
    (b0, insertionPosition);
  assertHead b';;
  Ok b'.

Definition findIndex (b : PmaEntry) (e : Z) : result Z :=
  AssertMsg (has_block b);;
  linearSearch b e 0.

Definition contains (b : PmaEntry) (e : Z) : result bool :=
  AssertMsg (has_block b);;
  pos ← linearSearch b e 0;
  if pos <? size b then v ← get b pos; Ok (e =? keyOfValue v) else Ok false.

(** [remove] passes the value itself to [linearSearch], so it only compiles for
    value types that are their own key. *)
Definition remove (b : PmaEntry) (e : ValueType) : result (PmaEntry * bool) :=
  AssertMsg (has_block b);;
  pos ← linearSearch b (keyOfValue e) 0;
  found ← (if pos <? size b
           then v ← get b pos; Ok (keyOfValue v =? keyOfValue e) else Ok false);
  if found : bool then
    b1 ← moveForward b pos;
    let b2 := set_size b1 (u16 (size b1 - 1)) in
    b3 ← updateHead b2;
    assertHead b3;;
    Ok (b3, true)
  else
    assertHead b;;
    Ok (b, false).

Definition removeLast (b : PmaEntry) : result PmaEntry :=
  let b' := set_size b (u16 (size b - 1)) in
  assertHead b';;
  Ok b'.

(** Returns the block and the new block of the elements split to the right. *)
Definition split (b : PmaEntry) : result (PmaEntry * PmaEntry) :=
  assertHead b;;
  AssertMsg (has_block b);;
  AssertMsg (size b =? MaxSize);;
  rightHalf ← allocateBlock null_entry;
  let splitPosition := u16 (MaxSize ÷ 2) in
  c ← deref b;
  rc ← deref rightHalf;
  rc' ← copy_up c splitPosition (MaxSize - splitPosition) rc 0;
  let b' := set_size b splitPosition in
  rightHalf' ← updateHead (set_size (set_block rightHalf (Some rc')) splitPosition);
  assertHead b';;
  Ok (b', rightHalf').

Definition mergeSmaller (b other : PmaEntry) : result PmaEntry :=
  AssertMsg (has_block b);;
  AssertMsg (has_block other);;
  b1 ← for_range 0 (size b)
    (λ k b', let i := size b - 1 - k in
             v ← get b' i; put b' (u16 (size other) + i) v) b;
  b2 ← for_range 0 (size other) (λ i b', v ← get other i; put b' i v) b1;
  b3 ← updateHead (set_size b2 (u16 (size b + size other)));
  assertHead b3;;
  Ok b3.

(** [steal(right)]: returns this block and [right]. *)
Definition steal (b right : PmaEntry) : result (PmaEntry * PmaEntry) :=
  AssertMsg (has_block b);;
  AssertMsg (has_block right);;
  AssertMsg (0 <? size b);;
  AssertMsg (2 * MinSize <=? size b + size right);;
  let numberOfElementsNeeded := u16 (MinSize - size b) in
  c ← deref b;
  rc ← deref right;
  c' ← copy_up rc 0 numberOfElementsNeeded c (size b);
  let b1 := set_size (set_block b (Some c')) (u16 (size b + numberOfElementsNeeded)) in
  rc' ← copy_within rc numberOfElementsNeeded (size right - numberOfElementsNeeded) 0;
  let right1 := set_size (set_block right (Some rc')) (u16 (size right - numberOfElementsNeeded)) in
  AssertMsg (MinSize <=? size b1);;
  AssertMsg (MinSize <=? size right1);;
  right2 ← updateHead right1;
  assertHead b1;;
  Ok (b1, right2).

(** [stealFromSmaller(left)]: returns this block and [left]. *)
Definition stealFromSmaller (b left : PmaEntry) : result (PmaEntry * PmaEntry) :=
  AssertMsg (has_block b);;
  AssertMsg (has_block left);;
  AssertMsg (0 <? size b);;
  AssertMsg (2 * MinSize <=? size b + size left);;
  let numberOfElementsNeeded := u16 (MinSize - size b) in
  c ← deref b;
  lc ← deref left;
  c1 ← copy_within_backward c 0 (size b) numberOfElementsNeeded;
  c2 ← copy_up lc (size left - numberOfElementsNeeded) numberOfElementsNeeded c1 0;
  let b1 := set_size (set_block b (Some c2)) (u16 (size b + numberOfElementsNeeded)) in
  let left1 := set_size left (u16 (size left - numberOfElementsNeeded)) in
  AssertMsg (MinSize <=? size b1);;
  AssertMsg (MinSize <=? size left1);;
  b2 ← updateHead b1;
  assertHead b2;;
  Ok (b2, left1).

End definitions.
End PmaEntry.
