(* ===== verification/BlockFacts.v ===== *)
(** * Correctness of the block operations

    [represents b l rest]: entry [b] stores the sequence [l], and the cells
    behind it hold [rest].  The stale cells [rest] are part of the statements,
    because insertion compares the new key with the first of them. *)

From S2P Require Export Block.
Import PmaEntry.

(** The block fits the 16-bit size type. *)
Class BlockConfigOk `{C : BlockConfig} : Prop := {
  MaxSize_pos : 0 < MaxSize;
  MaxSize_u16 : MaxSize < 65536;
}.

(** [MinBlockSize = BlockSize / 2], of an even block size of at least four. *)
Class HalfBlocks `{C : BlockConfig} : Prop := {
  MinSize_two : 2 ≤ MinSize;
  MaxSize_double : MaxSize = 2 * MinSize;
}.

Section facts.
Context `{T : SdsTypes} `{C : BlockConfig} `{!BlockConfigOk}.
Implicit Types (b : PmaEntry) (l rest batch : list ValueType) (e v w : ValueType).

(** [holds]: the cells and the size; [represents]: the head as well. *)
Definition holds b l rest : Prop :=
  block b = Some (l ++ rest) ∧ zlen l + zlen rest = MaxSize ∧ size b = zlen l.

Definition head_of l (k : Z) : Prop :=
  match l with [] => True | v :: _ => k = keyOfValue v end.

Definition represents b l rest : Prop := holds b l rest ∧ head_of l (head b).

(** A stale cell carries a key of [ks] only if an element of [l] does. *)
Definition fresh l rest (ks : list Z) : Prop :=
  ∀ v, v ∈ rest → keyOfValue v ∈ ks → keyOfValue v ∈ keys l.

Lemma holds_bounds b l rest : holds b l rest → 0 ≤ size b ≤ MaxSize ∧ MaxSize < 65536.
Proof.
  intros (_&?&->). pose proof (zlen_nonneg l). pose proof (zlen_nonneg rest).
  pose proof MaxSize_u16. lia.
Qed.

Lemma holds_has_block b l rest : holds b l rest → has_block b = true.
Proof. unfold has_block. by intros (->&_). Qed.

Lemma get_at b l rest i v :
  holds b l rest → at_ (l ++ rest) i = Some v → get b i = Ok v.
Proof.
  intros Hb Hi. unfold get, AssertMsg, assert_unless.
  rewrite (holds_has_block _ _ _ Hb). unfold deref. destruct Hb as (->&_).
  destruct NDEBUG; simpl; by rewrite (zget_at _ _ _ Hi).
Qed.

Lemma put_middle b l1 x l2 v :
  block b = Some (l1 ++ x :: l2) →
  put b (zlen l1) v = Ok (set_block b (Some (l1 ++ v :: l2))).
Proof.
  intros Hb. unfold put, deref. rewrite Hb. simpl.
  pose proof (zlen_nonneg l1). pose proof (zlen_nonneg l2).
  rewrite zset_in by (rewrite zlen_app, zlen_cons; lia). simpl. by rewrite zupd_middle.
Qed.

Lemma assert_ok (b : bool) : b = true → AssertMsg b = Ok tt.
Proof. intros ->. unfold AssertMsg, assert_unless. by destruct NDEBUG. Qed.

Lemma assertHead_ok b l rest : represents b l rest → assertHead b = Ok tt.
Proof.
  intros [Hb Hh]. unfold assertHead, headValid. destruct NDEBUG; [done|].
  destruct (Z.eqb_spec (size b) 0); simpl; [by apply assert_ok|].
  destruct Hb as (Hblk&Hlen&Hs). destruct l as [|v l]; [done|].
  erewrite (get_at b (v :: l) rest); [|by split_and!|].
  - simpl in *. rewrite Hh. simpl. apply assert_ok. apply Z.eqb_refl.
  - by rewrite at_app_l, at_cons by (rewrite zlen_cons; pose proof (zlen_nonneg l); lia).
Qed.

Lemma updateHead_ok b v l rest :
  holds b (v :: l) rest → updateHead b = Ok (set_head b (keyOfValue v)).
Proof.
  intros Hb. unfold updateHead. erewrite get_at; [done|exact Hb|].
  by rewrite at_app_l, at_cons by (rewrite zlen_cons; pose proof (zlen_nonneg l); lia).
Qed.

(** *** Linear search *)

Lemma linearSearch_split b l1 l2 l3 rest (e : Z) :
  holds b (l1 ++ l2 ++ l3) rest → below l2 e →
  match l3 with [] => True | v :: _ => e ≤ keyOfValue v end →
  linearSearch b e (zlen l1) = Ok (zlen l1 + zlen l2).
Proof.
  intros Hb He Hstop. unfold linearSearch.
  pose proof (holds_bounds _ _ _ Hb) as Hbnd. destruct Hb as (Hblk&Hlen&Hs).
  rewrite Hs. rewrite !zlen_app in *.
  replace (Z.to_nat (zlen l1 + (zlen l2 + zlen l3) - zlen l1))
    with (length l2 + length l3)%nat by (unfold zlen; lia).
  revert l1 Hblk Hlen Hs. induction l2 as [|v l2 IH]; intros l1 Hblk Hlen Hs.
  - replace (zlen l1 + zlen []) with (zlen l1) by zlen. apply while_exit.
    destruct l3 as [|v l3].
    + by replace (zlen l1 <? _) with false by (symmetry; apply Z.ltb_ge; zlen).
    + replace (zlen l1 <? _) with true by (symmetry; apply Z.ltb_lt; zlen).
      erewrite (get_at b (l1 ++ [] ++ v :: l3) rest); cycle 1.
      { split_and!; [done|zlen|zlen]. }
      { simpl. rewrite <-app_assoc. simpl. apply at_middle. }
      simpl. unfold comp. by destruct (Z.ltb_spec (keyOfValue v) e); [lia|].
  - apply below_cons in He as [Hv He]. cbn [length Nat.add]. erewrite while_iterate; cycle 1.
    { replace (zlen l1 <? _) with true by (symmetry; apply Z.ltb_lt; zlen).
      erewrite (get_at b (l1 ++ (v :: l2) ++ l3) rest); cycle 1.
      { split_and!; [done|zlen|zlen]. }
      { rewrite <-app_assoc. simpl. apply at_middle. }
      simpl. unfold comp. by destruct (Z.ltb_spec (keyOfValue v) e); [|lia]. }
    { reflexivity. }
    rewrite u16_small by zlen. specialize (IH He (l1 ++ [v])).
    replace (zlen (l1 ++ [v])) with (zlen l1 + 1) in IH by zlen.
    replace (zlen l1 + (zlen (v :: l2) + zlen l3)) with (zlen l1 + 1 + (zlen l2 + zlen l3)) by zlen.
    rewrite IH; [f_equal; zlen|rewrite Hblk; f_equal; rewrite <-!app_assoc; done|zlen|zlen].
Qed.

Lemma linearSearch_sorted b p q rest (e : Z) :
  holds b (p ++ q) rest → sorted q → below p e →
  ∃ q1 q2, q = q1 ++ q2 ∧ below q1 e ∧ above (e - 1) q2 ∧
    linearSearch b e (zlen p) = Ok (zlen (p ++ q1)).
Proof.
  intros Hb Hs Hp. destruct (split_at_key q e Hs) as (q1&q2&->&Hq1&Hq2).
  exists q1, q2. split_and!; [done|done|done|]. rewrite zlen_app.
  apply (linearSearch_split b p q1 q2 rest); [done|done|].
  destruct q2 as [|v q2]; [done|]. apply above_cons in Hq2. lia.
Qed.

(** *** Making room and inserting *)

(** The cells after the shift loop: the carry enters in front. *)
Fixpoint shift_in v l : list ValueType :=
  match l with [] => [] | w :: l' => v :: shift_in w l' end.

Lemma shift_in_snoc v l w : shift_in v (l ++ [w]) = v :: l.
Proof. revert v. induction l as [|x l IH]; intros v; simpl; [done|]. by rewrite IH. Qed.

Lemma makeFree_loop b l mid rest v (fuel : nat) (sz : Z) :
  block b = Some (l ++ mid ++ rest) → sz + 1 = zlen l + zlen mid → sz < 65535 →
  (length mid < fuel)%nat →
  ∃ st, while fuel
    (λ '(shift, b', _), Ok (shift <=? sz))
    (λ '(shift, b', carry),
       old ← (c ← deref b'; zget c shift);
       b'' ← put b' shift carry;
       Ok (u16 (shift + 1), b'', old))
    (zlen l, b, v) = Ok (sz + 1, set_block b (Some (l ++ shift_in v mid ++ rest)), st).
Proof.
  revert b l v fuel. induction mid as [|w mid IH]; intros b l v fuel Hb Hsz Hmax Hfuel.
  - destruct fuel as [|fuel]; [simpl in Hfuel; lia|]. exists v. rewrite while_exit.
    + simpl. replace (zlen l) with (sz + 1) by zlen. f_equal. f_equal. f_equal.
      destruct b; simpl in *. by rewrite Hb.
    + simpl. f_equal. apply Z.leb_gt. zlen.
  - destruct fuel as [|fuel]; [simpl in Hfuel; lia|]. simpl in Hfuel.
    destruct (IH (set_block b (Some ((l ++ [v]) ++ mid ++ rest))) (l ++ [v]) w fuel)
      as [st Hst]; [done|zlen|done|lia|].
    exists st. rewrite <-!app_assoc in Hst.
    erewrite while_iterate; [exact Hst| |].
    + simpl. f_equal. apply Z.leb_le. zlen.
    + unfold deref at 1. rewrite Hb. simpl. erewrite zget_at by apply at_middle. simpl.
      erewrite put_middle by exact Hb. simpl. f_equal. f_equal. f_equal.
      rewrite u16_small by zlen. zlen.
Qed.

Lemma makeFree_ok b l1 l2 r rest :
  holds b (l1 ++ l2) (r :: rest) →
  makeFree b (zlen l1) = Ok (set_block b (Some (l1 ++ indeterminate :: l2 ++ rest))).
Proof.
  intros Hb. pose proof (holds_bounds _ _ _ Hb). destruct Hb as (Hblk&Hlen&Hs).
  unfold makeFree.
  destruct (makeFree_loop b l1 (l2 ++ [r]) rest indeterminate
    (S (Z.to_nat (size b + 1 - zlen l1))) (size b)) as [st ->].
  - rewrite Hblk. f_equal. by rewrite <-!app_assoc.
  - zlen.
  - zlen.
  - unfold zlen in *. rewrite !length_app in *. simpl. lia.
  - simpl. f_equal. by rewrite shift_in_snoc.
Qed.

Lemma insertAtIndex_ok b l1 l2 r rest e :
  holds b (l1 ++ l2) (r :: rest) →
  ∃ b', insertAtIndex b e (zlen l1) = Ok b' ∧ holds b' (l1 ++ e :: l2) rest ∧
    head b' = head b.
Proof.
  intros Hb. pose proof (holds_bounds _ _ _ Hb).
  unfold insertAtIndex. rewrite (assert_ok (has_block b)) by (by eapply holds_has_block). simpl.
  erewrite makeFree_ok by exact Hb. simpl. erewrite put_middle by done. simpl.
  eexists. split; [done|]. split; [|done]. destruct Hb as (Hblk&Hlen&Hs).
  split_and!; simpl.
  - by rewrite <-app_assoc.
  - zlen.
  - rewrite u16_small by zlen. zlen.
Qed.

(** Insertion at the found position followed by the head update. *)
Lemma insert_then_head b l1 l2 r rest e :
  represents b (l1 ++ l2) (r :: rest) →
  ∃ b', (b1 ← insertAtIndex b e (zlen l1);
         if zlen l1 =? 0 then updateHead b1 else Ok b1) = Ok b' ∧
    represents b' (l1 ++ e :: l2) rest.
Proof.
  intros [Hb Hh]. destruct (insertAtIndex_ok b l1 l2 r rest e Hb) as (b1&->&Hb1&Hh1).
  simpl. destruct l1 as [|v l1].
  - simpl in *. erewrite updateHead_ok by exact Hb1. eexists. split; [done|]. by split.
  - replace (zlen (v :: l1) =? 0) with false by (symmetry; apply Z.eqb_neq; zlen).
    eexists. split; [done|]. split; [done|]. simpl in *. congruence.
Qed.

(** The cell at the found position decides whether the key is present. *)
Lemma found_cell b l1 l2 r rest (k : Z) :
  holds b (l1 ++ l2) (r :: rest) → below l1 k → above (k - 1) l2 →
  (keyOfValue r = k → k ∈ keys (l1 ++ l2)) →
  ∃ v, get b (zlen l1) = Ok v ∧
    ((keyOfValue v = k ∧ ∃ l3, l2 = v :: l3) ∨ (keyOfValue v ≠ k ∧ (sorted l2 → above k l2))).
Proof.
  intros Hb Hl1 Ha Hr. destruct l2 as [|v l2].
  - exists r. rewrite app_nil_r in *. split.
    + eapply get_at; [exact Hb|]. apply at_middle.
    + right. split; [|constructor]. intros Hk%Hr. by apply below_not_in in Hl1.
  - exists v. split.
    + eapply get_at; [exact Hb|]. rewrite <-app_assoc. apply at_middle.
    + destruct (decide (keyOfValue v = k)); [left; eauto|right]. split; [done|].
      apply above_cons in Ha as [? ?]. intros [Hv _]%sorted_cons. apply above_cons.
      split; [lia|]. eapply above_weaken; [exact Hv|lia].
Qed.

Lemma insertWithIndex_ok b p q r rest e :
  represents b (p ++ q) (r :: rest) → sorted (p ++ q) → below p (keyOfValue e) →
  (keyOfValue r = keyOfValue e → keyOfValue e ∈ keys (p ++ q)) →
  ∃ b' ins pos rest', insertWithIndex b e (zlen p) = Ok (b', (ins, pos)) ∧
    represents b' (sinsert e (p ++ q)) rest' ∧
    ((ins = true ∧ (keyOfValue e ∉ keys (p ++ q)) ∧ rest' = rest) ∨
     (ins = false ∧ keyOfValue e ∈ keys (p ++ q) ∧ b' = b ∧ rest' = r :: rest)) ∧
    (∃ v, at_ (sinsert e (p ++ q)) pos = Some v ∧ keyOfValue v = keyOfValue e).
Proof.
  intros Hb Hs Hp Hr. pose proof Hb as [Hh _].
  apply sorted_app in Hs as (Hsp&Hsq&Hpq).
  destruct (linearSearch_sorted b p q (r :: rest) (keyOfValue e) Hh Hsq Hp)
    as (q1&q2&->&Hq1&Hq2&Hpos).
  rewrite (app_assoc p) in *.
  assert (below (p ++ q1) (keyOfValue e)) as Hb1 by (by apply below_app).
  unfold insertWithIndex. rewrite (assert_ok (has_block b)) by (by eapply holds_has_block). simpl.
  rewrite (assert_ok (size b <? MaxSize)); [|destruct Hh as (?&?&->); apply Z.ltb_lt; zlen].
  simpl.
  rewrite Hpos. simpl. destruct (found_cell _ _ _ _ _ (keyOfValue e) Hh Hb1 Hq2 Hr)
    as (v&->&Hv); simpl; destruct Hv as [(Hv&q3&->)|(Hv&Habove)].
  - rewrite Hv, Z.eqb_refl. rewrite (assertHead_ok _ _ _ Hb). simpl.
    exists b, false, (zlen (p ++ q1)), (r :: rest).
    rewrite (sinsert_present (p ++ q1) e v q3) by done.
    split_and!; [done|done| |].
    + right. split_and!; [done| |done|done]. rewrite keys_app, keys_cons. set_solver.
    + exists v. split; [apply at_middle|done].
  - apply sorted_app in Hsq as (_&Hsq&_). specialize (Habove Hsq).
    replace (keyOfValue v =? keyOfValue e) with false by (symmetry; by apply Z.eqb_neq).
    destruct (insert_then_head b _ _ _ _ e Hb) as (b'&Hins&Hb').
    destruct (insertAtIndex b e (zlen (p ++ q1))) as [b1|]; [|done]. simpl in *.
    rewrite Hins. simpl. rewrite (assertHead_ok _ _ _ Hb'). simpl.
    exists b', true, (zlen (p ++ q1)), rest.
    rewrite (sinsert_new (p ++ q1) e q2) by done.
    split_and!; [done|done| |].
    + left. split_and!; [done| |done]. rewrite keys_app, elem_of_app.
      intros [?%below_not_in|?%above_not_in]; done.
    + exists e. split; [apply at_middle|done].
Qed.

Lemma fresh_cons l r rest ks :
  fresh l (r :: rest) ks ↔ (keyOfValue r ∈ ks → keyOfValue r ∈ keys l) ∧ fresh l rest ks.
Proof. unfold fresh. setoid_rewrite elem_of_cons. naive_solver. Qed.

Lemma fresh_weaken l rest ks l' rest' ks' :
  fresh l rest ks → (∀ k, k ∈ keys l → k ∈ keys l') → (∀ v, v ∈ rest' → v ∈ rest) →
  (∀ k, k ∈ ks' → k ∈ ks) → fresh l' rest' ks'.
Proof. unfold fresh. naive_solver. Qed.

(** No stale cell with a key of [ks] at all. *)
Lemma fresh_none l rest ks : (∀ v, v ∈ rest → keyOfValue v ∉ ks) → fresh l rest ks.
Proof. intros Hf v Hv Hk. by apply Hf in Hk. Qed.

(** *** Merging a sorted batch *)

(** One iteration: the search starts at the position of the previous key. *)
Lemma merge_step b p w q r rest e :
  represents b (p ++ w :: q) (r :: rest) → sorted (p ++ w :: q) →
  keyOfValue w ≤ keyOfValue e →
  (keyOfValue r = keyOfValue e → keyOfValue e ∈ keys (p ++ w :: q)) →
  ∃ b' p' w' q' used rest',
    (pos ← linearSearch b (keyOfValue e) (zlen p);
     v ← get b pos;
     if negb (keyOfValue v =? keyOfValue e) then
       b1 ← insertAtIndex b e pos; Ok (b1, pos)
     else Ok (b, pos)) = Ok (b', zlen p') ∧
    sinsert e (p ++ w :: q) = p' ++ w' :: q' ∧ keyOfValue w' = keyOfValue e ∧
    represents b' (p' ++ w' :: q') rest' ∧ r :: rest = used ++ rest' ∧ zlen used ≤ 1.
Proof.
  intros Hb Hs Hwe Hr. pose proof Hb as [Hh Hhead].
  pose proof Hs as (Hsp&Hsq&Hpw&Hwq)%sorted_middle.
  assert (below p (keyOfValue e)) as Hp by (by eapply below_weaken).
  destruct (linearSearch_sorted b p (w :: q) (r :: rest) (keyOfValue e) Hh)
    as (q1&q2&Hq&Hq1&Hq2&->); [by apply sorted_cons|done|]. simpl.
  rewrite Hq, (app_assoc p) in *.
  assert (below (p ++ q1) (keyOfValue e)) as Hb1 by (by apply below_app).
  destruct (found_cell _ _ _ _ _ (keyOfValue e) Hh Hb1 Hq2 Hr)
    as (v&->&Hv); simpl; destruct Hv as [(Hv&q3&->)|(Hv&Habove)].
  - rewrite Hv, Z.eqb_refl. simpl. rewrite (sinsert_present (p ++ q1) e v q3) by done.
    exists b, (p ++ q1), v, q3, [], (r :: rest). split_and!; [done..|zlen].
  - replace (keyOfValue v =? keyOfValue e) with false by (symmetry; by apply Z.eqb_neq).
    simpl. destruct (insertAtIndex_ok b (p ++ q1) q2 r rest e Hh) as (b'&->&Hb'&Hhd).
    simpl. assert (above (keyOfValue e) q2) as Habv.
    { apply Habove. apply sorted_app in Hs as (_&Hs&_). done. }
    rewrite (sinsert_new (p ++ q1) e q2) by done.
    exists b', (p ++ q1), e, q2, [r], rest. split_and!; [done..| |done|zlen].
    split; [done|]. rewrite Hhd. destruct (p ++ q1) as [|x l] eqn:Hl; [|done].
    apply app_nil in Hl as [-> ->]. simpl in Hq. subst q2.
    apply above_cons in Habv as [? _]. lia.
Qed.

Definition merge_body batch (from : Z) (i : Z) (st : PmaEntry * Z) : result (PmaEntry * Z) :=
  let '(b, insertionPosition) := st in
  e ← zget batch (from + i);
  pos ← linearSearch b (keyOfValue e) insertionPosition;
  v ← get b pos;
  if negb (keyOfValue v =? keyOfValue e) then
    b1 ← insertAtIndex b e pos;
    Ok (b1, pos)
  else Ok (b, pos).

Lemma merge_loop pre bs post (from : Z) b p w q rest :
  nondecreasing bs → above (keyOfValue w - 1) bs → 0 ≤ from ≤ zlen pre →
  represents b (p ++ w :: q) rest → sorted (p ++ w :: q) →
  zlen bs ≤ zlen rest → fresh (p ++ w :: q) rest (keys bs) →
  ∃ b' pos' used rest',
    for_range (zlen pre - from) (zlen pre - from + zlen bs)
      (merge_body (pre ++ bs ++ post) from) (b, zlen p) = Ok (b', pos') ∧
    represents b' (smerge (p ++ w :: q) bs) rest' ∧ rest = used ++ rest' ∧
    zlen used ≤ zlen bs.
Proof.
  revert pre b p w q rest.
  induction bs as [|e bs IH]; intros pre b p w q rest Hnd Hw Hfrom Hb Hs Hlen Hfresh.
  - exists b, (zlen p), [], rest. rewrite for_range_nil by zlen. split_and!; [done..|zlen].
  - destruct rest as [|r rest]; [zlen|].
    apply nondecreasing_cons in Hnd as [Ha Hnd]. apply above_cons in Hw as [Hwe _].
    pose proof Hfresh as Hfr. rewrite fresh_cons, elem_of_keys_cons in Hfr.
    destruct (merge_step b p w q r rest e Hb Hs) as
      (b'&p'&w'&q'&used&rest'&Hstep&Hins&Hw'&Hb'&Hrest&Hused);
      [lia|intros Heq; rewrite <-Heq; apply (proj1 Hfr); by left|].
    rewrite for_range_cons by zlen. cbn [merge_body].
    erewrite zget_at; cycle 1.
    { replace (from + (zlen pre - from)) with (zlen pre) by lia. apply at_middle. }
    cbn [mbind result_bind]. rewrite Hstep. cbn [mbind result_bind].
    destruct (IH (pre ++ [e]) b' p' w' q' rest')
      as (b''&pos'&used'&rest''&Hfor&Hb''&Hrest'&Hused');
      [done|by rewrite Hw'|zlen|done| | | |].
    + rewrite <-Hins. by apply sorted_sinsert.
    + assert (zlen (r :: rest) = zlen (used ++ rest')) by (by rewrite Hrest). zlen.
    + eapply fresh_weaken; [exact Hfresh| | |].
      * intros k Hk. rewrite <-Hins, keys_sinsert. by right.
      * intros v Hv. rewrite Hrest. apply elem_of_app. by right.
      * intros k Hk. apply elem_of_keys_cons. by right.
    + exists b'', pos', (used ++ used'), rest''. split_and!.
      * replace (zlen pre - from + 1) with (zlen (pre ++ [e]) - from) by zlen.
        replace (zlen pre - from + zlen (e :: bs))
          with (zlen (pre ++ [e]) - from + zlen bs) by zlen.
        rewrite <-Hfor. f_equal. rewrite <-!app_assoc. done.
      * rewrite smerge_cons, Hins. done.
      * rewrite Hrest, Hrest'. by rewrite app_assoc.
      * zlen.
Qed.

(** The first element of the batch: insert it where the linear search ended, unless the
    cell has its key. *)
Lemma merge_first b l1 l2 r rest v e :
  represents b (l1 ++ l2) (r :: rest) → sorted (l1 ++ l2) → below l1 (keyOfValue e) →
  (keyOfValue v = keyOfValue e ∧ (∃ q, l2 = v :: q)) ∨
    (keyOfValue v ≠ keyOfValue e ∧ (sorted l2 → above (keyOfValue e) l2)) →
  ∃ b0 w q used rest',
    (if negb (keyOfValue v =? keyOfValue e) then
       b1 ← insertAtIndex b e (zlen l1);
       if zlen l1 =? 0 then updateHead b1 else Ok b1
     else Ok b) = Ok b0 ∧ sinsert e (l1 ++ l2) = l1 ++ w :: q ∧
    keyOfValue w = keyOfValue e ∧ represents b0 (l1 ++ w :: q) rest' ∧
    r :: rest = used ++ rest' ∧ zlen used ≤ 1.
Proof.
  intros Hb Hs Hl1 [[Hv [q ->]]|[Hv Habove]].
  - rewrite Hv, Z.eqb_refl. exists b, v, q, [], (r :: rest).
    rewrite (sinsert_present l1 e v q) by done. split_and!; [done..|zlen].
  - replace (keyOfValue v =? keyOfValue e) with false by (symmetry; by apply Z.eqb_neq).
    destruct (insert_then_head b l1 l2 r rest e Hb) as (b'&Hins&Hb').
    exists b', e, l2, [r], rest. cbn [negb]. split_and!; [done| |done|done|done|zlen].
    apply sinsert_new; [done|]. apply Habove. by apply sorted_app in Hs as (_&?&_).
Qed.

Lemma merge_ok b l rest pre bs post :
  represents b l rest → sorted l → nondecreasing bs → bs ≠ [] →
  zlen l + zlen bs ≤ MaxSize → fresh l rest (keys bs) →
  ∃ b' used rest',
    merge b (pre ++ bs ++ post) (zlen pre) (zlen bs) = Ok b' ∧
    represents b' (smerge l bs) rest' ∧ rest = used ++ rest' ∧ zlen used ≤ zlen bs.
Proof.
  intros Hb Hs Hnd Hne Hlen Hfresh. pose proof Hb as [Hh Hhead].
  destruct bs as [|e bs]; [done|]. clear Hne.
  pose proof Hh as (Hblk&Hmax&Hsz).
  destruct rest as [|r rest]; [zlen|].
  apply nondecreasing_cons in Hnd as [Ha Hnd].
  pose proof Hfresh as Hfr. rewrite fresh_cons, elem_of_keys_cons in Hfr.
  unfold merge. rewrite (assert_ok (has_block b)) by (by eapply holds_has_block).
  rewrite (assert_ok (0 <? zlen (e :: bs))) by (apply Z.ltb_lt; zlen).
  cbn [mbind result_bind app]. erewrite zget_at by apply at_middle.
  cbn [mbind result_bind].
  destruct (linearSearch_sorted b [] l (r :: rest) (keyOfValue e))
    as (l1&l2&->&Hl1&Hl2&Hpos); [done|done|constructor|].
  rewrite zlen_nil in Hpos. simpl in Hpos. rewrite Hpos. cbn [mbind result_bind].
  destruct (found_cell _ _ _ _ _ (keyOfValue e) Hh Hl1 Hl2) as (v&->&Hv);
    [intros Heq; rewrite <-Heq; apply (proj1 Hfr); by left|].
  cbn [mbind result_bind].
  destruct (merge_first b l1 l2 r rest v e) as (b0&w&q&used&rest'&->&Hins&Hw&Hb0&Hrest&Hused); [done..|].
  cbn [mbind result_bind].
  assert (zlen (r :: rest) = zlen (used ++ rest')) by (by rewrite Hrest).
  destruct (merge_loop (pre ++ [e]) bs post (zlen pre) b0 l1 w q rest')
    as (b'&pos'&used'&rest''&Hfor&Hb'&Hrest'&Hused');
    [done|by rewrite Hw|zlen|done| |zlen| |].
  - rewrite <-Hins. by apply sorted_sinsert.
  - eapply fresh_weaken; [exact Hfresh| | |].
    + intros k Hk. rewrite <-Hins, keys_sinsert. by right.
    + intros x Hx. rewrite Hrest. apply elem_of_app. by right.
    + intros k Hk. apply elem_of_keys_cons. by right.
  - replace (zlen (pre ++ [e]) - zlen pre) with 1 in Hfor by zlen.
    replace (1 + zlen bs) with (zlen (e :: bs)) in Hfor by zlen.
    rewrite <-app_assoc in Hfor. unfold merge_body in Hfor. cbn [app] in Hfor.
    rewrite Hfor. cbn [mbind result_bind]. rewrite <-Hins, <-smerge_cons in Hb'.
    rewrite (assertHead_ok _ _ _ Hb'). cbn [mbind result_bind].
    exists b', (used ++ used'), rest''. split_and!; [done|done| |zlen].
    by rewrite Hrest, Hrest', app_assoc.
Qed.
End facts.
