(* ===== verification/BlockMoves.v ===== *)
(** * Blocks: lookup, removal, splitting, and moving elements between blocks *)

From S2P Require Export BlockFacts.
Import PmaEntry.

Section moves.
Context `{T : SdsTypes} `{C : BlockConfig} `{!BlockConfigOk}.
Implicit Types (b : PmaEntry) (l rest batch : list ValueType) (e v w : ValueType).

Lemma set_block_id b c : block b = Some c → set_block b (Some c) = b.
Proof. destruct b; simpl. by intros ->. Qed.

Lemma allocateBlock_ok b :
  block b = None → size b = 0 →
  ∃ b', allocateBlock b = Ok b' ∧ head b' = head b ∧
    represents b' [] (replicate (Z.to_nat MaxSize) zeroValue).
Proof.
  intros Hb Hs. unfold allocateBlock. rewrite (assert_ok (isEmpty b)) by (unfold isEmpty, has_block; by rewrite Hb).
  simpl. eexists. split_and!; [done|done|]. pose proof MaxSize_pos.
  split; [|done]. split_and!; simpl; [done|zlen|done].
Qed.

(** *** Lookup *)

Lemma findIndex_ok b l rest (k : Z) :
  holds b l rest → sorted l →
  ∃ l1 l2, l = l1 ++ l2 ∧ below l1 k ∧ above (k - 1) l2 ∧ findIndex b k = Ok (zlen l1).
Proof.
  intros Hb Hs. unfold findIndex.
  rewrite (assert_ok (has_block b)) by (by eapply holds_has_block).
  destruct (linearSearch_sorted b [] l rest k) as (l1&l2&->&?&?&Hl); [done|done|constructor|].
  exists l1, l2. done.
Qed.

(** The membership test shared by [contains] and [remove]. *)
Lemma found_ok b l1 l2 rest (k : Z) :
  holds b (l1 ++ l2) rest → sorted l2 → below l1 k → above (k - 1) l2 →
  (if zlen l1 <? size b then v ← get b (zlen l1); Ok (keyOfValue v =? k) else Ok false)
  = Ok (bool_decide (k ∈ keys (l1 ++ l2))).
Proof.
  intros Hb Hs H1 H2. pose proof Hb as (_&_&->).
  rewrite (bool_decide_ext _ (k ∈ keys l2)); cycle 1.
  { rewrite keys_app, elem_of_app. pose proof (below_not_in _ _ H1). tauto. }
  destruct l2 as [|v l2].
  - rewrite app_nil_r, Z.ltb_irrefl. rewrite bool_decide_eq_false_2; [done|]. by intros ?%elem_of_nil.
  - replace (zlen l1 <? _) with true by (symmetry; apply Z.ltb_lt; zlen).
    erewrite get_at; [|exact Hb|rewrite <-app_assoc; apply at_middle]. simpl. f_equal.
    apply above_cons in H2 as [? _]. apply sorted_cons in Hs as [Ha _].
    destruct (Z.eqb_spec (keyOfValue v) k) as [->|].
    + rewrite bool_decide_eq_true_2; [done|]. apply elem_of_cons. by left.
    + rewrite bool_decide_eq_false_2; [done|]. intros [?|Hin]%elem_of_cons; [congruence|]. revert Hin. apply above_not_in.
      eapply above_weaken; [exact Ha|lia].
Qed.

Lemma contains_ok b l rest (k : Z) :
  holds b l rest → sorted l → contains b k = Ok (bool_decide (k ∈ keys l)).
Proof.
  intros Hb Hs. unfold contains.
  rewrite (assert_ok (has_block b)) by (by eapply holds_has_block).
  destruct (linearSearch_sorted b [] l rest k) as (l1&l2&->&?&?&Hl); [done|done|constructor|].
  rewrite zlen_nil in Hl. simpl in *. rewrite Hl. simpl. apply sorted_app in Hs as (_&?&_).
  rewrite <-(found_ok b l1 l2 rest k) by done. destruct (_ <? _); [|done].
  destruct (get b (zlen l1)); simpl; [|done]. by rewrite Z.eqb_sym.
Qed.

(** *** Removal *)

Lemma moveForward_loop b l v mid rest (fuel : nat) (sz : Z) :
  block b = Some (l ++ v :: mid ++ rest) → sz = zlen l + 1 + zlen mid →
  sz < 65535 → (length mid < fuel)%nat →
  ∃ x, x ∈ v :: mid ∧
  while fuel
    (λ '(shift, b'), Ok (shift + 1 <? sz))
    (λ '(shift, b'),
       v ← get b' (shift + 1);
       b'' ← put b' shift v;
       Ok (u16 (shift + 1), b''))
    (zlen l, b) = Ok (sz - 1, set_block b (Some (l ++ mid ++ x :: rest))).
Proof.
  revert b l v fuel. induction mid as [|w mid IH]; intros b l v fuel Hb Hsz Hmax Hfuel;
    (destruct fuel as [|fuel]; [simpl in Hfuel; lia|]).
  - exists v. split; [by left|]. rewrite while_exit.
    + simpl in *. rewrite set_block_id by done. f_equal. f_equal. zlen.
    + simpl. f_equal. apply Z.ltb_ge. zlen.
  - simpl in Hfuel. destruct (IH (set_block b (Some ((l ++ [w]) ++ w :: mid ++ rest)))
      (l ++ [w]) w fuel) as (x&Hx&Hloop); [done|zlen|done|lia|].
    exists x. split; [by right|]. erewrite while_iterate.
    + rewrite <-!app_assoc in Hloop. exact Hloop.
    + simpl. f_equal. apply Z.ltb_lt. zlen.
    + unfold get, AssertMsg, assert_unless, has_block, deref. rewrite Hb.
      assert (at_ (l ++ v :: (w :: mid) ++ rest) (zlen l + 1) = Some w) as Hat.
      { replace (zlen l + 1) with (zlen (l ++ [v])) by zlen.
        replace (l ++ v :: (w :: mid) ++ rest) with ((l ++ [v]) ++ w :: mid ++ rest)
          by (by rewrite <-!app_assoc). apply at_middle. }
      rewrite u16_small by zlen.
      replace (zlen (l ++ [w])) with (zlen l + 1) by zlen.
      destruct NDEBUG; cbn [mbind result_bind]; rewrite (zget_at _ _ _ Hat);
        cbn [mbind result_bind]; erewrite put_middle by exact Hb;
        cbn [mbind result_bind]; f_equal; f_equal; f_equal; by rewrite <-app_assoc.
Qed.

Lemma moveForward_ok b l v mid rest :
  holds b (l ++ v :: mid) rest → zlen (l ++ v :: mid) < 65535 →
  ∃ x, x ∈ v :: mid ∧
    moveForward b (zlen l) = Ok (set_block b (Some (l ++ mid ++ x :: rest))).
Proof.
  intros (Hb&Hlen&Hs) Hmax. unfold moveForward.
  destruct (moveForward_loop b l v mid rest (S (Z.to_nat (size b - zlen l))) (size b))
    as (x&Hx&Hloop).
  - rewrite Hb. by rewrite <-app_assoc.
  - zlen.
  - lia.
  - rewrite Hs. unfold zlen. rewrite length_app. simpl. lia.
  - exists x. split; [done|]. rewrite Hloop. done.
Qed.

(** Removal of a present key: the value leaves the sequence, and its cell stays
    behind, stale, after the last element. *)
Lemma remove_present b l1 v l2 rest e :
  represents b (l1 ++ v :: l2) rest → sorted (l1 ++ v :: l2) →
  keyOfValue v = keyOfValue e → MaxSize < 65535 →
  ∃ b' x, remove b e = Ok (b', true) ∧ x ∈ v :: l2 ∧ represents b' (l1 ++ l2) (x :: rest).
Proof.
  intros [Hb Hh] Hs Hk Hmax. unfold remove.
  rewrite (assert_ok (has_block b)) by (by eapply holds_has_block).
  pose proof Hs as (Hs1&Hs2&Hlow&Hup)%sorted_middle. pose proof (holds_bounds _ _ _ Hb).
  assert (linearSearch b (keyOfValue e) 0 = Ok (zlen l1)) as ->.
  { apply (linearSearch_split b [] l1 (v :: l2) rest); [done| |lia]. by rewrite <-Hk. }
  cbn [mbind result_bind]. rewrite (found_ok b l1 (v :: l2) rest); [|done| | |].
  - rewrite bool_decide_eq_true_2 by (rewrite keys_app, keys_cons; set_solver).
    cbn [mbind result_bind]. destruct (moveForward_ok b l1 v l2 rest) as (x&Hx&->);
      [done|destruct Hb as (_&?&_); zlen|].
    cbn [mbind result_bind]. destruct Hb as (Hblk&Hlen&Hsz).
    assert (holds (set_size (set_block b (Some (l1 ++ l2 ++ x :: rest))) (u16 (size b - 1)))
              (l1 ++ l2) (x :: rest)) as Hb'.
    { split_and!; simpl; [by rewrite <-app_assoc|zlen|]. rewrite u16_small by zlen. zlen. }
    cbn [size set_block set_size block head] in Hb' |- *.
    destruct (l1 ++ l2) as [|w l] eqn:Hl.
    + unfold updateHead. erewrite get_at; [|exact Hb'|apply (at_middle [] rest x)].
      cbn [mbind result_bind]. eexists _, x. split_and!; [|done|].
      * erewrite assertHead_ok; [done|]. by split.
      * by split.
    + erewrite updateHead_ok by exact Hb'. cbn [mbind result_bind]. eexists _, x.
      split_and!; [|done|].
      * erewrite assertHead_ok; [done|]. by split.
      * by split.
  - apply sorted_app in Hs as (_&?&_). done.
  - by rewrite <-Hk.
  - apply above_cons. split; [lia|]. eapply above_weaken; [exact Hup|lia].
Qed.

Lemma remove_absent b l rest e :
  represents b l rest → sorted l → (keyOfValue e ∉ keys l) →
  remove b e = Ok (b, false).
Proof.
  intros [Hb Hh] Hs Hk. unfold remove.
  rewrite (assert_ok (has_block b)) by (by eapply holds_has_block).
  destruct (linearSearch_sorted b [] l rest (keyOfValue e)) as (l1&l2&->&?&?&Hl);
    [done|done|constructor|].
  rewrite zlen_nil in Hl. cbn [mbind result_bind]. rewrite Hl. cbn [mbind result_bind].
  rewrite (found_ok b l1 l2 rest) by (done || by apply sorted_app in Hs as (_&?&_)).
  rewrite bool_decide_eq_false_2 by done. cbn [mbind result_bind].
  erewrite assertHead_ok; [done|]. by split.
Qed.

(** *** Splitting *)

Lemma split_ok b l1 l2 :
  represents b (l1 ++ l2) [] → zlen l1 = zlen l2 →
  ∃ b' r, split b = Ok (b', r) ∧ represents b' l1 l2 ∧
    represents r l2 (replicate (length l1) zeroValue).
Proof.
  intros Hb Heq. pose proof Hb as [Hh Hhead]. pose proof (holds_bounds _ _ _ Hh) as Hbnd.
  pose proof Hh as (Hblk&Hlen&Hsz). pose proof MaxSize_pos.
  assert (zlen l1 + zlen l2 = MaxSize) as Hmax by zlen.
  assert (u16 (MaxSize ÷ 2) = zlen l1) as Hpos.
  { rewrite Z.quot_div_nonneg by lia. rewrite <-Hmax, Heq, Z.add_diag, Z.mul_comm, Z.div_mul by lia.
    apply u16_small. zlen. }
  unfold split. rewrite (assertHead_ok _ _ _ Hb).
  rewrite (assert_ok (has_block b)) by (by eapply holds_has_block).
  rewrite (assert_ok (size b =? MaxSize)) by (apply Z.eqb_eq; zlen).
  cbn [mbind result_bind]. rewrite Hpos. unfold allocateBlock.
  rewrite (assert_ok (isEmpty null_entry)) by done.
  cbn [mbind result_bind]. unfold deref. rewrite Hblk.
  cbn [mbind result_bind block set_block null_entry head size].
  replace (Z.to_nat MaxSize) with (length l2 + length l1)%nat by (unfold zlen in *; lia).
  rewrite replicate_add.
  assert (copy_up ((l1 ++ l2) ++ []) (zlen l1) (MaxSize - zlen l1)
            (replicate (length l2) zeroValue ++ replicate (length l1) zeroValue) 0
          = Ok (l2 ++ replicate (length l1) zeroValue)) as ->.
  { rewrite <-app_assoc. replace (MaxSize - zlen l1) with (zlen l2) by lia.
    apply (copy_up_spec l1 l2 [] [] (replicate (length l2) zeroValue)). unfold zlen.
    by rewrite length_replicate. }
  cbn [mbind result_bind].
  assert (∃ v l2', l2 = v :: l2') as (v&l2'&Hl2).
  { destruct l2; [zlen|eauto]. }
  set (r := set_size (set_block _ _) _).
  assert (holds r l2 (replicate (length l1) zeroValue)) as Hr.
  { split_and!; simpl; [done|unfold zlen in *; rewrite length_replicate; lia|lia]. }
  rewrite Hl2 in Hr. erewrite updateHead_ok by exact Hr. cbn [mbind result_bind].
  assert (represents (set_size b (zlen l1)) l1 l2) as Hb'.
  { split; [split_and!; simpl; [rewrite Hblk; by rewrite app_nil_r|lia|done]|].
    destruct l1; [zlen|done]. }
  rewrite (assertHead_ok _ _ _ Hb'). cbn [mbind result_bind].
  eexists _, _. split_and!; [done|done|]. rewrite Hl2. by split.
Qed.

(** *** Moving elements between blocks *)

(** A loop over the block is a loop over its cells. *)
Lemma for_range_sim {S1 S2} (f : S2 → S1) (a z : Z) body body' (s : S2) :
  (∀ i s, a ≤ i < z → body i (f s) = f <$> body' i s) →
  for_range a z body (f s) = f <$> for_range a z body' s.
Proof.
  unfold for_range. remember (Z.to_nat (z - a)) as n eqn:Hn. revert a s Hn.
  induction n as [|n IH]; intros a s Hn Hsim; simpl; [done|]. rewrite Hsim by lia.
  destruct (body' a s); simpl; [|done]. apply IH; [lia|]. intros. apply Hsim. lia.
Qed.

Lemma mergeSmaller_ok b o l lo r1 r2 ro :
  represents b l (r1 ++ r2) → represents o lo ro → zlen r1 = zlen lo → lo ++ l ≠ [] →
  ∃ b', mergeSmaller b o = Ok b' ∧ represents b' (lo ++ l) r2.
Proof.
  intros [Hb _] [Ho _] Hr Hne. pose proof (holds_bounds _ _ _ Hb).
  unfold mergeSmaller.
  rewrite (assert_ok (has_block b)) by (by eapply holds_has_block).
  rewrite (assert_ok (has_block o)) by (by eapply holds_has_block).
  cbn [mbind result_bind]. pose proof Hb as (Hblk&Hlen&Hsz). pose proof Ho as (Hblko&Hleno&Hszo).
  rewrite Hszo, Hsz, (u16_small (zlen lo)) by zlen.
  set (f := λ c, set_block b (Some c)).
  assert (b = f (l ++ r1 ++ r2)) as Hbf by (symmetry; by apply set_block_id).
  match goal with |- context [for_range 0 (zlen l) ?body b] =>
    replace (for_range 0 (zlen l) body b)
      with (for_range 0 (zlen l) body (f (l ++ r1 ++ r2))) by (by rewrite <-Hbf)
  end.
  rewrite (for_range_sim f 0 (zlen l) _
    (λ i c, v ← zget c (0 + zlen l - 1 - i); zset c (0 + zlen l - 1 - i + zlen lo) v)); cycle 1.
  { intros i c _. unfold get, put, deref, AssertMsg, assert_unless, f. cbn.
    replace (0 + zlen l - 1 - i) with (zlen l - 1 - i) by lia.
    replace (zlen lo + (zlen l - 1 - i)) with (zlen l - 1 - i + zlen lo) by lia.
    destruct NDEBUG, (zget c (zlen l - 1 - i)); simpl; [|done| |done];
      by destruct (zset c _ _). }
  change (for_range 0 (zlen l) _ (l ++ r1 ++ r2))
    with (copy_within_backward (l ++ r1 ++ r2) 0 (zlen l) (zlen lo)).
  rewrite <-Hr, copy_within_backward_up, Hr. cbn [fmap result_fmap mbind result_bind].
  rewrite (for_range_sim f 0 (zlen lo) _
    (λ i c, v ← zget (lo ++ ro) (0 + i); zset c (0 + i) v)); cycle 1.
  { intros i c _. unfold get, put, deref, AssertMsg, assert_unless, has_block, f. rewrite Hblko. replace (0 + i) with i by lia. cbn.
    destruct NDEBUG, (zget (lo ++ ro) i); simpl; [|done| |done]; by destruct (zset c _ _). }
  pose proof (copy_up_spec [] lo ro [] (take (length r1) (l ++ r1 ++ r2)) (l ++ r2)) as Hcopy.
  unfold copy_up in Hcopy. change (zlen []) with 0 in Hcopy. cbn [app] in Hcopy.
  assert (for_range 0 (zlen lo) (λ i c, v ← zget (lo ++ ro) (0 + i); zset c (0 + i) v)
    (take (length r1) (l ++ r1 ++ r2) ++ l ++ r2) = Ok (lo ++ l ++ r2)) as ->.
  { apply Hcopy. unfold zlen in *. rewrite length_take, !length_app. lia. }
  cbn [fmap result_fmap mbind result_bind]. set (b' := set_size _ _).
  assert (holds b' (lo ++ l) r2) as Hb'.
  { split_and!; simpl; [by rewrite <-app_assoc|zlen|]. rewrite u16_small by zlen. zlen. }
  destruct (lo ++ l) as [|v l'] eqn:Hl; [done|]. erewrite updateHead_ok by exact Hb'.
  cbn [mbind result_bind].
  assert (represents (set_head b' (keyOfValue v)) (v :: l') r2) as Hrep by (by split).
  rewrite (assertHead_ok _ _ _ Hrep). eexists. by split.
Qed.

(** The deficit of a block that is smaller than [MinSize]. *)
Lemma needed_ok (s k : Z) : 0 < MinSize → MinSize ≤ MaxSize → 0 ≤ s → s + k = MinSize → 0 ≤ k → u16 (MinSize - s) = k.
Proof. intros. pose proof MaxSize_u16. rewrite u16_small; lia. Qed.

Lemma steal_ok b right l rest m q rr :
  0 < MinSize ≤ MaxSize → represents b l rest → represents right (m ++ q) rr → l ≠ [] →
  zlen l + zlen m = MinSize → MinSize ≤ zlen q →
  ∃ b' right' rest' rr', steal b right = Ok (b', right') ∧
    represents b' (l ++ m) rest' ∧ represents right' q rr'.
Proof.
  intros Hmin Hb Hright Hl Hm Hq. pose proof Hb as [Hbh Hbhead]. pose proof Hright as [Hrh Hrhead].
  pose proof (holds_bounds _ _ _ Hbh). pose proof (holds_bounds _ _ _ Hrh).
  unfold steal.
  rewrite (assert_ok (has_block b)) by (by eapply holds_has_block).
  rewrite (assert_ok (has_block right)) by (by eapply holds_has_block).
  pose proof Hbh as (Hblk&Hlen&Hsz). pose proof Hrh as (Hrblk&Hrlen&Hrsz).
  assert (0 < zlen l) by (destruct l; [done|zlen]).
  rewrite (assert_ok (0 <? size b)) by (apply Z.ltb_lt; lia).
  rewrite (assert_ok (2 * MinSize <=? size b + size right)) by (apply Z.leb_le; zlen).
  cbn [mbind result_bind]. rewrite (needed_ok (size b) (zlen m)) by (lia || zlen).
  unfold deref. rewrite Hblk, Hrblk. cbn [mbind result_bind].
  destruct (split_at rest (zlen m)) as (x&rest'&->&Hx); [zlen|].
  rewrite Hsz. rewrite <-(app_assoc m q rr).
  assert (copy_up (m ++ q ++ rr) 0 (zlen m) (l ++ x ++ rest') (zlen l)
          = Ok (l ++ m ++ rest')) as -> by (by apply (copy_up_spec [] m)).
  cbn [mbind result_bind].
  replace (size right - zlen m) with (zlen q) by zlen.
  rewrite (copy_within_down m q rr). cbn [mbind result_bind].
  rewrite (u16_small (zlen l + zlen m)), (u16_small (zlen q)) by zlen.
  set (b1 := set_size (set_block b _) _). set (right1 := set_size (set_block right _) _).
  rewrite (assert_ok (MinSize <=? size b1)) by (apply Z.leb_le; simpl; lia).
  rewrite (assert_ok (MinSize <=? size right1)) by (apply Z.leb_le; simpl; lia).
  cbn [mbind result_bind].
  assert (holds right1 q (drop (length q) (m ++ q ++ rr))) as Hr1.
  { split_and!; simpl; [done| |done]. unfold zlen in *. rewrite length_drop, !length_app in *. lia. }
  assert (represents b1 (l ++ m) rest') as Hb1.
  { split; [split_and!; simpl; [by rewrite <-app_assoc|zlen|by rewrite zlen_app]|].
    by destruct l. }
  destruct q as [|v q]; [zlen|]. erewrite updateHead_ok by exact Hr1. cbn [mbind result_bind].
  rewrite (assertHead_ok _ _ _ Hb1). cbn [mbind result_bind].
  eexists _, _, _, _. split_and!; [done|exact Hb1|]. split; [|done]. exact Hr1.
Qed.

Lemma stealFromSmaller_ok b left l rest m q rl :
  0 < MinSize ≤ MaxSize → represents b l rest → represents left (q ++ m) rl → l ≠ [] →
  zlen l + zlen m = MinSize → MinSize ≤ zlen q →
  ∃ b' left' rest' rl', stealFromSmaller b left = Ok (b', left') ∧
    represents b' (m ++ l) rest' ∧ represents left' q rl'.
Proof.
  intros Hmin Hb Hleft Hl Hm Hq. pose proof Hb as [Hbh Hbhead]. pose proof Hleft as [Hlh Hlhead].
  pose proof (holds_bounds _ _ _ Hbh). pose proof (holds_bounds _ _ _ Hlh).
  unfold stealFromSmaller.
  rewrite (assert_ok (has_block b)) by (by eapply holds_has_block).
  rewrite (assert_ok (has_block left)) by (by eapply holds_has_block).
  pose proof Hbh as (Hblk&Hlen&Hsz). pose proof Hlh as (Hlblk&Hllen&Hlsz).
  assert (0 < zlen l) by (destruct l; [done|zlen]).
  rewrite (assert_ok (0 <? size b)) by (apply Z.ltb_lt; lia).
  rewrite (assert_ok (2 * MinSize <=? size b + size left)) by (apply Z.leb_le; zlen).
  cbn [mbind result_bind]. rewrite (needed_ok (size b) (zlen m)) by (lia || zlen).
  unfold deref. rewrite Hblk, Hlblk. cbn [mbind result_bind].
  destruct (split_at rest (zlen m)) as (x&rest'&->&Hx); [zlen|].
  rewrite Hsz, <-Hx, copy_within_backward_up, Hx. cbn [mbind result_bind].
  replace (size left - zlen m) with (zlen q) by zlen. rewrite <-(app_assoc q m rl).
  assert (copy_up (q ++ m ++ rl) (zlen q) (zlen m)
            (take (length x) (l ++ x ++ rest') ++ l ++ rest') 0
          = Ok (m ++ l ++ rest')) as ->.
  { apply (copy_up_spec q m rl []). unfold zlen in *. rewrite length_take, !length_app. lia. }
  cbn [mbind result_bind].
  rewrite (u16_small (zlen l + zlen m)), (u16_small (zlen q)) by zlen.
  set (b1 := set_size (set_block b _) _). set (left1 := set_size left _).
  rewrite (assert_ok (MinSize <=? size b1)) by (apply Z.leb_le; simpl; lia).
  rewrite (assert_ok (MinSize <=? size left1)) by (apply Z.leb_le; simpl; lia).
  cbn [mbind result_bind].
  assert (holds b1 (m ++ l) rest') as Hb1.
  { split_and!; simpl; [by rewrite <-app_assoc|zlen|rewrite zlen_app; lia]. }
  assert (represents left1 q (m ++ rl)) as Hl1.
  { split; [split_and!; simpl; [by rewrite Hlblk, <-app_assoc|zlen|done]|].
    destruct q; [zlen|done]. }
  destruct (m ++ l) as [|v l'] eqn:Hml; [apply app_nil in Hml as [_ ->]; done|].
  erewrite updateHead_ok by exact Hb1. cbn [mbind result_bind].
  assert (represents (set_head b1 (keyOfValue v)) (v :: l') rest') as Hrep by (by split).
  rewrite (assertHead_ok _ _ _ Hrep). cbn [mbind result_bind].
  eexists _, _, _, _. split_and!; [done|exact Hrep|exact Hl1].
Qed.

Lemma removeLast_ok b l v rest :
  represents b (l ++ [v]) rest → ∃ b', removeLast b = Ok b' ∧ represents b' l (v :: rest).
Proof.
  intros [Hb Hh]. pose proof (holds_bounds _ _ _ Hb). pose proof Hb as (Hblk&Hlen&Hsz).
  unfold removeLast.
  assert (represents (set_size b (u16 (size b - 1))) l (v :: rest)) as Hrep.
  { split.
    - split_and!; simpl; [by rewrite Hblk, <-app_assoc|zlen|]. rewrite u16_small by zlen. zlen.
    - destruct l; [done|]. exact Hh. }
  rewrite (assertHead_ok _ _ _ Hrep). cbn [mbind result_bind]. by eexists.
Qed.

(** *** The operations on whole sequences *)

Lemma remove_keeps b l rest e : represents b l rest → sorted l → MaxSize < 65535 →
  ∃ b' rest', remove b e = Ok (b', bool_decide (keyOfValue e ∈ keys l)) ∧
    represents b' (filter (λ v, keyOfValue v ≠ keyOfValue e) l) rest'.
Proof.
  intros Hb Hs Hmax. destruct (decide (keyOfValue e ∈ keys l)) as [Hin|Hnin].
  - rewrite bool_decide_eq_true_2 by done.
    apply elem_of_keys in Hin as (v&Hv&Hk). apply list_elem_of_split in Hv as (l1&l2&->).
    destruct (remove_present b l1 v l2 rest e) as (b'&x&Hrem&_&Hb'); [done..|].
    exists b', (x :: rest). split; [done|]. rewrite <-Hk. by rewrite filter_key_middle.
  - rewrite bool_decide_eq_false_2 by done. exists b, rest.
    split; [by eapply remove_absent|]. by rewrite filter_key_absent.
Qed.

Lemma split_keeps b l : represents b l [] → MaxSize mod 2 = 0 →
  ∃ b' r l1 l2 rest rest', split b = Ok (b', r) ∧ l = l1 ++ l2 ∧
    zlen l1 = MaxSize / 2 ∧ zlen l2 = MaxSize / 2 ∧ represents b' l1 rest ∧ represents r l2 rest'.
Proof.
  intros Hb Heven. pose proof Hb as [(_&Hlen&_) _]. rewrite zlen_nil in Hlen.
  pose proof MaxSize_pos.
  destruct (split_at l (MaxSize / 2)) as (l1&l2&->&Hl1); [Z.div_mod_to_equations; lia|].
  rewrite zlen_app in Hlen.
  assert (zlen l2 = MaxSize / 2) by (Z.div_mod_to_equations; lia).
  destruct (split_ok b l1 l2) as (b'&r&?&?&?); [done|lia|].
  eexists b', r, l1, l2, _, _. by split_and!.
Qed.

Lemma mergeSmaller_keeps b o l lo rest resto :
  represents b l rest → represents o lo resto → l ≠ [] → zlen l + zlen lo ≤ MaxSize →
  ∃ b' rest', mergeSmaller b o = Ok b' ∧ represents b' (lo ++ l) rest'.
Proof.
  intros Hb Ho Hl Hfit. pose proof Hb as [(_&Hlen&_) _]. destruct (split_at rest (zlen lo)) as (r1&r2&->&Hr); [zlen|].
  destruct (mergeSmaller_ok b o l lo r1 r2 resto) as (b'&?&?); [done..| |by eauto]. destruct lo; done.
Qed.

Lemma steal_keeps b o l lo rest resto :
  represents b l rest → represents o lo resto → 0 < MinSize ≤ MaxSize → l ≠ [] →
  zlen l ≤ MinSize → 2 * MinSize ≤ zlen l + zlen lo →
  ∃ b' o' l' lo' rest' resto', steal b o = Ok (b', o') ∧ l' ++ lo' = l ++ lo ∧
    represents b' l' rest' ∧ represents o' lo' resto' ∧ zlen l' = MinSize ∧ MinSize ≤ zlen lo'.
Proof.
  intros Hb Ho Hmin Hl Hsmall Hboth.
  destruct (split_at lo (MinSize - zlen l)) as (m&q&->&Hm); [lia|].
  destruct (steal_ok b o l rest m q resto) as (b'&o'&rest'&resto'&?&?&?); [done|done|done|done|lia|zlen|].
  exists b', o', (l ++ m), q, rest', resto'. split_and!; [done|by rewrite app_assoc|done..|zlen|zlen].
Qed.

Lemma stealFromSmaller_keeps b o l lo rest resto :
  represents b l rest → represents o lo resto → 0 < MinSize ≤ MaxSize → l ≠ [] →
  zlen l ≤ MinSize → 2 * MinSize ≤ zlen l + zlen lo →
  ∃ b' o' l' lo' rest' resto', stealFromSmaller b o = Ok (b', o') ∧ lo' ++ l' = lo ++ l ∧
    represents b' l' rest' ∧ represents o' lo' resto' ∧ zlen l' = MinSize ∧ MinSize ≤ zlen lo'.
Proof.
  intros Hb Ho Hmin Hl Hsmall Hboth.
  destruct (split_at lo (zlen lo - (MinSize - zlen l))) as (q&m&->&Hq); [zlen|].
  destruct (stealFromSmaller_ok b o l rest m q resto) as (b'&o'&rest'&resto'&?&?&?); [done|done|done|done|zlen|zlen|].
  exists b', o', (m ++ l), q, rest', resto'. split_and!; [done|by rewrite app_assoc|done..|zlen|zlen].
Qed.
End moves.
