(* ===== verification/BlockMerge.v ===== *)
(** * PmaEntry::mergeFaster: merging a batch into a block from the back

    The model of the second merge routine of dataStructures/block.hpp, and the
    proof that it computes the same sequence as [merge].  The indices are the
    16-bit integers of the code; [writeIndex], [blockEnd] and [batchEnd] are signed. *)

From S2P Require Export BlockMoves.
Import PmaEntry.

Module MergeFaster.
Section definitions.
  Context `{T : SdsTypes} `{C : BlockConfig}.

(** The local variables of [mergeFaster] and the block itself. *)
Record state := mkState {
  entry : PmaEntry;
  blockEnd : Z;
  batchEnd : Z;
  writeIndex : Z;
  numberOfWrites : Z;
  dupl : Z;
  lastWrittenKey : Z;
}.

Definition init (b : PmaEntry) (numberOfElements : Z) : state :=
  mkState b (i16 (size b - 1)) (i16 (numberOfElements - 1))
    (i16 (size b + numberOfElements - 1)) 0 0 NULL_KEY.

(** Write [v] to [writeIndex]. *)
Definition write (s : state) (v : ValueType) : result state :=
  b ← put (entry s) (writeIndex s) v;
  Ok (mkState b (blockEnd s) (batchEnd s) (i16 (writeIndex s - 1))
        (u16 (numberOfWrites s + 1)) (dupl s) (keyOfValue v)).

Definition count_duplicate (s : state) : state :=
  mkState (entry s) (blockEnd s) (batchEnd s) (writeIndex s) (numberOfWrites s)
    (dupl s + 1) (lastWrittenKey s).

Definition set_batchEnd (s : state) (x : Z) : state :=
  mkState (entry s) (blockEnd s) x (writeIndex s) (numberOfWrites s) (dupl s) (lastWrittenKey s).

Definition set_blockEnd (s : state) (x : Z) : state :=
  mkState (entry s) x (batchEnd s) (writeIndex s) (numberOfWrites s) (dupl s) (lastWrittenKey s).

(** [batch[i]] for [i] relative to the start of the batch. *)
Definition batchAt (batch : list ValueType) (from i : Z) : result ValueType :=
  zget batch (from + i).

(** Go to the first occurrence of the key in the batch. *)
Definition firstOccurrence (batch : list ValueType) (from : Z) (e : Z) : result Z :=
  while (S (Z.to_nat e))
    (λ e, if 0 <? e then
            v ← batchAt batch from e;
            w ← batchAt batch from (e - 1);
            Ok (keyOfValue v =? keyOfValue w)
          else Ok false)
    (λ e, Ok (i16 (e - 1)))
    e.

(** The first loop: both the block and the batch have elements left. *)
Definition mergeStep (batch : list ValueType) (from : Z) (s : state) : result state :=
  AssertMsg (0 <=? writeIndex s);;
  x ← get (entry s) (blockEnd s);
  y ← batchAt batch from (batchEnd s);
  if comp (keyOfValue x) (keyOfValue y) then
    s' ← (if negb (keyOfValue y =? lastWrittenKey s) then
            e ← firstOccurrence batch from (batchEnd s);
            y' ← batchAt batch from e;
            write (set_batchEnd s e) y'
          else Ok (count_duplicate s));
    Ok (set_batchEnd s' (i16 (batchEnd s' - 1)))
  else
    s' ← (if negb (keyOfValue x =? lastWrittenKey s) then write s x
          else Ok (count_duplicate s));
    Ok (set_blockEnd s' (i16 (blockEnd s' - 1))).

Definition mergeLoop (batch : list ValueType) (from : Z) (s : state) : result state :=
  while (S (Z.to_nat (blockEnd s + batchEnd s + 2)))
    (λ s, Ok ((0 <=? blockEnd s) && (0 <=? batchEnd s)))
    (mergeStep batch from) s.

(** The second loop: only batch elements are left. *)
Definition remainingStep (batch : list ValueType) (from : Z) (s : state) : result state :=
  AssertMsg (0 <=? writeIndex s);;
  y ← batchAt batch from (batchEnd s);
  s' ← (if negb (keyOfValue y =? lastWrittenKey s) then write s y
        else Ok (count_duplicate s));
  Ok (set_batchEnd s' (i16 (batchEnd s' - 1))).

Definition remainingLoop (batch : list ValueType) (from : Z) (s : state) : result state :=
  while (S (Z.to_nat (batchEnd s + 1)))
    (λ s, Ok (0 <=? batchEnd s))
    (remainingStep batch from) s.

(** [blockEnd >= 0 && keyOfValue(get(blockEnd)) == lastWrittenKey]. *)
Definition duplicateInBlock (s : state) : result bool :=
  if 0 <=? blockEnd s then
    x ← get (entry s) (blockEnd s);
    Ok (keyOfValue x =? lastWrittenKey s)
  else Ok false.

(** Close the gap that the dropped duplicates left. *)
Definition shiftElements (b : PmaEntry) (emptyRegionStart numberOfDuplicates numberOfWrites : Z)
    : result PmaEntry :=
  for_range 0 numberOfWrites
    (λ i b,
       (if NDEBUG then Ok tt else
          v ← get b (u16 (emptyRegionStart + i + numberOfDuplicates));
          AssertMsg (negb (keyOfValue v =? 0)));;
       v ← get b (u16 (emptyRegionStart + i + numberOfDuplicates));
       put b (emptyRegionStart + i) v) b.

Definition finish (s : state) (numberOfElements : Z) : result PmaEntry :=
  found ← duplicateInBlock s;
  let s := if found : bool then count_duplicate s else s in
  let emptyRegionStart := u16 (blockEnd s + 1 - (if found then 1 else 0)) in
  let numberOfDuplicates :=
    u16 (size (entry s) + numberOfElements - (blockEnd s + 1) - numberOfWrites s) in
  AssertMsg (dupl s =? numberOfDuplicates);;
  let numberOfDuplicates :=
    if found then u16 (numberOfDuplicates + 1) else numberOfDuplicates in
  b ← (if 0 <? numberOfDuplicates
       then shiftElements (entry s) emptyRegionStart numberOfDuplicates (numberOfWrites s)
       else Ok (entry s));
  let w := if emptyRegionStart <=? writeIndex s
           then i16 (writeIndex s - numberOfDuplicates) else writeIndex s in
  let b := set_size b (u16 (size b + numberOfElements - numberOfDuplicates)) in
  b ← (if w + 1 =? 0 then updateHead b else Ok b);
  assertHead b;;
  Ok b.

(** [mergeFaster(batch + from, numberOfElements)]. *)
Definition mergeFaster (b : PmaEntry) (batch : list ValueType) (from numberOfElements : Z)
    : result PmaEntry :=
  AssertMsg (has_block b);;
  s ← mergeLoop batch from (init b numberOfElements);
  s ← remainingLoop batch from s;
  finish s numberOfElements.

End definitions.
End MergeFaster.

Import MergeFaster.

Section correctness.
Context `{T : SdsTypes} `{C : BlockConfig} `{!BlockConfigOk}.
Implicit Types (l out gap bs : list ValueType).

(** The block [l] of the entry, the batch [pre ++ bs ++ post], the stale cells [free] that
    become part of the merged area and the cells [tail] behind it. *)
Variables (l bs pre post free tail : list ValueType) (head0 : Z).

Definition last_key (out : list ValueType) : Z :=
  match out with [] => NULL_KEY | v :: _ => keyOfValue v end.

(** [l1] and [b1] are what is left of block and batch, [out] what was written;
    the gap between block and output has a cell for each batch element and each
    duplicate. *)
Record inv (s : state) (l1 gap out b1 : list ValueType) : Prop := {
  inv_block : block (entry s) = Some (l1 ++ gap ++ out ++ tail);
  inv_size : size (entry s) = zlen l;
  inv_head : head (entry s) = head0;
  inv_blockEnd : blockEnd s = zlen l1 - 1;
  inv_batchEnd : batchEnd s = zlen b1 - 1;
  inv_writeIndex : writeIndex s = zlen l1 + zlen gap - 1;
  inv_writes : numberOfWrites s = zlen out;
  inv_gap : zlen gap = zlen b1 + dupl s;
  inv_dupl : 0 ≤ dupl s;
  inv_total : zlen l1 + zlen gap + zlen out = zlen l + zlen bs;
  inv_batch : ∃ b2, bs = b1 ++ b2;
  inv_l1 : ∃ l2, l = l1 ++ l2;
  inv_merge : smerge l bs = smerge (l1 ++ out) b1;
  inv_sorted : sorted (l1 ++ out);
  inv_last : lastWrittenKey s = last_key out;
  inv_bound : out ≠ [] → ∀ k, k ∈ keys b1 → k ≤ last_key out;
  inv_old : ∀ v, v ∈ gap → v ∈ free ∨ v ∈ l;
}.

Hypothesis sorted_bs : sorted bs.
Hypothesis null_free : (NULL_KEY ∉ keys l) ∧ (NULL_KEY ∉ keys bs).
Hypothesis zero_free : NDEBUG = true ∨ ((0 ∉ keys l) ∧ (0 ∉ keys bs)).
Hypothesis fits : zlen l + zlen bs ≤ MaxSize.
Hypothesis signed : MaxSize ≤ 32768.
Hypothesis cells : zlen l + zlen bs + zlen tail = MaxSize.

Lemma entry_get b c i v :
  block b = Some c → at_ c i = Some v → get b i = Ok v.
Proof.
  intros Hb Hi. unfold get, AssertMsg, assert_unless, has_block, deref. rewrite Hb.
  destruct NDEBUG; simpl; by rewrite (zget_at _ _ _ Hi).
Qed.

Lemma batchAt_ok b1 y b2 i :
  bs = b1 ++ y :: b2 → i = zlen b1 → batchAt (pre ++ bs ++ post) (zlen pre) i = Ok y.
Proof.
  intros -> ->. unfold batchAt. apply zget_at.
  rewrite at_app_r by zlen. replace (zlen pre + zlen b1 - zlen pre) with (zlen b1) by lia.
  rewrite <-app_assoc. apply at_middle.
Qed.

(** Writing an element to the free cell next to the output. *)
Lemma write_ok s l1 gap z out v :
  block (entry s) = Some (l1 ++ (gap ++ [z]) ++ out ++ tail) →
  writeIndex s = zlen l1 + zlen gap → numberOfWrites s = zlen out →
  zlen l1 + zlen gap + 1 + zlen out ≤ MaxSize →
  write s v = Ok (mkState (set_block (entry s) (Some (l1 ++ gap ++ (v :: out) ++ tail)))
                   (blockEnd s) (batchEnd s) (zlen l1 + zlen gap - 1)
                   (zlen out + 1) (dupl s) (keyOfValue v)).
Proof.
  intros Hb Hw Hn Hmax. unfold write. rewrite Hw, Hn.
  replace (zlen l1 + zlen gap) with (zlen (l1 ++ gap)) by zlen.
  erewrite put_middle; cycle 1.
  { rewrite Hb. rewrite <-!app_assoc. reflexivity. }
  cbn [mbind result_bind]. rewrite u16_small, i16_small by zlen.
  rewrite <-app_assoc. by rewrite zlen_app.
Qed.

Lemma mergeStep_block s l1 x gap z out b1 y :
  inv s (l1 ++ [x]) (gap ++ [z]) out (b1 ++ [y]) → keyOfValue y ≤ keyOfValue x →
  ∃ s', mergeStep (pre ++ bs ++ post) (zlen pre) s = Ok s' ∧
    inv s' l1 (x :: gap) (x :: out) (b1 ++ [y]).
Proof.
  intros [Hb Hs Hh Hbl Hba Hw Hn Hg Hd Ht (b2&Hb2) (l2&Hl2) Hm Hso Hla Hbo Hold] Hxy.
  assert (keyOfValue x ≠ lastWrittenKey s) as Hne.
  { rewrite Hla. destruct out as [|w out]; simpl.
    - intros Heq. apply (proj1 null_free). rewrite <-Heq, Hl2, !keys_app. set_solver.
    - apply sorted_app in Hso as (_&_&Hlt). specialize (Hlt x w). set_solver by lia. }
  unfold mergeStep.
  rewrite (assert_ok (0 <=? writeIndex s)) by (apply Z.leb_le; zlen). cbn [mbind result_bind].
  erewrite (entry_get _ _ _ x); [|exact Hb|rewrite Hbl, <-app_assoc; cbn [app];
    replace (zlen (l1 ++ [x]) - 1) with (zlen l1) by zlen; apply at_middle].
  cbn [mbind result_bind].
  rewrite (batchAt_ok b1 y b2); [|rewrite Hb2, <-app_assoc; done|zlen]. cbn [mbind result_bind].
  unfold comp. destruct (Z.ltb_spec (keyOfValue x) (keyOfValue y)); [lia|].
  replace (keyOfValue x =? lastWrittenKey s) with false by (symmetry; by apply Z.eqb_neq).
  cbn [negb]. erewrite write_ok; [|exact Hb|zlen|done|zlen]. cbn [mbind result_bind].
  eexists. split; [done|].
  split; cbn [set_blockEnd entry blockEnd batchEnd writeIndex numberOfWrites dupl
    lastWrittenKey set_block block size head last_key].
  - by rewrite <-app_assoc.
  - done.
  - done.
  - rewrite i16_small by zlen. zlen.
  - done.
  - zlen.
  - zlen.
  - zlen.
  - done.
  - zlen.
  - by eexists.
  - eexists. rewrite Hl2, <-app_assoc. done.
  - by rewrite Hm, <-app_assoc.
  - by rewrite <-app_assoc in Hso.
  - done.
  - intros _ k. rewrite keys_app, elem_of_app. intros [Hk|Hk].
    + assert (sorted (b1 ++ [y])) as Hsb by (rewrite Hb2 in sorted_bs; by apply sorted_app in sorted_bs as (?&_)).
      apply sorted_app in Hsb as (_&_&Hlt). apply elem_of_keys in Hk as (v&Hv&<-).
      specialize (Hlt v y). set_solver by lia.
    + rewrite keys_cons, keys_nil in Hk. apply list_elem_of_singleton in Hk. lia.
  - intros v [->|Hv]%elem_of_cons; [right; rewrite Hl2; set_solver|]. apply Hold. set_solver.
Qed.

Lemma batch_below b1 y b2 : bs = b1 ++ [y] ++ b2 → ∀ k, k ∈ keys b1 → k < keyOfValue y.
Proof.
  intros Hb2 k Hk. rewrite Hb2 in sorted_bs. apply sorted_middle in sorted_bs as (_&_&Hlt&_).
  rewrite below_keys in Hlt. auto.
Qed.

(** Without repeated keys the first occurrence is the element itself. *)
Lemma firstOccurrence_ok b1 y b2 i :
  bs = b1 ++ [y] ++ b2 → i = zlen b1 →
  firstOccurrence (pre ++ bs ++ post) (zlen pre) i = Ok i.
Proof.
  intros Hb2 ->. unfold firstOccurrence. apply while_exit. cbv beta.
  destruct (Z.ltb_spec 0 (zlen b1)); [|done].
  rewrite (batchAt_ok b1 y b2 (zlen b1)) by done. cbn [mbind result_bind].
  destruct b1 as [|w b1 _] using rev_ind; [done|].
  rewrite (batchAt_ok b1 w (y :: b2)); [|rewrite Hb2, <-app_assoc; done|zlen].
  cbn [mbind result_bind]. f_equal. apply Z.eqb_neq.
  assert (keyOfValue w < keyOfValue y); [|lia].
  apply (batch_below _ _ _ Hb2). rewrite keys_app. set_solver.
Qed.

(** Taking the last batch element: it is written unless it was the last key. *)
Lemma take_batch s s' l1 gap z out b1 y :
  inv s l1 (gap ++ [z]) out (b1 ++ [y]) → below l1 (keyOfValue y) →
  (if negb (keyOfValue y =? lastWrittenKey s) then write s y
   else Ok (count_duplicate s)) = Ok s' →
  ∃ gap' out', inv (set_batchEnd s' (zlen b1 - 1)) l1 gap' out' b1 ∧ batchEnd s' = batchEnd s.
Proof.
  intros [Hb Hs Hh Hbl Hba Hw Hn Hg Hd Ht (b2&Hb2) Hl2 Hm Hso Hla Hbo Hold] Hy Hs'.
  rewrite <-app_assoc in Hb2. pose proof (batch_below _ _ _ Hb2) as Hlt.
  rewrite smerge_last in Hm; [|done|intros ?%Hlt; lia].
  destruct (Z.eqb_spec (keyOfValue y) (lastWrittenKey s)) as [Heq|Hne]; simpl in Hs'.
  - injection Hs' as <-. exists (gap ++ [z]), out. split; [|done].
    assert (out ≠ []) as Hout.
    { intros ->. apply (proj2 null_free). simpl in Hla. rewrite <-Hla, <-Heq, Hb2.
      rewrite !keys_app. set_solver. }
    destruct out as [|w out]; [done|].
    split; simpl; try done.
    + zlen.
    + lia.
    + by eexists.
    + rewrite Hm. f_equal. apply sinsert_present; [done|]. simpl in *. congruence.
    + intros _ k Hk. apply (Hbo ltac:(done)). rewrite keys_app. set_solver.
  - erewrite write_ok in Hs'; [|exact Hb|zlen|done|zlen]. injection Hs' as <-.
    exists gap, (y :: out). split; [|done].
    assert (above (keyOfValue y) out) as Hab.
    { destruct out as [|w out]; [constructor|]. simpl in *.
      assert (keyOfValue y < keyOfValue w).
      { assert (keyOfValue y ≤ keyOfValue w); [|lia]. apply (Hbo ltac:(done)).
        rewrite keys_app. set_solver. }
      apply above_cons. split; [done|].
      apply sorted_middle in Hso as (_&_&_&Hw'). eapply above_weaken; [exact Hw'|lia]. }
    split; simpl; try done.
    + zlen.
    + zlen.
    + zlen.
    + by eexists.
    + rewrite Hm. f_equal. by apply sinsert_new.
    + apply sorted_middle. apply sorted_app in Hso as (?&?&_). done.
    + intros _ k Hk%Hlt. lia.
    + intros v Hv. apply Hold. set_solver.
Qed.

Lemma write_total s l1 gap z out b1 y :
  inv s l1 (gap ++ [z]) out (b1 ++ [y]) →
  ∃ s', (if negb (keyOfValue y =? lastWrittenKey s) then write s y
         else Ok (count_duplicate s)) = Ok s'.
Proof.
  intros [Hb Hs Hh Hbl Hba Hw Hn Hg Hd Ht (b2&Hb2) Hl2 Hm Hso Hla Hbo Hold].
  destruct (negb _); [|eauto]. erewrite write_ok; [eauto|exact Hb|zlen|done|zlen].
Qed.

Lemma mergeStep_batch s l1 x gap z out b1 y :
  inv s (l1 ++ [x]) (gap ++ [z]) out (b1 ++ [y]) → keyOfValue x < keyOfValue y →
  ∃ s' gap' out', mergeStep (pre ++ bs ++ post) (zlen pre) s = Ok s' ∧
    inv s' (l1 ++ [x]) gap' out' b1.
Proof.
  intros Hinv Hxy. pose proof Hinv as [Hb Hs Hh Hbl Hba Hw Hn Hg Hd Ht (b2&Hb2) (l2&Hl2) Hm Hso Hla Hbo Hold].
  assert (below (l1 ++ [x]) (keyOfValue y)) as Hy.
  { rewrite <-app_assoc in Hso. apply sorted_middle in Hso as (_&_&Hlt&_).
    apply below_app. split; [|by repeat constructor]. eapply below_weaken; [exact Hlt|lia]. }
  destruct (write_total s _ _ _ _ _ _ Hinv) as (s'&Hs').
  destruct (take_batch s s' _ _ _ _ _ _ Hinv Hy Hs') as (gap'&out'&Hinv'&Hend).
  unfold mergeStep.
  rewrite (assert_ok (0 <=? writeIndex s)) by (apply Z.leb_le; zlen). cbn [mbind result_bind].
  erewrite (entry_get _ _ _ x); [|exact Hb|rewrite Hbl, <-app_assoc; cbn [app];
    replace (zlen (l1 ++ [x]) - 1) with (zlen l1) by zlen; apply at_middle].
  cbn [mbind result_bind]. rewrite <-app_assoc in Hb2.
  rewrite (batchAt_ok b1 y b2) by (done || zlen). cbn [mbind result_bind].
  unfold comp. destruct (Z.ltb_spec (keyOfValue x) (keyOfValue y)); [|lia].
  exists (set_batchEnd s' (zlen b1 - 1)), gap', out'. split; [|done].
  destruct (negb _).
  - rewrite (firstOccurrence_ok b1 y b2) by (done || zlen). cbn [mbind result_bind].
    rewrite (batchAt_ok b1 y b2) by (done || zlen). cbn [mbind result_bind].
    replace (set_batchEnd s (batchEnd s)) with s by (by destruct s). rewrite Hs'.
    cbn [mbind result_bind]. rewrite Hend, i16_small by zlen. do 2 f_equal. zlen.
  - injection Hs' as <-. cbn [mbind result_bind]. rewrite Hend, i16_small by zlen. do 2 f_equal. zlen.
Qed.

Lemma remainingStep_ok s gap z out b1 y :
  inv s [] (gap ++ [z]) out (b1 ++ [y]) →
  ∃ s' gap' out', remainingStep (pre ++ bs ++ post) (zlen pre) s = Ok s' ∧
    inv s' [] gap' out' b1.
Proof.
  intros Hinv. pose proof Hinv as [Hb Hs Hh Hbl Hba Hw Hn Hg Hd Ht (b2&Hb2) (l2&Hl2) Hm Hso Hla Hbo Hold].
  destruct (write_total s _ _ _ _ _ _ Hinv) as (s'&Hs').
  destruct (take_batch s s' _ _ _ _ _ _ Hinv (Forall_nil_2 _) Hs') as (gap'&out'&Hinv'&Hend).
  unfold remainingStep.
  rewrite (assert_ok (0 <=? writeIndex s)) by (apply Z.leb_le; zlen). cbn [mbind result_bind].
  rewrite <-app_assoc in Hb2.
  rewrite (batchAt_ok b1 y b2) by (done || zlen). cbn [mbind result_bind].
  rewrite Hs'. cbn [mbind result_bind]. rewrite Hend, i16_small by zlen.
  exists (set_batchEnd s' (zlen b1 - 1)), gap', out'. split; [|done]. do 2 f_equal. zlen.
Qed.

Lemma snoc_of_pos {A} (x : list A) : 0 < zlen x → ∃ x' z, x = x' ++ [z].
Proof. destruct x as [|z x' _] using rev_ind; [intros ?; zlen|eauto]. Qed.

Lemma mergeLoop_ok s l1 gap out b1 :
  inv s l1 gap out b1 →
  wp (mergeLoop (pre ++ bs ++ post) (zlen pre) s)
    (λ s', ∃ l1 gap out b1, inv s' l1 gap out b1 ∧ (l1 = [] ∨ b1 = [])).
Proof.
  intros Hinv. unfold mergeLoop.
  apply (wp_while (λ s, ∃ l1 gap out b1, inv s l1 gap out b1)
           (λ s, blockEnd s + batchEnd s + 2)); [|by eauto 10|lia].
  clear s l1 gap out b1 Hinv. intros s (l1&gap&out&b1&Hinv).
  pose proof Hinv as [? ? ? Hbl Hba ? ? Hg Hd ? ? ? ? ? ? ? ?]. rewrite Hbl, Hba.
  split; [zlen|]. cbn [wp].
  destruct (Z.leb_spec 0 (zlen l1 - 1)), (Z.leb_spec 0 (zlen b1 - 1)); cbn [andb].
  2: { exists l1, gap, out, b1. split; [done|]. right. destruct b1; [done|zlen]. }
  2,3: exists l1, gap, out, b1; (split; [done|]; left; destruct l1; [done|zlen]).
  destruct (snoc_of_pos l1) as (l1'&x&->); [lia|].
  destruct (snoc_of_pos b1) as (b1'&y&->); [lia|].
  destruct (snoc_of_pos gap) as (gap'&z&->); [lia|].
  destruct (Z.lt_ge_cases (keyOfValue x) (keyOfValue y)).
  - destruct (mergeStep_batch _ _ _ _ _ _ _ _ Hinv) as (s'&g&o&->&Hinv'); [done|].
    simpl. split; [by eauto 10|]. destruct Hinv' as [_ _ _ -> -> _ _ _ _ _ _ _ _ _ _ _ _]. zlen.
  - destruct (mergeStep_block _ _ _ _ _ _ _ _ Hinv) as (s'&->&Hinv'); [done|].
    simpl. split; [by eauto 10|]. destruct Hinv' as [_ _ _ -> -> _ _ _ _ _ _ _ _ _ _ _ _]. zlen.
Qed.

Lemma remainingLoop_ok s l1 gap out b1 :
  inv s l1 gap out b1 → l1 = [] ∨ b1 = [] →
  wp (remainingLoop (pre ++ bs ++ post) (zlen pre) s)
    (λ s', ∃ l1 gap out, inv s' l1 gap out []).
Proof.
  intros Hinv Hend. unfold remainingLoop.
  apply (wp_while (λ s, ∃ l1 gap out b1, inv s l1 gap out b1 ∧ (l1 = [] ∨ b1 = []))
           (λ s, batchEnd s + 1)); [|by eauto 10|lia].
  clear s l1 gap out b1 Hinv Hend. intros s (l1&gap&out&b1&Hinv&Hend).
  pose proof Hinv as [? ? ? Hbl Hba ? ? Hg Hd ? ? ? ? ? ? ? ?]. rewrite Hba.
  split; [zlen|]. cbn [wp]. destruct (Z.leb_spec 0 (zlen b1 - 1)).
  - destruct Hend as [-> | ->]; [|zlen].
    destruct (snoc_of_pos b1) as (b1'&y&->); [lia|].
    destruct (snoc_of_pos gap) as (gap'&z&->); [lia|].
    destruct (remainingStep_ok _ _ _ _ _ _ Hinv) as (s'&g&o&->&Hinv').
    simpl. split; [exists [], g, o, b1'; tauto|].
    destruct Hinv' as [_ _ _ _ -> _ _ _ _ _ _ _ _ _ _ _ _]. zlen.
  - exists l1, gap, out. destruct b1; [done|zlen].
Qed.

(** Closing the gap. *)
Lemma shiftElements_ok b l1 gap out :
  block b = Some (l1 ++ gap ++ out ++ tail) →
  zlen l1 + zlen gap + zlen out ≤ MaxSize →
  (NDEBUG = true ∨ 0 ∉ keys out) →
  shiftElements b (zlen l1) (zlen gap) (zlen out)
  = Ok (set_block b (Some (l1 ++ out ++ drop (length out) (gap ++ out ++ tail)))).
Proof.
  intros Hb Hmax Hz. unfold shiftElements.
  set (f := λ i, set_block b (Some (l1 ++ moved_down gap out tail i))).
  assert (b = f 0) as Hf0 by (symmetry; by apply set_block_id).
  rewrite Hf0 at 1. rewrite (for_range_states 0 (zlen out) _ f); [|zlen|].
  { unfold f. by rewrite moved_down_all. }
  intros i Hi. destruct (at_in_bound out i Hi) as [v Hv].
  assert (get (f i) (u16 (zlen l1 + i + zlen gap)) = Ok v) as Hget.
  { rewrite u16_small by (pose proof MaxSize_u16; zlen).
    eapply entry_get; [done|]. rewrite at_app_r by zlen.
    replace (zlen l1 + i + zlen gap - zlen l1) with (zlen gap + i) by lia.
    by rewrite moved_down_at. }
  rewrite Hget. cbn [mbind result_bind].
  assert ((if NDEBUG then Ok tt else AssertMsg (negb (keyOfValue v =? 0))) = Ok tt) as Hassert.
  { destruct NDEBUG; [done|]. destruct Hz as [? | Hz]; [done|]. apply assert_ok.
    apply negb_true_iff, Z.eqb_neq. intros Heq. apply Hz. rewrite <-Heq.
    apply elem_of_keys. exists v. split; [|done].
    unfold at_ in Hv. destruct (0 <=? i); [|done]. by eapply list_elem_of_lookup_2. }
  rewrite Hassert. cbn [mbind result_bind].
  unfold put, deref, f. cbn [block set_block mbind result_bind].
  rewrite (moved_down_step l1 gap out tail i v) by done. done.
Qed.

Lemma keys_out s l1 gap out :
  inv s l1 gap out [] → ∀ k, k ∈ keys (l1 ++ out) → k ∈ keys l ∨ k ∈ keys bs.
Proof. intros Hinv k Hk. apply keys_smerge. by rewrite (inv_merge _ _ _ _ _ Hinv). Qed.

Lemma duplicateInBlock_ok s l1 gap out :
  inv s l1 gap out [] → duplicateInBlock s = Ok false.
Proof.
  intros Hinv. pose proof Hinv as [Hb Hs Hh Hbl Hba Hw Hn Hg Hd Ht _ _ Hm Hso Hla _ _].
  unfold duplicateInBlock. destruct (Z.leb_spec 0 (blockEnd s)); [|done].
  destruct (snoc_of_pos l1) as (l1'&x&->); [lia|].
  erewrite (entry_get _ _ _ x); [|exact Hb|rewrite Hbl, <-app_assoc; cbn [app];
    replace (zlen (l1' ++ [x]) - 1) with (zlen l1') by zlen; apply at_middle].
  cbn [mbind result_bind]. f_equal. apply Z.eqb_neq. rewrite Hla. intros Heq.
  destruct out as [|w out]; simpl in Heq.
  - destruct (keys_out _ _ _ _ Hinv NULL_KEY) as [?|?];
      [|by apply (proj1 null_free)|by apply (proj2 null_free)].
    rewrite <-Heq, !keys_app. set_solver.
  - apply sorted_app in Hso as (_&_&Hlt). specialize (Hlt x w). set_solver by lia.
Qed.

(** The elements behind the gap are shifted down to close it; the cells [closed] are behind
    them then. *)
Definition closed gap out : list ValueType := drop (length out) (gap ++ out ++ tail).

Lemma closed_length gap out : zlen out + zlen (closed gap out) = zlen gap + zlen out + zlen tail.
Proof. unfold closed, zlen. rewrite length_drop, !length_app. lia. Qed.

Lemma gap_closed s l1 gap out :
  inv s l1 gap out [] →
  (if 0 <? zlen gap then shiftElements (entry s) (zlen l1) (zlen gap) (zlen out)
   else Ok (entry s)) = Ok (set_block (entry s) (Some (l1 ++ out ++ closed gap out))).
Proof.
  intros Hinv. pose proof (inv_block _ _ _ _ _ Hinv) as Hb. pose proof MaxSize_u16.
  pose proof (inv_total _ _ _ _ _ Hinv) as Ht.
  destruct (Z.ltb_spec 0 (zlen gap)).
  - apply shiftElements_ok; [done|zlen|]. destruct zero_free as [? | [? ?]]; [by left|right].
    intros Hz. destruct (keys_out _ _ _ _ Hinv 0) as [?|?]; [|done..].
    rewrite keys_app. set_solver.
  - assert (gap = []) as -> by (destruct gap; [done|zlen]).
    f_equal. symmetry. apply set_block_id. rewrite Hb. unfold closed. cbn [app].
    by rewrite drop_app_length.
Qed.

(** What is left in these cells was there before, or has a key of the result. *)
Lemma closed_origin s l1 gap out v :
  inv s l1 gap out [] → v ∈ closed gap out → v ∈ free ++ tail ∨ keyOfValue v ∈ keys (smerge l bs).
Proof.
  intros [_ _ _ _ _ _ _ _ _ _ _ _ Hm _ _ _ Hold] Hv. cbn in Hm. assert (v ∈ gap ++ out ++ tail) as Hv'.
  { rewrite <-(take_drop (length out) (gap ++ out ++ tail)). apply elem_of_app. by right. }
  apply elem_of_app in Hv' as [Hv'|Hv'].
  - destruct (Hold v Hv') as [?|Hl]; [left; set_solver|right]. apply keys_smerge. left.
    apply elem_of_keys. by exists v.
  - apply elem_of_app in Hv' as [Hv'|Hv']; [right|left; set_solver]. rewrite Hm, keys_app.
    apply elem_of_app. right. apply elem_of_keys. by exists v.
Qed.

Lemma finish_ok s l1 gap out :
  inv s l1 gap out [] → smerge l bs ≠ [] → head_of l head0 →
  ∃ b' rest', finish s (zlen bs) = Ok b' ∧ represents b' (smerge l bs) rest' ∧
    ∀ v, v ∈ rest' → v ∈ free ++ tail ∨ keyOfValue v ∈ keys (smerge l bs).
Proof.
  intros Hinv Hne Hhead.
  pose proof Hinv as [Hb Hs Hh Hbl Hba Hw Hn Hg Hd Ht _ (l2&Hl2) Hm Hso Hla _ _].
  rewrite zlen_nil in Hg. cbn in Hm. pose proof MaxSize_u16 as Hu16.
  unfold finish. rewrite (duplicateInBlock_ok _ _ _ _ Hinv). cbn [mbind result_bind].
  rewrite Hbl, Hw, Hn, Hs.
  replace (u16 (zlen l1 - 1 + 1 - 0)) with (zlen l1) by (rewrite u16_small; zlen).
  replace (u16 (zlen l + zlen bs - (zlen l1 - 1 + 1) - zlen out)) with (zlen gap)
    by (rewrite u16_small; zlen).
  rewrite (assert_ok (dupl s =? zlen gap)) by (apply Z.eqb_eq; lia). cbn [mbind result_bind].
  rewrite (gap_closed _ _ _ _ Hinv). pose proof (closed_length gap out) as Hrest. cbn [mbind result_bind].
  assert ((if zlen l1 <=? zlen l1 + zlen gap - 1
           then i16 (zlen l1 + zlen gap - 1 - zlen gap) else zlen l1 + zlen gap - 1)
          = zlen l1 - 1) as ->.
  { destruct (Z.leb_spec (zlen l1) (zlen l1 + zlen gap - 1)); [rewrite i16_small; zlen|zlen]. }
  replace (zlen l1 - 1 + 1) with (zlen l1) by lia. cbn [set_block size]. rewrite Hs.
  replace (u16 (zlen l + zlen bs - zlen gap)) with (zlen (l1 ++ out))
    by (rewrite u16_small; zlen).
  set (b := set_size _ _).
  assert (holds b (l1 ++ out) (closed gap out)) as Hhold.
  { split_and!; simpl; [by rewrite <-app_assoc|zlen|done]. }
  pose proof (λ v, closed_origin s l1 gap out v Hinv) as Horigin. rewrite Hm in *. destruct l1 as [|x l1].
  - destruct out as [|v out]; [done|]. cbn [app] in *.
    replace (zlen [] =? 0) with true by done.
    erewrite updateHead_ok by exact Hhold. cbn [mbind result_bind].
    assert (represents (set_head b (keyOfValue v)) (v :: out) (closed gap (v :: out))) as Hrep by (by split).
    rewrite (assertHead_ok _ _ _ Hrep). eexists _, _. by split_and!.
  - replace (zlen (x :: l1) =? 0) with false by (symmetry; apply Z.eqb_neq; zlen).
    cbn [mbind result_bind].
    assert (represents b ((x :: l1) ++ out) (closed gap out)) as Hrep.
    { split; [done|]. simpl. rewrite Hh. by rewrite Hl2 in Hhead. }
    rewrite (assertHead_ok _ _ _ Hrep). eexists _, _. by split_and!.
Qed.
End correctness.

Section equivalence.
Context `{T : SdsTypes} `{C : BlockConfig} `{!BlockConfigOk}.

(** Merging from the back yields the merged sequence, at any position of the batch. *)
Lemma mergeFaster_ok b (l rest pre bs post : list ValueType) :
  represents b l rest → sorted l → sorted bs → bs ≠ [] →
  zlen l + zlen bs ≤ MaxSize → MaxSize ≤ 32768 →
  (NULL_KEY ∉ keys l) ∧ (NULL_KEY ∉ keys bs) →
  NDEBUG = true ∨ ((0 ∉ keys l) ∧ (0 ∉ keys bs)) →
  ∃ b' rest', mergeFaster b (pre ++ bs ++ post) (zlen pre) (zlen bs) = Ok b' ∧
    represents b' (smerge l bs) rest' ∧
    ∀ v, v ∈ rest' → v ∈ rest ∨ keyOfValue v ∈ keys (smerge l bs).
Proof.
  intros [Hb Hh] Hs Hbs Hne Hfit Hsigned Hnull Hzero.
  pose proof Hb as (Hblk&Hlen&Hsz).
  destruct (split_at rest (zlen bs)) as (gap&tail&->&Hgap); [zlen|].
  assert (inv l bs gap tail (head b) (init b (zlen bs)) l gap [] bs) as Hinv.
  { split; simpl; rewrite ?Hsz, ?app_nil_r, ?i16_small by zlen; try done; try zlen.
    - exists []. by rewrite app_nil_r.
    - exists []. by rewrite app_nil_r.
    - intros v Hv. by left. }
  unfold mergeFaster. rewrite (assert_ok (has_block b)) by (by eapply holds_has_block).
  cbn [mbind result_bind].
  assert (wp (s ← mergeLoop (pre ++ bs ++ post) (zlen pre) (init b (zlen bs));
              s ← remainingLoop (pre ++ bs ++ post) (zlen pre) s; finish s (zlen bs))
            (λ b', ∃ rest', represents b' (smerge l bs) rest' ∧
              ∀ v, v ∈ rest' → v ∈ gap ++ tail ∨ keyOfValue v ∈ keys (smerge l bs))) as Hwp.
  { apply wp_bind. eapply wp_mono; [eapply mergeLoop_ok; try done; zlen|].
    intros s (l1&g&o&b1&Hi&Hend). apply wp_bind.
    eapply wp_mono; [eapply remainingLoop_ok; try done; zlen|].
    intros s' (l1'&g'&o'&Hi').
    destruct (finish_ok l bs gap tail (head b)) with s' l1' g' o' as (b'&rest'&->&?);
      try done; try zlen; [|by eexists].
    intros Hnil. pose proof (length_smerge l bs). destruct bs as [|v bs]; [done|].
    assert (keyOfValue v ∈ keys (smerge l (v :: bs))) as Hin.
    { apply keys_smerge. right. apply elem_of_keys_cons. by left. }
    rewrite Hnil in Hin. by apply elem_of_nil in Hin. }
  apply wp_returns in Hwp as (b'&->&rest'&?). by exists b', rest'.
Qed.
End equivalence.
