(* ===== verification/Types.v ===== *)
(** * Helper types of the packed memory arrays (dataStructures/helpers.hpp)

    Index intervals, the nodes and tasks of the rebalancing phase, and the per-thread
    task record.  [IndexType] and [SizeType] are 64-bit signed; indices and counts stay
    far below 2^62 and are modelled as integers, with C++'s truncating division. *)

From S2P Require Export Prelude.

(** [std::bit_width(value) - 1]. *)
Definition bit_width (value : Z) : Z := if value =? 0 then 0 else Z.log2 value + 1.
Definition integerLog2 (value : Z) : Z := bit_width value - 1.

(** [UnsignedIndexType] subtraction. *)
Definition u64 (z : Z) : Z := z mod 2 ^ 64.

(** [for (i = a; i > b; --i) body]. *)
Definition for_down {St : Type} (a b : Z) (body : Z → St → result St) (s : St) : result St :=
  for_range 0 (a - b) (λ j, body (a - j)) s.

(** Doubling [c] until it exceeds [n]. *)
Lemma doubling_ok (c n : Z) :
  0 < c → ∃ d : nat, while (S (Z.to_nat (n + 1))) (λ c, Ok (c <=? n)) (λ c, Ok (c * 2)) c = Ok (c * 2 ^ Z.of_nat d) ∧
    n < c * 2 ^ Z.of_nat d ∧ (d = 0%nat ∨ c * 2 ^ Z.of_nat d ≤ 2 * n).
Proof.
  intros Hc. match goal with |- ∃ d, ?l = _ ∧ _ =>
    cut (wp l (λ x, ∃ d : nat, x = c * 2 ^ Z.of_nat d ∧ n < x ∧ (d = 0%nat ∨ x ≤ 2 * n))) end.
  { intros (x&->&d&->&?&?)%wp_returns. by exists d. }
  apply (wp_while (λ x, ∃ d : nat, x = c * 2 ^ Z.of_nat d ∧ (d = 0%nat ∨ x ≤ 2 * n)) (λ x, Z.max 0 (n + 1 - x))).
  - intros x (d&->&Hd). split; [lia|]. cbn [wp].
    assert (0 < c * 2 ^ Z.of_nat d) by (apply Z.mul_pos_pos; [done|by apply Z.pow_pos_nonneg; lia]).
    destruct (Z.leb_spec (c * 2 ^ Z.of_nat d) n); cbn [wp]; [|by exists d].
    split; [|lia]. exists (S d). rewrite Nat2Z.inj_succ, Z.pow_succ_r by lia. split; [lia|]. right. lia.
  - exists 0%nat. split; [|by left]. rewrite Z.mul_1_r. done.
  - lia.
Qed.

Module Interval.

(** [left] is inclusive, [right] exclusive. *)
Record Interval := mkInterval { left : Z; right : Z }.

(** [Interval()]. *)
Definition empty : Interval := mkInterval 0 0.

Definition length (i : Interval) : Z := right i - left i.

Definition eqb (i other : Interval) : bool :=
  (left i =? left other) && (right i =? right other).

Definition contains (i : Interval) (index : Z) : bool :=
  (left i <=? index) && (index <? right i).

Definition cut (i other : Interval) : Interval :=
  let l := if left other <? left i then left i else left other in
  let r := if right i <? right other then right i else right other in
  if r - l <=? 0 then mkInterval 0 0 else mkInterval l r.

Definition overlaps (i other : Interval) : bool := negb (eqb (cut i other) empty).

End Interval.
Abbreviation Interval := Interval.Interval.
Abbreviation mkInterval := Interval.mkInterval.

Inductive TaskType := INSERTION | INVERSE_MERGE | DO_NOTHING | REBALANCE.

#[export] Instance TaskType_eq_dec : EqDecision TaskType.
Proof. solve_decision. Defined.

Definition is_type (t u : TaskType) : bool := bool_decide (t = u).

Record RecountingNode := mkRecountingNode {
  rc_index : Z;
  rc_needsRebalancing : bool;
}.

(** [RecountingNode()]. *)
Definition defaultRecountingNode : RecountingNode := mkRecountingNode (-1) false.

Definition RecountingNode_ltb (lhs rhs : RecountingNode) : bool :=
  (rc_index lhs <? rc_index rhs) ||
  ((rc_index lhs =? rc_index rhs) && rc_needsRebalancing lhs).

Definition RecountingNode_eqb (lhs rhs : RecountingNode) : bool :=
  rc_index lhs =? rc_index rhs.

Record RebalancingNode := mkRebalancingNode { level : Z; index : Z }.

Definition RebalancingNode_eqb (lhs rhs : RebalancingNode) : bool :=
  (level lhs =? level rhs) && (index lhs =? index rhs).

#[export] Instance RebalancingNode_eq_dec : EqDecision RebalancingNode.
Proof. solve_decision. Defined.

Record RebalancingTask := mkRebalancingTask {
  pmaRange : Interval;
  rt_numberOfBlocks : Z;
  rootNode : RebalancingNode;
}.

(** [bufferIndex = -1] points to the block of the pma itself. *)
Record ExtendedPmaIndex := mkExtendedPmaIndex { pmaIndex : Z; bufferIndex : Z }.

Definition defaultExtendedPmaIndex : ExtendedPmaIndex := mkExtendedPmaIndex 0 (-1).

Definition ExtendedPmaIndex_ltb (l r : ExtendedPmaIndex) : bool :=
  (pmaIndex l <? pmaIndex r) ||
  ((pmaIndex l =? pmaIndex r) && (bufferIndex l <? bufferIndex r)).

Record PartialRebalancingTask := mkPartialRebalancingTask {
  blockStart : ExtendedPmaIndex;
  blockEnd : ExtendedPmaIndex;
  outputOffset : Z;
}.

Definition defaultPartialRebalancingTask : PartialRebalancingTask :=
  mkPartialRebalancingTask defaultExtendedPmaIndex defaultExtendedPmaIndex 0.

(** What one thread has to do in one batch insertion. *)
Record TaskInfo := mkTaskInfo {
  blockForBatchSplitter : Z;
  firstBatchElement : Z;
  requiredWidth : Z;
  startIndex : Z;
  type : TaskType;
  mergedTasks : Z;
  mergedTaskIndex : Z;
  numberOfBlocksWritten : Z;
  numberOfRebalancingTasks : Z;
  nodesToRecount : Z;
  rebalancingBlockRange : Interval;
  rebalancingTaskRange : Interval;
  firstRebalancingTask : PartialRebalancingTask;
  lastRebalancingTask : PartialRebalancingTask;
}.

(** [TaskInfo] has no initialisers and the constructors of the arrays do not write to
    [tasks]: what an element holds before its first use is up to the memory. *)
Class TaskMemory := { uninitializedTask : nat → TaskInfo }.

Definition uninitializedTasks `{TaskMemory} (n : Z) : list TaskInfo :=
  uninitializedTask <$> seq 0 (Z.to_nat n).

Lemma uninitializedTasks_length `{TaskMemory} (n : Z) : 0 ≤ n → zlen (uninitializedTasks n) = n.
Proof. intros Hn. unfold uninitializedTasks, zlen. rewrite length_fmap, length_seq. lia. Qed.

Lemma uninitializedTasks_two `{TaskMemory} (n : Z) :
  1 ≤ n → ∃ ts, uninitializedTasks (n + 1) = uninitializedTask 0 :: uninitializedTask 1 :: ts.
Proof.
  intros Hn. exists (uninitializedTask <$> seq 2 (Z.to_nat (n - 1))). unfold uninitializedTasks.
  by replace (Z.to_nat (n + 1)) with (2 + Z.to_nat (n - 1))%nat by lia.
Qed.

Lemma uninitializedTasks_in `{TaskMemory} (n : Z) t : t ∈ uninitializedTasks n → ∃ i, t = uninitializedTask i.
Proof. intros (i&->&_)%list_elem_of_fmap. by exists i. Qed.

Definition set_blockForBatchSplitter (t : TaskInfo) (x : Z) : TaskInfo :=
  mkTaskInfo x (firstBatchElement t) (requiredWidth t) (startIndex t) (type t) (mergedTasks t)
    (mergedTaskIndex t) (numberOfBlocksWritten t) (numberOfRebalancingTasks t) (nodesToRecount
    t) (rebalancingBlockRange t) (rebalancingTaskRange t) (firstRebalancingTask t)
    (lastRebalancingTask t).
Definition set_firstBatchElement (t : TaskInfo) (x : Z) : TaskInfo :=
  mkTaskInfo (blockForBatchSplitter t) x (requiredWidth t) (startIndex t) (type t) (mergedTasks
    t) (mergedTaskIndex t) (numberOfBlocksWritten t) (numberOfRebalancingTasks t)
    (nodesToRecount t) (rebalancingBlockRange t) (rebalancingTaskRange t) (firstRebalancingTask
    t) (lastRebalancingTask t).
Definition set_requiredWidth (t : TaskInfo) (x : Z) : TaskInfo :=
  mkTaskInfo (blockForBatchSplitter t) (firstBatchElement t) x (startIndex t) (type t)
    (mergedTasks t) (mergedTaskIndex t) (numberOfBlocksWritten t) (numberOfRebalancingTasks t)
    (nodesToRecount t) (rebalancingBlockRange t) (rebalancingTaskRange t) (firstRebalancingTask
    t) (lastRebalancingTask t).
Definition set_startIndex (t : TaskInfo) (x : Z) : TaskInfo :=
  mkTaskInfo (blockForBatchSplitter t) (firstBatchElement t) (requiredWidth t) x (type t)
    (mergedTasks t) (mergedTaskIndex t) (numberOfBlocksWritten t) (numberOfRebalancingTasks t)
    (nodesToRecount t) (rebalancingBlockRange t) (rebalancingTaskRange t) (firstRebalancingTask
    t) (lastRebalancingTask t).
Definition set_type (t : TaskInfo) (x : TaskType) : TaskInfo :=
  mkTaskInfo (blockForBatchSplitter t) (firstBatchElement t) (requiredWidth t) (startIndex t) x
    (mergedTasks t) (mergedTaskIndex t) (numberOfBlocksWritten t) (numberOfRebalancingTasks t)
    (nodesToRecount t) (rebalancingBlockRange t) (rebalancingTaskRange t) (firstRebalancingTask
    t) (lastRebalancingTask t).
Definition set_mergedTasks (t : TaskInfo) (x : Z) : TaskInfo :=
  mkTaskInfo (blockForBatchSplitter t) (firstBatchElement t) (requiredWidth t) (startIndex t)
    (type t) x (mergedTaskIndex t) (numberOfBlocksWritten t) (numberOfRebalancingTasks t)
    (nodesToRecount t) (rebalancingBlockRange t) (rebalancingTaskRange t) (firstRebalancingTask
    t) (lastRebalancingTask t).
Definition set_mergedTaskIndex (t : TaskInfo) (x : Z) : TaskInfo :=
  mkTaskInfo (blockForBatchSplitter t) (firstBatchElement t) (requiredWidth t) (startIndex t)
    (type t) (mergedTasks t) x (numberOfBlocksWritten t) (numberOfRebalancingTasks t)
    (nodesToRecount t) (rebalancingBlockRange t) (rebalancingTaskRange t) (firstRebalancingTask
    t) (lastRebalancingTask t).
Definition set_numberOfBlocksWritten (t : TaskInfo) (x : Z) : TaskInfo :=
  mkTaskInfo (blockForBatchSplitter t) (firstBatchElement t) (requiredWidth t) (startIndex t)
    (type t) (mergedTasks t) (mergedTaskIndex t) x (numberOfRebalancingTasks t) (nodesToRecount
    t) (rebalancingBlockRange t) (rebalancingTaskRange t) (firstRebalancingTask t)
    (lastRebalancingTask t).
Definition set_numberOfRebalancingTasks (t : TaskInfo) (x : Z) : TaskInfo :=
  mkTaskInfo (blockForBatchSplitter t) (firstBatchElement t) (requiredWidth t) (startIndex t)
    (type t) (mergedTasks t) (mergedTaskIndex t) (numberOfBlocksWritten t) x (nodesToRecount t)
    (rebalancingBlockRange t) (rebalancingTaskRange t) (firstRebalancingTask t)
    (lastRebalancingTask t).
Definition set_nodesToRecount (t : TaskInfo) (x : Z) : TaskInfo :=
  mkTaskInfo (blockForBatchSplitter t) (firstBatchElement t) (requiredWidth t) (startIndex t)
    (type t) (mergedTasks t) (mergedTaskIndex t) (numberOfBlocksWritten t)
    (numberOfRebalancingTasks t) x (rebalancingBlockRange t) (rebalancingTaskRange t)
    (firstRebalancingTask t) (lastRebalancingTask t).
Definition set_rebalancingBlockRange (t : TaskInfo) (x : Interval) : TaskInfo :=
  mkTaskInfo (blockForBatchSplitter t) (firstBatchElement t) (requiredWidth t) (startIndex t)
    (type t) (mergedTasks t) (mergedTaskIndex t) (numberOfBlocksWritten t)
    (numberOfRebalancingTasks t) (nodesToRecount t) x (rebalancingTaskRange t)
    (firstRebalancingTask t) (lastRebalancingTask t).
Definition set_rebalancingTaskRange (t : TaskInfo) (x : Interval) : TaskInfo :=
  mkTaskInfo (blockForBatchSplitter t) (firstBatchElement t) (requiredWidth t) (startIndex t)
    (type t) (mergedTasks t) (mergedTaskIndex t) (numberOfBlocksWritten t)
    (numberOfRebalancingTasks t) (nodesToRecount t) (rebalancingBlockRange t) x
    (firstRebalancingTask t) (lastRebalancingTask t).
Definition set_firstRebalancingTask (t : TaskInfo) (x : PartialRebalancingTask) : TaskInfo :=
  mkTaskInfo (blockForBatchSplitter t) (firstBatchElement t) (requiredWidth t) (startIndex t)
    (type t) (mergedTasks t) (mergedTaskIndex t) (numberOfBlocksWritten t)
    (numberOfRebalancingTasks t) (nodesToRecount t) (rebalancingBlockRange t)
    (rebalancingTaskRange t) x (lastRebalancingTask t).
Definition set_lastRebalancingTask (t : TaskInfo) (x : PartialRebalancingTask) : TaskInfo :=
  mkTaskInfo (blockForBatchSplitter t) (firstBatchElement t) (requiredWidth t) (startIndex t)
    (type t) (mergedTasks t) (mergedTaskIndex t) (numberOfBlocksWritten t)
    (numberOfRebalancingTasks t) (nodesToRecount t) (rebalancingBlockRange t)
    (rebalancingTaskRange t) (firstRebalancingTask t) x.

