(* ===== verification/Instances.v ===== *)
(** * A concrete instantiation

    Key-value pairs with assertions enabled and blocks of two to four elements:
    the parameters at which the theorems of the development are exercised. *)

From S2P Require Export Types BlockMerge.

#[export] Instance pairTypes : SdsTypes := {|
  ValueType := Z * Z;
  keyOfValue := fst;
  NULL_KEY := 0;
  zeroValue := (0, 0);
  indeterminate := (77, 77);
  NDEBUG := false;
  IsTrivialType := false;
  trivial_release := λ H, match Bool.diff_false_true H with end;
|}.

#[export] Instance smallBlocks : BlockConfig := {| MinSize := 2; MaxSize := 4 |}.

#[export] Instance smallBlocksOk : BlockConfigOk.
Proof. by split. Qed.

#[export] Instance smallBlocksHalf : HalfBlocks.
Proof. split; vm_compute; congruence. Qed.

(** Memory that happens to hold zeros, as a fresh page does. *)
#[export] Instance zeroMemory : TaskMemory := {|
  uninitializedTask := λ _, mkTaskInfo 0 0 0 0 INSERTION 0 0 0 0 0 Interval.empty Interval.empty
    (mkPartialRebalancingTask (mkExtendedPmaIndex 0 0) (mkExtendedPmaIndex 0 0) 0)
    (mkPartialRebalancingTask (mkExtendedPmaIndex 0 0) (mkExtendedPmaIndex 0 0) 0);
|}.

(** A block that holds [l], its other cells value-initialised. *)
Definition blockOf (l : list (Z * Z)) : PmaEntry.PmaEntry :=
  PmaEntry.mkPmaEntry (Some (l ++ replicate (4 - length l) (0, 0)))
    (match l with [] => 0 | v :: _ => fst v end) (zlen l).

(** Concrete instances of the predicates on sequences. *)
Ltac concrete :=
  repeat match goal with
  | |- _ ∧ _ => split
  | |- represents _ _ _ => split; [split_and!; reflexivity|reflexivity]
  | |- holds _ _ _ => split_and!; reflexivity
  | |- sorted _ => repeat constructor; simpl; lia
  | |- nondecreasing _ => repeat constructor; simpl; lia
  | |- below _ _ => repeat constructor; simpl; lia
  | |- above _ _ => repeat constructor; simpl; lia
  | |- _ ≠ _ => done
  | |- _ => reflexivity
  | |- _ => vm_compute; intuition congruence
  | |- _ => vm_compute; set_solver
  end.

(** The keys of a concrete sequence are positive. *)
Ltac positive_keys :=
  intros k Hk; vm_compute in Hk; repeat (apply elem_of_cons in Hk as [->|Hk]; [lia|]); by apply elem_of_nil in Hk.

(** A check of every level of every hierarchy of up to 60 levels. *)
Lemma every_level (check : Z → Z → bool) :
  forallb (λ Lc, forallb (λ l, check l Lc) (seqZ 0 (Lc + 1))) (seqZ 0 61) = true →
  ∀ l Lc, 0 ≤ l ≤ Lc → Lc ≤ 60 → check l Lc = true.
Proof.
  intros Hall l Lc Hl HLc. assert (∀ a b : Z, 0 ≤ a < b → In a (seqZ 0 b)) as Hin.
  { intros a b Ha. apply list_elem_of_In, elem_of_seqZ. lia. }
  rewrite forallb_forall in Hall. specialize (Hall Lc (Hin Lc 61 ltac:(lia))). cbv beta in Hall.
  rewrite forallb_forall in Hall. apply Hall, Hin. lia.
Qed.
