(* ===== verification/BlockProps.v ===== *)
(** * Properties of the block operations

    Each theorem states what one member function of [PmaEntry] does to the sequence
    the block holds, that it returns, and that no assertion of the code fails. *)

From S2P Require Import Instances.
Import PmaEntry.

Section properties.
  Context `{T : SdsTypes} `{C : BlockConfig} `{!BlockConfigOk}.

(** C24: merging a batch from the back ([mergeFaster]) and inserting its elements one after the
    other ([merge]) leave the same sequence, the merge of block and batch in which an element of
    the block wins over a batch element with the same key; neither fails an assertion or leaves
    the block array. The block and the batch have strictly increasing keys, the batch is not
    empty, both together fit into the block, which has at most 32768 elements; a stale cell
    behind the block carries a key of the batch only if the block has it as well (otherwise
    [merge] drops the key, [mergeFaster] does not); neither has the key [NULL_KEY], nor, in
    debug builds, the key 0. *)
Theorem mergeFaster_equiv_merge b (l rest pre bs post : list ValueType) :
  represents b l rest → sorted l → sorted bs → bs ≠ [] →
  zlen l + zlen bs ≤ MaxSize → MaxSize ≤ 32768 → fresh l rest (keys bs) →
  (NULL_KEY ∉ keys l) ∧ (NULL_KEY ∉ keys bs) →
  NDEBUG = true ∨ ((0 ∉ keys l) ∧ (0 ∉ keys bs)) →
  ∃ b1 b2 r1 r2,
    merge b (pre ++ bs ++ post) (zlen pre) (zlen bs) = Ok b1 ∧
    MergeFaster.mergeFaster b (pre ++ bs ++ post) (zlen pre) (zlen bs) = Ok b2 ∧
    represents b1 (smerge l bs) r1 ∧ represents b2 (smerge l bs) r2 ∧
    sorted (smerge l bs) ∧
    (∀ w, w ∈ smerge l bs ↔ w ∈ l ∨ (w ∈ bs ∧ (keyOfValue w ∉ keys l))).
Proof.
  intros Hb Hs Hbs Hne Hfit Hsigned Hfresh Hnull Hzero.
  destruct (merge_ok b l rest pre bs post) as (b1&u&r1&H1&H1'&_&_);
    [done|done|by apply sorted_nondecreasing|done..|].
  destruct (mergeFaster_ok b l rest pre bs post) as (b2&r2&H2&H2'&_); [done..|].
  exists b1, b2, r1, r2. split_and!; [done|done|done|done|by apply sorted_smerge|].
  intros w. apply elem_of_smerge; [done|]. by apply sorted_NoDup_keys.
Qed.

(** C33: [merge] of a batch that may contain repeated keys returns the block with
    the batch inserted, the first of several batch elements with the same key being
    kept, when a stale cell behind the block carries a key of the batch only if the block
    has it as well. *)
Theorem merge_correct b (l rest pre bs post : list ValueType) :
  represents b l rest → sorted l → nondecreasing bs → bs ≠ [] →
  zlen l + zlen bs ≤ MaxSize → fresh l rest (keys bs) →
  ∃ b' rest', merge b (pre ++ bs ++ post) (zlen pre) (zlen bs) = Ok b' ∧
    represents b' (smerge l bs) rest' ∧ (∀ v, v ∈ rest' → v ∈ rest).
Proof.
  intros. destruct (merge_ok b l rest pre bs post) as (b'&u&rest'&?&?&->&?); [done..|].
  exists b', rest'. split_and!; [done|done|]. intros v ?. apply elem_of_app. by right.
Qed.

(** [insertWithIndex] returns whether the key was new and the index at which it
    now is; the block holds the sorted insertion, unchanged when the key was there. *)
Lemma insertWithIndex_correct b (p q : list ValueType) r rest e :
  represents b (p ++ q) (r :: rest) → sorted (p ++ q) → below p (keyOfValue e) →
  (keyOfValue r = keyOfValue e → keyOfValue e ∈ keys (p ++ q)) →
  ∃ b' pos rest',
    insertWithIndex b e (zlen p) =
      Ok (b', (bool_decide (keyOfValue e ∉ keys (p ++ q)), pos)) ∧
    represents b' (sinsert e (p ++ q)) rest' ∧ sorted (sinsert e (p ++ q)) ∧
    (∃ v, at_ (sinsert e (p ++ q)) pos = Some v ∧ keyOfValue v = keyOfValue e).
Proof.
  intros Hb Hs Hp Hr.
  destruct (insertWithIndex_ok b p q r rest e) as (b'&ins&pos&rest'&Hi&Hb'&Hcase&Hpos); [done..|].
  exists b', pos, rest'. split_and!; [|done|by apply sorted_sinsert|done].
  rewrite Hi. destruct Hcase as [(->&?&_)|(->&?&_)].
  - by rewrite bool_decide_eq_true_2.
  - rewrite bool_decide_eq_false_2; [done|]. tauto.
Qed.

(** [contains] decides whether the block holds the key. *)
Lemma contains_correct b (l rest : list ValueType) (k : Z) :
  holds b l rest → sorted l → contains b k = Ok (bool_decide (k ∈ keys l)).
Proof. apply contains_ok. Qed.

(** [remove] takes the element with the key out of the sequence and says whether
    there was one. *)
Lemma remove_correct b (l rest : list ValueType) e :
  represents b l rest → sorted l → MaxSize < 65535 →
  ∃ b' rest', remove b e = Ok (b', bool_decide (keyOfValue e ∈ keys l)) ∧
    represents b' (filter (λ v, keyOfValue v ≠ keyOfValue e) l) rest'.
Proof. apply remove_keeps. Qed.

(** C34: [split] of a full block leaves its first half and returns a new block with
    the second half; nothing is lost. *)
Theorem split_correct b (l : list ValueType) :
  represents b l [] → MaxSize mod 2 = 0 →
  ∃ b' r l1 l2 rest rest', split b = Ok (b', r) ∧ l = l1 ++ l2 ∧
    zlen l1 = MaxSize / 2 ∧ zlen l2 = MaxSize / 2 ∧
    represents b' l1 rest ∧ represents r l2 rest'.
Proof. apply split_keeps. Qed.

(** C35: [mergeSmaller], [steal] and [stealFromSmaller] move elements between two
    neighbouring blocks without losing or reordering any: the concatenation of the
    two sequences stays the same, and after stealing both blocks have at least
    [MinSize] elements. *)
Theorem rebalancing_neighbours_preserves b o (l lo rest resto : list ValueType) :
  represents b l rest → represents o lo resto → 0 < MinSize ≤ MaxSize → l ≠ [] →
  (zlen l + zlen lo ≤ MaxSize →
     ∃ b' rest', mergeSmaller b o = Ok b' ∧ represents b' (lo ++ l) rest') ∧
  (zlen l ≤ MinSize → 2 * MinSize ≤ zlen l + zlen lo →
     (∃ b' o' l' lo' rest' resto', steal b o = Ok (b', o') ∧ l' ++ lo' = l ++ lo ∧
        represents b' l' rest' ∧ represents o' lo' resto' ∧
        zlen l' = MinSize ∧ MinSize ≤ zlen lo') ∧
     (∃ b' o' l' lo' rest' resto', stealFromSmaller b o = Ok (b', o') ∧
        lo' ++ l' = lo ++ l ∧
        represents b' l' rest' ∧ represents o' lo' resto' ∧
        zlen l' = MinSize ∧ MinSize ≤ zlen lo')).
Proof.
  intros Hb Ho Hmin Hl. split; [by eapply mergeSmaller_keeps|]. intros Hsmall Hboth.
  split; [by eapply steal_keeps|by eapply stealFromSmaller_keeps].
Qed.

End properties.

(** ** Witnesses at concrete blocks *)

Lemma mergeFaster_equiv_merge_witness :
  ∃ b1 b2 r1 r2,
    merge (blockOf [(3, 30); (5, 50)]) [(1, 1); (4, 40); (5, 51); (9, 9)] 1 2 = Ok b1 ∧
    MergeFaster.mergeFaster (blockOf [(3, 30); (5, 50)]) [(1, 1); (4, 40); (5, 51); (9, 9)] 1 2
      = Ok b2 ∧
    represents b1 [(3, 30); (4, 40); (5, 50)] r1 ∧
    represents b2 [(3, 30); (4, 40); (5, 50)] r2.
Proof.
  destruct (mergeFaster_equiv_merge (blockOf [(3, 30); (5, 50)]) [(3, 30); (5, 50)]
    [(0, 0); (0, 0)] [(1, 1)] [(4, 40); (5, 51)] [(9, 9)]) as (b1&b2&r1&r2&?&?&?&?&?&?).
  1-9: concrete. exists b1, b2, r1, r2. by split_and!.
Defined.

(** The batch repeats a key: the first element with it is kept. *)
Lemma merge_correct_witness :
  ∃ b' rest', merge (blockOf [(3, 30)]) [(4, 40); (4, 41); (5, 50)] 0 3 = Ok b' ∧
    represents b' [(3, 30); (4, 40); (5, 50)] rest'.
Proof.
  destruct (merge_correct (blockOf [(3, 30)]) [(3, 30)] [(0, 0); (0, 0); (0, 0)] []
    [(4, 40); (4, 41); (5, 50)] []) as (b'&rest'&?&?&_).
  1-6: concrete. exists b', rest'. by split.
Defined.

Lemma insertWithIndex_correct_witness :
  ∃ b' pos rest', insertWithIndex (blockOf [(3, 30); (7, 70)]) (5, 50) 1 = Ok (b', (true, pos)) ∧
    represents b' [(3, 30); (5, 50); (7, 70)] rest'.
Proof.
  destruct (insertWithIndex_correct (blockOf [(3, 30); (7, 70)]) [(3, 30)] [(7, 70)]
    (0, 0) [(0, 0)] (5, 50)) as (b'&pos&rest'&?&?&?&?).
  1-4: concrete. exists b', pos, rest'. by split.
Defined.

Lemma contains_correct_witness :
  contains (blockOf [(3, 30); (7, 70)]) 7 = Ok true ∧
  contains (blockOf [(3, 30); (7, 70)]) 4 = Ok false.
Proof.
  split; rewrite (contains_correct (T := pairTypes) _ [(3, 30); (7, 70)] [(0, 0); (0, 0)]); try concrete.
Defined.

Lemma remove_correct_witness :
  ∃ b' rest', remove (blockOf [(3, 30); (5, 50); (7, 70)]) (5, 0) = Ok (b', true) ∧
    represents b' [(3, 30); (7, 70)] rest'.
Proof.
  destruct (remove_correct (blockOf [(3, 30); (5, 50); (7, 70)]) [(3, 30); (5, 50); (7, 70)]
    [(0, 0)] (5, 0)) as (b'&rest'&?&?).
  1-3: concrete. exists b', rest'. by split.
Defined.

Lemma split_correct_witness :
  ∃ b' r, split (blockOf [(1, 1); (3, 3); (5, 5); (7, 7)]) = Ok (b', r).
Proof.
  destruct (split_correct (blockOf [(1, 1); (3, 3); (5, 5); (7, 7)])
    [(1, 1); (3, 3); (5, 5); (7, 7)]) as (b'&r&?&?&?&?&?&_).
  1-2: concrete. by exists b', r.
Defined.

Lemma rebalancing_neighbours_preserves_witness :
  (∃ b' rest', mergeSmaller (blockOf [(8, 8)]) (blockOf [(1, 1); (3, 3); (5, 5)]) = Ok b' ∧
     represents b' [(1, 1); (3, 3); (5, 5); (8, 8)] rest') ∧
  ∃ b' o', stealFromSmaller (blockOf [(8, 8)]) (blockOf [(1, 1); (3, 3); (5, 5)]) = Ok (b', o').
Proof.
  destruct (rebalancing_neighbours_preserves (blockOf [(8, 8)]) (blockOf [(1, 1); (3, 3); (5, 5)])
    [(8, 8)] [(1, 1); (3, 3); (5, 5)] [(0, 0); (0, 0); (0, 0)] [(0, 0)]) as [Hm Hsteal].
  1-4: concrete. split.
  - destruct Hm as (b'&rest'&?&?); [vm_compute; congruence|]. by exists b', rest'.
  - destruct Hsteal as [_ (b'&o'&?&?&?&?&?&_)]; [vm_compute; congruence..|].
    by exists b', o'.
Defined.
