(* ===== verification/BucketMapFacts.v ===== *)
(** * The bucket map as a finite map

    The well-formedness of the hash map, its contents as one finite map, and the
    refinement of the operations to operations on the contents. *)

From S2P Require Export BucketMap.
Import ConcurrentBucketMap.

Section facts.
Context `{H : Hash}.
Implicit Types (m : ConcurrentBucketMap) (k : Z) (v : bool).

(** Every entry is in the bucket of its key. *)
Definition wf m : Prop :=
  0 < zlen (buckets m) ∧
  ∀ i b k, at_ (buckets m) i = Some b → is_Some (b !! k) → getBucket m k = i.

Definition contents m : gmap Z bool := ⋃ buckets m.

(** What one [insert] means for the contents. *)
Definition spec_insert (c : gmap Z bool) k v : gmap Z bool :=
  <[k := v || default false (c !! k)]> c.

Definition insert_all m (l : list (Z * bool)) : result ConcurrentBucketMap :=
  foldl (λ acc e, m ← acc; insert m e.1 e.2) (Ok m) l.

Definition spec_insert_all (c : gmap Z bool) (l : list (Z * bool)) : gmap Z bool :=
  foldl (λ c e, spec_insert c e.1 e.2) c l.

Lemma insertEntry_spec (c : gmap Z bool) k v : insertEntry c k v = spec_insert c k v.
Proof.
  unfold insertEntry, spec_insert. destruct (c !! k) as [[|]|] eqn:Hk; simpl.
  - rewrite orb_true_r, andb_false_r. by rewrite insert_id.
  - rewrite orb_false_r, andb_true_r. destruct v; [done|]. by rewrite insert_id.
  - by rewrite orb_false_r.
Qed.

Lemma spec_insert_lookup (c : gmap Z bool) k v k' :
  spec_insert c k v !! k' = if decide (k = k') then Some (v || default false (c !! k)) else c !! k'.
Proof.
  unfold spec_insert. destruct (decide (k = k')) as [<-|].
  - apply lookup_insert_eq.
  - by apply lookup_insert_ne.
Qed.

Lemma spec_insert_comm c k1 v1 k2 v2 :
  spec_insert (spec_insert c k1 v1) k2 v2 = spec_insert (spec_insert c k2 v2) k1 v1.
Proof.
  apply map_eq. intros k. rewrite !spec_insert_lookup.
  repeat destruct (decide _); subst; simpl; try done.
  by rewrite !orb_assoc, (orb_comm v1 v2).
Qed.

#[export] Instance spec_insert_all_proper c :
  Proper ((≡ₚ) ==> eq) (spec_insert_all c).
Proof.
  intros l1 l2 Hp. unfold spec_insert_all. revert c.
  induction Hp as [|e l1 l2 _ IH|e1 e2 l|l1 l2 l3 _ IH1 _ IH2]; intros c; simpl.
  - done.
  - apply IH.
  - by rewrite spec_insert_comm.
  - by rewrite IH1, IH2.
Qed.

Lemma spec_insert_all_lookup (c : gmap Z bool) (l : list (Z * bool)) k :
  (is_Some (spec_insert_all c l !! k) ↔ is_Some (c !! k) ∨ k ∈ l.*1) ∧
  (spec_insert_all c l !! k = Some true ↔ c !! k = Some true ∨ (k, true) ∈ l).
Proof.
  revert c. induction l as [|[k' v] l IH]; intros c; [set_solver|].
  change (spec_insert_all c ((k', v) :: l)) with (spec_insert_all (spec_insert c k' v) l).
  destruct (IH (spec_insert c k' v)) as [-> ->]. rewrite spec_insert_lookup, fmap_cons, !elem_of_cons. simpl.
  destruct (decide (k' = k)) as [->|Hne]; [|naive_solver].
  split; [naive_solver|]. destruct (c !! k) as [[|]|]; destruct v; simpl; naive_solver.
Qed.

Lemma getBucket_bound m k : 0 < zlen (buckets m) → 0 ≤ getBucket m k < zlen (buckets m).
Proof. intros. unfold getBucket. by apply Z.mod_pos_bound. Qed.

Lemma lookup_union_list (bs : list (gmap Z bool)) k (i : nat) b :
  bs !! i = Some b →
  (∀ j b', bs !! j = Some b' → is_Some (b' !! k) → j = i) →
  (⋃ bs) !! k = b !! k.
Proof.
  revert i. induction bs as [|b0 bs IH]; intros i Hi Huniq; [done|]. simpl.
  destruct i as [|i]; simpl in Hi.
  - simplify_eq. apply lookup_union_l. destruct ((⋃ bs) !! k) as [v|] eqn:Hv; [|done].
    exfalso. assert (∃ j b', bs !! j = Some b' ∧ is_Some (b' !! k)) as (j&b'&Hj&Hb').
    { clear -Hv. induction bs as [|b0 bs IH]; simpl in Hv; [by rewrite lookup_empty in Hv|].
      apply lookup_union_Some_raw in Hv as [Hv|[_ Hv]].
      - exists 0%nat, b0. eauto.
      - destruct (IH Hv) as (j&b'&?&?). by exists (S j), b'. }
    specialize (Huniq (S j) b' Hj Hb'). done.
  - rewrite lookup_union_r.
    + apply (IH i); [done|]. intros j b' Hj Hb'. specialize (Huniq (S j) b' Hj Hb'). lia.
    + destruct (b0 !! k) eqn:Hb0; [|done]. exfalso.
      specialize (Huniq 0%nat b0 eq_refl). rewrite Hb0 in Huniq. by specialize (Huniq (ex_intro _ _ eq_refl)).
Qed.

Lemma lookup_contents m k b :
  wf m → at_ (buckets m) (getBucket m k) = Some b → contents m !! k = b !! k.
Proof.
  intros [Hpos Hwf] Hb. pose proof (getBucket_bound m k Hpos). unfold contents.
  apply (lookup_union_list _ k (Z.to_nat (getBucket m k))).
  - unfold at_ in Hb. destruct (Z.leb_spec 0 (getBucket m k)); [done|lia].
  - intros j b' Hj Hb'. specialize (Hwf (Z.of_nat j) b' k). rewrite at_nat in Hwf.
    specialize (Hwf Hj Hb'). lia.
Qed.

Lemma wf_create (numThreads : Z) : 0 < numThreads → wf (create numThreads).
Proof.
  intros. unfold wf, create, NumberOfBucketsFactor. simpl. split; [zlen|].
  intros i b k Hb [v Hv]. exfalso. unfold at_ in Hb. destruct (0 <=? i); [|done].
  apply lookup_replicate_1 in Hb as [-> _]. by rewrite lookup_empty in Hv.
Qed.

Lemma insert_refines m k v :
  wf m → ∃ m', insert m k v = Ok m' ∧ wf m' ∧ contents m' = spec_insert (contents m) k v.
Proof.
  intros Hm. pose proof Hm as [Hpos Hwf]. pose proof (getBucket_bound m k Hpos) as Hb.
  unfold insert. destruct (at_in_bound _ _ Hb) as [b Hat].
  rewrite (zget_at _ _ _ Hat). cbn [mbind result_bind]. rewrite zset_in by done.
  cbn [mbind result_bind]. rewrite insertEntry_spec. eexists. split; [done|].
  set (m' := mkConcurrentBucketMap _ _).
  assert (∀ k', getBucket m' k' = getBucket m k') as Hget.
  { intros k'. unfold getBucket, m'. simpl. by rewrite zlen_zupd. }
  assert (wf m') as Hm'.
  { split; [simpl; by rewrite zlen_zupd|]. intros i b' k' Hi Hk'. rewrite Hget. simpl in Hi.
    destruct (decide (i = getBucket m k)) as [->|].
    - rewrite at_zupd_eq in Hi by done. simplify_eq.
      destruct Hk' as [v' Hv']. rewrite spec_insert_lookup in Hv'.
      destruct (decide (k = k')) as [->|]; [done|]. eapply Hwf; eauto.
    - rewrite at_zupd_ne in Hi by lia. eauto. }
  split; [done|]. apply map_eq. intros k'. rewrite spec_insert_lookup.
  rewrite (lookup_contents m k b) by done.
  pose proof (getBucket_bound m k' Hpos) as Hb'.
  destruct (decide (getBucket m k' = getBucket m k)) as [Heq|Hne].
  - rewrite (lookup_contents m' k' (spec_insert b k v)), (lookup_contents m k' b);
      [|done|by rewrite Heq|done|].
    + apply spec_insert_lookup.
    + rewrite Hget, Heq. simpl. by apply at_zupd_eq.
  - destruct (at_in_bound _ _ Hb') as [b' Hat'].
    rewrite (lookup_contents m' k' b'), (lookup_contents m k' b'); [|done|done|done|].
    + destruct (decide (k = k')) as [->|]; done.
    + rewrite Hget. simpl. rewrite at_zupd_ne; [done|lia|done].
Qed.

Lemma insert_all_refines m l :
  wf m → ∃ m', insert_all m l = Ok m' ∧ wf m' ∧ contents m' = spec_insert_all (contents m) l.
Proof.
  revert m. induction l as [|[k v] l IH]; intros m Hm.
  - by exists m.
  - destruct (insert_refines m k v Hm) as (m1&Hins&Hm1&Hc).
    destruct (IH m1 Hm1) as (m2&Hall&Hm2&Hc2). exists m2.
    unfold insert_all in *. cbn [foldl mbind result_bind fst snd]. rewrite Hins.
    split_and!; [done|done|]. rewrite Hc2, Hc. done.
Qed.

Lemma contents_empty (n : nat) : ⋃ replicate n (∅ : gmap Z bool) = ∅.
Proof. induction n as [|n IH]; simpl; [done|]. by rewrite IH, (left_id_L ∅ (∪)). Qed.

Lemma clear_spec m : wf m → wf (clear m) ∧ contents (clear m) = ∅.
Proof.
  intros [Hpos _]. unfold clear, wf, contents. simpl.
  assert ((λ _ : gmap Z bool, ∅) <$> buckets m = replicate (length (buckets m)) (∅ : gmap Z bool)) as ->.
  { generalize (buckets m). intros bs. induction bs as [|b bs IH]; [done|].
    rewrite fmap_cons, IH. done. }
  split; [|apply contents_empty]. split; [unfold zlen in *; by rewrite length_replicate|].
  intros i b k Hb [v Hv]. exfalso. unfold at_ in Hb. destruct (0 <=? i); [|done].
  apply lookup_replicate_1 in Hb as [-> _]. by rewrite lookup_empty in Hv.
Qed.

(** *** The entries a traversal visits *)

Lemma elem_of_entries m k v : wf m → (k, v) ∈ entries m ↔ contents m !! k = Some v.
Proof.
  intros Hm. pose proof Hm as [Hpos Hwf]. pose proof (getBucket_bound m k Hpos) as Hb.
  destruct (at_in_bound _ _ Hb) as [b Hat]. rewrite (lookup_contents m k b) by done.
  unfold entries. rewrite list_elem_of_In, in_concat. split.
  - intros (l&Hl&Hin). apply list_elem_of_In, list_elem_of_fmap in Hl as (b'&->&Hb').
    apply list_elem_of_In, elem_of_map_to_list in Hin.
    apply list_elem_of_lookup in Hb' as [i Hi]. rewrite <-at_nat in Hi.
    assert (getBucket m k = Z.of_nat i) as Hg by (eapply Hwf; eauto). rewrite Hg in Hat.
    congruence.
  - intros Hv. exists (map_to_list b). split; apply list_elem_of_In.
    + apply list_elem_of_fmap_2'  with b; [|done].
      unfold at_ in Hat. destruct (0 <=? getBucket m k); [|done]. by eapply list_elem_of_lookup_2.
    + by apply elem_of_map_to_list.
Qed.

Lemma NoDup_entries m : wf m → NoDup (entries m).*1.
Proof.
  intros [_ Hwf]. unfold entries.
  assert (∀ i j b1 b2 k, buckets m !! i = Some b1 → buckets m !! j = Some b2 →
    is_Some (b1 !! k) → is_Some (b2 !! k) → i = j) as Huniq.
  { intros i j b1 b2 k H1 H2 Hk1 Hk2. rewrite <-at_nat in H1, H2.
    pose proof (Hwf _ _ _ H1 Hk1). pose proof (Hwf _ _ _ H2 Hk2). lia. }
  clear Hwf. revert Huniq. induction (buckets m) as [|b bs IH]; intros Huniq; simpl; [constructor|].
  rewrite fmap_app. apply NoDup_app. split_and!.
  - apply NoDup_fst_map_to_list.
  - intros k Hk Hk'. apply list_elem_of_fmap in Hk as ([k1 v]&->&Hk). simpl in *.
    apply elem_of_map_to_list in Hk.
    apply list_elem_of_fmap in Hk' as ([k2 v']&Heq&Hk'). simpl in Heq. subst k2.
    apply list_elem_of_In, in_concat in Hk' as (l&Hl&Hin).
    apply list_elem_of_In, list_elem_of_fmap in Hl as (b'&->&Hb').
    apply list_elem_of_In, elem_of_map_to_list in Hin.
    apply list_elem_of_lookup in Hb' as [i Hi].
    specialize (Huniq 0%nat (S i) b b' k1 eq_refl Hi).
    by specialize (Huniq (ex_intro _ _ Hk) (ex_intro _ _ Hin)).
  - apply IH. intros i j b1 b2 k H1 H2 Hk1 Hk2.
    specialize (Huniq (S i) (S j) b1 b2 k H1 H2 Hk1 Hk2). lia.
Qed.

Lemma entries_permutation m : wf m → entries m ≡ₚ map_to_list (contents m).
Proof.
  intros Hm. apply NoDup_Permutation.
  - eapply NoDup_fmap_1. by apply NoDup_entries.
  - apply NoDup_map_to_list.
  - intros [k v]. rewrite elem_of_entries by done. by rewrite elem_of_map_to_list.
Qed.

Lemma numberOfElements_spec m :
  wf m → numberOfElements m = Z.of_nat (size (contents m)).
Proof.
  intros Hm. rewrite <-(length_map_to_list (contents m)), <-(entries_permutation m) by done.
  unfold numberOfElements, entries.
  assert (∀ bs z, foldl (λ result map, result + Z.of_nat (size map)) z bs =
    z + Z.of_nat (length (concat (map_to_list <$> (bs : list (gmap Z bool)))))) as Hgen.
  { intros bs. induction bs as [|b bs IH]; intros z; simpl; [lia|].
    rewrite IH. unfold fmap. rewrite length_app, length_map_to_list. rewrite Nat2Z.inj_add, Z.add_assoc. done. }
  rewrite Hgen. lia.
Qed.

(** Iteration in any order gives the same result when the visits commute. *)
Lemma foldl_result_perm {St A} (f : St → A → result St) (l1 l2 : list A) (s : St) :
  (∀ s a b, (s ← f s a; f s b) = (s ← f s b; f s a)) →
  l1 ≡ₚ l2 →
  foldl (λ acc e, s ← acc; f s e) (Ok s) l1 = foldl (λ acc e, s ← acc; f s e) (Ok s) l2.
Proof.
  intros Hcomm Hp.
  assert (∀ acc, foldl (λ acc e, s ← acc; f s e) acc l1 =
                 foldl (λ acc e, s ← acc; f s e) acc l2); [|done].
  induction Hp as [|e l1 l2 _ IH|e1 e2 l|l1 l2 l3 _ IH1 _ IH2]; intros acc; simpl.
  - done.
  - apply IH.
  - f_equal. destruct acc as [s0|]; simpl; [apply Hcomm|done].
  - by rewrite IH1.
Qed.
End facts.
