(* ===== verification/Sums.v ===== *)
(** * Sums over index ranges

    [sum_range f a b] adds [f i] for [a <= i < b]; the counting loops of the program are
    specified by it. *)

From S2P Require Export Prelude.

Fixpoint sum_nat (f : Z → Z) (a : Z) (n : nat) : Z :=
  match n with O => 0 | S n => f a + sum_nat f (a + 1) n end.

Definition sum_range (f : Z → Z) (a b : Z) : Z := sum_nat f a (Z.to_nat (b - a)).

Lemma sum_range_nil f a b : b ≤ a → sum_range f a b = 0.
Proof. intros. unfold sum_range. by replace (Z.to_nat (b - a)) with O by lia. Qed.

Lemma sum_range_cons f a b : a < b → sum_range f a b = f a + sum_range f (a + 1) b.
Proof.
  intros. unfold sum_range.
  by replace (Z.to_nat (b - a)) with (S (Z.to_nat (b - (a + 1)))) by lia.
Qed.

Lemma sum_range_split f a b c :
  a ≤ b → b ≤ c → sum_range f a c = sum_range f a b + sum_range f b c.
Proof.
  intros Hab Hbc. remember (Z.to_nat (b - a)) as n eqn:Hn. revert a Hab Hn.
  induction n as [|n IH]; intros a Hab Hn.
  - replace b with a by lia. rewrite (sum_range_nil f a a) by lia. lia.
  - rewrite (sum_range_cons f a c), (sum_range_cons f a b) by lia. rewrite (IH (a + 1)) by lia. lia.
Qed.

Lemma sum_range_one f a : sum_range f a (a + 1) = f a.
Proof. rewrite sum_range_cons, sum_range_nil by lia. lia. Qed.

Lemma sum_range_snoc f a b : a ≤ b → sum_range f a (b + 1) = sum_range f a b + f b.
Proof. intros. rewrite (sum_range_split f a b) by lia. by rewrite sum_range_one. Qed.

Lemma sum_range_ext f g a b :
  (∀ i, a ≤ i < b → f i = g i) → sum_range f a b = sum_range g a b.
Proof.
  remember (Z.to_nat (b - a)) as n eqn:Hn. revert a Hn.
  induction n as [|n IH]; intros a Hn Hext.
  - by rewrite !sum_range_nil by lia.
  - rewrite !(sum_range_cons _ a) by lia. rewrite (Hext a) by lia. f_equal. apply IH; [lia|].
    intros. apply Hext. lia.
Qed.

(** Changing one summand. *)
Lemma sum_range_zero f a b : (∀ i, a ≤ i < b → f i = 0) → sum_range f a b = 0.
Proof.
  intros Hf. rewrite (sum_range_ext f (λ _, 0) a b Hf). unfold sum_range.
  generalize (Z.to_nat (b - a)). intros n. revert a Hf. induction n as [|n IH]; intros a Hf; [done|].
  simpl. rewrite (IH (a + 1)); [done|]. intros i Hi. apply Hf. lia.
Qed.

Lemma sum_range_update f a b j x :
  sum_range (λ i, if i =? j then x else f i) a b =
  sum_range f a b + (if (a <=? j) && (j <? b) then x - f j else 0).
Proof.
  destruct (Z.leb_spec a j), (Z.ltb_spec j b); cbn [andb].
  - rewrite !(sum_range_split _ a j b), !(sum_range_split _ j (j + 1) b), !sum_range_one by lia.
    rewrite Z.eqb_refl.
    rewrite (sum_range_ext _ f a j), (sum_range_ext _ f (j + 1) b); [lia| |];
      intros i Hi; destruct (Z.eqb_spec i j); lia.
  - rewrite (sum_range_ext _ f a b); [lia|]. intros i Hi. destruct (Z.eqb_spec i j); lia.
  - rewrite (sum_range_ext _ f a b); [lia|]. intros i Hi. destruct (Z.eqb_spec i j); lia.
  - rewrite (sum_range_ext _ f a b); [lia|]. intros i Hi. destruct (Z.eqb_spec i j); lia.
Qed.

(** Moving [c i] over each border [i]. *)
Lemma sum_range_telescope (f f' c : Z → Z) a b :
  a ≤ b → (∀ i, f' i = f i + c (i + 1) - c i) → sum_range f' a b = sum_range f a b + c b - c a.
Proof.
  intros Hab Hc. remember (Z.to_nat (b - a)) as n eqn:Hn. revert b Hab Hn.
  induction n as [|n IH]; intros b Hab Hn.
  - replace b with a by lia. rewrite !sum_range_nil by lia. lia.
  - replace b with (b - 1 + 1) by lia. rewrite !sum_range_snoc by lia. rewrite (IH (b - 1)) by lia.
    rewrite (Hc (b - 1)). replace (b - 1 + 1) with b by lia. lia.
Qed.

(** A loop that adds up [f] when the reads succeed. *)
Lemma add_loop (f : Z → Z) (get : Z → result Z) a b s :
  (∀ i, a ≤ i < b → get i = Ok (f i)) →
  for_range a b (λ i sum, x ← get i; Ok (sum + x)) s = Ok (s + sum_range f a b).
Proof.
  intros Hget. destruct (Z.le_gt_cases b a) as [Hle|Hlt].
  - rewrite for_range_nil, sum_range_nil by lia. f_equal. lia.
  - replace s with (s + sum_range f a a) at 1 by (rewrite sum_range_nil; lia).
    apply (for_range_states a b _ (λ i, s + sum_range f a i)); [lia|].
    intros i Hi. rewrite Hget by lia. simpl. rewrite sum_range_snoc by lia. f_equal. lia.
Qed.

(** ** Comparing sums *)

Lemma range_ind (Q : Z → Z → Prop) :
  (∀ a, Q a a) → (∀ a b, a < b → Q (a + 1) b → Q a b) → ∀ a b, a ≤ b → Q a b.
Proof.
  intros H0 Hs a b Hab. remember (Z.to_nat (b - a)) as n eqn:Hn. revert a Hab Hn.
  induction n as [|n IH]; intros a Hab Hn; [replace b with a by lia; apply H0|].
  apply Hs; [lia|]. apply IH; lia.
Qed.

Lemma sum_range_nonneg f a b : (∀ i, a ≤ i < b → 0 ≤ f i) → 0 ≤ sum_range f a b.
Proof.
  destruct (Z.le_gt_cases a b) as [Hab|?]; [|by rewrite sum_range_nil by lia].
  revert a b Hab. apply (range_ind (λ a b, (∀ i, a ≤ i < b → 0 ≤ f i) → 0 ≤ sum_range f a b)).
  - intros a _. by rewrite sum_range_nil.
  - intros a b Hlt IH Hf. rewrite sum_range_cons by lia. specialize (Hf a ltac:(lia)) as Ha.
    assert (0 ≤ sum_range f (a + 1) b); [|lia]. apply IH. intros i Hi. apply Hf. lia.
Qed.

(** A part of a sum. *)
Lemma sum_range_sub f a c d b : (∀ i, a ≤ i < b → 0 ≤ f i) → a ≤ c → c ≤ d → d ≤ b → sum_range f c d ≤ sum_range f a b.
Proof.
  intros Hf Ha Hc Hd. rewrite (sum_range_split f a c b), (sum_range_split f c d b) by lia.
  assert (0 ≤ sum_range f a c) by (apply sum_range_nonneg; intros i Hi; apply Hf; lia).
  assert (0 ≤ sum_range f d b) by (apply sum_range_nonneg; intros i Hi; apply Hf; lia). lia.
Qed.

Lemma sum_range_pick f a b i : (∀ i, a ≤ i < b → 0 ≤ f i) → a ≤ i < b → f i ≤ sum_range f a b.
Proof. intros Hf Hi. rewrite <-(sum_range_one f i). apply sum_range_sub; (done || lia). Qed.

Lemma sum_range_differ f g a b : sum_range f a b ≠ sum_range g a b → ∃ i, a ≤ i < b ∧ f i ≠ g i.
Proof.
  destruct (Z.le_gt_cases a b) as [Hab|?]; [|by rewrite !sum_range_nil by lia].
  revert a b Hab. apply (range_ind (λ a b, sum_range f a b ≠ sum_range g a b → ∃ i, a ≤ i < b ∧ f i ≠ g i)).
  - intros a. by rewrite !sum_range_nil.
  - intros a b Hlt IH. rewrite !(sum_range_cons _ a b) by lia. intros Hne.
    destruct (decide (f a = g a)); [|by exists a; split; [lia|]].
    destruct IH as (i&?&?); [lia|]. exists i. split; [lia|done].
Qed.

(** Some summand of a sum that exceeds the number of its summands exceeds one. *)
Lemma sum_range_exceeds f a b : a ≤ b → b - a < sum_range f a b → ∃ i, a ≤ i < b ∧ 1 < f i.
Proof.
  revert a b. apply (range_ind (λ a b, b - a < sum_range f a b → ∃ i, a ≤ i < b ∧ 1 < f i)).
  - intros a. rewrite sum_range_nil by lia. lia.
  - intros a b Hlt IH. rewrite sum_range_cons by lia. intros Hs.
    destruct (decide (1 < f a)); [exists a; split; [lia|done]|].
    destruct IH as (i&?&?); [lia|]. exists i. split; [lia|done].
Qed.

Lemma sum_range_add f g a b : sum_range (λ i, f i + g i) a b = sum_range f a b + sum_range g a b.
Proof.
  destruct (Z.le_gt_cases a b) as [Hab|?]; [|by rewrite !sum_range_nil by lia].
  revert a b Hab. apply (range_ind (λ a b, sum_range (λ i, f i + g i) a b = sum_range f a b + sum_range g a b)).
  - intros a. by rewrite !sum_range_nil by lia.
  - intros a b Hlt IH. rewrite !(sum_range_cons _ a b) by lia. rewrite IH. lia.
Qed.

(** The summands of a part, the others being zero. *)
Lemma sum_range_part f a c d b : a ≤ c → c ≤ d → d ≤ b →
  sum_range (λ i, if (c <=? i) && (i <? d) then f i else 0) a b = sum_range f c d.
Proof.
  intros Ha Hc Hd. rewrite (sum_range_split _ a c b), (sum_range_split _ c d b) by lia.
  rewrite (sum_range_zero _ a c), (sum_range_zero _ d b).
  - rewrite (sum_range_ext _ f c d); [lia|]. intros i Hi. destruct (Z.leb_spec c i), (Z.ltb_spec i d); (done || lia).
  - intros i Hi. destruct (Z.leb_spec c i), (Z.ltb_spec i d); (done || lia).
  - intros i Hi. destruct (Z.leb_spec c i), (Z.ltb_spec i d); (done || lia).
Qed.
