(* ===== verification/SizeManager.v ===== *)
(** * Block size managers (dataStructures/blockSizeManager.hpp)

    The linear manager, which adds up block sizes, and the hierarchical one, which keeps
    a sum per [AggregateWidth] blocks.  The sparse array is seen through [size] and
    [blockSize], the entry of the array at an index (an access outside the array is a
    fault).  The atomic counters are plain integers: every operation here is one
    [fetch_add] or [fetch_sub] per counter. *)

From S2P Require Export Prelude Sums.
(** [pma[i].size] of the sparse array, and the end of its used region. *)
Record SizeView := mkSizeView {
  sds_size : Z;
  sds_blockSizes : list Z;
}.
Definition sds_blockSize (sds : SizeView) (i : Z) : result Z := zget (sds_blockSizes sds) i.

(** [for (current = a; current < b; ++current) sum += sds->blockSize(current)]. *)
Definition addBlockSizes (sds : SizeView) (a b sum : Z) : result Z :=
  for_range a b (λ current sum, x ← sds_blockSize sds current; Ok (sum + x)) sum.

Module LinearBlockSizeManager.

Definition getNumberOfElements (sds : SizeView) (left right : Z) : result Z :=
  addBlockSizes sds left right 0.

End LinearBlockSizeManager.

Module HierarchicalBlockSizeManager.

Record HierarchicalBlockSizeManager := mkManager {
  aggregates : list Z;
  size : Z;
  AggregateWidth : Z;
}.

Definition set_aggregates (m : HierarchicalBlockSizeManager) (x : list Z)
    : HierarchicalBlockSizeManager := mkManager x (size m) (AggregateWidth m).

Definition aggregateIndex (m : HierarchicalBlockSizeManager) (blockIndex level : Z) : Z :=
  blockIndex ÷ AggregateWidth m.

Definition nextAggregate (m : HierarchicalBlockSizeManager) (blockIndex level : Z) : Z :=
  if Z.rem blockIndex (AggregateWidth m) =? 0 then aggregateIndex m blockIndex 0
  else aggregateIndex m blockIndex 0 + 1.

Definition getBlockIndex (m : HierarchicalBlockSizeManager) (aggregateIndex level : Z) : Z :=
  aggregateIndex * AggregateWidth m.

(** [HierarchicalBlockSizeManager(pointer)]: the width is 64 until it is changed. *)
Definition create (sds : SizeView) : HierarchicalBlockSizeManager :=
  let m := mkManager [] 0 64 in
  let n := aggregateIndex m (sds_size sds) 0 + 1 in
  mkManager (replicate (Z.to_nat n) 0) n 64.

Definition getNumberOfElements (m : HierarchicalBlockSizeManager) (sds : SizeView)
    (left right : Z) : result Z :=
  let aggregateStart := nextAggregate m left 0 in
  let aggregateEnd := aggregateIndex m right 0 in
  if aggregateStart <? aggregateEnd then
    sum ← addBlockSizes sds left (getBlockIndex m aggregateStart 0) 0;
    sum ← for_range aggregateStart aggregateEnd
            (λ current sum, x ← zget (aggregates m) current; Ok (sum + x)) sum;
    addBlockSizes sds (getBlockIndex m aggregateEnd 0) right sum
  else addBlockSizes sds left right 0.

(** The sum of the blocks below one aggregate. *)
Definition aggregateOf (m : HierarchicalBlockSizeManager) (sds : SizeView) (i : Z) : result Z :=
  addBlockSizes sds (getBlockIndex m i 0) (getBlockIndex m (i + 1) 0) 0.

Definition recompute (m : HierarchicalBlockSizeManager) (sds : SizeView) (numberOfThreads : Z)
    : result HierarchicalBlockSizeManager :=
  let newSize := aggregateIndex m (sds_size sds) 0 + 1 in
  let m := if negb (newSize =? size m)
           then mkManager (replicate (Z.to_nat newSize) 0) newSize (AggregateWidth m) else m in
  for_range 0 (Z.min (size m) (aggregateIndex m (sds_size sds) 0 + 1))
    (λ i m,
       aggregate ← aggregateOf m sds i;
       a ← zset (aggregates m) i aggregate;
       Ok (set_aggregates m a)) m.

(** [aggregates[i].fetch_add(x)]. *)
Definition fetch_add (m : HierarchicalBlockSizeManager) (i x : Z)
    : result HierarchicalBlockSizeManager :=
  v ← zget (aggregates m) i;
  a ← zset (aggregates m) i (v + x);
  Ok (set_aggregates m a).

Definition addElement (m : HierarchicalBlockSizeManager) (blockIndex : Z)
    : result HierarchicalBlockSizeManager :=
  fetch_add m (aggregateIndex m blockIndex 0) 1.

Definition adjustBlockSize (m : HierarchicalBlockSizeManager) (blockIndex oldSize newSize : Z)
    : result HierarchicalBlockSizeManager :=
  fetch_add m (aggregateIndex m blockIndex 0) (newSize - oldSize).

Definition shiftLeft (m : HierarchicalBlockSizeManager) (sds : SizeView) (left right : Z)
    : result HierarchicalBlockSizeManager :=
  let aggregateStart := aggregateIndex m left 0 + 1 in
  let aggregateEnd := aggregateIndex m (right + 1) 0 + 1 in
  for_range aggregateStart aggregateEnd
    (λ current m',
       let shiftedBlock := getBlockIndex m current 0 - 1 in
       x ← sds_blockSize sds shiftedBlock;
       m' ← fetch_add m' current (- x);
       fetch_add m' (current - 1) x) m.

Definition shiftRight (m : HierarchicalBlockSizeManager) (sds : SizeView) (left right : Z)
    : result HierarchicalBlockSizeManager :=
  let aggregateStart := nextAggregate m left 0 in
  let aggregateEnd := aggregateIndex m right 0 + 1 in
  for_range aggregateStart aggregateEnd
    (λ current m',
       let shiftedBlock := getBlockIndex m current 0 in
       x ← sds_blockSize sds shiftedBlock;
       m' ← fetch_add m' (current - 1) (- x);
       fetch_add m' current x) m.

(** The assertion loop of [validate]: [Ok tt] when every aggregate is right. *)
Definition validate (m : HierarchicalBlockSizeManager) (sds : SizeView) (ndebug : bool)
    : result unit :=
  for_range 0 (Z.min (size m) (aggregateIndex m (sds_size sds) 0 + 1))
    (λ i _,
       aggregate ← aggregateOf m sds i;
       x ← zget (aggregates m) i;
       assert_unless ndebug (aggregate =? x)) tt.

End HierarchicalBlockSizeManager.

(** * The hierarchical size manager computes the sums of the linear one

    [valid m sds]: each aggregate is the sum of its blocks.  All operations keep it, in
    step with the change of the block sizes they announce, and under it a range query
    returns the plain sum. *)

Import HierarchicalBlockSizeManager.

(** ** The sums of the block sizes *)

(** The size of block [i]; zero outside the array. *)
Definition size_at (sds : SizeView) (i : Z) : Z := default 0 (at_ (sds_blockSizes sds) i).

Lemma sds_blockSize_ok sds i :
  0 ≤ i < zlen (sds_blockSizes sds) → sds_blockSize sds i = Ok (size_at sds i).
Proof.
  intros Hi. destruct (at_in_bound _ _ Hi) as [x Hx].
  unfold sds_blockSize, size_at. rewrite Hx. by apply zget_at.
Qed.

Lemma addBlockSizes_ok sds a b s :
  0 ≤ a → b ≤ zlen (sds_blockSizes sds) →
  addBlockSizes sds a b s = Ok (s + sum_range (size_at sds) a b).
Proof. intros. apply add_loop. intros. apply sds_blockSize_ok. lia. Qed.

Section manager.
Implicit Types (m : HierarchicalBlockSizeManager) (sds : SizeView).

(** The aggregates cover [size * AggregateWidth] blocks, all of them in the array. *)
Definition covers m sds : Prop :=
  0 < AggregateWidth m ∧ zlen (aggregates m) = size m ∧
  size m * AggregateWidth m ≤ zlen (sds_blockSizes sds).

Definition aggregate_sum m sds (i : Z) : Z :=
  sum_range (size_at sds) (i * AggregateWidth m) ((i + 1) * AggregateWidth m).

Definition valid m sds : Prop :=
  covers m sds ∧
  ∀ i, 0 ≤ i < size m → at_ (aggregates m) i = Some (aggregate_sum m sds i).

Lemma aggregates_sum m sds a b :
  0 < AggregateWidth m → a ≤ b →
  sum_range (aggregate_sum m sds) a b =
  sum_range (size_at sds) (a * AggregateWidth m) (b * AggregateWidth m).
Proof.
  intros HW Hab. remember (Z.to_nat (b - a)) as n eqn:Hn. revert a Hab Hn.
  induction n as [|n IH]; intros a Hab Hn.
  - replace b with a by lia. by rewrite !sum_range_nil by lia.
  - rewrite sum_range_cons by lia. rewrite (IH (a + 1)) by lia.
    rewrite (sum_range_split _ (a * AggregateWidth m) ((a + 1) * AggregateWidth m)) by nia.
    done.
Qed.

(** A query returns the sum of the sizes in the range. *)
Lemma getNumberOfElements_ok m sds l r :
  valid m sds → 0 ≤ l ≤ r → r ≤ zlen (sds_blockSizes sds) → r ÷ AggregateWidth m ≤ size m →
  getNumberOfElements m sds l r = Ok (sum_range (size_at sds) l r).
Proof.
  intros [(HW&Hlen&Hcov) Hval] Hl Hr Hsz. unfold getNumberOfElements, nextAggregate,
    aggregateIndex, getBlockIndex in *.
  rewrite !Z.quot_div_nonneg, Z.rem_mod_nonneg in * by lia.
  set (W := AggregateWidth m) in *.
  set (start := if l mod W =? 0 then l / W else l / W + 1).
  assert (l ≤ start * W) as Hstart.
  { unfold start. destruct (Z.eqb_spec (l mod W) 0); Z.div_mod_to_equations; nia. }
  assert (0 ≤ start) by (unfold start; destruct (_ =? _); Z.div_mod_to_equations; nia).
  destruct (Z.ltb_spec start (r / W)) as [Hlt|Hge].
  - assert (r / W * W ≤ r) by (Z.div_mod_to_equations; nia).
    rewrite addBlockSizes_ok by nia. cbn [mbind result_bind].
    rewrite (add_loop (aggregate_sum m sds)).
    + cbn [mbind result_bind]. rewrite addBlockSizes_ok by nia. f_equal.
      rewrite aggregates_sum by (unfold W in *; lia). fold W.
      rewrite (sum_range_split _ l (start * W) r) by nia.
      rewrite (sum_range_split _ (start * W) (r / W * W) r) by nia. lia.
    + intros i Hi. apply zget_at, Hval. lia.
  - rewrite addBlockSizes_ok by lia. done.
Qed.

Lemma aggregateOf_ok m sds i :
  covers m sds → 0 ≤ i < size m → aggregateOf m sds i = Ok (aggregate_sum m sds i).
Proof.
  intros (HW&Hlen&Hcov) Hi. unfold aggregateOf, getBlockIndex. by rewrite addBlockSizes_ok by nia.
Qed.

(** Recomputation: every aggregate is written. *)
Lemma manager_recompute_ok m sds n :
  0 < AggregateWidth m → zlen (aggregates m) = size m → 0 ≤ sds_size sds →
  (sds_size sds / AggregateWidth m + 1) * AggregateWidth m ≤ zlen (sds_blockSizes sds) →
  ∃ m', recompute m sds n = Ok m' ∧ valid m' sds ∧ AggregateWidth m' = AggregateWidth m ∧
    size m' = sds_size sds / AggregateWidth m + 1.
Proof.
  intros HW Hlen Hpos Hcov. unfold recompute, aggregateIndex in *.
  rewrite Z.quot_div_nonneg in * by lia.
  set (q := sds_size sds / AggregateWidth m) in *.
  assert (0 ≤ q) by (apply Z.div_pos; lia).
  set (m0 := if negb (q + 1 =? size m) then _ else m).
  assert (AggregateWidth m0 = AggregateWidth m ∧ size m0 = q + 1 ∧ zlen (aggregates m0) = q + 1)
    as (HW0&Hs0&Hl0).
  { unfold m0. destruct (Z.eqb_spec (q + 1) (size m)); simpl; split_and!; [done|lia|lia|done|done|zlen]. }
  rewrite Z.quot_div_nonneg by lia. rewrite HW0, Hs0. fold q. rewrite Z.min_id.
  apply wp_returns, (wp_for (λ i m', AggregateWidth m' = AggregateWidth m ∧ size m' = q + 1 ∧
    zlen (aggregates m') = q + 1 ∧
    ∀ j, 0 ≤ j < i → at_ (aggregates m') j = Some (aggregate_sum m sds j))).
  - intros i m' Hi (HW'&Hs'&Hl'&Hat).
    rewrite aggregateOf_ok; [|split_and!; [lia|lia|rewrite HW', Hs'; lia]|lia].
    cbn [mbind result_bind]. rewrite zset_in by lia. simpl. split_and!; [done|done|by rewrite zlen_zupd|].
    intros j Hj. destruct (decide (j = i)) as [->|].
    + rewrite at_zupd_eq by lia. unfold aggregate_sum. by rewrite HW'.
    + rewrite at_zupd_ne by lia. apply Hat. lia.
  - split_and!; [done|done|done|]. intros j Hj. lia.
  - intros m' (HW'&Hs'&Hl'&Hat). rewrite Z.max_r in Hat by lia.
    split; [split; [|]|done].
    { split_and!; [lia|lia|rewrite HW', Hs'; lia]. }
    intros i Hi. rewrite Hat by lia. unfold aggregate_sum. by rewrite HW'.
Qed.

Lemma fetch_add_ok m i x v :
  at_ (aggregates m) i = Some v →
  fetch_add m i x = Ok (set_aggregates m (zupd (aggregates m) i (v + x))).
Proof.
  intros Hv. pose proof (at_Some_bound _ _ _ Hv). unfold fetch_add.
  rewrite (zget_at _ _ _ Hv). cbn [mbind result_bind]. by rewrite zset_in.
Qed.

(** The block sizes after block [j] got size [x]. *)
Definition update_size sds (j x : Z) : SizeView :=
  mkSizeView (sds_size sds) (zupd (sds_blockSizes sds) j x).

Lemma size_at_update sds j x i :
  0 ≤ j < zlen (sds_blockSizes sds) →
  size_at (update_size sds j x) i = if i =? j then x else size_at sds i.
Proof.
  intros Hj. unfold size_at, update_size. simpl. destruct (Z.eqb_spec i j) as [->|].
  - by rewrite at_zupd_eq.
  - by rewrite at_zupd_ne by lia.
Qed.

(** The same shape of manager: only the aggregates differ. *)
Definition same_shape m m' : Prop := AggregateWidth m' = AggregateWidth m ∧ size m' = size m.

Lemma adjustBlockSize_keeps m sds j x :
  valid m sds → 0 ≤ j < size m * AggregateWidth m →
  ∃ m', adjustBlockSize m j (size_at sds j) x = Ok m' ∧ valid m' (update_size sds j x) ∧ same_shape m m'.
Proof.
  intros [(HW&Hlen&Hcov) Hval] Hj. unfold adjustBlockSize, aggregateIndex.
  rewrite Z.quot_div_nonneg by lia.
  assert (0 ≤ j / AggregateWidth m < size m) as Hi by (Z.div_mod_to_equations; nia).
  erewrite fetch_add_ok by (by apply Hval). eexists. split; [done|]. split; [|by split]. split.
  - split_and!; simpl; rewrite ?zlen_zupd; lia.
  - simpl. intros i Hib. unfold aggregate_sum. cbn [set_aggregates AggregateWidth].
    rewrite (sum_range_ext (size_at (update_size sds j x)) (λ i, if i =? j then x else size_at sds i));
      [|intros; apply size_at_update; lia].
    rewrite sum_range_update. destruct (decide (i = j / AggregateWidth m)) as [->|Hne].
    + rewrite at_zupd_eq by lia. do 2 f_equal.
      replace (_ && _) with true; [done|]. symmetry. apply andb_true_intro.
      rewrite Z.leb_le, Z.ltb_lt. Z.div_mod_to_equations. nia.
    + rewrite at_zupd_ne by lia. rewrite Hval by done. f_equal.
      replace (_ && _) with false; [unfold aggregate_sum; lia|]. symmetry. apply andb_false_iff.
      rewrite Z.leb_gt, Z.ltb_ge. Z.div_mod_to_equations. nia.
Qed.

Lemma adjustBlockSize_ok m sds j x :
  valid m sds → 0 ≤ j < size m * AggregateWidth m →
  ∃ m', adjustBlockSize m j (size_at sds j) x = Ok m' ∧ valid m' (update_size sds j x).
Proof. intros Hv Hj. destruct (adjustBlockSize_keeps m sds j x Hv Hj) as (m'&?&?&_). by exists m'. Qed.

(** Only the difference of the announced sizes matters. *)
Lemma adjustBlockSize_by m sds j x y :
  valid m sds → 0 ≤ j < size m * AggregateWidth m →
  ∃ m', adjustBlockSize m j x y = Ok m' ∧ valid m' (update_size sds j (size_at sds j + (y - x))) ∧
    same_shape m m'.
Proof.
  intros Hv Hj. destruct (adjustBlockSize_keeps m sds j (size_at sds j + (y - x)) Hv Hj) as (m'&Ha&?&?).
  exists m'. split; [|done]. rewrite <-Ha. unfold adjustBlockSize. f_equal. lia.
Qed.

(** *** Shifts *)

(** A pass over the borders [current] in [start, end): [moved current] elements leave
    aggregate [current + from] and enter aggregate [current + to]. *)
Definition crossing (start end_ : Z) (moved : Z → Z) (i : Z) : Z :=
  if (start <=? i) && (i <? end_) then moved i else 0.

Lemma border_pass m sds start end_ (at_border moved : Z → Z) (dir : bool) :
  0 ≤ start - 1 → end_ ≤ size m → zlen (aggregates m) = size m →
  (∀ c, start ≤ c < end_ → 0 ≤ at_border c < zlen (sds_blockSizes sds)) →
  (∀ c, moved c = size_at sds (at_border c)) →
  (∀ i, 0 ≤ i < size m → is_Some (at_ (aggregates m) i)) →
  ∃ m', for_range start end_
    (λ current m,
       x ← sds_blockSize sds (at_border current);
       m ← fetch_add m (if dir then current else current - 1) (- x);
       fetch_add m (if dir then current - 1 else current) x) m = Ok m' ∧
    AggregateWidth m' = AggregateWidth m ∧ size m' = size m ∧ zlen (aggregates m') = size m ∧
    ∀ i v, at_ (aggregates m) i = Some v →
      at_ (aggregates m') i = Some
        (v + (if dir then 1 else -1) * (crossing start end_ moved (i + 1) - crossing start end_ moved i)).
Proof.
  intros Hstart Hend Hlen Hborder Hmoved Hsome.
  apply wp_returns, (wp_for (λ c m', AggregateWidth m' = AggregateWidth m ∧ size m' = size m ∧
    zlen (aggregates m') = size m ∧
    ∀ i v, at_ (aggregates m) i = Some v →
      at_ (aggregates m') i = Some
        (v + (if dir then 1 else -1) * (crossing start c moved (i + 1) - crossing start c moved i)))).
  - intros c m' Hc (HW&Hs&Hl&Hat). rewrite sds_blockSize_ok by auto. cbn [mbind result_bind].
    rewrite <-Hmoved.
    destruct (Hsome c) as [v1 Hv1]; [lia|]. destruct (Hsome (c - 1)) as [v0 Hv0]; [lia|].
    pose proof (Hat _ _ Hv1) as Hat1. pose proof (Hat _ _ Hv0) as Hat0.
    assert (∀ i, crossing start (c + 1) moved i =
      crossing start c moved i + (if i =? c then moved c else 0)) as Hcr.
    { intros i. unfold crossing. bool_cases; simpl; subst; try lia. }
    destruct dir; (erewrite fetch_add_ok by eassumption); cbn [mbind result_bind];
      (erewrite fetch_add_ok by (simpl; rewrite at_zupd_ne by lia; eassumption)); simpl;
      (split_and!; [done|done|by rewrite !zlen_zupd|]); intros i v Hv; rewrite !Hcr;
      pose proof (Hat _ _ Hv) as Hati; pose proof (at_Some_bound _ _ _ Hati);
      (destruct (decide (i = c)) as [->|]; [|destruct (decide (i = c - 1)) as [->|]]);
      bool_cases; try lia;
      rewrite ?at_zupd_ne, ?at_zupd_eq by (rewrite ?zlen_zupd; lia);
      rewrite ?at_zupd_ne, ?at_zupd_eq by (rewrite ?zlen_zupd; lia);
      simplify_eq; try (rewrite Hati); f_equal; lia.
  - split_and!; [done|done|done|]. intros i v Hv. rewrite Hv. f_equal.
    unfold crossing. bool_cases; simpl; lia.
  - intros m' (HW&Hs&Hl&Hat). split_and!; [done|done|done|]. intros i v Hv. rewrite (Hat _ _ Hv).
    do 2 f_equal. unfold crossing. bool_cases; simpl; lia.
Qed.

(** The sizes [sds'] after the blocks [left + 1 .. right + 1] moved to [left .. right],
    over an empty block at [left].  Of the elements counted at [right + 1] those of a new
    block stay, the others move. *)
Definition shifted_left_onto sds sds' (left right : Z) : Prop :=
  zlen (sds_blockSizes sds') = zlen (sds_blockSizes sds) ∧
  size_at sds left = 0 ∧ size_at sds' right + size_at sds' (right + 1) = size_at sds (right + 1) ∧
  (∀ i, left ≤ i < right → size_at sds' i = size_at sds (i + 1)) ∧
  (∀ i, i < left ∨ right + 1 < i → size_at sds' i = size_at sds i).

(** Nothing stays. *)
Definition shifted_left sds sds' (left right : Z) : Prop :=
  zlen (sds_blockSizes sds') = zlen (sds_blockSizes sds) ∧
  size_at sds left = 0 ∧ size_at sds' (right + 1) = 0 ∧
  (∀ i, left ≤ i ≤ right → size_at sds' i = size_at sds (i + 1)) ∧
  (∀ i, i < left ∨ right + 1 < i → size_at sds' i = size_at sds i).

Lemma shifted_left_is_onto sds sds' left right :
  left ≤ right → shifted_left sds sds' left right → shifted_left_onto sds sds' left right.
Proof.
  intros Hlr (Hlen&Hl&Hr&Hmid&Hout). split_and!; try done.
  - rewrite (Hmid right) by lia. lia.
  - intros. apply Hmid. lia.
Qed.

Lemma shiftLeft_onto_ok m sds sds' left right :
  valid m sds → shifted_left_onto sds sds' left right →
  0 ≤ left ≤ right → right + 1 < size m * AggregateWidth m →
  ∃ m', shiftLeft m sds' left right = Ok m' ∧ valid m' sds' ∧ same_shape m m'.
Proof.
  intros [(HW&Hlen&Hcov) Hval] (Hlen'&Hl&Hr&Hmid&Hout) Hlr Hbound.
  unfold shiftLeft, aggregateIndex, getBlockIndex. rewrite !Z.quot_div_nonneg by lia.
  set (W := AggregateWidth m) in *.
  destruct (border_pass m sds' (left / W + 1) ((right + 1) / W + 1) (λ c, c * W - 1)
    (λ c, size_at sds' (c * W - 1)) true) as (m'&Hpass&HW'&Hs'&Hl'&Hat).
  - pose proof (Z.div_pos left W). lia.
  - Z.div_mod_to_equations. nia.
  - done.
  - intros c Hc. rewrite Hlen'. Z.div_mod_to_equations. nia.
  - done.
  - intros i Hi. rewrite (Hval i Hi). by eexists.
  - exists m'. split; [exact Hpass|]. split; [split|by fold W in HW'].
    + split_and!; [fold W in HW'; lia|lia|]. rewrite HW', Hs', Hlen'. fold W. lia.
    + intros i Hi. rewrite Hs' in Hi. rewrite (Hat _ _ (Hval i Hi)). f_equal.
      unfold aggregate_sum. rewrite HW'. fold W.
      rewrite (sum_range_telescope (size_at sds) (size_at sds')
        (crossing (left + 1) (right + 2) (λ i, size_at sds' (i - 1)))); [|nia|]; cycle 1.
      { clear - Hl Hr Hmid Hout Hlr. intros k. unfold crossing.
        pose proof (Hmid (k - 1)) as H1. pose proof (Hmid k) as H2. pose proof (Hout k) as H3.
        rewrite Z.add_simpl_r in *. rewrite Z.sub_add in H1.
        destruct (decide (k = left)) as [E|]; [rewrite E in *|];
          (destruct (decide (k = right + 1)) as [E'|]; [rewrite E' in *; rewrite ?Z.add_simpl_r in *|]);
          bool_cases; simpl in *; try lia. }
      assert (∀ c, crossing (left / W + 1) ((right + 1) / W + 1) (λ c, size_at sds' (c * W - 1)) c
        = crossing (left + 1) (right + 2) (λ i, size_at sds' (i - 1)) (c * W)) as Hcr.
      { intros c. unfold crossing. bool_cases; simpl; try done; exfalso; Z.div_mod_to_equations; nia. }
      rewrite !Hcr. lia.
Qed.

Lemma shiftLeft_ok m sds sds' left right :
  valid m sds → shifted_left sds sds' left right →
  0 ≤ left ≤ right → right + 1 < size m * AggregateWidth m →
  ∃ m', shiftLeft m sds' left right = Ok m' ∧ valid m' sds'.
Proof.
  intros Hv Hs Hlr Hb.
  destruct (shiftLeft_onto_ok m sds sds' left right) as (m'&?&?&_);
    [done|by apply shifted_left_is_onto; [lia|]|done..|by exists m'].
Qed.

(** An empty range moves nothing. *)
Lemma shiftLeft_none m sds left :
  0 ≤ left → 0 < AggregateWidth m → shiftLeft m sds left (left - 1) = Ok m.
Proof.
  intros. unfold shiftLeft, aggregateIndex. replace (left - 1 + 1) with left by lia.
  by rewrite for_range_nil by lia.
Qed.

(** The sizes [sds'] after the blocks [left - 1 .. right - 1] moved to [left .. right],
    over an empty block at [right]; again a new block may stay behind at [left - 1]. *)
Definition shifted_right_onto sds sds' (left right : Z) : Prop :=
  zlen (sds_blockSizes sds') = zlen (sds_blockSizes sds) ∧
  size_at sds right = 0 ∧ size_at sds' (left - 1) + size_at sds' left = size_at sds (left - 1) ∧
  (∀ i, left < i ≤ right → size_at sds' i = size_at sds (i - 1)) ∧
  (∀ i, i < left - 1 ∨ right < i → size_at sds' i = size_at sds i).

Definition shifted_right sds sds' (left right : Z) : Prop :=
  zlen (sds_blockSizes sds') = zlen (sds_blockSizes sds) ∧
  size_at sds right = 0 ∧ size_at sds' (left - 1) = 0 ∧
  (∀ i, left ≤ i ≤ right → size_at sds' i = size_at sds (i - 1)) ∧
  (∀ i, i < left - 1 ∨ right < i → size_at sds' i = size_at sds i).

Lemma shifted_right_is_onto sds sds' left right :
  left ≤ right → shifted_right sds sds' left right → shifted_right_onto sds sds' left right.
Proof.
  intros Hlr (Hlen&Hl&Hr&Hmid&Hout). split_and!; try done.
  - rewrite (Hmid left) by lia. lia.
  - intros. apply Hmid. lia.
Qed.

Lemma shiftRight_onto_ok m sds sds' left right :
  valid m sds → shifted_right_onto sds sds' left right →
  1 ≤ left ≤ right → right < size m * AggregateWidth m →
  ∃ m', shiftRight m sds' left right = Ok m' ∧ valid m' sds' ∧ same_shape m m'.
Proof.
  intros [(HW&Hlen&Hcov) Hval] (Hlen'&Hr&Hl&Hmid&Hout) Hlr Hbound.
  unfold shiftRight, nextAggregate, aggregateIndex, getBlockIndex.
  rewrite !Z.quot_div_nonneg, Z.rem_mod_nonneg by lia.
  set (W := AggregateWidth m) in *.
  set (start := if left mod W =? 0 then left / W else left / W + 1).
  assert (left ≤ start * W < left + W ∧ 1 ≤ start) as [Hst Hst1].
  { unfold start. destruct (Z.eqb_spec (left mod W) 0); Z.div_mod_to_equations; nia. }
  destruct (border_pass m sds' start (right / W + 1) (λ c, c * W)
    (λ c, size_at sds' (c * W)) false) as (m'&Hpass&HW'&Hs'&Hl'&Hat).
  - lia.
  - Z.div_mod_to_equations. nia.
  - done.
  - intros c Hc. rewrite Hlen'. Z.div_mod_to_equations. nia.
  - done.
  - intros i Hi. rewrite (Hval i Hi). by eexists.
  - exists m'. split; [exact Hpass|]. split; [split|by fold W in HW'].
    + split_and!; [fold W in HW'; lia|lia|]. rewrite HW', Hs', Hlen'. fold W. lia.
    + intros i Hi. rewrite Hs' in Hi. rewrite (Hat _ _ (Hval i Hi)). f_equal.
      unfold aggregate_sum. rewrite HW'. fold W.
      rewrite (sum_range_telescope (size_at sds') (size_at sds)
        (crossing left (right + 1) (size_at sds'))); [|nia|]; cycle 1.
      { clear - Hl Hr Hmid Hout Hlr. intros k. unfold crossing.
        pose proof (Hmid (k + 1)) as H1. pose proof (Hmid k) as H2. pose proof (Hout k) as H3.
        rewrite Z.add_simpl_r in *.
        destruct (decide (k = left - 1)) as [E|]; [rewrite E in *; rewrite ?Z.sub_add in *|];
          (destruct (decide (k = right)) as [E'|]; [rewrite E' in *|]);
          bool_cases; simpl in *; try lia. }
      assert (∀ c, crossing start (right / W + 1) (λ c, size_at sds' (c * W)) c
        = crossing left (right + 1) (size_at sds') (c * W)) as Hcr.
      { intros c. unfold crossing. bool_cases; simpl; try done; exfalso; Z.div_mod_to_equations; nia. }
      rewrite !Hcr. lia.
Qed.

Lemma shiftRight_ok m sds sds' left right :
  valid m sds → shifted_right sds sds' left right →
  1 ≤ left ≤ right → right < size m * AggregateWidth m →
  ∃ m', shiftRight m sds' left right = Ok m' ∧ valid m' sds'.
Proof.
  intros Hv Hs Hlr Hb.
  destruct (shiftRight_onto_ok m sds sds' left right) as (m'&?&?&_);
    [done|by apply shifted_right_is_onto; [lia|]|done..|by exists m'].
Qed.

Lemma addElement_ok m sds j :
  valid m sds → 0 ≤ j < size m * AggregateWidth m →
  ∃ m', addElement m j = Ok m' ∧ valid m' (update_size sds j (size_at sds j + 1)).
Proof.
  intros Hval Hj. destruct (adjustBlockSize_ok m sds j (size_at sds j + 1)) as (m'&Hadj&?);
    [done..|]. exists m'. split; [|done]. unfold adjustBlockSize in Hadj. rewrite <-Hadj.
  unfold addElement. f_equal. lia.
Qed.

Lemma manager_validate_ok m sds ndebug :
  valid m sds → validate m sds ndebug = Ok tt.
Proof.
  intros [Hcov Hval]. pose proof Hcov as (HW&Hlen&_).
  unfold validate. set (n := Z.min _ _).
  assert (wp (for_range 0 n (λ i _, aggregate ← aggregateOf m sds i;
    x ← zget (aggregates m) i; assert_unless ndebug (aggregate =? x)) tt) (λ _, True)) as Hwp.
  { apply (wp_for (λ _ _, True)); [|done|done]. intros i [] Hi _.
    rewrite aggregateOf_ok by (done || lia). cbn [mbind result_bind].
    erewrite zget_at by (apply Hval; lia). cbn [mbind result_bind].
    apply wp_assert; [apply Z.eqb_refl|done]. }
  apply wp_returns in Hwp as ([]&?&_). done.
Qed.

(** A manager that [validate] accepts is right wherever it looks. *)
Lemma validate_sound m sds :
  covers m sds → validate m sds false = Ok tt → size m ≤ sds_size sds ÷ AggregateWidth m + 1 →
  valid m sds.
Proof.
  intros Hcov Hval Hsize. split; [done|]. pose proof Hcov as (HW&Hlen&_).
  unfold validate, aggregateIndex in Hval. rewrite Z.min_l in Hval by done.
  assert (∀ n a, a + Z.of_nat n = size m → 0 ≤ a →
    for_nat n a (λ i _, aggregate ← aggregateOf m sds i; x ← zget (aggregates m) i;
      assert_unless false (aggregate =? x)) tt = Ok tt →
    ∀ i, a ≤ i < size m → at_ (aggregates m) i = Some (aggregate_sum m sds i)) as Hgen.
  { induction n as [|n IH]; intros a Hn Ha Hfor i Hi; [lia|]. cbn [for_nat] in Hfor.
    rewrite aggregateOf_ok in Hfor by (done || lia). cbn [mbind result_bind] in Hfor.
    destruct (at_in_bound (aggregates m) a) as [x Hx]; [lia|].
    rewrite (zget_at _ _ _ Hx) in Hfor. cbn [mbind result_bind assert_unless] in Hfor.
    destruct (Z.eqb_spec (aggregate_sum m sds a) x); [|done]. cbn [mbind result_bind] in Hfor.
    destruct (decide (i = a)) as [->|]; [congruence|]. eapply (IH (a + 1)); [lia|lia|done|lia]. }
  intros i Hi. apply (Hgen (Z.to_nat (size m)) 0); [lia|lia| |lia].
  unfold for_range in Hval. by rewrite Z.sub_0_r in Hval.
Qed.

(** *** A new block between others, which move by one place over an empty cell *)

Lemma slide_left_ok m n (u q w : list Z) x :
  valid m (mkSizeView n (u ++ 0 :: q ++ w)) → zlen u + zlen q < size m * AggregateWidth m →
  ∃ m1 m2, adjustBlockSize m (zlen u + zlen q) 0 x = Ok m1 ∧
    shiftLeft m1 (mkSizeView n (u ++ q ++ x :: w)) (zlen u) (zlen u + zlen q - 1) = Ok m2 ∧
    valid m2 (mkSizeView n (u ++ q ++ x :: w)) ∧ same_shape m m2.
Proof.
  intros Hv Hb. set (sds := mkSizeView n _) in Hv. set (sds' := mkSizeView n (u ++ q ++ x :: w)).
  pose proof (zlen_nonneg u). pose proof (zlen_nonneg q).
  destruct (adjustBlockSize_by m sds (zlen u + zlen q) 0 x Hv) as (m1&Ha&Hv1&[HW1 Hs1]); [lia|].
  exists m1. set (sds1 := update_size sds _ _) in Hv1.
  assert (0 ≤ zlen u + zlen q < zlen (sds_blockSizes sds)) as Hj by (simpl; zlen).
  assert (∀ i, size_at sds1 i = if i =? zlen u + zlen q then size_at sds (zlen u + zlen q) + x else size_at sds i) as Hsz1.
  { intros i. unfold sds1. rewrite size_at_update by done. bool_cases; lia. }
  assert (zlen (sds_blockSizes sds1) = zlen (sds_blockSizes sds)) as Hl1 by (unfold sds1; simpl; by rewrite zlen_zupd).
  destruct (decide (q = [])) as [->|Hq].
  - exists m1. change (zlen []) with 0 in *. rewrite Z.add_0_r in *.
    rewrite shiftLeft_none by (rewrite ?HW1; destruct Hv as [(?&_)] ; lia).
    split_and!; [done|done| |by split]. destruct Hv1 as [(?&?&?) Hv1].
    assert (∀ i, size_at sds' i = size_at sds1 i) as Heq.
    { intros i. rewrite Hsz1. unfold size_at. simpl. rewrite !at_app, !at_cons.
      bool_cases; simpl; lia || done || (exfalso; lia). }
    split; [split_and!; [done|done|]; rewrite Hl1 in *; simpl in *; zlen|].
    intros i Hi. rewrite (Hv1 i Hi). f_equal. apply sum_range_ext. intros. symmetry. apply Heq.
  - destruct (shiftLeft_onto_ok m1 sds1 sds' (zlen u) (zlen u + zlen q - 1)) as (m2&?&?&[HW2 Hs2]).
    + done.
    + assert (0 < zlen q) by (destruct q; [done|zlen]).
      split_and!.
      * rewrite Hl1. simpl. zlen.
      * rewrite Hsz1. destruct (Z.eqb_spec (zlen u) (zlen u + zlen q)); [lia|].
        unfold size_at. simpl. by rewrite at_middle.
      * replace (zlen u + zlen q - 1 + 1) with (zlen u + zlen q) by lia. rewrite Hsz1, Z.eqb_refl.
        unfold size_at. simpl. rewrite !at_app, !at_cons, !at_app.
        bool_cases; simpl; try lia; (replace (zlen u + zlen q - zlen u - 1) with (zlen u + zlen q - 1 - zlen u) by lia); lia.
      * intros i Hi. rewrite Hsz1. destruct (Z.eqb_spec (i + 1) (zlen u + zlen q)); [lia|].
        unfold size_at. simpl. rewrite !at_app, !at_cons, !at_app.
        bool_cases; simpl; try lia. by replace (i + 1 - zlen u - 1) with (i - zlen u) by lia.
      * intros i Hi. rewrite Hsz1. destruct (Z.eqb_spec i (zlen u + zlen q)); [lia|].
        unfold size_at. simpl. rewrite !at_app, !at_cons, !at_app.
        bool_cases; simpl; try lia; try done. by replace (i - zlen u - zlen q - 1) with (i - zlen u - 1 - zlen q) by lia.
    + assert (0 < zlen q) by (destruct q; [done|zlen]). lia.
    + rewrite HW1, Hs1. lia.
    + exists m2. split_and!; [done|done|done|]. split; congruence.
Qed.

Lemma place_ok m n (u w : list Z) x :
  valid m (mkSizeView n (u ++ 0 :: w)) → zlen u < size m * AggregateWidth m →
  ∃ m1, adjustBlockSize m (zlen u) 0 x = Ok m1 ∧ valid m1 (mkSizeView n (u ++ x :: w)) ∧ same_shape m m1.
Proof.
  intros Hv Hb. destruct (slide_left_ok m n u [] w x) as (m1&m2&Ha&Hsh&Hv2&Hs); [done|zlen|].
  change (zlen []) with 0 in *. rewrite Z.add_0_r in *. destruct (adjustBlockSize_by m _ (zlen u) 0 x Hv)
    as (m1'&Ha'&_&[HW _]); [pose proof (zlen_nonneg u); lia|].
  rewrite Ha in Ha'. injection Ha' as <-. rewrite shiftLeft_none in Hsh; [by injection Hsh as ->; exists m2| |].
  - apply zlen_nonneg.
  - rewrite HW. by destruct Hv as [(?&_) _].
Qed.

Lemma slide_right_ok m n (u q w : list Z) x :
  valid m (mkSizeView n (u ++ q ++ 0 :: w)) → q ≠ [] → zlen u + zlen q < size m * AggregateWidth m →
  ∃ m1 m2, adjustBlockSize m (zlen u) 0 x = Ok m1 ∧
    shiftRight m1 (mkSizeView n (u ++ x :: q ++ w)) (zlen u + 1) (zlen u + zlen q) = Ok m2 ∧
    valid m2 (mkSizeView n (u ++ x :: q ++ w)) ∧ same_shape m m2.
Proof.
  intros Hv Hq Hb. set (sds := mkSizeView n _) in Hv. set (sds' := mkSizeView n (u ++ x :: q ++ w)).
  assert (0 < zlen q) by (destruct q; [done|zlen]). pose proof (zlen_nonneg u).
  destruct (adjustBlockSize_by m sds (zlen u) 0 x Hv) as (m1&Ha&Hv1&[HW1 Hs1]); [lia|].
  exists m1. set (sds1 := update_size sds _ _) in Hv1.
  assert (0 ≤ zlen u < zlen (sds_blockSizes sds)) as Hj by (simpl; zlen).
  assert (∀ i, size_at sds1 i = if i =? zlen u then size_at sds (zlen u) + x else size_at sds i) as Hsz1.
  { intros i. unfold sds1. rewrite size_at_update by done. bool_cases; lia. }
  destruct (shiftRight_onto_ok m1 sds1 sds' (zlen u + 1) (zlen u + zlen q)) as (m2&?&?&[HW2 Hs2]).
  - done.
  - split_and!.
    + unfold sds1, sds. simpl. rewrite zlen_zupd. zlen.
    + rewrite Hsz1. destruct (Z.eqb_spec (zlen u + zlen q) (zlen u)); [lia|].
      unfold size_at. simpl. rewrite !at_app, !at_cons. bool_cases; simpl; try lia; try done.
    + rewrite Z.add_simpl_r, Hsz1, Z.eqb_refl. unfold size_at. simpl. rewrite !at_app, !at_cons, !at_app.
      bool_cases; simpl; try lia. replace (zlen u + 1 - zlen u - 1) with (zlen u - zlen u) by lia. lia.
    + intros i Hi. rewrite Hsz1. destruct (Z.eqb_spec (i - 1) (zlen u)); [lia|].
      unfold size_at. simpl. rewrite !at_app, !at_cons, !at_app.
      bool_cases; simpl; try lia. by replace (i - 1 - zlen u) with (i - zlen u - 1) by lia.
    + intros i Hi. rewrite Hsz1. destruct (Z.eqb_spec i (zlen u)); [lia|].
      unfold size_at. simpl. rewrite !at_app, !at_cons, !at_app.
      bool_cases; simpl; try lia; try done. by replace (i - zlen u - 1 - zlen q) with (i - zlen u - zlen q - 1) by lia.
  - lia.
  - rewrite HW1, Hs1. lia.
  - exists m2. split_and!; [done|done|done|]. split; congruence.
Qed.
End manager.
