(* ===== verification/Float64.v ===== *)
(** * Double-precision arithmetic

    [double] is IEEE 754 binary64 with round to nearest even, as computed by the
    Standard Library's [SpecFloat] (no axioms); expressions are evaluated operation by
    operation, without contraction. *)

From Stdlib Require Import SpecFloat.
From S2P Require Export Prelude.
Definition double : Type := spec_float.

Definition dprec : Z := 53.
Definition demax : Z := 1024.

(** [static_cast<double>(z)]. *)
Definition to_double (z : Z) : double := binary_normalize dprec demax z 0 false.

Definition dadd (x y : double) : double := SFadd dprec demax x y.
Definition dsub (x y : double) : double := SFsub dprec demax x y.
Definition dmul (x y : double) : double := SFmul dprec demax x y.
Definition ddiv (x y : double) : double := SFdiv dprec demax x y.
Definition dltb (x y : double) : bool := SFltb x y.

(** [std::min(x, y)]. *)
Definition dmin (x y : double) : double := if dltb y x then y else x.

(** A decimal literal [n / d]: the double nearest to the quotient. *)
Definition literal (n d : Z) : double := ddiv (to_double n) (to_double d).

(** [static_cast<std::int64_t>(x)]: truncation, for values in range. *)
Definition to_int (x : double) : Z :=
  match x with
  | S754_finite s m e =>
      let a := if 0 <=? e then Z.shiftl (Z.pos m) e else Z.shiftr (Z.pos m) (- e) in
      if s then - a else a
  | _ => 0
  end.

(** Neither an infinity nor a NaN. *)
Definition is_finite (x : double) : bool :=
  match x with S754_zero _ | S754_finite _ _ _ => true | _ => false end.

(** [static_cast<std::uint64_t>(x)]: truncation; undefined for a value that the type does
    not have, an infinity or a NaN. *)
Definition to_uint64 (x : double) : result Z :=
  if is_finite x && (0 <=? to_int x) && (to_int x <? 2 ^ 64) then Ok (to_int x) else Err Undefined.

(** * Facts on double-precision arithmetic

    Rounding to nearest moves a product by less than one unit of its last place; so the
    product of an integer and a factor in [[1, 2)], truncated, is between the integer and
    its double (dataStructures/overallocatedBatchedSparseArray.hpp multiplies widths with
    the overallocation factor). *)

Lemma digits2_pos_bounds (p : positive) :
  2 ^ (Z.pos (digits2_pos p) - 1) ≤ Z.pos p < 2 ^ Z.pos (digits2_pos p).
Proof.
  assert (∀ d : positive, 2 ^ Z.pos (Pos.succ d) = 2 * 2 ^ Z.pos d ∧ 2 ^ (Z.pos (Pos.succ d) - 1) = 2 * 2 ^ (Z.pos d - 1)) as Hsucc.
  { intros d. rewrite <-!Z.pow_succ_r by lia. split; f_equal; lia. }
  induction p as [p IH|p IH|]; cbn [digits2_pos]; [destruct (Hsucc (digits2_pos p)) as [-> ->]; lia..|done].
Qed.

Lemma digits2_pos_unique (p : positive) (d : Z) : 2 ^ (d - 1) ≤ Z.pos p < 2 ^ d → 1 ≤ d → Z.pos (digits2_pos p) = d.
Proof.
  intros [Hlo Hhi] Hd. pose proof (digits2_pos_bounds p) as [H1 H2].
  assert (2 ^ (d - 1) < 2 ^ Z.pos (digits2_pos p)) as Ha by lia.
  assert (2 ^ (Z.pos (digits2_pos p) - 1) < 2 ^ d) as Hb by lia.
  apply Z.pow_lt_mono_r_iff in Ha; [|lia..]. apply Z.pow_lt_mono_r_iff in Hb; lia.
Qed.

(** ** Shifting out bits *)

Lemma shr_1_half r : 0 ≤ shr_m r → shr_m (shr_1 r) = shr_m r / 2.
Proof.
  destruct r as [m rb sb]. cbn [shr_m]. intros Hm. destruct m as [|[p|p|]|p]; [done| | |done|lia]; cbn.
  - rewrite Pos2Z.inj_xI, Z.mul_comm, Z.div_add_l by done. change (1 / 2) with 0. lia.
  - rewrite Pos2Z.inj_xO, Z.mul_comm, Z.div_mul by done. done.
Qed.

Lemma iter_pos_iter {A} (f : A → A) (n : positive) x : SpecFloat.iter_pos f n x = Nat.iter (Pos.to_nat n) f x.
Proof.
  revert x. induction n as [n IH|n IH|]; intros x; cbn [SpecFloat.iter_pos]; [| |done]; rewrite !IH, <-Nat.iter_add.
  - rewrite <-Nat.iter_succ_r. f_equal. lia.
  - f_equal. lia.
Qed.

Lemma shr_quotient r (e n : Z) : 0 ≤ shr_m r → 0 ≤ n → shr_m (shr r e n).1 = shr_m r / 2 ^ n ∧ (shr r e n).2 = e + n.
Proof.
  intros Hr Hn. destruct n as [|n|n]; [cbn [shr fst snd]; rewrite Z.div_1_r; lia| |lia]. cbn [shr fst snd]. split; [|done].
  rewrite iter_pos_iter, <-(positive_nat_Z n). set (k := Pos.to_nat n). clearbody k. clear Hn n e.
  assert (0 ≤ shr_m (Nat.iter k shr_1 r) ∧ shr_m (Nat.iter k shr_1 r) = shr_m r / 2 ^ Z.of_nat k) as [_ ?]; [|done].
  induction k as [|k [IH1 IH2]]; [by rewrite Z.div_1_r|]. change (Nat.iter (S k) shr_1 r) with (shr_1 (Nat.iter k shr_1 r)).
  rewrite shr_1_half by done. split; [by apply Z.div_pos|].
  rewrite IH2, Z.div_div by lia. f_equal. rewrite Nat2Z.inj_succ, Z.pow_succ_r by lia. lia.
Qed.

(** ** Rounding *)

Lemma round_nearest_even_bounds m l : m ≤ round_nearest_even m l ≤ m + 1.
Proof. destruct l as [|[]]; cbn; try destruct (Z.even m); lia. Qed.

(** A mantissa of at least 53 digits is cut after 53 of them, up or down. *)
Lemma binary_round_aux_ok (m : positive) (e n : Z) :
  0 ≤ n → 2 ^ (n + 52) ≤ Z.pos m < 2 ^ (n + 53) → -1074 ≤ e + n → e + n + 1 ≤ 971 →
  ∃ (m' : positive) k, binary_round_aux dprec demax false (Z.pos m) e loc_Exact = S754_finite false m' (e + n + k) ∧
    0 ≤ k ∧ Z.pos m / 2 ^ n ≤ Z.pos m' * 2 ^ k ≤ Z.pos m / 2 ^ n + 1 ∧ (n = 0 → Z.pos m' = Z.pos m ∧ k = 0).
Proof.
  intros Hn Hm Hlo Hhi. assert (Z.pos (digits2_pos m) = n + 53) as Hd.
  { apply digits2_pos_unique; [|lia]. by replace (n + 53 - 1) with (n + 52) by lia. }
  unfold binary_round_aux, shr_fexp. cbn [Zdigits2]. rewrite Hd.
  assert (fexp dprec demax (n + 53 + e) - e = n) as -> by (unfold fexp, emin, dprec, demax; lia).
  set (rec := shr_record_of_loc (Z.pos m) loc_Exact).
  destruct (shr_quotient rec e n) as [Hq He]; [done|done|]. change (shr_m rec) with (Z.pos m) in Hq.
  assert (n = 0 → round_nearest_even (shr_m (shr rec e n).1) (loc_of_shr_record (shr rec e n).1) = Z.pos m) as Hexact by (by intros ->).
  destruct (shr rec e n) as [r e1]. cbn [fst snd] in Hq, He, Hexact. subst e1.
  pose proof (round_nearest_even_bounds (shr_m r) (loc_of_shr_record r)) as Hround. rewrite Hq in *.
  set (x := round_nearest_even _ _) in *.
  assert (2 ^ 52 ≤ Z.pos m / 2 ^ n < 2 ^ 53) as Ha.
  { rewrite !Z.pow_add_r in Hm by lia. assert (0 < 2 ^ n) by (apply Z.pow_pos_nonneg; lia).
    split; [apply Z.div_le_lower_bound; lia|apply Z.div_lt_upper_bound; lia]. }
  assert (0 < x) as Hx by (unfold x in *; lia). destruct x as [|q|q] eqn:Hxq; [lia| |lia].
  cbn [Zdigits2 shr_record_of_loc]. destruct (Z.eq_dec (Z.pos q) (2 ^ 53)) as [Hq53|Hq53].
  - (* a carry into the next digit *)
    rewrite (digits2_pos_unique q 54) by (try done; change (54 - 1) with 53; change (2 ^ 54) with (2 * 2 ^ 53); lia).
    assert (fexp dprec demax (54 + (e + n)) - (e + n) = 1) as -> by (unfold fexp, emin, dprec, demax; lia).
    destruct (shr_quotient (Build_shr_record (Z.pos q) false false) (e + n) 1) as [Hq2 He2]; [done|done|].
    destruct (shr _ (e + n) 1) as [r2 e2]. cbn [fst snd] in Hq2, He2. subst e2. rewrite Hq2. cbn [shr_m]. rewrite Hq53.
    change (2 ^ 53 / 2 ^ 1) with (Z.pos 4503599627370496). change (demax - dprec) with 971.
    destruct (Z.leb_spec (e + n + 1) 971); [|lia]. eexists _, 1. split; [done|]. change (Z.pos 4503599627370496 * 2 ^ 1) with (2 ^ 53).
    split; [lia|]. split; [lia|]. intros Hn0. specialize (Hexact Hn0). subst n. rewrite Z.div_1_r in Ha. lia.
  - rewrite (digits2_pos_unique q 53) by (try done; change (53 - 1) with 52; lia).
    assert (fexp dprec demax (53 + (e + n)) - (e + n) = 0) as -> by (unfold fexp, emin, dprec, demax; lia).
    cbn [shr shr_m]. change (demax - dprec) with 971. destruct (Z.leb_spec (e + n) 971); [|lia].
    exists q, 0. rewrite Z.add_0_r, Z.mul_1_r. split; [done|]. split; [lia|]. split; [lia|]. intros Hn0. by rewrite <-(Hexact Hn0).
Qed.

(** ** Integers *)

Lemma shl_align_ok (m : positive) (e n : Z) :
  0 ≤ n → shl_align m e (e - n) = (Z.to_pos (Z.pos m * 2 ^ n), e - n).
Proof.
  intros Hn. unfold shl_align. replace (e - n - e) with (- n) by lia. destruct n as [|n|n]; [| |lia].
  - cbn [Z.opp]. rewrite Z.sub_0_r, Z.mul_1_r. done.
  - assert (0 < 2 ^ Z.pos n) as Hpow by (apply Z.pow_pos_nonneg; lia).
    pose proof (shift_pos_correct n m) as Hshift. rewrite Z.pow_pos_fold in Hshift.
    change (shift_pos n m) with (Pos.iter xO m n) in Hshift. cbn [Z.opp]. f_equal. apply Pos2Z.inj.
    rewrite Z2Pos.id by nia. lia.
Qed.

(** An integer of at most 53 bits is exact. *)
Lemma to_double_ok (p : positive) (d : Z) :
  d = Z.pos (digits2_pos p) → d ≤ 53 →
  ∃ m : positive, to_double (Z.pos p) = S754_finite false m (d - 53) ∧ Z.pos m = Z.pos p * 2 ^ (53 - d).
Proof.
  intros Hd Hle. unfold to_double. cbn [binary_normalize]. unfold binary_round. rewrite <-Hd, Z.add_0_r.
  assert (fexp dprec demax d = 0 - (53 - d)) as -> by (unfold fexp, emin, dprec, demax; lia).
  rewrite shl_align_ok by lia. pose proof (digits2_pos_bounds p) as Hb. rewrite <-Hd in Hb.
  assert (0 < 2 ^ (53 - d)) as Hpow by (apply Z.pow_pos_nonneg; lia).
  assert (Z.pos (Z.to_pos (Z.pos p * 2 ^ (53 - d))) = Z.pos p * 2 ^ (53 - d)) as Hm by (rewrite Z2Pos.id by nia; done).
  set (m := Z.to_pos _) in *. replace (0 - (53 - d)) with (d - 53) by lia.
  destruct (binary_round_aux_ok m (d - 53) 0) as (m'&k&Hr&_&_&Hexact); [lia| |lia|lia|].
  - rewrite Hm. change (0 + 52) with 52. change (0 + 53) with 53.
    replace (2 ^ 52) with (2 ^ (d - 1) * 2 ^ (53 - d)) by (rewrite <-Z.pow_add_r by lia; f_equal; lia).
    replace (2 ^ 53) with (2 ^ d * 2 ^ (53 - d)) by (rewrite <-Z.pow_add_r by lia; f_equal; lia). nia.
  - destruct Hexact as [Hm' ->]; [done|]. exists m'. rewrite Hr, Hm'. split; [|done]. do 2 f_equal. lia.
Qed.

(** Truncation of a positive value. *)
Lemma to_int_bounds (m : positive) (e k lo hi : Z) :
  0 ≤ k → (e ≤ 0 → lo * 2 ^ (- e) ≤ Z.pos m * 2 ^ k ≤ hi * 2 ^ (- e)) → (0 < e → lo ≤ Z.pos m * 2 ^ k * 2 ^ e ≤ hi) →
  lo ≤ to_int (S754_finite false m (e + k)) ≤ hi.
Proof.
  intros Hk Hneg Hpos. assert (∀ x : Z, 0 ≤ x → 0 < 2 ^ x) as Hpow by (intros; by apply Z.pow_pos_nonneg).
  cbn [to_int]. destruct (Z.leb_spec 0 (e + k)) as [He|He].
  - rewrite Z.shiftl_mul_pow2 by done. destruct (Z.le_gt_cases e 0) as [Hle|Hgt].
    + specialize (Hneg Hle). replace k with (e + k + (- e)) in Hneg at 1 2 by lia. rewrite Z.pow_add_r, Z.mul_assoc in Hneg by lia.
      specialize (Hpow (- e) ltac:(lia)). nia.
    + specialize (Hpos Hgt). by rewrite (Z.add_comm e k), Z.pow_add_r, Z.mul_assoc by lia.
  - rewrite Z.shiftr_div_pow2 by lia. specialize (Hneg ltac:(lia)). replace (- e) with (- (e + k) + k) in Hneg by lia.
    rewrite Z.pow_add_r, !Z.mul_assoc in Hneg by lia. pose proof (Hpow k Hk). pose proof (Hpow (- (e + k)) ltac:(lia)). split.
    + apply Z.div_le_lower_bound; [done|]. nia.
    + apply Z.div_le_upper_bound; [done|]. nia.
Qed.

(** The product with a factor in [[1, 2)]. *)
Lemma dmul_to_int (F : positive) (w : Z) :
  2 ^ 52 ≤ Z.pos F < 2 ^ 53 → 0 ≤ w < 2 ^ 53 →
  w ≤ to_int (dmul (S754_finite false F (-52)) (to_double w)) ≤ 2 * w.
Proof.
  intros HF Hw. destruct w as [|p|]; [done| |lia]. set (d := Z.pos (digits2_pos p)).
  pose proof (digits2_pos_bounds p) as Hb. fold d in Hb.
  assert (1 ≤ d ≤ 53) as Hd.
  { split; [lia|]. assert (2 ^ (d - 1) < 2 ^ 53) as Hlt by lia. apply Z.pow_lt_mono_r_iff in Hlt; lia. }
  destruct (to_double_ok p d) as (m&->&Hm); [done|lia|]. unfold dmul. cbn [SFmul xorb].
  assert (Z.pos (F * m) = Z.pos F * Z.pos m) as HP by done. set (P := (F * m)%positive) in *. rewrite Hm in HP.
  assert (0 < 2 ^ (53 - d)) as Hpow by (apply Z.pow_pos_nonneg; lia).
  assert (2 ^ 52 ≤ Z.pos p * 2 ^ (53 - d) < 2 ^ 53) as Hm'.
  { replace (2 ^ 52) with (2 ^ (d - 1) * 2 ^ (53 - d)) by (rewrite <-Z.pow_add_r by lia; f_equal; lia).
    replace (2 ^ 53) with (2 ^ d * 2 ^ (53 - d)) by (rewrite <-Z.pow_add_r by lia; f_equal; lia). nia. }
  set (q := Z.pos p * 2 ^ (53 - d)) in *.
  assert (∃ n, (n = 52 ∨ n = 53) ∧ 2 ^ (n + 52) ≤ Z.pos P < 2 ^ (n + 53)) as (n&Hn&HPn).
  { destruct (Z.lt_ge_cases (Z.pos P) (2 ^ 105)).
    - exists 52. split; [by left|]. change (2 ^ (52 + 52)) with (2 ^ 52 * 2 ^ 52). split; [nia|done].
    - exists 53. split; [by right|]. change (2 ^ (53 + 53)) with (2 ^ 53 * 2 ^ 53). split; [done|nia]. }
  destruct (binary_round_aux_ok P (-52 + (d - 53)) n) as (m'&k&->&Hk&Ha&_); [lia|done|lia..|].
  set (a := Z.pos P / 2 ^ n) in *.
  set (x := Z.pos m' * 2 ^ k) in *.
  assert (n = 52 → q ≤ a < 2 * q) as Ha52.
  { intros ->. split; [apply Z.div_le_lower_bound; nia|apply Z.div_lt_upper_bound; nia]. }
  assert (n = 53 → q ≤ 2 * a + 1 ∧ 2 ^ 52 ≤ a < q) as Ha53.
  { intros ->. pose proof (Z.mul_succ_div_gt (Z.pos P) (2 ^ 53) ltac:(done)).
    split; [unfold a; nia|]. split; [apply Z.div_le_lower_bound; [done|apply HPn]|apply Z.div_lt_upper_bound; nia]. }
  clearbody a. replace (-52 + (d - 53) + n + k) with (d - 105 + n + k) by lia.
  apply to_int_bounds; [done| |]; intros He; fold x; destruct Hn as [-> | ->].
  - replace (- (d - 105 + 52)) with (53 - d) by lia. rewrite <-Z.mul_assoc. fold q. lia.
  - replace (- (d - 105 + 53)) with (52 - d) by lia.
    assert (q = 2 * (Z.pos p * 2 ^ (52 - d))) as Hq.
    { unfold q. replace (53 - d) with (52 - d + 1) by lia. rewrite Z.pow_add_r by lia. lia. }
    rewrite <-Z.mul_assoc. lia.
  - lia.
  - assert (q = Z.pos p) as Hq by (unfold q; replace (53 - d) with 0 by lia; lia).
    replace (d - 105 + 53) with 1 by lia. change (2 ^ 1) with 2. lia.
Qed.
