(* ===== verification/ReferenceSet.v ===== *)
(** * The reference sets (dataStructures/simpleOrderedSet.hpp, simpleUnorderedSet.hpp)

    [std::set] and [std::unordered_set] behind a mutex, which the tests compare the sparse
    arrays with.  The content is a finite set of keys.  The order in which an unordered set
    is visited is up to the standard library and a parameter of the model.  Threads that
    share an unordered set are a step relation: each member function is a sequence of
    instructions that lock and unlock the mutex and access the content.  Not all of them
    lock, an access takes time, and what two accesses at the same time do to each other can
    be observed. *)

From S2P Require Export Prelude.

(** The order in which [std::unordered_set] is visited: every element once. *)
Class IterationOrder := {
  iterate : gset Z → list Z;
  iterate_elements : ∀ data, iterate data ≡ₚ elements data;
}.

Module SimpleUnorderedSet.
Section definitions.
Context `{I : IterationOrder}.
Implicit Types (data : gset Z) (e : Z).

(** The functions of one element. *)
Definition insert data e : gset Z := {[e]} ∪ data.
Definition remove data e : gset Z := data ∖ {[e]}.
Definition search data e : bool := bool_decide (e ∈ data).

Definition size data : Z := Z.of_nat (base.size data).
Definition numberOfElements data : Z := size data.

(** [begin] to [end]. *)
Definition visited data : list Z := iterate data.

(** [++i] on an [int]: signed overflow is undefined. *)
Definition INT_MAX : Z := 2 ^ 31 - 1.
Definition incrementInt (i : Z) : result Z := if i <? INT_MAX then Ok (i + 1) else Err Undefined.

(** The loop of [insertBatch] and [removeBatch]. *)
Definition forBatch (op : gset Z → Z → gset Z) (batch : list Z) (batchSize : Z) data : result (gset Z) :=
  for_range 0 batchSize
    (λ i data, e ← zget batch i; incrementInt i;; Ok (op data e)) data.

Definition insertBatch data (batch : list Z) (batchSize : Z) : result (gset Z) :=
  forBatch insert batch batchSize data.
Definition removeBatch data (batch : list Z) (batchSize : Z) : result (gset Z) :=
  forBatch remove batch batchSize data.

(** [rangeQuery]: the elements that the evaluator is applied to. *)
Definition rangeQuery data (lft rgt : Z) : list Z :=
  foldl (λ seen el, if (lft <=? el) && (el <? rgt) then seen ++ [el] else seen) [] (iterate data).

End definitions.
End SimpleUnorderedSet.

Module SimpleOrderedSet.

Definition insert (data : gset Z) (e : Z) : gset Z := {[e]} ∪ data.
Definition remove (data : gset Z) (e : Z) : gset Z := data ∖ {[e]}.
Definition search (data : gset Z) (e : Z) : bool := bool_decide (e ∈ data).
Definition size (data : gset Z) : Z := Z.of_nat (base.size data).

End SimpleOrderedSet.

(** ** Threads that share a set *)

Module SharedSet.
Section definitions.
Context `{I : IterationOrder}.

(** The accesses to [data], a [std::unordered_set]. *)
Inductive Access :=
| DataInsert (e : Z)
| DataErase (e : Z)
| DataFind (e : Z)
| DataSize
| DataIterate
| DataIterateRange (lft rgt : Z).

(** What an access returns. *)
Inductive Answer := Done | Found (b : bool) | Count (n : Z) | Visited (l : list Z).

(** The new content and the answer. *)
Definition perform (a : Access) (data : gset Z) : gset Z * Answer :=
  match a with
  | DataInsert e => (SimpleUnorderedSet.insert data e, Done)
  | DataErase e => (SimpleUnorderedSet.remove data e, Done)
  | DataFind e => (data, Found (SimpleUnorderedSet.search data e))
  | DataSize => (data, Count (SimpleUnorderedSet.size data))
  | DataIterate => (data, Visited (SimpleUnorderedSet.visited data))
  | DataIterateRange lft rgt => (data, Visited (SimpleUnorderedSet.rangeQuery data lft rgt))
  end.

Definition writes (a : Access) : bool :=
  match a with DataInsert _ | DataErase _ => true | _ => false end.

(** An access reads the content when it begins and has written it when it ends. *)
Inductive Instruction := Lock | Begin (a : Access) | End | Unlock.

(** The member functions.  A [std::scoped_lock] unlocks at the end of the function. *)
Definition insert (e : Z) : list Instruction := [Lock; Begin (DataInsert e); End; Unlock].
Definition remove (e : Z) : list Instruction := [Lock; Begin (DataErase e); End; Unlock].
Definition search (e : Z) : list Instruction := [Lock; Begin (DataFind e); End; Unlock].
Definition size : list Instruction := [Begin DataSize; End].
Definition begin_to_end : list Instruction := [Begin DataIterate; End].
Definition insertBatch (batch : list Z) : list Instruction := e ← batch; insert e.
Definition removeBatch (batch : list Z) : list Instruction := e ← batch; remove e.
Definition numberOfElements : list Instruction := [Begin DataSize; End].
Definition rangeQuery (lft rgt : Z) : list Instruction := [Begin (DataIterateRange lft rgt); End].

Inductive Call :=
| Insert (e : Z)
| Remove (e : Z)
| Search (e : Z)
| InsertBatch (batch : list Z)
| RemoveBatch (batch : list Z)
| Size
| NumberOfElements
| BeginToEnd
| RangeQuery (lft rgt : Z).

Definition body (call : Call) : list Instruction :=
  match call with
  | Insert e => insert e
  | Remove e => remove e
  | Search e => search e
  | InsertBatch batch => insertBatch batch
  | RemoveBatch batch => removeBatch batch
  | Size => size
  | NumberOfElements => numberOfElements
  | BeginToEnd => begin_to_end
  | RangeQuery lft rgt => rangeQuery lft rgt
  end.

(** A thread: the instructions it still has to run, the access that it is in with the content
    that it has read, and the answers so far. *)
Record Thread := mkThread {
  code : list Instruction;
  current : option (Access * gset Z);
  answers : list Answer;
}.

Record State := mkState {
  mutex : option nat;
  data : gset Z;
  threads : list Thread;
}.

(** One instruction of thread [i].  [Lock] waits until nobody holds the mutex, not even the
    thread itself; only the holder unlocks. *)
Inductive step : State → State → Prop :=
| step_lock i code answers data threads :
    threads !! i = Some (mkThread (Lock :: code) None answers) →
    step (mkState None data threads) (mkState (Some i) data (<[i := mkThread code None answers]> threads))
| step_begin i a code answers mutex data threads :
    threads !! i = Some (mkThread (Begin a :: code) None answers) →
    step (mkState mutex data threads)
      (mkState mutex data (<[i := mkThread code (Some (a, data)) answers]> threads))
| step_end i a seen code answers mutex data data' answer threads :
    threads !! i = Some (mkThread (End :: code) (Some (a, seen)) answers) →
    perform a seen = (data', answer) →
    step (mkState mutex data threads)
      (mkState mutex (if writes a then data' else data) (<[i := mkThread code None (answers ++ [answer])]> threads))
| step_unlock i code answers data threads :
    threads !! i = Some (mkThread (Unlock :: code) None answers) →
    step (mkState (Some i) data threads) (mkState None data (<[i := mkThread code None answers]> threads)).

(** The threads start with their code and a set that nobody has locked. *)
Definition start_code (data : gset Z) (codes : list (list Instruction)) : State :=
  mkState None data ((λ code, mkThread code None []) <$> codes).
Definition code_of (program : list Call) : list Instruction := call ← program; body call.
Definition start (data : gset Z) (programs : list (list Call)) : State :=
  start_code data (code_of <$> programs).

Definition finished (c : State) : Prop :=
  mutex c = None ∧ Forall (λ t, code t = [] ∧ current t = None) (threads c).

(** Two threads access the content at the same time, and one of them writes it. *)
Definition race (c : State) : Prop :=
  ∃ i j t u a b seen seen', i ≠ j ∧ threads c !! i = Some t ∧ threads c !! j = Some u ∧
    current t = Some (a, seen) ∧ current u = Some (b, seen') ∧ writes a = true.
End definitions.
End SharedSet.
