(* ===== verification/ReferenceSetFacts.v ===== *)
(** * Facts on the reference sets

    Batches are unions, a range query visits each element of its range once, and threads
    that share a set behave like one thread that runs their calls in some order. *)

From S2P Require Export ReferenceSet.

(** ** One thread *)

Section one_thread.
Context `{I : IterationOrder}.
Import SimpleUnorderedSet.
Implicit Types (data : gset Z) (batch : list Z).

Lemma forBatch_ok op batch data :
  zlen batch ≤ INT_MAX → forBatch op batch (zlen batch) data = Ok (foldl op data batch).
Proof.
  intros Hmax. unfold forBatch.
  cut (wp (for_range 0 (zlen batch) (λ i data, e ← zget batch i; incrementInt i;; Ok (op data e)) data)
    (λ d, d = foldl op data batch)).
  { by intros (?&->&->)%wp_returns. }
  apply (wp_for (λ i d, d = foldl op data (take (Z.to_nat i) batch))).
  - intros i d Hi ->. destruct (at_in_bound batch i Hi) as [e He]. rewrite (zget_at _ _ _ He). cbn [mbind result_bind].
    unfold incrementInt. destruct (Z.ltb_spec i INT_MAX); [|lia]. cbn [mbind result_bind wp].
    apply at_lookup in He as [_ He]. rewrite Z2Nat.inj_add by lia. change (Z.to_nat 1) with 1%nat.
    by rewrite Nat.add_1_r, (take_S_r _ _ e He), foldl_snoc.
  - done.
  - intros d ->. rewrite Z.max_r by apply zlen_nonneg. unfold zlen. by rewrite Nat2Z.id, firstn_all.
Qed.

Lemma foldl_insert batch data : foldl insert data batch = data ∪ list_to_set batch.
Proof.
  revert data. induction batch as [|e batch IH]; intros data; cbn [foldl list_to_set]; [set_solver|].
  rewrite IH. unfold insert. set_solver.
Qed.

Lemma foldl_remove batch data : foldl remove data batch = data ∖ list_to_set batch.
Proof.
  revert data. induction batch as [|e batch IH]; intros data; cbn [foldl list_to_set]; [set_solver|].
  rewrite IH. unfold remove. set_solver.
Qed.

Lemma rangeQuery_filter data (lft rgt : Z) : rangeQuery data lft rgt = filter (λ e, lft ≤ e < rgt) (iterate data).
Proof.
  unfold rangeQuery. assert (∀ l seen, foldl (λ seen el, if (lft <=? el) && (el <? rgt) then seen ++ [el] else seen) seen l =
    seen ++ filter (λ e, lft ≤ e < rgt) l) as Hfold; [|apply Hfold].
  induction l as [|e l IH]; intros seen; [by rewrite app_nil_r|]. cbn [foldl]. rewrite IH, filter_cons.
  destruct (decide (lft ≤ e < rgt)) as [He|He].
  - rewrite (proj2 (Z.leb_le _ _)), (proj2 (Z.ltb_lt _ _)) by lia. cbn [andb]. by rewrite <-app_assoc.
  - replace ((lft <=? e) && (e <? rgt)) with false; [done|]. symmetry. apply andb_false_iff. lia.
Qed.
End one_thread.

(** ** Threads *)

Import SharedSet.

Section threads.
Context `{I : IterationOrder}.

(** What a client sees of the functions that lock: operations on a mathematical set. *)
Inductive Operation := InsertOne (e : Z) | RemoveOne (e : Z) | SearchOne (e : Z).

Definition specification (op : Operation) (X : gset Z) : gset Z * Answer :=
  match op with
  | InsertOne e => (X ∪ {[e]}, Done)
  | RemoveOne e => (X ∖ {[e]}, Done)
  | SearchOne e => (X, Found (bool_decide (e ∈ X)))
  end.

Implicit Types (op : Operation) (d X : gset Z) (c : State) (i : nat) (t : Thread) (ops : list (list Operation)).
Implicit Types (history : list (nat * Operation)).

(** The calls that lock, and the operations that they consist of: a batch is inserted or
    removed element by element, with an [int] as index. *)
Definition locking (call : Call) : Prop :=
  match call with
  | Insert _ | Remove _ | Search _ => True
  | InsertBatch batch | RemoveBatch batch => zlen batch ≤ SimpleUnorderedSet.INT_MAX
  | _ => False
  end.

Definition operations_of (call : Call) : list Operation :=
  match call with
  | Insert e => [InsertOne e]
  | Remove e => [RemoveOne e]
  | Search e => [SearchOne e]
  | InsertBatch batch => InsertOne <$> batch
  | RemoveBatch batch => RemoveOne <$> batch
  | _ => []
  end.
Definition operations (program : list Call) : list Operation := call ← program; operations_of call.

(** One thread that runs operations of several: the final set, and the answers to [i]. *)
Definition replay X history : gset Z := foldl (λ X call, (specification call.2 X).1) X history.

Fixpoint answers_to i X history : list Answer :=
  match history with
  | [] => []
  | (j, op) :: history =>
      (if decide (j = i) then [(specification op X).2] else []) ++ answers_to i (specification op X).1 history
  end.

Definition calls_of i history : list Operation := (filter (λ call, call.1 = i) history).*2.

Lemma answers_to_snoc i X history j op :
  answers_to i X (history ++ [(j, op)]) =
    answers_to i X history ++ (if decide (j = i) then [(specification op (replay X history)).2] else []).
Proof.
  revert X. induction history as [|[k o] history IH]; intros X; cbn [answers_to app].
  - by rewrite app_nil_r.
  - by rewrite IH, app_assoc.
Qed.

Lemma calls_of_snoc i history j op :
  calls_of i (history ++ [(j, op)]) = calls_of i history ++ (if decide (j = i) then [op] else []).
Proof. unfold calls_of. rewrite filter_app, filter_cons, filter_nil, fmap_app. simpl. by destruct (decide (j = i)). Qed.

(** *** The code of calls that lock: one section after the other *)

Definition access_of op : Access :=
  match op with InsertOne e => DataInsert e | RemoveOne e => DataErase e | SearchOne e => DataFind e end.

Definition section (op : Operation) : list Instruction := [Lock; Begin (access_of op); End; Unlock].
Definition sections (l : list Operation) : list Instruction := op ← l; section op.

Lemma batch_sections (f : Z → Operation) (g : Z → list Instruction) (batch : list Z) :
  (∀ e, g e = section (f e)) → (e ← batch; g e) = sections (f <$> batch).
Proof.
  intros Hg. unfold sections. induction batch as [|e batch IH]; [done|]. rewrite fmap_cons, !bind_cons. by rewrite IH, Hg.
Qed.

Lemma body_sections call : locking call → body call = sections (operations_of call).
Proof. destruct call; try done; intros _; by apply batch_sections. Qed.

Lemma code_sections program : Forall locking program → code_of program = sections (operations program).
Proof.
  induction 1 as [|call program Hcall _ IH]; [done|]. unfold code_of, operations, sections in *. cbn.
  rewrite (body_sections call Hcall). unfold sections. rewrite bind_app. f_equal. exact IH.
Qed.

(** Each access does to the content what the specification says, and changes it only if it writes. *)
Lemma perform_specification op X : perform (access_of op) X = specification op X.
Proof.
  destruct op as [e|e|e]; cbn; unfold SimpleUnorderedSet.insert; [|done|done]. f_equal. set_solver.
Qed.

Lemma write_specification op X :
  (if writes (access_of op) then (specification op X).1 else X) = (specification op X).1.
Proof. by destruct op. Qed.

(** Where a thread is, with the operations it has not done yet: outside of the sections,
    before, in or behind the access of one.  Inside of a section it holds the mutex, and what
    it has read is still the content. *)
Inductive at_phase d : Thread → list Operation → bool → Prop :=
| at_outside l answers : at_phase d (mkThread (sections l) None answers) l false
| at_begin op l answers :
    at_phase d (mkThread (Begin (access_of op) :: End :: Unlock :: sections l) None answers) (op :: l) true
| at_end op l answers :
    at_phase d (mkThread (End :: Unlock :: sections l) (Some (access_of op, d)) answers) (op :: l) true
| at_unlock l answers : at_phase d (mkThread (Unlock :: sections l) None answers) l true.

(** Thread [i] has done the operations of [history] that are its own, and still has the others. *)
Record consistent X0 ops history c i t : Prop := {
  cs_phase : ∃ l holding, at_phase (data c) t l holding ∧ (mutex c = Some i ↔ holding = true) ∧
    ops !! i = Some (calls_of i history ++ l);
  cs_answers : answers t = answers_to i X0 history;
}.

Record reachable X0 ops c : Prop := {
  re_history : ∃ history, data c = replay X0 history ∧ Forall (λ call, (call.1 < length ops)%nat) history ∧
    ∀ i t, threads c !! i = Some t → consistent X0 ops history c i t;
  re_holder : ∀ i, mutex c = Some i → is_Some (threads c !! i);
  re_threads : length (threads c) = length ops;
}.

Lemma reachable_start d ops : reachable d ops (start_code d (sections <$> ops)).
Proof.
  split; cbn [start_code mutex data threads].
  - exists []. split; [done|]. split; [done|]. intros i t (p&->&Hp)%list_lookup_fmap_Some.
    apply list_lookup_fmap_Some in Hp as (l&->&Hl). split; [|done]. exists l, false. split; [constructor|by split].
  - done.
  - by rewrite !length_fmap.
Qed.

(** A thread that does not hold the mutex does not depend on the content. *)
Lemma at_phase_outside d d' t l : at_phase d t l false → at_phase d' t l false.
Proof. inversion 1; constructor. Qed.

Lemma sections_head l instruction code : sections l = instruction :: code →
  ∃ op l', l = op :: l' ∧ instruction = Lock ∧ code = Begin (access_of op) :: End :: Unlock :: sections l'.
Proof. destruct l as [|op l]; [done|]. intros [= <- <-]. by exists op, l. Qed.

(** What the next instruction of a thread tells of its phase, and the phase behind it. *)
Lemma phase_lock d code answers l holding : at_phase d (mkThread (Lock :: code) None answers) l holding →
  holding = false ∧ at_phase d (mkThread code None answers) l true.
Proof.
  inversion 1 as [l' a Hl| | |]; subst. apply sections_head in Hl as (op&l'&->&_&->). split; [done|]. apply at_begin.
Qed.

Lemma phase_begin d a code answers l holding : at_phase d (mkThread (Begin a :: code) None answers) l holding →
  holding = true ∧ at_phase d (mkThread code (Some (a, d)) answers) l true.
Proof.
  inversion 1 as [l' b Hl|op l' b| |]; subst; [by apply sections_head in Hl as (?&?&_&?&_)|]. split; [done|]. apply at_end.
Qed.

Lemma phase_end d a seen code answers l holding : at_phase d (mkThread (End :: code) (Some (a, seen)) answers) l holding →
  holding = true ∧ ∃ op l', l = op :: l' ∧ a = access_of op ∧ seen = d ∧
    ∀ d' answer, at_phase d' (mkThread code None (answers ++ [answer])) l' true.
Proof.
  inversion 1 as [| |op l' b|]; subst. split; [done|]. exists op, l'. split_and!; try done. intros d' answer. apply at_unlock.
Qed.

Lemma phase_unlock d code answers l holding : at_phase d (mkThread (Unlock :: code) None answers) l holding →
  holding = true ∧ at_phase d (mkThread code None answers) l false.
Proof.
  inversion 1 as [l' b Hl| | |]; subst; [by apply sections_head in Hl as (?&?&_&?&_)|]. split; [done|]. apply at_outside.
Qed.

(** The other threads when the mutex or the content changes: none of them holds the mutex. *)
Lemma consistent_others X0 ops history c c' i t :
  consistent X0 ops history c i t → mutex c ≠ Some i → mutex c' ≠ Some i → consistent X0 ops history c' i t.
Proof.
  intros [(l&holding&Hp&Hm&Ho) Ha] Hn Hn'. split; [|done]. exists l, false. destruct holding; [by destruct Hn; apply Hm|].
  split; [by eapply at_phase_outside|]. by split.
Qed.

(** A new operation of another thread. *)
Lemma consistent_snoc X0 ops history c i j op t : j ≠ i →
  consistent X0 ops history c i t → consistent X0 ops (history ++ [(j, op)]) c i t.
Proof.
  intros Hne [Hp Ha]. split; [rewrite calls_of_snoc, decide_False by done; by rewrite app_nil_r|].
  rewrite answers_to_snoc, decide_False by done. by rewrite app_nil_r.
Qed.

(** Case analysis on the thread that is looked up after an update. *)
Ltac updated H := apply list_lookup_insert_Some in H as [(<-&<-&_)|[? H]].

Lemma reachable_step X0 ops c c' : reachable X0 ops c → step c c' → reachable X0 ops c'.
Proof.
  intros [(history&Hd&Hb&Hc) Hh Hlen] Hstep. destruct Hstep as [i code an dd ts Ht|i a code an m dd ts Ht|
    i a seen code an m dd dd' ans ts Ht Hperform|i code an dd ts Ht]; cbn [mutex data threads] in *;
    pose proof (lookup_lt_Some _ _ _ Ht) as Hlt; destruct (Hc i _ Ht) as [(l&holding&Hp&Hm&Ho) Ha];
    cbn [mutex data answers] in *.
  - (* lock *)
    apply phase_lock in Hp as [-> Hp]. split; cbn [mutex data threads]; [|intros j [= <-]|by rewrite length_insert].
    + exists history. split; [done|]. split; [done|]. intros j t Hj. updated Hj.
      * split; [|done]. exists l, true. by split_and!.
      * eapply consistent_others; [by apply Hc|done|]. cbn [mutex]. congruence.
    + rewrite list_lookup_insert_eq; [by eexists|exact Hlt].
  - (* begin *)
    apply phase_begin in Hp as [-> Hp]. split; cbn [mutex data threads]; [|intros j Hj|by rewrite length_insert].
    + exists history. split; [done|]. split; [done|]. intros j t Hj. updated Hj.
      * split; [|done]. exists l, true. by split_and!.
      * destruct (Hc j t Hj). by split.
    + apply lookup_lt_is_Some_2. rewrite length_insert. by apply lookup_lt_is_Some_1, Hh.
  - (* end *)
    apply phase_end in Hp as (->&op&l'&->&->&->&Hp). assert (m = Some i) as -> by by apply Hm.
    rewrite perform_specification in Hperform. pose proof (write_specification op dd) as Hw.
    rewrite Hperform in Hw. cbn [fst] in Hw.
    split; cbn [mutex data threads]; [|intros j [= <-]|by rewrite length_insert].
    + exists (history ++ [(i, op)]). split; [|split].
      * unfold replay. rewrite foldl_snoc. fold (replay X0 history). cbn [snd]. by rewrite <-Hd, Hw, Hperform.
      * apply Forall_app. split; [done|]. apply Forall_singleton. simpl. by rewrite <-Hlen.
      * intros j t Hj. updated Hj.
        -- split; [|by rewrite answers_to_snoc, decide_True, <-Hd, Hperform, Ha by done]. exists l', true.
           rewrite calls_of_snoc, decide_True, <-app_assoc by done. split_and!; [apply Hp|done..].
        -- apply consistent_snoc; [done|]. eapply consistent_others; [by apply Hc| |]; cbn [mutex]; congruence.
    + rewrite list_lookup_insert_eq; [by eexists|exact Hlt].
  - (* unlock *)
    apply phase_unlock in Hp as [-> Hp]. split; cbn [mutex data threads]; [|done|by rewrite length_insert].
    exists history. split; [done|]. split; [done|]. intros j t Hj. updated Hj.
    + split; [|done]. exists l, false. by split_and!.
    + eapply consistent_others; [by apply Hc| |done]. cbn [mutex]. congruence.
Qed.

Lemma start_sections d programs : Forall (Forall locking) programs →
  start d programs = start_code d (sections <$> (operations <$> programs)).
Proof.
  intros Hl. unfold start. f_equal. rewrite <-list_fmap_compose. apply list_fmap_ext.
  intros i program Hp. rewrite Forall_lookup in Hl. apply code_sections. by eapply Hl.
Qed.

Lemma sections_length ops : length (concat (sections <$> ops)) = (4 * length (concat ops))%nat.
Proof.
  assert (∀ l, length (sections l) = (4 * length l)%nat) as Hone.
  { induction l as [|op l IH]; [done|]. cbn in *. unfold sections in IH. rewrite IH. lia. }
  induction ops as [|l ops IH]; [done|]. rewrite fmap_cons. cbn [concat]. rewrite !length_app, IH, Hone. lia.
Qed.

Lemma reachable_steps d ops c : rtc step (start_code d (sections <$> ops)) c → reachable d ops c.
Proof.
  intros Hsteps. remember (start_code d _) as c0 eqn:Hc0. assert (reachable d ops c0) as Hr by (subst; apply reachable_start).
  clear Hc0. induction Hsteps as [|c0 c1 c Hstep _ IH]; [done|]. apply IH. by eapply reachable_step.
Qed.

(** At most one thread is in an access. *)
Lemma reachable_no_race d ops c : reachable d ops c → ¬ race c.
Proof.
  intros [(history&_&_&Hc) _ _] (i&j&t&u&a&b&seen&seen'&Hij&Ht&Hu&Hat&Hbu&_).
  assert (∀ k t a seen, threads c !! k = Some t → current t = Some (a, seen) → mutex c = Some k) as Hholds.
  { intros k v x s Hv Hx. destruct (Hc k v Hv) as [(l&holding&Hp&Hm&_) _]. apply Hm. destruct Hp; [discriminate Hx|reflexivity..]. }
  pose proof (Hholds _ _ _ _ Ht Hat). pose proof (Hholds _ _ _ _ Hu Hbu). congruence.
Qed.

(** ** Progress *)

(** Each step is one instruction. *)
Definition total_code c : nat := sum_list ((λ t, length (code t)) <$> threads c).

Lemma sum_list_update (f : Thread → nat) (ts : list Thread) i t t' :
  ts !! i = Some t → (sum_list (f <$> <[i := t']> ts) + f t = sum_list (f <$> ts) + f t')%nat.
Proof.
  revert i. induction ts as [|u ts IH]; intros [|i] Ht; cbn in Ht |- *; [done|done| |].
  - injection Ht as ->. lia.
  - specialize (IH i Ht). cbn in IH. rewrite <-!Nat.add_assoc. f_equal. exact IH.
Qed.

Lemma step_code c c' : step c c' → total_code c = S (total_code c').
Proof.
  intros Hstep. unfold total_code.
  destruct Hstep as [i p an dd ts Ht|i a p an m dd ts Ht|i a seen p an m dd dd' ans ts Ht _|i p an dd ts Ht]; cbn [threads];
    match goal with |- context [<[i := ?t']> ts] => pose proof (sum_list_update (λ t, length (code t)) ts i _ t' Ht) as Hs end;
    cbn [code length] in Hs; lia.
Qed.

Lemma steps_code (n : nat) c c' : nsteps step n c c' → total_code c = (n + total_code c')%nat.
Proof. induction 1 as [|n c c1 c' Hstep _ IH]; [done|]. rewrite (step_code _ _ Hstep), IH. lia. Qed.

Lemma total_start d (codes : list (list Instruction)) : total_code (start_code d codes) = length (concat codes).
Proof.
  unfold total_code, start_code. cbn [threads]. induction codes as [|p codes IH]; [done|].
  cbn [fmap list_fmap sum_list sum_list_with concat] in *. rewrite length_app. cbn [code]. unfold id in *. lia.
Qed.

Lemma no_code c t : total_code c = 0%nat → t ∈ threads c → code t = [].
Proof.
  unfold total_code. induction (threads c) as [|u ts IH]; [by intros _ ?%elem_of_nil|].
  change (length (code u) + sum_list ((λ t, length (code t)) <$> ts) = 0 → t ∈ u :: ts → code t = [])%nat.
  intros H0 [->|Hin]%elem_of_cons; [apply length_zero_iff_nil|apply IH; [|done]]; lia.
Qed.

Lemma finished_code d ops c : reachable d ops c → finished c ↔ total_code c = 0%nat.
Proof.
  intros [(history&_&_&Hc) Hh _]. split.
  - clear Hc Hh. intros [_ Ht]. unfold total_code. induction Ht as [|t ts [Hp _] _ IH]; [done|].
    change (length (code t) + sum_list ((λ t, length (code t)) <$> ts) = 0)%nat. rewrite Hp. exact IH.
  - intros H0. assert (∀ i t, threads c !! i = Some t → current t = None ∧ mutex c ≠ Some i) as Hout.
    { intros i t Ht. assert (code t = []) as Hnil by (eapply no_code; [done|by eapply list_elem_of_lookup_2]).
      destruct (Hc i t Ht) as [(l&holding&Hp&Hm&_) _]. destruct Hp; try done. split; [done|]. by intros ?%Hm. }
    split.
    + destruct (mutex c) as [i|] eqn:Hmutex; [|done]. destruct (Hh i eq_refl) as [t Ht]. by destruct (Hout i t Ht).
    + apply Forall_lookup. intros i t Ht. split; [eapply no_code; [done|by eapply list_elem_of_lookup_2]|]. by eapply Hout.
Qed.

(** The holder of the mutex, or else any thread that has not finished, can go on. *)
Lemma reachable_progress d ops c : reachable d ops c → finished c ∨ ∃ c', step c c'.
Proof.
  intros Hr. pose proof Hr as [(history&_&_&Hc) Hh _]. destruct (mutex c) as [i|] eqn:Hmutex.
  - right. destruct (Hh i eq_refl) as [t Ht]. destruct (Hc i t Ht) as [(l&holding&Hp&Hm&_) _].
    assert (holding = true) as -> by by apply Hm. destruct c as [m dd ts]. cbn [mutex data threads] in *. subst m.
    inversion Hp; subst; [by eexists; eapply step_begin| |by eexists; eapply step_unlock].
    eexists. eapply step_end; [done|]. apply surjective_pairing.
  - destruct (decide (total_code c = 0%nat)) as [H0|Hsome]; [left; by apply (finished_code d ops)|right].
    assert (∃ i t, threads c !! i = Some t ∧ code t ≠ []) as (i&t&Ht&Hne).
    { destruct (decide (Forall (λ t, code t = []) (threads c))) as [Hall|Hex].
      - destruct Hsome. unfold total_code. clear - Hall. induction Hall as [|t ts Ht _ IH]; [done|].
        change (length (code t) + sum_list ((λ t, length (code t)) <$> ts) = 0)%nat. rewrite Ht. exact IH.
      - apply not_Forall_Exists in Hex; [|apply _]. apply Exists_exists in Hex as (t&[i Ht]%list_elem_of_lookup&Hne).
        by exists i, t. }
    destruct (Hc i t Ht) as [(l&holding&Hp&Hm&_) _].
    assert (holding = false) as -> by (destruct holding; [|done]; destruct Hm as [_ Hm]; specialize (Hm eq_refl); congruence).
    destruct c as [m dd ts]. cbn [mutex data threads] in *. subst m. inversion Hp as [l' b| | |]; subst.
    destruct l as [|op l]; [by destruct Hne|].
    eexists. apply (step_lock i (Begin (access_of op) :: End :: Unlock :: sections l)). exact Ht.
Qed.

(** ** Whole executions *)

Lemma calls_of_elem i history op : op ∈ calls_of i history ↔ (i, op) ∈ history.
Proof.
  unfold calls_of. rewrite list_elem_of_fmap. split.
  - intros ([j o]&->&[Hj Hin]%list_elem_of_filter). cbn in *. by subst.
  - intros Hin. exists (i, op). split; [done|]. by apply list_elem_of_filter.
Qed.

(** A thread without code has done all of its operations. *)
Lemma consistent_done d ops history c i t :
  consistent d ops history c i t → code t = [] → current t = None → ops !! i = Some (calls_of i history).
Proof.
  intros [(l&holding&Hp&_&Ho) _] Hcode Hcur. destruct Hp as [l b| | |]; try done.
  destruct l; [|done]. by rewrite app_nil_r in Ho.
Qed.

(** When all threads have finished, the history has the operations of all programs. *)
Lemma history_complete d ops c history :
  length (threads c) = length ops → finished c → (∀ i t, threads c !! i = Some t → consistent d ops history c i t) →
  Forall (λ call, (call.1 < length ops)%nat) history →
  ∀ op, op ∈ history.*2 ↔ op ∈ concat ops.
Proof.
  intros Hlen [_ Hfin] Hc Hbound op. rewrite Forall_lookup in Hfin. rewrite list_elem_of_fmap. rewrite Forall_forall in Hbound.
  assert (∀ i, (i < length ops)%nat → ops !! i = Some (calls_of i history)) as Hprog.
  { intros i Hi. rewrite <-Hlen in Hi. apply lookup_lt_is_Some_2 in Hi as [t Ht].
    destruct (Hfin i t Ht) as [Hcode Hcur]. by eapply consistent_done; [apply Hc|..]. }
  split.
  - intros ([i o]&->&Hin). pose proof (Hprog i (Hbound _ Hin)) as Hp. apply list_elem_of_In, in_concat.
    exists (calls_of i history). split; apply list_elem_of_In; [by eapply list_elem_of_lookup_2|by apply calls_of_elem].
  - intros Hin. apply list_elem_of_In, in_concat in Hin as (p&Hp&Hin). apply list_elem_of_In in Hp, Hin.
    apply list_elem_of_lookup in Hp as [i Hp]. pose proof (Hprog i (lookup_lt_Some _ _ _ Hp)) as Hp'.
    rewrite Hp in Hp'. injection Hp' as ->. apply calls_of_elem in Hin. by exists (i, op).
Qed.

(** The last operation on an element counts. *)
Lemma replay_kept X history e :
  RemoveOne e ∉ history.*2 → e ∈ X ∨ InsertOne e ∈ history.*2 → e ∈ replay X history.
Proof.
  revert X. induction history as [|[i op] history IH]; intros X; cbn; [intros _ [?|Hin]; [done|by apply elem_of_nil in Hin]|].
  intros [Hne Hrem]%not_elem_of_cons Hin. apply IH; [done|]. rewrite elem_of_cons in Hin.
  destruct op as [k|k|k]; cbn; [set_solver| |].
  - assert (k ≠ e) by congruence. destruct Hin as [?|[?|?]]; [set_solver|done|by right].
  - destruct Hin as [?|[?|?]]; [by left|done|by right].
Qed.

Lemma replay_gone X history e :
  InsertOne e ∉ history.*2 → e ∉ X ∨ RemoveOne e ∈ history.*2 → e ∉ replay X history.
Proof.
  revert X. induction history as [|[i op] history IH]; intros X; cbn; [intros _ [?|Hin]; [done|by apply elem_of_nil in Hin]|].
  intros [Hne Hins]%not_elem_of_cons Hin. apply IH; [done|]. rewrite elem_of_cons in Hin.
  destruct op as [k|k|k]; cbn.
  - assert (k ≠ e) by congruence. destruct Hin as [?|[?|?]]; [set_solver|done|by right].
  - set_solver.
  - destruct Hin as [?|[?|?]]; [by left|done|by right].
Qed.
End threads.
