(* ===== verification/Density.v ===== *)
(** * Density managers (dataStructures/densityManager.hpp) and the overallocation factor
    manager (dataStructures/overallocationFactorManager.hpp)

    [DensityManager] is the interface the rebalancing manager uses; the three density
    classes of the program are its instances. *)

From S2P Require Export Float64.

(** The template parameter DENSITY_MANAGER. *)
Class DensityManager := {
  maxDensity : Z → Z → double;
  minRangeLength : Z → Z;
}.

Module DensityOne.
Definition growingFactor : double := literal 18 10.
Definition tauMax : double := literal 9 10.
Definition deltaTau : double := dsub (to_double 1) tauMax.
Definition maxDensity (level height : Z) : double :=
  dsub (to_double 1) (ddiv (dmul deltaTau (to_double level)) (to_double height)).
Definition minRangeLength (numberOfBlocks : Z) : Z :=
  to_int (dmul (to_double numberOfBlocks) growingFactor).
End DensityOne.

Module DensityTwo.
Definition growingFactor : double := literal 12 10.
Definition tauMax : double := literal 9 10.
Definition deltaTau : double := dsub (to_double 1) tauMax.
Definition maxDensity (level height : Z) : double :=
  dsub (to_double 1) (ddiv (dmul deltaTau (to_double level)) (to_double height)).
Definition minRangeLength (numberOfBlocks : Z) : Z :=
  to_int (dmul (to_double numberOfBlocks) growingFactor).
End DensityTwo.

Module DensityThree.
Definition growingFactor : double := literal 18 10.
Definition tauMax : double := literal 7 10.
Definition deltaTau : double := dsub (to_double 1) tauMax.
Definition maxDensity (level height : Z) : double :=
  dsub (to_double 1) (ddiv (dmul deltaTau (to_double level)) (to_double height)).
Definition minRangeLength (numberOfBlocks : Z) : Z :=
  to_int (dmul (to_double numberOfBlocks) growingFactor).
End DensityThree.

Definition densityOne : DensityManager := {|
  maxDensity := DensityOne.maxDensity; minRangeLength := DensityOne.minRangeLength |}.
Definition densityTwo : DensityManager := {|
  maxDensity := DensityTwo.maxDensity; minRangeLength := DensityTwo.minRangeLength |}.
Definition densityThree : DensityManager := {|
  maxDensity := DensityThree.maxDensity; minRangeLength := DensityThree.minRangeLength |}.

Module OverallocationFactorManager.

Definition MinOverallocationFactor : double := literal 11 10.
Definition MaxOverallocationFactor : double := literal 28 10.
Definition InitialOverallocationFactor : double := MaxOverallocationFactor.
Definition MaxRelativeDifferencePerStep : double := literal 75 100.
Definition TargetNumberOfInPlaceInserts : Z := 500.

Record OverallocationFactorManager := mkManager {
  overallocationFactor : double;
  totalInPlaceInserts : Z;
  totalOutOfPlaceInserts : Z;
  currentInPlaceInserts : Z;
}.

Definition create : OverallocationFactorManager :=
  mkManager InitialOverallocationFactor 0 0 TargetNumberOfInPlaceInserts.

Definition registerInPlaceInsert (m : OverallocationFactorManager) : OverallocationFactorManager :=
  mkManager (overallocationFactor m) (totalInPlaceInserts m + 1) (totalOutOfPlaceInserts m)
    (currentInPlaceInserts m + 1).

(** [std::min(MaxRelativeDifferencePerStep, diff / TargetNumberOfInPlaceInserts)]. *)
Definition relativeDifference (diff : Z) : double :=
  dmin MaxRelativeDifferencePerStep (ddiv (to_double diff) (to_double TargetNumberOfInPlaceInserts)).

Definition getNewOverallocationFactor (m : OverallocationFactorManager)
    : OverallocationFactorManager * double :=
  let factor := overallocationFactor m in
  let newOverallocationFactor :=
    if currentInPlaceInserts m <? TargetNumberOfInPlaceInserts then
      let diff := TargetNumberOfInPlaceInserts - currentInPlaceInserts m in
      dadd factor (dmul (relativeDifference diff) (dsub MaxOverallocationFactor factor))
    else
      let diff := currentInPlaceInserts m - TargetNumberOfInPlaceInserts in
      dsub factor (dmul (relativeDifference diff) (dsub factor MinOverallocationFactor)) in
  (mkManager newOverallocationFactor (totalInPlaceInserts m) (totalOutOfPlaceInserts m + 1) 0,
   newOverallocationFactor).

End OverallocationFactorManager.
