(* ===== verification/Rebalancing.v ===== *)
(** * The binary rebalancing manager (dataStructures/binaryRebalancingManager.hpp)

    A complete binary tree of block counts over the segments of the pma.  Level 0 has
    [capacity] nodes of [AggregateWidth] pma entries each, level [logCapacity] is the
    root, and the super root above it stands for a rewrite of the whole array.  The tree
    is stored level by level in [aggregates], level [l] from [levelStarts[l]] on.

    The sparse array is seen through its [size], [empty] and [numberOfBufferBlocks]
    ([SdsView]); the nodes to recount and the list of nodes to rebalance belong to the
    sparse array and are passed in and out.  The visits of one level run in the order of
    the map's entries; RebalancingFacts.v shows what every order computes. *)

From S2P Require Export Keys Types BucketMap Density.
Import ConcurrentBucketMap (ConcurrentBucketMap, Hash).

(** The template parameter SEGMENT_WIDTH. *)
Class RebalancingConfig := { AggregateWidth : Z }.

(** What the manager reads of the sparse array. *)
Record SdsView := mkSdsView {
  view_size : Z;
  view_empty : Z → result bool;
  view_numberOfBufferBlocks : Z → result Z;
}.

Module BinaryRebalancingManager.
Section definitions.
Context `{T : SdsTypes} `{R : RebalancingConfig} `{D : DensityManager} `{H : Hash}.

(** BinaryRebalancingManagerEntry. *)
Record Entry := mkEntry { numberOfBlocks : Z; rebalanced : bool }.

Definition defaultEntry : Entry := mkEntry 0 false.

Record Manager := mkManager {
  aggregates : list Entry;
  levelStarts : list Z;
  levelAggregateWidths : list Z;
  size : Z;
  logCapacity : Z;
  logCapacityWithSuperRoot : Z;
  capacity : Z;
  nextLevelRecountingNodes : ConcurrentBucketMap;
  numberOfThreads : Z;
}.

Definition set_aggregates (m : Manager) (x : list Entry) : Manager :=
  mkManager x (levelStarts m) (levelAggregateWidths m) (size m) (logCapacity m)
    (logCapacityWithSuperRoot m) (capacity m) (nextLevelRecountingNodes m) (numberOfThreads m).
Definition set_levelInfo (m : Manager) (starts widths : list Z) : Manager :=
  mkManager (aggregates m) starts widths (size m) (logCapacity m)
    (logCapacityWithSuperRoot m) (capacity m) (nextLevelRecountingNodes m) (numberOfThreads m).
Definition set_size (m : Manager) (x : Z) : Manager :=
  mkManager (aggregates m) (levelStarts m) (levelAggregateWidths m) x (logCapacity m)
    (logCapacityWithSuperRoot m) (capacity m) (nextLevelRecountingNodes m) (numberOfThreads m).
Definition set_capacity (m : Manager) (log logSuper cap : Z) : Manager :=
  mkManager (aggregates m) (levelStarts m) (levelAggregateWidths m) (size m) log
    logSuper cap (nextLevelRecountingNodes m) (numberOfThreads m).
Definition set_nextLevel (m : Manager) (x : ConcurrentBucketMap) : Manager :=
  mkManager (aggregates m) (levelStarts m) (levelAggregateWidths m) (size m) (logCapacity m)
    (logCapacityWithSuperRoot m) (capacity m) x (numberOfThreads m).

Definition LogInitialArrayCapacity : Z := 14.
Definition InitialArrayCapacity : Z := 2 ^ LogInitialArrayCapacity.
Definition CapacityFactorForAllLevels : double := to_double 2.

(** [std::numeric_limits<SizeType>::max()]. *)
Definition maxSizeType : Z := 2 ^ 63 - 1.

(** ** Navigation *)

Definition lowestLevelNodeIndex (blockIndex : Z) : Z := blockIndex ÷ AggregateWidth.

Definition parent (node : Z) : Z := node ÷ 2.
Definition leftChild (node : Z) : Z := node * 2.
Definition rightChild (node : Z) : Z := node * 2 + 1.

Definition getBlockIndexLevelZero (aggregateIndex : Z) : Z := aggregateIndex * AggregateWidth.

Definition numberOfAggregatesInLevel (m : Manager) (level : Z) : result Z :=
  AssertMsg (level <=? logCapacityWithSuperRoot m);;
  if level =? 0 then Ok (capacity m) else
  w ← zget (levelAggregateWidths m) level;
  AssertMsg (Z.rem (capacity m * AggregateWidth) w =? 0);;
  Ok (capacity m ÷ w).

Definition aggregateIndex (m : Manager) (aggregateNumber level : Z) : result Z :=
  AssertMsg (level <=? logCapacityWithSuperRoot m);;
  start ← zget (levelStarts m) level;
  Ok (start + aggregateNumber).

(** [aggregateIndex(const RebalancingNode &)]. *)
Definition aggregateIndexOf (m : Manager) (node : RebalancingNode) : result Z :=
  aggregateIndex m (index node) (level node).

(** [AssertMsg(aggregateIndex(i, level) < 2 * capacity, "Invalid index")]. *)
Definition assertIndex (m : Manager) (i level : Z) : result unit :=
  if NDEBUG then Ok tt else (x ← aggregateIndex m i level; AssertMsg (x <? 2 * capacity m)).

(** [aggregates[aggregateIndex(i, level)]], read and written. *)
Definition node_at (m : Manager) (i level : Z) : result Entry :=
  x ← aggregateIndex m i level;
  zget (aggregates m) x.

Definition write_node (m : Manager) (i level : Z) (e : Entry) : result Manager :=
  x ← aggregateIndex m i level;
  a ← zset (aggregates m) x e;
  Ok (set_aggregates m a).

(** [aggregates[aggregateIndex(i, level)].numberOfBlocks], read and written. *)
Definition blocksOf (m : Manager) (i level : Z) : result Z :=
  e ← node_at m i level; Ok (numberOfBlocks e).

Definition setBlocksOf (m : Manager) (i level n : Z) : result Manager :=
  e ← node_at m i level;
  write_node m i level (mkEntry n (rebalanced e)).

(** [.rebalanced.store(b)]. *)
Definition storeRebalanced (m : Manager) (i level : Z) (b : bool) : result Manager :=
  e ← node_at m i level;
  write_node m i level (mkEntry (numberOfBlocks e) b).

(** [.rebalanced.compare_exchange_strong(notRebalanced, true)] with
    [notRebalanced = false]: whether the flag was raised by this call. *)
Definition raiseRebalanced (m : Manager) (i level : Z) : result (Manager * bool) :=
  e ← node_at m i level;
  if rebalanced e then Ok (m, false) else
  m ← write_node m i level (mkEntry (numberOfBlocks e) true);
  Ok (m, true).

(** ** Level information and resizing *)

(** [std::vector::resize]. *)
Definition vector_resize {A} (l : list A) (n : Z) (default : A) : list A :=
  take (Z.to_nat n) l ++ replicate (Z.to_nat n - length l) default.

Definition recomputeLevelInfo (m : Manager) : result Manager :=
  let starts := vector_resize (levelStarts m) (logCapacityWithSuperRoot m + 1) 0 in
  let widths := vector_resize (levelAggregateWidths m) (logCapacityWithSuperRoot m + 1) 0 in
  '(starts, widths, currentStart, _, _) ←
    for_range 0 (logCapacity m + 1)
      (λ i '(starts, widths, currentStart, currentWidth, currentAggregateWidth),
         starts ← zset starts i currentStart;
         widths ← zset widths i currentAggregateWidth;
         Ok (starts, widths, currentStart + currentWidth, currentWidth ÷ 2,
             currentAggregateWidth * 2))
      (starts, widths, 0, capacity m, 1);
  starts ← zset starts (logCapacityWithSuperRoot m) currentStart;
  widths ← zset widths (logCapacityWithSuperRoot m) maxSizeType;
  Ok (set_levelInfo m starts widths).

Definition getSizeForCapacity (newCapacity : Z) : Z :=
  to_int (dmul CapacityFactorForAllLevels (to_double newCapacity)).

(** [BinaryRebalancingManager(pointer, numThreads)]. *)
Definition create (sdsSize numThreads : Z) : result Manager :=
  let m := mkManager
    (replicate (Z.to_nat (getSizeForCapacity InitialArrayCapacity)) defaultEntry) [] []
    0 LogInitialArrayCapacity (LogInitialArrayCapacity + 1) InitialArrayCapacity
    (ConcurrentBucketMap.create numThreads) numThreads in
  m ← recomputeLevelInfo m;
  let m := set_size m (lowestLevelNodeIndex sdsSize + 1) in
  AssertMsg (size m <=? capacity m);;
  Ok m.

(** The loop of [resize]: the capacity doubles until it exceeds [newSize]; the fuel
    bounds the number of doublings. *)
Definition growCapacity (newSize : Z) (m : Manager) : result Manager :=
  while (S (Z.to_nat (newSize + 1)))
    (λ m, Ok (capacity m <=? newSize))
    (λ m, Ok (set_capacity m (logCapacity m + 1) (logCapacityWithSuperRoot m + 1)
                (capacity m * 2))) m.

Definition resize (m : Manager) (newSdsSize : Z) : result Manager :=
  let newSize := lowestLevelNodeIndex newSdsSize + 1 in
  let sizeChanged := negb (newSize =? size m) in
  let m := set_size m newSize in
  if sizeChanged && (capacity m <? newSize) then
    m ← growCapacity newSize m;
    recomputeLevelInfo
      (set_aggregates m (replicate (Z.to_nat (getSizeForCapacity (capacity m))) defaultEntry))
  else Ok m.

(** ** Counting *)

(** [sds->empty(current) ? 0 : 1] plus [sds->numberOfBufferBlocks(current)], added up. *)
Definition countBlocks (sds : SdsView) (a b : Z) : result Z :=
  for_range a b
    (λ current n,
       e ← view_empty sds current;
       buf ← view_numberOfBufferBlocks sds current;
       Ok (n + (if e : bool then 0 else 1) + buf)) 0.

Definition aggregateNodeRangeLevelZero (sds : SdsView) (nodeIndex : Z) : result Z :=
  let effectivePmaSize := Z.max 1 (view_size sds) in
  countBlocks sds (getBlockIndexLevelZero nodeIndex)
    (Z.min effectivePmaSize (getBlockIndexLevelZero (nodeIndex + 1))).

Definition aggregateNodeHigherLevel (m : Manager) (index level : Z) : result Z :=
  assertIndex m (leftChild index) (level - 1);;
  assertIndex m (rightChild index) (level - 1);;
  l ← blocksOf m (leftChild index) (level - 1);
  r ← blocksOf m (rightChild index) (level - 1);
  Ok (0 + l + r).

(** Level 0 of [recompute]. *)
Definition recomputeLevelZero (m : Manager) (sds : SdsView) (sdsSize : Z) : result Manager :=
  n ← numberOfAggregatesInLevel m 0;
  for_range 0 n
    (λ i m,
       c ← countBlocks sds (getBlockIndexLevelZero i)
             (Z.min sdsSize (getBlockIndexLevelZero (i + 1)));
       AssertMsg (i <? 2 * capacity m);;
       setBlocksOf m i 0 c) m.

Definition recompute (m : Manager) (sds : SdsView) (sdsSize : Z) : result Manager :=
  m ← recomputeLevelZero m sds sdsSize;
  for_range 1 (logCapacity m + 1)
    (λ level m,
       n ← numberOfAggregatesInLevel m level;
       for_range 0 n
         (λ i m,
            c ← aggregateNodeHigherLevel m i level;
            assertIndex m i level;;
            setBlocksOf m i level c) m) m.

(** ** Updating after an insertion *)

(** [static_cast<IndexType>(maxDensity(level, logCapacity) * AggregateWidth * width)]. *)
Definition threshold (level logCapacity width : Z) : Z :=
  to_int (dmul (dmul (maxDensity level logCapacity) (to_double AggregateWidth)) (to_double width)).

(** The update of one node: the manager and the nodes to rebalance. *)
Definition updateNode (index level : Z) (needsRebalancing : bool) (newNumberOfBlocks : Z)
    (s : Manager * list RebalancingNode) : result (Manager * list RebalancingNode) :=
  let '(m, rebalancingNodes) := s in
  assertIndex m index level;;
  width ← zget (levelAggregateWidths m) level;
  let withinThreshold := newNumberOfBlocks <=? threshold level (logCapacity m) width in
  let rebalanceNode := needsRebalancing && withinThreshold in
  let rebalanceParent := needsRebalancing && negb withinThreshold in
  oldValue ← blocksOf m index level;
  AssertMsg ((newNumberOfBlocks <=? AggregateWidth * width) || needsRebalancing);;
  m ← (if negb (newNumberOfBlocks =? oldValue) || negb withinThreshold then
         m ← setBlocksOf m index level newNumberOfBlocks;
         next ← ConcurrentBucketMap.insert (nextLevelRecountingNodes m) (parent index)
                  rebalanceParent;
         Ok (set_nextLevel m next)
       else Ok m);
  if rebalanceNode then
    AssertMsg (negb rebalanceParent);;
    '(m, mustBeAdded) ← raiseRebalanced m index level;
    Ok (m, if mustBeAdded : bool then rebalancingNodes ++ [mkRebalancingNode level index]
           else rebalancingNodes)
  else Ok (m, rebalancingNodes).

Definition updateHigherLevel (level : Z) (recountingNodesMap : ConcurrentBucketMap)
    (s : Manager * list RebalancingNode) : result (Manager * list RebalancingNode) :=
  ConcurrentBucketMap.executeInParallel recountingNodesMap
    (λ s '(recountingNode, needsRebalancing),
       c ← aggregateNodeHigherLevel s.1 recountingNode level;
       updateNode recountingNode level needsRebalancing c s) s.

Definition updateLevelZero (sds : SdsView) (recountingNodesMap : ConcurrentBucketMap)
    (s : Manager * list RebalancingNode) : result (Manager * list RebalancingNode) :=
  ConcurrentBucketMap.executeInParallel recountingNodesMap
    (λ s '(recountingNode, needsRebalancing),
       c ← aggregateNodeRangeLevelZero sds recountingNode;
       updateNode recountingNode 0 needsRebalancing c s) s.

(** The loop over the higher levels.  [std::swap] exchanges the two maps before the new
    [nextLevelRecountingNodes] is cleared. *)
Definition updateLevels (m : Manager) (recountingNodesMap : ConcurrentBucketMap)
    (rebalancingNodes : list RebalancingNode)
    : result (Manager * ConcurrentBucketMap * list RebalancingNode) :=
  for_range 1 (logCapacity m + 1)
    (λ level '(m, map, nodes),
       let swapped := nextLevelRecountingNodes m in
       let m := set_nextLevel m (ConcurrentBucketMap.clear map) in
       '(m, nodes) ← updateHigherLevel level swapped (m, nodes);
       Ok (m, swapped, nodes)) (m, recountingNodesMap, rebalancingNodes).

(** Global rebalancing when the blocks exceed the root. *)
Definition updateSuperRoot (m : Manager) (rebalancingNodes : list RebalancingNode)
    : result (Manager * list RebalancingNode) :=
  totalNumberOfBlocks ← blocksOf m 0 (logCapacity m);
  width ← zget (levelAggregateWidths m) (logCapacity m);
  if AggregateWidth * width <? totalNumberOfBlocks then
    '(m, update) ← raiseRebalanced m 0 (logCapacity m + 1);
    AssertMsg update;;
    Ok (m, if update : bool then rebalancingNodes ++ [mkRebalancingNode (logCapacity m + 1) 0]
           else rebalancingNodes)
  else Ok (m, rebalancingNodes).

(** Returns the manager, [sds->recountingNodesMap] and [sds->rebalancingNodes]. *)
Definition update (m : Manager) (sds : SdsView) (recountingNodesMap : ConcurrentBucketMap)
    (rebalancingNodes : list RebalancingNode)
    : result (Manager * ConcurrentBucketMap * list RebalancingNode) :=
  '(m, nodes) ← updateLevelZero sds recountingNodesMap (m, rebalancingNodes);
  '(m, map, nodes) ← updateLevels m recountingNodesMap nodes;
  '(m, nodes) ← updateSuperRoot m nodes;
  Ok (m, map, nodes).

Definition assertAllRebalancingFlagsCleared (m : Manager) : result unit :=
  for_range 0 (logCapacityWithSuperRoot m + 1)
    (λ level _,
       n ← numberOfAggregatesInLevel m level;
       for_range 0 n
         (λ i _,
            assertIndex m i level;;
            if NDEBUG then Ok tt else (e ← node_at m i level; AssertMsg (negb (rebalanced e)))) tt) tt.

(** ** Rebalancing nodes and their ranges *)

Definition clearRebalancedFlag (m : Manager) (node : RebalancingNode) : result Manager :=
  assertIndex m (index node) (level node);;
  storeRebalanced m (index node) (level node) false.

(** The loop over the ancestors: [inr] when one is flagged. *)
Definition dominatingAncestor (m : Manager) (node : RebalancingNode) : result bool :=
  loop (S (Z.to_nat (logCapacityWithSuperRoot m + 1 - level node)))
    (λ '(lvl, idx),
       if lvl <=? logCapacityWithSuperRoot m then
         e ← node_at m idx lvl;
         if rebalanced e then Ok (inr true) else Ok (inl (lvl + 1, parent idx))
       else Ok (inr false))
    (level node + 1, parent (index node)).

Definition rebalancingNodeDominated (m : Manager) (node : RebalancingNode)
    : result (Manager * bool) :=
  (if NDEBUG then Ok tt else
     e ← node_at m (index node) (level node); AssertMsg (rebalanced e));;
  dominated ← dominatingAncestor m node;
  if dominated : bool then
    m ← storeRebalanced m (index node) (level node) false;
    Ok (m, true)
  else Ok (m, false).

Definition numberOfBlocksIn (m : Manager) (node : RebalancingNode) : result Z :=
  if level node =? logCapacityWithSuperRoot m then
    AssertMsg (index node =? 0);;
    blocksOf m 0 (level node - 1)
  else blocksOf m (index node) (level node).

Definition rebalancingRange (m : Manager) (node : RebalancingNode) : result Interval :=
  if level node =? logCapacityWithSuperRoot m then
    n ← blocksOf m 0 (logCapacity m);
    Ok (mkInterval 0 (minRangeLength n))
  else
    width ← zget (levelAggregateWidths m) (level node);
    let blocksPerAggregate := width * AggregateWidth in
    Ok (mkInterval (index node * blocksPerAggregate) ((index node + 1) * blocksPerAggregate)).

Definition getRebalancingTask (m : Manager) (node : RebalancingNode) : result RebalancingTask :=
  range ← rebalancingRange m node;
  n ← numberOfBlocksIn m node;
  Ok (mkRebalancingTask range n node).

(** The descent of [findBlockInRebalancingTask] to a node of level 0. *)
Definition descend (m : Manager) (node : RebalancingNode) (remainingBlocks : Z)
    : result (RebalancingNode * Z) :=
  while (S (Z.to_nat (level node)))
    (λ '(node, _), Ok (0 <? level node))
    (λ '(node, remaining),
       leftChildBlocks ← blocksOf m (leftChild (index node)) (level node - 1);
       let '(node', remaining') :=
         if leftChildBlocks <? remaining
         then (mkRebalancingNode (level node - 1) (rightChild (index node)),
               remaining - leftChildBlocks)
         else (mkRebalancingNode (level node - 1) (leftChild (index node)), remaining) in
       (if NDEBUG then Ok tt else
          n ← blocksOf m (index node') (level node'); AssertMsg (remaining' <=? n));;
       Ok (node', remaining'))
    (node, remainingBlocks).

(** The scan of a segment for the block with number [remainingBlocks]. *)
Definition scanSegment (sds : SdsView) (range : Interval) (remainingBlocks : Z)
    : result ExtendedPmaIndex :=
  loop (S (Z.to_nat (Interval.length range + 2)))
    (λ '(blockIndex, remaining),
       if 0 <=? remaining then
         if remaining =? 0 then
           AssertMsg (blockIndex <=? Interval.right range);;
           Ok (inr (mkExtendedPmaIndex blockIndex (-1)))
         else
           e ← view_empty sds blockIndex;
           let remaining := if e : bool then remaining else remaining - 1 in
           buf ← view_numberOfBufferBlocks sds blockIndex;
           if remaining <? buf then Ok (inr (mkExtendedPmaIndex blockIndex remaining))
           else
             AssertMsg (blockIndex + 1 <=? Interval.right range);;
             Ok (inl (blockIndex + 1, remaining - buf))
       else
         AssertMsg false;;
         Ok (inr (mkExtendedPmaIndex (-1) (-1))))
    (Interval.left range, remainingBlocks).

Definition findBlockInRebalancingTask (m : Manager) (sds : SdsView) (root : RebalancingNode)
    (blockNumber : Z) : result ExtendedPmaIndex :=
  node ← (if logCapacity m <? level root then
            AssertMsg (index root =? 0);;
            Ok (mkRebalancingNode (logCapacity m) (index root))
          else Ok root);
  n ← blocksOf m (index node) (level node);
  if n <? blockNumber then
    range ← rebalancingRange m node;
    Ok (mkExtendedPmaIndex (Interval.right range) (-1))
  else
    '(node, remainingBlocks) ← descend m node blockNumber;
    range ← rebalancingRange m node;
    (if NDEBUG then Ok tt else
       n ← blocksOf m (index node) (level node); AssertMsg (remainingBlocks <=? n));;
    scanSegment sds range remainingBlocks.

(** ** Validation *)

Definition validateLevelZero (m : Manager) (sds : SdsView) (sdsSize : Z) : result unit :=
  n ← numberOfAggregatesInLevel m 0;
  for_range 0 n
    (λ i _,
       c ← countBlocks sds (getBlockIndexLevelZero i)
             (Z.min sdsSize (getBlockIndexLevelZero (i + 1)));
       AssertMsg (i <? 2 * capacity m);;
       if NDEBUG then Ok tt else (x ← blocksOf m i 0; AssertMsg (c =? x))) tt.

Definition validate (m : Manager) (sds : SdsView) (sdsSize : Z) : result unit :=
  validateLevelZero m sds sdsSize;;
  for_range 1 (logCapacity m + 1)
    (λ level _,
       n ← numberOfAggregatesInLevel m level;
       for_range 0 n
         (λ i _,
            c ← aggregateNodeHigherLevel m i level;
            assertIndex m i level;;
            if NDEBUG then Ok tt else (x ← blocksOf m i level; AssertMsg (c =? x))) tt) tt.

Definition nodeFitsAllBlocks (m : Manager) (node : RebalancingNode) : result bool :=
  if logCapacity m <? level node then Ok true else
  n ← blocksOf m (index node) (level node);
  width ← zget (levelAggregateWidths m) (level node);
  let blocksFit := n <=? width in
  AssertMsg blocksFit;;
  Ok blocksFit.

End definitions.
End BinaryRebalancingManager.
