(* ===== verification/RebalancingFacts.v ===== *)
(** * The shape of the rebalancing tree and access to its nodes

    [shape m]: the level information describes a complete binary tree.  Under it, every
    access of the code to a node is an access to the functions [cnt] and [flg] of level
    and index, and different nodes are different cells of [aggregates]. *)

From S2P Require Export Rebalancing BlockMoves BucketMapFacts.
Import BinaryRebalancingManager.

Section facts.
Context `{T : SdsTypes} `{R : RebalancingConfig} `{D : DensityManager} `{H : ConcurrentBucketMap.Hash}.
Implicit Types (m : Manager) (l i : Z).

(** The first cell of level [l] in a tree with [2 ^ Lc] leaves. *)
Definition start_of (Lc l : Z) : Z := 2 ^ (Lc + 1) - 2 ^ (Lc + 1 - l).

Record shape m : Prop := {
  shape_log : 0 ≤ logCapacity m;
  shape_super : logCapacityWithSuperRoot m = logCapacity m + 1;
  shape_capacity : capacity m = 2 ^ logCapacity m;
  shape_aggregates : zlen (aggregates m) = 2 ^ (logCapacity m + 1);
  shape_starts : ∀ l, 0 ≤ l ≤ logCapacity m + 1 →
    at_ (levelStarts m) l = Some (start_of (logCapacity m) l);
  shape_widths : ∀ l, 0 ≤ l ≤ logCapacity m →
    at_ (levelAggregateWidths m) l = Some (2 ^ l);
}.

(** The nodes of level [l]; the super root counts as one node. *)
Definition node_in (Lc l i : Z) : Prop :=
  (0 ≤ l ≤ Lc ∧ 0 ≤ i < 2 ^ (Lc - l)) ∨ (l = Lc + 1 ∧ i = 0).

Definition cell m l i : Entry :=
  default defaultEntry (at_ (aggregates m) (start_of (logCapacity m) l + i)).
Definition cnt m l i : Z := numberOfBlocks (cell m l i).
Definition flg m l i : bool := rebalanced (cell m l i).

Lemma start_of_succ Lc l : 0 ≤ l ≤ Lc → start_of Lc (l + 1) = start_of Lc l + 2 ^ (Lc - l).
Proof.
  intros. unfold start_of. replace (Lc + 1 - (l + 1)) with (Lc - l) by lia.
  replace (Lc + 1 - l) with (Z.succ (Lc - l)) by lia. rewrite (Z.pow_succ_r 2 (Lc - l)) by lia. lia.
Qed.

Lemma start_of_mono Lc l l' : 0 ≤ l → l ≤ l' ≤ Lc + 1 → start_of Lc l ≤ start_of Lc l'.
Proof.
  intros. unfold start_of. assert (2 ^ (Lc + 1 - l') ≤ 2 ^ (Lc + 1 - l)); [|lia].
  apply Z.pow_le_mono_r; lia.
Qed.

Lemma node_end Lc l i : node_in Lc l i → l ≤ Lc → start_of Lc l + i < start_of Lc (l + 1).
Proof. intros [[? ?]|[? ?]] ?; [|lia]. rewrite start_of_succ by lia. lia. Qed.

Lemma start_of_nonneg Lc l : 0 ≤ l ≤ Lc + 1 → 0 ≤ start_of Lc l.
Proof.
  intros. unfold start_of. assert (2 ^ (Lc + 1 - l) ≤ 2 ^ (Lc + 1)); [|lia].
  apply Z.pow_le_mono_r; lia.
Qed.

Lemma node_cell_bound Lc l i :
  0 ≤ Lc → node_in Lc l i → 0 ≤ start_of Lc l + i < 2 ^ (Lc + 1).
Proof.
  intros HLc Hn. pose proof Hn as Hn'. destruct Hn' as [[Hl Hi]|[-> ->]].
  - pose proof (start_of_nonneg Lc l). pose proof (node_end Lc l i Hn).
    pose proof (start_of_mono Lc (l + 1) (Lc + 1)).
    assert (start_of Lc (Lc + 1) < 2 ^ (Lc + 1)); [|lia].
    unfold start_of. rewrite Z.sub_diag. simpl. lia.
  - unfold start_of. rewrite Z.sub_diag. assert (0 < 2 ^ (Lc + 1)) by (apply Z.pow_pos_nonneg; lia).
    simpl. lia.
Qed.

Lemma node_cell_inj Lc l i l' i' :
  node_in Lc l i → node_in Lc l' i' → start_of Lc l + i = start_of Lc l' + i' → l = l' ∧ i = i'.
Proof.
  intros Hn Hn' Heq.
  assert (∀ l i l' i', node_in Lc l i → node_in Lc l' i' → l < l' →
    start_of Lc l + i < start_of Lc l' + i') as Hlt.
  { clear. intros l i l' i' Hn Hn' Hlt.
    assert (0 ≤ l ≤ Lc) by (destruct Hn as [[? ?]|[? ?]], Hn' as [[? ?]|[? ?]]; lia).
    assert (l' ≤ Lc + 1 ∧ 0 ≤ i') by (destruct Hn' as [[? ?]|[? ?]]; lia).
    pose proof (node_end Lc l i Hn). pose proof (start_of_mono Lc (l + 1) l'). lia. }
  destruct (Z.lt_trichotomy l l') as [Hl|[->|Hl]].
  - specialize (Hlt _ _ _ _ Hn Hn' Hl). lia.
  - lia.
  - specialize (Hlt _ _ _ _ Hn' Hn Hl). lia.
Qed.

Lemma children_in Lc l i :
  node_in Lc l i → 1 ≤ l ≤ Lc →
  node_in Lc (l - 1) (leftChild i) ∧ node_in Lc (l - 1) (rightChild i).
Proof.
  intros [[Hl Hi]|[? ?]] Hl1; [|lia]. unfold leftChild, rightChild, node_in.
  assert (2 ^ (Lc - (l - 1)) = 2 * 2 ^ (Lc - l)) as Hpow.
  { replace (Lc - (l - 1)) with (Z.succ (Lc - l)) by lia. by rewrite Z.pow_succ_r by lia. }
  rewrite Hpow. split; left; lia.
Qed.

Lemma parent_in Lc l i : node_in Lc l i → l < Lc → node_in Lc (l + 1) (parent i).
Proof.
  intros [[Hl Hi]|[? ?]] Hl1; [|lia]. unfold parent, node_in. left. split; [lia|].
  replace (Lc - l) with (Z.succ (Lc - (l + 1))) in Hi by lia.
  rewrite Z.pow_succ_r in Hi by lia. rewrite Z.quot_div_nonneg by lia.
  Z.div_mod_to_equations. lia.
Qed.

Lemma aggregateIndex_ok m l i :
  shape m → node_in (logCapacity m) l i →
  aggregateIndex m i l = Ok (start_of (logCapacity m) l + i).
Proof.
  intros Hm Hn. unfold aggregateIndex. pose proof (shape_super m Hm).
  assert (0 ≤ l ≤ logCapacity m + 1).
  { pose proof (shape_log m Hm). destruct Hn as [[? ?]|[? ?]]; lia. }
  rewrite (assert_ok (l <=? logCapacityWithSuperRoot m)) by (apply Z.leb_le; lia).
  cbn [mbind result_bind]. by rewrite (zget_at _ _ _ (shape_starts m Hm l ltac:(lia))).
Qed.

Lemma cell_at m l i :
  shape m → node_in (logCapacity m) l i →
  at_ (aggregates m) (start_of (logCapacity m) l + i) = Some (cell m l i).
Proof.
  intros Hm Hn. unfold cell.
  destruct (at_in_bound (aggregates m) (start_of (logCapacity m) l + i)) as [e He].
  - rewrite (shape_aggregates m Hm). apply node_cell_bound; [apply Hm|done].
  - by rewrite He.
Qed.

Lemma node_at_ok m l i :
  shape m → node_in (logCapacity m) l i → node_at m i l = Ok (cell m l i).
Proof.
  intros Hm Hn. unfold node_at. rewrite (aggregateIndex_ok m l i) by done.
  cbn [mbind result_bind]. by rewrite (zget_at _ _ _ (cell_at m l i Hm Hn)).
Qed.

Lemma blocksOf_ok m l i :
  shape m → node_in (logCapacity m) l i → blocksOf m i l = Ok (cnt m l i).
Proof. intros Hm Hn. unfold blocksOf. by rewrite (node_at_ok m l i). Qed.

Lemma assertIndex_ok m l i :
  shape m → node_in (logCapacity m) l i → assertIndex m i l = Ok tt.
Proof.
  intros Hm Hn. unfold assertIndex. destruct NDEBUG; [done|].
  rewrite (aggregateIndex_ok m l i) by done. cbn [mbind result_bind]. apply assert_ok.
  apply Z.ltb_lt. rewrite (shape_capacity m Hm).
  pose proof (node_cell_bound _ _ _ (shape_log m Hm) Hn).
  pose proof (shape_log m Hm). rewrite Z.pow_add_r in * by lia. lia.
Qed.

(** What a write to the cell of a node does to the tree. *)
Definition wrote m m' l i (e : Entry) : Prop :=
  shape m' ∧ logCapacity m' = logCapacity m ∧
  nextLevelRecountingNodes m' = nextLevelRecountingNodes m ∧
  size m' = size m ∧
  cell m' l i = e ∧
  ∀ l' i', node_in (logCapacity m) l' i' → (l', i') ≠ (l, i) → cell m' l' i' = cell m l' i'.

Lemma write_node_ok m l i e :
  shape m → node_in (logCapacity m) l i →
  ∃ m', write_node m i l e = Ok m' ∧ wrote m m' l i e.
Proof.
  intros Hm Hn. unfold write_node. rewrite (aggregateIndex_ok m l i) by done.
  cbn [mbind result_bind]. pose proof (node_cell_bound _ _ _ (shape_log m Hm) Hn) as Hb.
  rewrite zset_in by (rewrite (shape_aggregates m Hm); done). cbn [mbind result_bind].
  eexists. split; [done|]. unfold wrote, cell. cbn [set_aggregates aggregates logCapacity
    nextLevelRecountingNodes size]. split_and!; [|done|done|done| |].
  - destruct Hm. split; simpl; try done. by rewrite zlen_zupd.
  - rewrite at_zupd_eq; [done|]. rewrite (shape_aggregates m Hm). done.
  - intros l' i' Hn' Hne. rewrite at_zupd_ne; [done|lia|]. intros Heq. apply Hne.
    destruct (node_cell_inj _ _ _ _ _ Hn Hn' Heq). congruence.
Qed.

Lemma setBlocksOf_ok m l i n :
  shape m → node_in (logCapacity m) l i →
  ∃ m', setBlocksOf m i l n = Ok m' ∧ wrote m m' l i (mkEntry n (flg m l i)).
Proof.
  intros Hm Hn. unfold setBlocksOf. rewrite (node_at_ok m l i) by done. by apply write_node_ok.
Qed.

Lemma storeRebalanced_ok m l i b :
  shape m → node_in (logCapacity m) l i →
  ∃ m', storeRebalanced m i l b = Ok m' ∧ wrote m m' l i (mkEntry (cnt m l i) b).
Proof.
  intros Hm Hn. unfold storeRebalanced. rewrite (node_at_ok m l i) by done. by apply write_node_ok.
Qed.

Lemma raiseRebalanced_ok m l i :
  shape m → node_in (logCapacity m) l i →
  ∃ m', raiseRebalanced m i l = Ok (m', negb (flg m l i)) ∧
    wrote m m' l i (mkEntry (cnt m l i) true).
Proof.
  intros Hm Hn. unfold raiseRebalanced. rewrite (node_at_ok m l i) by done.
  cbn [mbind result_bind]. unfold flg. destruct (rebalanced (cell m l i)) eqn:Hf.
  - exists m. split; [done|]. split_and!; try done. unfold cnt. destruct (cell m l i); simpl in *.
    by subst.
  - destruct (write_node_ok m l i (mkEntry (numberOfBlocks (cell m l i)) true)) as (m'&->&?); [done..|].
    exists m'. by split.
Qed.

Lemma set_nextLevel_shape m x : shape m → shape (set_nextLevel m x).
Proof. by intros []. Qed.

Lemma aggregateNodeHigherLevel_ok m l i :
  shape m → node_in (logCapacity m) l i → 1 ≤ l ≤ logCapacity m →
  aggregateNodeHigherLevel m i l =
    Ok (cnt m (l - 1) (leftChild i) + cnt m (l - 1) (rightChild i)).
Proof.
  intros Hm Hn Hl. destruct (children_in _ _ _ Hn Hl) as [Hn1 Hn2].
  unfold aggregateNodeHigherLevel. rewrite (assertIndex_ok m (l - 1) (leftChild i)) by done.
  rewrite (assertIndex_ok m (l - 1) (rightChild i)) by done. cbn [mbind result_bind].
  rewrite (blocksOf_ok m (l - 1) (leftChild i)), (blocksOf_ok m (l - 1) (rightChild i)) by done.
  done.
Qed.

Lemma numberOfAggregatesInLevel_ok m l :
  shape m → 0 ≤ l ≤ logCapacity m →
  numberOfAggregatesInLevel m l = Ok (2 ^ (logCapacity m - l)).
Proof.
  intros Hm Hl. unfold numberOfAggregatesInLevel.
  pose proof (shape_super m Hm). pose proof (shape_capacity m Hm) as Hc.
  rewrite (assert_ok (l <=? logCapacityWithSuperRoot m)) by (apply Z.leb_le; lia).
  cbn [mbind result_bind]. destruct (Z.eqb_spec l 0) as [->|Hl0].
  - by rewrite Hc, Z.sub_0_r.
  - rewrite (zget_at _ _ _ (shape_widths m Hm l Hl)). cbn [mbind result_bind].
    assert (capacity m = 2 ^ (logCapacity m - l) * 2 ^ l) as Hcap.
    { rewrite Hc, <-Z.pow_add_r by lia. f_equal. lia. }
    assert (2 ^ l ≠ 0) by (pose proof (Z.pow_pos_nonneg 2 l); lia).
    rewrite assert_ok; cycle 1.
    { rewrite Hcap. apply Z.eqb_eq.
      replace (2 ^ (logCapacity m - l) * 2 ^ l * AggregateWidth)
        with (2 ^ (logCapacity m - l) * AggregateWidth * 2 ^ l) by lia.
      by apply Z.rem_mul. }
    cbn [mbind result_bind]. rewrite Hcap. by rewrite Z.quot_mul.
Qed.

(** A visit of a list of entries, one after the other. *)
Lemma wp_foldl {St A} (I : list A → St → Prop) (f : St → A → result St) (es : list A) (s : St) :
  I [] s →
  (∀ before e after s, es = before ++ e :: after → I before s → wp (f s e) (I (before ++ [e]))) →
  wp (foldl (λ acc e, s ← acc; f s e) (Ok s) es) (I es).
Proof.
  intros HI Hstep.
  assert (∀ after before s, es = before ++ after → I before s →
    wp (foldl (λ acc e, s ← acc; f s e) (Ok s) after) (I es)) as Hgen; [|by apply (Hgen es [])].
  clear s HI. intros after. induction after as [|e after IH]; intros before s Hes HI; simpl.
  - by rewrite app_nil_r in Hes; subst.
  - specialize (Hstep before e after s Hes HI). destruct (f s e) as [s'|]; [|done].
    apply (IH (before ++ [e])); [by rewrite <-app_assoc|done].
Qed.
End facts.
