(* ===== verification/RebalancingUpdate.v ===== *)
(** * The update of the rebalancing tree after an insertion

    One pass over the recounting nodes of a level ([pass]) and the loop over the levels.
    [target] is the true block count of a node; after [update] every node has it. *)

From S2P Require Export RebalancingFacts.
Import BinaryRebalancingManager.
Import ConcurrentBucketMap (insert, entries, executeInParallel).

(** A density manager never asks for more blocks than fit into a node. *)
Class ThresholdLaw `{R : RebalancingConfig} `{D : DensityManager} : Prop :=
  threshold_fits : ∀ l Lc, 0 ≤ l ≤ Lc → Lc ≤ 60 →
    threshold l Lc (2 ^ l) ≤ AggregateWidth * 2 ^ l.

Section update.
Context `{T : SdsTypes} `{R : RebalancingConfig} `{D : DensityManager} `{H : ConcurrentBucketMap.Hash}.
Implicit Types (m : Manager) (l i : Z) (nodes : list RebalancingNode).

Definition within m l n : bool := n <=? threshold l (logCapacity m) (2 ^ l).

(** The set of flagged nodes is the list of nodes to rebalance. *)
Definition flags_match m nodes : Prop :=
  ∀ l i, node_in (logCapacity m) l i → flg m l i = true ↔ mkRebalancingNode l i ∈ nodes.

(** The recounting entry an updated node leaves for its parent. *)
Definition entry_after (old new : Z) (c : gmap Z bool) m l i (needs : bool) : gmap Z bool :=
  if negb (new =? old) || negb (within m l new)
  then spec_insert c (parent i) (needs && negb (within m l new)) else c.

(** Raising the flag of a node and adding the node to the list. *)
Definition with_node m nodes l i : list RebalancingNode :=
  if negb (flg m l i) then nodes ++ [mkRebalancingNode l i] else nodes.

Lemma raise_ok m nodes l i :
  shape m → node_in (logCapacity m) l i → flags_match m nodes →
  ∃ m', raiseRebalanced m i l = Ok (m', negb (flg m l i)) ∧
    shape m' ∧ logCapacity m' = logCapacity m ∧ nextLevelRecountingNodes m' = nextLevelRecountingNodes m ∧
    size m' = size m ∧ (∀ l' i', node_in (logCapacity m) l' i' → cnt m' l' i' = cnt m l' i') ∧
    flags_match m' (with_node m nodes l i) ∧
    (∀ nd, nd ∈ with_node m nodes l i ↔ nd ∈ nodes ∨ nd = mkRebalancingNode l i) ∧
    (NoDup nodes → NoDup (with_node m nodes l i)).
Proof.
  intros Hm Hn Hfl. destruct (raiseRebalanced_ok m l i Hm Hn) as (m'&->&(Hs&Hlog&Hnext&Hw&Hcell&Hother)).
  exists m'. assert (∀ nd, nd ∈ with_node m nodes l i ↔ nd ∈ nodes ∨ nd = mkRebalancingNode l i) as Hin.
  { intros nd. unfold with_node. destruct (flg m l i) eqn:Hf; simpl.
    - split; [by left|]. intros [?| ->]; [done|]. by apply Hfl.
    - by rewrite elem_of_app, list_elem_of_singleton. }
  split_and!; try done.
  - intros l' i' Hn'. unfold cnt. destruct (decide ((l', i') = (l, i))) as [[= -> ->]|Hne]; [by rewrite Hcell|by rewrite Hother].
  - intros l' i'. rewrite Hlog. intros Hn'. rewrite Hin. unfold flg.
    destruct (decide ((l', i') = (l, i))) as [[= -> ->]|Hne].
    + rewrite Hcell. split; [by right|done].
    + rewrite Hother by done. change (rebalanced (cell m l' i')) with (flg m l' i'). rewrite (Hfl l' i' Hn').
      split; [by left|]. intros [?|?]; [done|]. by simplify_eq.
  - unfold with_node. destruct (flg m l i) eqn:Hf; simpl; [done|]. intros Hnd. apply NoDup_app.
    split_and!; [done| |apply NoDup_singleton]. intros nd Hnd' ->%list_elem_of_singleton.
    apply (Hfl l i Hn) in Hnd'. congruence.
Qed.

(** Storing the new number of blocks of a node. *)
Definition storeCount m l i (needs : bool) n : result Manager :=
  if negb (n =? cnt m l i) || negb (within m l n)
  then m' ← setBlocksOf m i l n;
       next ← insert (nextLevelRecountingNodes m') (parent i) (needs && negb (within m l n));
       Ok (set_nextLevel m' next)
  else Ok m.

Lemma storeCount_ok m nodes l i needs n :
  shape m → wf (nextLevelRecountingNodes m) → node_in (logCapacity m) l i → flags_match m nodes →
  ∃ m', storeCount m l i needs n = Ok m' ∧
    shape m' ∧ logCapacity m' = logCapacity m ∧ wf (nextLevelRecountingNodes m') ∧
    contents (nextLevelRecountingNodes m') =
      entry_after (cnt m l i) n (contents (nextLevelRecountingNodes m)) m l i needs ∧
    cnt m' l i = n ∧
    (∀ l' i', node_in (logCapacity m) l' i' → (l', i') ≠ (l, i) → cnt m' l' i' = cnt m l' i') ∧
    flags_match m' nodes ∧ size m' = size m.
Proof.
  intros Hm Hwf Hn Hfl. unfold storeCount, entry_after.
  destruct (negb (n =? cnt m l i) || negb (within m l n)) eqn:Hcase.
  - destruct (setBlocksOf_ok m l i n) as (m1&->&(Hs&Hlog&Hnext&Hw&Hcell&Hother)); [done..|].
    cbn [mbind result_bind].
    destruct (insert_refines (nextLevelRecountingNodes m1) (parent i) (needs && negb (within m l n)))
      as (x&->&Hx&Hxc); [by rewrite Hnext|]. cbn [mbind result_bind].
    exists (set_nextLevel m1 x). split_and!; [done|by apply set_nextLevel_shape|done|done| | | | |done].
    + simpl. by rewrite Hxc, Hnext.
    + unfold cnt, cell in *. simpl. by rewrite Hcell.
    + intros l' i' Hn' Hne. change (cnt m1 l' i' = cnt m l' i'). unfold cnt. by rewrite Hother.
    + intros l' i'. change (flg (set_nextLevel m1 x) l' i') with (flg m1 l' i'). simpl. rewrite Hlog. intros Hn'.
      rewrite <-(Hfl l' i' Hn'). unfold flg. destruct (decide ((l', i') = (l, i))) as [[= -> ->]|Hne]; [by rewrite Hcell|by rewrite Hother].
  - apply orb_false_iff in Hcase as [Hc%negb_false_iff _]. apply Z.eqb_eq in Hc. exists m. by split_and!.
Qed.

Lemma updateNode_ok m nodes l i needs n :
  shape m → wf (nextLevelRecountingNodes m) → 0 ≤ l ≤ logCapacity m →
  node_in (logCapacity m) l i → flags_match m nodes →
  NDEBUG = true ∨ n ≤ AggregateWidth * 2 ^ l ∨ needs = true →
  ∃ m' nodes', updateNode i l needs n (m, nodes) = Ok (m', nodes') ∧
    shape m' ∧ logCapacity m' = logCapacity m ∧ wf (nextLevelRecountingNodes m') ∧
    contents (nextLevelRecountingNodes m') =
      entry_after (cnt m l i) n (contents (nextLevelRecountingNodes m)) m l i needs ∧
    cnt m' l i = n ∧
    (∀ l' i', node_in (logCapacity m) l' i' → (l', i') ≠ (l, i) → cnt m' l' i' = cnt m l' i') ∧
    flags_match m' nodes' ∧
    (∀ nd, nd ∈ nodes' ↔ nd ∈ nodes ∨
       (nd = mkRebalancingNode l i ∧ needs = true ∧ within m l n = true)) ∧
    (NoDup nodes → NoDup nodes') ∧ size m' = size m.
Proof.
  intros Hm Hwf Hl Hn Hflags Hfit. unfold updateNode.
  rewrite (assertIndex_ok m l i) by done. cbn [mbind result_bind].
  rewrite (zget_at _ _ _ (shape_widths m Hm l Hl)). cbn [mbind result_bind].
  rewrite (blocksOf_ok m l i) by done. cbn [mbind result_bind].
  assert (AssertMsg ((n <=? AggregateWidth * 2 ^ l) || needs) = Ok tt) as ->.
  { unfold AssertMsg, assert_unless. destruct Hfit as [-> | [Hfit|Hfit]]; [done| |].
    - apply Z.leb_le in Hfit. rewrite Hfit. by destruct NDEBUG.
    - rewrite Hfit, orb_true_r. by destruct NDEBUG. }
  cbn [mbind result_bind]. change (n <=? threshold l (logCapacity m) (2 ^ l)) with (within m l n).
  change (if negb (n =? cnt m l i) || negb (within m l n) then _ else Ok m) with (storeCount m l i needs n).
  destruct (storeCount_ok m nodes l i needs n Hm Hwf Hn Hflags) as (m1&->&Hs1&Hlog1&Hwf1&Hcont1&Hcnt1&Hother1&Hfl1&Hsz1).
  cbn [mbind result_bind]. destruct (needs && within m l n) eqn:Hreb.
  - apply andb_true_iff in Hreb as [-> Hwithin]. rewrite Hwithin. cbn [negb andb].
    rewrite (assert_ok true) by done. cbn [mbind result_bind].
    destruct (raise_ok m1 nodes l i) as (m2&->&Hs2&Hlog2&Hnext2&Hsz2&Hcnt2&Hfl2&Hin2&Hnd2); [done|by rewrite Hlog1|done|].
    cbn [mbind result_bind]. exists m2, (with_node m1 nodes l i). rewrite Hlog1 in Hcnt2.
    rewrite Hnext2, Hlog2, Hlog1. split_and!; try done; [by rewrite Hcnt2| | |congruence].
    + intros l' i' Hn' Hne. rewrite Hcnt2 by done. by apply Hother1.
    + intros nd. rewrite Hin2. naive_solver.
  - exists m1, nodes. split_and!; try done. intros nd. split; [by left|]. intros [?|(_&Hneeds&Hwithin)]; [done|].
    by rewrite Hneeds, Hwithin in Hreb.
Qed.

(** *** One pass over a level *)

(** What a pass over level [L] with true counts [tgt] has established after the
    entries [before]. *)
Record passed m0 nodes0 (L : Z) (tgt : Z → Z) (before : list (Z * bool)) m nodes : Prop := {
  p_shape : shape m;
  p_log : logCapacity m = logCapacity m0;
  p_wf : wf (nextLevelRecountingNodes m);
  p_done : ∀ i, node_in (logCapacity m0) L i → i ∈ before.*1 → cnt m L i = tgt i;
  p_todo : ∀ i, node_in (logCapacity m0) L i → (i ∉ before.*1) → cnt m L i = cnt m0 L i;
  p_levels : ∀ l i, node_in (logCapacity m0) l i → l ≠ L → cnt m l i = cnt m0 l i;
  p_parent : ∀ i f, (i, f) ∈ before → tgt i ≠ cnt m0 L i ∨ within m0 L (tgt i) = false →
    ∃ b, contents (nextLevelRecountingNodes m) !! parent i = Some b ∧
      (f = true → within m0 L (tgt i) = false → b = true);
  p_range : ∀ k, is_Some (contents (nextLevelRecountingNodes m) !! k) →
    is_Some (contents (nextLevelRecountingNodes m0) !! k) ∨ ∃ i, i ∈ before.*1 ∧ k = parent i;
  p_flags : flags_match m nodes;
  p_added : ∀ i, (i, true) ∈ before → within m0 L (tgt i) = true → mkRebalancingNode L i ∈ nodes;
  p_old : ∀ nd, nd ∈ nodes0 → nd ∈ nodes;
  p_new : ∀ nd, nd ∈ nodes → nd ∈ nodes0 ∨
    (level nd = L ∧ (index nd, true) ∈ before ∧ within m0 L (tgt (index nd)) = true);
  p_nodup : NoDup nodes0 → NoDup nodes;
  p_true : ∀ k, contents (nextLevelRecountingNodes m) !! k = Some true →
    contents (nextLevelRecountingNodes m0) !! k = Some true ∨
    ∃ i, (i, true) ∈ before ∧ within m0 L (tgt i) = false ∧ k = parent i;
  p_size : size m = size m0;
}.

Lemma entry_after_present old new c m l i needs k b :
  c !! k = Some b → ∃ b', entry_after old new c m l i needs !! k = Some b' ∧ (b = true → b' = true).
Proof.
  intros Hk. unfold entry_after. destruct (_ || _); [|by eauto].
  rewrite spec_insert_lookup. destruct (decide (parent i = k)) as [->|]; [|by eauto].
  rewrite Hk. simpl. eexists. split; [done|]. intros ->. apply orb_true_r.
Qed.

Lemma entry_after_origin old new c m l i needs k :
  is_Some (entry_after old new c m l i needs !! k) → is_Some (c !! k) ∨ k = parent i.
Proof.
  unfold entry_after. destruct (_ || _); [|by left]. rewrite spec_insert_lookup.
  destruct (decide (parent i = k)); [by right|by left].
Qed.

Lemma entry_after_true old new c m l i needs k :
  entry_after old new c m l i needs !! k = Some true →
  c !! k = Some true ∨ (k = parent i ∧ needs = true ∧ within m l new = false).
Proof.
  unfold entry_after. destruct (_ || _); [|by left]. rewrite spec_insert_lookup.
  destruct (decide (parent i = k)) as [->|]; [|by left].
  destruct (needs && negb (within m l new)) eqn:Hfw; intros Hk.
  - apply andb_true_iff in Hfw as [? ?%negb_true_iff]. by right.
  - left. destruct (c !! k) as [[]|]; simpl in *; congruence.
Qed.

Lemma elem_of_keys_snoc {B} (before : list (Z * B)) i f j :
  j ∈ (before ++ [(i, f)]).*1 ↔ j ∈ before.*1 ∨ j = i.
Proof. rewrite fmap_app, elem_of_app. simpl. by rewrite list_elem_of_singleton. Qed.

Lemma pass_step m0 nodes0 L tgt before i f m nodes :
  passed m0 nodes0 L tgt before m nodes → 0 ≤ L ≤ logCapacity m0 →
  node_in (logCapacity m0) L i → (i ∉ before.*1) →
  NDEBUG = true ∨ tgt i ≤ AggregateWidth * 2 ^ L ∨ f = true →
  wp (updateNode i L f (tgt i) (m, nodes))
     (λ '(m', nodes'), passed m0 nodes0 L tgt (before ++ [(i, f)]) m' nodes').
Proof.
  intros [Hs Hlog Hwf Hdone Htodo Hlev Hpar Hrange Hfl Hadd Hold Hnew Hnodup Htrue Hsize] HL Hn Hfresh Hfit.
  assert (∀ n, within m L n = within m0 L n) as Hwith by (intros; unfold within; by rewrite Hlog).
  destruct (updateNode_ok m nodes L i f (tgt i)) as
    (m'&nodes'&->&Hs'&Hlog'&Hwf'&Hc'&Hcnt'&Hoth'&Hfl'&Hnodes'&Hnd'&Hsz'); [done|done|lia|by rewrite Hlog|done|done|].
  rewrite Hwith in Hnodes'. rewrite (Htodo i Hn Hfresh) in Hc'. rewrite Hlog in Hoth'. simpl.
  split.
  - done.
  - congruence.
  - done.
  - intros j Hnj. rewrite elem_of_keys_snoc. destruct (decide (j = i)) as [->|]; [done|].
    intros [Hj| ?]; [|done]. rewrite Hoth' by (done || congruence). auto.
  - intros j Hj. rewrite elem_of_keys_snoc. intros Hnj.
    rewrite Hoth' by (done || (intros ?; simplify_eq; tauto)). apply Htodo; tauto.
  - intros l j Hj Hne. rewrite Hoth' by (done || congruence). auto.
  - intros j g. rewrite elem_of_app, list_elem_of_singleton. intros [Hj|Heq] Hcase.
    + destruct (Hpar j g Hj Hcase) as (b&Hb&Himp).
      destruct (entry_after_present (cnt m0 L i) (tgt i) _ m L i f _ _ Hb) as (b'&Hb'&Himp').
      exists b'. rewrite Hc'. split; [done|]. auto.
    + simplify_eq. rewrite Hc'. unfold entry_after. rewrite Hwith.
      replace (negb (tgt i =? cnt m0 L i) || negb (within m0 L (tgt i))) with true; cycle 1.
      { symmetry. apply orb_true_iff. rewrite !negb_true_iff, Z.eqb_neq. done. }
      rewrite spec_insert_lookup, decide_True by done. eexists. split; [done|].
      intros -> ->. done.
  - intros k. rewrite Hc'. intros [Hk'| ->]%entry_after_origin.
    + destruct (Hrange k Hk') as [?|(j&?&->)]; [by left|right]. exists j. split; [|done].
      apply elem_of_keys_snoc. by left.
    + right. exists i. split; [|done]. apply elem_of_keys_snoc. by right.
  - done.
  - intros j. rewrite elem_of_app, list_elem_of_singleton. intros [Hj|Heq] Hw; apply Hnodes'.
    + left. auto.
    + right. by simplify_eq.
  - intros nd Hnd. apply Hnodes'. left. auto.
  - intros nd Hnd. apply Hnodes' in Hnd as [Hnd|(->&->&Hw)].
    + destruct (Hnew nd Hnd) as [?|(?&?&?)]; [by left|right]. split_and!; [done| |done].
      apply elem_of_app. by left.
    + right. cbn [level index]. split_and!; [done| |done]. apply elem_of_app. right. by left.
  - auto.
  - intros k. rewrite Hc'. intros [Hk'|(->&->&Hw)]%entry_after_true; [|rewrite Hwith in Hw].
    + destruct (Htrue k Hk') as [?|(j&?&?&->)]; [by left|right]. exists j. split_and!; [|done|done].
      apply elem_of_app. by left.
    + right. exists i. split_and!; [|done|done]. apply elem_of_app. right. by left.
  - congruence.
Qed.

Lemma pass_ok m0 nodes0 L tgt (get : Manager → Z → result Z) (P : ConcurrentBucketMap.ConcurrentBucketMap) :
  shape m0 → wf (nextLevelRecountingNodes m0) → wf P → 0 ≤ L ≤ logCapacity m0 →
  flags_match m0 nodes0 →
  (∀ i f, contents P !! i = Some f → node_in (logCapacity m0) L i ∧
     (NDEBUG = true ∨ tgt i ≤ AggregateWidth * 2 ^ L ∨ f = true)) →
  (∀ m i, shape m → logCapacity m = logCapacity m0 →
     (∀ l i, node_in (logCapacity m0) l i → l ≠ L → cnt m l i = cnt m0 l i) →
     node_in (logCapacity m0) L i → get m i = Ok (tgt i)) →
  wp (executeInParallel P (λ s '(i, f), c ← get s.1 i; updateNode i L f c s) (m0, nodes0))
     (λ '(m, nodes), passed m0 nodes0 L tgt (entries P) m nodes).
Proof.
  intros Hs Hwf HP HL Hfl Hentries Hget. unfold executeInParallel.
  eapply wp_mono.
  - apply (wp_foldl (λ before '(m, nodes), passed m0 nodes0 L tgt before m nodes)).
    + split; try done.
      * intros i _ Hi. by apply elem_of_nil in Hi.
      * intros i f Hi. by apply elem_of_nil in Hi.
      * intros k Hk. by left.
      * intros i Hi. by apply elem_of_nil in Hi.
      * intros nd Hnd. by left.
      * intros k Hk. by left.
    + intros before [i f] after [m nodes] Hes Hpass.
      assert ((i, f) ∈ entries P) as Hin.
      { rewrite Hes. apply elem_of_app. right. by left. }
      apply elem_of_entries in Hin; [|done]. destruct (Hentries i f Hin) as [Hn Hfit].
      cbn [fst]. rewrite Hget; [|apply Hpass..|done]. cbn [mbind result_bind].
      eapply wp_mono; [apply pass_step; try done|by intros []].
      pose proof (NoDup_entries P HP) as Hnd. rewrite Hes, fmap_app in Hnd.
      apply NoDup_app in Hnd as (_&Hnd&_). intros Hi. apply (Hnd i Hi). by left.
  - done.
Qed.

(** ** All levels *)

Section targets.
Variable count : Z → Z.

(** The true number of blocks of a node. *)
Fixpoint target_nat (l : nat) (i : Z) : Z :=
  match l with
  | O => count i
  | S l => target_nat l (leftChild i) + target_nat l (rightChild i)
  end.
Definition target (l i : Z) : Z := target_nat (Z.to_nat l) i.

Definition ancestor (j l : Z) : Z := j / 2 ^ l.

Lemma target_succ l i : 1 ≤ l → target l i = target (l - 1) (leftChild i) + target (l - 1) (rightChild i).
Proof.
  intros. unfold target. replace (Z.to_nat l) with (S (Z.to_nat (l - 1))) by lia. done.
Qed.

Lemma ancestor_succ j l : 0 ≤ j → 0 ≤ l → ancestor j (l + 1) = parent (ancestor j l).
Proof.
  intros Hj Hl. unfold ancestor, parent.
  assert (0 < 2 ^ l) by (apply Z.pow_pos_nonneg; lia).
  rewrite Z.quot_div_nonneg by (try apply Z.div_pos; lia).
  rewrite Z.div_div by lia. f_equal. replace (l + 1) with (Z.succ l) by lia.
  rewrite Z.pow_succ_r by lia. lia.
Qed.

End targets.

Section levels.
Variables (m0 : Manager) (count : Z → Z) (recounting : gmap Z bool).
Let Lc := logCapacity m0.
#[local] Abbreviation target := (target count).

Lemma ancestor_in j l : 0 ≤ j < 2 ^ Lc → 0 ≤ l ≤ Lc → node_in Lc l (ancestor j l).
Proof.
  intros Hj Hl. left. split; [done|]. unfold ancestor.
  assert (0 < 2 ^ l) by (apply Z.pow_pos_nonneg; lia).
  split; [apply Z.div_pos; lia|]. apply Z.div_lt_upper_bound; [done|].
  rewrite <-Z.pow_add_r by lia. replace (l + (Lc - l)) with Lc by lia. lia.
Qed.

(** A node is rebalanced that contains the leaf [j]. *)
Definition covered nodes (bound j : Z) : Prop :=
  ∃ l, 0 ≤ l < bound ∧ mkRebalancingNode l (ancestor j l) ∈ nodes.

(** A flagged leaf below the node of level [L] makes every node on the way overfull. *)
Definition origin (L i : Z) : Prop := ∃ j, recounting !! j = Some true ∧ ancestor j L = i ∧
  (1 ≤ L → threshold (L - 1) Lc (2 ^ (L - 1)) < target (L - 1) (ancestor j (L - 1))).

(** No flag is left over from an earlier update. *)
Definition clean : Prop := ∀ k, contents (nextLevelRecountingNodes m0) !! k ≠ Some true.

(** The state before level [L] is processed, [pending] being the nodes to recount. *)
Record progress (L : Z) (pending : gmap Z bool) m nodes : Prop := {
  g_shape : shape m;
  g_log : logCapacity m = Lc;
  g_below : ∀ l i, node_in Lc l i → l < L → l ≤ Lc → cnt m l i = target l i;
  g_above : ∀ l i, node_in Lc l i → L ≤ l → l ≤ Lc → cnt m l i = cnt m0 l i;
  g_dirty : ∀ i, node_in Lc L i → L ≤ Lc → cnt m0 L i ≠ target L i → is_Some (pending !! i);
  g_range : ∀ i, is_Some (pending !! i) → node_in Lc L i;
  g_flagged : ∀ j, recounting !! j = Some true →
    covered nodes L j ∨ (pending !! ancestor j L = Some true ∧
      (1 ≤ L → threshold (L - 1) Lc (2 ^ (L - 1)) < target (L - 1) (ancestor j (L - 1))));
  g_overfull : ∀ i, node_in Lc L i → L ≤ Lc → AggregateWidth * 2 ^ L < target L i →
    pending !! i = Some true;
  g_flags : flags_match m nodes;
  g_nodes : ∀ nd, nd ∈ nodes → 0 ≤ level nd < L ∧ level nd ≤ Lc ∧ node_in Lc (level nd) (index nd) ∧
    target (level nd) (index nd) ≤ threshold (level nd) Lc (2 ^ level nd);
  g_nodup : NoDup nodes;
  g_origin : clean → ∀ i, pending !! i = Some true → origin L i;
  g_origins : clean → ∀ nd, nd ∈ nodes → origin (level nd) (index nd);
  g_size : size m = size m0;
}.

Hypothesis consistent : ∀ l i, node_in Lc l i → 1 ≤ l ≤ Lc →
  cnt m0 l i = cnt m0 (l - 1) (leftChild i) + cnt m0 (l - 1) (rightChild i).
Hypothesis recounting_leaves : ∀ j, is_Some (recounting !! j) → 0 ≤ j < 2 ^ Lc.
Hypothesis log_bound : 0 ≤ Lc ≤ 60.
Context `{Law : !ThresholdLaw}.

Lemma child_dirty i L :
  node_in Lc (L + 1) i → 0 ≤ L < Lc → cnt m0 (L + 1) i ≠ target (L + 1) i →
  ∃ c, node_in Lc L c ∧ parent c = i ∧ cnt m0 L c ≠ target L c.
Proof.
  intros Hn HL Hne. rewrite consistent, target_succ in Hne by (done || lia).
  destruct (children_in _ _ _ Hn) as [H1 H2]; [lia|].
  replace (L + 1 - 1) with L in * by lia.
  assert (parent (leftChild i) = i ∧ parent (rightChild i) = i) as [Hp1 Hp2].
  { destruct Hn as [[_ ?]|[? ?]]; [|lia]. unfold parent, leftChild, rightChild.
    rewrite !Z.quot_div_nonneg by lia. split; Z.div_mod_to_equations; lia. }
  destruct (decide (cnt m0 L (leftChild i) = target L (leftChild i))) as [Heq|];
    [|exists (leftChild i); by split_and!].
  exists (rightChild i). split_and!; [done|done|]. lia.
Qed.

Lemma child_overfull i L :
  node_in Lc (L + 1) i → 0 ≤ L < Lc → AggregateWidth * 2 ^ (L + 1) < target (L + 1) i →
  ∃ c, node_in Lc L c ∧ parent c = i ∧ AggregateWidth * 2 ^ L < target L c.
Proof.
  intros Hn HL Hlt. rewrite target_succ in Hlt by lia. rewrite Z.pow_add_r in Hlt by lia.
  destruct (children_in _ _ _ Hn) as [H1 H2]; [lia|].
  replace (L + 1 - 1) with L in * by lia.
  assert (parent (leftChild i) = i ∧ parent (rightChild i) = i) as [Hp1 Hp2].
  { destruct Hn as [[_ ?]|[? ?]]; [|lia]. unfold parent, leftChild, rightChild.
    rewrite !Z.quot_div_nonneg by lia. split; Z.div_mod_to_equations; lia. }
  destruct (decide (AggregateWidth * 2 ^ L < target L (leftChild i)));
    [exists (leftChild i); by split_and!|].
  exists (rightChild i). split_and!; [done|done|]. lia.
Qed.

Lemma parent_node l i : node_in Lc l i → 0 ≤ l ≤ Lc → node_in Lc (l + 1) (parent i).
Proof.
  intros Hn Hl. destruct (decide (l = Lc)) as [->|]; [|apply parent_in; [done|lia]].
  destruct Hn as [[_ Hi]|[? ?]]; [|lia]. rewrite Z.sub_diag in Hi. right. split; [done|].
  by replace i with 0 by lia.
Qed.

(** What a pass over level [L] makes of the state in front of it. *)
Section level.
Variables (L : Z) (P : ConcurrentBucketMap.ConcurrentBucketMap) (m m' : Manager) (nodes nodes' : list RebalancingNode).
Hypothesis (before : progress L (contents P) m nodes) (HP : wf P) (HL : 0 ≤ L ≤ Lc).
Hypothesis (pass : passed m nodes L (target L) (entries P) m' nodes').

Lemma within_level n : within m L n = (n <=? threshold L Lc (2 ^ L)).
Proof. unfold within. by rewrite (g_log _ _ _ _ before). Qed.

Lemma entry_of i f : (i, f) ∈ entries P ↔ contents P !! i = Some f.
Proof. by apply elem_of_entries. Qed.

Lemma entry_key i : i ∈ (entries P).*1 ↔ is_Some (contents P !! i).
Proof.
  rewrite list_elem_of_fmap. split.
  - intros ([k f]&->&Hk%entry_of). by exists f.
  - intros [f Hf%entry_of]. by exists (i, f).
Qed.

(** A node that is over its threshold leaves an entry for its parent. *)
Lemma passed_parent i f : contents P !! i = Some f → target L i ≠ cnt m L i ∨ within m L (target L i) = false →
  ∃ b, contents (nextLevelRecountingNodes m') !! parent i = Some b ∧ (f = true → within m L (target L i) = false → b = true).
Proof. intros Hi%entry_of. by apply (p_parent _ _ _ _ _ _ _ pass). Qed.

Lemma passed_counts i : node_in Lc L i → cnt m' L i = target L i.
Proof.
  intros Hn. destruct pass as [_ _ _ Hdone Htodo _ _ _ _ _ _ _ _ _ _]. rewrite (g_log _ _ _ _ before) in *.
  destruct (decide (i ∈ (entries P).*1)) as [Hi|Hi]; [auto|].
  rewrite Htodo, (g_above _ _ _ _ before) by (done || lia).
  destruct (decide (cnt m0 L i = target L i)) as [|Hne]; [done|].
  exfalso. apply Hi, entry_key. apply (g_dirty _ _ _ _ before); [done|lia|done].
Qed.

Lemma passed_flagged j : recounting !! j = Some true → covered nodes' (L + 1) j ∨
  (contents (nextLevelRecountingNodes m') !! ancestor j (L + 1) = Some true ∧ threshold L Lc (2 ^ L) < target L (ancestor j L)).
Proof.
  intros Hj. assert (0 ≤ j < 2 ^ Lc) as Hjb by (apply recounting_leaves; by eexists).
  destruct (g_flagged _ _ _ _ before j Hj) as [(l&Hl&Hin)|[Hpend _]].
  - left. exists l. split; [lia|]. by apply (p_old _ _ _ _ _ _ _ pass).
  - destruct (within m L (target L (ancestor j L))) eqn:Hw.
    + left. exists L. split; [lia|]. apply (p_added _ _ _ _ _ _ _ pass); [by apply entry_of|done].
    + right. destruct (passed_parent _ _ Hpend (or_intror Hw)) as (b&Hb&Himp).
      rewrite ancestor_succ by lia. rewrite Hb. split; [by rewrite Himp|]. rewrite within_level in Hw. by apply Z.leb_gt.
Qed.

Lemma passed_overfull i : node_in Lc (L + 1) i → L < Lc → AggregateWidth * 2 ^ (L + 1) < target (L + 1) i →
  contents (nextLevelRecountingNodes m') !! i = Some true.
Proof.
  intros Hn HLi Hlt. destruct (child_overfull i L) as (c&Hc&<-&Hlt'); [done|lia|done|].
  assert (contents P !! c = Some true) as Hf by (apply (g_overfull _ _ _ _ before); [done|lia|done]).
  assert (within m L (target L c) = false) as Hw.
  { rewrite within_level. apply Z.leb_gt. pose proof (threshold_fits L Lc). lia. }
  destruct (passed_parent _ _ Hf (or_intror Hw)) as (b&Hb&Himp). rewrite Hb. by rewrite Himp.
Qed.

Lemma passed_progress :
  (∀ k, is_Some (contents (nextLevelRecountingNodes m) !! k) → node_in Lc (L + 1) k) →
  (clean → ∀ k, contents (nextLevelRecountingNodes m) !! k ≠ Some true) →
  progress (L + 1) (contents (nextLevelRecountingNodes m')) m' nodes'.
Proof.
  intros Hnext Hclean.
  pose proof before as [Hs Hlog Hbelow Habove Hdirty Hrange _ _ Hfl Hnodes Hnd Horig Horigs Hsize].
  pose proof pass as [Hs' Hlog' _ _ _ Hlev _ Hrng Hfl' _ Hold Hnew Hnd' Htrue Hsize']. rewrite Hlog in *. split; try done.
  - intros l i Hn Hl HlL. destruct (decide (l = L)) as [->|]; [by apply passed_counts|].
    rewrite Hlev by (done || lia). apply Hbelow; [done|lia|done].
  - intros l i Hn Hl HlL. rewrite Hlev by (done || lia). apply Habove; [done|lia|done].
  - intros i Hn HLi Hne. destruct (child_dirty i L) as (c&Hc&<-&Hcne); [done|lia|done|].
    assert (is_Some (contents P !! c)) as [f Hf] by (apply Hdirty; [done|lia|done]).
    destruct (passed_parent c f Hf) as (b&Hb&_); [left; rewrite Habove by (done || lia); auto|]. by exists b.
  - intros k Hk. destruct (Hrng k Hk) as [?|(i&Hi&->)]; [auto|].
    apply parent_node; [|lia]. apply Hrange. by apply entry_key.
  - intros j Hj. replace (L + 1 - 1) with L by lia. destruct (passed_flagged j Hj) as [?|[? ?]]; [by left|by right].
  - intros i Hn HLi Hlt. apply passed_overfull; [done|lia|done].
  - intros nd Hin. destruct (Hnew nd Hin) as [Hin'|(Hl&Hi&Hw)].
    + destruct (Hnodes nd Hin') as (?&?&?&?). split_and!; [lia|lia|done..].
    + rewrite Hl. rewrite within_level in Hw. apply Z.leb_le in Hw. split_and!; [lia|lia|lia| |done].
      apply Hrange. apply entry_of in Hi. by eexists.
  - auto.
  - intros Hcl k Hk. destruct (Htrue k Hk) as [Hk'|(i&Hi&Hw&->)]; [by destruct (Hclean Hcl k)|].
    apply entry_of in Hi. destruct (Horig Hcl i Hi) as (j&Hj&Hanc&_). exists j.
    assert (0 ≤ j < 2 ^ Lc) as Hjb by (apply recounting_leaves; by eexists).
    rewrite ancestor_succ, Hanc by lia. split_and!; [done|done|]. intros _.
    replace (L + 1 - 1) with L by lia. rewrite Hanc. rewrite within_level in Hw. by apply Z.leb_gt.
  - intros Hcl nd Hin. destruct (Hnew nd Hin) as [Hin'|(Hl&Hi&Hw)]; [auto|].
    rewrite Hl. apply Horig; [done|]. by apply entry_of.
  - congruence.
Qed.
End level.

Lemma level_step L P m nodes (get : Manager → Z → result Z) :
  progress L (contents P) m nodes → wf P → wf (nextLevelRecountingNodes m) → 0 ≤ L ≤ Lc →
  (∀ k, is_Some (contents (nextLevelRecountingNodes m) !! k) → node_in Lc (L + 1) k) →
  (clean → ∀ k, contents (nextLevelRecountingNodes m) !! k ≠ Some true) →
  (∀ m' i, shape m' → logCapacity m' = Lc →
     (∀ l i, node_in Lc l i → l ≠ L → cnt m' l i = cnt m l i) →
     node_in Lc L i → get m' i = Ok (target L i)) →
  wp (executeInParallel P (λ s '(i, f), c ← get s.1 i; updateNode i L f c s) (m, nodes))
     (λ '(m', nodes'), progress (L + 1) (contents (nextLevelRecountingNodes m')) m' nodes' ∧
        wf (nextLevelRecountingNodes m')).
Proof.
  intros Hbefore HP Hwf HL Hnext Hclean Hget.
  pose proof Hbefore as [Hs Hlog _ _ _ Hrange _ Hover Hfl _ _ _ _ _]. eapply wp_mono.
  - apply (pass_ok m nodes L (target L)); try done; [by rewrite Hlog| |].
    + intros i f Hi. rewrite Hlog. assert (node_in Lc L i) as Hn by (apply Hrange; by eexists).
      split; [done|]. right. destruct (decide (target L i ≤ AggregateWidth * 2 ^ L)); [by left|right].
      assert (contents P !! i = Some true) by (apply Hover; [done|lia|lia]). congruence.
    + intros m' i ? Hlog' ?. rewrite Hlog in *. by apply Hget.
  - intros [m' nodes'] Hpass. split; [|apply (p_wf _ _ _ _ _ _ _ Hpass)]. by apply (passed_progress L P m m' nodes nodes').
Qed.

Lemma progress_set_nextLevel L pending m nodes x :
  progress L pending m nodes → progress L pending (set_nextLevel m x) nodes.
Proof. intros []. split; try done. by apply set_nextLevel_shape. Qed.

Lemma updateLevels_ok m map nodes :
  progress 1 (contents (nextLevelRecountingNodes m)) m nodes →
  wf (nextLevelRecountingNodes m) → wf map →
  wp (updateLevels m map nodes)
     (λ '(m', map', nodes'), wf map' ∧ wf (nextLevelRecountingNodes m') ∧
        progress (Lc + 1) (contents (nextLevelRecountingNodes m')) m' nodes' ∧
        (1 ≤ Lc → ∀ k, is_Some (contents map' !! k) → k = 0) ∧
        (1 ≤ Lc → clean → ∀ k, contents map' !! k = Some true → origin Lc k)).
Proof.
  intros Hg Hnext Hmap. unfold updateLevels. rewrite (g_log _ _ _ _ Hg).
  apply (wp_for (λ L '(m, map, nodes), wf map ∧ wf (nextLevelRecountingNodes m) ∧
    progress L (contents (nextLevelRecountingNodes m)) m nodes ∧
    (1 < L → (∀ k, is_Some (contents map !! k) → node_in Lc (L - 1) k) ∧
      (clean → ∀ k, contents map !! k = Some true → origin (L - 1) k)))); [|split_and!; (done || lia)|].
  - clear m map nodes Hg Hnext Hmap. intros L [[m map] nodes] HL (Hmap&Hnext&Hg&_).
    destruct (clear_spec map Hmap) as [Hclear Hempty]. apply wp_bind.
    eapply wp_mono.
    + unfold updateHigherLevel.
      apply (level_step L (nextLevelRecountingNodes m) _ _ (λ m i, aggregateNodeHigherLevel m i L));
        try done.
      * by apply progress_set_nextLevel.
      * lia.
      * intros k [b Hk]. simpl in Hk. by rewrite Hempty, lookup_empty in Hk.
      * intros _ k Hk. simpl in Hk. by rewrite Hempty, lookup_empty in Hk.
      * intros m' i Hs' Hlog' Hlev Hn. rewrite aggregateNodeHigherLevel_ok by (rewrite ?Hlog'; done || lia).
        destruct (children_in Lc L i Hn) as [Hc1 Hc2]; [lia|].
        rewrite target_succ by lia. rewrite !Hlev by (done || lia).
        change (cnt (set_nextLevel m ?x)) with (cnt m).
        do 2 f_equal; apply (g_below _ _ _ _ Hg); done || lia.
    + intros [m' nodes'] [Hg' Hwf']. split_and!; [done..|]. intros _. replace (L + 1 - 1) with L by lia.
      split; [apply (g_range _ _ _ _ Hg)|apply (g_origin _ _ _ _ Hg)].
  - intros [[m' map'] nodes'] (?&?&Hg'&Hk). rewrite Z.max_r in Hg', Hk by lia. split_and!; [done|done|done| |].
    { intros HLc1 k Hs. destruct (Hk ltac:(lia)) as [Hk1 _]. apply Hk1 in Hs. replace (Lc + 1 - 1) with Lc in Hs by lia.
    destruct Hs as [[_ Hb]|[? ?]]; [|lia]. rewrite Z.sub_diag in Hb. lia. }
    intros HLc1. destruct (Hk ltac:(lia)) as [_ Hk2]. by replace (Lc + 1 - 1) with Lc in Hk2 by lia.
Qed.

(** What [update] promises. *)
Record updated m nodes : Prop := {
  u_shape : shape m;
  u_log : logCapacity m = Lc;
  u_counts : ∀ l i, node_in Lc l i → l ≤ Lc → cnt m l i = target l i;
  u_flags : flags_match m nodes;
  u_nodes : ∀ nd, nd ∈ nodes → node_in Lc (level nd) (index nd) ∧
    (level nd ≤ Lc → target (level nd) (index nd) ≤ threshold (level nd) Lc (2 ^ level nd)) ∧
    (level nd = Lc + 1 → AggregateWidth * 2 ^ Lc < target Lc 0);
  u_covered : ∀ j, recounting !! j = Some true → covered nodes (Lc + 2) j ∨
    threshold Lc Lc (2 ^ Lc) < target Lc 0 ≤ AggregateWidth * 2 ^ Lc;
  u_nodup : NoDup nodes;
  u_origins : clean → ∀ nd, nd ∈ nodes → level nd ≤ Lc → origin (level nd) (index nd);
  u_size : size m = size m0;
}.

Lemma updateSuperRoot_ok pending m nodes :
  progress (Lc + 1) pending m nodes →
  (∀ j, recounting !! j = Some true → covered nodes (Lc + 1) j ∨
     threshold Lc Lc (2 ^ Lc) < target Lc 0) →
  wp (updateSuperRoot m nodes) (λ '(m', nodes'), updated m' nodes' ∧
    nextLevelRecountingNodes m' = nextLevelRecountingNodes m).
Proof.
  intros [Hs Hlog Hbelow _ _ _ _ _ Hfl Hnodes Hnodup _ Horig Hsize] Hcov.
  assert (node_in Lc Lc 0) as Hroot.
  { left. rewrite Z.sub_diag. split; [lia|]. simpl. lia. }
  assert (node_in Lc (Lc + 1) 0) as Hsuper by (by right).
  unfold updateSuperRoot. rewrite (blocksOf_ok m) by (rewrite ?Hlog; done).
  rewrite Hlog. cbn [mbind result_bind].
  rewrite (zget_at _ _ _ (shape_widths m Hs Lc ltac:(lia))). cbn [mbind result_bind].
  rewrite (Hbelow Lc 0) by (done || lia).
  destruct (Z.ltb_spec (AggregateWidth * 2 ^ Lc) (target Lc 0)) as [Hlt|Hge].
  - assert (flg m (Lc + 1) 0 = false) as Hflag.
    { apply not_true_is_false. rewrite (Hfl (Lc + 1) 0) by (by rewrite Hlog).
      intros Hin%Hnodes. simpl in Hin. lia. }
    destruct (raise_ok m nodes (Lc + 1) 0) as (m'&->&Hs'&Hlog'&Hnx&Hw&Hcnt'&Hfl'&Hin'&Hnd'); [done|by rewrite Hlog|done|].
    unfold with_node in *. rewrite Hflag in *. cbn [mbind result_bind negb] in *. rewrite assert_ok by done. cbn [mbind result_bind].
    rewrite Hlog', Hlog. split; [|done]. split; try done; [congruence|..|auto| |congruence].
    + intros l i Hn Hl. rewrite Hcnt' by (by rewrite Hlog). apply Hbelow; [done|lia|done].
    + intros nd [Hnd| ->]%Hin'.
      * destruct (Hnodes nd Hnd) as (?&?&?&?). split_and!; [done|done|lia].
      * cbn [level index]. split_and!; [exact Hsuper|lia|intros _; exact Hlt].
    + intros j Hj. left. exists (Lc + 1). split; [lia|]. apply Hin'. right. f_equal.
      assert (0 ≤ j < 2 ^ Lc) as Hjb by (apply recounting_leaves; by eexists).
      unfold ancestor. apply Z.div_small. rewrite Z.pow_add_r by lia. lia.
    + intros Hcl nd [Hin| ->]%Hin'; [auto|simpl; lia].
  - split; [|done]. split; try done.
    + intros l i Hn Hl. apply Hbelow; [done|lia|done].
    + intros nd Hnd. destruct (Hnodes nd Hnd) as (?&?&?&?). split_and!; [done|done|lia].
    + intros j Hj. destruct (Hcov j Hj) as [(l&Hl&Hin)|?].
      * left. exists l. split; [lia|done].
      * right. lia.
    + auto.
Qed.

Lemma update_ok sds map :
  shape m0 → wf map → contents map = recounting → wf (nextLevelRecountingNodes m0) →
  (∀ k, is_Some (contents (nextLevelRecountingNodes m0) !! k) → node_in Lc 1 k) →
  (∀ l i, node_in Lc l i → flg m0 l i = false) →
  (∀ j, 0 ≤ j < 2 ^ Lc → aggregateNodeRangeLevelZero sds j = Ok (count j)) →
  (∀ j, 0 ≤ j < 2 ^ Lc → cnt m0 0 j ≠ count j → is_Some (recounting !! j)) →
  (∀ j, 0 ≤ j < 2 ^ Lc → AggregateWidth < count j → recounting !! j = Some true) →
  wp (update m0 sds map [])
     (λ '(m, map', nodes), updated m nodes ∧ wf map' ∧ wf (nextLevelRecountingNodes m) ∧
        (1 ≤ Lc → ∀ k, is_Some (contents map' !! k) → k = 0) ∧
        (1 ≤ Lc → clean → ∀ k, contents map' !! k = Some true → origin Lc k) ∧
        (∀ k, is_Some (contents (nextLevelRecountingNodes m) !! k) → k = 0) ∧
        (clean → ∀ k, contents (nextLevelRecountingNodes m) !! k = Some true →
           threshold Lc Lc (2 ^ Lc) < target Lc 0)).
Proof.
  intros Hs Hmap Hrec Hnext Hnextkeys Hflags Hcount Hdirty Hover.
  assert (∀ j, node_in Lc 0 j ↔ 0 ≤ j < 2 ^ Lc) as Hleaf.
  { intros j. unfold node_in. rewrite Z.sub_0_r. lia. }
  assert (progress 0 (contents map) m0 []) as Hg.
  { rewrite Hrec. split; try done.
    - intros l i [[? _]|[? _]] ? ?; lia.
    - intros i Hn _ Hne. apply Hdirty; [by apply Hleaf|done].
    - intros i Hi. apply Hleaf. auto.
    - intros j Hj. right. unfold ancestor. rewrite Z.pow_0_r, Z.div_1_r. split; [done|lia].
    - intros i Hn _ Hlt. rewrite Z.pow_0_r, Z.mul_1_r in Hlt. apply Hover; [by apply Hleaf|done].
    - intros l i Hn. rewrite Hflags by done. split; [done|]. by intros ?%elem_of_nil.
    - intros nd ?%elem_of_nil. done.
    - by apply NoDup_nil.
    - intros _ i Hi. exists i. split_and!; [done| |lia]. unfold ancestor. by rewrite Z.pow_0_r, Z.div_1_r.
    - intros _ nd ?%elem_of_nil. done. }
  unfold update. apply wp_bind.
  eapply wp_mono.
  { apply (level_step 0 map m0 [] (λ _ i, aggregateNodeRangeLevelZero sds i)); try done; [lia|].
    intros m' i _ _ _ Hn. apply Hcount. by apply Hleaf. }
  intros [m nodes] [Hg1 Hwf1]. apply wp_bind.
  eapply wp_mono; [by apply updateLevels_ok|].
  intros [[m1 map1] nodes1] (Hmap1&Hnext1&Hg2&Hk1&Hk2). apply wp_bind.
  eapply wp_mono.
  { apply (updateSuperRoot_ok _ _ _ Hg2). intros j Hj.
    destruct (g_flagged _ _ _ _ Hg2 j Hj) as [?|[_ Hlt]]; [by left|right].
    specialize (Hlt ltac:(lia)). replace (Lc + 1 - 1) with Lc in Hlt by lia.
    replace (ancestor j Lc) with 0 in Hlt; [done|]. symmetry. apply Z.div_small.
    apply recounting_leaves. by eexists. }
  intros [m2 nodes2] [Hu Hnx]. simpl. rewrite Hnx. split_and!; [done|done|done|done|done| |].
  - intros k Hk. apply (g_range _ _ _ _ Hg2) in Hk as [[? ?]|[_ ?]]; [lia|done].
  - intros Hcl k Hk. destruct (g_origin _ _ _ _ Hg2 Hcl k Hk) as (j&Hj&_&Hlt).
    specialize (Hlt ltac:(lia)). replace (Lc + 1 - 1) with Lc in Hlt by lia.
    replace (ancestor j Lc) with 0 in Hlt; [done|]. symmetry. apply Z.div_small.
    apply recounting_leaves. by eexists.
Qed.
End levels.
End update.
