(* ===== verification/RebalancingShape.v ===== *)
(** * Creating, growing and recomputing the rebalancing tree

    The constructor and [resize] establish the shape of the tree; [recompute] and
    [validate] relate the stored counts to the sparse array. *)

From S2P Require Export RebalancingUpdate Sums.
Import BinaryRebalancingManager.

Section shape.
Context `{T : SdsTypes} `{R : RebalancingConfig} `{D : DensityManager} `{H : ConcurrentBucketMap.Hash}.
Implicit Types (m : Manager) (l i : Z).

Lemma zlen_vector_resize {A} (l : list A) (n : Z) (d : A) : 0 ≤ n → zlen (vector_resize l n d) = n.
Proof. intros. unfold vector_resize, zlen. rewrite length_app, length_take, length_replicate. lia. Qed.

(** The size in doubles is exact: [2 * 2 ^ k] nodes for [2 ^ k] leaves. *)
Lemma getSizeForCapacity_pow k : 0 ≤ k ≤ 60 → getSizeForCapacity (2 ^ k) = 2 ^ (k + 1).
Proof.
  intros Hk.
  assert (forallb (λ k, getSizeForCapacity (2 ^ k) =? 2 ^ (k + 1)) (seqZ 0 61) = true) as Hall
    by (vm_compute; reflexivity).
  rewrite forallb_forall in Hall. apply Z.eqb_eq, Hall, list_elem_of_In, elem_of_seqZ. lia.
Qed.

Lemma recomputeLevelInfo_ok m :
  0 ≤ logCapacity m → logCapacityWithSuperRoot m = logCapacity m + 1 →
  capacity m = 2 ^ logCapacity m → zlen (aggregates m) = 2 ^ (logCapacity m + 1) →
  ∃ m', recomputeLevelInfo m = Ok m' ∧ shape m' ∧ logCapacity m' = logCapacity m ∧
    aggregates m' = aggregates m ∧ size m' = size m ∧ capacity m' = capacity m ∧
    nextLevelRecountingNodes m' = nextLevelRecountingNodes m ∧
    numberOfThreads m' = numberOfThreads m.
Proof.
  intros Hlog Hsuper Hcap Hagg. set (Lc := logCapacity m) in *.
  unfold recomputeLevelInfo. rewrite Hsuper. fold Lc.
  set (s0 := vector_resize (levelStarts m) (Lc + 1 + 1) 0).
  set (w0 := vector_resize (levelAggregateWidths m) (Lc + 1 + 1) 0).
  assert (zlen s0 = Lc + 2) as Hs0 by (unfold s0; rewrite zlen_vector_resize; lia).
  assert (zlen w0 = Lc + 2) as Hw0 by (unfold w0; rewrite zlen_vector_resize; lia).
  apply wp_returns, wp_bind.
  apply (wp_for (λ l '(starts, widths, cs, cw, caw),
    zlen starts = Lc + 2 ∧ zlen widths = Lc + 2 ∧ cs = start_of Lc l ∧
    (l ≤ Lc → cw = 2 ^ (Lc - l)) ∧ caw = 2 ^ l ∧
    (∀ k, 0 ≤ k < l → at_ starts k = Some (start_of Lc k)) ∧
    (∀ k, 0 ≤ k < l → at_ widths k = Some (2 ^ k)))).
  - intros l [[[[starts widths] cs] cw] caw] Hl (Hls&Hlw&->&Hcw&->&Hst&Hwi).
    rewrite !zset_in by lia. cbn [mbind result_bind wp]. rewrite Hcw by lia.
    split_and!; [by rewrite zlen_zupd|by rewrite zlen_zupd| | | | |].
    + rewrite start_of_succ by lia. done.
    + intros HlL. rewrite Z.quot_div_nonneg by (try apply Z.pow_nonneg; lia).
      replace (Lc - l) with (Z.succ (Lc - (l + 1))) by lia. rewrite Z.pow_succ_r by lia.
      rewrite Z.mul_comm, Z.div_mul by lia. done.
    + rewrite Z.pow_add_r by lia. lia.
    + intros k Hk. destruct (decide (k = l)) as [->|]; [by rewrite at_zupd_eq by lia|].
      rewrite at_zupd_ne by lia. apply Hst. lia.
    + intros k Hk. destruct (decide (k = l)) as [->|]; [by rewrite at_zupd_eq by lia|].
      rewrite at_zupd_ne by lia. apply Hwi. lia.
  - unfold start_of. rewrite !Z.sub_0_r. split_and!; try done; lia.
  - intros [[[[starts widths] cs] cw] caw] (Hls&Hlw&->&_&->&Hst&Hwi).
    rewrite Z.max_r in * by lia. rewrite !zset_in by lia. cbn [mbind result_bind wp].
    split; [|done]. split; cbn [set_levelInfo logCapacity logCapacityWithSuperRoot capacity
      aggregates levelStarts levelAggregateWidths]; try done; fold Lc.
    + intros l Hl. destruct (decide (l = Lc + 1)) as [->|]; [by rewrite at_zupd_eq by lia|].
      rewrite at_zupd_ne by lia. apply Hst. lia.
    + intros l Hl. rewrite at_zupd_ne by lia. apply Hwi. lia.
Qed.

Lemma create_ok sdsSize numThreads :
  0 < AggregateWidth → 0 ≤ sdsSize → sdsSize < InitialArrayCapacity * AggregateWidth →
  ∃ m, create sdsSize numThreads = Ok m ∧ shape m ∧ logCapacity m = LogInitialArrayCapacity ∧
    (∀ l i, cnt m l i = 0 ∧ flg m l i = false) ∧
    nextLevelRecountingNodes m = ConcurrentBucketMap.create numThreads ∧
    size m = sdsSize / AggregateWidth + 1.
Proof.
  intros HW Hs Hfit. unfold create.
  match goal with |- context [recomputeLevelInfo ?x] => set (m0 := x) end.
  destruct (recomputeLevelInfo_ok m0) as (m&->&Hm&Hlog&Hagg&_&Hcap&Hnext&_).
  - done.
  - done.
  - done.
  - unfold m0. cbn [aggregates logCapacity]. unfold InitialArrayCapacity, LogInitialArrayCapacity.
    rewrite zlen_replicate, getSizeForCapacity_pow by lia. rewrite Z2Nat.id; [done|].
    apply Z.pow_nonneg. lia.
  - cbn [mbind result_bind]. unfold lowestLevelNodeIndex. rewrite Z.quot_div_nonneg by lia.
    rewrite assert_ok; cycle 1.
    { apply Z.leb_le. cbn [size set_size capacity]. rewrite Hcap. unfold m0. cbn [capacity].
      assert (sdsSize / AggregateWidth < InitialArrayCapacity); [|lia].
      apply Z.div_lt_upper_bound; lia. }
    cbn [mbind result_bind]. eexists. split; [done|]. split_and!; [by destruct Hm|done| |done|done].
    intros l i. unfold cnt, flg, cell. cbn [set_size aggregates logCapacity]. rewrite Hagg.
    unfold m0. cbn [aggregates]. unfold at_. destruct (0 <=? _); [|done].
    destruct (replicate _ defaultEntry !! _) eqn:Hr; [|done].
    apply lookup_replicate_1 in Hr as [-> _]. done.
Qed.

Lemma growCapacity_ok newSize m :
  0 ≤ logCapacity m → capacity m = 2 ^ logCapacity m →
  logCapacityWithSuperRoot m = logCapacity m + 1 → 0 ≤ newSize →
  ∃ m', growCapacity newSize m = Ok m' ∧ logCapacity m ≤ logCapacity m' ∧
    capacity m' = 2 ^ logCapacity m' ∧ logCapacityWithSuperRoot m' = logCapacity m' + 1 ∧
    newSize < capacity m' ∧ (capacity m' = capacity m ∨ capacity m' ≤ 2 * newSize) ∧
    size m' = size m ∧ nextLevelRecountingNodes m' = nextLevelRecountingNodes m ∧
    numberOfThreads m' = numberOfThreads m.
Proof.
  intros Hlog Hcap Hsuper Hnew. apply wp_returns.
  apply (wp_while (λ m', logCapacity m ≤ logCapacity m' ∧
    capacity m' = 2 ^ logCapacity m' ∧ logCapacityWithSuperRoot m' = logCapacity m' + 1 ∧
    (capacity m' = capacity m ∨ capacity m' ≤ 2 * newSize) ∧ size m' = size m ∧
    nextLevelRecountingNodes m' = nextLevelRecountingNodes m ∧
    numberOfThreads m' = numberOfThreads m) (λ m', Z.max 0 (newSize + 1 - capacity m'))).
  - intros m' (Hl&Hc&Hs&Hb&Hsz&Hn&Ht). split; [lia|]. cbn [wp].
    assert (0 < capacity m') by (rewrite Hc; apply Z.pow_pos_nonneg; lia).
    destruct (Z.leb_spec (capacity m') newSize); cbn [wp].
    + cbn [set_capacity capacity logCapacity logCapacityWithSuperRoot size nextLevelRecountingNodes
        numberOfThreads].
      split; [|lia]. split_and!; try done; try lia.
      rewrite Hc, Z.pow_add_r by lia. done.
    + by split_and!.
  - split_and!; try done. by left.
  - assert (0 < capacity m) by (rewrite Hcap; apply Z.pow_pos_nonneg; lia). lia.
Qed.

(** After [resize] the tree has a leaf for every segment. *)
Lemma resize_ok m newSdsSize :
  shape m → 0 < AggregateWidth → 0 ≤ newSdsSize → logCapacity m ≤ 60 →
  newSdsSize / AggregateWidth < 2 ^ 58 →
  (size m ≤ capacity m) →
  ∃ m', resize m newSdsSize = Ok m' ∧ shape m' ∧
    size m' = newSdsSize / AggregateWidth + 1 ∧ size m' ≤ capacity m' ∧
    (capacity m < size m' → ∀ l i, cnt m' l i = 0 ∧ flg m' l i = false) ∧
    (size m' ≤ capacity m → aggregates m' = aggregates m ∧ logCapacity m' = logCapacity m) ∧
    nextLevelRecountingNodes m' = nextLevelRecountingNodes m ∧
    logCapacity m ≤ logCapacity m' ∧ (capacity m' = capacity m ∨ capacity m' ≤ 2 * size m').
Proof.
  intros Hm HW Hs Hlog60 Hfit Hsize. unfold resize, lowestLevelNodeIndex.
  rewrite Z.quot_div_nonneg by lia. set (n := newSdsSize / AggregateWidth + 1) in *.
  assert (0 ≤ newSdsSize / AggregateWidth) by (apply Z.div_pos; lia).
  cbn [set_size capacity size].
  destruct (negb (n =? size m) && (capacity m <? n)) eqn:Hcase.
  - apply andb_true_iff in Hcase as [_ Hlt]. apply Z.ltb_lt in Hlt.
    destruct (growCapacity_ok n (set_size m n)) as
      (m1&->&Hl1&Hc1&Hs1&Hn1&Hb1&Hsz1&Hnext1&_); [apply Hm..|lia|].
    cbn [mbind result_bind]. cbn [set_size capacity size logCapacity nextLevelRecountingNodes] in *.
    assert (logCapacity m1 ≤ 60) as H60.
    { destruct Hb1 as [Heq|Hle]; [rewrite Heq in Hn1; lia|].
      assert (2 ^ logCapacity m1 < 2 ^ 60) as Hpow by (rewrite <-Hc1; lia).
      apply Z.pow_lt_mono_r_iff in Hpow; [lia|lia|lia]. }
    pose proof (shape_log m Hm).
    set (m2 := set_aggregates _ _).
    destruct (recomputeLevelInfo_ok m2) as (m'&->&Hm'&Hlog'&Hagg'&Hsz'&Hcap'&Hnext'&_).
    + cbn [m2 set_aggregates logCapacity]. lia.
    + done.
    + done.
    + unfold m2. cbn [set_aggregates logCapacity aggregates]. rewrite Hc1.
      rewrite zlen_replicate, getSizeForCapacity_pow by lia. rewrite Z2Nat.id; [done|].
      apply Z.pow_nonneg. lia.
    + exists m'. split; [done|]. rewrite Hsz', Hcap'. cbn [m2 set_aggregates size capacity].
      rewrite Hsz1. cbn [m2 set_aggregates logCapacity] in Hlog'.
      split_and!; [done|done|lia| | |by rewrite Hnext'|lia|lia].
      * intros _ l i. unfold cnt, flg, cell. rewrite Hagg'. unfold m2. cbn [set_aggregates aggregates].
        unfold at_. destruct (0 <=? _); [|done].
        destruct (replicate _ defaultEntry !! _) eqn:Hr; [|done].
        apply lookup_replicate_1 in Hr as [-> _]. done.
      * intros ?. lia.
  - eexists. split; [done|]. split_and!; [by destruct Hm|done| | |done|done|done|by left].
    + cbn [set_size size capacity]. apply andb_false_iff in Hcase as [Hc|Hc].
      * apply negb_false_iff, Z.eqb_eq in Hc. lia.
      * apply Z.ltb_ge in Hc. lia.
    + cbn [set_size size]. intros Hlt. apply andb_false_iff in Hcase as [Hc|Hc].
      * apply negb_false_iff, Z.eqb_eq in Hc. lia.
      * apply Z.ltb_ge in Hc. lia.
Qed.
End shape.

(** * Counting blocks: recomputation, validation and the block search

    [weight i] is the number of blocks at entry [i] of the pma: the block itself and its
    buffer blocks.  A tree whose nodes hold the sums of the weights below them is what
    [recompute] builds, [validate] accepts, and [findBlockInRebalancingTask] searches. *)

Section count.
Context `{T : SdsTypes} `{R : RebalancingConfig} `{D : DensityManager} `{H : ConcurrentBucketMap.Hash}.
Variables (sds : SdsView) (is_empty : Z → bool) (buffers : Z → Z).
Implicit Types (m : Manager) (l i : Z).

(** Entries from [0] to [bound] can be read. *)
Definition readable (bound : Z) : Prop :=
  ∀ i, 0 ≤ i < bound → view_empty sds i = Ok (is_empty i) ∧
    view_numberOfBufferBlocks sds i = Ok (buffers i) ∧ 0 ≤ buffers i.

Definition weight (i : Z) : Z := (if is_empty i then 0 else 1) + buffers i.

(** The blocks of segment [j], as far as the pma reaches. *)
Definition segment (sdsSize j : Z) : Z :=
  sum_range weight (getBlockIndexLevelZero j) (Z.min sdsSize (getBlockIndexLevelZero (j + 1))).

Lemma countBlocks_ok bound a b :
  readable bound → 0 ≤ a → b ≤ bound → countBlocks sds a b = Ok (sum_range weight a b).
Proof.
  intros Hread Ha Hb. unfold countBlocks.
  destruct (Z.le_gt_cases b a) as [Hle|Hlt].
  - by rewrite for_range_nil, sum_range_nil by lia.
  - rewrite <-(sum_range_nil weight a a) at 1 by lia.
    apply (for_range_states a b _ (λ i, sum_range weight a i)); [lia|].
    intros i Hi. destruct (Hread i ltac:(lia)) as (He&Hbuf&_). rewrite He, Hbuf. simpl.
    rewrite sum_range_snoc by lia. unfold weight. f_equal. lia.
Qed.

Lemma weight_nonneg bound a b :
  readable bound → 0 ≤ a → b ≤ bound → 0 ≤ sum_range weight a b.
Proof.
  intros Hread Ha Hb. destruct (Z.le_gt_cases b a) as [Hle|Hlt]; [by rewrite sum_range_nil|].
  remember (Z.to_nat (b - a)) as n eqn:Hn. revert a Ha Hlt Hn.
  induction n as [|n IH]; intros a Ha Hlt Hn; [lia|].
  rewrite sum_range_cons by lia.
  assert (0 ≤ sum_range weight (a + 1) b).
  { destruct (decide (a + 1 < b)); [apply IH; lia|]. rewrite sum_range_nil; lia. }
  destruct (Hread a ltac:(lia)) as (_&_&?). unfold weight at 1. destruct (is_empty a); lia.
Qed.

Lemma aggregateNodeRangeLevelZero_ok bound j :
  readable bound → 0 < AggregateWidth → 0 ≤ j → Z.max 1 (view_size sds) ≤ bound →
  aggregateNodeRangeLevelZero sds j = Ok (segment (Z.max 1 (view_size sds)) j).
Proof.
  intros Hread HW Hj Hb. unfold aggregateNodeRangeLevelZero.
  apply (countBlocks_ok bound); [done|unfold getBlockIndexLevelZero; lia|lia].
Qed.

(** ** Recomputation *)

(** A pass that writes the counts [tgt] to the nodes of level [L]. *)
Definition rewritten m m' (L n : Z) (tgt : Z → Z) : Prop :=
  shape m' ∧ logCapacity m' = logCapacity m ∧
  nextLevelRecountingNodes m' = nextLevelRecountingNodes m ∧
  (∀ l i, node_in (logCapacity m) l i → flg m' l i = flg m l i) ∧
  (∀ l i, node_in (logCapacity m) l i → l ≠ L ∨ n ≤ i → cnt m' l i = cnt m l i) ∧
  (∀ i, 0 ≤ i < n → cnt m' L i = tgt i).

Lemma rewrite_pass m L (tgt : Z → Z) (body : Z → Manager → result Manager) :
  shape m → 0 ≤ L ≤ logCapacity m →
  (∀ m' i, 0 ≤ i < 2 ^ (logCapacity m - L) → rewritten m m' L i tgt →
     body i m' = setBlocksOf m' i L (tgt i)) →
  wp (for_range 0 (2 ^ (logCapacity m - L)) body m)
     (λ m', rewritten m m' L (2 ^ (logCapacity m - L)) tgt).
Proof.
  intros Hm HL Hbody.
  assert (0 < 2 ^ (logCapacity m - L)) by (apply Z.pow_pos_nonneg; lia).
  apply (wp_for (λ i m', rewritten m m' L i tgt)).
  - intros i m' Hi Hre. rewrite (Hbody m' i Hi Hre).
    destruct Hre as (Hs&Hlog&Hnext&Hflg&Hcnt&Hdone).
    assert (node_in (logCapacity m) L i) as Hn by (by left).
    destruct (setBlocksOf_ok m' L i (tgt i)) as (m2&->&(Hs2&Hlog2&Hnext2&_&Hcell&Hother));
      [done|by rewrite Hlog|]. rewrite Hlog in *. simpl.
    split_and!; [done|done|congruence| | |].
    + intros l j Hj. destruct (decide ((l, j) = (L, i))) as [Heq|Hne].
      * simplify_eq. unfold flg at 1. rewrite Hcell. simpl. auto.
      * unfold flg at 1. rewrite Hother by done. by apply Hflg.
    + intros l j Hj Hor. unfold cnt at 1. rewrite Hother; [|done|].
      * apply Hcnt; [done|lia].
      * intros ?; simplify_eq. lia.
    + intros j Hj. destruct (decide (j = i)) as [->|Hne].
      * unfold cnt. by rewrite Hcell.
      * unfold cnt. rewrite Hother; [apply Hdone; lia|left; split; lia|congruence].
  - split_and!; try done. intros i Hi. lia.
  - intros m' Hre. by rewrite Z.max_r in Hre by lia.
Qed.

(** [recompute] writes the true count to every node, whatever was there before. *)
Lemma recompute_ok m bound sdsSize :
  shape m → 0 < AggregateWidth → readable bound → sdsSize ≤ bound →
  ∃ m', recompute m sds sdsSize = Ok m' ∧ shape m' ∧ logCapacity m' = logCapacity m ∧
    (∀ l i, node_in (logCapacity m) l i → l ≤ logCapacity m →
       cnt m' l i = target (segment sdsSize) l i) ∧
    (∀ l i, node_in (logCapacity m) l i → flg m' l i = flg m l i).
Proof.
  intros Hm HW Hread Hb. apply wp_returns. unfold recompute. apply wp_bind.
  pose proof (shape_log m Hm) as HLc.
  unfold recomputeLevelZero. rewrite (numberOfAggregatesInLevel_ok m 0) by (done || lia).
  cbn [mbind result_bind]. eapply wp_mono.
  { apply (rewrite_pass m 0 (segment sdsSize)); [done|lia|].
    intros m' i Hi (Hs&Hlog&_). rewrite (countBlocks_ok bound);
      [|done|unfold getBlockIndexLevelZero; lia|lia].
    cbn [mbind result_bind]. rewrite assert_ok; [done|]. apply Z.ltb_lt.
    rewrite (shape_capacity m' Hs), Hlog. rewrite Z.sub_0_r in Hi. lia. }
  intros m1 (Hs1&Hlog1&_&Hflg1&_&Hdone1). rewrite Hlog1.
  apply (wp_for (λ L m', shape m' ∧ logCapacity m' = logCapacity m ∧
    (∀ l i, node_in (logCapacity m) l i → l < L → l ≤ logCapacity m →
       cnt m' l i = target (segment sdsSize) l i) ∧
    (∀ l i, node_in (logCapacity m) l i → flg m' l i = flg m l i))).
  - intros L m' HL (Hs&Hlog&Hcnt&Hflg). rewrite <-Hlog in *.
    rewrite (numberOfAggregatesInLevel_ok m' L) by (done || lia). cbn [mbind result_bind].
    eapply wp_mono.
    { apply (rewrite_pass m' L (target (segment sdsSize) L)); [done|lia|].
      intros m2 i Hi (Hs2&Hlog2&_&_&Hcnt2&_).
      assert (node_in (logCapacity m') L i) as Hn by (left; lia).
      rewrite (aggregateNodeHigherLevel_ok m2 L i) by (rewrite ?Hlog2; done || lia).
      cbn [mbind result_bind]. rewrite (assertIndex_ok m2 L i) by (rewrite ?Hlog2; done).
      cbn [mbind result_bind]. destruct (children_in _ _ _ Hn) as [Hc1 Hc2]; [lia|].
      rewrite (target_succ (segment sdsSize) L i) by lia. f_equal.
      rewrite !Hcnt2 by (done || lia). by rewrite !Hcnt by (done || lia). }
    intros m2 (Hs2&Hlog2&_&Hflg2&Hcnt2&Hdone2). split_and!; [done|done| |].
    + intros l i Hn Hl HlL. destruct (decide (l = L)) as [->|].
      * apply Hdone2. destruct Hn as [[_ ?]|[? ?]]; lia.
      * rewrite Hcnt2 by (done || lia). apply Hcnt; [done|lia|done].
    + intros l i Hn. rewrite Hflg2 by done. by apply Hflg.
  - split_and!; [done|done| |done]. intros l i Hn Hl Hl0.
    assert (l = 0) as -> by (destruct Hn as [[? ?]|[? ?]]; lia).
    apply Hdone1. destruct Hn as [[_ ?]|[? ?]]; lia.
  - intros m' (?&?&Hcnt&?). split_and!; [done|done| |done]. intros l i Hn Hl.
    apply Hcnt; [done|lia|done].
Qed.

(** ** Validation *)

Lemma validate_ok m bound sdsSize :
  shape m → 0 < AggregateWidth → readable bound → sdsSize ≤ bound →
  (∀ l i, node_in (logCapacity m) l i → l ≤ logCapacity m →
     cnt m l i = target (segment sdsSize) l i) →
  validate m sds sdsSize = Ok tt.
Proof.
  intros Hm HW Hread Hb Hcnt. pose proof (shape_log m Hm) as HLc.
  assert (wp (validate m sds sdsSize) (λ _, True)) as Hwp.
  { unfold validate, validateLevelZero. apply wp_bind.
    rewrite (numberOfAggregatesInLevel_ok m 0) by (done || lia). cbn [mbind result_bind].
    apply (wp_for (λ _ _, True)); [|done|].
    - intros i _ Hi _. assert (node_in (logCapacity m) 0 i) as Hn by (left; lia).
      rewrite (countBlocks_ok bound); [|done|unfold getBlockIndexLevelZero; lia|lia].
      cbn [mbind result_bind]. rewrite assert_ok; cycle 1.
      { apply Z.ltb_lt. rewrite (shape_capacity m Hm). rewrite Z.sub_0_r in Hi. lia. }
      cbn [mbind result_bind]. destruct NDEBUG; [done|].
      rewrite (blocksOf_ok m 0 i) by done. cbn [mbind result_bind]. rewrite assert_ok; [done|].
      apply Z.eqb_eq. rewrite (Hcnt 0 i) by (done || lia). done.
    - intros _ _. apply (wp_for (λ _ _, True)); [|done|done]. intros L _ HL _.
      rewrite (numberOfAggregatesInLevel_ok m L) by (done || lia). cbn [mbind result_bind].
      apply (wp_for (λ _ _, True)); [|done|done]. intros i _ Hi _.
      assert (node_in (logCapacity m) L i) as Hn by (left; lia).
      rewrite (aggregateNodeHigherLevel_ok m L i) by (done || lia). cbn [mbind result_bind].
      rewrite (assertIndex_ok m L i) by done. cbn [mbind result_bind].
      destruct NDEBUG; [done|]. rewrite (blocksOf_ok m L i) by done. cbn [mbind result_bind].
      rewrite assert_ok; [done|]. apply Z.eqb_eq.
      destruct (children_in _ _ _ Hn) as [Hc1 Hc2]; [lia|].
      rewrite !Hcnt by (done || lia). by rewrite (target_succ _ L i) by lia. }
  apply wp_returns in Hwp as ([]&?&_). done.
Qed.
End count.
