(* ===== verification/RebalancingTasks.v ===== *)
(** * Searching a block by its number and the dominance test

    [findBlockInRebalancingTask] maps the number of a block inside the range of a node
    to the place of that block; [rebalancingNodeDominated] looks for a flagged ancestor. *)

From S2P Require Export RebalancingShape.
Import BinaryRebalancingManager.

Section search.
Context `{T : SdsTypes} `{R : RebalancingConfig} `{D : DensityManager} `{H : ConcurrentBucketMap.Hash}.
Variables (sds : SdsView) (is_empty : Z → bool) (buffers : Z → Z) (m : Manager).
Let Lc := logCapacity m.
#[local] Abbreviation weight := (weight is_empty buffers).

(** The pma entries below a node: [node_left] to [node_left] of the next one. *)
Definition node_left (l i : Z) : Z := i * (2 ^ l * AggregateWidth).

(** The blocks of the range before the place [p], counted from [from]. *)
Definition blocks_before (from : Z) (p : ExtendedPmaIndex) : Z :=
  sum_range weight from (pmaIndex p) +
  (if bufferIndex p =? -1 then 0
   else (if is_empty (pmaIndex p) then 0 else 1) + bufferIndex p).

(** A place inside [from, to]: a pma entry, or a buffer block of an entry. *)
Definition place_in (from to : Z) (p : ExtendedPmaIndex) : Prop :=
  from ≤ pmaIndex p ≤ to ∧
  (bufferIndex p = -1 ∨ (pmaIndex p < to ∧ 0 ≤ bufferIndex p < buffers (pmaIndex p))).

Hypothesis Hm : shape m.
Hypothesis HW : 0 < AggregateWidth.
Hypothesis Hread : readable sds is_empty buffers (2 ^ Lc * AggregateWidth).
Hypothesis counts : ∀ l i, node_in Lc l i → l ≤ Lc →
  cnt m l i = sum_range weight (node_left l i) (node_left l (i + 1)).

Lemma node_left_children l i : 1 ≤ l →
  node_left (l - 1) (leftChild i) = node_left l i ∧
  node_left (l - 1) (leftChild i + 1) = node_left (l - 1) (rightChild i) ∧
  node_left (l - 1) (rightChild i + 1) = node_left l (i + 1).
Proof.
  clear. intros Hl. unfold node_left, leftChild, rightChild.
  assert (2 ^ l = 2 * 2 ^ (l - 1)) as ->; [|lia].
  rewrite <-Z.pow_succ_r by lia. f_equal. lia.
Qed.

Lemma node_left_bound l i :
  node_in Lc l i → l ≤ Lc → 0 ≤ node_left l i ∧ node_left l i ≤ node_left l (i + 1) ∧
    node_left l (i + 1) ≤ 2 ^ Lc * AggregateWidth.
Proof.
  intros [[Hl Hi]|[? ?]] ?; [|lia]. unfold node_left.
  assert (0 < 2 ^ l) by (apply Z.pow_pos_nonneg; lia).
  assert (2 ^ Lc = 2 ^ (Lc - l) * 2 ^ l) as -> by (rewrite <-Z.pow_add_r by lia; f_equal; lia).
  split_and!; [nia|nia|]. rewrite <-Z.mul_assoc. apply Z.mul_le_mono_nonneg_r; nia.
Qed.

Lemma cnt_nonneg l i : node_in Lc l i → l ≤ Lc → 0 ≤ cnt m l i.
Proof.
  intros Hn Hl. rewrite counts by done. destruct (node_left_bound l i Hn Hl) as (?&?&?).
  by apply (weight_nonneg sds is_empty buffers (2 ^ Lc * AggregateWidth)).
Qed.

(** A node below [(l, i)] with the number of blocks that remain to be skipped in it. *)
Definition descended l i n : RebalancingNode * Z → Prop := λ '(nd, r), ∃ l' i',
  nd = mkRebalancingNode l' i' ∧ node_in Lc l' i' ∧ 0 ≤ l' ≤ Lc ∧ 0 ≤ r ≤ cnt m l' i' ∧
  node_left l i ≤ node_left l' i' ∧ node_left l' (i' + 1) ≤ node_left l (i + 1) ∧
  n = sum_range weight (node_left l i) (node_left l' i') + r ∧
  (n = 0 → node_left l' i' = node_left l i ∧ r = 0) ∧ (0 < n → 0 < r).

Lemma children_blocks l' i' : node_in Lc l' i' → 0 < l' ≤ Lc →
  cnt m l' i' = cnt m (l' - 1) (leftChild i') + cnt m (l' - 1) (rightChild i').
Proof.
  intros Hn' Hl'. destruct (children_in _ _ _ Hn') as [Hc1 Hc2]; [lia|].
  destruct (node_left_children l' i') as (E1&E2&E3); [lia|].
  rewrite !counts by (done || lia). rewrite E1, E2, E3.
  destruct (node_left_bound _ _ Hc1) as (_&B1&_); [lia|].
  destruct (node_left_bound _ _ Hc2) as (_&B2&_); [lia|].
  rewrite E1, E2 in B1. rewrite E3 in B2. by apply sum_range_split.
Qed.

Lemma descend_assert l' i' r : node_in Lc l' i' → l' ≤ Lc → r ≤ cnt m l' i' →
  (if NDEBUG then Ok tt else n0 ← blocksOf m i' l'; AssertMsg (r <=? n0)) = Ok tt.
Proof.
  intros Hn' Hl' Hr. destruct NDEBUG; [done|]. rewrite blocksOf_ok by done.
  cbn [mbind result_bind]. by apply assert_ok, Z.leb_le.
Qed.

(** One step down. *)
Lemma descend_step l i n l' i' r :
  node_in Lc l i → l ≤ Lc → 0 < l' → descended l i n (mkRebalancingNode l' i', r) →
  (cnt m (l' - 1) (leftChild i') < r →
     descended l i n (mkRebalancingNode (l' - 1) (rightChild i'), r - cnt m (l' - 1) (leftChild i'))) ∧
  (r ≤ cnt m (l' - 1) (leftChild i') → descended l i n (mkRebalancingNode (l' - 1) (leftChild i'), r)).
Proof.
  intros Hn Hl Hpos (?&?&[= <- <-]&Hn'&Hl'&Hr&Hlo&Hhi&Hsum&Hzero&Hpos').
  destruct (children_in _ _ _ Hn') as [Hc1 Hc2]; [lia|].
  destruct (node_left_children l' i') as (E1&E2&E3); [lia|].
  rewrite (children_blocks _ _ Hn') in Hr by lia.
  destruct (node_left_bound _ _ Hc1) as (_&B1&_); [lia|].
  destruct (node_left_bound _ _ Hc2) as (_&B2&_); [lia|].
  pose proof (cnt_nonneg (l' - 1) (leftChild i') Hc1 ltac:(lia)) as Hleft.
  split; intros Hcmp.
  - exists (l' - 1), (rightChild i'). split_and!; try done; try lia.
    rewrite <-E2 in *. rewrite E1 in *.
    rewrite (sum_range_split _ (node_left l i) (node_left l' i')) by lia.
    rewrite (counts (l' - 1) (leftChild i')) by (done || lia). rewrite E1. lia.
  - exists (l' - 1), (leftChild i'). rewrite E1. split_and!; try done; lia.
Qed.

Lemma descend_ok l i n :
  node_in Lc l i → l ≤ Lc → 0 ≤ n ≤ cnt m l i →
  ∃ i' n', descend m (mkRebalancingNode l i) n = Ok (mkRebalancingNode 0 i', n') ∧
    node_in Lc 0 i' ∧ 0 ≤ n' ≤ cnt m 0 i' ∧
    node_left l i ≤ node_left 0 i' ∧ node_left 0 (i' + 1) ≤ node_left l (i + 1) ∧
    n = sum_range weight (node_left l i) (node_left 0 i') + n' ∧
    (n = 0 → node_left 0 i' = node_left l i) ∧ (0 < n → 0 < n').
Proof.
  intros Hn Hl Hnb. assert (0 ≤ l) as Hl0 by (destruct Hn as [[? ?]|[? ?]]; lia).
  assert (wp (descend m (mkRebalancingNode l i) n) (λ '(nd, r), level nd = 0 ∧ descended l i n (nd, r))) as Hwp.
  { unfold descend. apply (wp_while (descended l i n) (λ '(nd, _), level nd)).
    - intros [nd r] Hd. pose proof Hd as (l'&i'&->&Hn'&Hl'&Hr&_).
      cbn [level index]. split; [lia|]. cbn [wp].
      destruct (Z.ltb_spec 0 l') as [Hpos|Hz]; [|split; [lia|done]].
      destruct (children_in _ _ _ Hn') as [Hc1 Hc2]; [lia|].
      rewrite (blocksOf_ok m (l' - 1) (leftChild i')) by done. cbn [mbind result_bind].
      destruct (descend_step l i n l' i' r Hn Hl Hpos Hd) as [Hright Hleft].
      rewrite (children_blocks _ _ Hn') in Hr by lia.
      destruct (Z.ltb_spec (cnt m (l' - 1) (leftChild i')) r) as [Hlt|Hge].
      + cbn [level index]. rewrite (descend_assert (l' - 1) (rightChild i')) by (done || lia).
        cbn [mbind result_bind wp level]. split; [by apply Hright|lia].
      + cbn [level index]. rewrite (descend_assert (l' - 1) (leftChild i')) by (done || lia).
        cbn [mbind result_bind wp level]. split; [by apply Hleft|lia].
    - exists l, i. split_and!; try done; try lia. rewrite sum_range_nil; lia.
    - cbn [level]. lia. }
  apply wp_returns in Hwp as ([nd r]&->&Hz&l'&i'&->&Hn'&Hl'&Hr&Hlo&Hhi&Hsum&Hzero&Hpos).
  cbn [level] in Hz. subst l'. exists i', r. split_and!; done || lia.
Qed.

Lemma scanSegment_ok a b n :
  0 ≤ a ≤ b → b ≤ 2 ^ Lc * AggregateWidth → 0 ≤ n ≤ sum_range weight a b →
  ∃ p, scanSegment sds (mkInterval a b) n = Ok p ∧ place_in a b p ∧ blocks_before a p = n ∧
    (n = 0 → p = mkExtendedPmaIndex a (-1)) ∧
    (0 < n → bufferIndex p = -1 → a < pmaIndex p ∧ 0 < weight (pmaIndex p - 1)).
Proof.
  intros Hab Hb Hn. apply wp_returns. unfold scanSegment.
  apply (wp_loop (λ '(bi, r), a ≤ bi ≤ b ∧ 0 ≤ r ≤ sum_range weight bi b ∧
    sum_range weight a bi + r = n ∧ (n = 0 → bi = a) ∧
    (0 < n → r = 0 → a < bi ∧ 0 < weight (bi - 1))) (λ '(bi, _), b - bi + 1)).
  - intros [bi r] (Hbi&Hr&Hsum&Hzero&Htight). split; [lia|].
    destruct (Z.leb_spec 0 r); [|lia]. destruct (Z.eqb_spec r 0) as [->|Hr0].
    + rewrite assert_ok by (apply Z.leb_le; simpl; lia). cbn [mbind result_bind wp].
      unfold place_in, blocks_before. simpl. split_and!; [lia|lia|by left|lia| |].
      * intros Hn0. by rewrite Hzero.
      * intros Hn0 _. by apply Htight.
    + destruct (decide (bi = b)) as [->|Hne]; [rewrite sum_range_nil in Hr; lia|].
      destruct (Hread bi ltac:(lia)) as (He&Hbuf&Hbuf0). rewrite He, Hbuf.
      cbn [mbind result_bind]. rewrite sum_range_cons in Hr by lia.
      assert (weight bi = (if is_empty bi then 0 else 1) + buffers bi) as Hw by done.
      assert (0 ≤ (if is_empty bi then r else r - 1)) by (destruct (is_empty bi); lia).
      destruct (Z.ltb_spec (if is_empty bi then r else r - 1) (buffers bi)) as [Hlt|Hge]; cbn [wp].
      * unfold place_in, blocks_before. cbn [pmaIndex bufferIndex].
        destruct (Z.eqb_spec (if is_empty bi then r else r - 1) (-1)); [lia|].
        split; [split; [lia|right; lia]|]. split; [destruct (is_empty bi); lia|].
        split; [|intros _ ?; lia]. intros Hn0. specialize (Hzero Hn0). subst bi.
        rewrite sum_range_nil in Hsum by lia. lia.
      * rewrite assert_ok by (apply Z.leb_le; simpl; lia). cbn [mbind result_bind wp].
        rewrite sum_range_snoc by lia. split; [|lia]. replace (bi + 1 - 1) with bi by lia.
        split_and!; try (destruct (is_empty bi); lia).
        intros Hn0. specialize (Hzero Hn0). subst bi. rewrite sum_range_nil in Hsum by lia. lia.
  - simpl. rewrite (sum_range_nil _ a a) by lia. lia.
  - cbn [Interval.length Interval.left Interval.right]. unfold Interval.length. simpl. lia.
Qed.

Lemma rebalancingRange_ok l i :
  node_in Lc l i → l ≤ Lc →
  rebalancingRange m (mkRebalancingNode l i) = Ok (mkInterval (node_left l i) (node_left l (i + 1))).
Proof.
  intros Hn Hl. unfold rebalancingRange. cbn [level index]. rewrite (shape_super m Hm).
  destruct (Z.eqb_spec l (logCapacity m + 1)); [lia|].
  assert (0 ≤ l) by (destruct Hn as [[? ?]|[? ?]]; lia).
  rewrite (zget_at _ _ _ (shape_widths m Hm l ltac:(lia))). done.
Qed.

Lemma findBlock_ok l i n :
  node_in Lc l i → l ≤ Lc → 0 ≤ n ≤ cnt m l i →
  ∃ p, findBlockInRebalancingTask m sds (mkRebalancingNode l i) n = Ok p ∧
    place_in (node_left l i) (node_left l (i + 1)) p ∧ blocks_before (node_left l i) p = n ∧
    (n = 0 → p = mkExtendedPmaIndex (node_left l i) (-1)) ∧
    (0 < n → bufferIndex p = -1 → node_left l i < pmaIndex p ∧ 0 < weight (pmaIndex p - 1)).
Proof.
  intros Hn Hl Hnb. unfold findBlockInRebalancingTask. cbn [level index].
  destruct (Z.ltb_spec (logCapacity m) l); [lia|]. cbn [mbind result_bind level index].
  rewrite (blocksOf_ok m l i) by done. cbn [mbind result_bind].
  destruct (Z.ltb_spec (cnt m l i) n); [lia|].
  destruct (descend_ok l i n) as (i'&n'&->&Hn'&Hnb'&Hlo&Hhi&Hsum&Hzero&Hpos); [done..|].
  cbn [mbind result_bind]. pose proof (shape_log m Hm).
  rewrite rebalancingRange_ok by (done || lia). cbn [mbind result_bind level index].
  assert ((if NDEBUG then Ok tt else n0 ← blocksOf m i' 0; AssertMsg (n' <=? n0)) = Ok tt) as ->.
  { destruct NDEBUG; [done|]. rewrite (blocksOf_ok m 0 i') by done.
    cbn [mbind result_bind]. apply assert_ok, Z.leb_le. lia. }
  cbn [mbind result_bind].
  destruct (node_left_bound 0 i') as (B1&B2&B3); [done|lia|].
  destruct (scanSegment_ok (node_left 0 i') (node_left 0 (i' + 1)) n') as (p&->&[Hp1 Hp2]&Hb&Hp0&Htight);
    [lia|lia|rewrite <-counts by (done || lia); lia|].
  exists p. split; [done|]. split; [split; [lia|]|split_and!].
  - destruct Hp2 as [?|?]; [by left|right]. lia.
  - unfold blocks_before in *. rewrite (sum_range_split _ (node_left l i) (node_left 0 i')) by lia. lia.
  - intros Hn0. rewrite <-(Hzero Hn0). apply Hp0. rewrite Hn0, (Hzero Hn0) in Hsum.
    rewrite sum_range_nil in Hsum by lia. lia.
  - intros Hn0 Hb1. destruct (Htight (Hpos Hn0) Hb1) as [? ?]. split; [lia|done].
Qed.

(** A block number past the end of the task is the end of its range. *)
Lemma findBlock_end l i n :
  node_in Lc l i → l ≤ Lc → cnt m l i < n →
  findBlockInRebalancingTask m sds (mkRebalancingNode l i) n =
    Ok (mkExtendedPmaIndex (node_left l (i + 1)) (-1)).
Proof.
  intros Hn Hl Hnb. unfold findBlockInRebalancingTask. cbn [level index].
  destruct (Z.ltb_spec (logCapacity m) l); [lia|]. cbn [mbind result_bind level index].
  rewrite (blocksOf_ok m l i) by done. cbn [mbind result_bind].
  destruct (Z.ltb_spec (cnt m l i) n); [|lia].
  rewrite rebalancingRange_ok by done. done.
Qed.
End search.

(** ** Dominance *)

Section dominance.
Context `{T : SdsTypes} `{R : RebalancingConfig} `{D : DensityManager} `{H : ConcurrentBucketMap.Hash}.
Implicit Types (m : Manager) (l i : Z).

(** Some node strictly above [(l, i)] is flagged. *)
Definition dominated m l i : Prop :=
  ∃ k, 0 < k ∧ l + k ≤ logCapacity m + 1 ∧ flg m (l + k) (i / 2 ^ k) = true.

Lemma parent_div i k : 0 ≤ i → 0 ≤ k → parent (i / 2 ^ k) = i / 2 ^ (k + 1).
Proof. intros. symmetry. by apply (ancestor_succ i k). Qed.

Lemma dominatingAncestor_ok m l i :
  shape m → node_in (logCapacity m) l i → l ≤ logCapacity m →
  ∃ b : bool, dominatingAncestor m (mkRebalancingNode l i) = Ok b ∧ (b = true ↔ dominated m l i).
Proof.
  intros Hm Hn Hl. pose proof (shape_super m Hm) as Hsuper.
  assert (0 ≤ l ∧ 0 ≤ i < 2 ^ (logCapacity m - l)) as [Hl0 Hi] by (destruct Hn as [[? ?]|[? ?]]; lia).
  apply wp_returns. unfold dominatingAncestor. cbn [level index]. rewrite Hsuper.
  apply (wp_loop (λ '(lvl, idx), ∃ k, 0 < k ∧ lvl = l + k ∧ lvl ≤ logCapacity m + 2 ∧
      idx = i / 2 ^ k ∧ ∀ k', 0 < k' < k → flg m (l + k') (i / 2 ^ k') = false)
    (λ '(lvl, _), logCapacity m + 2 - lvl)).
  - intros [lvl idx] (k&Hk&->&Hb&->&Hnone). split; [lia|].
    destruct (Z.leb_spec (l + k) (logCapacity m + 1)) as [Hle|Hgt].
    + assert (0 ≤ i / 2 ^ k) by (apply Z.div_pos; [lia|apply Z.pow_pos_nonneg; lia]).
      assert (node_in (logCapacity m) (l + k) (i / 2 ^ k)) as Hnk.
      { destruct (decide (l + k = logCapacity m + 1)) as [Heq|].
        - right. split; [done|]. apply Z.div_small. split; [lia|].
          apply (Z.lt_le_trans _ (2 ^ (logCapacity m - l))); [lia|]. apply Z.pow_le_mono_r; lia.
        - left. split; [lia|]. split; [done|].
          apply Z.div_lt_upper_bound; [apply Z.pow_pos_nonneg; lia|].
          rewrite <-Z.pow_add_r by lia. replace (k + (logCapacity m - (l + k))) with (logCapacity m - l) by lia.
          lia. }
      rewrite (node_at_ok m (l + k) (i / 2 ^ k)) by done. cbn [mbind result_bind].
      destruct (rebalanced (cell m (l + k) (i / 2 ^ k))) eqn:Hf; cbn [wp].
      * split; [|done]. intros _. by exists k.
      * split; [|lia]. exists (k + 1). split_and!; [lia|lia|lia|apply parent_div; lia|].
        intros k' Hk'. destruct (decide (k' = k)) as [->|]; [done|]. apply Hnone. lia.
    + cbn [wp]. split; [done|]. intros (k'&Hk'&Hle'&Hf). rewrite Hnone in Hf; [done|]. lia.
  - exists 1. split_and!; [lia|done|lia| |intros; lia].
    unfold parent. rewrite Z.quot_div_nonneg by lia. done.
  - lia.
Qed.

(** The flag of a dominated node is cleared; nothing else changes. *)
Lemma rebalancingNodeDominated_ok m l i :
  shape m → node_in (logCapacity m) l i → l ≤ logCapacity m → flg m l i = true →
  ∃ m' (b : bool), rebalancingNodeDominated m (mkRebalancingNode l i) = Ok (m', b) ∧
    (b = true ↔ dominated m l i) ∧ shape m' ∧ logCapacity m' = logCapacity m ∧
    (∀ l' i', node_in (logCapacity m) l' i' → cnt m' l' i' = cnt m l' i') ∧
    (∀ l' i', node_in (logCapacity m) l' i' →
       flg m' l' i' = if bool_decide ((l', i') = (l, i)) then negb b else flg m l' i') ∧
    size m' = size m ∧ nextLevelRecountingNodes m' = nextLevelRecountingNodes m.
Proof.
  intros Hm Hn Hl Hf. unfold rebalancingNodeDominated. cbn [level index].
  assert ((if NDEBUG then Ok tt else e ← node_at m i l; AssertMsg (rebalanced e)) = Ok tt) as ->.
  { destruct NDEBUG; [done|]. rewrite (node_at_ok m l i) by done. by apply assert_ok. }
  cbn [mbind result_bind].
  destruct (dominatingAncestor_ok m l i) as (b&->&Hb); [done..|]. cbn [mbind result_bind].
  destruct b.
  - destruct (storeRebalanced_ok m l i false) as (m'&->&(Hs&Hlog&Hnext&Hsz&Hcell&Hother)); [done..|].
    exists m', true. split; [done|]. split_and!; [done|done|done| | |done|done]; intros l' i' Hn';
      (destruct (decide ((l', i') = (l, i))) as [Heq|Hne];
       [simplify_eq; unfold cnt, flg; rewrite Hcell|unfold cnt, flg; rewrite Hother by done]).
    + done.
    + done.
    + by rewrite bool_decide_eq_true_2.
    + by rewrite bool_decide_eq_false_2.
  - exists m, false. split; [done|]. split_and!; [done|done|done|done| |done|done]. intros l' i' Hn'.
    destruct (decide ((l', i') = (l, i))) as [Heq|Hne]; [simplify_eq|];
      [by rewrite bool_decide_eq_true_2|by rewrite bool_decide_eq_false_2].
Qed.
End dominance.

(** * The tasks of the rebalancing phase

    The counts of the hierarchy as sums over the entries of the array, and the nodes that
    become tasks: the flagged nodes without a flagged ancestor.  Their ranges are disjoint
    and cover every flagged node. *)

(** The counts of a hierarchy over the entries of an array add up the entries below. *)
Lemma target_range `{R : RebalancingConfig} (w : Z → Z) l i :
  0 < AggregateWidth → 0 ≤ l → 0 ≤ i →
  target (λ j, sum_range w (getBlockIndexLevelZero j) (getBlockIndexLevelZero (j + 1))) l i =
  sum_range w (node_left l i) (node_left l (i + 1)).
Proof.
  intros HW Hl. remember (Z.to_nat l) as n eqn:Hn. revert l Hl Hn i.
  induction n as [|n IH]; intros l Hl Hn i Hi.
  - assert (l = 0) as -> by lia. unfold target, node_left, getBlockIndexLevelZero. simpl. f_equal; lia.
  - rewrite target_succ by lia. rewrite !(IH (l - 1)) by (unfold leftChild, rightChild; lia).
    destruct (node_left_children l i) as (H1&H2&H3); [lia|]. rewrite H1, H2, H3.
    assert (0 < 2 ^ (l - 1)) by (apply Z.pow_pos_nonneg; lia).
    symmetry. apply sum_range_split; rewrite <-?H1, <-?H3; unfold node_left, leftChild, rightChild; nia.
Qed.

Lemma segment_range `{R : RebalancingConfig} is_empty buffers sdsSize j :
  0 < AggregateWidth → (∀ i, sdsSize ≤ i → weight is_empty buffers i = 0) →
  segment is_empty buffers sdsSize j =
  sum_range (weight is_empty buffers) (getBlockIndexLevelZero j) (getBlockIndexLevelZero (j + 1)).
Proof.
  intros HW Hz. unfold segment, getBlockIndexLevelZero. set (a := j * _). set (b := (j + 1) * _).
  assert (a ≤ b) by (unfold a, b; nia).
  destruct (Z.le_gt_cases b sdsSize) as [?|Hlt]; [by rewrite Z.min_r by lia|]. rewrite Z.min_l by lia.
  destruct (Z.le_gt_cases a sdsSize) as [Hle|?].
  - rewrite (sum_range_split _ a sdsSize b) by lia. rewrite (sum_range_zero _ sdsSize b); [lia|].
    intros i Hi. apply Hz. lia.
  - rewrite sum_range_nil by lia. symmetry. apply sum_range_zero. intros i Hi. apply Hz. lia.
Qed.

Section roots.
Context `{T : SdsTypes} `{R : RebalancingConfig} `{D : DensityManager} `{H : ConcurrentBucketMap.Hash}.
Implicit Types (m : Manager) (l i j k : Z) (nodes : list RebalancingNode).

(** The hierarchy holds the counts [count] of the segments. *)
Definition counts_match m (count : Z → Z) : Prop :=
  ∀ l i, node_in (logCapacity m) l i → l ≤ logCapacity m → cnt m l i = target count l i.

Lemma counts_consistent m count : counts_match m count →
  ∀ l i, node_in (logCapacity m) l i → 1 ≤ l ≤ logCapacity m →
    cnt m l i = cnt m (l - 1) (leftChild i) + cnt m (l - 1) (rightChild i).
Proof.
  intros Hc l i Hn Hl. destruct (children_in _ _ _ Hn) as [H1 H2]; [lia|].
  rewrite !Hc by (done || lia). apply target_succ. lia.
Qed.

(** ** Ancestors *)

(** The node [(l', i')] is [(l, i)] or one of its ancestors. *)
Definition above l' i' l i : Prop := 0 ≤ l ≤ l' ∧ i' = i / 2 ^ (l' - l).

Lemma above_refl l i : 0 ≤ l → above l i l i.
Proof. intros Hl. split; [lia|]. by rewrite Z.sub_diag, Z.pow_0_r, Z.div_1_r. Qed.

Lemma above_trans l1 i1 l2 i2 l3 i3 : above l1 i1 l2 i2 → above l2 i2 l3 i3 → above l1 i1 l3 i3.
Proof.
  intros [H1 ->] [H2 ->]. split; [lia|]. rewrite Z.div_div by (try apply Z.pow_nonzero; try apply Z.pow_pos_nonneg; lia).
  rewrite <-Z.pow_add_r by lia. do 2 f_equal. lia.
Qed.

Lemma above_ancestor l j : 0 ≤ l → above l (ancestor j l) 0 j.
Proof. intros. split; [lia|]. by rewrite Z.sub_0_r. Qed.

(** The entries of a node are entries of the nodes above it. *)
Lemma above_range l' i' l i : 0 < AggregateWidth → above l' i' l i →
  node_left l' i' ≤ node_left l i ∧ node_left l (i + 1) ≤ node_left l' (i' + 1).
Proof.
  intros HW [Hl ->]. unfold node_left.
  assert (2 ^ l' = 2 ^ (l' - l) * 2 ^ l) as -> by (rewrite <-Z.pow_add_r by lia; f_equal; lia).
  assert (0 < 2 ^ (l' - l)) by (apply Z.pow_pos_nonneg; lia). assert (0 < 2 ^ l) by (apply Z.pow_pos_nonneg; lia).
  assert (0 < 2 ^ l * AggregateWidth) by nia. set (w := 2 ^ l * AggregateWidth) in *.
  rewrite <-!Z.mul_assoc. fold w. rewrite !Z.mul_assoc.
  pose proof (Z.div_mod i (2 ^ (l' - l)) ltac:(lia)). pose proof (Z.mod_pos_bound i (2 ^ (l' - l)) ltac:(lia)).
  split; apply Z.mul_le_mono_nonneg_r; lia.
Qed.

(** Two nodes that share an entry are above one another. *)
Lemma overlap_above l i l' i' c : 0 < AggregateWidth → 0 ≤ l ≤ l' →
  node_left l i ≤ c < node_left l (i + 1) → node_left l' i' ≤ c < node_left l' (i' + 1) → above l' i' l i.
Proof.
  intros HW Hl Hc Hc'. split; [done|]. unfold node_left in *.
  assert (0 < 2 ^ (l' - l)) by (apply Z.pow_pos_nonneg; lia). assert (0 < 2 ^ l) by (apply Z.pow_pos_nonneg; lia).
  assert (2 ^ l' = 2 ^ (l' - l) * 2 ^ l) as Hp by (rewrite <-Z.pow_add_r by lia; f_equal; lia).
  rewrite Hp, <-!Z.mul_assoc, !Z.mul_assoc, <-!(Z.mul_assoc _ (2 ^ l)) in Hc'.
  assert (0 < 2 ^ l * AggregateWidth) by nia. set (w := 2 ^ l * AggregateWidth) in *.
  assert (i = c / w) as -> by (apply Z.div_unique with (c - i * w); lia).
  rewrite Z.div_div by lia. apply Z.div_unique with (c - i' * 2 ^ (l' - l) * w); [left|]; nia.
Qed.

(** ** Undominated nodes *)

Definition node_dominated m (nd : RebalancingNode) : Prop := dominated m (level nd) (index nd).

(** The nodes to rebalance are flagged nodes of the tree. *)
Record nodes_ok m nodes : Prop := {
  no_shape : shape m;
  no_flags : flags_match m nodes;
  no_nodup : NoDup nodes;
  no_levels : ∀ nd, nd ∈ nodes → node_in (logCapacity m) (level nd) (index nd) ∧ level nd ≤ logCapacity m;
}.

Lemma node_eq (nd nd' : RebalancingNode) : level nd = level nd' → index nd = index nd' → nd = nd'.
Proof. destruct nd, nd'; simpl; congruence. Qed.

Lemma level_nonneg m nodes nd : nodes_ok m nodes → nd ∈ nodes → 0 ≤ level nd ∧ 0 ≤ index nd.
Proof. intros Hok Hnd. destruct (no_levels _ _ Hok nd Hnd) as [[[? ?]|[? ?]] ?]; lia. Qed.

Lemma dominated_dec m nodes nd : nodes_ok m nodes → nd ∈ nodes → node_dominated m nd ∨ ¬ node_dominated m nd.
Proof.
  intros Hok Hnd. destruct (no_levels _ _ Hok nd Hnd) as [Hin Hl].
  destruct (dominatingAncestor_ok m (level nd) (index nd)) as ([|]&_&Hb); [apply Hok|done|done|left|right].
  - by apply Hb.
  - intros Hd. by apply Hb in Hd.
Qed.

Lemma node_ancestor Lc l i k : node_in Lc l i → l ≤ Lc → 0 ≤ k → l + k ≤ Lc + 1 → node_in Lc (l + k) (i / 2 ^ k).
Proof.
  intros [[Hl Hi]|[? ?]] HlL Hk Hle; [|lia]. assert (0 < 2 ^ k) by (apply Z.pow_pos_nonneg; lia).
  destruct (decide (l + k = Lc + 1)) as [Heq|]; [rewrite Heq|].
  - right. split; [done|]. apply Z.div_small. split; [lia|].
    apply (Z.lt_le_trans _ (2 ^ (Lc - l))); [lia|]. apply Z.pow_le_mono_r; lia.
  - left. split; [lia|]. split; [apply Z.div_pos; lia|]. apply Z.div_lt_upper_bound; [lia|].
    rewrite <-Z.pow_add_r by lia. replace (k + (Lc - (l + k))) with (Lc - l) by lia. lia.
Qed.

(** A dominating node is a node to rebalance as well. *)
Lemma dominating m nodes nd : nodes_ok m nodes → nd ∈ nodes → node_dominated m nd →
  ∃ up, up ∈ nodes ∧ level nd < level up ∧ above (level up) (index up) (level nd) (index nd).
Proof.
  intros Hok Hnd (k&Hk&Hle&Hf). destruct (no_levels _ _ Hok nd Hnd) as [Hin Hl].
  pose proof (level_nonneg _ _ _ Hok Hnd) as [Hl0 Hi0]. pose proof (no_shape _ _ Hok) as Hs.
  exists (mkRebalancingNode (level nd + k) (index nd / 2 ^ k)). split_and!.
  - apply (no_flags _ _ Hok); [|done]. apply node_ancestor; (done || lia).
  - simpl. lia.
  - simpl. split; [lia|]. do 2 f_equal. lia.
Qed.

(** Every node to rebalance lies below one that is not dominated. *)
Lemma topmost m nodes nd : nodes_ok m nodes → nd ∈ nodes →
  ∃ top, top ∈ nodes ∧ ¬ node_dominated m top ∧ above (level top) (index top) (level nd) (index nd).
Proof.
  intros Hok. remember (Z.to_nat (logCapacity m + 1 - level nd)) as n eqn:Hn. revert nd Hn.
  induction (lt_wf n) as [n _ IH]. intros nd Hn Hnd.
  destruct (dominated_dec _ _ _ Hok Hnd) as [Hd|]; cycle 1.
  { exists nd. split_and!; [done|done|]. apply above_refl. by apply (level_nonneg _ _ _ Hok Hnd). }
  destruct (dominating _ _ _ Hok Hnd Hd) as (up&Hup&Hlt&Hab).
  destruct (no_levels _ _ Hok up Hup) as [_ Hul]. destruct (no_levels _ _ Hok nd Hnd) as [_ Hl].
  destruct (IH (Z.to_nat (logCapacity m + 1 - level up)) ltac:(lia) up eq_refl Hup) as (top&?&?&?).
  exists top. split_and!; [done|done|]. by eapply above_trans.
Qed.

(** Undominated nodes share no entries. *)
Lemma undominated_disjoint m nodes nd nd' c : nodes_ok m nodes → 0 < AggregateWidth →
  nd ∈ nodes → nd' ∈ nodes → ¬ node_dominated m nd → ¬ node_dominated m nd' →
  node_left (level nd) (index nd) ≤ c < node_left (level nd) (index nd + 1) →
  node_left (level nd') (index nd') ≤ c < node_left (level nd') (index nd' + 1) → nd = nd'.
Proof.
  intros Hok HW. assert (∀ nd nd', nd ∈ nodes → nd' ∈ nodes → ¬ node_dominated m nd → level nd ≤ level nd' →
    node_left (level nd) (index nd) ≤ c < node_left (level nd) (index nd + 1) →
    node_left (level nd') (index nd') ≤ c < node_left (level nd') (index nd' + 1) → nd = nd') as Hle.
  { clear nd nd'. intros nd nd' Hnd Hnd' Hdom Hle Hc Hc'. pose proof (level_nonneg _ _ _ Hok Hnd) as [Hl0 _].
    destruct (overlap_above (level nd) (index nd) (level nd') (index nd') c) as [_ Hi]; [done|lia|done|done|].
    destruct (decide (level nd = level nd')) as [Heq|Hne].
    - apply node_eq; [done|]. rewrite Hi, Heq, Z.sub_diag, Z.pow_0_r. by rewrite Z.div_1_r.
    - exfalso. apply Hdom. exists (level nd' - level nd). destruct (no_levels _ _ Hok nd' Hnd') as [Hin Hl'].
      split_and!; [lia|lia|]. replace (level nd + (level nd' - level nd)) with (level nd') by lia.
      rewrite <-Hi. apply (no_flags _ _ Hok); [done|]. by destruct nd'. }
  intros. destruct (Z.le_ge_cases (level nd) (level nd')); [by apply Hle|]. symmetry. by apply Hle.
Qed.
End roots.
