(* ===== verification/Search.v ===== *)
(** * Searching in a sparse array of blocks

    The search functions that the two packed memory arrays have in common
    (dataStructures/batchedSparseArray.hpp; overallocatedBatchedSparseArray.hpp has the
    same text), over the interface [SparseArray]: the end of the used region, the array
    of entries and the emptiness test, in which the two classes differ. *)

From S2P Require Export Block.

Class SparseArray `{T : SdsTypes} (A : Type) := {
  arr_size : A → Z;
  arr_pma : A → list PmaEntry.PmaEntry;
  arr_empty : A → Z → result bool;
}.

(** An assertion whose condition is itself computed; it is not evaluated under NDEBUG. *)
Definition AssertM `{SdsTypes} (c : result bool) : result unit :=
  if NDEBUG then Ok tt else (b ← c; AssertMsg b).

Definition BinarySearchCutoff : Z := 100.

Module Search.
Section definitions.
Context `{T : SdsTypes} {A : Type} `{!SparseArray A}.
Implicit Types (s : A).

Definition entry s (index : Z) : result PmaEntry.PmaEntry := zget (arr_pma s) index.

Definition head s (index : Z) : result Z := e ← entry s index; Ok (PmaEntry.head e).

Definition blockSize s (index : Z) : result Z := e ← entry s index; Ok (PmaEntry.size e).

(** [while (current < upperLimit && empty(current)) ++current]. *)
Definition skipEmpty s (current upperLimit : Z) : result Z :=
  while (S (Z.to_nat (upperLimit - current)))
    (λ current, if current <? upperLimit then arr_empty s current else Ok false)
    (λ current, Ok (current + 1)) current.

Definition findNext s (start upperLimit : Z) : result Z := skipEmpty s (start + 1) upperLimit.

Definition findPrevious s (start lowerLimit : Z) : result Z :=
  while (S (Z.to_nat (start - lowerLimit)))
    (λ current, if lowerLimit <? current then arr_empty s current else Ok false)
    (λ current, Ok (current - 1)) (start - 1).

(** [comp(head(i), e) || head(i) == e]. *)
Definition headAtMost s (i e : Z) : result bool :=
  h ← head s i; Ok (comp h e || (h =? e)).

Definition linearSearch s (e lower upper : Z) : result Z :=
  firstLarger ← findNext s lower upper;
  firstLarger ← while (S (Z.to_nat (upper - firstLarger)))
    (λ firstLarger,
       if firstLarger <? upper then
         b ← arr_empty s firstLarger;
         if b : bool then Ok false else headAtMost s firstLarger e
       else Ok false)
    (λ firstLarger, findNext s firstLarger upper) firstLarger;
  findPrevious s firstLarger lower.

(** [while (prev >= left && empty(prev)) --prev]. *)
Definition lastNonEmpty s (prev left : Z) : result Z :=
  while (S (Z.to_nat (prev + 1 - left)))
    (λ prev, if left <=? prev then arr_empty s prev else Ok false)
    (λ prev, Ok (prev - 1)) prev.

(** State of the search loops: [left], [right] (inclusive) and [candidate]. *)
Definition BinarySearchState : Type := Z * Z * Z.

(** The loop of [binarySearch]; [inl] is an early return. *)
Definition binarySearchLoop s (e lower upper : Z) : result (Z + BinarySearchState) :=
  loop (S (S (Z.to_nat (upper - lower))))
    (λ '(lft, rgt, candidate),
       if BinarySearchCutoff <? rgt - lft then
         let mid := (lft + rgt) ÷ 2 in
         prev ← lastNonEmpty s mid lft;
         if prev <? lft then Ok (inl (mid + 1, rgt, candidate))
         else
           h ← head s prev;
           if h =? e then
             AssertM (r ← linearSearch s e lower upper; Ok (prev =? r));;
             Ok (inr (inl prev))
           else if comp e h then Ok (inl (lft, prev - 1, candidate))
           else Ok (inl (mid + 1, rgt, prev))
       else Ok (inr (inr (lft, rgt, candidate))))
    (lower, upper - 1, -1).

Definition binarySearch s (e lower upper : Z) : result Z :=
  r ← binarySearchLoop s e lower upper;
  match r with
  | inl prev => Ok prev
  | inr (lft, _, candidate) =>
      result ← linearSearch s e lft upper;
      b ← arr_empty s result;
      wrong ← (if b : bool then Ok true else
                 h ← head s result; Ok (comp e h && negb (result =? lower)));
      if wrong : bool then
        AssertM (if candidate =? -1 then Ok false else
                   b ← arr_empty s candidate; Ok (negb b));;
        AssertM (r ← linearSearch s e lower upper; Ok (candidate =? r));;
        Ok candidate
      else
        AssertM (r ← linearSearch s e lower upper; Ok (result =? r));;
        Ok result
  end.

Definition exponentialSearch s (e lower upper : Z) : result Z :=
  end_ ← skipEmpty s lower upper;
  '(start, end_, _) ← while (S (Z.to_nat (upper - end_)))
    (λ '(start, end_, delta), if end_ <? upper then headAtMost s end_ e else Ok false)
    (λ '(start, end_, delta),
       next ← findNext s (end_ + delta) upper;
       Ok (end_, next, delta * 2))
    (lower, end_, 1);
  binarySearch s e start (Z.min upper end_).

(** The loop of [findContainingBlock]; [inl] is an early return. *)
Definition findContainingBlockLoop s (e : Z) : result (Z + BinarySearchState) :=
  loop (S (S (Z.to_nat (arr_size s))))
    (λ '(lft, rgt, candidate),
       if BinarySearchCutoff <? rgt - lft then
         let mid := (lft + rgt) ÷ 2 in
         prev ← lastNonEmpty s mid lft;
         if prev <? lft then Ok (inl (mid + 1, rgt, candidate))
         else
           h ← head s prev;
           if comp e h then Ok (inl (lft, prev - 1, candidate))
           else if comp h e then Ok (inl (prev + 1, rgt, prev))
           else Ok (inr (inl prev))
       else Ok (inr (inr (lft, rgt, candidate))))
    (0, arr_size s - 1, -1).

Definition findContainingBlock s (e : Z) : result Z :=
  r ← findContainingBlockLoop s e;
  match r with
  | inl prev => Ok prev
  | inr (lft, rgt, candidate) =>
      result ← linearSearch s e lft (rgt + 1);
      b ← arr_empty s result;
      wrong ← (if b : bool then Ok true else h ← head s result; Ok (comp e h));
      if wrong : bool then
        if negb (candidate =? -1) then
          AssertM (b ← arr_empty s candidate; Ok (negb (candidate =? -1) && negb b));;
          Ok candidate
        else Ok (-1)
      else Ok result
  end.

Definition findBlockIndex s (e : Z) : result Z :=
  containingBlock ← findContainingBlock s e;
  if containingBlock =? -1 then skipEmpty s 0 (arr_size s)
  else Ok containingBlock.

Definition contains s (e : Z) : result bool :=
  blockIndex ← findContainingBlock s e;
  if 0 <=? blockIndex then
    b ← entry s blockIndex;
    if PmaEntry.isEmpty b then Ok false else PmaEntry.contains b e
  else Ok false.

(** [pma[blockIndex].findIndex(e)]. *)
Definition findIndexIn s (blockIndex e : Z) : result Z :=
  b ← entry s blockIndex; PmaEntry.findIndex b e.

End definitions.
End Search.

(** ** Iterators (dataStructures/iterators.hpp)

    A position in the array; the pointer to the array is the array argument of the
    operations. *)
Module Iterator.
Section definitions.
Context `{T : SdsTypes} {A : Type} `{!SparseArray A}.
Implicit Types (s : A).

Record iterator := mkIterator { blockIndex_ : Z; elementIndex_ : Z }.

Definition eqb (i other : iterator) : bool :=
  (blockIndex_ i =? blockIndex_ other) && (elementIndex_ i =? elementIndex_ other).
Definition neqb (i other : iterator) : bool :=
  negb (blockIndex_ i =? blockIndex_ other) || negb (elementIndex_ i =? elementIndex_ other).

Definition findNext s (i : iterator) : result iterator :=
  n ← Search.blockSize s (blockIndex_ i);
  if elementIndex_ i + 1 <? n then Ok (mkIterator (blockIndex_ i) (elementIndex_ i + 1))
  else
    b ← Search.skipEmpty s (blockIndex_ i + 1) (arr_size s);
    Ok (mkIterator b 0).

(** [operator++()]: the iterator afterwards and the returned one, the old position. *)
Definition preIncrement s (i : iterator) : result (iterator * iterator) :=
  j ← findNext s i; Ok (j, i).

(** [operator++(int)]: returns the new position. *)
Definition postIncrement s (i : iterator) : result (iterator * iterator) :=
  j ← findNext s i; Ok (j, j).

Definition dereference s (i : iterator) : result ValueType :=
  e ← Search.entry s (blockIndex_ i);
  c ← PmaEntry.deref e;
  zget c (elementIndex_ i).

Definition begin_ s : result iterator :=
  first ← while (S (Z.to_nat (arr_size s)))
    (λ first, b ← arr_empty s first; Ok (b && negb (first =? arr_size s)))
    (λ first, Ok (first + 1)) 0;
  Ok (mkIterator first 0).

Definition end_ s : iterator := mkIterator (arr_size s) 0.

Definition find s (e : Z) : result iterator :=
  blockIndex ← Search.findContainingBlock s e;
  if blockIndex <? 0 then Ok (end_ s) else
  b ← Search.entry s blockIndex;
  if PmaEntry.isEmpty b then Ok (end_ s) else
  indexInBlock ← PmaEntry.findIndex b e;
  if PmaEntry.size b <=? indexInBlock then Ok (end_ s) else
  v ← PmaEntry.get b indexInBlock;
  if negb (keyOfValue v =? e) then Ok (end_ s)
  else Ok (mkIterator blockIndex indexInBlock).

Definition lowerBound s (e : Z) : result iterator :=
  blockIndex ← Search.findBlockIndex s e;
  if arr_size s <=? blockIndex then Ok (end_ s) else
  indexInBlock ← Search.findIndexIn s blockIndex e;
  n ← Search.blockSize s blockIndex;
  if n <=? indexInBlock then
    blockIndex ← Search.findNext s blockIndex (arr_size s);
    if arr_size s <=? blockIndex then Ok (end_ s) else
    AssertM (b ← arr_empty s blockIndex; Ok (negb b));;
    Ok (mkIterator blockIndex 0)
  else Ok (mkIterator blockIndex indexInBlock).

(** [rangeQuery(left, right, f)]: the values [f] is called with, in this order.  The
    fuel is the number of positions the iterator can take. *)
Definition rangeQuery s (left right : Z) (fuel : nat) : result (list ValueType) :=
  current ← lowerBound s left;
  '(_, visited) ← while fuel
    (λ '(current, _),
       if neqb current (end_ s) then v ← dereference s current; Ok (comp (keyOfValue v) right)
       else Ok false)
    (λ '(current, visited),
       v ← dereference s current;
       AssertMsg ((comp left (keyOfValue v) || (left =? keyOfValue v)) && comp (keyOfValue v) right);;
       '(current, _) ← preIncrement s current;
       Ok (current, visited ++ [v]))
    (current, []);
  Ok visited.

End definitions.
End Iterator.
