(* ===== verification/SearchFacts.v ===== *)
(** * Correctness of the searches in a sparse array

    [array_ok s]: entries of the used region can be read, the emptiness test tells
    whether the head is [NULL_KEY], and the heads of non-empty entries increase.  Under it
    every search returns the last non-empty entry whose head is at most the key. *)

From S2P Require Export Search BlockMoves.
Import Search.

Section facts.
Context `{T : SdsTypes} {A : Type} `{!SparseArray A}.
Implicit Types (s : A) (i j k lo up e : Z).

Definition hd s i : Z := default NULL_KEY (PmaEntry.head <$> at_ (arr_pma s) i).

Definition full s i : Prop := 0 ≤ i < arr_size s ∧ hd s i ≠ NULL_KEY.

#[export] Instance full_dec s i : Decision (full s i).
Proof. unfold full. apply _. Defined.

Record array_ok s : Prop := {
  ok_size : 0 ≤ arr_size s ≤ zlen (arr_pma s);
  ok_empty : ∀ i, 0 ≤ i < arr_size s → arr_empty s i = Ok (hd s i =? NULL_KEY);
  ok_empty_end : arr_empty s (arr_size s) = Ok true;
  ok_sorted : ∀ i j, full s i → full s j → i < j → hd s i < hd s j;
}.

Variable s : A.
Hypothesis ok : array_ok s.

Lemma empty_full i : 0 ≤ i ≤ arr_size s → arr_empty s i = Ok (negb (bool_decide (full s i))).
Proof.
  intros Hi. destruct (decide (i = arr_size s)) as [->|].
  - rewrite (ok_empty_end s ok), bool_decide_eq_false_2; [done|]. unfold full. lia.
  - rewrite (ok_empty s ok) by lia. f_equal. destruct (Z.eqb_spec (hd s i) NULL_KEY).
    + rewrite bool_decide_eq_false_2; [done|]. unfold full. tauto.
    + rewrite bool_decide_eq_true_2; [done|]. split; [lia|done].
Qed.

Lemma head_ok i : 0 ≤ i < arr_size s → head s i = Ok (hd s i).
Proof.
  intros Hi. pose proof (ok_size s ok). destruct (at_in_bound (arr_pma s) i) as [b Hb]; [lia|].
  unfold head, entry, hd. rewrite (zget_at _ _ _ Hb), Hb. done.
Qed.

Lemma headAtMost_ok i e : 0 ≤ i < arr_size s → headAtMost s i e = Ok (bool_decide (hd s i ≤ e)).
Proof.
  intros Hi. unfold headAtMost. rewrite head_ok by done. cbn [mbind result_bind]. f_equal.
  unfold comp. destruct (decide (hd s i ≤ e)).
  - rewrite bool_decide_eq_true_2 by done. bool_cases; done || lia.
  - rewrite bool_decide_eq_false_2 by done. bool_cases; done || lia.
Qed.

(** No full entry in [[i, j)]. *)
Definition none_full i j : Prop := ∀ k, i ≤ k < j → ¬ full s k.

Lemma none_full_app i j k : none_full i j → none_full j k → none_full i k.
Proof. intros H1 H2 x Hx. destruct (decide (x < j)); [apply H1|apply H2]; lia. Qed.

Lemma skipEmpty_ok i up :
  0 ≤ i → up ≤ arr_size s →
  ∃ k, skipEmpty s i up = Ok k ∧ i ≤ k ≤ Z.max i up ∧ none_full i k ∧ (k < up → full s k).
Proof.
  intros Hi Hup. apply wp_returns. unfold skipEmpty.
  apply (wp_while (λ k, i ≤ k ≤ Z.max i up ∧ none_full i k) (λ k, Z.max 0 (up - k))).
  - intros k [Hk Hnone]. split; [lia|]. destruct (Z.ltb_spec k up); [|split_and!; done || lia].
    rewrite empty_full by lia. cbn [wp]. destruct (bool_decide_reflect (full s k)) as [Hf|Hf]; cbn [negb wp].
    + split_and!; done || lia.
    + split; [|lia]. split; [lia|]. apply (none_full_app i k); [done|].
      intros x Hx. by replace x with k by lia.
  - split; [lia|]. intros x Hx. lia.
  - lia.
Qed.

Lemma findNext_ok i up :
  -1 ≤ i → up ≤ arr_size s →
  ∃ k, findNext s i up = Ok k ∧ i < k ≤ Z.max (i + 1) up ∧ none_full (i + 1) k ∧ (k < up → full s k).
Proof.
  intros Hi Hup. unfold findNext. destruct (skipEmpty_ok (i + 1) up) as (k&->&?&?&?); [lia|done|].
  exists k. split_and!; done || lia.
Qed.

Lemma findPrevious_ok i lo :
  0 ≤ lo < i → i ≤ arr_size s + 1 →
  ∃ k, findPrevious s i lo = Ok k ∧ lo ≤ k < i ∧ none_full (k + 1) i ∧ (k ≠ lo → full s k).
Proof.
  intros Hi Hup. apply wp_returns. unfold findPrevious.
  apply (wp_while (λ k, lo ≤ k < i ∧ none_full (k + 1) i) (λ k, k - lo)).
  - intros k [Hk Hnone]. split; [lia|]. destruct (Z.ltb_spec lo k); [|split_and!; done || lia].
    rewrite empty_full by lia. cbn [wp]. destruct (bool_decide_reflect (full s k)) as [Hf|Hf]; cbn [negb wp].
    + split_and!; done || lia.
    + split; [|lia]. split; [lia|]. replace (k - 1 + 1) with k by lia.
      apply (none_full_app k (k + 1)); [|done]. intros x Hx. by replace x with k by lia.
  - split; [lia|]. intros x Hx. lia.
  - lia.
Qed.

Lemma lastNonEmpty_ok i lo :
  0 ≤ lo → lo - 1 ≤ i < arr_size s →
  ∃ k, lastNonEmpty s i lo = Ok k ∧ lo - 1 ≤ k ≤ i ∧ none_full (k + 1) (i + 1) ∧
    (lo ≤ k → full s k).
Proof.
  intros Hlo Hi. apply wp_returns. unfold lastNonEmpty.
  apply (wp_while (λ k, lo - 1 ≤ k ≤ i ∧ none_full (k + 1) (i + 1)) (λ k, k + 1 - lo)).
  - intros k [Hk Hnone]. split; [lia|]. destruct (Z.leb_spec lo k); [|split_and!; done || lia].
    rewrite empty_full by lia. cbn [wp]. destruct (bool_decide_reflect (full s k)) as [Hf|Hf]; cbn [negb wp].
    + split_and!; done || lia.
    + split; [|lia]. split; [lia|]. replace (k - 1 + 1) with k by lia.
      apply (none_full_app k (k + 1)); [|done]. intros x Hx. by replace x with k by lia.
  - split; [lia|]. intros x Hx. lia.
  - lia.
Qed.

(** [best e lo up k]: the last entry of [[lo, up)] with a head of at most [e], and [lo]
    when there is none. *)
Definition best e lo up k : Prop :=
  lo ≤ k < up ∧ (k = lo ∨ (full s k ∧ hd s k ≤ e)) ∧
  (∀ j, k < j < up → full s j → e < hd s j).

Lemma best_unique e lo up k k' : best e lo up k → best e lo up k' → k = k'.
Proof.
  intros (Hb&Hk&Hlast) (Hb'&Hk'&Hlast').
  destruct (Z.lt_trichotomy k k') as [Hlt|[?|Hlt]]; [|done|].
  - destruct Hk' as [->|[Hf Hle]]; [lia|]. specialize (Hlast k' ltac:(lia) Hf). lia.
  - destruct Hk as [->|[Hf Hle]]; [lia|]. specialize (Hlast' k ltac:(lia) Hf). lia.
Qed.

Lemma linearSearch_ok e lo up :
  0 ≤ lo < up → up ≤ arr_size s → ∃ k, linearSearch s e lo up = Ok k ∧ best e lo up k.
Proof.
  intros Hlo Hup. unfold linearSearch.
  destruct (findNext_ok lo up) as (k0&->&Hk0&Hn0&Hf0); [lia|done|]. cbn [mbind result_bind].
  assert (wp (while (S (Z.to_nat (up - k0)))
    (λ firstLarger, if firstLarger <? up then
         b ← arr_empty s firstLarger;
         if b : bool then Ok false else headAtMost s firstLarger e
       else Ok false)
    (λ firstLarger, findNext s firstLarger up) k0)
    (λ k, lo < k ≤ up ∧ (k < up → full s k ∧ e < hd s k) ∧
       ∀ j, lo < j < k → full s j → hd s j ≤ e)) as Hwp.
  { apply (wp_while (λ k, lo < k ≤ up ∧ (k < up → full s k) ∧
      ∀ j, lo < j < k → full s j → hd s j ≤ e) (λ k, up - k)).
    - intros k (Hk&Hf&Hle). split; [lia|]. destruct (Z.ltb_spec k up) as [Hlt|].
      2: { split_and!; try done; try lia. }
      specialize (Hf Hlt). rewrite empty_full, bool_decide_eq_true_2 by (done || lia).
      cbn [mbind result_bind negb]. rewrite headAtMost_ok by lia. cbn [wp].
      destruct (bool_decide_reflect (hd s k ≤ e)) as [Hh|Hh].
      + destruct (findNext_ok k up) as (k'&->&Hk'&Hn'&Hf'); [lia|done|]. cbn [wp].
        split; [|lia]. split_and!; [lia|lia|done|]. intros j Hj Hfj.
        destruct (Z.lt_trichotomy j k) as [?|[->|?]]; [apply Hle; [lia|done]|done|].
        exfalso. apply (Hn' j); [lia|done].
      + split_and!; [lia|lia| |done]. intros _. split; [done|lia].
    - split_and!; [lia|lia|done|]. intros j Hj Hfj. exfalso. apply (Hn0 j); [lia|done].
    - lia. }
  apply wp_returns in Hwp as (k1&->&Hk1&Hf1&Hle1). cbn [mbind result_bind].
  destruct (findPrevious_ok k1 lo) as (k&->&Hk&Hn&Hf); [lia|lia|].
  exists k. split; [done|]. split_and!; [lia|lia| |].
  - destruct (decide (k = lo)) as [|Hne]; [by left|right]. specialize (Hf Hne).
    split; [done|]. apply Hle1; [lia|done].
  - intros j Hj Hfj. destruct (decide (j < k1)).
    + exfalso. apply (Hn j); [lia|done].
    + destruct (Hf1 ltac:(lia)) as [Hfk Hlt]. destruct (decide (j = k1)) as [->|]; [done|].
      pose proof (ok_sorted s ok k1 j Hfk Hfj). lia.
Qed.

Lemma linearSearch_none e lo up : up ≤ lo → linearSearch s e lo up = Ok lo.
Proof.
  intros Hle. unfold linearSearch, findNext, skipEmpty.
  rewrite while_exit by (by destruct (Z.ltb_spec (lo + 1) up); [lia|]). cbn [mbind result_bind].
  rewrite while_exit by (by destruct (Z.ltb_spec (lo + 1) up); [lia|]). cbn [mbind result_bind].
  unfold findPrevious. replace (lo + 1 - 1) with lo by lia.
  apply while_exit. by destruct (Z.ltb_spec lo lo); [lia|].
Qed.

Lemma AssertM_ok (c : result bool) : c = Ok true → AssertM c = Ok tt.
Proof. intros ->. unfold AssertM. destruct NDEBUG eqn:?; [done|]. cbn [mbind result_bind]. by apply assert_ok. Qed.

(** ** The binary searches *)

(** What the bisection has established about [left], [right] and [candidate]. *)
Definition bisected e lo up lft rgt candidate : Prop :=
  lo ≤ lft ∧ lft ≤ rgt + 1 ∧ (rgt < up ∧ lft < Z.max up (lo + 1)) ∧
  (∀ j, rgt < j < up → full s j → e < hd s j) ∧
  (candidate = -1 → none_full lo lft) ∧
  (candidate ≠ -1 → lo ≤ candidate < lft ∧ full s candidate ∧ hd s candidate ≤ e ∧
     none_full (candidate + 1) lft).

Lemma bisect_start e lo up : 0 ≤ lo ≤ up → bisected e lo up lo (up - 1) (-1).
Proof. intros. split_and!; try lia. intros _ x Hx. lia. Qed.

(** One probe at the last full entry at or before the middle. *)
Lemma bisect_step e lo up lft rgt candidate prev mid :
  0 ≤ lo → bisected e lo up lft rgt candidate → up ≤ arr_size s →
  lft ≤ mid < rgt → lft - 1 ≤ prev ≤ mid → none_full (prev + 1) (mid + 1) →
  (lft ≤ prev → full s prev) →
  (prev < lft → bisected e lo up (mid + 1) rgt candidate) ∧
  (lft ≤ prev → e < hd s prev → bisected e lo up lft (prev - 1) candidate) ∧
  (lft ≤ prev → hd s prev ≤ e → ∀ x, prev < x ≤ mid + 1 → bisected e lo up x rgt prev).
Proof.
  intros Hlo (H1&H2&H3&Hright&Hnone&Hcand) Hup Hmid Hprev Hnf Hfull. split_and!.
  - intros Hlt. assert (prev = lft - 1) as -> by lia. replace (lft - 1 + 1) with lft in Hnf by lia.
    split_and!; try lia; [done| |].
    + intros Hc. apply (none_full_app lo lft); auto.
    + intros Hc. destruct (Hcand Hc) as (?&?&?&?). split_and!; try done; try lia.
      by apply (none_full_app _ lft).
  - intros Hle Hlt. specialize (Hfull Hle). split_and!; try lia; [|done|done].
    intros j Hj Hfj. destruct (decide (j = prev)) as [->|]; [done|].
    pose proof (ok_sorted s ok prev j Hfull Hfj). lia.
  - intros Hle Hhd x Hx. specialize (Hfull Hle). split_and!; try lia; [done|].
    intros _. split_and!; try done; try lia. intros y Hy. apply Hnf. lia.
Qed.

(** A full entry with the key itself is the answer. *)
Lemma best_of_equal e lo up k :
  lo ≤ k < up → full s k → hd s k = e → best e lo up k.
Proof.
  intros Hk Hf He. split_and!; [lia|lia|right; split; [done|lia]|].
  intros j Hj Hfj. pose proof (ok_sorted s ok k j Hf Hfj). lia.
Qed.

Lemma mid_bounds l r : l < r → 0 ≤ l → l ≤ (l + r) ÷ 2 < r.
Proof. intros. rewrite Z.quot_div_nonneg by lia. Z.div_mod_to_equations. lia. Qed.

Lemma binarySearchLoop_ok e lo up :
  0 ≤ lo < up → up ≤ arr_size s →
  wp (binarySearchLoop s e lo up) (λ r, match r with
    | inl prev => best e lo up prev
    | inr (lft, rgt, candidate) => bisected e lo up lft rgt candidate
    end).
Proof.
  intros Hlo Hup. unfold binarySearchLoop.
  apply (wp_loop (λ '(lft, rgt, candidate), bisected e lo up lft rgt candidate)
    (λ '(lft, rgt, _), rgt + 1 - lft)).
  - intros [[lft rgt] candidate] Hbis. pose proof Hbis as (H1&H2&H3&_). split; [lia|].
    unfold BinarySearchCutoff. destruct (Z.ltb_spec 100 (rgt - lft)) as [Hbig|]; [|done].
    pose proof (mid_bounds lft rgt ltac:(lia) ltac:(lia)) as Hmid. set (mid := (lft + rgt) ÷ 2) in *.
    destruct (lastNonEmpty_ok mid lft) as (prev&->&Hprev&Hnf&Hfull); [lia|lia|].
    cbn [mbind result_bind].
    destruct (bisect_step e lo up lft rgt candidate prev mid) as (S1&S2&S3); try done; try lia.
    destruct (Z.ltb_spec prev lft) as [Hlt|Hge]; [split; [by apply S1|lia]|].
    specialize (Hfull Hge). rewrite head_ok by (destruct Hfull; lia). cbn [mbind result_bind].
    destruct (Z.eqb_spec (hd s prev) e) as [Heq|Hne].
    + assert (best e lo up prev) as Hbest by (apply best_of_equal; [lia|done|done]).
      destruct (linearSearch_ok e lo up) as (k&Hk&Hkbest); [done|done|].
      rewrite AssertM_ok; cycle 1.
      { rewrite Hk. cbn [mbind result_bind]. f_equal. apply Z.eqb_eq. by eapply best_unique. }
      done.
    + unfold comp. destruct (Z.ltb_spec e (hd s prev)); cbn [wp].
      * split; [by apply S2|lia].
      * split; [apply S3; lia|lia].
  - apply bisect_start. lia.
  - lia.
Qed.

(** The result of a bisection and the final linear search over its rest. *)
Lemma bisected_candidate e lo up lft rgt candidate :
  bisected e lo up lft rgt candidate → candidate ≠ -1 →
  (∀ j, lft ≤ j < up → full s j → e < hd s j) → lft ≤ up → best e lo up candidate.
Proof.
  intros (H1&H2&H3&_&_&Hcand) Hc Hlast Hup. destruct (Hcand Hc) as (Hb&Hf&Hle&Hnf).
  split_and!; [lia|lia|by right|]. intros j Hj Hfj. destruct (decide (j < lft)).
  - exfalso. apply (Hnf j); [lia|done].
  - apply Hlast; [lia|done].
Qed.

(** The linear search over the rest finds the answer, unless all heads of the rest are too
    large: then it is the candidate. *)
Lemma bisected_result e lo up lft rgt candidate k :
  0 ≤ lo < up → full s lo → bisected e lo up lft rgt candidate → best e lft up k →
  (full s k ∧ (e < hd s k → k = lo) ∧ best e lo up k) ∨
  ((full s k → e < hd s k ∧ k ≠ lo) ∧ candidate ≠ -1 ∧ full s candidate ∧ best e lo up candidate).
Proof.
  intros Hlo Hfulllo Hbis (Hk&Hkc&Hkl). pose proof Hbis as (H1&H2&H3&_&Hnone&Hcand).
  destruct (decide (full s k ∧ hd s k ≤ e)) as [[Hf Hle]|Hn].
  { left. split_and!; [done|lia|]. split_and!; [lia|lia|by right|done]. }
  assert (∀ j, lft ≤ j < up → full s j → e < hd s j) as Hlarge.
  { intros j Hj Hfj. destruct Hkc as [->|?]; [|done].
    destruct (decide (j = lft)) as [->|]; [|apply Hkl; [lia|done]].
    destruct (decide (hd s lft ≤ e)); [|lia]. by destruct Hn. }
  destruct (decide (candidate = -1)) as [Hc|Hc].
  - assert (lft = lo) as ->.
    { destruct (decide (lft = lo)); [done|]. exfalso. apply (Hnone Hc lo); [lia|done]. }
    assert (k = lo) as -> by (destruct Hkc as [?|?]; [done|tauto]).
    left. split_and!; [done|done|]. split_and!; [lia|lia|by left|done].
  - right. destruct (Hcand Hc) as (Hb&Hfc&_). split_and!; [|done|done|by eapply bisected_candidate; eauto; lia].
    intros Hf. split; [|lia]. destruct (decide (hd s k ≤ e)); [tauto|lia].
Qed.

Lemma binarySearch_ok e lo up :
  0 ≤ lo < up → up ≤ arr_size s → full s lo →
  ∃ k, binarySearch s e lo up = Ok k ∧ best e lo up k.
Proof.
  intros Hlo Hup Hfulllo. unfold binarySearch.
  pose proof (binarySearchLoop_ok e lo up Hlo Hup) as Hloop.
  apply wp_returns in Hloop as (r&->&Hr). cbn [mbind result_bind].
  destruct r as [prev|[[lft rgt] candidate]]; [by exists prev|]. pose proof Hr as (H1&H2&H3&_).
  destruct (linearSearch_ok e lo up) as (kb&Hkb&Hkbest); [done|done|].
  assert (∀ k, best e lo up k → AssertM (r ← linearSearch s e lo up; Ok (k =? r)) = Ok tt) as Hassert.
  { intros k Hk. apply AssertM_ok. rewrite Hkb. cbn [mbind result_bind]. f_equal.
    apply Z.eqb_eq. by eapply best_unique. }
  destruct (linearSearch_ok e lft up) as (k&->&Hk); [lia|done|]. cbn [mbind result_bind].
  rewrite (empty_full k) by (destruct Hk; lia). cbn [mbind result_bind].
  destruct (bisected_result _ _ _ _ _ _ _ Hlo Hfulllo Hr Hk) as [(Hf&Hlow&Hbest)|(Hwrong&Hc&Hfc&Hbest)].
  - rewrite bool_decide_eq_true_2 by done. cbn [negb].
    rewrite head_ok by (destruct Hf; lia). cbn [mbind result_bind].
    replace (comp e (hd s k) && negb (k =? lo)) with false.
    + rewrite (Hassert k Hbest). cbn [mbind result_bind]. by exists k.
    + unfold comp. destruct (Z.ltb_spec e (hd s k)); [|done]. rewrite Hlow by done. by rewrite Z.eqb_refl.
  - assert ((if negb (bool_decide (full s k)) then Ok true
             else h ← head s k; Ok (comp e h && negb (k =? lo))) = Ok true) as ->.
    { destruct (bool_decide_reflect (full s k)) as [Hf|]; cbn [negb]; [|done]. destruct (Hwrong Hf).
      rewrite head_ok by (destruct Hf; lia). cbn [mbind result_bind]. unfold comp. f_equal. bool_cases; done || lia. }
    cbn [mbind result_bind].
    rewrite (AssertM_ok (if candidate =? -1 then Ok false else b ← arr_empty s candidate; Ok (negb b))); cycle 1.
    { destruct (Z.eqb_spec candidate (-1)); [done|].
      rewrite empty_full, bool_decide_eq_true_2 by (done || (destruct Hfc; lia)). done. }
    cbn [mbind result_bind]. rewrite (Hassert _ Hbest). cbn [mbind result_bind]. by exists candidate.
Qed.

(** On the empty range [binarySearch] returns its start, when this is a full entry with
    a larger head. *)
Lemma binarySearch_none e lo :
  full s lo → e < hd s lo → binarySearch s e lo lo = Ok lo.
Proof.
  intros Hf Hlt. assert (0 ≤ lo < arr_size s) by apply Hf. unfold binarySearch.
  assert (binarySearchLoop s e lo lo = Ok (inr (lo, lo - 1, -1))) as ->.
  { unfold binarySearchLoop. cbn [loop]. unfold BinarySearchCutoff.
    by destruct (Z.ltb_spec 100 (lo - 1 - lo)); [lia|]. }
  cbn [mbind result_bind]. rewrite linearSearch_none by lia. cbn [mbind result_bind].
  rewrite (empty_full lo), bool_decide_eq_true_2 by (done || lia). cbn [mbind result_bind negb].
  rewrite head_ok by lia. cbn [mbind result_bind]. rewrite Z.eqb_refl, andb_false_r.
  by rewrite AssertM_ok.
Qed.

(** [exponentialSearch] from an entry that is full, or from an empty one before the
    block of the key. *)
(** The doubling steps end in front of an entry with a larger head, or at the upper bound. *)
Definition doubled e lo up k0 start end_ : Prop :=
  (end_ < up → full s end_ ∧ e < hd s end_) ∧
  ((start = lo ∧ end_ = k0 ∧ k0 < up) ∨ (lo ≤ start < Z.min up end_ ∧ full s start ∧ hd s start ≤ e)).

Lemma doubling_steps e lo up k0 :
  0 ≤ lo ≤ k0 → k0 < up → up ≤ arr_size s → full s k0 →
  wp (while (S (Z.to_nat (up - k0)))
    (λ '(start, end_, delta), if end_ <? up then headAtMost s end_ e else Ok false)
    (λ '(start, end_, delta), next ← findNext s (end_ + delta) up; Ok (end_, next, delta * 2))
    (lo, k0, 1)) (λ '(start, end_, _), doubled e lo up k0 start end_).
Proof.
  intros Hk0 Hk0up Hup Hf0.
  apply (wp_while (λ '(start, end_, delta), 0 < delta ∧ (end_ < up → full s end_) ∧ k0 ≤ end_ ∧
      ((start = lo ∧ end_ = k0) ∨ (lo ≤ start < Z.min up end_ ∧ full s start ∧ hd s start ≤ e)))
      (λ '(_, end_, _), Z.max 0 (up - end_))).
  - intros [[start en] delta] (Hd&Hfe&Hge&Hst). split; [lia|].
    destruct (Z.ltb_spec en up) as [Hlt|Hno]; cbn [wp].
    + specialize (Hfe Hlt). rewrite headAtMost_ok by (destruct Hfe; lia). cbn [wp].
      destruct (bool_decide_reflect (hd s en ≤ e)) as [Hle|Hgt].
      * destruct (findNext_ok (en + delta) up) as (k&->&Hk&_&Hfk); [lia|done|].
        cbn [mbind result_bind wp]. split; [|lia]. split_and!; [lia|done|lia|].
        right. split_and!; done || lia.
      * split; [intros _; split; [done|lia]|]. destruct Hst as [(->&->)|?]; [left|right]; done.
    + split; [lia|]. right. destruct Hst as [(->&->)|?]; [lia|done].
  - split_and!; [lia|done|lia|by left].
  - lia.
Qed.

(** The best entry of the last step is the best one of the whole range. *)
Lemma best_widen e lo up start end_ k :
  (end_ < up → full s end_ ∧ e < hd s end_) → best e start (Z.min up end_) k →
  lo ≤ start → full s start → hd s start ≤ e → best e lo up k.
Proof.
  intros Hend (Hk&Hc&Hl) Hs Hfs Hle. split_and!; [lia|lia| |].
  - right. destruct Hc as [->|?]; done.
  - intros j Hj Hfj. destruct (decide (j < end_)); [apply Hl; [lia|done]|].
    destruct Hend as [Hfe Hlt]; [lia|]. destruct (decide (j = end_)) as [->|]; [done|].
    pose proof (ok_sorted s ok end_ j Hfe Hfj). lia.
Qed.

Lemma exponentialSearch_ok e lo up :
  0 ≤ lo < up → up ≤ arr_size s →
  full s lo ∨ (∃ j, lo ≤ j < up ∧ full s j ∧ hd s j ≤ e) →
  ∃ k, exponentialSearch s e lo up = Ok k ∧ best e lo up k.
Proof.
  intros Hlo Hup Hstart. unfold exponentialSearch.
  destruct (skipEmpty_ok lo up) as (k0&->&Hk0&Hn0&Hf0); [lia|done|]. cbn [mbind result_bind].
  assert (k0 < up) as Hk0up.
  { destruct (decide (k0 < up)); [done|]. exfalso.
    destruct Hstart as [Hf|(j&Hj&Hf&_)]; [apply (Hn0 lo); [lia|done]|apply (Hn0 j); [lia|done]]. }
  destruct (proj1 (wp_returns _ _) (doubling_steps e lo up k0 ltac:(lia) Hk0up Hup (Hf0 Hk0up)))
    as ([[start en] delta]&->&Hend&Hst). cbn [mbind result_bind].
  destruct Hst as [(->&->&_)|(Hs&Hfs&Hle)].
  - destruct (Hend Hk0up) as [Hf Hlt]. assert (k0 = lo) as ->.
    { destruct Hstart as [Hfl|(j&Hj&Hfj&Hle)].
      - destruct (decide (k0 = lo)); [done|]. exfalso. apply (Hn0 lo); [lia|done].
      - exfalso. destruct (decide (j < k0)); [apply (Hn0 j); [lia|done]|].
        destruct (decide (j = k0)) as [->|]; [lia|]. pose proof (ok_sorted s ok k0 j Hf Hfj). lia. }
    rewrite Z.min_r by lia. rewrite binarySearch_none by done. exists lo. split; [done|].
    split_and!; [lia|lia|by left|]. intros j Hj Hfj. pose proof (ok_sorted s ok lo j Hf Hfj). lia.
  - destruct (binarySearch_ok e start (Z.min up en)) as (k&->&Hk); [destruct Hfs; lia|lia|done|].
    exists k. split; [done|]. by eapply best_widen; [exact Hend|exact Hk|lia|..].
Qed.

(** ** The block of a key *)

(** The block of [e]: the last full entry with a head of at most [e], -1 if there is
    none. *)
Definition containing e k : Prop :=
  (k = -1 ∧ ∀ j, full s j → e < hd s j) ∨
  (full s k ∧ hd s k ≤ e ∧ ∀ j, full s j → k < j → e < hd s j).

Lemma containing_unique e k k' : containing e k → containing e k' → k = k'.
Proof.
  intros [[-> H]|(Hf&Hle&Hl)] [[-> H']|(Hf'&Hle'&Hl')].
  - done.
  - specialize (H k' Hf'). lia.
  - specialize (H' k Hf). lia.
  - destruct (Z.lt_trichotomy k k') as [Hlt|[?|Hlt]]; [|done|].
    + specialize (Hl k' Hf' Hlt). lia.
    + specialize (Hl' k Hf Hlt). lia.
Qed.

Lemma findContainingBlockLoop_ok e :
  wp (findContainingBlockLoop s e) (λ r, match r with
    | inl prev => containing e prev
    | inr (lft, rgt, candidate) => bisected e 0 (arr_size s) lft rgt candidate
    end).
Proof.
  pose proof (ok_size s ok). unfold findContainingBlockLoop.
  apply (wp_loop (λ '(lft, rgt, candidate), bisected e 0 (arr_size s) lft rgt candidate)
    (λ '(lft, rgt, _), rgt + 1 - lft)).
  - intros [[lft rgt] candidate] Hbis. pose proof Hbis as (H1&H2&H3&_). split; [lia|].
    unfold BinarySearchCutoff. destruct (Z.ltb_spec 100 (rgt - lft)) as [Hbig|]; [|done].
    pose proof (mid_bounds lft rgt ltac:(lia) ltac:(lia)) as Hmid. set (mid := (lft + rgt) ÷ 2) in *.
    destruct (lastNonEmpty_ok mid lft) as (prev&->&Hprev&Hnf&Hfull); [lia|lia|].
    cbn [mbind result_bind].
    destruct (bisect_step e 0 (arr_size s) lft rgt candidate prev mid) as (S1&S2&S3); try done; try lia.
    destruct (Z.ltb_spec prev lft) as [Hlt|Hge]; [split; [by apply S1|lia]|].
    specialize (Hfull Hge). rewrite head_ok by (destruct Hfull; lia). cbn [mbind result_bind].
    unfold comp. destruct (Z.ltb_spec e (hd s prev)); [split; [by apply S2|lia]|].
    destruct (Z.ltb_spec (hd s prev) e); cbn [wp]; [split; [apply S3; lia|lia]|].
    right. split_and!; [done|lia|]. intros j Hfj Hlt.
    pose proof (ok_sorted s ok prev j Hfull Hfj). lia.
  - apply bisect_start. lia.
  - lia.
Qed.

(** When all entries from [left] on have larger heads, the candidate is the block. *)
Lemma bisected_containing e lft rgt candidate :
  bisected e 0 (arr_size s) lft rgt candidate →
  (∀ j, lft ≤ j → full s j → e < hd s j) → containing e candidate.
Proof.
  intros (H1&H2&H3&_&Hnone&Hcand) Hlarge. destruct (decide (candidate = -1)) as [->|Hc].
  - left. split; [done|]. intros j Hf. destruct (decide (j < lft)); [|apply Hlarge; [lia|done]].
    exfalso. apply (Hnone eq_refl j); [destruct Hf; lia|done].
  - destruct (Hcand Hc) as (?&Hf&Hle&Hnf). right. split_and!; [done|done|].
    intros j Hfj Hlt. destruct (decide (j < lft)); [|apply Hlarge; [lia|done]].
    exfalso. apply (Hnf j); [lia|done].
Qed.

(** What the linear search over the rest finds: the block, or all heads from [left] on are too
    large. *)
Lemma rest_searched e lft rgt candidate :
  bisected e 0 (arr_size s) lft rgt candidate →
  ∃ k, linearSearch s e lft (rgt + 1) = Ok k ∧ 0 ≤ k ≤ arr_size s ∧
    ((full s k ∧ hd s k ≤ e ∧ containing e k) ∨
     ((full s k → e < hd s k) ∧ ∀ j, lft ≤ j → full s j → e < hd s j)).
Proof.
  intros (H1&H2&H3&Hright&_). pose proof (ok_size s ok) as Hsz.
  assert (∀ j, rgt < j → full s j → e < hd s j) as Hright'.
  { intros j Hj Hf. apply Hright; [destruct Hf; lia|done]. }
  destruct (decide (lft ≤ rgt)) as [Hle|Hlt]; cycle 1.
  { exists lft. rewrite linearSearch_none by lia. split_and!; [done|lia|lia|].
    right. split; [intros; apply Hright'; [lia|done]|]. intros j Hj Hfj. apply Hright'; [lia|done]. }
  destruct (linearSearch_ok e lft (rgt + 1)) as (k&Hk&Hb&Hc&Hl); [lia|lia|].
  exists k. split_and!; [done|lia|lia|].
  assert (∀ j, k < j → full s j → e < hd s j) as Hbehind.
  { intros j Hj Hfj. destruct (decide (j ≤ rgt)); [apply Hl; [lia|done]|apply Hright'; [lia|done]]. }
  destruct (decide (full s k ∧ hd s k ≤ e)) as [[Hf Hhd]|Hn].
  - left. split_and!; [done|done|]. right. split_and!; [done|done|]. intros j Hfj Hj. by apply Hbehind.
  - right. assert (full s k → e < hd s k) as Hlarge.
    { intros Hf. destruct (decide (hd s k ≤ e)); [|lia]. tauto. }
    split; [done|]. intros j Hj Hfj. destruct Hc as [->|?]; [|tauto].
    destruct (decide (j = lft)) as [->|]; [by apply Hlarge|apply Hbehind; [lia|done]].
Qed.

Lemma findContainingBlock_ok e :
  ∃ k, findContainingBlock s e = Ok k ∧ containing e k.
Proof.
  unfold findContainingBlock.
  pose proof (findContainingBlockLoop_ok e) as Hloop.
  apply wp_returns in Hloop as (r&->&Hr). cbn [mbind result_bind].
  destruct r as [prev|[[lft rgt] candidate]]; [by exists prev|].
  pose proof Hr as (_&_&_&_&_&Hcand).
  destruct (rest_searched _ _ _ _ Hr) as (k&->&Hk&Hcase). cbn [mbind result_bind].
  rewrite (empty_full k) by done. cbn [mbind result_bind].
  destruct Hcase as [(Hf&Hle&Hcont)|(Hlarge&Hall)].
  - rewrite bool_decide_eq_true_2 by done. cbn [negb mbind result_bind].
    rewrite head_ok by (destruct Hf; lia). cbn [mbind result_bind]. unfold comp.
    destruct (Z.ltb_spec e (hd s k)); [lia|]. by exists k.
  - assert ((if negb (bool_decide (full s k)) then Ok true
             else h ← head s k; Ok (comp e h)) = Ok true) as ->.
    { destruct (bool_decide_reflect (full s k)) as [Hf|]; cbn [negb]; [|done].
      rewrite head_ok by (destruct Hf; lia). cbn [mbind result_bind]. unfold comp.
      by destruct (Z.ltb_spec e (hd s k)) as [|?]; [|specialize (Hlarge Hf); lia]. }
    cbn [mbind result_bind].
    pose proof (bisected_containing e lft rgt candidate Hr Hall) as Hc.
    destruct (Z.eqb_spec candidate (-1)) as [->|Hne]; cbn [negb]; [by exists (-1)|].
    destruct (Hcand Hne) as (?&Hf&_). rewrite AssertM_ok; [by exists candidate|].
    rewrite empty_full, bool_decide_eq_true_2 by (done || (destruct Hf; lia)). done.
Qed.

(** [findBlockIndex]: the block of the key, or the first full entry, or the end. *)
Lemma findBlockIndex_ok e :
  ∃ k, findBlockIndex s e = Ok k ∧
    ((full s k ∧ containing e k) ∨
     (containing e (-1) ∧ 0 ≤ k ≤ arr_size s ∧ none_full 0 k ∧ (k < arr_size s → full s k))).
Proof.
  unfold findBlockIndex. pose proof (ok_size s ok).
  destruct (findContainingBlock_ok e) as (k&->&Hk). cbn [mbind result_bind].
  destruct (Z.eqb_spec k (-1)) as [->|Hne].
  - destruct (skipEmpty_ok 0 (arr_size s)) as (k'&->&?&?&?); [lia|lia|].
    exists k'. split; [done|]. right. split_and!; done || lia.
  - exists k. split; [done|]. left. destruct Hk as [[? _]|Hk]; [lia|]. split; [apply Hk|by right].
Qed.
End facts.
