(* ===== verification/ArrayContents.v ===== *)
(** * The contents of a sparse array and what the searches return for them

    [stores s ls]: the used region of [s] consists of the blocks [ls], an empty list for
    a null entry, whose concatenation is the strictly sorted contents.  Iterators are
    related to indices of the concatenation, and the lookups to this sequence. *)

From S2P Require Export SearchFacts.
Import Search.

Section contents.
Context `{T : SdsTypes} `{C : BlockConfig} `{!BlockConfigOk} {A : Type} `{!SparseArray A}.
Implicit Types (s : A) (ls : list (list ValueType)) (l : list ValueType).
Implicit Types (i j k n e : Z) (it : Iterator.iterator).

Definition block_stores s i l : Prop :=
  (l = [] ∧ hd s i = NULL_KEY) ∨
  (l ≠ [] ∧ ∃ b rest, at_ (arr_pma s) i = Some b ∧ represents b l rest).

Record stores s ls : Prop := {
  st_size : zlen ls = arr_size s;
  st_bound : arr_size s ≤ zlen (arr_pma s);
  st_blocks : ∀ i l, at_ ls i = Some l → block_stores s i l;
  st_empty : ∀ i, 0 ≤ i < arr_size s → arr_empty s i = Ok (hd s i =? NULL_KEY);
  st_empty_end : arr_empty s (arr_size s) = Ok true;
  st_sorted : sorted (concat ls);
  st_null : NULL_KEY ∉ keys (concat ls);
}.

(** ** Prefixes of the contents *)

Definition before ls i : list ValueType := concat (take (Z.to_nat i) ls).
Definition behind ls i : list ValueType := concat (drop (Z.to_nat i) ls).

Lemma before_behind ls i : concat ls = before ls i ++ behind ls i.
Proof. unfold before, behind. by rewrite <-concat_app, take_drop. Qed.

Lemma before_0 ls : before ls 0 = [].
Proof. done. Qed.

Lemma before_all ls i : zlen ls ≤ i → before ls i = concat ls.
Proof. intros. unfold before. rewrite take_ge; [done|]. unfold zlen in *. lia. Qed.

Lemma behind_all ls i : zlen ls ≤ i → behind ls i = [].
Proof. intros. unfold behind. rewrite drop_ge; [done|]. unfold zlen in *. lia. Qed.

Lemma before_succ ls i l : at_ ls i = Some l → before ls (i + 1) = before ls i ++ l.
Proof.
  intros (Hi&Hl)%at_lookup. unfold before. replace (Z.to_nat (i + 1)) with (S (Z.to_nat i)) by lia.
  rewrite (take_S_r _ _ _ Hl), concat_app. simpl. by rewrite app_nil_r.
Qed.

Lemma behind_at ls i l : at_ ls i = Some l → behind ls i = l ++ behind ls (i + 1).
Proof.
  intros (Hi&Hl)%at_lookup. unfold behind. replace (Z.to_nat (i + 1)) with (S (Z.to_nat i)) by lia.
  by rewrite (drop_S _ _ _ Hl).
Qed.

Lemma around ls i l : at_ ls i = Some l → concat ls = before ls i ++ l ++ behind ls (i + 1).
Proof. intros Hl. by rewrite <-(behind_at _ _ _ Hl), <-before_behind. Qed.

Lemma elem_of_concat (v : ValueType) ls : v ∈ concat ls ↔ ∃ l, l ∈ ls ∧ v ∈ l.
Proof.
  induction ls as [|l ls IH]; cbn [concat].
  - split; [by intros ?%elem_of_nil|]. by intros (l&?%elem_of_nil&_).
  - rewrite elem_of_app, IH. setoid_rewrite elem_of_cons. naive_solver.
Qed.

Lemma in_before ls i v : v ∈ before ls i → ∃ j l, 0 ≤ j < i ∧ at_ ls j = Some l ∧ v ∈ l.
Proof.
  unfold before. rewrite elem_of_concat. intros (l&(k&Hk)%list_elem_of_lookup_1&Hv).
  apply lookup_take_Some in Hk as [Hk Hlt]. exists (Z.of_nat k), l.
  rewrite at_nat. split_and!; done || lia.
Qed.

Lemma in_behind ls i v : 0 ≤ i → v ∈ behind ls i → ∃ j l, i ≤ j ∧ at_ ls j = Some l ∧ v ∈ l.
Proof.
  unfold behind. rewrite elem_of_concat. intros Hi (l&(k&Hk)%list_elem_of_lookup_1&Hv).
  rewrite lookup_drop in Hk. exists (i + Z.of_nat k), l. split; [lia|].
  replace (i + Z.of_nat k) with (Z.of_nat (Z.to_nat i + k)) by lia. by rewrite at_nat.
Qed.

(** ** Blocks of an array that stores [ls] *)

Section stored.
Variables (s : A) (ls : list (list ValueType)).
Hypothesis st : stores s ls.

Lemma stored_first i v l :
  at_ ls i = Some (v :: l) → full s i ∧ hd s i = keyOfValue v.
Proof.
  intros Hl. pose proof (at_Some_bound _ _ _ Hl). pose proof (st_size s ls st).
  destruct (st_blocks s ls st i _ Hl) as [[? _]|(_&b&rest&Hb&[_ Hh])]; [done|].
  assert (hd s i = keyOfValue v) as Hv by (unfold hd; rewrite Hb; exact Hh).
  split; [|done]. split; [lia|]. rewrite Hv. intros Heq. apply (st_null s ls st).
  rewrite <-Heq, (around _ _ _ Hl), !keys_app, keys_cons. set_solver.
Qed.

Lemma full_stored i :
  full s i → ∃ v l b rest, at_ ls i = Some (v :: l) ∧ hd s i = keyOfValue v ∧
    at_ (arr_pma s) i = Some b ∧ represents b (v :: l) rest.
Proof.
  intros [Hi Hhd]. rewrite <-(st_size s ls st) in Hi. destruct (at_in_bound ls i Hi) as [l Hl].
  destruct (st_blocks s ls st i _ Hl) as [[_ ?]|(Hne&b&rest&Hb&Hr)]; [done|].
  destruct l as [|v l]; [done|]. exists v, l, b, rest.
  split_and!; [done|by eapply stored_first|done|done].
Qed.

Lemma stored_block_sorted i l : at_ ls i = Some l → sorted l.
Proof. intros Hl. pose proof (st_sorted s ls st) as Hs. rewrite (around _ _ _ Hl), !sorted_app in Hs. tauto. Qed.

Lemma stored_order i j l l' v w :
  at_ ls i = Some l → at_ ls j = Some l' → i < j → v ∈ l → w ∈ l' → keyOfValue v < keyOfValue w.
Proof.
  intros Hl Hl' Hij Hv Hw. pose proof (st_sorted s ls st) as Hs.
  rewrite (around _ _ _ Hl), !sorted_app in Hs. destruct Hs as (_&(_&_&Hlt)&_).
  apply Hlt; [done|]. unfold behind. apply elem_of_concat. exists l'. split; [|done].
  apply (list_elem_of_lookup_2 _ (Z.to_nat (j - (i + 1)))). rewrite lookup_drop.
  apply at_lookup in Hl as [? _]. apply at_lookup in Hl' as [? <-]. f_equal. lia.
Qed.

Lemma stores_array_ok : array_ok s.
Proof.
  pose proof (st_size s ls st). pose proof (zlen_nonneg ls). split.
  - split; [lia|apply (st_bound s ls st)].
  - apply (st_empty s ls st).
  - apply (st_empty_end s ls st).
  - intros i j (v&l&b&r&Hl&->&_)%full_stored (w&l'&b'&r'&Hl'&->&_)%full_stored Hij.
    eapply stored_order; [exact Hl|exact Hl'|done|by left|by left].
Qed.

Lemma none_full_before i k : i ≤ k → 0 ≤ i → none_full s i k → before ls k = before ls i.
Proof.
  intros Hik Hi. remember (Z.to_nat (k - i)) as d eqn:Hd. revert i Hik Hi Hd.
  induction d as [|d IH]; intros i Hik Hi Hd Hn; [by replace k with i by lia|].
  rewrite (IH (i + 1)); [|lia|lia|lia|intros x Hx; apply Hn; lia].
  destruct (decide (i < zlen ls)) as [Hlt|].
  - destruct (at_in_bound ls i) as [l Hl]; [lia|]. rewrite (before_succ _ _ _ Hl).
    destruct l as [|v l]; [apply app_nil_r|]. destruct (Hn i); [lia|]. by eapply stored_first.
  - by rewrite !before_all by lia.
Qed.

(** Where a key lies relative to its block. *)
Lemma containing_split e k :
  containing s e k → k ≠ -1 →
  ∃ v l b rest, at_ ls k = Some (v :: l) ∧ at_ (arr_pma s) k = Some b ∧
    represents b (v :: l) rest ∧ sorted (v :: l) ∧ keyOfValue v ≤ e ∧
    below (before ls k) e ∧ above e (behind ls (k + 1)).
Proof.
  intros [[-> _]|(Hf&Hle&Hl)] Hne; [done|].
  destruct (full_stored k Hf) as (v&l&b&rest&Hk&Hhd&Hb&Hr). exists v, l, b, rest.
  split_and!; [done|done|done|by eapply stored_block_sorted|lia| |].
  - unfold below. apply Forall_forall. intros w (j&l'&Hj&Hl'&Hw)%in_before.
    pose proof (stored_order j k l' (v :: l) w v Hl' Hk ltac:(lia) Hw (list_elem_of_here _ _)). lia.
  - unfold above. apply Forall_forall. destruct Hf as [? _].
    intros w (j&l'&Hj&Hl'&Hw)%in_behind; [|lia]. destruct l' as [|v' l']; [by apply elem_of_nil in Hw|].
    destruct (stored_first j v' l' Hl') as [Hfj Hhj].
    specialize (Hl j Hfj ltac:(lia)). rewrite Hhj in Hl.
    apply elem_of_cons in Hw as [->|Hw]; [done|].
    apply stored_block_sorted, sorted_cons in Hl' as [Ha _].
    unfold above in Ha. rewrite Forall_forall in Ha. specialize (Ha w Hw). lia.
Qed.

Lemma containing_none e : containing s e (-1) → above e (concat ls).
Proof.
  intros [[_ Hl]|([? _]&_)]; [|lia]. apply Forall_forall. rewrite <-(before_all ls (zlen ls)) by lia.
  intros w (j&l&Hj&Hlj&Hw)%in_before. destruct l as [|v l]; [by apply elem_of_nil in Hw|].
  destruct (stored_first j v l Hlj) as [Hf Hv]. specialize (Hl j Hf). rewrite Hv in Hl.
  apply elem_of_cons in Hw as [->|Hw]; [done|].
  apply stored_block_sorted, sorted_cons in Hlj as [Ha _].
  unfold above in Ha. rewrite Forall_forall in Ha. specialize (Ha w Hw). lia.
Qed.

(** ** Membership *)

Lemma array_contains_ok e : Search.contains s e = Ok (bool_decide (e ∈ keys (concat ls))).
Proof.
  unfold Search.contains. destruct (findContainingBlock_ok s stores_array_ok e) as (k&->&Hk).
  cbn [mbind result_bind]. destruct (decide (k = -1)) as [->|Hne].
  - simpl. rewrite bool_decide_eq_false_2; [done|]. by apply above_not_in, containing_none.
  - destruct (containing_split e k Hk Hne) as (v&l&b&rest&Hl&Hb&Hr&Hs&_&Hlow&Hhigh).
    pose proof (at_Some_bound _ _ _ Hl). destruct (Z.leb_spec 0 k); [|lia].
    unfold entry. rewrite (zget_at _ _ _ Hb). cbn [mbind result_bind].
    destruct Hr as [Hr _]. unfold PmaEntry.isEmpty. rewrite (holds_has_block _ _ _ Hr). cbn [negb].
    rewrite (contains_ok _ _ _ _ Hr Hs). f_equal. apply bool_decide_ext.
    rewrite (around _ _ _ Hl), !keys_app, !elem_of_app.
    pose proof (below_not_in _ _ Hlow). pose proof (above_not_in _ _ Hhigh). tauto.
Qed.

(** ** Iterators are indices of the contents *)

Definition position it n : Prop :=
  (∃ l, at_ ls (Iterator.blockIndex_ it) = Some l ∧ 0 ≤ Iterator.elementIndex_ it < zlen l ∧
     n = zlen (before ls (Iterator.blockIndex_ it)) + Iterator.elementIndex_ it) ∨
  (it = Iterator.end_ s ∧ n = zlen (concat ls)).

Lemma zlen_around i l : at_ ls i = Some l →
  zlen (concat ls) = zlen (before ls i) + zlen l + zlen (behind ls (i + 1)).
Proof. intros Hl. rewrite (around _ _ _ Hl). zlen. Qed.

Lemma position_bounds it n : position it n → 0 ≤ n ≤ zlen (concat ls).
Proof.
  intros [(l&Hl&?&->)|(_&->)]; [|zlen]. rewrite (zlen_around _ _ Hl).
  pose proof (zlen_nonneg (before ls (Iterator.blockIndex_ it))).
  pose proof (zlen_nonneg (behind ls (Iterator.blockIndex_ it + 1))). lia.
Qed.

Lemma position_end : position (Iterator.end_ s) (zlen (concat ls)).
Proof. by right. Qed.

Lemma position_last it n : position it n → Iterator.eqb it (Iterator.end_ s) = (n =? zlen (concat ls)).
Proof.
  unfold Iterator.eqb, Iterator.end_. intros [(l&Hl&?&->)|(->&->)]; simpl.
  - rewrite (zlen_around _ _ Hl). pose proof (at_Some_bound _ _ _ Hl).
    pose proof (st_size s ls st). pose proof (zlen_nonneg (behind ls (Iterator.blockIndex_ it + 1))).
    bool_cases; done || lia.
  - by rewrite !Z.eqb_refl.
Qed.

Lemma neqb_eqb it it' : Iterator.neqb it it' = negb (Iterator.eqb it it').
Proof. unfold Iterator.neqb, Iterator.eqb. by rewrite negb_andb. Qed.

(** The first full entry from [i] on is the position behind the blocks before [i]. *)
Lemma position_block i k :
  0 ≤ i ≤ k → k ≤ arr_size s → none_full s i k → (k < arr_size s → full s k) →
  position (Iterator.mkIterator k 0) (zlen (before ls i)).
Proof.
  intros Hik Hk Hn Hf. rewrite <-(none_full_before i k) by (done || lia).
  destruct (decide (k < arr_size s)) as [Hlt|].
  - destruct (full_stored k (Hf Hlt)) as (v&l&_&_&Hl&_). left. exists (v :: l). simpl.
    split_and!; [done|lia|zlen|lia].
  - right. assert (k = arr_size s) as -> by lia. split; [done|].
    rewrite before_all; [done|]. rewrite (st_size s ls st). lia.
Qed.

Lemma begin_ok : ∃ it, Iterator.begin_ s = Ok it ∧ position it 0.
Proof.
  pose proof (ok_size s stores_array_ok) as Hsz. apply wp_returns. unfold Iterator.begin_. apply wp_bind.
  apply (wp_while (λ k, 0 ≤ k ≤ arr_size s ∧ none_full s 0 k) (λ k, arr_size s - k)).
  - intros k [Hk Hn]. split; [lia|]. rewrite (empty_full s stores_array_ok k) by lia.
    cbn [mbind result_bind wp].
    destruct (bool_decide_reflect (full s k)) as [Hf|Hf]; cbn [negb andb wp].
    + apply (position_block 0 k); done || lia.
    + destruct (Z.eqb_spec k (arr_size s)) as [->|]; cbn [negb wp].
      * apply (position_block 0); done || lia.
      * split; [|lia]. split; [lia|]. intros x Hx. destruct (decide (x = k)) as [->|]; [done|]. apply Hn. lia.
  - split; [lia|]. intros x Hx. lia.
  - lia.
Qed.

Lemma blockSize_ok i l :
  at_ ls i = Some l → l ≠ [] →
  ∃ b rest, entry s i = Ok b ∧ represents b l rest ∧ Search.blockSize s i = Ok (zlen l).
Proof.
  intros Hl Hne. destruct (st_blocks s ls st i _ Hl) as [[-> _]|(_&b&rest&Hb&Hr)]; [done|].
  exists b, rest. unfold Search.blockSize, entry. rewrite (zget_at _ _ _ Hb).
  split_and!; [done|done|]. destruct Hr as ((_&_&Hs)&_). simpl. by rewrite Hs.
Qed.

Lemma dereference_ok it n :
  position it n → n < zlen (concat ls) →
  ∃ v, at_ (concat ls) n = Some v ∧ Iterator.dereference s it = Ok v.
Proof.
  intros [(l&Hl&Hi&->)|(_&->)] Hn; [|lia]. destruct it as [i j]. simpl in *.
  destruct (at_in_bound l j Hi) as [v Hv]. exists v. rewrite (around _ _ _ Hl).
  split.
  - rewrite at_app_r by lia. replace (zlen (before ls i) + j - zlen (before ls i)) with j by lia.
    by rewrite at_app_l by lia.
  - unfold Iterator.dereference. simpl.
    destruct (blockSize_ok i l Hl) as (b&rest&->&((Hb&_&_)&_)&_).
    { intros ->. zlen. }
    cbn [mbind result_bind]. unfold PmaEntry.deref. rewrite Hb. cbn [mbind result_bind].
    apply zget_at. by rewrite at_app_l by lia.
Qed.

Lemma iterator_findNext_ok it n :
  position it n → n < zlen (concat ls) →
  ∃ it', Iterator.findNext s it = Ok it' ∧ position it' (n + 1).
Proof.
  intros [(l&Hl&Hi&->)|(_&->)] Hn; [|lia]. destruct it as [i j]. simpl in *.
  unfold Iterator.findNext. simpl.
  destruct (blockSize_ok i l Hl) as (b&rest&_&_&->); [intros ->; zlen|].
  cbn [mbind result_bind]. destruct (Z.ltb_spec (j + 1) (zlen l)).
  - eexists. split; [done|]. left. exists l. simpl. split_and!; done || lia.
  - pose proof (at_Some_bound _ _ _ Hl). pose proof (st_size s ls st).
    destruct (skipEmpty_ok s stores_array_ok (i + 1) (arr_size s)) as (k&->&Hk&Hnone&Hf); [lia|lia|].
    cbn [mbind result_bind]. eexists. split; [done|].
    replace (zlen (before ls i) + j + 1) with (zlen (before ls (i + 1)))
      by (rewrite (before_succ _ _ _ Hl); zlen).
    apply position_block; done || lia.
Qed.

(** [find]: the position of the key, or the end. *)
Lemma find_ok e :
  ∃ it, Iterator.find s e = Ok it ∧
    ((∃ n v, position it n ∧ at_ (concat ls) n = Some v ∧ keyOfValue v = e) ∨
     (it = Iterator.end_ s ∧ e ∉ keys (concat ls))).
Proof.
  unfold Iterator.find. destruct (findContainingBlock_ok s stores_array_ok e) as (k&->&Hk).
  cbn [mbind result_bind]. destruct (decide (k = -1)) as [->|Hne].
  - eexists. split; [done|]. right. split; [done|]. by apply above_not_in, containing_none.
  - destruct (containing_split e k Hk Hne) as (v&l&b&rest&Hl&Hb&[Hr _]&Hs&_&Hlow&Hhigh).
    pose proof (at_Some_bound _ _ _ Hl) as Hkb. destruct (Z.ltb_spec k 0); [lia|].
    unfold entry. rewrite (zget_at _ _ _ Hb). cbn [mbind result_bind].
    unfold PmaEntry.isEmpty. rewrite (holds_has_block _ _ _ Hr). cbn [negb].
    destruct (findIndex_ok _ _ _ e Hr Hs) as (l1&l2&Hsplit&Hl1&Hl2&->). cbn [mbind result_bind].
    assert (e ∉ keys l2 → e ∉ keys (concat ls)) as Habsent.
    { rewrite (around _ _ _ Hl), Hsplit, !keys_app, !elem_of_app.
      pose proof (below_not_in _ _ Hlow). pose proof (above_not_in _ _ Hhigh).
      pose proof (below_not_in _ _ Hl1). tauto. }
    rewrite Hsplit in Hr, Hs, Hl. pose proof Hr as (_&_&->).
    destruct l2 as [|w l2].
    + destruct (Z.leb_spec (zlen (l1 ++ [])) (zlen l1)); [|zlen].
      eexists. split; [done|]. right. split; [done|]. apply Habsent. by intros ?%elem_of_nil.
    + destruct (Z.leb_spec (zlen (l1 ++ w :: l2)) (zlen l1)); [zlen|].
      erewrite get_at; [|exact Hr|rewrite <-app_assoc; apply at_middle]. cbn [mbind result_bind].
      destruct (Z.eqb_spec (keyOfValue w) e) as [Heq|Hneq]; cbn [negb]; eexists; (split; [done|]).
      * left. exists (zlen (before ls k) + zlen l1), w. split_and!; [|..|done].
        -- left. exists (l1 ++ w :: l2). simpl. split_and!; [done|zlen|zlen|done].
        -- rewrite (around _ _ _ Hl), <-app_assoc, app_assoc, <-zlen_app. apply at_middle.
      * right. split; [done|]. apply Habsent. apply above_cons in Hl2 as [? _].
        apply sorted_app in Hs as (_&[Ha _]%sorted_cons&_).
        apply above_not_in, above_cons. split; [lia|]. eapply above_weaken; [exact Ha|lia].
Qed.

(** The position in the block [k] that may have a key of at least [e]; behind its last
    element, the position is that of the next block. *)
Definition lower_at e it : Prop :=
  ∃ l1 l2, concat ls = l1 ++ l2 ∧ below l1 e ∧ above (e - 1) l2 ∧ position it (zlen l1).

Lemma lower_next e k l :
  at_ ls k = Some l → k < arr_size s → below (before ls k) e → below l e → above e (behind ls (k + 1)) →
  wp (blockIndex ← Search.findNext s k (arr_size s);
      if arr_size s <=? blockIndex then Ok (Iterator.end_ s) else
      AssertM (b ← arr_empty s blockIndex; Ok (negb b));;
      Ok (Iterator.mkIterator blockIndex 0)) (lower_at e).
Proof.
  intros Hl Hk Hlow Hbl Hhigh. pose proof (at_Some_bound _ _ _ Hl).
  destruct (findNext_ok s stores_array_ok k (arr_size s)) as (k'&->&Hk'&Hn'&Hf'); [lia|lia|].
  cbn [mbind result_bind].
  assert (position (Iterator.mkIterator k' 0) (zlen (before ls (k + 1)))) as Hpos
    by (apply position_block; done || lia).
  assert (∀ it, position it (zlen (before ls (k + 1))) → lower_at e it) as Hparts.
  { intros it Hit. exists (before ls (k + 1)), (behind ls (k + 1)). split_and!; [apply before_behind| | |done].
    - by rewrite (before_succ _ _ _ Hl), below_app.
    - eapply above_weaken; [exact Hhigh|lia]. }
  destruct (Z.leb_spec (arr_size s) k') as [Hend|Hin].
  - assert (k' = arr_size s) as -> by lia. by apply Hparts.
  - rewrite AssertM_ok; [by apply Hparts|].
    rewrite (empty_full s stores_array_ok k') by lia. rewrite bool_decide_eq_true_2 by auto. done.
Qed.

Lemma lower_in_block e k :
  full s k → containing s e k →
  wp (indexInBlock ← Search.findIndexIn s k e;
      n ← Search.blockSize s k;
      if n <=? indexInBlock then
        blockIndex ← Search.findNext s k (arr_size s);
        if arr_size s <=? blockIndex then Ok (Iterator.end_ s) else
        AssertM (b ← arr_empty s blockIndex; Ok (negb b));;
        Ok (Iterator.mkIterator blockIndex 0)
      else Ok (Iterator.mkIterator k indexInBlock)) (lower_at e).
Proof.
  intros Hf Hk. assert (k ≠ -1 ∧ k < arr_size s) as [Hne Hks] by (destruct Hf; lia).
  destruct (containing_split e k Hk Hne) as (v&l&b&rest&Hl&Hb&[Hr _]&Hs&_&Hlow&Hhigh).
  unfold findIndexIn, entry. rewrite (zget_at _ _ _ Hb). cbn [mbind result_bind].
  destruct (findIndex_ok _ _ _ e Hr Hs) as (l1&l2&Hsplit&Hl1&Hl2&->). cbn [mbind result_bind].
  destruct (blockSize_ok k _ Hl) as (?&?&_&_&->); [done|]. cbn [mbind result_bind].
  rewrite Hsplit in *. destruct l2 as [|w l2].
  - rewrite app_nil_r in *. destruct (Z.leb_spec (zlen l1) (zlen l1)); [|lia]. by eapply lower_next.
  - destruct (Z.leb_spec (zlen (l1 ++ w :: l2)) (zlen l1)); [zlen|].
    exists (before ls k ++ l1), ((w :: l2) ++ behind ls (k + 1)). split_and!.
    + by rewrite (around _ _ _ Hl), <-!app_assoc.
    + by apply below_app.
    + apply above_app. split; [done|]. eapply above_weaken; [exact Hhigh|lia].
    + left. exists (l1 ++ w :: l2). simpl. split_and!; [done|zlen|zlen|zlen].
Qed.

(** All keys of the array are larger: the first block has the position. *)
Lemma first_index e k v l :
  above e (concat ls) → at_ ls k = Some (v :: l) → full s k → Search.findIndexIn s k e = Ok 0.
Proof.
  intros Habove Hl Hf. destruct (full_stored k Hf) as (v'&l'&b&rest&Hl'&_&Hb&[Hr _]).
  rewrite Hl in Hl'. injection Hl' as <- <-.
  unfold findIndexIn, entry. rewrite (zget_at _ _ _ Hb). cbn [mbind result_bind].
  destruct (findIndex_ok _ _ _ e Hr (stored_block_sorted _ _ Hl)) as (l1&l2&Hsplit&Hl1&Hl2&->).
  destruct l1 as [|w l1]; [done|]. injection Hsplit as <- _.
  apply below_cons in Hl1 as [? _]. rewrite (around _ _ _ Hl) in Habove.
  apply above_app in Habove as [_ Habove]. apply above_cons in Habove as [? _]. lia.
Qed.

(** [lowerBound]: the first position whose key is at least [e]. *)
Lemma lowerBound_ok e :
  ∃ it l1 l2, Iterator.lowerBound s e = Ok it ∧ concat ls = l1 ++ l2 ∧
    below l1 e ∧ above (e - 1) l2 ∧ position it (zlen l1).
Proof.
  cut (wp (Iterator.lowerBound s e) (lower_at e)).
  { intros (it&Hit&l1&l2&?)%wp_returns. by exists it, l1, l2. }
  pose proof (st_size s ls st) as Hsz.
  unfold Iterator.lowerBound. destruct (findBlockIndex_ok s stores_array_ok e) as (k&->&Hk).
  cbn [mbind result_bind]. destruct Hk as [[Hf Hk]|(Hc&Hk&Hnone&Hf)].
  { destruct (Z.leb_spec (arr_size s) k); [destruct Hf; lia|]. by apply lower_in_block. }
  pose proof (containing_none e Hc) as Habove.
  pose proof (position_block 0 k ltac:(lia) ltac:(lia) Hnone Hf) as Hpos. rewrite before_0 in Hpos.
  assert (∀ it, position it 0 → lower_at e it) as Hfirst.
  { intros it Hit. exists [], (concat ls). split_and!; [done|constructor| |done].
    eapply above_weaken; [exact Habove|lia]. }
  destruct (Z.leb_spec (arr_size s) k) as [Hend|Hin].
  - assert (k = arr_size s) as -> by lia. by apply Hfirst.
  - specialize (Hf Hin). destruct (full_stored k Hf) as (v&l&_&_&Hl&_).
    rewrite (first_index e k v l) by done. cbn [mbind result_bind].
    destruct (blockSize_ok k _ Hl) as (?&?&_&_&->); [done|]. cbn [mbind result_bind].
    destruct (Z.leb_spec (zlen (v :: l)) 0); [zlen|]. by apply Hfirst.
Qed.
(** The loop of [rangeQuery], started at the position behind [l1]. *)
Lemma rangeQuery_loop lft rgt l1 l2 it (fuel : nat) :
  concat ls = l1 ++ l2 → above (lft - 1) l2 → position it (zlen l1) → zlen l2 < Z.of_nat fuel →
  ∃ m r it', l2 = m ++ r ∧ below m rgt ∧ above (rgt - 1) r ∧
    while fuel
      (λ '(current, _),
         if Iterator.neqb current (Iterator.end_ s)
         then v ← Iterator.dereference s current; Ok (comp (keyOfValue v) rgt)
         else Ok false)
      (λ '(current, visited),
         v ← Iterator.dereference s current;
         AssertMsg ((comp lft (keyOfValue v) || (lft =? keyOfValue v)) && comp (keyOfValue v) rgt);;
         '(current, _) ← Iterator.preIncrement s current;
         Ok (current, visited ++ [v]))
      (it, []) = Ok (it', m).
Proof.
  intros Hsplit Hleft Hpos Hfuel. pose proof (st_sorted s ls st) as Hsorted.
  rewrite Hsplit, sorted_app in Hsorted. destruct Hsorted as (_&Hsorted&_).
  match goal with |- ∃ m r it', _ ∧ _ ∧ _ ∧ ?w = _ =>
    cut (wp w (λ '(_, m), ∃ r, l2 = m ++ r ∧ below m rgt ∧ above (rgt - 1) r)) end.
  { intros ([it' m]&->&r&?&?&?)%wp_returns. exists m, r, it'. tauto. }
  apply (wp_while (λ '(it, m), ∃ r, l2 = m ++ r ∧ below m rgt ∧ position it (zlen (l1 ++ m)))
    (λ '(_, m), zlen l2 - zlen m)).
  - intros [it' m] (r&->&Hm&Hp). split; [zlen|].
    pose proof (position_last _ _ Hp) as Hend. rewrite neqb_eqb, Hend, Hsplit, app_assoc.
    destruct r as [|v r].
    + rewrite app_nil_r, Z.eqb_refl. cbn [negb wp]. exists [].
      split_and!; [done|done|constructor].
    + destruct (Z.eqb_spec (zlen (l1 ++ m)) (zlen ((l1 ++ m) ++ v :: r))); [zlen|].
      assert (zlen (l1 ++ m) < zlen (concat ls)) as Hlt by (rewrite Hsplit; zlen).
      destruct (dereference_ok _ _ Hp Hlt) as (w&Hw&Hd).
      rewrite Hsplit, app_assoc, at_middle in Hw. injection Hw as <-.
      rewrite Hd. cbn [negb mbind result_bind wp]. unfold comp at 1.
      destruct (Z.ltb_spec (keyOfValue v) rgt) as [Hv|Hv].
      * rewrite above_app, above_cons in Hleft. unfold comp.
        rewrite assert_ok by (bool_cases; done || lia).
        destruct (iterator_findNext_ok _ _ Hp Hlt) as (it''&Hnext&Hp').
        unfold Iterator.preIncrement. rewrite Hnext. cbn [mbind result_bind wp].
        split; [|zlen]. exists r. split_and!.
        -- by rewrite <-app_assoc.
        -- apply below_app. split; [done|]. apply below_cons. split; [done|constructor].
        -- replace (zlen (l1 ++ m ++ [v])) with (zlen (l1 ++ m) + 1) by zlen. done.
      * exists (v :: r). split_and!; [done|done|]. apply above_cons. split; [lia|].
        apply sorted_app in Hsorted as (_&[Ha _]%sorted_cons&_). eapply above_weaken; [exact Ha|lia].
  - exists l2. split_and!; [done|constructor|by rewrite app_nil_r].
  - zlen.
Qed.

Lemma filter_range lft rgt l1 m r :
  below l1 lft → above (lft - 1) m → below m rgt → above (rgt - 1) r →
  filter (λ v, lft ≤ keyOfValue v < rgt) (l1 ++ m ++ r) = m.
Proof.
  unfold below, above. rewrite !Forall_forall. intros H1 H2 H3 H4. rewrite !filter_app.
  rewrite (filter_none _ l1), (filter_all _ m), (filter_none _ r); [by rewrite app_nil_r|..];
    intros v Hv.
  - specialize (H4 v Hv). lia.
  - specialize (H2 v Hv). specialize (H3 v Hv). lia.
  - specialize (H1 v Hv). lia.
Qed.

Lemma rangeQuery_ok lft rgt (fuel : nat) :
  zlen (concat ls) < Z.of_nat fuel →
  Iterator.rangeQuery s lft rgt fuel = Ok (filter (λ v, lft ≤ keyOfValue v < rgt) (concat ls)).
Proof.
  intros Hfuel. unfold Iterator.rangeQuery.
  destruct (lowerBound_ok lft) as (it&l1&l2&->&Hsplit&Hl1&Hl2&Hpos). cbn [mbind result_bind].
  destruct (rangeQuery_loop lft rgt l1 l2 it fuel) as (m&r&it'&->&Hm&Hr&->);
    [done|done|done|rewrite Hsplit in Hfuel; zlen|].
  cbn [mbind result_bind]. rewrite Hsplit. apply above_app in Hl2 as [Hl2 _].
  by rewrite filter_range.
Qed.

End stored.
End contents.
