(* ===== verification/Sds.v ===== *)
(** * The batched sparse array: state and basic operations
    (dataStructures/batchedSparseArray.hpp)

    The state of class [BatchedSparseArray] is one record, which its operations take and
    return.  [pma], [swapPma] and [bufferArray] are arrays of entries of [capacity],
    [swapCapacity] and [bufferCapacity] cells.  A copied entry shares its block with the
    original only until the original is overwritten, which the code always does next, so
    entries are values here.  [BlockSize] and [MinBlockSize] are [MaxSize] and [MinSize] of
    the block configuration, [SegmentWidth] is [AggregateWidth]. *)

From S2P Require Export Rebalancing Search.
Import PmaEntry(PmaEntry).
Import BinaryRebalancingManager(Manager).
Import ConcurrentBucketMap(ConcurrentBucketMap, Hash).

(** The template parameter MAX_NUMBER_OF_THREADS. *)
Class ThreadConfig := { MaxNumberOfThreads : Z }.

Module BatchedSparseArray.
Section definitions.
Context `{T : SdsTypes} `{C : BlockConfig} `{R : RebalancingConfig} `{D : DensityManager}.
Context `{H : Hash} `{P : ThreadConfig}.

Definition LogInitialArrayCapacity : Z := 12.
Definition InitialArrayCapacity : Z := 2 ^ LogInitialArrayCapacity.

Record Sds := mkSds {
  capacity : Z;
  swapCapacity : Z;
  bufferCapacity : Z;
  size : Z;
  pma : list PmaEntry;
  swapPma : list PmaEntry;
  bufferArray : list PmaEntry;
  bufferPointers : list Interval;
  rebalancingManager : Manager;
  rebalancingNodes : list RebalancingNode;
  recountingNodesMap : ConcurrentBucketMap;
  rebalancingTasks : list RebalancingTask;
  prefixNumberOfRebalancingBlocks : list Z;
  tasks : list TaskInfo;
  numberOfThreads : Z;
  bufferWrites : Z;
  bufferReads : Z;
}.

Definition set_capacity (s : Sds) (x : Z) : Sds :=
  mkSds x (swapCapacity s) (bufferCapacity s) (size s) (pma s) (swapPma s) (bufferArray s)
    (bufferPointers s) (rebalancingManager s) (rebalancingNodes s) (recountingNodesMap s)
    (rebalancingTasks s) (prefixNumberOfRebalancingBlocks s) (tasks s) (numberOfThreads s)
    (bufferWrites s) (bufferReads s).
Definition set_swapCapacity (s : Sds) (x : Z) : Sds :=
  mkSds (capacity s) x (bufferCapacity s) (size s) (pma s) (swapPma s) (bufferArray s)
    (bufferPointers s) (rebalancingManager s) (rebalancingNodes s) (recountingNodesMap s)
    (rebalancingTasks s) (prefixNumberOfRebalancingBlocks s) (tasks s) (numberOfThreads s)
    (bufferWrites s) (bufferReads s).
Definition set_bufferCapacity (s : Sds) (x : Z) : Sds :=
  mkSds (capacity s) (swapCapacity s) x (size s) (pma s) (swapPma s) (bufferArray s)
    (bufferPointers s) (rebalancingManager s) (rebalancingNodes s) (recountingNodesMap s)
    (rebalancingTasks s) (prefixNumberOfRebalancingBlocks s) (tasks s) (numberOfThreads s)
    (bufferWrites s) (bufferReads s).
Definition set_size (s : Sds) (x : Z) : Sds :=
  mkSds (capacity s) (swapCapacity s) (bufferCapacity s) x (pma s) (swapPma s) (bufferArray
    s) (bufferPointers s) (rebalancingManager s) (rebalancingNodes s) (recountingNodesMap s)
    (rebalancingTasks s) (prefixNumberOfRebalancingBlocks s) (tasks s) (numberOfThreads s)
    (bufferWrites s) (bufferReads s).
Definition set_pma (s : Sds) (x : list PmaEntry) : Sds :=
  mkSds (capacity s) (swapCapacity s) (bufferCapacity s) (size s) x (swapPma s) (bufferArray
    s) (bufferPointers s) (rebalancingManager s) (rebalancingNodes s) (recountingNodesMap s)
    (rebalancingTasks s) (prefixNumberOfRebalancingBlocks s) (tasks s) (numberOfThreads s)
    (bufferWrites s) (bufferReads s).
Definition set_swapPma (s : Sds) (x : list PmaEntry) : Sds :=
  mkSds (capacity s) (swapCapacity s) (bufferCapacity s) (size s) (pma s) x (bufferArray s)
    (bufferPointers s) (rebalancingManager s) (rebalancingNodes s) (recountingNodesMap s)
    (rebalancingTasks s) (prefixNumberOfRebalancingBlocks s) (tasks s) (numberOfThreads s)
    (bufferWrites s) (bufferReads s).
Definition set_bufferArray (s : Sds) (x : list PmaEntry) : Sds :=
  mkSds (capacity s) (swapCapacity s) (bufferCapacity s) (size s) (pma s) (swapPma s) x
    (bufferPointers s) (rebalancingManager s) (rebalancingNodes s) (recountingNodesMap s)
    (rebalancingTasks s) (prefixNumberOfRebalancingBlocks s) (tasks s) (numberOfThreads s)
    (bufferWrites s) (bufferReads s).
Definition set_bufferPointers (s : Sds) (x : list Interval) : Sds :=
  mkSds (capacity s) (swapCapacity s) (bufferCapacity s) (size s) (pma s) (swapPma s)
    (bufferArray s) x (rebalancingManager s) (rebalancingNodes s) (recountingNodesMap s)
    (rebalancingTasks s) (prefixNumberOfRebalancingBlocks s) (tasks s) (numberOfThreads s)
    (bufferWrites s) (bufferReads s).
Definition set_rebalancingManager (s : Sds) (x : Manager) : Sds :=
  mkSds (capacity s) (swapCapacity s) (bufferCapacity s) (size s) (pma s) (swapPma s)
    (bufferArray s) (bufferPointers s) x (rebalancingNodes s) (recountingNodesMap s)
    (rebalancingTasks s) (prefixNumberOfRebalancingBlocks s) (tasks s) (numberOfThreads s)
    (bufferWrites s) (bufferReads s).
Definition set_rebalancingNodes (s : Sds) (x : list RebalancingNode) : Sds :=
  mkSds (capacity s) (swapCapacity s) (bufferCapacity s) (size s) (pma s) (swapPma s)
    (bufferArray s) (bufferPointers s) (rebalancingManager s) x (recountingNodesMap s)
    (rebalancingTasks s) (prefixNumberOfRebalancingBlocks s) (tasks s) (numberOfThreads s)
    (bufferWrites s) (bufferReads s).
Definition set_recountingNodesMap (s : Sds) (x : ConcurrentBucketMap) : Sds :=
  mkSds (capacity s) (swapCapacity s) (bufferCapacity s) (size s) (pma s) (swapPma s)
    (bufferArray s) (bufferPointers s) (rebalancingManager s) (rebalancingNodes s) x
    (rebalancingTasks s) (prefixNumberOfRebalancingBlocks s) (tasks s) (numberOfThreads s)
    (bufferWrites s) (bufferReads s).
Definition set_rebalancingTasks (s : Sds) (x : list RebalancingTask) : Sds :=
  mkSds (capacity s) (swapCapacity s) (bufferCapacity s) (size s) (pma s) (swapPma s)
    (bufferArray s) (bufferPointers s) (rebalancingManager s) (rebalancingNodes s)
    (recountingNodesMap s) x (prefixNumberOfRebalancingBlocks s) (tasks s) (numberOfThreads
    s) (bufferWrites s) (bufferReads s).
Definition set_prefixNumberOfRebalancingBlocks (s : Sds) (x : list Z) : Sds :=
  mkSds (capacity s) (swapCapacity s) (bufferCapacity s) (size s) (pma s) (swapPma s)
    (bufferArray s) (bufferPointers s) (rebalancingManager s) (rebalancingNodes s)
    (recountingNodesMap s) (rebalancingTasks s) x (tasks s) (numberOfThreads s)
    (bufferWrites s) (bufferReads s).
Definition set_tasks (s : Sds) (x : list TaskInfo) : Sds :=
  mkSds (capacity s) (swapCapacity s) (bufferCapacity s) (size s) (pma s) (swapPma s)
    (bufferArray s) (bufferPointers s) (rebalancingManager s) (rebalancingNodes s)
    (recountingNodesMap s) (rebalancingTasks s) (prefixNumberOfRebalancingBlocks s) x
    (numberOfThreads s) (bufferWrites s) (bufferReads s).
Definition set_bufferWrites (s : Sds) (x : Z) : Sds :=
  mkSds (capacity s) (swapCapacity s) (bufferCapacity s) (size s) (pma s) (swapPma s)
    (bufferArray s) (bufferPointers s) (rebalancingManager s) (rebalancingNodes s)
    (recountingNodesMap s) (rebalancingTasks s) (prefixNumberOfRebalancingBlocks s) (tasks
    s) (numberOfThreads s) x (bufferReads s).
Definition set_bufferReads (s : Sds) (x : Z) : Sds :=
  mkSds (capacity s) (swapCapacity s) (bufferCapacity s) (size s) (pma s) (swapPma s)
    (bufferArray s) (bufferPointers s) (rebalancingManager s) (rebalancingNodes s)
    (recountingNodesMap s) (rebalancingTasks s) (prefixNumberOfRebalancingBlocks s) (tasks
    s) (numberOfThreads s) (bufferWrites s) x.

(** ** Arrays *)

Definition null_entries (n : Z) : list PmaEntry := replicate (Z.to_nat n) PmaEntry.null_entry.

(** [BatchedSparseArray(alloc, numThreads)]. *)
Definition create `{M : TaskMemory} (numThreads : Z) : result Sds :=
  manager ← BinaryRebalancingManager.create 0 numThreads;
  Ok (mkSds InitialArrayCapacity InitialArrayCapacity InitialArrayCapacity 0
        (null_entries InitialArrayCapacity) (null_entries InitialArrayCapacity)
        (null_entries InitialArrayCapacity)
        (replicate (Z.to_nat InitialArrayCapacity) Interval.empty)
        manager [] (ConcurrentBucketMap.create numThreads) [] []
        (uninitializedTasks (MaxNumberOfThreads + 1)) numThreads 0 0).

(** [pma[i] = e], and the same for the other arrays. *)
Definition write_pma (s : Sds) (i : Z) (e : PmaEntry) : result Sds :=
  a ← zset (pma s) i e; Ok (set_pma s a).
Definition write_swapPma (s : Sds) (i : Z) (e : PmaEntry) : result Sds :=
  a ← zset (swapPma s) i e; Ok (set_swapPma s a).
Definition write_bufferArray (s : Sds) (i : Z) (e : PmaEntry) : result Sds :=
  a ← zset (bufferArray s) i e; Ok (set_bufferArray s a).
Definition write_bufferPointers (s : Sds) (i : Z) (x : Interval) : result Sds :=
  a ← zset (bufferPointers s) i x; Ok (set_bufferPointers s a).

(** [bufferPointers[i].left = l], [bufferPointers[i].right = r]. *)
Definition write_bufferLeft (s : Sds) (i l : Z) : result Sds :=
  x ← zget (bufferPointers s) i;
  write_bufferPointers s i (mkInterval l (Interval.right x)).
Definition write_bufferRight (s : Sds) (i r : Z) : result Sds :=
  x ← zget (bufferPointers s) i;
  write_bufferPointers s i (mkInterval (Interval.left x) r).

(** [tasks[i].f = ..]. *)
Definition write_task (s : Sds) (i : Z) (f : TaskInfo → TaskInfo) : result Sds :=
  t ← zget (tasks s) i;
  a ← zset (tasks s) i (f t);
  Ok (set_tasks s a).

(** The counters of the debug build. *)
Definition countWrite (s : Sds) : Sds :=
  if NDEBUG then s else set_bufferWrites s (bufferWrites s + 1).
Definition countRead (s : Sds) : Sds :=
  if NDEBUG then s else set_bufferReads s (bufferReads s + 1).

Definition head (s : Sds) (index : Z) : result Z :=
  e ← zget (pma s) index; Ok (PmaEntry.head e).

Definition blockSize (s : Sds) (index : Z) : result Z :=
  e ← zget (pma s) index; Ok (PmaEntry.size e).

Definition empty (s : Sds) (index : Z) : result bool :=
  if size s <=? index then Ok true else
  e ← zget (pma s) index;
  AssertMsg (Bool.eqb (PmaEntry.head e =? NULL_KEY) (PmaEntry.isEmpty e));;
  AssertMsg (Bool.eqb (PmaEntry.head e =? NULL_KEY) (PmaEntry.size e =? 0));;
  Ok (PmaEntry.head e =? NULL_KEY).

Definition numberOfBufferBlocks (s : Sds) (index : Z) : result Z :=
  if capacity s <=? index then Ok 0 else
  x ← zget (bufferPointers s) index;
  Ok (Interval.length x).

#[export] Instance sparseArray : SparseArray Sds := {|
  arr_size := size; arr_pma := pma; arr_empty := empty |}.

(** What the rebalancing manager sees. *)
Definition view (s : Sds) : SdsView := {|
  view_size := size s; view_empty := empty s;
  view_numberOfBufferBlocks := numberOfBufferBlocks s |}.

Definition addRecountingNode (s : Sds) (blockIndex : Z) (needsRebalancing : bool) : result Sds :=
  let recountingNodeIndex := BinaryRebalancingManager.lowestLevelNodeIndex blockIndex in
  m ← ConcurrentBucketMap.insert (recountingNodesMap s) recountingNodeIndex needsRebalancing;
  Ok (set_recountingNodesMap s m).

Definition getUniformWriteIndex (outputStart blockNumber outputLength numberOfBlocks : Z) : Z :=
  outputStart + (blockNumber * outputLength) ÷ numberOfBlocks.

Definition getDenseWriteIndex (outputStart blockNumber : Z) : Z := outputStart + blockNumber.

Definition writeToBufferArray (s : Sds) (block : PmaEntry) (outputRange : Interval)
    (blockNumber originBlock : Z) : result Sds :=
  AssertMsg (negb (PmaEntry.isEmpty block));;
  AssertMsg ((PmaEntry.size block <=? MaxSize) && (MinSize <=? PmaEntry.size block));;
  let writeIndex := getDenseWriteIndex (Interval.left outputRange) blockNumber in
  AssertMsg (writeIndex <? Interval.right outputRange);;
  AssertMsg (writeIndex <? bufferCapacity s);;
  old ← zget (bufferArray s) writeIndex;
  AssertMsg (PmaEntry.isEmpty old);;
  s ← write_bufferArray s writeIndex block;
  s ← addRecountingNode s originBlock true;
  Ok (countWrite s).

(** ** Sizes *)

Definition resizeMainPma (s : Sds) (newSize : Z) : Sds :=
  let s := set_size s newSize in
  if negb (swapCapacity s =? capacity s) then
    let s := set_pma s (null_entries (swapCapacity s)) in
    let s := set_bufferPointers s (replicate (Z.to_nat (swapCapacity s)) Interval.empty) in
    set_capacity s (swapCapacity s)
  else s.

(** [while (c <= newSize) c *= 2] for a positive [c]. *)
Definition doubleBeyond (c newSize : Z) : result Z :=
  while (S (Z.to_nat (newSize + 1))) (λ c, Ok (c <=? newSize)) (λ c, Ok (c * 2)) c.

Definition increaseBufferArraySize (s : Sds) (newSize : Z) : result Sds :=
  if bufferCapacity s <=? newSize then
    c ← doubleBeyond (bufferCapacity s) newSize;
    Ok (set_bufferArray (set_bufferCapacity s c) (null_entries c))
  else Ok s.

Definition increaseSwapPmaSize (s : Sds) (newSize : Z) : result Sds :=
  if swapCapacity s <=? newSize then
    c ← doubleBeyond (swapCapacity s) newSize;
    Ok (set_swapPma (set_swapCapacity s c) (null_entries c))
  else Ok s.

Definition maxRedistributionWidth (numberOfElements newElements : Z) : result Z :=
  AssertMsg ((0 <=? numberOfElements) && (0 <=? newElements));;
  let newNumberOfElements := numberOfElements + newElements in
  Ok (if newNumberOfElements =? 0 then 0 else newNumberOfElements ÷ MinSize + 1).

(** ** Counting and validation *)

Definition numberOfElements (s : Sds) : result Z :=
  for_range 0 (capacity s)
    (λ i n, b ← empty s i;
            if b : bool then Ok n else k ← blockSize s i; Ok (n + k)) 0.

Definition numberOfBlocks (s : Sds) : result Z :=
  for_range 0 (capacity s)
    (λ i n, b ← empty s i; Ok (if b : bool then n else n + 1)) 0.

(** The elements [get(j)], from [j] on, of an entry in [isValid]: [None] when one does not
    exceed the previous one, otherwise the last key. *)
Definition validElements (e : PmaEntry) (currentElement : Z) : result (option Z) :=
  for_range 0 (PmaEntry.size e)
    (λ j acc,
       match acc with
       | None => Ok None
       | Some currentElement =>
           v ← PmaEntry.get e j;
           let element := keyOfValue v in
           if comp element currentElement || (element =? currentElement) then
             AssertMsg false;; Ok None
           else Ok (Some element)
       end) (Some currentElement).

(** One non-empty entry in [isValid]; the state is [currentHead] and [currentElement]. *)
Definition validEntry (e : PmaEntry) (currentHead currentElement : Z) : result (option (Z * Z)) :=
  if (MaxSize <? PmaEntry.size e) || (PmaEntry.size e <? MinSize) then Ok None
  else if comp (PmaEntry.head e) currentHead || (PmaEntry.head e =? currentHead) then
    AssertMsg false;; Ok None
  else
    v ← PmaEntry.get e 0;
    if negb (PmaEntry.head e =? keyOfValue v) then AssertMsg false;; Ok None
    else
      r ← validElements e currentElement;
      Ok (r ← r; Some (PmaEntry.head e, r)).

(** The buffer blocks of one entry in [isValid]. *)
Definition validBuffer (s : Sds) (range : Interval) (st : Z * Z) : result (option (Z * Z)) :=
  for_range (Interval.left range) (Interval.right range)
    (λ bufferIndex acc,
       match acc with
       | None => Ok None
       | Some (currentHead, currentElement) =>
           e ← zget (bufferArray s) bufferIndex;
           if negb (PmaEntry.size e =? 0) then validEntry e currentHead currentElement
           else
             AssertMsg (PmaEntry.isEmpty e && (PmaEntry.size e =? 0));;
             if negb (PmaEntry.isEmpty e) || negb (PmaEntry.size e =? 0) then Ok None
             else Ok acc
       end) (Some st).

Definition isValid (s : Sds) : result bool :=
  r ← for_range 0 (capacity s)
    (λ i acc,
       match acc with
       | None => Ok None
       | Some (currentHead, currentElement) =>
           b ← empty s i;
           e ← zget (pma s) i;
           acc ← (if negb b then
                    AssertMsg (PmaEntry.size e <=? MaxSize);;
                    AssertMsg (MinSize <=? PmaEntry.size e);;
                    validEntry e currentHead currentElement
                  else
                    AssertMsg (PmaEntry.isEmpty e && (PmaEntry.size e =? 0));;
                    if negb (PmaEntry.isEmpty e) || negb (PmaEntry.size e =? 0) then Ok None
                    else Ok acc);
           match acc with
           | None => Ok None
           | Some st => x ← zget (bufferPointers s) i; validBuffer s x st
           end
       end) (Some (NULL_KEY, NULL_KEY));
  Ok (match r with Some _ => true | None => false end).

(** One entry in [validateSwapPma]. *)
Definition validSwapEntry (e : PmaEntry) (currentHead currentElement : Z)
    : result (option (Z * Z)) :=
  if PmaEntry.has_block e then
    if PmaEntry.head e <=? currentHead then AssertMsg false;; Ok None
    else
      v ← PmaEntry.get e 0;
      if negb (PmaEntry.head e =? keyOfValue v) then AssertMsg false;; Ok None
      else
        r ← validElements e currentElement;
        Ok (r ← r; Some (PmaEntry.head e, r))
  else
    AssertMsg (negb (PmaEntry.has_block e) && (PmaEntry.size e =? 0));;
    if PmaEntry.has_block e || negb (PmaEntry.size e =? 0) then Ok None
    else Ok (Some (currentHead, currentElement)).

Definition validateSwapPma (s : Sds) : result bool :=
  r ← for_range 0 (capacity s)
    (λ i acc,
       match acc with
       | None => Ok None
       | Some (currentHead, currentElement) =>
           e ← zget (swapPma s) i; validSwapEntry e currentHead currentElement
       end) (Some (NULL_KEY, NULL_KEY));
  Ok (match r with Some _ => true | None => false end).

Definition validateTaskDistribution (s : Sds) (batchSize : Z) (isInPlace : bool) : result unit :=
  t0 ← zget (tasks s) 0;
  AssertMsg (firstBatchElement t0 =? 0);;
  for_range 0 (numberOfThreads s + 1)
    (λ thread _,
       t ← zget (tasks s) thread;
       if negb isInPlace && is_type (type t) INVERSE_MERGE then
         AssertMsg (mergedTasks t <? numberOfThreads s);;
         AssertMsg (mergedTaskIndex t <? mergedTasks t)
       else Ok tt) tt;;
  t ← zget (tasks s) (numberOfThreads s);
  AssertMsg (firstBatchElement t =? batchSize);;
  AssertMsg (blockForBatchSplitter t =? size s).

(** [batchSorted]: [None] once an element is smaller than its predecessor. *)
Definition batchSorted (batch : list ValueType) (batchSize : Z) : result bool :=
  r ← for_range 0 batchSize
    (λ i acc,
       match acc with
       | None => Ok None
       | Some last =>
           v ← zget batch i;
           Ok (if comp (keyOfValue v) last then None else Some (keyOfValue v))
       end) (Some NULL_KEY);
  Ok (match r with Some _ => true | None => false end).

(** [std::unique] on the copied batch: of equal neighbours the first is kept. *)
Fixpoint unique (l : list ValueType) : list ValueType :=
  match l with
  | [] => []
  | v :: l' =>
      match unique l' with
      | w :: rest => if keyOfValue v =? keyOfValue w then v :: rest else v :: w :: rest
      | [] => [v]
      end
  end.

Definition deduplicate (batch : list ValueType) (batchSize : Z)
    : result (list ValueType * Z) :=
  newBatch ← copy_up batch 0 batchSize (replicate (Z.to_nat batchSize) indeterminate) 0;
  let newEnd := unique newBatch in
  Ok (newEnd, zlen newEnd).

End definitions.
End BatchedSparseArray.
