(* ===== verification/SdsInsert.v ===== *)
(** * The batched sparse array: inserting a range of a batch
    (dataStructures/batchedSparseArray.hpp, lines 575-827 and 902-922)

    The work of one insertion task: merging batch elements into blocks that have room,
    splitting full blocks into the buffer array, filling the first blocks of an empty
    array, and the inverse merge of one block with a range of the batch.  [batchIndex],
    a reference parameter of the code, is passed in and returned. *)

From S2P Require Export Sds.
Import BatchedSparseArray.

Module Insertion.
Section definitions.
Context `{T : SdsTypes} `{C : BlockConfig} `{R : RebalancingConfig} `{D : DensityManager}.
Context `{H : ConcurrentBucketMap.Hash} `{P : ThreadConfig}.
Implicit Types (s : Sds) (batch : list ValueType).

(** [KeyOf::keyOfValue(batch[i])]. *)
Definition batchKey batch (i : Z) : result Z := v ← zget batch i; Ok (keyOfValue v).

Definition findLastBatchElementForBlock s batch (batchIndex : Z) (batchRange : Interval)
    (nextBlockIndex : Z) (pmaRange : Interval) : result Z :=
  if nextBlockIndex =? Interval.right pmaRange then Ok (Interval.right batchRange) else
  while (S (Z.to_nat (Interval.right batchRange - batchIndex)))
    (λ lastBlockElement,
       if lastBlockElement <? Interval.right batchRange then
         k ← batchKey batch lastBlockElement; h ← head s nextBlockIndex; Ok (comp k h)
       else Ok false)
    (λ lastBlockElement, Ok (lastBlockElement + 1)) batchIndex.

Definition insertIntoBlockWithoutSplit s (blockIndex : Z) batch (batchIndex lastBlockElement : Z)
    : result (Sds * Z) :=
  let numberOfInsertions := u16 (lastBlockElement - batchIndex) in
  e ← zget (pma s) blockIndex;
  e ← PmaEntry.merge e batch batchIndex numberOfInsertions;
  s ← write_pma s blockIndex e;
  Ok (s, lastBlockElement).

(** The local variables of the loop of [insertIntoBlockWithSplit]. *)
Record SplitState := mkSplitState {
  split_insertionBlock : PmaEntry.PmaEntry;
  split_rightHalf : PmaEntry.PmaEntry;
  split_lastInsertionIndex : Z;
  split_batchIndex : Z;
  split_outputBlockNumber : Z;
}.

Definition splitLoopBody batch (bufferRange : Interval) (blockIndex : Z) (st : Sds * SplitState)
    : result (Sds * SplitState) :=
  let '(s, mkSplitState insertionBlock rightHalf lastInsertionIndex batchIndex out) := st in
  PmaEntry.assertHead insertionBlock;;
  e ← zget batch batchIndex;
  let toRight := negb (PmaEntry.isEmpty rightHalf) &&
    (comp (PmaEntry.head rightHalf) (keyOfValue e) || (keyOfValue e =? PmaEntry.head rightHalf)) in
  '(s, insertionBlock, rightHalf, lastInsertionIndex, out) ←
    (if toRight then
       s ← writeToBufferArray s insertionBlock bufferRange out blockIndex;
       Ok (s, rightHalf, PmaEntry.null_entry, 0, out + 1)
     else Ok (s, insertionBlock, rightHalf, lastInsertionIndex, out));
  '(s, st) ←
    (if PmaEntry.size insertionBlock <? MaxSize then
       '(insertionBlock, (_, lastInsertionIndex)) ←
          PmaEntry.insertWithIndex insertionBlock e lastInsertionIndex;
       PmaEntry.assertHead insertionBlock;;
       Ok (s, mkSplitState insertionBlock rightHalf lastInsertionIndex (batchIndex + 1) out)
     else
       '(insertionBlock, newBlock) ← PmaEntry.split insertionBlock;
       if negb (PmaEntry.isEmpty rightHalf) then
         s ← writeToBufferArray s insertionBlock bufferRange out blockIndex;
         Ok (s, mkSplitState newBlock rightHalf 0 batchIndex (out + 1))
       else Ok (s, mkSplitState insertionBlock newBlock lastInsertionIndex batchIndex out));
  here ← zget (pma s) blockIndex;
  PmaEntry.assertHead here;;
  PmaEntry.assertHead (split_insertionBlock st);;
  Ok (s, st).

Definition splitLoop batch (bufferRange : Interval) (blockIndex lastBlockElement : Z)
    (st : Sds * SplitState) : result (Sds * SplitState) :=
  while (S (Z.to_nat (2 * (lastBlockElement - split_batchIndex st.2))))
    (λ st, Ok (split_batchIndex st.2 <? lastBlockElement))
    (splitLoopBody batch bufferRange blockIndex) st.

(** Returns the state, [batchIndex] and the number of the next output block. *)
Definition insertIntoBlockWithSplit s (blockIndex : Z) batch (batchIndex lastBlockElement : Z)
    (bufferRange : Interval) (outputBlockNumber : Z) : result (Sds * Z * Z) :=
  e ← zget (pma s) blockIndex;
  s ← write_pma s blockIndex PmaEntry.null_entry;
  PmaEntry.assertHead e;;
  let start := getDenseWriteIndex (Interval.left bufferRange) outputBlockNumber in
  s ← write_bufferLeft s blockIndex start;
  s ← write_bufferRight s blockIndex start;
  '(s, st) ← splitLoop batch bufferRange blockIndex lastBlockElement
    (s, mkSplitState e PmaEntry.null_entry 0 batchIndex outputBlockNumber);
  let out := split_outputBlockNumber st in
  s ← writeToBufferArray s (split_insertionBlock st) bufferRange out blockIndex;
  let out := out + 1 in
  '(s, out) ←
    (if negb (PmaEntry.isEmpty (split_rightHalf st)) then
       s ← writeToBufferArray s (split_rightHalf st) bufferRange out blockIndex;
       Ok (s, out + 1)
     else Ok (s, out));
  s ← write_bufferRight s blockIndex (getDenseWriteIndex (Interval.left bufferRange) (out - 1) + 1);
  (if NDEBUG then Ok tt else
     x ← zget (bufferPointers s) blockIndex;
     AssertMsg ((0 <=? Interval.left x) && (Interval.left x <=? Interval.right x)));;
  Ok (s, split_batchIndex st, out).

Definition insertElementsIntoBlock s (blockIndex nextBlockIndex : Z)
    (pmaInputRange bufferRange : Interval) batch (batchIndex : Z) (batchRange : Interval)
    (outputBlockNumber : Z) : result (Sds * Z * Z) :=
  lastBlockElement ← findLastBatchElementForBlock s batch batchIndex batchRange nextBlockIndex
    pmaInputRange;
  let elementsInBlock := lastBlockElement - batchIndex in
  AssertMsg (0 <? elementsInBlock);;
  n ← blockSize s blockIndex;
  if n + elementsInBlock <=? MaxSize then
    '(s, batchIndex) ← insertIntoBlockWithoutSplit s blockIndex batch batchIndex lastBlockElement;
    Ok (s, batchIndex, outputBlockNumber)
  else
    insertIntoBlockWithSplit s blockIndex batch batchIndex lastBlockElement bufferRange
      outputBlockNumber.

(** A full insertion block of [insertIntoEmptyRange] or [inverseMerge] moves to the buffer
    array; the next one is its upper half when fewer than [MinBlockSize] elements are
    certain to follow.  Returns the state and the next insertion block. *)
Definition nextInsertionBlock s (insertionBlock : PmaEntry.PmaEntry) (remaining : Z)
    (bufferRange : Interval) (out originBlock : Z) : result (Sds * PmaEntry.PmaEntry) :=
  '(insertionBlock, newBlock) ←
    (if (0 <? remaining) && (remaining <? MinSize) then PmaEntry.split insertionBlock
     else
       newBlock ← PmaEntry.allocateBlock PmaEntry.null_entry;
       Ok (insertionBlock, newBlock));
  s ← writeToBufferArray s insertionBlock bufferRange out originBlock;
  Ok (s, newBlock).

(** The insertion block left at the end is written unless it is empty. *)
Definition lastInsertionBlock s (insertionBlock : PmaEntry.PmaEntry) (bufferRange : Interval)
    (out originBlock : Z) : result (Sds * Z) :=
  if 0 <? PmaEntry.size insertionBlock then
    s ← writeToBufferArray s insertionBlock bufferRange out originBlock;
    Ok (s, out + 1)
  else
    insertionBlock ← PmaEntry.deleteBlock insertionBlock;
    Ok (s, out).

(** The break of the loop is not reachable: its condition contradicts the loop condition. *)
Definition emptyRangeBody batch (batchRange bufferRange : Interval) (originBlock : Z)
    (st : Sds * PmaEntry.PmaEntry * Z * Z) : result (Sds * PmaEntry.PmaEntry * Z * Z) :=
  let '(s, insertionBlock, batchIndex, out) := st in
  '(s, insertionBlock, out) ←
    (if PmaEntry.size insertionBlock =? MaxSize then
       '(s, newBlock) ← nextInsertionBlock s insertionBlock (Interval.right batchRange - batchIndex)
          bufferRange out originBlock;
       Ok (s, newBlock, out + 1)
     else Ok (s, insertionBlock, out));
  let numberOfInsertions := Z.min MaxSize (Interval.right batchRange - batchIndex) in
  insertionBlock ← PmaEntry.merge insertionBlock batch batchIndex (u16 numberOfInsertions);
  Ok (s, insertionBlock, batchIndex + numberOfInsertions, out).

Definition insertIntoEmptyRange s batch (batchRange : Interval) (batchIndex : Z)
    (inputRange bufferRange : Interval) (outputBlockNumber : Z) : result (Sds * Z * Z) :=
  insertionBlock ← PmaEntry.allocateBlock PmaEntry.null_entry;
  '(s, insertionBlock, batchIndex, out) ←
    while (S (Z.to_nat (Interval.right batchRange - batchIndex)))
      (λ '(_, _, batchIndex, _), Ok (batchIndex <? Interval.right batchRange))
      (emptyRangeBody batch batchRange bufferRange (Interval.left inputRange))
      (s, insertionBlock, batchIndex, outputBlockNumber);
  '(s, out) ← lastInsertionBlock s insertionBlock bufferRange out (Interval.left inputRange);
  AssertMsg (batchIndex =? Interval.right batchRange);;
  s ← write_bufferLeft s (Interval.left inputRange)
        (getDenseWriteIndex (Interval.left bufferRange) 0);
  s ← write_bufferRight s (Interval.left inputRange)
        (getDenseWriteIndex (Interval.left bufferRange) (out - 1) + 1);
  Ok (s, batchIndex, out).

(** Returns the state and the number of blocks written to the buffer array. *)
Definition insertBatchRange s batch (batchRange pmaInputRange bufferRange : Interval)
    : result (Sds * Z) :=
  AssertM (if Interval.length pmaInputRange =? 0 then Ok true else
             b ← empty s (Interval.left pmaInputRange); Ok (negb b));;
  if Interval.length pmaInputRange =? 0 then
    '(s, _, out) ← insertIntoEmptyRange s batch batchRange (Interval.left batchRange)
       pmaInputRange bufferRange 0;
    Ok (s, out)
  else
    '(s, batchIndex, _, out) ←
      while (S (Z.to_nat (Interval.length batchRange)))
        (λ '(_, batchIndex, _, _), Ok (batchIndex <? Interval.right batchRange))
        (λ '(s, batchIndex, blockIndex, out),
           k ← batchKey batch batchIndex;
           blockIndex ← Search.exponentialSearch s k blockIndex (Interval.right pmaInputRange);
           nextBlockIndex ← Search.findNext s blockIndex (Interval.right pmaInputRange);
           AssertM (r ← Search.linearSearch s k blockIndex (Interval.right pmaInputRange);
                    Ok (blockIndex =? r));;
           '(s, batchIndex, out) ← insertElementsIntoBlock s blockIndex nextBlockIndex
              pmaInputRange bufferRange batch batchIndex batchRange out;
           Ok (s, batchIndex, blockIndex, out))
        (s, Interval.left batchRange, Interval.left pmaInputRange, 0);
    AssertMsg (batchIndex =? Interval.right batchRange);;
    Ok (s, out).

(** ** Inverse merge *)

(** [while (batchIndex < right && key(batch[batchIndex]) == lastWrittenKey) ++batchIndex]. *)
Definition skipWritten batch (right batchIndex lastWrittenKey : Z) : result Z :=
  while (S (Z.to_nat (right - batchIndex)))
    (λ batchIndex,
       if batchIndex <? right then k ← batchKey batch batchIndex; Ok (k =? lastWrittenKey)
       else Ok false)
    (λ batchIndex, Ok (batchIndex + 1)) batchIndex.

(** [insertionBlock.insertWithIndex(v, insertionBlock.size)]. *)
Definition append (insertionBlock : PmaEntry.PmaEntry) (v : ValueType)
    : result PmaEntry.PmaEntry :=
  '(insertionBlock, _) ← PmaEntry.insertWithIndex insertionBlock v (PmaEntry.size insertionBlock);
  Ok insertionBlock.

(** The local variables of the loop: the insertion block, [batchIndex], [readIndex] and
    [lastWrittenKey]. *)
Definition InverseState : Type := PmaEntry.PmaEntry * Z * Z * Z.

(** One element, the smaller of the next ones of the block and of the batch. *)
Definition inverseStep (cells : PmaEntry.PmaEntry) batch (batchRange : Interval)
    (st : InverseState) : result InverseState :=
  let '(insertionBlock, batchIndex, readIndex, lastWrittenKey) := st in
  v ← PmaEntry.get cells readIndex;
  e ← zget batch batchIndex;
  if comp (keyOfValue v) (keyOfValue e) then
    insertionBlock ← append insertionBlock v;
    batchIndex ← skipWritten batch (Interval.right batchRange) batchIndex (keyOfValue v);
    Ok (insertionBlock, batchIndex, u16 (readIndex + 1), keyOfValue v)
  else if keyOfValue v =? keyOfValue e then
    insertionBlock ← append insertionBlock v;
    batchIndex ← skipWritten batch (Interval.right batchRange) (batchIndex + 1) (keyOfValue v);
    Ok (insertionBlock, batchIndex, u16 (readIndex + 1), keyOfValue v)
  else if negb (keyOfValue e =? lastWrittenKey) then
    insertionBlock ← append insertionBlock e;
    Ok (insertionBlock, batchIndex + 1, readIndex, keyOfValue e)
  else Ok (insertionBlock, batchIndex + 1, readIndex, lastWrittenKey).

(** The insertions of one iteration. *)
Definition inverseInsert s batch (batchRange mergeRange : Interval) (mergeBlock : Z)
    (st : InverseState) : result InverseState :=
  let '(insertionBlock, batchIndex, readIndex, lastWrittenKey) := st in
  if (batchIndex <? Interval.right batchRange) && (readIndex <? Interval.right mergeRange) then
    cells ← zget (pma s) mergeBlock;
    inverseStep cells batch batchRange st
  else if (batchIndex <? Interval.right batchRange) && (Interval.right mergeRange <=? readIndex) then
    let numberOfInsertions :=
      Z.min (MaxSize - PmaEntry.size insertionBlock) (Interval.right batchRange - batchIndex) in
    insertionBlock ← PmaEntry.merge insertionBlock batch batchIndex (u16 numberOfInsertions);
    Ok (insertionBlock, batchIndex + numberOfInsertions, readIndex, lastWrittenKey)
  else if (Interval.right batchRange <=? batchIndex) && (readIndex <? Interval.right mergeRange) then
    let numberOfInsertions := Z.min (u16 (MaxSize - PmaEntry.size insertionBlock))
      (u16 (Interval.right mergeRange - readIndex)) in
    cells ← zget (pma s) mergeBlock;
    c ← PmaEntry.deref cells;
    insertionBlock ← PmaEntry.merge insertionBlock c readIndex numberOfInsertions;
    Ok (insertionBlock, batchIndex, u16 (readIndex + numberOfInsertions), lastWrittenKey)
  else
    AssertMsg false;;
    Ok st.

Definition inverseBody batch (batchRange mergeRange : Interval) (mergeBlock : Z)
    (bufferRange : Interval) (st : Sds * InverseState * Z) : result (Sds * InverseState * Z) :=
  let '(s, (insertionBlock, batchIndex, readIndex, lastWrittenKey), out) := st in
  '(s, insertionBlock, out) ←
    (if PmaEntry.size insertionBlock =? MaxSize then
       let minRemainingElements := Z.max (Interval.right batchRange - batchIndex)
         (Interval.right mergeRange - readIndex) in
       '(s, newBlock) ← nextInsertionBlock s insertionBlock minRemainingElements bufferRange out
          mergeBlock;
       Ok (s, newBlock, out + 1)
     else Ok (s, insertionBlock, out));
  '(insertionBlock, batchIndex, readIndex, lastWrittenKey) ←
    inverseInsert s batch batchRange mergeRange mergeBlock
      (insertionBlock, batchIndex, readIndex, lastWrittenKey);
  AssertMsg ((batchIndex <? Interval.right batchRange) || (readIndex <? Interval.right mergeRange)
    || (MinSize <=? PmaEntry.size insertionBlock) || (PmaEntry.size insertionBlock =? 0));;
  Ok (s, (insertionBlock, batchIndex, readIndex, lastWrittenKey), out).

Definition inverseMerge s batch (batchRange mergeRange pmaInputRange bufferRange : Interval)
    : result (Sds * Z) :=
  AssertMsg (MinSize <=? Z.max (Interval.length batchRange) (Interval.length mergeRange));;
  let mergeBlock := Interval.left pmaInputRange in
  insertionBlock ← PmaEntry.allocateBlock PmaEntry.null_entry;
  '(s, (insertionBlock, batchIndex, readIndex, _), out) ←
    while (S (Z.to_nat (Interval.length batchRange + Interval.length mergeRange)))
      (λ '(_, (_, batchIndex, readIndex, _), _),
         Ok ((batchIndex <? Interval.right batchRange) || (readIndex <? Interval.right mergeRange)))
      (inverseBody batch batchRange mergeRange mergeBlock bufferRange)
      (s, (insertionBlock, Interval.left batchRange, u16 (Interval.left mergeRange), NULL_KEY), 0);
  '(s, out) ← lastInsertionBlock s insertionBlock bufferRange out mergeBlock;
  AssertMsg (batchIndex =? Interval.right batchRange);;
  AssertMsg (readIndex =? Interval.right mergeRange);;
  Ok (s, out).

(** ** The start of a task's part of the batch *)

(** The exponential search of [findFirstBatchElement]. *)
Definition firstBatchElementStart batch (startIndex blockHead : Z) : result (Z * Z) :=
  while (S (Z.to_nat startIndex))
    (λ '(current, delta),
       if 0 <? current then
         k ← batchKey batch current; Ok (comp blockHead k || (blockHead =? k))
       else Ok false)
    (λ '(current, delta), Ok (current - delta * 2, delta * 2))
    (startIndex - 1, 1).

Definition findFirstBatchElement batch (startIndex blockHead : Z) : result Z :=
  '(current, delta) ← firstBatchElementStart batch startIndex blockHead;
  let current := if current <? 0 then 0 else current in
  lower_bound (λ i, k ← batchKey batch i; Ok (comp k blockHead)) current (current + delta + 1).

End definitions.
End Insertion.
