(* ===== verification/SdsDistribute.v ===== *)
(** * The batched sparse array: the insertion phase
    (dataStructures/batchedSparseArray.hpp, lines 156-274 and 995-1209)

    Distributing a batch to the threads, the tasks of the threads, and the clean-up after
    inverse merges.  The threads of a parallel region write disjoint parts of the state;
    they run one after the other here. *)

From S2P Require Export SdsInsert.
Import BatchedSparseArray Insertion.

Module Distribution.
Section definitions.
Context `{T : SdsTypes} `{C : BlockConfig} `{R : RebalancingConfig} `{D : DensityManager}.
Context `{H : ConcurrentBucketMap.Hash} `{P : ThreadConfig}.
Implicit Types (s : Sds) (batch : list ValueType).

Definition getRequiredWidth (numberOfNewElements : Z) : Z := 2 * numberOfNewElements.

(** The block of the splitter of a thread, and the first batch element of its task. *)
Definition splitterBlock s batch (splitterDistance thread : Z) : result Z :=
  k ← batchKey batch (thread * splitterDistance);
  Search.findBlockIndex s k.

Definition splitterElement s batch (splitterDistance thread block : Z) : result Z :=
  h ← head s block;
  findFirstBatchElement batch (thread * splitterDistance) h.

(** A-1 for one thread. *)
Definition findTask batch (batchSize splitterDistance : Z) (thread : Z) s : result Sds :=
  block ← splitterBlock s batch splitterDistance thread;
  s ← write_task s thread (λ t, set_blockForBatchSplitter t block);
  first ← (if 0 <? thread then splitterElement s batch splitterDistance thread block else Ok 0);
  s ← write_task s thread (λ t, set_firstBatchElement t first);
  nextFirst ← (if thread =? numberOfThreads s - 1 then Ok batchSize
               else
                 nextBlock ← splitterBlock s batch splitterDistance (thread + 1);
                 splitterElement s batch splitterDistance (thread + 1) nextBlock);
  write_task s thread (λ t, set_requiredWidth t (getRequiredWidth (nextFirst - first))).

Definition findTasks s batch (batchSize : Z) : result Sds :=
  let splitterDistance := batchSize ÷ numberOfThreads s in
  s ← write_task s (numberOfThreads s)
        (λ t, set_firstBatchElement (set_blockForBatchSplitter t (size s)) batchSize);
  for_range 0 (numberOfThreads s) (findTask batch batchSize splitterDistance) s.

(** A-2 for one thread; the state has [mergedTasks] and [hasMergedTask]. *)
Definition mergeTask (thread : Z) (st : Sds * Z * bool) : result (Sds * Z * bool) :=
  let '(s, merged, hasMergedTask) := st in
  t ← zget (tasks s) thread;
  previous ← zget (tasks s) (thread - 1);
  if blockForBatchSplitter t =? blockForBatchSplitter previous then
    s ← write_task s thread (λ t, set_type (set_firstBatchElement t (firstBatchElement previous)) INSERTION);
    s ← write_task s (thread - 1) (λ t, set_type t INVERSE_MERGE);
    let merged := merged + 1 in
    s ← write_task s thread (λ t, set_mergedTasks t merged);
    s ← write_task s (thread - 1) (λ t, set_requiredWidth t 0);
    Ok (s, merged, true)
  else
    s ← write_task s thread (λ t, set_mergedTasks (set_type t INSERTION) 0);
    Ok (s, 0, hasMergedTask).

Definition mergeTasks s : result (Sds * bool) :=
  s ← write_task s 0 (λ t, set_mergedTasks (set_type (set_firstBatchElement t 0) INSERTION) 0);
  '(s, _, hasMergedTask) ← for_range 1 (numberOfThreads s) mergeTask (s, 0, false);
  s ← write_task s (numberOfThreads s) (λ t, set_requiredWidth t 0);
  Ok (s, hasMergedTask).

(** The first batch element for the last task of a merge group. *)
Definition lastTaskBatchStart s batch (batchSize firstNormalBlock : Z) (totalBatchRange : Interval)
    : result Z :=
  b ← empty s firstNormalBlock;
  if b : bool then Ok (Interval.right totalBatchRange) else
  h ← head s firstNormalBlock;
  x ← lower_bound (λ i, k ← batchKey batch i; Ok (k <? h)) 0 batchSize;
  Ok (Z.min x (Interval.right totalBatchRange)).

(** Task [thread - mergeThread] does nothing. *)
Definition idleTask (thread mergeThread firstElement mergeBlock merged mergedIndex : Z) s : result Sds :=
  write_task s (thread - mergeThread)
    (λ t, set_requiredWidth (set_mergedTaskIndex (set_mergedTasks (set_blockForBatchSplitter
            (set_firstBatchElement (set_type t DO_NOTHING) firstElement) mergeBlock) merged)
            mergedIndex) 0).

(** Distributes [mergeBatchRange] to the tasks in front of [thread]. *)
Definition distributeMergeRange (thread mergeBlock merged : Z) (mergeBatchRange : Interval) s
    : result Sds :=
  let numberOfTasksWithWork := Z.min merged (Interval.length mergeBatchRange ÷ MinSize) in
  AssertMsg (1 <=? numberOfTasksWithWork);;
  let elementsPerThread := Interval.length mergeBatchRange ÷ numberOfTasksWithWork in
  s ← for_down merged numberOfTasksWithWork
    (λ mergeThread s,
       idleTask thread mergeThread (Interval.left mergeBatchRange) mergeBlock numberOfTasksWithWork
         (u64 (numberOfTasksWithWork - mergeThread)) s) s;
  s ← for_down numberOfTasksWithWork 0
    (λ mergeThread s,
       let mergeTaskBatchStart := Z.min (Interval.left mergeBatchRange +
         (numberOfTasksWithWork - mergeThread) * elementsPerThread) (Interval.right mergeBatchRange) in
       AssertMsg ((mergeTaskBatchStart =? 0) ||
         (MinSize <=? Interval.right mergeBatchRange - mergeTaskBatchStart));;
       write_task s (thread - mergeThread)
         (λ t, set_requiredWidth (set_mergedTaskIndex (set_mergedTasks (set_blockForBatchSplitter
                 (set_firstBatchElement t mergeTaskBatchStart) mergeBlock) numberOfTasksWithWork)
                 (numberOfTasksWithWork - mergeThread)) (getRequiredWidth elementsPerThread))) s;
  for_down numberOfTasksWithWork 0
    (λ mergeThread s,
       next ← zget (tasks s) (thread - mergeThread + 1);
       write_task s (thread - mergeThread)
         (λ t, set_requiredWidth t (getRequiredWidth (firstBatchElement next - firstBatchElement t)))) s.

Definition distributeMergeGroup batch (batchSize thread : Z) s : result Sds :=
  t ← zget (tasks s) thread;
  next ← zget (tasks s) (thread + 1);
  let mergeBlock := blockForBatchSplitter t in
  let totalBatchRange := mkInterval (firstBatchElement t) (firstBatchElement next) in
  firstNormalBlock ← Search.findNext s mergeBlock (blockForBatchSplitter next);
  batchStart ← lastTaskBatchStart s batch batchSize firstNormalBlock totalBatchRange;
  AssertMsg ((Interval.left totalBatchRange <=? batchStart) &&
    (batchStart <=? Interval.right totalBatchRange));;
  let mergeBatchRange := mkInterval (Interval.left totalBatchRange) batchStart in
  if MinSize <=? Interval.length mergeBatchRange then
    s ← write_task s thread
      (λ t, set_blockForBatchSplitter (set_firstBatchElement t batchStart) firstNormalBlock);
    distributeMergeRange thread mergeBlock (mergedTasks t) mergeBatchRange s
  else
    s ← for_down (mergedTasks t) 0
      (λ mergeThread s,
         idleTask thread mergeThread (Interval.left mergeBatchRange) mergeBlock 0 0 s) s;
    write_task s thread (λ t, set_mergedTasks t 0).

Definition distributeWorkInMergedTasks s batch (batchSize : Z) : result Sds :=
  s ← write_task s 0 (λ t, set_mergedTasks t 0);
  for_range 1 (numberOfThreads s)
    (λ thread s,
       t ← zget (tasks s) thread;
       if is_type (type t) INSERTION && (0 <? mergedTasks t)
       then distributeMergeGroup batch batchSize thread s
       else Ok s) s.

(** A-4: start indices in the buffer array, and the buffer ranges of the merge blocks.
    Returns the total width. *)
Definition computeStartIndices s : result (Sds * Z) :=
  t0 ← zget (tasks s) 0;
  for_range 0 (numberOfThreads s + 1)
    (λ thread '(s, prefixWidth),
       t ← zget (tasks s) thread;
       s ← write_task s thread (λ t, set_startIndex t prefixWidth);
       let next := prefixWidth + requiredWidth t in
       if (thread <? numberOfThreads s) && is_type (type t) INSERTION && (0 <? mergedTasks t) then
         AssertMsg (mergedTasks t <=? thread);;
         previous ← zget (tasks s) (thread - 1);
         first ← zget (tasks s) (thread - mergedTasks t);
         let mergeBlock := blockForBatchSplitter previous in
         s ← write_bufferLeft s mergeBlock (startIndex first);
         s ← write_bufferRight s mergeBlock prefixWidth;
         AssertMsg ((0 <=? startIndex first) && (startIndex first <=? prefixWidth));;
         Ok (s, next)
       else Ok (s, next))
    (s, blockForBatchSplitter t0).

(** The part of the merge block that an inverse merge task merges. *)
Definition inverseMergeRange (cells : PmaEntry.PmaEntry) batch (batchSize : Z)
    (t : TaskInfo) (batchRange : Interval) : result Interval :=
  let n := PmaEntry.size cells in
  lft ← (if negb (n =? 0) && negb (mergedTaskIndex t =? 0) then
           AssertMsg (negb (Interval.left batchRange =? batchSize));;
           k ← batchKey batch (Interval.left batchRange);
           PmaEntry.findIndex cells k
         else Ok 0);
  rgt ← (if negb (n =? 0) && negb (u64 (mergedTaskIndex t + 1) =? mergedTasks t) &&
             negb (Interval.right batchRange =? batchSize) then
           k ← batchKey batch (Interval.right batchRange);
           PmaEntry.findIndex cells k
         else Ok n);
  Ok (mkInterval lft rgt).

Definition startInsertionTask batch (batchSize taskIndex : Z) s : result Sds :=
  t ← zget (tasks s) taskIndex;
  next ← zget (tasks s) (taskIndex + 1);
  let batchRange := mkInterval (firstBatchElement t) (firstBatchElement next) in
  let pmaInputRange := mkInterval (blockForBatchSplitter t) (blockForBatchSplitter next) in
  let bufferRange := mkInterval (startIndex t) (startIndex next) in
  '(s, written) ←
    (match type t with
     | INSERTION =>
         if Interval.length batchRange =? 0 then Ok (s, 0)
         else insertBatchRange s batch batchRange pmaInputRange bufferRange
     | INVERSE_MERGE =>
         if Interval.length batchRange =? 0 then Ok (s, 0)
         else
           cells ← zget (pma s) (Interval.left pmaInputRange);
           mergeRange ← inverseMergeRange cells batch batchSize t batchRange;
           inverseMerge s batch batchRange mergeRange pmaInputRange bufferRange
     | DO_NOTHING => Ok (s, 0)
     | REBALANCE => Ok (s, numberOfBlocksWritten t)
     end);
  write_task s taskIndex (λ t, set_numberOfBlocksWritten t written).

Definition postprocessInverseMergeTasks s : result Sds :=
  for_range 0 (numberOfThreads s)
    (λ thread s,
       if 0 <? thread then
         t ← zget (tasks s) thread;
         previous ← zget (tasks s) (thread - 1);
         if is_type (type t) INSERTION && (0 <? mergedTasks t) && is_type (type previous) INVERSE_MERGE
         then
           let mergeBlock := blockForBatchSplitter previous in
           b ← empty s mergeBlock;
           if negb b then
             e ← zget (pma s) mergeBlock;
             e ← PmaEntry.deleteBlock e;
             write_pma s mergeBlock PmaEntry.null_entry
           else Ok s
         else Ok s
       else Ok s) s.

(** ** Compacting the buffer blocks of a merge group *)

(** One block moves to the end of the blocks that are already compacted. *)
Definition moveBufferBlock s (from target : Z) : result Sds :=
  e ← zget (bufferArray s) from;
  old ← zget (bufferArray s) target;
  AssertMsg (0 <? PmaEntry.size e);;
  AssertMsg (PmaEntry.size old =? 0);;
  s ← write_bufferArray s target e;
  write_bufferArray s from PmaEntry.null_entry.

(** The local variables [bufferTargetIndex], [mergeBlock] and [bufferPointerStart]. *)
Record CompactState := mkCompactState {
  bufferTargetIndex : Z;
  compactMergeBlock : Z;
  bufferPointerStart : Z;
}.
Definition noGroup : CompactState := mkCompactState (-1) (-1) (-1).

(** The blocks of an inverse merge task. *)
Definition compactTask s (t : TaskInfo) (st : CompactState) : result (Sds * CompactState) :=
  let left := startIndex t in
  if bufferTargetIndex st =? -1 then
    Ok (s, mkCompactState (left + numberOfBlocksWritten t) (blockForBatchSplitter t) left)
  else
    '(s, target) ← for_range 0 (numberOfBlocksWritten t)
      (λ i '(s, target), s ← moveBufferBlock s (left + i) target; Ok (s, target + 1))
      (s, bufferTargetIndex st);
    Ok (s, mkCompactState target (compactMergeBlock st) (bufferPointerStart st)).

(** The blocks of the last task of a group; the loop ends when they are in place. *)
Definition compactLastTask s (t : TaskInfo) (target : Z) : result (Sds * Z) :=
  '(s, target, _) ← for_range 0 (numberOfBlocksWritten t)
    (λ i '(s, target, stopped),
       if stopped : bool then Ok (s, target, true)
       else if startIndex t + i =? target then
         Ok (s, target + numberOfBlocksWritten t, true)
       else
         s ← moveBufferBlock s (startIndex t + i) target;
         Ok (s, target + 1, false))
    (s, target, false);
  Ok (s, target).

Definition closeGroup s (t : TaskInfo) (st : CompactState) : result Sds :=
  let mergeBlock := compactMergeBlock st in
  if negb (mergeBlock =? -1) then
    '(s, target) ← (if blockForBatchSplitter t =? mergeBlock
                    then compactLastTask s t (bufferTargetIndex st)
                    else Ok (s, bufferTargetIndex st));
    let newBufferPointers := mkInterval (bufferPointerStart st) target in
    (if NDEBUG then Ok tt else
       old ← zget (bufferPointers s) mergeBlock;
       AssertMsg (Interval.length newBufferPointers <=? Interval.length old));;
    write_bufferPointers s mergeBlock
      (if Interval.length newBufferPointers =? 0 then mkInterval 0 0 else newBufferPointers)
  else Ok s.

Definition compactifyBufferBlocks s : result Sds :=
  '(s, _) ← for_range 0 (numberOfThreads s)
    (λ thread '(s, st),
       t ← zget (tasks s) thread;
       if is_type (type t) INVERSE_MERGE && (0 <? mergedTasks t) then compactTask s t st
       else s ← closeGroup s t st; Ok (s, noGroup))
    (s, noGroup);
  Ok s.

(** ** The insertion phase of [insertBatch] *)

Definition insertionPhase s batch (batchSize : Z) : result Sds :=
  s ← findTasks s batch batchSize;
  '(s, hasMergedTask) ← mergeTasks s;
  s ← distributeWorkInMergedTasks s batch batchSize;
  '(s, prefixWidth) ← computeStartIndices s;
  s ← increaseBufferArraySize s prefixWidth;
  s ← for_range 0 (numberOfThreads s) (startInsertionTask batch batchSize) s;
  if hasMergedTask : bool then
    s ← postprocessInverseMergeTasks s;
    compactifyBufferBlocks s
  else Ok s.

End definitions.
End Distribution.
