(* ===== verification/SdsRebalance.v ===== *)
(** * The batched sparse array: the rebalancing phase and [insertBatch]
    (dataStructures/batchedSparseArray.hpp, lines 280-510 and 1211-1495)

    The rebalancing tasks move their blocks, densely, to the swap array and from there,
    evenly spread, back to the pma.  Each thread moves an equal share of the blocks, which
    may begin and end inside a task. *)

From S2P Require Export SdsDistribute.
Import BatchedSparseArray.

Module RebalancingPhase.
Section definitions.
Context `{T : SdsTypes} `{C : BlockConfig} `{R : RebalancingConfig} `{D : DensityManager}.
Context `{H : ConcurrentBucketMap.Hash} `{P : ThreadConfig}.
Implicit Types (s : Sds).

(** B-3 for one node of the update; the state has the tasks created so far. *)
Definition createTask (node : RebalancingNode) s (created : list RebalancingTask)
    : result (Sds * list RebalancingTask) :=
  '(m, dominated) ← BinaryRebalancingManager.rebalancingNodeDominated (rebalancingManager s) node;
  let s := set_rebalancingManager s m in
  if dominated : bool then
    m ← BinaryRebalancingManager.clearRebalancedFlag (rebalancingManager s) node;
    Ok (set_rebalancingManager s m, created)
  else
    task ← BinaryRebalancingManager.getRebalancingTask (rebalancingManager s) node;
    Ok (s, created ++ [task]).

Definition createTasks s : result Sds :=
  '(s, created) ← for_range 0 (zlen (rebalancingNodes s))
    (λ i '(s, created),
       node ← zget (rebalancingNodes s) i;
       createTask node s created) (s, []);
  Ok (set_rebalancingTasks (set_rebalancingNodes s []) created).

(** [std::inclusive_scan] over the numbers of blocks, and the sentinel. *)
Fixpoint inclusive_scan (sum : Z) (l : list RebalancingTask) : list Z :=
  match l with
  | [] => []
  | t :: l' => (sum + rt_numberOfBlocks t) :: inclusive_scan (sum + rt_numberOfBlocks t) l'
  end.

Definition sumTasks s : result (Sds * Z) :=
  let prefix := inclusive_scan 0 (rebalancingTasks s) in
  numberOfBlocksToRebalance ← zget prefix (zlen (rebalancingTasks s) - 1);
  Ok (set_prefixNumberOfRebalancingBlocks s (prefix ++ [numberOfBlocksToRebalance]),
      numberOfBlocksToRebalance).

(** [std::lower_bound] on the prefix sums. *)
Definition findRebalancingTask s (blockNumber : Z) : result Z :=
  lower_bound (λ i, x ← zget (prefixNumberOfRebalancingBlocks s) i; Ok (x <? blockNumber))
    0 (zlen (prefixNumberOfRebalancingBlocks s)).

(** The blocks of task [taskIndex], counted over all tasks. *)
Definition taskBlockRange s (taskIndex : Z) : result Interval :=
  l ← (if 0 <? taskIndex then zget (prefixNumberOfRebalancingBlocks s) (taskIndex - 1) else Ok 0);
  r ← zget (prefixNumberOfRebalancingBlocks s) taskIndex;
  Ok (mkInterval l r).

Definition getPartialRebalancingRange s (taskIndex : Z) (globalBlockRange : Interval)
    : result PartialRebalancingTask :=
  range ← taskBlockRange s taskIndex;
  let part := Interval.cut range globalBlockRange in
  if Interval.length part =? 0 then Ok defaultPartialRebalancingTask else
  let local := mkInterval (Interval.left part - Interval.left range)
                          (Interval.right part - Interval.left range) in
  task ← zget (rebalancingTasks s) taskIndex;
  blockStart ← BinaryRebalancingManager.findBlockInRebalancingTask (rebalancingManager s) (view s)
    (rootNode task) (Interval.left local);
  blockEnd ← BinaryRebalancingManager.findBlockInRebalancingTask (rebalancingManager s) (view s)
    (rootNode task) (Interval.right local);
  AssertMsg ((0 <=? Interval.left local) && (Interval.left local <? rt_numberOfBlocks task));;
  Ok (mkPartialRebalancingTask blockStart blockEnd (Interval.left local)).

(** ** Moving blocks to the swap array *)

(** The state of [rebalanceBlocks]: [blockIndex] and [swapPmaOutputNumber]. *)
Definition moveToSwap s (task : RebalancingTask) (outputStart outputNumber : Z)
    (e : PmaEntry.PmaEntry) : result Sds :=
  let writeIndex := getDenseWriteIndex outputStart outputNumber in
  AssertMsg (Interval.contains (pmaRange task) writeIndex);;
  write_swapPma s writeIndex e.

Definition moveBufferBlock (task : RebalancingTask) (outputStart : Z) (bufferBlockIndex : Z)
    (st : Sds * Z) : result (Sds * Z) :=
  let '(s, out) := st in
  e ← zget (bufferArray s) bufferBlockIndex;
  AssertMsg (Bool.eqb (PmaEntry.size e =? 0) (PmaEntry.head e =? NULL_KEY));;
  AssertMsg (Bool.eqb (PmaEntry.size e =? 0) (PmaEntry.isEmpty e));;
  if 0 <? PmaEntry.size e then
    s ← moveToSwap s task outputStart out e;
    s ← write_bufferArray s bufferBlockIndex PmaEntry.null_entry;
    Ok (countRead s, out + 1)
  else Ok (s, out).

Definition rebalanceEntry (task : RebalancingTask) (outputStart : Z) (blockEnd : ExtendedPmaIndex)
    (st : Sds * ExtendedPmaIndex * Z) : result (Sds * ExtendedPmaIndex * Z) :=
  let '(s, blockIndex, out) := st in
  '(s, first, out) ←
    (if bufferIndex blockIndex =? -1 then
       b ← empty s (pmaIndex blockIndex);
       '(s, out) ← (if b : bool then Ok (s, out) else
                      e ← zget (pma s) (pmaIndex blockIndex);
                      s ← moveToSwap s task outputStart out e;
                      s ← write_pma s (pmaIndex blockIndex) PmaEntry.null_entry;
                      Ok (s, out + 1));
       Ok (s, 0, out)
     else Ok (s, bufferIndex blockIndex, out));
  x ← zget (bufferPointers s) (pmaIndex blockIndex);
  let bufferBlockStart := Interval.left x + first in
  let bufferBlockEnd := if pmaIndex blockIndex =? pmaIndex blockEnd
                        then Interval.left x + bufferIndex blockEnd else Interval.right x in
  '(s, out) ← for_range bufferBlockStart bufferBlockEnd (moveBufferBlock task outputStart) (s, out);
  Ok (s, mkExtendedPmaIndex (pmaIndex blockIndex + 1) (-1), out).

Definition rebalanceBlocks (taskIndex : Z) (blockStart blockEnd : ExtendedPmaIndex)
    (outputOffset : Z) s : result (Sds * Z) :=
  task ← zget (rebalancingTasks s) taskIndex;
  m ← BinaryRebalancingManager.clearRebalancedFlag (rebalancingManager s) (rootNode task);
  let s := set_rebalancingManager s m in
  let swapPmaOutputStart := Interval.left (pmaRange task) + outputOffset in
  '(s, _, out) ←
    while (S (Z.to_nat (pmaIndex blockEnd + 1 - pmaIndex blockStart)))
      (λ '(_, blockIndex, _), Ok (ExtendedPmaIndex_ltb blockIndex blockEnd))
      (rebalanceEntry task swapPmaOutputStart blockEnd) (s, blockStart, 0);
  Ok (s, out).

Definition startPartialRebalancingTask (taskIndex : Z) (part : PartialRebalancingTask) s
    : result (Sds * Z) :=
  rebalanceBlocks taskIndex (blockStart part) (blockEnd part) (outputOffset part) s.

(** The part of a task's range in the used region; [None] when there is none. *)
Definition effectiveRange s (task : RebalancingTask) : result (option Interval) :=
  let effectivePmaSize := Z.max 1 (size s) in
  let range := pmaRange task in
  if effectivePmaSize <=? Interval.left range then
    AssertMsg (rt_numberOfBlocks task =? 0);; Ok None
  else
    let range := mkInterval (Interval.left range) (Z.min (Interval.right range) effectivePmaSize) in
    if Interval.length range =? 0 then AssertMsg (rt_numberOfBlocks task =? 0);; Ok None
    else Ok (Some range).

Definition startFullRebalancingTask (taskIndex : Z) s : result (Sds * Z) :=
  task ← zget (rebalancingTasks s) taskIndex;
  range ← effectiveRange s task;
  match range with
  | None => Ok (s, 0)
  | Some range =>
      rebalanceBlocks taskIndex (mkExtendedPmaIndex (Interval.left range) (-1))
        (mkExtendedPmaIndex (Interval.right range) (-1)) 0 s
  end.

(** A whole task by one thread, the variant without split tasks. *)
Definition startRebalancingTask (task : RebalancingTask) s : result Sds :=
  range ← effectiveRange s task;
  match range with
  | None => Ok s
  | Some range =>
      '(s, _) ← for_range (Interval.left range) (Interval.right range)
        (λ blockIndex '(s, out),
           b ← empty s blockIndex;
           '(s, out) ←
             (if b : bool then Ok (s, out) else
                e ← zget (pma s) blockIndex;
                s ← write_swapPma s (getDenseWriteIndex (Interval.left range) out) e;
                s ← write_pma s blockIndex PmaEntry.null_entry;
                AssertMsg (out + 1 <=? rt_numberOfBlocks task);;
                Ok (s, out + 1));
           x ← zget (bufferPointers s) blockIndex;
           '(s, out) ← for_range (Interval.left x) (Interval.right x)
             (λ bufferBlockIndex '(s, out),
                e ← zget (bufferArray s) bufferBlockIndex;
                AssertMsg (Bool.eqb (PmaEntry.size e =? 0) (PmaEntry.head e =? NULL_KEY));;
                AssertMsg (Bool.eqb (PmaEntry.size e =? 0) (PmaEntry.isEmpty e));;
                if 0 <? PmaEntry.size e then
                  s ← write_swapPma s (getDenseWriteIndex (Interval.left range) out) e;
                  s ← write_bufferArray s bufferBlockIndex PmaEntry.null_entry;
                  AssertMsg (out + 1 <=? rt_numberOfBlocks task);;
                  Ok (countRead s, out + 1)
                else Ok (s, out)) (s, out);
           s ← write_bufferPointers s blockIndex (mkInterval 0 0);
           Ok (s, out)) (s, 0);
      Ok s
  end.

(** ** Clearing buffer pointers *)

Definition clearBufferBlockPointers (blockStart blockEnd : ExtendedPmaIndex) s : result Sds :=
  '(s, _) ←
    while (S (Z.to_nat (pmaIndex blockEnd + 1 - pmaIndex blockStart)))
      (λ '(_, blockIndex), Ok (ExtendedPmaIndex_ltb blockIndex blockEnd))
      (λ '(s, blockIndex),
         s ← write_bufferPointers s (pmaIndex blockIndex) Interval.empty;
         Ok (s, mkExtendedPmaIndex (pmaIndex blockIndex + 1) (bufferIndex blockIndex)))
      (s, blockStart);
  Ok s.

Definition startPartialClearTask (part : PartialRebalancingTask) s : result Sds :=
  clearBufferBlockPointers (blockStart part) (blockEnd part) s.

Definition startFullClearTask (taskIndex : Z) s : result Sds :=
  task ← zget (rebalancingTasks s) taskIndex;
  range ← effectiveRange s task;
  match range with
  | None => Ok s
  | Some range =>
      clearBufferBlockPointers (mkExtendedPmaIndex (Interval.left range) (-1))
        (mkExtendedPmaIndex (Interval.right range) (-1)) s
  end.

(** ** Moving blocks back to the pma *)

(** [getUniformWriteIndex] divides by the number of blocks. *)
Definition uniformWriteIndex (outputStart blockNumber outputLength numberOfBlocks : Z) : result Z :=
  if numberOfBlocks =? 0 then Err BadAccess
  else Ok (getUniformWriteIndex outputStart blockNumber outputLength numberOfBlocks).

Definition rewriteBlocks (swapPmaRange pmaRange : Interval) (numberOfBlocks : Z) s : result Sds :=
  AssertMsg (numberOfBlocks <=? Interval.length swapPmaRange);;
  '(s, _) ← for_range (Interval.left swapPmaRange) (Interval.left swapPmaRange + numberOfBlocks)
    (λ blockIndex '(s, pmaOutputNumber),
       e ← zget (swapPma s) blockIndex;
       AssertMsg (0 <? PmaEntry.size e);;
       writeIndex ← uniformWriteIndex (Interval.left pmaRange) pmaOutputNumber
         (Interval.length pmaRange) numberOfBlocks;
       s ← addRecountingNode s writeIndex false;
       s ← write_pma s writeIndex e;
       s ← write_swapPma s blockIndex PmaEntry.null_entry;
       Ok (s, pmaOutputNumber + 1)) (s, 0);
  Ok s.

Definition startPartialRewritingTask (taskIndex : Z) (globalBlockRange : Interval) s : result Sds :=
  let n := zlen (prefixNumberOfRebalancingBlocks s) in
  AssertMsg ((if 0 <? taskIndex then taskIndex - 1 else 0) <? n);;
  AssertMsg (taskIndex <? n);;
  range ← taskBlockRange s taskIndex;
  let part := Interval.cut range globalBlockRange in
  if Interval.length part =? 0 then Ok s else
  task ← zget (rebalancingTasks s) taskIndex;
  let swapPmaOffset := Interval.left part - Interval.left range in
  let numberOfBlocks := Interval.length part in
  let l := Interval.left (pmaRange task) in
  let swapPmaRange := mkInterval (l + swapPmaOffset) (l + swapPmaOffset + numberOfBlocks) in
  let len := Interval.length (pmaRange task) in
  pmaStart ← uniformWriteIndex l swapPmaOffset len (rt_numberOfBlocks task);
  pmaEnd ← uniformWriteIndex l (swapPmaOffset + numberOfBlocks) len (rt_numberOfBlocks task);
  rewriteBlocks swapPmaRange (mkInterval pmaStart pmaEnd) numberOfBlocks s.

Definition startFullRewritingTask (taskIndex : Z) s : result Sds :=
  task ← zget (rebalancingTasks s) taskIndex;
  rewriteBlocks (pmaRange task) (pmaRange task) (rt_numberOfBlocks task) s.

(** The variant without split tasks. *)
Definition startRewritingTask (task : RebalancingTask) (pmaSize : Z) s : result Sds :=
  let range := pmaRange task in
  if pmaSize <=? Interval.left range then Ok s else
  let range := mkInterval (Interval.left range) (Z.min (Interval.right range) pmaSize) in
  if Interval.length range =? 0 then Ok s else
  '(s, _) ← for_range (Interval.left range) (Interval.right range)
    (λ blockIndex '(s, pmaOutputNumber),
       e ← zget (swapPma s) blockIndex;
       if 0 <? PmaEntry.size e then
         writeIndex ← uniformWriteIndex (Interval.left range) pmaOutputNumber
           (Interval.length range) (rt_numberOfBlocks task);
         s ← addRecountingNode s writeIndex false;
         s ← write_pma s writeIndex e;
         s ← write_swapPma s blockIndex PmaEntry.null_entry;
         Ok (s, pmaOutputNumber + 1)
       else Ok (s, pmaOutputNumber)) (s, 0);
  Ok s.

(** ** The threads of the rebalancing phase *)

(** The blocks of one thread. *)
Definition threadBlocks s (numberOfBlocksToRebalance thread : Z) : Interval :=
  let perThread := numberOfBlocksToRebalance ÷ numberOfThreads s + 1 in
  mkInterval (thread * perThread) (Z.min numberOfBlocksToRebalance ((thread + 1) * perThread)).

Definition distributeRebalancing (numberOfBlocksToRebalance thread : Z) s : result Sds :=
  let range := threadBlocks s numberOfBlocksToRebalance thread in
  s ← write_task s thread (λ t, set_rebalancingBlockRange t range);
  if 0 <? Interval.length range then
    taskStart ← findRebalancingTask s (Interval.left range);
    taskLast ← findRebalancingTask s (Interval.right range);
    let taskEnd := taskLast + 1 in
    s ← write_task s thread (λ t, set_rebalancingTaskRange t (mkInterval taskStart taskEnd));
    first ← getPartialRebalancingRange s taskStart range;
    s ← write_task s thread (λ t, set_firstRebalancingTask t first);
    if 1 <? taskEnd - taskStart then
      last ← getPartialRebalancingRange s (taskEnd - 1) range;
      write_task s thread (λ t, set_lastRebalancingTask t last)
    else Ok s
  else Ok s.

Definition executeRebalancing (thread : Z) s : result Sds :=
  t ← zget (tasks s) thread;
  let range := rebalancingTaskRange t in
  if 0 <? Interval.length (rebalancingBlockRange t) then
    '(s, _) ← startPartialRebalancingTask (Interval.left range) (firstRebalancingTask t) s;
    s ← for_range (Interval.left range + 1) (Interval.right range - 1)
      (λ task s, '(s, _) ← startFullRebalancingTask task s; Ok s) s;
    if 1 <? Interval.length range then
      '(s, _) ← startPartialRebalancingTask (Interval.right range - 1) (lastRebalancingTask t) s;
      Ok s
    else Ok s
  else Ok s.

Definition clearPointers (thread : Z) s : result Sds :=
  t ← zget (tasks s) thread;
  let range := rebalancingTaskRange t in
  if 0 <? Interval.length (rebalancingBlockRange t) then
    s ← startPartialClearTask (firstRebalancingTask t) s;
    s ← for_range (Interval.left range + 1) (Interval.right range - 1) startFullClearTask s;
    if 1 <? Interval.length range then startPartialClearTask (lastRebalancingTask t) s
    else Ok s
  else Ok s.

Definition executeRewriting (numberOfBlocksToRebalance thread : Z) s : result Sds :=
  let range := threadBlocks s numberOfBlocksToRebalance thread in
  if Interval.left range <? Interval.right range then
    taskStart ← findRebalancingTask s (Interval.left range);
    taskLast ← findRebalancingTask s (Interval.right range);
    let taskEnd := taskLast + 1 in
    s ← startPartialRewritingTask taskStart range s;
    s ← for_range (taskStart + 1) (taskEnd - 1) startFullRewritingTask s;
    if 1 <? taskEnd - taskStart then startPartialRewritingTask (taskEnd - 1) range s
    else Ok s
  else Ok s.

(** ** The rebalancing phase of [insertBatch] *)

Definition updateHierarchy s : result Sds :=
  '(m, map, nodes) ← BinaryRebalancingManager.update (rebalancingManager s) (view s)
    (recountingNodesMap s) (rebalancingNodes s);
  Ok (set_rebalancingNodes (set_recountingNodesMap (set_rebalancingManager s m) map) nodes).

Definition clearTasks s : Sds :=
  set_prefixNumberOfRebalancingBlocks (set_rebalancingTasks s []) [].

(** B-4: the new size of the pma. *)
Definition growSwap s : result (Sds * Z) :=
  match list.last (rebalancingTasks s) with
  | None => Ok (s, size s)
  | Some task =>
      let newPmaSize := Z.max (size s) (Interval.right (pmaRange task)) in
      s ← increaseSwapPmaSize s newPmaSize;
      Ok (s, newPmaSize)
  end.

Definition executeTasks s : result Sds :=
  '(s, n) ← sumTasks s;
  '(s, newPmaSize) ← growSwap s;
  s ← for_range 0 (numberOfThreads s) (distributeRebalancing n) s;
  s ← for_range 0 (numberOfThreads s) executeRebalancing s;
  AssertMsg (bufferReads s =? bufferWrites s);;
  m ← BinaryRebalancingManager.resize (rebalancingManager s) newPmaSize;
  let s := set_rebalancingManager s m in
  s ← for_range 0 (numberOfThreads s) clearPointers s;
  let s := resizeMainPma s newPmaSize in
  AssertMsg (size s =? newPmaSize);;
  s ← for_range 0 (numberOfThreads s) (executeRewriting n) s;
  Ok (clearTasks s).

Definition rebalancingPhase s : result Sds :=
  s ← updateHierarchy s;
  s ← createTasks s;
  if zlen (rebalancingTasks s) =? 0 then Ok (clearTasks s) else executeTasks s.

(** ** [insertBatch] *)

Definition insertBatch s (batch : list ValueType) (batchSize numThreads : Z) : result Sds :=
  AssertMsg (numThreads =? numberOfThreads s);;
  let s := if NDEBUG then s else set_bufferReads (set_bufferWrites s 0) 0 in
  AssertM (batchSorted batch batchSize);;
  AssertMsg (numberOfThreads s <=? MaxNumberOfThreads);;
  AssertMsg (numberOfThreads s <=? batchSize);;
  s ← Distribution.insertionPhase s batch batchSize;
  rebalancingPhase s.

End definitions.
End RebalancingPhase.
