(* ===== verification/BlockSeq.v ===== *)
(** * Sequences of blocks

    What both arrays do with blocks, apart from where they keep them: a block by its
    elements and its stale cells, the elements of a sequence of blocks, and insertions
    into a block at a search hint.  Stale cells only carry keys of the block itself and of
    later elements, so that the comparison of [insertWithIndex] with the cell behind the
    last element never mistakes a new key for a duplicate. *)

From S2P Require Export ArrayContents.

Section sequences.
Context `{T : SdsTypes} `{C : BlockConfig}.
Context `{BC : !BlockConfigOk} `{HB : !HalfBlocks}.
Implicit Types (l rest batch : list ValueType) (bs : list (list ValueType * list ValueType)).
Implicit Types (v w : ValueType) (b : PmaEntry.PmaEntry) (ks : list Z).

(** A block, by its elements and its stale cells. *)
Definition entry_is e (x : list ValueType * list ValueType) : Prop := represents e x.1 x.2.

Definition good_size l : Prop := MinSize ≤ zlen l ≤ MaxSize.

(** The elements of a sequence of blocks. *)
Definition elements bs : list ValueType := concat bs.*1.

Lemma elements_app bs bs' : elements (bs ++ bs') = elements bs ++ elements bs'.
Proof. unfold elements. by rewrite fmap_app, concat_app. Qed.

Lemma elements_cons x bs : elements (x :: bs) = x.1 ++ elements bs.
Proof. done. Qed.

Lemma elements_single l rest : elements [(l, rest)] = l.
Proof. unfold elements. simpl. by rewrite app_nil_r. Qed.

(** Blocks that are at least half full are not many. *)
Lemma blocks_bound ws : Forall (λ x, good_size x.1) ws → MinSize * zlen ws ≤ zlen (elements ws).
Proof.
  induction 1 as [|x ws [? _] _ IH]; [unfold zlen; simpl; lia|].
  rewrite elements_cons, zlen_app, zlen_cons. lia.
Qed.

Lemma block_size b li ri : represents b li ri → PmaEntry.size b = zlen li.
Proof. by intros [(_&_&?) _]. Qed.

Lemma null_assertHead : PmaEntry.assertHead PmaEntry.null_entry = Ok tt.
Proof. unfold PmaEntry.assertHead, PmaEntry.headValid. destruct NDEBUG eqn:?; [done|]. simpl. by apply assert_ok. Qed.

(** ** Stale cells *)

(** The stale cells only carry keys of [ks]. *)
Definition stale ks rest : Prop := ∀ v, v ∈ rest → keyOfValue v ∈ ks.

(** In a sequence of blocks the stale cells carry keys of the same block, of later elements
    or of [ks]. *)
Fixpoint stales ks bs : Prop :=
  match bs with
  | [] => True
  | x :: bs' => stale (keys x.1 ++ keys (elements bs') ++ ks) x.2 ∧ stales ks bs'
  end.

Lemma stale_mono ks ks' rest : stale ks rest → (∀ k, k ∈ ks → k ∈ ks') → stale ks' rest.
Proof. intros Hs Hk v Hv. auto. Qed.

Lemma stale_sub ks rest rest' : stale ks rest → (∀ v, v ∈ rest' → v ∈ rest) → stale ks rest'.
Proof. intros Hs Hr v Hv. auto. Qed.

Lemma stale_fresh l ks rest ks' :
  stale (keys l ++ ks) rest → (∀ k, k ∈ ks' → k ∉ ks) → BlockFacts.fresh l rest ks'.
Proof. intros Hs Hk v Hv Hin. apply Hs, elem_of_app in Hv as [?|?]; [done|]. by apply Hk in Hin. Qed.

Lemma stale_smerge l es ks rest :
  stale (keys l ++ ks) rest → stale (keys (smerge l es) ++ ks) rest.
Proof. intros Hs. eapply stale_mono; [exact Hs|]. intros k. rewrite !elem_of_app, keys_smerge. tauto. Qed.

Lemma stales_mono ks ks' bs : stales ks bs → (∀ k, k ∈ ks → k ∈ ks') → stales ks' bs.
Proof.
  intros Hs Hk. induction bs as [|x bs IH]; [done|]. destruct Hs as [Hx Hs]. split; [|auto].
  eapply stale_mono; [exact Hx|]. intros k. rewrite !elem_of_app. naive_solver.
Qed.

Lemma stales_app ks bs1 bs2 :
  stales ks (bs1 ++ bs2) ↔ stales (keys (elements bs2) ++ ks) bs1 ∧ stales ks bs2.
Proof.
  induction bs1 as [|x bs1 IH]; simpl; [tauto|]. rewrite IH, elements_app, keys_app, <-app_assoc. tauto.
Qed.

Lemma stale_zeros ks (n : nat) : keyOfValue zeroValue ∈ ks → stale ks (replicate n zeroValue).
Proof. intros Hz v Hv. by apply elem_of_replicate in Hv as [-> _]. Qed.

(** ** Insertion with a search hint *)

Lemma insert_hint b l rest a c ks v (idx : Z) :
  represents b l rest → sorted l → l = a ++ c → 0 ≤ idx ≤ zlen a → below a (keyOfValue v) →
  zlen l < MaxSize → stale (keys l ++ ks) rest → (keyOfValue v ∉ ks) →
  ∃ b' ins idx' rest' a' c', PmaEntry.insertWithIndex b v idx = Ok (b', (ins, idx')) ∧
    represents b' (sinsert v l) rest' ∧ (∀ w, w ∈ rest' → w ∈ rest) ∧
    sinsert v l = a' ++ c' ∧ 0 ≤ idx' ≤ zlen a' ∧ below a' (keyOfValue v + 1) ∧
    zlen (sinsert v l) - zlen a' ≤ zlen l - zlen a.
Proof.
  intros Hb Hs Hl Hidx Ha Hsize Hstale Hv.
  destruct (split_at l idx) as (p&q&Hpq&Hp); [rewrite Hl; zlen|].
  assert (below p (keyOfValue v)) as Hbp.
  { assert (∃ a2, a = p ++ a2) as [a2 ->]; [|by apply below_app in Ha as [? _]].
    exists (drop (length p) a). assert (p = take (length p) a) as Hpa; [|by rewrite Hpa at 1; rewrite take_drop].
    assert (take (length p) (p ++ q) = take (length p) (a ++ c)) as Heq by congruence.
    rewrite take_app_length in Heq. rewrite Heq at 1. apply take_app_le. unfold zlen in *. lia. }
  pose proof Hb as [(_&Hmax&_) _]. destruct rest as [|r rest]; [zlen|].
  rewrite Hpq in Hb, Hs.
  destruct (insertWithIndex_ok b p q r rest v Hb Hs Hbp) as (b'&ins&pos&rest'&Hi&Hr&Hcase&w&Hw&Hkw).
  { intros Heq. rewrite <-Hpq, <-Heq. specialize (Hstale r ltac:(by left)).
    apply elem_of_app in Hstale as [?|?]; [done|]. by rewrite Heq in *. }
  rewrite Hp in Hi. rewrite <-Hpq in Hr, Hw, Hcase, Hs.
  destruct (at_split _ _ _ Hw) as (l1&l2&Hsplit&Hl1). pose proof (sorted_sinsert v l Hs) as Hss.
  exists b', ins, pos, rest', (l1 ++ [w]), l2. split_and!; [done|done| | |zlen| | |].
  - intros x Hx. destruct Hcase as [(_&_&->)|(_&_&_&->)]; [by right|done].
  - by rewrite Hsplit, <-app_assoc.
  - zlen.
  - rewrite Hsplit in Hss. apply sorted_middle in Hss as (_&_&Hbl&_).
    apply below_app. rewrite Hkw in Hbl. split; [eapply below_weaken; [exact Hbl|lia]|].
    apply below_cons. split; [lia|constructor].
  - pose proof (length_sinsert v l). assert (zlen a ≤ pos); [|zlen].
    destruct (decide (zlen a ≤ pos)); [done|]. exfalso.
    rewrite Hl, sinsert_app_r, at_app_l in Hw by (done || lia).
    apply (proj1 (below_at _ _) Ha) in Hw. lia.
Qed.

(** ** Order *)

(** Every element of [m] comes before every element of [q]. *)
Definition precede (m q : list ValueType) : Prop := ∀ v w, v ∈ m → w ∈ q → keyOfValue v < keyOfValue w.

Lemma precede_below m e q : precede m (e :: q) → below m (keyOfValue e).
Proof. intros Hp. apply Forall_forall. intros v Hv. apply Hp; [done|by left]. Qed.

Lemma precede_tail m e q : precede m (e :: q) → precede m q.
Proof. intros Hp v w Hv Hw. apply Hp; [done|by right]. Qed.

Lemma precede_app m m' q : precede (m ++ m') q ↔ precede m q ∧ precede m' q.
Proof. unfold precede. setoid_rewrite elem_of_app. naive_solver. Qed.

(** ** The part of the batch for a block *)

(** The upward scan for the first batch element that belongs behind the head [h] of the
    next block, read with [readHead]. *)
Lemma scan_batch pre c1 c2 post (readHead : result Z) h :
  readHead = Ok h → below c1 h → above (h - 1) c2 →
  while (S (length (c1 ++ c2)))
    (λ i, if i <? zlen pre + zlen (c1 ++ c2) then
            k ← (v ← zget (pre ++ (c1 ++ c2) ++ post) i; Ok (keyOfValue v)); h ← readHead; Ok (comp k h)
          else Ok false)
    (λ i, Ok (i + 1)) (zlen pre) = Ok (zlen pre + zlen c1).
Proof.
  intros -> Hc1 Hc2.
  assert (∀ c0 c1, below c1 h → ∀ fuel, (length c1 < fuel)%nat →
    while fuel
      (λ i, if i <? zlen pre + zlen (c0 ++ c1 ++ c2) then
              k ← (v ← zget (pre ++ (c0 ++ c1 ++ c2) ++ post) i; Ok (keyOfValue v)); h ← Ok h; Ok (comp k h)
            else Ok false)
      (λ i, Ok (i + 1)) (zlen pre + zlen c0) = Ok (zlen pre + zlen (c0 ++ c1))) as Hloop.
  { clear c1 Hc1. intros c0 c1. revert c0.
    induction c1 as [|v c1 IH]; intros c0 Hc1 fuel Hfuel; (destruct fuel as [|fuel]; [lia|]).
    - rewrite app_nil_r. apply while_exit. destruct c2 as [|w c2].
      + rewrite app_nil_r. by destruct (Z.ltb_spec (zlen pre + zlen c0) (zlen pre + zlen c0)); [lia|].
      + apply above_cons in Hc2 as [Hw _]. rewrite app_nil_l.
        destruct (Z.ltb_spec (zlen pre + zlen c0) (zlen pre + zlen (c0 ++ w :: c2))); [|done].
        erewrite zget_at; cycle 1.
        { replace (pre ++ (c0 ++ w :: c2) ++ post) with ((pre ++ c0) ++ w :: (c2 ++ post))
            by (by rewrite <-!app_assoc). rewrite <-zlen_app. apply at_middle. }
        cbn [mbind result_bind]. unfold comp. by destruct (Z.ltb_spec (keyOfValue w) h); [lia|].
    - apply below_cons in Hc1 as [Hv Hc1]. simpl in Hfuel.
      erewrite while_iterate; [| |done].
      + specialize (IH (c0 ++ [v]) Hc1 fuel ltac:(lia)).
        replace ((c0 ++ [v]) ++ c1 ++ c2) with (c0 ++ (v :: c1) ++ c2) in IH by (by rewrite <-app_assoc).
        replace ((c0 ++ [v]) ++ c1) with (c0 ++ v :: c1) in IH by (by rewrite <-app_assoc).
        replace (zlen pre + zlen c0 + 1) with (zlen pre + zlen (c0 ++ [v])) by zlen. exact IH.
      + destruct (Z.ltb_spec (zlen pre + zlen c0) (zlen pre + zlen (c0 ++ (v :: c1) ++ c2))); [|zlen].
        erewrite zget_at; cycle 1.
        { replace (pre ++ (c0 ++ (v :: c1) ++ c2) ++ post) with ((pre ++ c0) ++ v :: (c1 ++ c2 ++ post))
            by (by rewrite <-!app_assoc). rewrite <-zlen_app. apply at_middle. }
        cbn [mbind result_bind]. unfold comp. by destruct (Z.ltb_spec (keyOfValue v) h); [|lia]. }
  specialize (Hloop [] c1 Hc1 (S (length (c1 ++ c2)))).
  rewrite zlen_nil, Z.add_0_r in Hloop. apply Hloop. rewrite length_app. lia.
Qed.

End sequences.
