(* ===== verification/BlockSplit.v ===== *)
(** * Splitting a block while inserting into it

    Both arrays insert the elements of a batch that one block cannot hold in the same way:
    the insertion block is filled and split, its halves are written in order.  Where they
    are written differs: to the buffer array, to the second array, or in place.  The
    interface [BlockSink] hides this; [splitStep] is the common loop body, and
    [splitting_ok] the correctness of every loop that simulates it. *)

From S2P Require Export BlockSeq.
Import PmaEntry(PmaEntry).

(** A place that blocks are written to one after the other: [written st ws] says that [ws]
    are the blocks written so far, [sink_limit] how many there is room for, and
    [sink_accepts] the keys that may be written. *)
Class BlockSink `{T : SdsTypes} `{C : BlockConfig} (St : Type) := {
  emit : PmaEntry → St → result St;
  written : St → list (list ValueType * list ValueType) → Prop;
  sink_limit : Z;
  sink_accepts : Z → Prop;
}.

Class BlockSinkOk `{T : SdsTypes} `{C : BlockConfig} {St : Type} (K : BlockSink St) : Prop :=
  emit_ok : ∀ st ws b l rest, written st ws → represents b l rest → good_size l →
    (∀ k, k ∈ keys l → sink_accepts k) → zlen ws < sink_limit → ∃ st', emit b st = Ok st' ∧ written st' (ws ++ [(l, rest)]).

Section split.
Context `{T : SdsTypes} `{C : BlockConfig}.
Context `{BC : !BlockConfigOk} `{HB : !HalfBlocks}.
Context {St : Type} `{K : !BlockSink St} `{KO : !BlockSinkOk K}.
Implicit Types (s : St) (l rest batch : list ValueType) (bs ws : list (list ValueType * list ValueType)).
Implicit Types (v w : ValueType) (b : PmaEntry) (ks : list Z).

(** The local variables of the loop. *)
Record Cursor := mkCursor {
  cur_block : PmaEntry;
  cur_right : PmaEntry;
  cur_hint : Z;
  cur_index : Z;
}.

Definition splitStep batch (st : St * Cursor) : result (St * Cursor) :=
  let '(s, mkCursor block half hint i) := st in
  e ← zget batch i;
  let toRight := negb (PmaEntry.isEmpty half) &&
    (comp (PmaEntry.head half) (keyOfValue e) || (keyOfValue e =? PmaEntry.head half)) in
  '(s, block, half, hint) ←
    (if toRight then s ← emit block s; Ok (s, half, PmaEntry.null_entry, 0)
     else Ok (s, block, half, hint));
  if PmaEntry.size block <? MaxSize then
    '(block, (_, hint)) ← PmaEntry.insertWithIndex block e hint;
    Ok (s, mkCursor block half hint (i + 1))
  else
    '(block, newBlock) ← PmaEntry.split block;
    if negb (PmaEntry.isEmpty half) then
      s ← emit block s;
      Ok (s, mkCursor newBlock half 0 i)
    else Ok (s, mkCursor block newBlock hint i).

Section loop.
Variables (l : list ValueType) (ks : list Z) (pre es post : list ValueType).
Let batch := pre ++ es ++ post.

Hypothesis (sorted_l : sorted l) (sorted_es : sorted es).
Hypothesis (zero_stale : keyOfValue zeroValue ∈ ks).
Hypothesis (es_fresh : ∀ k, k ∈ keys es → (k ∉ ks) ).
Hypothesis (l_small : zlen l ≤ MaxSize).
Hypothesis (space_enough : ∀ n, n * MinSize ≤ zlen l + zlen es → n ≤ sink_limit).
Hypothesis (accepted : ∀ k, k ∈ keys l ∨ k ∈ keys es → sink_accepts k).

(** Every block has keys of [l] and [es] only. *)
Lemma part_accepted bs es1 es2 x k :
  es = es1 ++ es2 → elements bs = smerge l es1 → x ∈ bs → k ∈ keys x.1 → sink_accepts k.
Proof.
  clear - accepted.
  intros -> Hel (bs1&bs2&->)%list_elem_of_split Hk. apply accepted.
  assert (k ∈ keys (smerge l es1)) as [?|?]%keys_smerge; [|by left|right].
  - rewrite <-Hel, elements_app, elements_cons, !keys_app, !elem_of_app. tauto.
  - rewrite keys_app, elem_of_app. by left.
Qed.

(** [rs] is the block of [rightHalf], if there is one. *)
Definition right_is b rs : Prop :=
  match rs with
  | [] => PmaEntry.isEmpty b = true
  | [x] => entry_is b x ∧ zlen x.1 = MinSize
  | _ => False
  end.

(** The written blocks [ws], the insertion block [(li, ri)] and [rs] hold [l] and [es1];
    [a] are the elements of [li] before the search position. *)
Record split_inv s (st : Cursor) ws li ri rs es1 es2 (a c : list ValueType) : Prop := {
  si_es : es = es1 ++ es2;
  si_index : cur_index st = zlen pre + zlen es1;
  si_written : written s ws;
  si_block : represents (cur_block st) li ri;
  si_right : right_is (cur_right st) rs;
  si_elements : elements (ws ++ (li, ri) :: rs) = smerge l es1;
  si_stales : stales ks (ws ++ (li, ri) :: rs);
  si_good : Forall (λ x, good_size x.1) ws;
  si_good_block : good_size li;
  si_before : precede (elements ws) es2;
  si_li : li = a ++ c;
  si_a : precede a es2;
  si_hint : 0 ≤ cur_hint st;
  si_hint_le : cur_hint st ≤ zlen a ∨
    ∃ v x rr, rs = [(v :: x, rr)] ∧ ∀ w, w ∈ es2 → keyOfValue v ≤ keyOfValue w;
  si_count : rs ≠ [] → zlen li - MinSize ≤ zlen a;
}.

Lemma split_good s st ws li ri rs es1 es2 a c :
  split_inv s st ws li ri rs es1 es2 a c → Forall (λ x, good_size x.1) (ws ++ (li, ri) :: rs).
Proof.
  intros [_ _ _ _ Hr _ _ Hg Hgl _ _ _ _ _ _]. pose proof MaxSize_double. pose proof MinSize_two.
  apply Forall_app. split; [done|]. constructor; [done|].
  destruct rs as [|[lr rr] [|? ?]]; [constructor| |by destruct Hr]. destruct Hr as [_ Hsz].
  apply Forall_singleton. split; simpl in *; lia.
Qed.

(** There is room for all blocks of the loop. *)
Lemma split_room s st ws li ri rs es1 es2 a c :
  split_inv s st ws li ri rs es1 es2 a c → zlen (ws ++ (li, ri) :: rs) ≤ sink_limit.
Proof.
  intros Hinv. pose proof (blocks_bound _ (split_good _ _ _ _ _ _ _ _ _ _ Hinv)) as Hb.
  apply space_enough. rewrite (si_elements _ _ _ _ _ _ _ _ _ _ Hinv) in Hb.
  pose proof (length_smerge l es1). pose proof (si_es _ _ _ _ _ _ _ _ _ _ Hinv) as Hes.
  assert (zlen es1 ≤ zlen es) by (rewrite Hes; zlen). lia.
Qed.

Lemma remaining_above e es1 es2 : es = es1 ++ e :: es2 → above (keyOfValue e) es2.
Proof. intros ->. clear - sorted_es. by apply sorted_app in sorted_es as (_&[? _]%sorted_cons&_). Qed.

Lemma below_precede m e es1 es2 :
  es = es1 ++ e :: es2 → below m (keyOfValue e + 1) → precede m es2.
Proof.
  intros Hes Hm v w Hv Hw. apply remaining_above in Hes.
  unfold below, above in *. rewrite Forall_forall in Hm, Hes. specialize (Hm v Hv). specialize (Hes w Hw). lia.
Qed.

(** All of the elements of [rs] are larger than [e] when its first one is. *)
Lemma right_above ws li ri b rs es1 e :
  right_is b rs → elements (ws ++ (li, ri) :: rs) = smerge l es1 →
  (∀ v x rr, rs = [(v :: x, rr)] → keyOfValue e < keyOfValue v) → above (keyOfValue e) (elements rs).
Proof.
  intros Hr Hel Hlt. pose proof (sorted_smerge l es1 sorted_l) as Hs.
  rewrite <-Hel, elements_app, elements_cons, !sorted_app in Hs. destruct Hs as (_&(_&Hs&_)&_).
  destruct rs as [|[[|v x] rr] [|? ?]]; [constructor| |by destruct Hr| |by destruct Hr].
  - constructor.
  - rewrite elements_single in *. apply sorted_cons in Hs as [Ha _]. specialize (Hlt v x rr eq_refl).
    apply above_cons. split; [done|]. eapply above_weaken; [exact Ha|lia].
Qed.

(** An insertion into the insertion block. *)
Lemma insert_case s b rh idx ws li ri rs es1 e es2 a c :
  split_inv s (mkCursor b rh idx (zlen pre + zlen es1)) ws li ri rs es1 (e :: es2) a c →
  zlen li < MaxSize → idx ≤ zlen a →
  (∀ v x rr, rs = [(v :: x, rr)] → keyOfValue e < keyOfValue v) →
  ∃ b' ins idx' li' ri' a' c', PmaEntry.insertWithIndex b e idx = Ok (b', (ins, idx')) ∧
    zlen li' ≤ MaxSize ∧
    split_inv s (mkCursor b' rh idx' (zlen pre + zlen es1 + 1))
      ws li' ri' rs (es1 ++ [e]) es2 a' c'.
Proof.
  intros [Hes Hi Hp Hb Hr Hel Hst Hg Hgl Hbef Hli Ha Hh Hhl Hcount] Hsize Hidx Hlt. simpl in *.
  pose proof (right_above _ _ _ _ _ _ _ Hr Hel Hlt) as Habove.
  pose proof (sorted_smerge l es1 sorted_l) as Hs. pose proof Hs as Hs'.
  rewrite <-Hel, elements_app, elements_cons, !sorted_app in Hs. destruct Hs as (_&(Hsl&_&_)&_). cbn [fst] in Hsl.
  apply stales_app in Hst as [Hst1 [Hst2 Hst3]]. cbn [snd] in Hst2.
  assert (keyOfValue e ∉ keys (elements rs) ++ ks) as Hfresh.
  { rewrite elem_of_app. intros [Hin|Hin].
    - by apply above_not_in in Hin.
    - apply (es_fresh (keyOfValue e)); [|done]. rewrite Hes, keys_app, keys_cons. set_solver. }
  destruct (insert_hint b li ri a c _ e idx Hb Hsl Hli ltac:(lia) (precede_below _ _ _ Ha) Hsize Hst2 Hfresh)
    as (b'&ins&idx'&ri'&a'&c'&Hins&Hb'&Hri&Hli'&Hidx'&Ha'&Hcnt).
  pose proof (length_sinsert e li).
  exists b', ins, idx', (sinsert e li), ri', a', c'. split; [done|]. split; [lia|].
  split; simpl; try done.
  - rewrite Hes. by rewrite <-app_assoc.
  - zlen.
  - rewrite elements_app, elements_cons in Hel |- *. cbn [fst] in *.
    rewrite smerge_snoc, <-Hel. rewrite sinsert_app_r by (by eapply precede_below).
    by rewrite sinsert_app_l.
  - apply stales_app. split; [|split; [|done]]; cbn [fst snd]; cycle 1.
    { eapply stale_sub; [|exact Hri]. eapply stale_mono; [exact Hst2|]. intros k.
      rewrite !elem_of_app, keys_sinsert. tauto. }
    eapply stales_mono; [exact Hst1|]. intros k. rewrite !elements_cons. cbn [fst].
    rewrite !keys_app, !elem_of_app, keys_sinsert. tauto.
  - destruct Hgl. split; lia.
  - by eapply precede_tail.
  - by eapply below_precede.
  - lia.
  - left. lia.
  - intros Hrs. specialize (Hcount Hrs). lia.
Qed.

(** A full block is split into two halves; the lower half keeps the elements of the upper
    one behind its own. *)
Definition zeroed (l1 : list ValueType) : list ValueType := replicate (length l1) zeroValue.

Lemma split_full b li ri :
  represents b li ri → zlen li = MaxSize →
  ri = [] ∧ ∃ b' r l1 l2, li = l1 ++ l2 ∧ zlen l1 = MinSize ∧ zlen l2 = MinSize ∧
    PmaEntry.split b = Ok (b', r) ∧ represents b' l1 l2 ∧ represents r l2 (zeroed l1).
Proof.
  intros Hb Hsize. pose proof MinSize_two. pose proof MaxSize_double as Hdouble.
  assert (ri = []) as ->.
  { destruct Hb as [(_&Hm&_) _]. destruct ri; [done|zlen]. }
  destruct (split_at li MinSize) as (l1&l2&->&Hl1); [lia|]. rewrite zlen_app in Hsize.
  destruct (split_ok b l1 l2 Hb ltac:(lia)) as (b'&r&Hsplit&Hb'&Hr).
  split; [done|]. exists b', r, l1, l2. split_and!; done || lia.
Qed.

Lemma elements_halves ws l1 l2 z xs :
  elements (ws ++ (l1, l2) :: (l2, z) :: xs) = elements (ws ++ (l1 ++ l2, []) :: xs).
Proof. rewrite !elements_app, !elements_cons. cbn [fst]. by rewrite <-!app_assoc. Qed.

Lemma stales_halves ws l1 l2 xs :
  stales ks (ws ++ (l1 ++ l2, []) :: xs) → stales ks (ws ++ (l1, l2) :: (l2, zeroed l1) :: xs).
Proof.
  intros [Hst1 [_ Hst2]]%stales_app. apply stales_app. split; [|split; [|split; [|done]]]; cbn [snd].
  - eapply stales_mono; [exact Hst1|]. intros k. rewrite !elements_cons. cbn [fst].
    rewrite !keys_app, !elem_of_app. tauto.
  - intros v Hv. rewrite elements_cons. cbn [fst]. rewrite keys_app, !elem_of_app. right; left; left.
    apply elem_of_keys. eauto.
  - apply stale_zeros. rewrite !elem_of_app. tauto.
Qed.

(** The elements [a] in front of the search position and the lower half [l1] are prefixes
    of the block. *)
Lemma half_prefix (a c l1 l2 : list ValueType) :
  l1 ++ l2 = a ++ c → (∃ c1, l1 = a ++ c1 ∧ zlen a ≤ zlen l1) ∨ ∃ v a2, a = l1 ++ v :: a2 ∧ zlen l1 < zlen a.
Proof.
  intros Heq. destruct (decide (zlen a ≤ zlen l1)) as [Hle|Hlt].
  - left. destruct (split_at l1 (zlen a)) as (a1&c1&->&Hlen); [zlen|]. exists c1.
    rewrite <-app_assoc in Heq. by apply (app_inj_1 a1 a) in Heq as [-> _]; [|unfold zlen in Hlen; lia].
  - right. destruct (split_at a (zlen l1)) as (a1&[|v a2]&->&Hlen); [zlen|zlen|]. exists v, a2.
    rewrite <-app_assoc in Heq. apply (app_inj_1 l1 a1) in Heq as [<- _]; [|unfold zlen in *; lia].
    split; [done|lia].
Qed.

(** A full insertion block is split while nothing was split off yet. *)
Lemma split_first s b rh idx ws li ri es1 e es2 a c :
  split_inv s (mkCursor b rh idx (zlen pre + zlen es1)) ws li ri [] es1 (e :: es2) a c →
  zlen li = MaxSize →
  ∃ b' r li' ri' lr rr a' c', PmaEntry.split b = Ok (b', r) ∧ zlen li' < MaxSize ∧
    split_inv s (mkCursor b' r idx (zlen pre + zlen es1))
      ws li' ri' [(lr, rr)] es1 (e :: es2) a' c'.
Proof.
  intros [Hes Hi Hp Hb Hr Hel Hst Hg Hgl Hbef Hli Ha Hh Hhl Hcount] Hsize. simpl in *.
  pose proof MinSize_two. pose proof MaxSize_double as Hdouble.
  destruct (split_full b li ri Hb Hsize) as (->&b'&r&l1&l2&->&Hl1&Hl2&Hsplit&Hb'&Hrr).
  rewrite <-(elements_halves ws l1 l2 (zeroed l1) []) in Hel. apply stales_halves in Hst.
  destruct (half_prefix a c l1 l2 Hli) as [(c1&Hc1&Hsmall)|(v&a2&Ha2&Hbig)].
  - (* the search position lies in the lower half *)
    exists b', r, l1, l2, l2, (zeroed l1), a, c1.
    split; [done|]. split; [lia|]. split; simpl; try done.
    + split; lia.
    + left. destruct Hhl as [?|(?&?&?&?&_)]; done.
    + intros _. zlen.
  - (* it lies in the upper half: the next element goes there *)
    assert (∃ l2', l2 = v :: l2') as [l2' ->].
    { rewrite Ha2, <-app_assoc in Hli. apply app_inv_head in Hli. rewrite Hli. by eexists. }
    exists b', r, l1, (v :: l2'), (v :: l2'), (zeroed l1), l1, [].
    split; [done|]. split; [lia|]. split; simpl; try done.
    + split; lia.
    + by rewrite app_nil_r.
    + intros x y Hx Hy. apply Ha; [|done]. rewrite Ha2. apply elem_of_app. by left.
    + right. exists v, l2', (zeroed l1). split; [done|].
      intros w Hw. apply Z.lt_le_incl. apply Ha; [|done]. rewrite Ha2. apply elem_of_app. right. by left.
    + intros _. lia.
Qed.

(** The insertion block moves to the buffer; the block [x] takes its place. *)
Lemma push_case s st ws li ri rs es1 e es2 a c b lr rr rs' rh :
  split_inv s st ws li ri rs es1 (e :: es2) a c →
  represents b lr rr → right_is rh rs' → good_size lr →
  elements (ws ++ (li, ri) :: (lr, rr) :: rs') = smerge l es1 →
  stales ks (ws ++ (li, ri) :: (lr, rr) :: rs') →
  precede li (e :: es2) → (rs' ≠ [] → zlen lr ≤ MinSize) →
  ∃ s', emit (cur_block st) s = Ok s' ∧
    split_inv s' (mkCursor b rh 0 (zlen pre + zlen es1))
      (ws ++ [(li, ri)]) lr rr rs' es1 (e :: es2) [] lr.
Proof.
  intros Hinv Hb Hrh Hgr Hel Hst Hprec Hcnt.
  pose proof (split_room _ _ _ _ _ _ _ _ _ _ Hinv) as Hroom.
  destruct Hinv as [Hes Hi Hp Hib Hr _ _ Hg Hgl Hbef _ _ _ _ _].
  destruct (emit_ok s ws (cur_block st) li ri Hp Hib Hgl) as (s'&Hw&Hp'); [|zlen|].
  { intros k. apply (part_accepted _ es1 (e :: es2) (li, ri) k Hes Hel). apply elem_of_app. right. by left. }
  exists s'. split; [done|]. split; simpl; try done.
  - by rewrite <-app_assoc.
  - by rewrite <-app_assoc.
  - apply Forall_app. split; [done|]. by apply Forall_singleton.
  - rewrite elements_app, elements_single. by apply precede_app.
  - intros v w ?%elem_of_nil. done.
  - left. zlen.
  - intros Hrs. specialize (Hcnt Hrs). zlen.
Qed.

(** The next element goes to the block split off. *)
Lemma move_right s b rh idx ws li ri v x rr es1 e es2 a c :
  split_inv s (mkCursor b rh idx (zlen pre + zlen es1)) ws li ri [(v :: x, rr)] es1
    (e :: es2) a c →
  keyOfValue v ≤ keyOfValue e →
  ∃ s', emit b s = Ok s' ∧ zlen (v :: x) < MaxSize ∧
    split_inv s' (mkCursor rh PmaEntry.null_entry 0 (zlen pre + zlen es1))
      (ws ++ [(li, ri)]) (v :: x) rr [] es1 (e :: es2) [] (v :: x).
Proof.
  intros Hinv Hle. pose proof MinSize_two. pose proof MaxSize_double.
  pose proof Hinv as [Hes _ _ _ [Hrh Hsz] Hel Hst _ _ _ _ _ _ _ _]. cbn [fst] in Hsz.
  destruct (push_case s _ ws li ri _ es1 e es2 a c rh (v :: x) rr [] PmaEntry.null_entry Hinv) as (s'&?&?);
    [done|done|split; lia|done|done| |done|].
  - pose proof (sorted_smerge l es1 sorted_l) as Hs.
    rewrite <-Hel, elements_app, elements_cons, elements_single, !sorted_app in Hs.
    destruct Hs as (_&(_&_&Hlt)&_). intros y w Hy Hw.
    assert (keyOfValue y < keyOfValue v) by (apply Hlt; [done|by left]).
    apply remaining_above in Hes. apply elem_of_cons in Hw as [->|Hw]; [lia|].
    unfold above in Hes. rewrite Forall_forall in Hes. specialize (Hes w Hw). lia.
  - exists s'. split_and!; [done|lia|done].
Qed.

(** A full insertion block is split while another block is already split off. *)
Lemma split_second s b rh idx ws li ri x es1 e es2 a c :
  split_inv s (mkCursor b rh idx (zlen pre + zlen es1)) ws li ri [x] es1
    (e :: es2) a c →
  zlen li = MaxSize →
  ∃ b' r s' ws' li' ri', PmaEntry.split b = Ok (b', r) ∧
    emit b' s = Ok s' ∧ zlen li' < MaxSize ∧
    zlen ws' = zlen ws + 1 ∧
    split_inv s' (mkCursor r rh 0 (zlen pre + zlen es1))
      ws' li' ri' [x] es1 (e :: es2) [] li'.
Proof.
  intros [Hes Hi Hp Hb Hr Hel Hst Hg Hgl Hbef Hli Ha Hh Hhl Hcount] Hsize. simpl in *.
  pose proof MinSize_two. pose proof MaxSize_double as Hdouble.
  destruct (split_full b li ri Hb Hsize) as (->&b'&r&l1&l2&->&Hl1&Hl2&Hsplit&Hb'&Hrr).
  specialize (Hcount ltac:(done)).
  assert (precede l1 (e :: es2)) as Hl1e.
  { destruct (half_prefix a c l1 l2 Hli) as [(c1&Hc1&_)|(v&a2&Ha2&_)]; [|rewrite Ha2 in Ha; by apply precede_app in Ha as [? _]].
    assert (c1 = []) as -> by (rewrite Hc1, zlen_app in Hl1; rewrite zlen_app in Hcount; destruct c1; [done|zlen]).
    by rewrite Hc1, app_nil_r. }
  pose proof (stales_halves _ _ _ _ Hst) as Hst'. pose proof Hel as Hel'.
  rewrite <-(elements_halves ws l1 l2 (zeroed l1) [x]) in Hel'.
  assert (zlen ws < sink_limit) as Hroom.
  { assert (zlen (ws ++ [(l1, l2); (l2, zeroed l1)]) ≤ sink_limit); [|zlen]. apply space_enough.
    pose proof (blocks_bound ws Hg) as Hws. pose proof (length_smerge l es1) as Hlen.
    assert (zlen es1 ≤ zlen es) by (rewrite Hes; zlen).
    rewrite <-Hel, elements_app, elements_cons in Hlen. cbn [fst] in Hlen. rewrite !zlen_app in Hlen.
    pose proof (zlen_nonneg (elements [x])). zlen. }
  destruct (emit_ok s ws b' l1 l2 Hp Hb' ltac:(split; lia)) as (s'&Hw&Hp'); [|done|].
  { intros k Hk. apply (part_accepted _ es1 _ (l1 ++ l2, []) k Hes Hel).
    - apply elem_of_app. right. by left.
    - cbn [fst]. rewrite keys_app, elem_of_app. by left. }
  exists b', r, s', (ws ++ [(l1, l2)]), l2, (zeroed l1).
  split_and!; [done|done|lia|zlen|]. split; simpl; try done.
  - by rewrite <-app_assoc.
  - by rewrite <-app_assoc.
  - apply Forall_app. split; [done|]. apply Forall_singleton. split; simpl; lia.
  - split; lia.
  - rewrite elements_app, elements_single. by apply precede_app.
  - intros v w ?%elem_of_nil. done.
  - left. zlen.
  - intros _. zlen.
Qed.

(** The state of the loop, and its measure. *)
Definition split_state (st : St * Cursor) : Prop :=
  ∃ ws li ri rs es1 es2 a c, split_inv st.1 st.2 ws li ri rs es1 es2 a c.

Definition remaining (cur : Cursor) : Z := zlen pre + zlen es - cur_index cur.

Definition measure (cur : Cursor) : Z :=
  if remaining cur <=? 0 then 0
  else 2 * remaining cur - (if PmaEntry.size (cur_block cur) =? MaxSize then 0 else 1).

Lemma measure_nonneg cur : 0 ≤ measure cur.
Proof. unfold measure. destruct (Z.leb_spec (remaining cur) 0); [done|]. destruct (_ =? _); lia. Qed.

(** The insertion of one iteration, into a block with room. *)
Lemma insert_branch s b rh idx ws li ri rs es1 e es2 a c :
  split_inv s (mkCursor b rh idx (zlen pre + zlen es1)) ws li ri rs es1 (e :: es2) a c →
  zlen li < MaxSize → idx ≤ zlen a →
  (∀ v x rr, rs = [(v :: x, rr)] → keyOfValue e < keyOfValue v) →
  ∃ st', (if PmaEntry.size b <? MaxSize then
            '(block, (_, hint)) ← PmaEntry.insertWithIndex b e idx;
            Ok (s, mkCursor block rh hint (zlen pre + zlen es1 + 1))
          else
            '(block, newBlock) ← PmaEntry.split b;
            if negb (PmaEntry.isEmpty rh) then
              s ← emit block s;
              Ok (s, mkCursor newBlock rh 0 (zlen pre + zlen es1))
            else Ok (s, mkCursor block newBlock idx (zlen pre + zlen es1))) = Ok st' ∧
    split_state st' ∧ cur_index st'.2 = zlen pre + zlen es1 + 1.
Proof.
  intros Hinv Hsize Hidx Hlt.
  destruct (insert_case _ _ _ _ _ _ _ _ _ _ _ _ _ Hinv Hsize Hidx Hlt)
    as (b'&ins&idx'&li'&ri'&a'&c'&Hins&_&Hinv').
  pose proof (block_size _ _ _ (si_block _ _ _ _ _ _ _ _ _ _ Hinv)) as Hsz.
  cbn [cur_block] in Hsz. rewrite Hsz. destruct (Z.ltb_spec (zlen li) MaxSize); [|lia].
  rewrite Hins. cbn [mbind result_bind].
  eexists. split; [done|]. split; [|done]. do 8 eexists. exact Hinv'.
Qed.

(** What an iteration reads, and what it gains: it takes the next element, or makes room in
    a full insertion block. *)
Lemma next_element es1 e es2 : es = es1 ++ e :: es2 → zget batch (zlen pre + zlen es1) = Ok e.
Proof.
  clear. intros Hes. apply zget_at. unfold batch. rewrite Hes, <-zlen_app.
  replace (pre ++ (es1 ++ e :: es2) ++ post) with ((pre ++ es1) ++ e :: (es2 ++ post))
    by (by rewrite <-!app_assoc). apply at_middle.
Qed.

Lemma measure_taken cur cur' :
  0 < remaining cur → cur_index cur' = cur_index cur + 1 → measure cur' < measure cur.
Proof. unfold measure, remaining. intros Hrem ->. bool_cases; lia. Qed.

Lemma measure_room cur cur' :
  0 < remaining cur → cur_index cur' = cur_index cur → PmaEntry.size (cur_block cur) = MaxSize →
  PmaEntry.size (cur_block cur') < MaxSize → measure cur' < measure cur.
Proof. unfold measure, remaining. intros Hrem -> -> Hroom. bool_cases; lia. Qed.

Definition advances (st st' : St * Cursor) : Prop := split_state st' ∧ measure st'.2 < measure st.2.

(** One iteration while nothing is split off. *)
Lemma step_whole s b rh idx ws li ri es1 e es2 a c :
  let st := (s, mkCursor b rh idx (zlen pre + zlen es1)) in
  split_inv s st.2 ws li ri [] es1 (e :: es2) a c → 0 < remaining st.2 →
  wp (splitStep batch st) (advances st).
Proof.
  intros st Hinv Hrem. unfold splitStep. subst st. cbn [fst snd] in *.
  pose proof Hinv as [Hes _ _ Hb Hr _ _ _ [_ Hmax] _ _ _ _ Hhl _].
  simpl in Hb, Hr, Hhl. rewrite (next_element _ _ _ Hes), Hr. cbn [negb andb mbind result_bind].
  destruct (Z.ltb_spec (zlen li) MaxSize) as [Hroom|Hfull].
  - destruct (insert_branch _ _ _ _ _ _ _ _ _ _ _ _ _ Hinv Hroom) as (st'&->&?&?);
      [destruct Hhl as [?|(?&?&?&?&_)]; done|done|]. split; [done|]. by apply measure_taken.
  - assert (zlen li = MaxSize) as Hsize by lia.
    destruct (split_first _ _ _ _ _ _ _ _ _ _ _ _ Hinv Hsize)
      as (b'&r&li'&ri'&lr&rr&a'&c'&Hsplit&Hsmall&Hinv').
    pose proof (block_size _ _ _ Hb) as Hbs. rewrite Hbs.
    destruct (Z.ltb_spec (zlen li) MaxSize); [lia|].
    rewrite Hsplit. cbn [mbind result_bind]. rewrite Hr. cbn [negb wp].
    pose proof (si_block _ _ _ _ _ _ _ _ _ _ Hinv') as Hb'. cbn [cur_block] in Hb'.
    split; [do 8 eexists; exact Hinv'|].
    apply measure_room; [done|done|simpl; lia|]. cbn [snd cur_block]. by rewrite (block_size _ _ _ Hb').
Qed.

(** One iteration while a block is split off: it goes on with this block when the next
    element belongs there. *)
Lemma step_halves s b rh idx ws li ri v lr rr es1 e es2 a c :
  let st := (s, mkCursor b rh idx (zlen pre + zlen es1)) in
  split_inv s st.2 ws li ri [(v :: lr, rr)] es1 (e :: es2) a c → 0 < remaining st.2 →
  wp (splitStep batch st) (advances st).
Proof.
  intros st Hinv Hrem. unfold splitStep. subst st. cbn [fst snd] in *.
  pose proof Hinv as [Hes _ _ Hb [[Hrh1 Hrh2] Hrsz] _ _ _ [_ Hmax] _ _ _ _ Hhl _].
  simpl in Hb, Hrh1, Hrh2, Hhl. rewrite (next_element _ _ _ Hes).
  assert (PmaEntry.isEmpty rh = false) as Hrne
    by (unfold PmaEntry.isEmpty; by rewrite (holds_has_block _ _ _ Hrh1)).
  rewrite Hrne. cbn [negb andb mbind result_bind].
  assert ((comp (PmaEntry.head rh) (keyOfValue e) || (keyOfValue e =? PmaEntry.head rh)) =
    bool_decide (keyOfValue v ≤ keyOfValue e)) as ->.
  { rewrite Hrh2. unfold comp. destruct (bool_decide_reflect (keyOfValue v ≤ keyOfValue e));
      bool_cases; done || lia. }
  destruct (bool_decide_reflect (keyOfValue v ≤ keyOfValue e)) as [Hright|Hleft].
  { destruct (move_right _ _ _ _ _ _ _ _ _ _ _ _ _ _ _ Hinv Hright) as (s'&->&Hsmall&Hinv').
    cbn [mbind result_bind].
    destruct (insert_branch _ _ _ _ _ _ _ _ _ _ _ _ _ Hinv' Hsmall) as (st'&->&?&?);
      [zlen|done|]. split; [done|]. by apply measure_taken. }
  cbn [mbind result_bind]. destruct (Z.ltb_spec (zlen li) MaxSize) as [Hroom|Hfull].
  - destruct (insert_branch _ _ _ _ _ _ _ _ _ _ _ _ _ Hinv Hroom) as (st'&->&?&?).
    + destruct Hhl as [?|(v'&x&rr'&Heq&Hle)]; [done|]. injection Heq as <- _ _.
      specialize (Hle e (list_elem_of_here _ _)). lia.
    + intros v' x rr' Heq. injection Heq as <- _ _. lia.
    + split; [done|]. by apply measure_taken.
  - destruct (split_second _ _ _ _ _ _ _ _ _ _ _ _ _ Hinv ltac:(lia))
      as (b'&r&s'&ws'&li'&ri'&Hsplit&Hw&Hsmall&Hws'&Hinv').
    pose proof (block_size _ _ _ Hb) as Hbs. rewrite Hbs.
    destruct (Z.ltb_spec (zlen li) MaxSize); [lia|].
    rewrite Hsplit. cbn [mbind result_bind]. rewrite Hrne. cbn [negb]. rewrite Hw.
    cbn [mbind result_bind wp].
    pose proof (si_block _ _ _ _ _ _ _ _ _ _ Hinv') as Hb'. cbn [cur_block] in Hb'.
    split; [do 8 eexists; exact Hinv'|].
    apply measure_room; [done|done|simpl; lia|]. cbn [snd cur_block]. by rewrite (block_size _ _ _ Hb').
Qed.

Lemma splitStep_ok st : split_state st → 0 < remaining st.2 → wp (splitStep batch st) (advances st).
Proof.
  destruct st as [s [b rh idx bi]]. intros (ws&li&ri&rs&es1&es2&a&c&Hinv) Hrem.
  pose proof Hinv as [Hes Hi _ _ Hr _ _ _ _ _ _ _ _ _ _]. simpl in Hi, Hr. subst bi.
  destruct es2 as [|e es2].
  { unfold remaining in Hrem. simpl in Hrem. rewrite Hes, app_nil_r in Hrem. lia. }
  destruct rs as [|[lr rr] [|? ?]]; [by eapply step_whole| |by destruct Hr].
  destruct lr as [|v lr]; [|by eapply step_halves].
  destruct Hr as [_ Hsz]. pose proof MinSize_two. zlen.
Qed.

(** Any loop whose body does what [splitStep] does. *)
Lemma splitting_ok {X} (f : St * Cursor → X) (cur : X → Cursor) (body : X → result X) st :
  (∀ st, cur (f st) = st.2) →
  (∀ st st', split_state st → split_state st' → splitStep batch st = Ok st' → body (f st) = Ok (f st')) →
  split_state st →
  ∃ st' ws li ri rs a c,
    while (S (Z.to_nat (2 * (zlen pre + zlen es - cur_index (cur (f st))))))
      (λ x, Ok (cur_index (cur x) <? zlen pre + zlen es)) body (f st) = Ok (f st') ∧
    split_inv st'.1 st'.2 ws li ri rs es [] a c.
Proof.
  intros Hcur Hbody Hst.
  match goal with |- context [while ?n ?cond body (f st)] =>
    cut (wp (while n cond body (f st)) (λ x, ∃ st', x = f st' ∧ split_state st' ∧ remaining st'.2 ≤ 0)) end.
  { intros (x&->&st'&->&(ws&li&ri&rs&es1&es2&a&c&Hinv)&Hrem)%wp_returns. exists st', ws, li, ri, rs, a, c.
    split; [done|]. pose proof (si_es _ _ _ _ _ _ _ _ _ _ Hinv) as Hes.
    pose proof (si_index _ _ _ _ _ _ _ _ _ _ Hinv) as Hi. unfold remaining in Hrem. rewrite Hi in Hrem.
    assert (zlen es = zlen es1 + zlen es2) as Hl by (rewrite Hes; zlen).
    assert (es2 = []) as -> by (destruct es2; [done|zlen]). rewrite app_nil_r in Hes. by subst es1. }
  apply (wp_while (λ x, ∃ st', x = f st' ∧ split_state st') (λ x, measure (cur x))).
  - intros x (st1&->&Hst1). rewrite Hcur. split; [apply measure_nonneg|]. cbn [wp].
    destruct (Z.ltb_spec (cur_index st1.2) (zlen pre + zlen es)).
    + pose proof (splitStep_ok st1 Hst1 ltac:(unfold remaining; lia)) as Hstep.
      apply wp_returns in Hstep as (st2&Hstep&Hst2&Hlt). rewrite (Hbody _ _ Hst1 Hst2 Hstep). cbn [wp].
      rewrite Hcur. split; [by exists st2|done].
    + exists st1. split_and!; [done|done|]. unfold remaining. lia.
  - by exists st.
  - rewrite Hcur. unfold measure, remaining.
    destruct (Z.leb_spec (zlen pre + zlen es - cur_index st.2) 0); [lia|]. destruct (_ =? _); lia.
Qed.

(** The loop starts at the full block, with nothing written. *)
Lemma splitting_start s b rest :
  represents b l rest → stale (keys l ++ ks) rest → MinSize ≤ zlen l → written s [] →
  split_state (s, mkCursor b PmaEntry.null_entry 0 (zlen pre)).
Proof.
  intros Hb Hst Hmin Hw. exists [], l, rest, [], [], es, [], l. split; simpl; try done.
  - rewrite zlen_nil. lia.
  - by rewrite elements_single.
  - change (elements []) with (@nil ValueType). intros v w ?%elem_of_nil. done.
  - intros v w ?%elem_of_nil. done.
  - left. zlen.
Qed.

(** The remaining blocks are written after the loop. *)
Lemma splitting_finish st ws li ri rs a c :
  split_inv st.1 st.2 ws li ri rs es [] a c →
  ∃ s1, emit (cur_block st.2) st.1 = Ok s1 ∧ ∃ s2,
    (if negb (PmaEntry.isEmpty (cur_right st.2)) then emit (cur_right st.2) s1 else Ok s1) = Ok s2 ∧
    written s2 (ws ++ (li, ri) :: rs).
Proof.
  clear - HB KO space_enough accepted.
  intros Hinv. pose proof (split_room _ _ _ _ _ _ _ _ _ _ Hinv) as Hroom.
  destruct Hinv as [Hes _ Hp Hb Hr Hel _ Hg Hgl _ _ _ _ _ _].
  destruct (emit_ok _ ws _ li ri Hp Hb Hgl) as (s1&Hs1&Hp1); [|zlen|].
  { intros k. apply (part_accepted _ es [] (li, ri) k Hes Hel). apply elem_of_app. right. by left. }
  exists s1. split; [done|].
  destruct rs as [|[lr rr] [|? ?]]; [| |by destruct Hr]; simpl in Hr.
  - rewrite Hr. cbn [negb]. by exists s1.
  - destruct Hr as [Hrh Hsz]. pose proof Hrh as [Hh _]. cbn [fst snd] in Hh.
    pose proof MaxSize_double. pose proof MinSize_two.
    replace (negb (PmaEntry.isEmpty (cur_right st.2))) with true
      by (unfold PmaEntry.isEmpty; by rewrite (holds_has_block _ _ _ Hh)).
    destruct (emit_ok s1 _ (cur_right st.2) lr rr Hp1 Hrh) as (s2&->&Hp2); [split; simpl in *; lia| |zlen|].
    { intros k. apply (part_accepted _ es [] (lr, rr) k Hes Hel). apply elem_of_app. right. right. by left. }
    exists s2. split; [done|]. by rewrite <-app_assoc in Hp2.
Qed.
End loop.
End split.
