(* ===== verification/BlockFill.v ===== *)
(** * Filling new blocks one after the other

    Both arrays build new blocks from sorted elements: an insertion block is filled, goes
    to its place when it is full, and is followed by a new one, which takes over the upper
    half of the full one when too few elements follow.  The places are a [BlockSink] again;
    [filled] is the invariant of such loops. *)

From S2P Require Export BlockSplit BlockMerge.
Import BlockSeq.
Import PmaEntry(PmaEntry).

Section merge.
Context `{T : SdsTypes} `{C : BlockConfig}.
Context `{BC : !BlockConfigOk} `{HB : !HalfBlocks}.
Implicit Types (l rest batch es m : list ValueType) (v e : ValueType) (b : PmaEntry).

(** ** Merging sequences from the front *)

Lemma smerge_append l es :
  sorted es → (∀ k, k ∈ keys es → below l k) → smerge l es = l ++ es.
Proof.
  revert l. induction es as [|v es IH]; intros l Hs Hb; [by rewrite app_nil_r|].
  apply sorted_cons in Hs as [Ha Hs]. rewrite smerge_cons.
  assert (sinsert v l = l ++ [v]) as ->.
  { rewrite <-(app_nil_r l) at 1. apply sinsert_new; [|constructor]. apply Hb. apply elem_of_keys_cons. by left. }
  rewrite IH; [by rewrite <-app_assoc|done|]. intros k Hk. apply below_app. split.
  - apply Hb. apply elem_of_keys_cons. by right.
  - apply below_cons. split; [|constructor]. by apply (proj1 (above_keys _ _) Ha).
Qed.

Lemma smerge_less v m e es :
  keyOfValue v < keyOfValue e → sorted (e :: es) → smerge (v :: m) (e :: es) = v :: smerge m (e :: es).
Proof.
  intros Hlt [Ha _]%sorted_cons. apply (smerge_app_r [v] m). intros k Hk%elem_of_keys_cons.
  apply below_cons. split; [|constructor]. destruct Hk as [->|Hk]; [done|].
  rewrite above_keys in Ha. specialize (Ha k Hk). lia.
Qed.

Lemma smerge_equal v m e es :
  keyOfValue v = keyOfValue e → sorted (e :: es) → smerge (v :: m) (e :: es) = v :: smerge m es.
Proof.
  intros Heq [Ha _]%sorted_cons. rewrite smerge_cons.
  assert (sinsert e (v :: m) = v :: m) as -> by (by apply (sinsert_present [] e v m); [constructor|]). apply (smerge_app_r [v] m). intros k Hk.
  apply below_cons. split; [|constructor]. rewrite above_keys in Ha. specialize (Ha k Hk). lia.
Qed.

Lemma smerge_greater v m e es :
  keyOfValue e < keyOfValue v → sorted (v :: m) → sorted (e :: es) →
  smerge (v :: m) (e :: es) = e :: smerge (v :: m) es.
Proof.
  intros Hlt [Hv _]%sorted_cons [Ha _]%sorted_cons. rewrite smerge_cons.
  assert (sinsert e (v :: m) = e :: v :: m) as ->.
  { apply (sinsert_new [] e (v :: m)); [constructor|]. apply above_cons. split; [done|].
    eapply above_weaken; [exact Hv|lia]. }
  apply (smerge_app_r [e] (v :: m)). intros k Hk. apply below_cons. split; [|constructor].
  by apply (proj1 (above_keys _ _) Ha).
Qed.

Lemma smerge_empty es : sorted es → smerge [] es = es.
Proof. intros Hs. apply (smerge_append [] es Hs). constructor. Qed.

(** ** Appending to a block *)

(** The stale cells of a block with the elements [l] never mislead a search for a key that
    is to be appended. *)
Definition appendable l rest : Prop := stale (keys l ++ [keyOfValue zeroValue]) rest.

Lemma appendable_new (n : nat) : appendable [] (replicate n zeroValue).
Proof. apply stale_zeros. apply elem_of_app. right. by left. Qed.

Lemma appendable_app l es rest rest' :
  appendable l rest → (∀ v, v ∈ rest' → v ∈ rest ∨ keyOfValue v ∈ keys (l ++ es)) →
  appendable (l ++ es) rest'.
Proof.
  intros Ha Hr v [Hv|Hv]%Hr; [|by apply elem_of_app; left].
  apply Ha in Hv. rewrite keys_app, !elem_of_app in *. tauto.
Qed.

Lemma appendable_fresh l rest es :
  appendable l rest → (keyOfValue zeroValue ∉ keys es) → BlockFacts.fresh l rest (keys es).
Proof. intros Ha Hz. eapply stale_fresh; [exact Ha|]. by intros k Hk ->%list_elem_of_singleton. Qed.

Lemma sorted_append_smerge l es : sorted (l ++ es) → smerge l es = l ++ es.
Proof.
  intros (_&Hse&Hlt)%sorted_app. apply smerge_append; [done|].
  intros k (v&Hv&<-)%elem_of_keys. apply Forall_forall. intros w Hw. by apply Hlt.
Qed.

Lemma merge_append b l rest pre es post :
  represents b l rest → appendable l rest → sorted (l ++ es) → es ≠ [] → zlen l + zlen es ≤ MaxSize →
  (keyOfValue zeroValue ∉ keys es) →
  ∃ b' rest', PmaEntry.merge b (pre ++ es ++ post) (zlen pre) (zlen es) = Ok b' ∧
    represents b' (l ++ es) rest' ∧ appendable (l ++ es) rest'.
Proof.
  intros Hb Hc Hs Hne Hfit Hz. pose proof Hs as (Hsl&Hse&_)%sorted_app.
  destruct (merge_ok b l rest pre es post Hb Hsl (sorted_nondecreasing _ Hse) Hne Hfit
    (appendable_fresh _ _ _ Hc Hz)) as (b'&used&rest'&Hm&Hr&Heq&_).
  exists b', rest'. rewrite sorted_append_smerge in Hr by done. split_and!; [done|done|].
  eapply appendable_app; [exact Hc|]. intros v Hv. left. rewrite Heq. apply elem_of_app. by right.
Qed.

(** The same with the merge from the back, which needs keys other than [NULL_KEY], and other
    than zero for its assertions. *)
Lemma mergeFaster_append b l rest pre es post :
  represents b l rest → appendable l rest → sorted (l ++ es) → es ≠ [] → zlen l + zlen es ≤ MaxSize →
  MaxSize ≤ 32768 → (NULL_KEY ∉ keys (l ++ es)) → NDEBUG = true ∨ (0 ∉ keys (l ++ es)) →
  ∃ b' rest', MergeFaster.mergeFaster b (pre ++ es ++ post) (zlen pre) (zlen es) = Ok b' ∧
    represents b' (l ++ es) rest' ∧ appendable (l ++ es) rest'.
Proof.
  intros Hb Hc Hs Hne Hfit Hsig Hnull Hzero. pose proof Hs as (Hsl&Hse&_)%sorted_app.
  rewrite keys_app in Hnull, Hzero. setoid_rewrite elem_of_app in Hnull. setoid_rewrite elem_of_app in Hzero.
  destruct (mergeFaster_ok b l rest pre es post) as (b'&rest'&Hm&Hr&Hold); [done..|tauto|tauto|].
  exists b', rest'. rewrite sorted_append_smerge in Hr, Hold by done. split_and!; [done|done|].
  by eapply appendable_app.
Qed.

Lemma append_last b l rest v :
  represents b l rest → appendable l rest → sorted (l ++ [v]) → zlen l < MaxSize →
  keyOfValue v ≠ keyOfValue zeroValue →
  ∃ b' r rest', PmaEntry.insertWithIndex b v (PmaEntry.size b) = Ok (b', r) ∧
    represents b' (l ++ [v]) rest' ∧ appendable (l ++ [v]) rest'.
Proof.
  intros Hb Hc Hs Hfit Hz. pose proof Hb as [(_&Hmax&Hsz) _]. destruct rest as [|r rest]; [zlen|].
  apply sorted_middle in Hs as (Hsl&_&Hbelow&_). rewrite Hsz.
  rewrite <-(app_nil_r l) in Hb at 1.
  destruct (insertWithIndex_ok b l [] r rest v) as (b'&ins&pos&rest'&->&Hr&Hcase&_); [done|by rewrite app_nil_r|done| |].
  { rewrite app_nil_r. intros Heq. specialize (Hc r ltac:(by left)).
    rewrite Heq in Hc. apply elem_of_app in Hc as [?|?%list_elem_of_singleton]; done. }
  exists b', (ins, pos), rest'. split; [done|].
  rewrite app_nil_r in Hr, Hcase. rewrite <-(app_nil_r l) in Hr at 1.
  rewrite sinsert_new in Hr by (done || constructor). split; [done|].
  eapply appendable_app; [exact Hc|]. intros w Hw. left.
  destruct Hcase as [(_&_&->)|(_&_&_&->)]; [by right|done].
Qed.
End merge.

(** ** The loop invariant *)

Section filling.
Context `{T : SdsTypes} `{C : BlockConfig}.
Context `{BC : !BlockConfigOk} `{HB : !HalfBlocks}.
Context {St : Type} `{K : !BlockSink St} `{KO : !BlockSinkOk K}.
Implicit Types (s : St) (l m li : list ValueType) (ws : list (list ValueType * list ValueType)) (b : PmaEntry).

(** The written blocks [ws] and the insertion block [b] with [li] hold the elements [m]. *)
Record filled s ws b li m : Prop := {
  fd_written : written s ws;
  fd_block : ∃ ri, represents b li ri ∧ appendable li ri;
  fd_elements : elements ws ++ li = m;
  fd_good : Forall (λ x, good_size x.1) ws;
  fd_stales : stales (keys li ++ [keyOfValue zeroValue]) ws;
}.

Lemma filled_start s b rest : written s [] → represents b [] rest → appendable [] rest → filled s [] b [] [].
Proof. intros Hw Hb Hc. split; try done; by exists rest. Qed.

Lemma filled_extend s ws b li m b' x ri' :
  filled s ws b li m → represents b' (li ++ x) ri' → appendable (li ++ x) ri' →
  filled s ws b' (li ++ x) (m ++ x).
Proof.
  intros [Hp _ Hel Hg Hst] Hb' Hc. split; try done.
  - by exists ri'.
  - by rewrite <-Hel, <-app_assoc.
  - eapply stales_mono; [exact Hst|]. intros k. rewrite keys_app, !elem_of_app. tauto.
Qed.

Lemma filled_bound s ws b li m : filled s ws b li m → MinSize * zlen ws + zlen li ≤ zlen m.
Proof. intros [_ _ Hel Hg _]. rewrite <-Hel, zlen_app. pose proof (blocks_bound ws Hg). lia. Qed.

Lemma filled_size s ws b li m : filled s ws b li m → PmaEntry.size b = zlen li ∧ zlen li ≤ MaxSize.
Proof. intros [_ (ri&[(_&Hm&Hs) _]&_) _ _ _]. pose proof (zlen_nonneg ri). split; [done|lia]. Qed.

(** What an extension needs of the keys. *)
Lemma filled_extension s ws b li m x w :
  filled s ws b li m → sorted (m ++ x ++ w) → sorted (li ++ x).
Proof.
  intros [_ _ Hel _ _] Hs. rewrite <-Hel, <-app_assoc in Hs. apply sorted_app in Hs as (_&Hs&_).
  rewrite app_assoc in Hs. by apply sorted_app in Hs as (?&_&_).
Qed.

(** A full block goes to the sink; its upper half stays back when [few] is set. *)
Definition nextBlock b (few : bool) s : result (St * PmaEntry) :=
  '(block, newBlock) ←
    (if few then PmaEntry.split b
     else newBlock ← PmaEntry.allocateBlock PmaEntry.null_entry; Ok (b, newBlock));
  s ← emit block s;
  Ok (s, newBlock).

Lemma filled_next s ws b li m few :
  filled s ws b li m → zlen li = MaxSize → (∀ k, k ∈ keys m → sink_accepts k) → zlen ws < sink_limit →
  ∃ s' b' ws' li', nextBlock b few s = Ok (s', b') ∧
    filled s' ws' b' li' m ∧ zlen ws' = zlen ws + 1 ∧
    zlen li' = (if few then MinSize else 0).
Proof.
  intros [Hw (ri&Hb&Hc) Hel Hg Hst] Hfull Hacc Hlt.
  assert (∀ k, k ∈ keys li → sink_accepts k) as Hacc'.
  { intros k Hk. apply Hacc. rewrite <-Hel, keys_app, elem_of_app. by right. }
  pose proof MinSize_two. pose proof MaxSize_double as Hmax.
  assert (ri = []) as -> by (destruct Hb as [(_&Hm&_) _]; destruct ri; [done|zlen]).
  unfold nextBlock. destruct few.
  - destruct (split_at li MinSize) as (l1&l2&->&Hl1); [lia|]. rewrite zlen_app in Hfull.
    destruct (split_ok b l1 l2 Hb ltac:(lia)) as (b1&b2&->&Hb1&Hb2). cbn [mbind result_bind].
    destruct (emit_ok s ws b1 l1 l2 Hw Hb1) as (s'&->&Hw'); [split; lia| |done|].
    { intros k Hk. apply Hacc'. rewrite keys_app, elem_of_app. by left. } cbn [mbind result_bind].
    exists s', b2, (ws ++ [(l1, l2)]), l2. split; [done|]. split; [|split; [zlen|lia]]. split.
    + done.
    + eexists. split; [exact Hb2|]. apply stale_zeros. apply elem_of_app. right. by left.
    + by rewrite elements_app, elements_single, <-app_assoc.
    + apply Forall_app. split; [done|]. apply Forall_singleton. split; simpl; lia.
    + apply stales_app. split.
      * eapply stales_mono; [exact Hst|]. intros k. rewrite elements_single, keys_app, !elem_of_app. tauto.
      * split; [|done]. intros v Hv. rewrite !elem_of_app. right. right. left. apply elem_of_keys. by exists v.
  - destruct (allocateBlock_ok PmaEntry.null_entry) as (b2&->&_&Hb2); [done..|]. cbn [mbind result_bind].
    destruct (emit_ok s ws b li [] Hw Hb) as (s'&->&Hw'); [split; lia|done..|]. cbn [mbind result_bind].
    exists s', b2, (ws ++ [(li, [])]), []. split; [done|]. split; [|split; [zlen|done]]. split.
    + done.
    + eexists. split; [exact Hb2|]. apply appendable_new.
    + by rewrite elements_app, elements_single, app_nil_r.
    + apply Forall_app. split; [done|]. apply Forall_singleton. split; simpl; lia.
    + apply stales_app. split; [by rewrite elements_single|]. split; [|done]. intros v ?%elem_of_nil. done.
Qed.

(** The last block, when it is at least half full. *)
Lemma filled_last s ws b li m :
  filled s ws b li m → MinSize ≤ zlen li → (∀ k, k ∈ keys m → sink_accepts k) → zlen ws < sink_limit →
  ∃ s' ri, emit b s = Ok s' ∧ written s' (ws ++ [(li, ri)]) ∧ elements (ws ++ [(li, ri)]) = m ∧
    Forall (λ x, good_size x.1) (ws ++ [(li, ri)]) ∧
    stales [keyOfValue zeroValue] (ws ++ [(li, ri)]).
Proof.
  intros Hf Hmin Hacc Hlt. destruct (filled_size _ _ _ _ _ Hf) as [_ Hmax].
  destruct Hf as [Hw (ri&Hb&Hc) Hel Hg Hst].
  destruct (emit_ok s ws b li ri Hw Hb) as (s'&Hl&Hw'); [split; lia| |done|].
  { intros k Hk. apply Hacc. rewrite <-Hel, keys_app, elem_of_app. by right. }
  exists s', ri. split_and!; [done|done|by rewrite elements_app, elements_single| |].
  - apply Forall_app. split; [done|]. apply Forall_singleton. split; simpl; lia.
  - apply stales_app. split; [by rewrite elements_single|]. split; [|done]. exact Hc.
Qed.
End filling.

(** ** Filling blocks from a range of the batch *)

Section fill_batch.
Context `{T : SdsTypes} `{C : BlockConfig}.
Context `{BC : !BlockConfigOk} `{HB : !HalfBlocks}.
Context {St : Type} `{K : !BlockSink St} `{KO : !BlockSinkOk K}.
Implicit Types (s : St) (l li : list ValueType) (ws : list (list ValueType * list ValueType)) (b : PmaEntry).

Variables (merge : PmaEntry → list ValueType → Z → Z → result PmaEntry).
Variables (pre es post : list ValueType).
Let batch := pre ++ es ++ post.
Let right := zlen pre + zlen es.

(** A full block makes place for the next one, which the next batch elements go to. *)
Definition fillStep (st : St * PmaEntry * Z) : result (St * PmaEntry * Z) :=
  let '(s, block, i) := st in
  '(s, block) ←
    (if PmaEntry.size block =? MaxSize
     then nextBlock block ((0 <? right - i) && (right - i <? MinSize)) s else Ok (s, block));
  let n := Z.min MaxSize (right - i) in
  block ← merge block batch i (u16 n);
  Ok (s, block, i + n).

Hypothesis (sorted_es : sorted es) (enough : MinSize ≤ zlen es).
Hypothesis (space_enough : ∀ n, n * MinSize ≤ zlen es → n ≤ sink_limit).
Hypothesis (accepted : ∀ k, k ∈ keys es → sink_accepts k).
Hypothesis (merge_appends : ∀ b l rest p x q,
  represents b l rest → appendable l rest → sorted (l ++ x) → x ≠ [] → zlen l + zlen x ≤ MaxSize →
  (∀ k, k ∈ keys (l ++ x) → k ∈ keys es) →
  ∃ b' rest', merge b (p ++ x ++ q) (zlen p) (zlen x) = Ok b' ∧
    represents b' (l ++ x) rest' ∧ appendable (l ++ x) rest').

(** Whenever elements remain, the block is full or nothing was inserted yet. *)
Definition fill_inv (st : St * PmaEntry * Z) : Prop :=
  let '(s, b, i) := st in ∃ ws li es1 es2, es = es1 ++ es2 ∧ i = zlen pre + zlen es1 ∧
    filled s ws b li es1 ∧
    ((li = [] ∧ es1 = [] ∧ ws = []) ∨ zlen li = MaxSize ∨ (es2 = [] ∧ MinSize ≤ zlen li)).

(** The insertion block of an iteration. *)
Lemma fill_block s ws b li es1 e es2 :
  es = es1 ++ e :: es2 → filled s ws b li es1 → (li = [] ∧ es1 = [] ∧ ws = []) ∨ zlen li = MaxSize →
  let remaining := zlen (e :: es2) in
  ∃ s1 b1 ws1 li1,
    (if PmaEntry.size b =? MaxSize
     then nextBlock b ((0 <? remaining) && (remaining <? MinSize)) s else Ok (s, b)) = Ok (s1, b1) ∧
    filled s1 ws1 b1 li1 es1 ∧ zlen li1 + Z.min MaxSize remaining ≤ MaxSize ∧
    (zlen li1 + Z.min MaxSize remaining = MaxSize ∨ (remaining < MaxSize ∧ MinSize ≤ zlen li1 + remaining)).
Proof.
  intros Hes Hf Hcase remaining. pose proof MinSize_two. pose proof MaxSize_double as Hmax.
  assert (zlen es = zlen es1 + remaining) as Hlen by (rewrite Hes, zlen_app; done).
  assert (0 < remaining) as Hrem by (unfold remaining; zlen).
  pose proof (filled_bound _ _ _ _ _ Hf) as Hbound. destruct (filled_size _ _ _ _ _ Hf) as [-> Hlimax].
  destruct Hcase as [(->&->&->)|Hfull].
  - destruct (Z.eqb_spec (zlen (@nil ValueType)) MaxSize); [zlen|].
    rewrite zlen_nil in *. exists s, b, [], []. split_and!; [done|done|rewrite zlen_nil; lia|].
    rewrite zlen_nil; lia.
  - rewrite Hfull, Z.eqb_refl.
    destruct (filled_next s ws b li es1 ((0 <? remaining) && (remaining <? MinSize)) Hf Hfull)
      as (s1&b1&ws1&li1&->&Hf1&_&Hli1).
    { intros k Hk. apply accepted. rewrite Hes, keys_app, elem_of_app. by left. }
    { specialize (space_enough (zlen ws + 1) ltac:(lia)). lia. }
    exists s1, b1, ws1, li1. split; [done|]. split; [done|].
    destruct (Z.ltb_spec 0 remaining), (Z.ltb_spec remaining MinSize); cbn [andb] in Hli1; lia.
Qed.

Lemma fillStep_ok st :
  fill_inv st → st.2 < right → wp (fillStep st) (λ st', fill_inv st' ∧ st.2 < st'.2).
Proof.
  destruct st as [[s b] i]. intros (ws&li&es1&es2&Hes&->&Hf&Hcase) Hlt. simpl in Hlt.
  pose proof MinSize_two. pose proof MaxSize_double as Hmax. pose proof MaxSize_u16.
  unfold right in Hlt. destruct es2 as [|e es2]; [rewrite Hes, app_nil_r in Hlt; lia|].
  destruct (fill_block s ws b li es1 e es2 Hes Hf) as (s1&b1&ws1&li1&Hnext&Hf1&Hfit&Hnew);
    [by destruct Hcase as [?|[?|[? _]]]; [left|right|]|].
  set (remaining := zlen (e :: es2)) in *.
  assert (right - (zlen pre + zlen es1) = remaining) as Hrem by (unfold right, remaining; rewrite Hes; zlen).
  unfold fillStep. rewrite Hrem, Hnext. cbn [mbind result_bind].
  assert (0 < remaining) by (unfold remaining; zlen).
  destruct (split_at (e :: es2) (Z.min MaxSize remaining)) as (c1&c2&Hc&Hc1); [unfold remaining in *; lia|].
  rewrite <-Hc1. rewrite u16_small by lia.
  assert (c1 ≠ []) as Hc1ne by (intros ->; rewrite zlen_nil in Hc1; lia).
  destruct (fd_block _ _ _ _ _ Hf1) as (ri1&Hb1&Hclean1).
  pose proof (fd_elements _ _ _ _ _ Hf1) as Hel1.
  destruct (merge_appends b1 li1 ri1 (pre ++ es1) c1 (c2 ++ post)) as (b2&ri2&Hm&Hb2&Hclean2); try done.
  - eapply filled_extension with (w := c2); [exact Hf1|]. by rewrite Hes, Hc in sorted_es.
  - lia.
  - intros k. rewrite Hes, Hc, <-Hel1, !keys_app, !elem_of_app. tauto.
  - assert ((pre ++ es1) ++ c1 ++ c2 ++ post = batch) as Hbatch
      by (unfold batch; rewrite Hes, Hc; by rewrite <-!app_assoc).
    rewrite Hbatch, zlen_app in Hm. rewrite Hm. cbn [mbind result_bind wp]. simpl. split; [|lia].
    exists ws1, (li1 ++ c1), (es1 ++ c1), c2. split_and!.
    + rewrite Hes, Hc. by rewrite <-app_assoc.
    + by rewrite zlen_app, Z.add_assoc.
    + by eapply filled_extend.
    + right. rewrite zlen_app, Hc1. destruct Hnew as [?|[? ?]]; [by left|right].
      assert (c2 = []); [|split; [done|lia]].
      assert (remaining = zlen c1 + zlen c2) by (unfold remaining; rewrite Hc; zlen). destruct c2; [done|zlen].
Qed.

(** Any loop whose body does what [fillStep] does fills blocks with the whole range. *)
Lemma filling_ok {X} (f : St * PmaEntry * Z → X) (idx : X → Z) (cond : X → result bool)
    (body : X → result X) s b rest :
  (∀ st, idx (f st) = st.2) → (∀ st, cond (f st) = Ok (st.2 <? right)) →
  (∀ st st', fill_inv st → fill_inv st' → fillStep st = Ok st' → body (f st) = Ok (f st')) →
  written s [] → represents b [] rest → appendable [] rest →
  ∃ s' b' ws li,
    while (S (Z.to_nat (right - zlen pre))) cond body (f (s, b, zlen pre)) = Ok (f (s', b', right)) ∧
    filled s' ws b' li es ∧ MinSize ≤ zlen li ∧ zlen ws < sink_limit.
Proof.
  intros Hidx Hcond Hbody Hw Hb Ha. pose proof (zlen_nonneg es).
  match goal with |- context [while ?n cond body ?start] =>
    cut (wp (while n cond body start) (λ x, ∃ st, x = f st ∧ fill_inv st ∧ right ≤ st.2)) end.
  { intros (x&->&[[s' b'] i]&->&(ws&li&es1&es2&Hes&->&Hf&Hcase)&Hge)%wp_returns. unfold right in *. simpl in Hge.
    assert (es2 = []) as -> by (destruct es2; [done|]; rewrite Hes in Hge; zlen). rewrite app_nil_r in Hes. subst es1.
    exists s', b', ws, li. pose proof MinSize_two. pose proof MaxSize_double.
    assert (MinSize ≤ zlen li).
    { destruct Hcase as [(_&He&_)|[Hm|[_ ?]]]; [|lia|done]. pose proof enough as Hen. rewrite He, zlen_nil in Hen. lia. }
    split_and!; [done|done|done|]. pose proof (filled_bound _ _ _ _ _ Hf).
    specialize (space_enough (zlen ws + 1) ltac:(lia)). lia. }
  apply (wp_while (λ x, ∃ st, x = f st ∧ fill_inv st) (λ x, Z.max 0 (right - idx x))).
  - intros x (st&->&Hst). rewrite Hidx, Hcond. split; [lia|]. cbn [wp].
    destruct (Z.ltb_spec st.2 right) as [Hlt|Hge]; [|by exists st].
    pose proof (fillStep_ok st Hst Hlt) as (st'&Hstep&Hst'&Hdec)%wp_returns.
    rewrite (Hbody _ _ Hst Hst' Hstep). cbn [wp]. split; [by exists st'|]. rewrite Hidx. lia.
  - exists (s, b, zlen pre). split; [done|]. exists [], [], [], es. split_and!; [done|zlen| |by left].
    by eapply filled_start.
  - rewrite Hidx. simpl. lia.
Qed.
End fill_batch.
