(* ===== verification/SdsSplit.v ===== *)
(** * Writing blocks to the buffer array

    [pushed s s' lo bs origin]: between [s] and [s'] the blocks [bs] were written to
    consecutive cells of the buffer array from [lo] on, on behalf of pma entry [origin];
    nothing else has changed but the nodes to recount and the debug counter. *)

From S2P Require Export SdsInsert BlockSeq BucketMapFacts BlockSplit.
Import BatchedSparseArray Insertion.

Section buffer.
Context `{T : SdsTypes} `{C : BlockConfig}.
Context `{BC : !BlockConfigOk} `{HB : !HalfBlocks}.
Context `{R : RebalancingConfig} `{D : DensityManager}.
Context `{H : ConcurrentBucketMap.Hash} `{P : ThreadConfig}.
Implicit Types (s : Sds) (l rest batch : list ValueType) (bs : list (list ValueType * list ValueType)).
Implicit Types (e : PmaEntry.PmaEntry).

(** What a write to the buffer array leaves alone. *)
Definition fixed s := (capacity s, swapCapacity s, bufferCapacity s, size s, (pma s, swapPma s),
  bufferPointers s, (rebalancingManager s, rebalancingNodes s, rebalancingTasks s),
  prefixNumberOfRebalancingBlocks s, tasks s, numberOfThreads s, bufferReads s).

(** The recounting nodes after [bs] was written on behalf of [origin]. *)
Definition recounted (c : gmap Z bool) bs (origin : Z) : gmap Z bool :=
  match bs with
  | [] => c
  | _ => spec_insert c (BinaryRebalancingManager.lowestLevelNodeIndex origin) true
  end.

Record pushed s s' (lo : Z) bs (origin : Z) : Prop := {
  pu_fixed : fixed s' = fixed s;
  pu_length : zlen (bufferArray s') = zlen (bufferArray s);
  pu_other : ∀ i, i < lo ∨ lo + zlen bs ≤ i → at_ (bufferArray s') i = at_ (bufferArray s) i;
  pu_blocks : ∀ j x, at_ bs j = Some x →
    ∃ e, at_ (bufferArray s') (lo + j) = Some e ∧ entry_is e x;
  pu_map : wf (recountingNodesMap s) → wf (recountingNodesMap s');
  pu_contents : wf (recountingNodesMap s) →
    contents (recountingNodesMap s') = recounted (contents (recountingNodesMap s)) bs origin;
  pu_writes : bufferWrites s' = bufferWrites s + (if NDEBUG then 0 else zlen bs);
}.

Lemma pushed_nil s lo origin : pushed s s lo [] origin.
Proof. split; try done. - intros j x Hj. apply at_Some_bound in Hj. zlen. - destruct NDEBUG; zlen. Qed.

Lemma spec_insert_twice (c : gmap Z bool) k : spec_insert (spec_insert c k true) k true = spec_insert c k true.
Proof.
  apply map_eq. intros k'. rewrite !spec_insert_lookup. by destruct (decide (k = k')).
Qed.

Lemma pushed_app s s1 s2 lo bs1 bs2 origin :
  pushed s s1 lo bs1 origin → pushed s1 s2 (lo + zlen bs1) bs2 origin →
  pushed s s2 lo (bs1 ++ bs2) origin.
Proof.
  intros [F1 L1 O1 B1 M1 C1 W1] [F2 L2 O2 B2 M2 C2 W2]. pose proof (zlen_nonneg bs1). split.
  - congruence.
  - congruence.
  - intros i Hi. rewrite zlen_app in Hi. pose proof (zlen_nonneg bs2). rewrite O2, O1; [done|lia|lia].
  - intros j x Hj. rewrite at_app in Hj. destruct (Z.ltb_spec j (zlen bs1)).
    + pose proof (at_Some_bound _ _ _ Hj). rewrite O2 by lia. by apply B1.
    + destruct (B2 _ _ Hj) as (e&He&?). exists e. split; [|done]. rewrite <-He. f_equal. lia.
  - auto.
  - intros Hwf. rewrite C2, C1 by auto. destruct bs1, bs2; simpl; try done.
    apply spec_insert_twice.
  - rewrite W2, W1, zlen_app. destruct NDEBUG; lia.
Qed.

(** One write. *)
Lemma writeToBufferArray_ok s e l rest range out origin old :
  wf (recountingNodesMap s) → represents e l rest → good_size l →
  at_ (bufferArray s) (Interval.left range + out) = Some old → PmaEntry.isEmpty old = true →
  Interval.left range + out < Interval.right range →
  Interval.left range + out < bufferCapacity s →
  ∃ s', writeToBufferArray s e range out origin = Ok s' ∧
    pushed s s' (Interval.left range + out) [(l, rest)] origin.
Proof.
  intros Hwf He [Hmin Hmax] Hold Hempty Hright Hcap. unfold writeToBufferArray, getDenseWriteIndex.
  pose proof He as [Hh _]. pose proof Hh as (_&_&Hsz).
  rewrite (assert_ok (negb (PmaEntry.isEmpty e)))
    by (unfold PmaEntry.isEmpty; by rewrite (holds_has_block _ _ _ Hh)).
  rewrite (assert_ok ((PmaEntry.size e <=? MaxSize) && (MinSize <=? PmaEntry.size e)))
    by (rewrite Hsz; apply andb_true_intro; split; apply Z.leb_le; done).
  rewrite (assert_ok (_ <? Interval.right range)) by (by apply Z.ltb_lt).
  rewrite (assert_ok (_ <? bufferCapacity s)) by (by apply Z.ltb_lt).
  cbn [mbind result_bind]. rewrite (zget_at _ _ _ Hold). cbn [mbind result_bind].
  rewrite (assert_ok (PmaEntry.isEmpty old)) by done. cbn [mbind result_bind].
  pose proof (at_Some_bound _ _ _ Hold) as Hb. unfold write_bufferArray.
  rewrite zset_in by done. cbn [mbind result_bind]. unfold addRecountingNode.
  destruct (insert_refines (recountingNodesMap s)
    (BinaryRebalancingManager.lowestLevelNodeIndex origin) true Hwf) as (m'&Hm&Hwf'&Hc).
  cbn [recountingNodesMap set_bufferArray]. rewrite Hm. cbn [mbind result_bind].
  eexists. split; [done|]. unfold countWrite. split.
  - by destruct NDEBUG.
  - destruct NDEBUG; simpl; apply zlen_zupd.
  - intros i Hi. replace (zlen [(l, rest)]) with 1 in Hi by done.
    destruct NDEBUG; simpl; apply at_zupd_ne; lia.
  - intros j x Hj. pose proof (at_Some_bound _ _ _ Hj) as Hj'.
    replace (zlen [(l, rest)]) with 1 in Hj' by done. assert (j = 0) as -> by lia.
    injection Hj as <-. exists e. split; [|done]. rewrite Z.add_0_r.
    destruct NDEBUG; simpl; by apply at_zupd_eq.
  - intros _. by destruct NDEBUG.
  - intros _. by destruct NDEBUG.
  - by destruct NDEBUG; simpl; rewrite ?Z.add_0_r.
Qed.

(** ** Free cells *)

Definition free s (i : Z) : Prop :=
  ∃ old, at_ (bufferArray s) i = Some old ∧ PmaEntry.isEmpty old = true.

(** [bs] fits into the free cells from [lo] on. *)
Definition room s (lo hi : Z) : Prop :=
  hi ≤ bufferCapacity s ∧ ∀ i, lo ≤ i < hi → free s i.

Lemma room_pushed s s' lo hi bs origin :
  pushed s s' lo bs origin → room s lo hi → room s' (lo + zlen bs) hi.
Proof.
  intros [F _ O _ _ _ _] [Hcap Hfree]. unfold fixed in F. split; [congruence|].
  intros i Hi. pose proof (zlen_nonneg bs). destruct (Hfree i) as (old&Ho&He); [lia|].
  exists old. by rewrite O by lia.
Qed.

Lemma write_room s e l rest range out origin :
  wf (recountingNodesMap s) → represents e l rest → good_size l →
  room s (Interval.left range + out) (Interval.right range) →
  Interval.left range + out < Interval.right range →
  ∃ s', writeToBufferArray s e range out origin = Ok s' ∧
    pushed s s' (Interval.left range + out) [(l, rest)] origin.
Proof.
  intros Hwf He Hg [Hcap Hfree] Hlt. destruct (Hfree (Interval.left range + out)) as (old&Ho&Hi); [lia|].
  eapply writeToBufferArray_ok; try done. lia.
Qed.

End buffer.

(** * Inserting more elements than a block has room for

    [insertIntoBlockWithSplit] replaces a block by blocks in the buffer array that hold,
    in order, its elements merged with the batch elements: the buffer array is a
    [BlockSink], and the loop is that of [BlockSplit.v] with assertions. *)

Section split.
Context `{T : SdsTypes} `{C : BlockConfig}.
Context `{BC : !BlockConfigOk} `{HB : !HalfBlocks}.
Context `{R : RebalancingConfig} `{D : DensityManager}.
Context `{H : ConcurrentBucketMap.Hash} `{P : ThreadConfig}.
Implicit Types (s : Sds) (l rest batch : list ValueType) (bs : list (list ValueType * list ValueType)).
Implicit Types (v w : ValueType) (b : PmaEntry.PmaEntry) (ks : list Z).

(** ** The loop *)

Section loop.
Variables (s0 : Sds) (range : Interval) (out blockIndex : Z).
Let lo := Interval.left range + out.
Hypothesis (space : room s0 lo (Interval.right range)).
Hypothesis (map_wf : wf (recountingNodesMap s0)).
Hypothesis (emptied : at_ (pma s0) blockIndex = Some PmaEntry.null_entry).

(** The buffer array from [lo] on; the sink counts the output blocks. *)
#[local] Instance bufferSink : BlockSink (Sds * Z) := {|
  emit b st := s ← writeToBufferArray st.1 b range st.2 blockIndex; Ok (s, st.2 + 1);
  written st ws := pushed s0 st.1 lo ws blockIndex ∧ st.2 = out + zlen ws;
  sink_limit := Interval.right range - lo;
  sink_accepts _ := True;
|}.

#[local] Instance bufferSink_ok : BlockSinkOk bufferSink.
Proof.
  intros [s o] ws b l rest [Hp Ho] Hb Hg _ Hlim. simpl in *. subst o.
  pose proof (room_pushed _ _ _ _ _ _ Hp space) as Hfree. unfold lo in *. rewrite <-Z.add_assoc in Hfree.
  destruct (write_room s b l rest range (out + zlen ws) blockIndex) as (s'&->&Hp'); try done.
  { by apply (pu_map _ _ _ _ _ Hp). } { lia. }
  exists (s', out + zlen ws + 1). split; [done|]. simpl. split; [|zlen]. eapply pushed_app; [exact Hp|].
  by replace (Interval.left range + out + zlen ws) with (Interval.left range + (out + zlen ws)) by lia.
Qed.

Definition split_state_of (st : (Sds * Z) * Cursor) : Sds * SplitState :=
  (st.1.1, mkSplitState (cur_block st.2) (cur_right st.2) (cur_hint st.2) (cur_index st.2) st.1.2).

Definition cursor_of (x : Sds * SplitState) : Cursor :=
  mkCursor (split_insertionBlock x.2) (split_rightHalf x.2) (split_lastInsertionIndex x.2)
    (split_batchIndex x.2).

Lemma written_pma s o ws : written (s, o) ws → zget (pma s) blockIndex = Ok PmaEntry.null_entry.
Proof.
  intros [Hp _]. cbn [fst] in Hp. pose proof (pu_fixed _ _ _ _ _ Hp) as Hf.
  unfold fixed in Hf. apply zget_at. assert (pma s = pma s0) as -> by congruence. done.
Qed.

(** The assertions hold where the generic loop is in a good state. *)
Lemma body_simulates l ks pre es post st st' :
  split_state l ks pre es st → split_state l ks pre es st' →
  splitStep (pre ++ es ++ post) st = Ok st' →
  splitLoopBody (pre ++ es ++ post) range blockIndex (split_state_of st) = Ok (split_state_of st').
Proof.
  intros (ws&li&ri&rs&es1&es2&a&c&Hinv) (ws'&li'&ri'&rs'&es1'&es2'&a'&c'&Hinv') Hstep.
  pose proof (assertHead_ok _ _ _ (si_block _ _ _ _ _ _ _ _ _ _ _ _ _ _ Hinv)) as Ha.
  pose proof (assertHead_ok _ _ _ (si_block _ _ _ _ _ _ _ _ _ _ _ _ _ _ Hinv')) as Ha'.
  destruct st' as [[s' o'] cur']. simpl in *.
  pose proof (written_pma _ _ _ (si_written _ _ _ _ _ _ _ _ _ _ _ _ _ _ Hinv')) as Hpma.
  destruct st as [[s o] [b rh idx bi]]. unfold splitStep in Hstep. unfold splitLoopBody, split_state_of. simpl in *.
  rewrite Ha. cbn [mbind result_bind].
  assert (∀ st1, (here ← zget (pma s') blockIndex; PmaEntry.assertHead here;;
    PmaEntry.assertHead (cur_block cur');; Ok st1) = Ok st1 :> result (Sds * SplitState)) as Hlast.
  { intros st1. rewrite Hpma. cbn [mbind result_bind]. rewrite null_assertHead. cbn [mbind result_bind]. by rewrite Ha'. }
  destruct (zget _ bi) as [e|]; [|done]. cbn [mbind result_bind] in Hstep |- *.
  match goal with |- context [if ?t then _ else Ok (s, b, rh, idx, o)] => destruct t end.
  - destruct (writeToBufferArray s b range o blockIndex) as [s1|]; [|done]. cbn [mbind result_bind] in Hstep |- *.
    destruct (PmaEntry.size rh <? MaxSize).
    + destruct (PmaEntry.insertWithIndex rh e 0) as [[b2 [? h2]]|]; [|done].
      cbn [mbind result_bind] in Hstep |- *. injection Hstep as <- <- <-. simpl in *. rewrite Ha'.
      cbn [mbind result_bind]. apply Hlast.
    + destruct (PmaEntry.split rh) as [[b2 n2]|]; [|done]. cbn [mbind result_bind] in Hstep |- *.
      cbn [PmaEntry.isEmpty PmaEntry.has_block PmaEntry.block PmaEntry.null_entry negb] in Hstep |- *.
      injection Hstep as <- <- <-. simpl in *. apply Hlast.
  - cbn [mbind result_bind] in Hstep |- *. destruct (PmaEntry.size b <? MaxSize).
    + destruct (PmaEntry.insertWithIndex b e idx) as [[b2 [? h2]]|]; [|done].
      cbn [mbind result_bind] in Hstep |- *. injection Hstep as <- <- <-. simpl in *. rewrite Ha'.
      cbn [mbind result_bind]. apply Hlast.
    + destruct (PmaEntry.split b) as [[b2 n2]|]; [|done]. cbn [mbind result_bind] in Hstep |- *.
      destruct (negb (PmaEntry.isEmpty rh)); cbn [emit bufferSink fst snd] in Hstep.
      * destruct (writeToBufferArray s b2 range o blockIndex) as [s1|]; [|done]. cbn [mbind result_bind] in Hstep |- *.
        injection Hstep as <- <- <-. simpl in *. apply Hlast.
      * injection Hstep as <- <- <-. simpl in *. apply Hlast.
Qed.

Lemma splitLoop_ok l rest ks pre es post e :
  represents e l rest → sorted l → MinSize ≤ zlen l → stale (keys l ++ ks) rest → keyOfValue zeroValue ∈ ks →
  sorted es → (∀ k, k ∈ keys es → k ∉ ks) →
  (∀ n, n * MinSize ≤ zlen l + zlen es → n ≤ Interval.right range - lo) →
  ∃ s st s' ws, splitLoop (pre ++ es ++ post) range blockIndex (zlen pre + zlen es)
      (s0, mkSplitState e PmaEntry.null_entry 0 (zlen pre) out) = Ok (s, st) ∧
    split_batchIndex st = zlen pre + zlen es ∧
    (s1 ← writeToBufferArray s (split_insertionBlock st) range (split_outputBlockNumber st) blockIndex;
     if negb (PmaEntry.isEmpty (split_rightHalf st)) then
       s2 ← writeToBufferArray s1 (split_rightHalf st) range (split_outputBlockNumber st + 1) blockIndex;
       Ok (s2, split_outputBlockNumber st + 1 + 1)
     else Ok (s1, split_outputBlockNumber st + 1)) = Ok (s', out + zlen ws) ∧
    pushed s0 s' lo ws blockIndex ∧ elements ws = smerge l es ∧ Forall (λ x, good_size x.1) ws ∧
    stales ks ws ∧ ws ≠ [].
Proof.
  intros Hr Hsl Hmin Hst Hz Hses Hfr Hspace. pose proof Hr as [(_&Hmax&_) _]. pose proof (zlen_nonneg rest).
  assert (zlen l ≤ MaxSize) as Hlmax by lia.
  assert (∀ n, n * MinSize ≤ zlen l + zlen es → n ≤ @sink_limit _ _ _ bufferSink) as Hlim by exact Hspace.
  destruct (splitting_ok l ks pre es post Hsl Hses Hz Hfr Hlmax Hlim (λ _ _, I) split_state_of cursor_of
    (splitLoopBody (pre ++ es ++ post) range blockIndex) ((s0, out), mkCursor e PmaEntry.null_entry 0 (zlen pre)))
    as ([[s o] cur]&ws&li&ri&rs&a&c&Hloop&Hinv).
  - by intros [[? ?] []].
  - intros. by eapply body_simulates.
  - eapply splitting_start; try done. split; [apply pushed_nil|]. simpl. rewrite zlen_nil. lia.
  - destruct (splitting_finish l ks pre es Hlim (λ _ _, I) _ _ _ _ _ _ _ Hinv) as (st1&Hw1&st2&Hw2&[Hp Ho]).
    pose proof Hinv as [_ Hi _ Hb _ Hel Hst' _ _ _ _ _ _ _ _].
    exists s, (split_state_of ((s, o), cur)).2, st2.1, (ws ++ (li, ri) :: rs).
    split; [exact Hloop|]. simpl in *. split; [done|]. split.
    { destruct (writeToBufferArray s (cur_block cur) range o blockIndex) as [s1|]; [|done].
      cbn [mbind result_bind] in *. injection Hw1 as <-. simpl in Hw2.
      destruct (negb (PmaEntry.isEmpty (cur_right cur))).
      - destruct (writeToBufferArray s1 (cur_right cur) range (o + 1) blockIndex) as [s2|]; [|done].
        cbn [mbind result_bind] in *. injection Hw2 as <-. simpl in *. by rewrite Ho.
      - injection Hw2 as <-. simpl in *. by rewrite Ho. }
    split_and!; [done|done| |done|by destruct ws].
    by eapply split_good.
Qed.
End loop.

(** ** The whole operation *)

(** The state with entry [i] emptied and its buffer range set. *)
Definition prepared s (i : Z) (x : Interval) : Sds :=
  set_bufferPointers (set_pma s (zupd (pma s) i PmaEntry.null_entry)) (zupd (bufferPointers s) i x).

Lemma write_bufferRange s i lft rgt :
  0 ≤ i < zlen (bufferPointers s) →
  (s1 ← write_bufferLeft s i lft; write_bufferRight s1 i rgt) =
  Ok (set_bufferPointers s (zupd (bufferPointers s) i (mkInterval lft rgt))).
Proof.
  intros Hi. destruct (at_in_bound _ _ Hi) as [x Hx]. unfold write_bufferLeft, write_bufferPointers.
  rewrite (zget_at _ _ _ Hx). cbn [mbind result_bind]. rewrite zset_in by done. cbn [mbind result_bind].
  unfold write_bufferRight, write_bufferPointers. cbn [bufferPointers set_bufferPointers].
  erewrite zget_at by (by apply at_zupd_eq). cbn [mbind result_bind].
  rewrite zset_in by (by rewrite zlen_zupd). cbn [mbind result_bind]. by rewrite zupd_zupd.
Qed.

Lemma write_bufferRight_ok s i x rgt :
  at_ (bufferPointers s) i = Some x →
  write_bufferRight s i rgt =
  Ok (set_bufferPointers s (zupd (bufferPointers s) i (mkInterval (Interval.left x) rgt))).
Proof.
  intros Hx. unfold write_bufferRight, write_bufferPointers. rewrite (zget_at _ _ _ Hx).
  cbn [mbind result_bind]. by rewrite zset_in by (by eapply at_Some_bound).
Qed.

Lemma pushed_pointers s s' lo bs origin p :
  pushed s s' lo bs origin → pushed (set_bufferPointers s p) (set_bufferPointers s' p) lo bs origin.
Proof. intros [F]. split; try done. unfold fixed in *. simpl. congruence. Qed.

Lemma insertIntoBlockWithSplit_ok s (i : Z) e l rest ks pre es post range (out : Z) :
  at_ (pma s) i = Some e → represents e l rest → sorted l → MinSize ≤ zlen l →
  stale (keys l ++ ks) rest → keyOfValue zeroValue ∈ ks →
  sorted es → es ≠ [] → (∀ k, k ∈ keys es → k ∉ ks) →
  0 ≤ i < zlen (bufferPointers s) → wf (recountingNodesMap s) →
  0 ≤ Interval.left range + out →
  room s (Interval.left range + out) (Interval.right range) →
  Interval.left range + out + 2 * zlen es ≤ Interval.right range →
  ∃ s' bs, insertIntoBlockWithSplit s i (pre ++ es ++ post) (zlen pre) (zlen pre + zlen es) range out =
      Ok (s', zlen pre + zlen es, out + zlen bs) ∧
    pushed (prepared s i (mkInterval (Interval.left range + out) (Interval.left range + out + zlen bs)))
      s' (Interval.left range + out) bs i ∧
    elements bs = smerge l es ∧ Forall (λ x, good_size x.1) bs ∧ stales ks bs ∧ bs ≠ [] ∧
    zlen bs ≤ 2 * zlen es.
Proof.
  intros He Hr Hsl Hmin Hst Hz Hses Hne Hfr Hi Hwf Hlo Hroom Hspace.
  pose proof Hr as [(_&Hmax&_) _]. pose proof (zlen_nonneg rest) as Hrest.
  unfold insertIntoBlockWithSplit, getDenseWriteIndex.
  rewrite (zget_at _ _ _ He). cbn [mbind result_bind].
  pose proof (at_Some_bound _ _ _ He) as Hpi. unfold write_pma. rewrite zset_in by done.
  cbn [mbind result_bind]. rewrite (assertHead_ok _ _ _ Hr). cbn [mbind result_bind].
  set (lo := Interval.left range + out) in *.
  pose proof (write_bufferRange (set_pma s (zupd (pma s) i PmaEntry.null_entry)) i lo lo Hi) as Hptr.
  destruct (write_bufferLeft _ i lo) as [s1|]; [|done]. cbn [mbind result_bind] in Hptr |- *. rewrite Hptr.
  cbn [mbind result_bind]. set (s0 := prepared s i (mkInterval lo lo)).
  match goal with |- context [splitLoop _ _ _ _ (?x, _)] => change x with s0 end.
  assert (at_ (pma s0) i = Some PmaEntry.null_entry) as Hnull by (by apply at_zupd_eq).
  assert (zlen l ≤ MaxSize) as Hlmax by lia.
  assert (0 < zlen es) as Hes0 by (destruct es; [done|zlen]).
  pose proof MinSize_two. pose proof MaxSize_double.
  destruct (splitLoop_ok s0 range out i Hroom Hwf Hnull l rest ks pre es post e)
    as (s2&st&s3&bs&Hloop&Hidx&Hfin&Hp3&Hel&Hg&Hst'&Hbs); try done.
  { intros n Hn. assert (n ≤ 2 * zlen es) by nia. unfold lo in *. lia. }
  rewrite Hloop. cbn [mbind result_bind].
  destruct (writeToBufferArray s2 _ _ _ _) as [s4|]; [|done]. cbn [mbind result_bind] in Hfin |- *.
  rewrite Hfin. cbn [mbind result_bind].
  pose proof (pu_fixed _ _ _ _ _ Hp3) as Hf. unfold fixed in Hf.
  assert (bufferPointers s3 = bufferPointers s0) as Hbp by congruence.
  assert (at_ (bufferPointers s3) i = Some (mkInterval lo lo)) as Hat by (rewrite Hbp; by apply at_zupd_eq).
  rewrite (write_bufferRight_ok _ _ _ _ Hat). cbn [mbind result_bind Interval.left].
  replace (Interval.left range + (out + zlen bs - 1) + 1) with (lo + zlen bs) by (unfold lo; lia).
  set (s5 := set_bufferPointers s3 _).
  assert ((if NDEBUG then Ok tt else x ← zget (bufferPointers s5) i;
    AssertMsg ((0 <=? Interval.left x) && (Interval.left x <=? Interval.right x))) = Ok tt) as ->.
  { destruct NDEBUG eqn:?; [done|]. unfold s5. cbn [bufferPointers set_bufferPointers].
    erewrite zget_at by (apply at_zupd_eq; by eapply at_Some_bound). cbn [mbind result_bind Interval.left Interval.right].
    apply assert_ok. pose proof (zlen_nonneg bs). apply andb_true_intro. split; apply Z.leb_le; lia. }
  cbn [mbind result_bind]. rewrite Hidx.
  exists s5, bs. split; [done|]. split_and!; try done.
  - unfold s5. rewrite Hbp. unfold s0, prepared. cbn [bufferPointers set_bufferPointers set_pma].
    rewrite zupd_zupd. apply (pushed_pointers _ _ _ _ _ _ Hp3).
  - pose proof (blocks_bound bs Hg) as Hb. rewrite Hel in Hb. pose proof (length_smerge l es). nia.
Qed.

End split.
