(* ===== verification/SdsLayout.v ===== *)
(** * The layout of the batched sparse array

    [layout s gs]: entry [i] of the pma together with its range in the buffer array holds
    the blocks [gs !! i], first the block of the pma, then the buffer blocks.  Between two
    batches no entry has buffer blocks.  The contents of the array are the elements of all
    blocks in order. *)

From S2P Require Export SdsSplit.
Import BatchedSparseArray Insertion.

#[local] Abbreviation hd := SearchFacts.hd.

Section layout.
Context `{T : SdsTypes} `{C : BlockConfig}.
Context `{BC : !BlockConfigOk} `{HB : !HalfBlocks}.
Context `{R : RebalancingConfig} `{D : DensityManager}.
Context `{H : ConcurrentBucketMap.Hash} `{P : ThreadConfig}.
Implicit Types (s : Sds) (l rest batch : list ValueType) (bs : list (list ValueType * list ValueType)).
Implicit Types (gs : list (list (list ValueType * list ValueType))) (i j k : Z).

(** The block of the pma itself, if there is one. *)
Definition main_is (e : PmaEntry.PmaEntry) bs : Prop :=
  match bs with
  | [] => e = PmaEntry.null_entry
  | [x] => entry_is e x
  | _ => False
  end.

Definition buffered s (x : Interval) bs : Prop :=
  Interval.length x = zlen bs ∧
  ∀ j y, at_ bs j = Some y → ∃ e, at_ (bufferArray s) (Interval.left x + j) = Some e ∧ entry_is e y.

(** The blocks of entry [i]: [main] in the pma and [buf] in the buffer array. *)
Definition entry_parts s i main buf : Prop :=
  ∃ e x, at_ (pma s) i = Some e ∧ main_is e main ∧ at_ (bufferPointers s) i = Some x ∧ buffered s x buf.

Definition entry_blocks s i bs : Prop := ∃ main buf, bs = main ++ buf ∧ entry_parts s i main buf.

(** What holds of every block that belongs to the array. *)
Definition blocks_ok bs : Prop :=
  Forall (λ x, good_size x.1) bs ∧ sorted (elements bs) ∧ stales [keyOfValue zeroValue] bs ∧
  (NULL_KEY ∉ keys (elements bs)) ∧ (keyOfValue zeroValue ∉ keys (elements bs)).

Record layout s gs : Prop := {
  la_size : zlen gs = Z.max 1 (size s);
  la_nonneg : 0 ≤ size s;
  la_capacity : Z.max 1 (size s) ≤ capacity s;
  la_pma : zlen (pma s) = capacity s;
  la_pointers : zlen (bufferPointers s) = capacity s;
  la_entries : ∀ i bs, at_ gs i = Some bs → entry_blocks s i bs;
  la_tail : ∀ i, zlen gs ≤ i < capacity s →
    at_ (pma s) i = Some PmaEntry.null_entry ∧ at_ (bufferPointers s) i = Some Interval.empty;
  la_disjoint : ∀ i j x y c, i ≠ j → at_ (bufferPointers s) i = Some x →
    at_ (bufferPointers s) j = Some y → Interval.contains x c = true → Interval.contains y c = false;
  la_blocks : blocks_ok (concat gs);
}.

Lemma good_nonempty l : good_size l → l ≠ [].
Proof. intros [Hm _] ->. pose proof MinSize_two. zlen. Qed.

Lemma entry_is_nonempty e x : entry_is e x → PmaEntry.isEmpty e = false.
Proof. intros [Hh _]. unfold PmaEntry.isEmpty. by rewrite (holds_has_block _ _ _ Hh). Qed.

(** ** The heads of the pma *)

Lemma in_layout gs i bs x : at_ gs i = Some bs → x ∈ bs → x ∈ concat gs.
Proof. intros (Hi&Hb)%at_lookup Hx. apply list_elem_of_In, in_concat. exists bs. split; apply list_elem_of_In; [by eapply list_elem_of_lookup_2|done]. Qed.

Lemma elements_elem bs v : v ∈ elements bs ↔ ∃ x, x ∈ bs ∧ v ∈ x.1.
Proof. unfold elements. rewrite elem_of_concat. setoid_rewrite list_elem_of_fmap. naive_solver. Qed.

Lemma layout_main s gs i main buf :
  layout s gs → at_ gs i = Some (main ++ buf) → entry_parts s i main buf →
  match main with
  | [] => hd s i = NULL_KEY
  | x :: _ => ∃ v l, x.1 = v :: l ∧ hd s i = keyOfValue v ∧ keyOfValue v ≠ NULL_KEY
  end.
Proof.
  intros Hl Hi (e&x&He&Hm&_). unfold hd. simpl. rewrite He. simpl.
  destruct main as [|y [|? ?]]; [by simpl in Hm; subst e| |done]. destruct Hm as [_ Hh].
  pose proof (la_blocks s gs Hl) as (Hg&_&_&Hnull&_).
  assert (y ∈ concat gs) as Hy by (eapply in_layout; [exact Hi|apply elem_of_app; left; by left]).
  destruct y as [[|v l] rest]; simpl in *.
  - exfalso. rewrite Forall_forall in Hg. apply (good_nonempty _ (Hg _ Hy)). done.
  - exists v, l. split_and!; [done|done|]. intros Heq. apply Hnull. rewrite <-Heq.
    apply elem_of_keys. exists v. split; [|done]. apply elements_elem. exists (v :: l, rest).
    split; [done|by left].
Qed.

Lemma layout_in_bound s gs i : layout s gs → 0 ≤ i < size s → ∃ bs, at_ gs i = Some bs.
Proof. intros Hl Hi. apply at_in_bound. rewrite (la_size s gs Hl). lia. Qed.

Lemma layout_full s gs i :
  layout s gs → full s i ↔ 0 ≤ i < size s ∧
    ∃ v l rest buf, at_ gs i = Some ((v :: l, rest) :: buf) ∧
      entry_parts s i [(v :: l, rest)] buf ∧ hd s i = keyOfValue v.
Proof.
  intros Hl. unfold full. simpl. split; intros [Hi Hf]; (split; [done|]).
  - destruct (layout_in_bound s gs i Hl Hi) as [bs Hbs].
    destruct (la_entries s gs Hl i bs Hbs) as (main&buf&->&He).
    pose proof (layout_main s gs i main buf Hl Hbs He) as Hm.
    destruct main as [|[l0 rest] [|? ?]]; [done| |by destruct He as (?&?&?&?&_)].
    destruct Hm as (v&l&Heq&Hhd&_). simpl in Heq. subst l0. by exists v, l, rest, buf.
  - destruct Hf as (v&l&rest&buf&Hg&He&_).
    destruct (layout_main s gs i [(v :: l, rest)] buf Hl Hg He) as (v'&l'&Heq&->&?).
    done.
Qed.

Lemma concat_split gs i bs : at_ gs i = Some bs →
  ∃ g1 g2, gs = g1 ++ bs :: g2 ∧ zlen g1 = i ∧ concat gs = concat g1 ++ bs ++ concat g2.
Proof.
  intros Hi. destruct (at_split gs i bs Hi) as (g1&g2&->&Hlen). exists g1, g2.
  split_and!; [done|done|]. by rewrite concat_app.
Qed.

(** Elements of different entries are ordered. *)
Lemma entries_order gs i j bs bs' v w :
  sorted (elements (concat gs)) → at_ gs i = Some bs → at_ gs j = Some bs' → i < j →
  v ∈ elements bs → w ∈ elements bs' → keyOfValue v < keyOfValue w.
Proof.
  intros Hs Hi Hj Hij Hv Hw. destruct (concat_split gs i bs Hi) as (g1&g2&Hgs&Hlen&Hcc).
  rewrite Hcc, !elements_app, !sorted_app in Hs. destruct Hs as (_&(_&_&Hlt)&_). apply Hlt; [done|].
  rewrite Hgs, at_app_r, at_cons in Hj by lia. destruct (Z.eqb_spec (j - zlen g1) 0); [lia|].
  apply elements_elem in Hw as (x&Hx&Hw). apply elements_elem. exists x. split; [|done].
  by eapply in_layout.
Qed.

(** The entries whose state [empty] reports. *)
Lemma layout_empty s gs i :
  layout s gs → 0 ≤ i < size s → empty s i = Ok (hd s i =? NULL_KEY).
Proof.
  intros Hl Hi. unfold empty. destruct (Z.leb_spec (size s) i); [lia|].
  destruct (layout_in_bound s gs i Hl Hi) as [bs Hbs].
  destruct (la_entries s gs Hl i bs Hbs) as (main&buf&->&He).
  pose proof (layout_main s gs i main buf Hl Hbs He) as Hm.
  pose proof (la_blocks s gs Hl) as (Hg&_). pose proof MinSize_two.
  destruct He as (e&x&Hat&Hmain&_). unfold hd in *. simpl in *. rewrite Hat in *. simpl in *.
  rewrite (zget_at _ _ _ Hat). cbn [mbind result_bind].
  destruct main as [|y [|? ?]]; [|..|done].
  - simpl in Hmain. subst e. simpl. by rewrite Z.eqb_refl, !(assert_ok (Bool.eqb true true)).
  - destruct Hm as (v&l&Hy&Hhd&Hnn). rewrite Hhd.
    replace (keyOfValue v =? NULL_KEY) with false by (symmetry; by apply Z.eqb_neq).
    rewrite (entry_is_nonempty _ _ Hmain). rewrite (assert_ok (Bool.eqb false false)) by done.
    cbn [mbind result_bind]. destruct Hmain as [(_&_&->) _]. rewrite Hy.
    replace (zlen (v :: l) =? 0) with false by (symmetry; apply Z.eqb_neq; zlen).
    by rewrite assert_ok.
Qed.

Lemma layout_array_ok s gs : layout s gs → array_ok s.
Proof.
  intros Hl. pose proof (la_nonneg s gs Hl). pose proof (la_capacity s gs Hl). split.
  - simpl. rewrite (la_pma s gs Hl). lia.
  - intros i Hi. by apply (layout_empty s gs).
  - simpl. unfold empty. by rewrite Z.leb_refl.
  - intros i j (_&v&l&r&b&Hgi&_&->)%(layout_full s gs i Hl) (_&v'&l'&r'&b'&Hgj&_&->)%(layout_full s gs j Hl) Hij.
    pose proof (la_blocks s gs Hl) as (_&Hs&_).
    apply (entries_order gs i j _ _ _ _ Hs Hgi Hgj Hij);
      apply elements_elem; eexists; (split; [by left|]); by left.
Qed.

(** ** Replacing the blocks of one entry *)

Lemma contains_bounds (x : Interval) c : Interval.contains x c = true ↔ Interval.left x ≤ c < Interval.right x.
Proof. unfold Interval.contains. rewrite andb_true_iff, Z.leb_le, Z.ltb_lt. done. Qed.

Lemma buffered_not_free s x bs c : buffered s x bs → Interval.left x ≤ c < Interval.right x → ¬ free s c.
Proof.
  intros [Hlen Hb] Hc (old&Ho&He). unfold Interval.length in Hlen.
  destruct (at_in_bound bs (c - Interval.left x)) as [y Hy]; [lia|].
  destruct (Hb _ _ Hy) as (e&He'&Hy'). replace (Interval.left x + (c - Interval.left x)) with c in He' by lia.
  rewrite Ho in He'. injection He' as <-. by rewrite (entry_is_nonempty _ _ Hy') in He.
Qed.

Lemma buffered_pushed s s' lo bs origin x buf :
  pushed s s' lo bs origin → (∀ c, lo ≤ c < lo + zlen bs → free s c) →
  buffered s x buf → buffered s' x buf.
Proof.
  intros Hp Hfree Hb. pose proof Hb as [Hlen Hbuf]. split; [done|]. intros j y Hj.
  destruct (Hbuf j y Hj) as (e&He&Hy). exists e. split; [|done].
  rewrite (pu_other _ _ _ _ _ Hp); [done|].
  pose proof (at_Some_bound _ _ _ Hj). unfold Interval.length in Hlen.
  destruct (decide (Interval.left x + j < lo)); [by left|right].
  destruct (decide (lo + zlen bs ≤ Interval.left x + j)); [done|]. exfalso.
  apply (buffered_not_free s x buf (Interval.left x + j) Hb); [lia|]. apply Hfree. lia.
Qed.

Lemma zupd_split {A} (l1 l2 : list A) x y i : zlen l1 = i → zupd (l1 ++ x :: l2) i y = l1 ++ y :: l2.
Proof. intros <-. apply zupd_middle. Qed.

Lemma concat_zupd gs i bs bs' g1 g2 :
  gs = g1 ++ bs :: g2 → zlen g1 = i → concat (zupd gs i bs') = concat g1 ++ bs' ++ concat g2.
Proof. intros -> Hi. rewrite (zupd_split _ _ _ _ _ Hi). by rewrite concat_app. Qed.

(** The blocks of one entry change from [bs] to [bs'], everything else stays. *)
Lemma layout_step s s' gs i bs bs' x' :
  layout s gs → at_ gs i = Some bs →
  size s' = size s → capacity s' = capacity s → zlen (pma s') = zlen (pma s) →
  zlen (bufferPointers s') = zlen (bufferPointers s) →
  (∀ j, j ≠ i → at_ (pma s') j = at_ (pma s) j) →
  (∀ j, j ≠ i → at_ (bufferPointers s') j = at_ (bufferPointers s) j) →
  (∀ j main buf, j ≠ i → entry_parts s j main buf → entry_parts s' j main buf) →
  entry_blocks s' i bs' → at_ (bufferPointers s') i = Some x' →
  (at_ (bufferPointers s) i = Some x' ∨ ∀ c, Interval.left x' ≤ c < Interval.right x' → free s c) →
  blocks_ok (concat (zupd gs i bs')) →
  layout s' (zupd gs i bs').
Proof.
  intros [Hsz Hnn Hcap Hpma Hptr Hent Htail Hdis Hok] Hi Esz Ecap Epma Eptr Hpo Hpto Hkeep Hnew Hx' Hfree Hok'.
  pose proof (at_Some_bound _ _ _ Hi) as Hib. split; try done; rewrite ?zlen_zupd, ?Esz, ?Ecap, ?Epma, ?Eptr; try done.
  - intros j b Hj. destruct (decide (j = i)) as [->|Hne].
    + rewrite at_zupd_eq in Hj by done. by injection Hj as <-.
    + rewrite at_zupd_ne in Hj by (done || lia). destruct (Hent j b Hj) as (main&buf&->&He).
      exists main, buf. split; [done|]. by apply Hkeep.
  - intros j Hj. rewrite Hpo, Hpto by lia. by apply Htail.
  - assert (∀ j y c, j ≠ i → at_ (bufferPointers s) j = Some y → Interval.contains y c = true → ¬ free s c) as Hnf.
    { intros j y c Hj Hy Hc. apply contains_bounds in Hc. pose proof (at_Some_bound _ _ _ Hy).
      destruct (decide (j < zlen gs)) as [Hlt|].
      - destruct (at_in_bound gs j) as [b Hb]; [lia|].
        destruct (Hent j b Hb) as (main&buf&->&(e&y'&_&_&Hy'&Hbuf)).
        assert (y' = y) as -> by congruence. by apply (buffered_not_free s y buf c).
      - destruct (Htail j) as [_ Hye]; [lia|]. rewrite Hy in Hye. injection Hye as ->. simpl in Hc. lia. }
    intros j k y z c Hjk Hy Hz Hc. apply not_true_is_false. intros Hc'.
    destruct (decide (j = i)) as [->|Hji].
    + assert (y = x') as -> by congruence. rewrite Hpto in Hz by done.
      destruct Hfree as [Hold|Hfree].
      * by rewrite (Hdis i k x' z c Hjk Hold Hz Hc) in Hc'.
      * apply (Hnf k z c); [done|done|done|]. apply Hfree. by apply contains_bounds.
    + rewrite Hpto in Hy by done. destruct (decide (k = i)) as [->|Hki].
      * assert (z = x') as -> by congruence. destruct Hfree as [Hold|Hfree].
        -- by rewrite (Hdis j i y x' c Hjk Hy Hold Hc) in Hc'.
        -- apply (Hnf j y c); [done|done|done|]. apply Hfree. by apply contains_bounds.
      * rewrite Hpto in Hz by done. by rewrite (Hdis j k y z c Hjk Hy Hz Hc) in Hc'.
Qed.

(** New elements in the blocks [bs]. *)
Lemma blocks_ok_replace b1 bs bs' b3 es :
  blocks_ok (b1 ++ bs ++ b3) → elements bs' = smerge (elements bs) es →
  Forall (λ x, good_size x.1) bs' → stales (keys (elements b3) ++ [keyOfValue zeroValue]) bs' →
  (∀ k, k ∈ keys es → below (elements b1) k ∧ above k (elements b3)) →
  (NULL_KEY ∉ keys es) → (keyOfValue zeroValue ∉ keys es) →
  blocks_ok (b1 ++ bs' ++ b3) ∧
  elements (b1 ++ bs' ++ b3) = smerge (elements (b1 ++ bs ++ b3)) es.
Proof.
  intros (Hg&Hs&Hst&Hn&Hz) Hel Hg' Hst' Hes Hne Hze.
  assert (elements (b1 ++ bs' ++ b3) = smerge (elements (b1 ++ bs ++ b3)) es) as Heq.
  { rewrite !elements_app, Hel. rewrite smerge_app_r by (intros k Hk; by apply Hes).
    by rewrite smerge_app_l by (intros k Hk; by apply Hes). }
  split; [|done]. split_and!.
  - rewrite !Forall_app in *. tauto.
  - rewrite Heq. by apply sorted_smerge.
  - rewrite !stales_app in *. destruct Hst as (H1&H2&H3). split_and!; [|done|done].
    eapply stales_mono; [exact H1|]. intros k. rewrite !elements_app, !keys_app, !elem_of_app, Hel, keys_smerge. tauto.
  - rewrite Heq, keys_smerge. tauto.
  - rewrite Heq, keys_smerge. tauto.
Qed.

End layout.
