(* ===== verification/SdsRange.v ===== *)
(** * Inserting a range of a batch into the blocks of a task

    [insertBatchRange] on a range of pma entries without buffer blocks: every batch element
    goes to its block, so that the contents of the array become the old contents merged
    with the batch range. *)

From S2P Require Export SdsLayout.
Import BatchedSparseArray Insertion.

#[local] Abbreviation hd := SearchFacts.hd.

Section range.
Context `{T : SdsTypes} `{C : BlockConfig}.
Context `{BC : !BlockConfigOk} `{HB : !HalfBlocks}.
Context `{R : RebalancingConfig} `{D : DensityManager}.
Context `{H : ConcurrentBucketMap.Hash} `{P : ThreadConfig}.
Implicit Types (s : Sds) (l rest batch : list ValueType) (bs : list (list ValueType * list ValueType)).
Implicit Types (gs : list (list (list ValueType * list ValueType))) (i j k : Z).

Definition unbuffered s i : Prop := ∃ x, at_ (bufferPointers s) i = Some x ∧ Interval.length x = 0.

Definition buffer_blocks (ps : list Interval) : Z := foldr Z.add 0 (Interval.length <$> ps).

Lemma buffer_blocks_zupd ps i x y :
  at_ ps i = Some x → buffer_blocks (zupd ps i y) = buffer_blocks ps - Interval.length x + Interval.length y.
Proof.
  intros (l1&l2&->&Hi)%at_split. rewrite (zupd_split _ _ _ _ _ Hi). unfold buffer_blocks.
  rewrite !fmap_app, !foldr_app. simpl. 
  assert (∀ a b (m : list Z), foldr Z.add (a + b) m = a + foldr Z.add b m) as Hadd.
  { intros a b m. induction m as [|c m IH]; simpl; [done|]. rewrite IH. lia. }
  rewrite !Hadd. lia.
Qed.

(** What insertions into the array leave alone. *)
Definition insert_fixed s := (capacity s, swapCapacity s, bufferCapacity s, size s, swapPma s,
  (rebalancingManager s, rebalancingNodes s, rebalancingTasks s),
  prefixNumberOfRebalancingBlocks s, tasks s, numberOfThreads s, bufferReads s).

(** The node of level 0 that counts entry [i]. *)
Definition node i : Z := BinaryRebalancingManager.lowestLevelNodeIndex i.

(** Between [s] and [s'], [n] blocks were written to the buffer array from [lo] on. *)
Record inserted s s' (lo n : Z) : Prop := {
  in_fixed : insert_fixed s' = insert_fixed s;
  in_nonneg : 0 ≤ n;
  in_length : zlen (bufferArray s') = zlen (bufferArray s);
  in_other : ∀ c, c < lo ∨ lo + n ≤ c → at_ (bufferArray s') c = at_ (bufferArray s) c;
  in_map : wf (recountingNodesMap s) → wf (recountingNodesMap s');
  in_old_marks : wf (recountingNodesMap s) → ∀ x, contents (recountingNodesMap s) !! x = Some true →
    contents (recountingNodesMap s') !! x = Some true;
  in_new_keys : wf (recountingNodesMap s) → ∀ x, is_Some (contents (recountingNodesMap s') !! x) →
    is_Some (contents (recountingNodesMap s) !! x) ∨ ∃ i, 0 ≤ i < zlen (pma s) ∧ x = node i;
  in_marked : wf (recountingNodesMap s) → ∀ i x, at_ (bufferPointers s') i = Some x →
    Interval.length x ≠ 0 →
    at_ (bufferPointers s) i = Some x ∨ contents (recountingNodesMap s') !! node i = Some true;
  in_blocks : buffer_blocks (bufferPointers s') = buffer_blocks (bufferPointers s) + n;
  in_writes : bufferWrites s' = bufferWrites s + (if NDEBUG then 0 else n);
  in_pma : zlen (pma s') = zlen (pma s);
  in_kept : ∀ i x, at_ (bufferPointers s) i = Some x → Interval.length x ≠ 0 → at_ (bufferPointers s') i = Some x;
  in_cells : ∀ c, lo ≤ c < lo + n → ∃ i x, at_ (bufferPointers s') i = Some x ∧ Interval.contains x c = true;
  in_same : wf (recountingNodesMap s) → ∀ i,
    (at_ (bufferPointers s') i = at_ (bufferPointers s) i ∧
     PmaEntry.isEmpty <$> at_ (pma s') i = PmaEntry.isEmpty <$> at_ (pma s) i) ∨
    contents (recountingNodesMap s') !! node i = Some true;
  in_origin : wf (recountingNodesMap s) → ∀ x,
    contents (recountingNodesMap s') !! x = contents (recountingNodesMap s) !! x ∨
    ∃ i y, x = node i ∧ at_ (bufferPointers s') i = Some y ∧ Interval.length y ≠ 0;
}.

Lemma inserted_refl s lo : inserted s s lo 0.
Proof. split; try done; try lia; auto. destruct NDEBUG; lia. Qed.

Lemma contains_length (x : Interval) c : Interval.contains x c = true → Interval.length x ≠ 0.
Proof. intros ?%contains_bounds. unfold Interval.length. lia. Qed.

Lemma inserted_trans s s1 s2 lo n1 n2 :
  inserted s s1 lo n1 → inserted s1 s2 (lo + n1) n2 → inserted s s2 lo (n1 + n2).
Proof.
  intros [F1 N1 L1 O1 M1 K1 W1 G1 B1 D1 P1 E1 C1 S1 R1] [F2 N2 L2 O2 M2 K2 W2 G2 B2 D2 P2 E2 C2 S2 R2]. split.
  - congruence.
  - lia.
  - congruence.
  - intros c Hc. rewrite O2, O1 by lia. done.
  - auto.
  - auto.
  - intros Hwf x Hx. destruct (W2 (M1 Hwf) x Hx) as [?|(i&Hi&->)]; [auto|].
    right. exists i. rewrite <-P1. done.
  - intros Hwf i x Hx Hne. destruct (G2 (M1 Hwf) i x Hx Hne) as [Hx1|?]; [|by right].
    destruct (G1 Hwf i x Hx1 Hne) as [?|?]; [by left|right]. auto.
  - lia.
  - rewrite D2, D1. destruct NDEBUG; lia.
  - congruence.
  - auto.
  - intros c Hc. destruct (decide (c < lo + n1)); [|apply C2; lia]. destruct (C1 c) as (i&x&Hx&Hin); [lia|].
    exists i, x. split; [|done]. apply E2; [done|]. by eapply contains_length.
  - intros Hwf i. destruct (S2 (M1 Hwf) i) as [[H1 H2]|?]; [|by right]. destruct (S1 Hwf i) as [[H3 H4]|?].
    + left. split; congruence.
    + right. auto.
  - intros Hwf x. destruct (R2 (M1 Hwf) x) as [H1|?]; [|by right]. destruct (R1 Hwf x) as [H2|(i&y&?&?&?)].
    + left. congruence.
    + right. exists i, y. auto.
Qed.

Lemma room_inserted s s' lo n hi : inserted s s' lo n → room s lo hi → room s' (lo + n) hi.
Proof.
  intros Hin [Hcap Hfree]. pose proof (in_fixed _ _ _ _ Hin) as F. unfold insert_fixed in F.
  pose proof (in_nonneg _ _ _ _ Hin). split; [congruence|]. intros c Hc.
  destruct (Hfree c) as (old&Ho&He); [lia|]. exists old. by rewrite (in_other _ _ _ _ Hin) by lia.
Qed.

(** ** One block *)

Lemma findLast_ok s pre es post (batchRange pmaRange : Interval) k :
  Interval.right batchRange = zlen pre + zlen es → sorted es →
  (k ≠ Interval.right pmaRange → full s k ∧ 0 ≤ k < zlen (pma s)) →
  ∃ c1 c2, es = c1 ++ c2 ∧
    findLastBatchElementForBlock s (pre ++ es ++ post) (zlen pre) batchRange k pmaRange =
      Ok (zlen pre + zlen c1) ∧
    (k = Interval.right pmaRange → c2 = []) ∧
    (k ≠ Interval.right pmaRange → below c1 (hd s k) ∧ above (hd s k - 1) c2).
Proof.
  intros Hright Hs Hk. unfold findLastBatchElementForBlock. rewrite Hright.
  destruct (Z.eqb_spec k (Interval.right pmaRange)) as [->|Hne].
  - exists es, []. rewrite app_nil_r. done.
  - destruct (Hk Hne) as [_ Hkb]. destruct (at_in_bound _ _ Hkb) as [b Hb].
    assert (head s k = Ok (hd s k)) as Hhead.
    { unfold head, hd. simpl. rewrite (zget_at _ _ _ Hb), Hb. done. }
    destruct (split_at_key es (hd s k) Hs) as (c1&c2&->&Hc1&Hc2).
    exists c1, c2. split; [done|]. split; [|done].
    replace (Z.to_nat (zlen pre + zlen (c1 ++ c2) - zlen pre)) with (length (c1 ++ c2)) by (unfold zlen; lia).
    by apply scan_batch with (hd s k).
Qed.

(** [zupd] at a split list, for [layout_step]. *)
Lemma layout_step_split s s' g1 bs g2 bs' x' :
  layout s (g1 ++ bs :: g2) →
  size s' = size s → capacity s' = capacity s → zlen (pma s') = zlen (pma s) →
  zlen (bufferPointers s') = zlen (bufferPointers s) →
  (∀ j, j ≠ zlen g1 → at_ (pma s') j = at_ (pma s) j) →
  (∀ j, j ≠ zlen g1 → at_ (bufferPointers s') j = at_ (bufferPointers s) j) →
  (∀ j main buf, j ≠ zlen g1 → entry_parts s j main buf → entry_parts s' j main buf) →
  entry_blocks s' (zlen g1) bs' → at_ (bufferPointers s') (zlen g1) = Some x' →
  (at_ (bufferPointers s) (zlen g1) = Some x' ∨ ∀ c, Interval.left x' ≤ c < Interval.right x' → free s c) →
  blocks_ok (concat g1 ++ bs' ++ concat g2) →
  layout s' (g1 ++ bs' :: g2).
Proof.
  intros Hl. pose proof (at_middle g1 g2 bs) as Hi. intros. rewrite <-(zupd_middle g1 g2 bs bs').
  eapply layout_step; try done. rewrite zupd_middle, concat_app. done.
Qed.

(** The block of an entry without buffer blocks. *)
Lemma unbuffered_entry s gs k b bs : layout s gs → at_ gs k = Some (b :: bs) → unbuffered s k →
  bs = [] ∧ ∃ e x, at_ (pma s) k = Some e ∧ entry_is e b ∧ at_ (bufferPointers s) k = Some x ∧ Interval.length x = 0.
Proof.
  intros Hl Hk (x&Hx&Hlen). destruct (la_entries _ _ Hl _ _ Hk) as (main&buf&Hparts&e&x'&He&Hm&Hx'&Hb&_).
  assert (x' = x) as -> by congruence. assert (buf = []) as -> by (destruct buf; [done|zlen]).
  rewrite app_nil_r in Hparts. subst main. destruct bs as [|b' bs]; [|by destruct Hm]. split; [done|]. by exists e, x.
Qed.

(** The keys that the cells behind a block may carry. *)
Definition behind_keys (g2 : list (list (list ValueType * list ValueType))) : list Z :=
  keys (elements (concat g2)) ++ [keyOfValue zeroValue].

Lemma stored_block s g1 l rest g2 : layout s (g1 ++ [(l, rest)] :: g2) →
  blocks_ok (concat g1 ++ [(l, rest)] ++ concat g2) ∧ sorted l ∧ good_size l ∧ stale (keys l ++ behind_keys g2) rest.
Proof.
  intros Hl. pose proof (la_blocks _ _ Hl) as Hok. rewrite concat_app in Hok. cbn [concat] in Hok. split; [done|].
  destruct Hok as (Hg&Hs&Hst&_). rewrite !elements_app, !sorted_app, elements_single in Hs. destruct Hs as (_&(Hsl&_)&_).
  apply Forall_app in Hg as [_ Hg]. apply Forall_cons in Hg as [Hg _]. split; [done|]. split; [done|].
  rewrite !stales_app in Hst. by destruct Hst as (_&[Hst _]&_).
Qed.

Lemma not_behind c1 g2 : keyOfValue zeroValue ∉ keys c1 → (∀ x, x ∈ keys c1 → above x (elements (concat g2))) →
  ∀ y, y ∈ keys c1 → y ∉ behind_keys g2.
Proof.
  intros Hzero Hord y Hy. unfold behind_keys. rewrite elem_of_app, list_elem_of_singleton. intros [Hin| ->]; [|done].
  by apply (above_not_in _ _ (Hord y Hy)) in Hin.
Qed.

Lemma set_block_layout s g1 b g2 b' e e' x :
  layout s (g1 ++ [b] :: g2) → at_ (pma s) (zlen g1) = Some e → entry_is e' b' →
  at_ (bufferPointers s) (zlen g1) = Some x → Interval.length x = 0 → blocks_ok (concat g1 ++ [b'] ++ concat g2) →
  layout (set_pma s (zupd (pma s) (zlen g1) e')) (g1 ++ [b'] :: g2).
Proof.
  intros Hl He He' Hx Hlen Hok. pose proof (at_Some_bound _ _ _ He) as Hpb.
  apply (layout_step_split s _ _ [b] _ _ x); try done.
  - apply zlen_zupd.
  - intros j Hj. simpl. by apply at_zupd_ne; [lia|].
  - intros j main buf Hj (e0&x0&He0&?&?&?). exists e0, x0. split_and!; try done.
    simpl. by rewrite at_zupd_ne by (done || lia).
  - exists [b'], []. split; [done|]. exists e', x. split_and!; try done.
    + simpl. by apply at_zupd_eq.
    + split; [done|]. intros j y Hj. by apply at_Some_bound in Hj; zlen.
  - by left.
Qed.

Lemma set_block_inserted s k e e' lo : at_ (pma s) k = Some e → PmaEntry.isEmpty e' = PmaEntry.isEmpty e →
  inserted s (set_pma s (zupd (pma s) k e')) lo 0.
Proof.
  intros He Hempty. pose proof (at_Some_bound _ _ _ He) as Hpb.
  split; try done; try lia; auto; cbn [bufferPointers set_pma bufferWrites pma].
  - lia.
  - destruct NDEBUG; lia.
  - apply zlen_zupd.
  - intros _ j. left. split; [done|]. destruct (decide (j = k)) as [->|]; [|by rewrite at_zupd_ne by (done || lia)].
    rewrite at_zupd_eq, He by done. simpl. by rewrite Hempty.
Qed.

(** The pma block of entry [k] takes the elements in place. *)
Lemma insert_in_place s g1 l rest g2 pre c1 post lo :
  layout s (g1 ++ [(l, rest)] :: g2) → unbuffered s (zlen g1) → c1 ≠ [] → sorted c1 →
  zlen l + zlen c1 ≤ MaxSize → (NULL_KEY ∉ keys c1) → (keyOfValue zeroValue ∉ keys c1) →
  (∀ x, x ∈ keys c1 → below (elements (concat g1)) x ∧ above x (elements (concat g2))) →
  ∃ s' bs', insertIntoBlockWithoutSplit s (zlen g1) (pre ++ c1 ++ post) (zlen pre) (zlen pre + zlen c1) =
      Ok (s', zlen pre + zlen c1) ∧
    layout s' (g1 ++ bs' :: g2) ∧
    elements (concat (g1 ++ bs' :: g2)) = smerge (elements (concat (g1 ++ [(l, rest)] :: g2))) c1 ∧
    inserted s s' lo 0 ∧ bufferPointers s' = bufferPointers s.
Proof.
  intros Hl Hun Hne Hs Hfit Hnull Hzero Hord.
  destruct (unbuffered_entry _ _ _ _ _ Hl (at_middle g1 g2 _) Hun) as (_&e&x&He&Hm&Hx&Hlen).
  destruct (stored_block _ _ _ _ _ Hl) as (Hok&Hsl&[Hmin _]&Hst). pose proof Hm as Hr. cbn [entry_is fst snd] in Hr.
  assert (∀ y, y ∈ keys c1 → y ∉ behind_keys g2) as Hfr by (apply not_behind; [done|apply Hord]).
  destruct (merge_ok e l rest pre c1 post Hr Hsl (sorted_nondecreasing _ Hs) Hne Hfit
    (stale_fresh _ _ _ _ Hst Hfr)) as (e'&used&rest'&Hmerge&Hr'&Hrest&_).
  pose proof (at_Some_bound _ _ _ He) as Hpb. pose proof MinSize_two. pose proof MaxSize_u16.
  assert (blocks_ok (concat g1 ++ [(smerge l c1, rest')] ++ concat g2) ∧
    elements (concat g1 ++ [(smerge l c1, rest')] ++ concat g2) =
    smerge (elements (concat g1 ++ [(l, rest)] ++ concat g2)) c1) as [Hok' Hel'].
  { apply (blocks_ok_replace _ [(l, rest)]); try done.
    - by rewrite !elements_single.
    - apply Forall_singleton. pose proof (length_smerge l c1). split; simpl in *; lia.
    - split; [|done]. change (elements []) with (@nil ValueType). rewrite keys_nil.
      eapply stale_sub; [apply stale_smerge; exact Hst|]. intros v Hv. rewrite Hrest. apply elem_of_app. by right. }
  exists (set_pma s (zupd (pma s) (zlen g1) e')), [(smerge l c1, rest')]. split_and!.
  - unfold insertIntoBlockWithoutSplit. rewrite (zget_at _ _ _ He). cbn [mbind result_bind].
    replace (zlen pre + zlen c1 - zlen pre) with (zlen c1) by lia. rewrite u16_small by zlen.
    rewrite Hmerge. cbn [mbind result_bind]. unfold write_pma. rewrite zset_in by done. done.
  - by apply (set_block_layout s g1 (l, rest) g2 (smerge l c1, rest') e e' x).
  - rewrite !concat_app. exact Hel'.
  - apply (set_block_inserted s _ e); [done|].
    by rewrite (entry_is_nonempty e' (smerge l c1, rest')), (entry_is_nonempty e (l, rest)).
  - done.
Qed.

(** The states before and after [bs'] was written on behalf of entry [k], which had [x]. *)
Section pushed.
Context (s s' : Sds) (lo k : Z) (bs' : list (list ValueType * list ValueType)) (e : PmaEntry.PmaEntry) (x : Interval).
Let x' := mkInterval lo (lo + zlen bs').
Hypothesis (Hp : pushed (prepared s k x') s' lo bs' k) (Hne : bs' ≠ []).
Hypothesis (He : at_ (pma s) k = Some e) (Hx : at_ (bufferPointers s) k = Some x) (Hlen : Interval.length x = 0).

Lemma pushed_frame : insert_fixed s' = insert_fixed s ∧
  bufferPointers s' = zupd (bufferPointers s) k x' ∧ pma s' = zupd (pma s) k PmaEntry.null_entry.
Proof.
  pose proof (pu_fixed _ _ _ _ _ Hp) as F. unfold fixed, prepared in F. simpl in F. unfold insert_fixed. split_and!; congruence.
Qed.

Lemma pushed_length : 0 < Interval.length x' ∧ Interval.length x' = zlen bs'.
Proof. unfold Interval.length, x'. simpl. destruct bs'; [done|zlen]. Qed.

Lemma part_pushed_layout g1 b g2 : layout s (g1 ++ [b] :: g2) → k = zlen g1 →
  (∀ c, lo ≤ c < lo + zlen bs' → free s c) → blocks_ok (concat g1 ++ bs' ++ concat g2) → layout s' (g1 ++ bs' :: g2).
Proof.
  destruct pushed_frame as (F&Eptr&Epma). pose proof pushed_length as [_ Hlen']. intros Hl -> Hfree Hok. unfold insert_fixed in F.
  pose proof (at_Some_bound _ _ _ He) as Hpb. pose proof (at_Some_bound _ _ _ Hx) as Hxb.
  apply (layout_step_split s s' _ [b] _ _ x'); try done.
  - congruence.
  - congruence.
  - by rewrite Epma, zlen_zupd.
  - by rewrite Eptr, zlen_zupd.
  - intros j Hj. rewrite Epma. by apply at_zupd_ne; [lia|].
  - intros j Hj. rewrite Eptr. by apply at_zupd_ne; [lia|].
  - intros j main buf Hj (e0&x0&He0&?&?&?). exists e0, x0. split_and!; [|done| |].
    + by rewrite Epma, at_zupd_ne by (done || lia).
    + by rewrite Eptr, at_zupd_ne by (done || lia).
    + eapply buffered_pushed; [exact Hp|exact Hfree|done].
  - exists [], bs'. split; [done|]. exists PmaEntry.null_entry, x'. split_and!; [|done| |].
    + rewrite Epma. by apply at_zupd_eq.
    + rewrite Eptr. by apply at_zupd_eq.
    + split; [by rewrite Hlen'|]. intros j y Hj. apply (pu_blocks _ _ _ _ _ Hp _ _ Hj).
  - rewrite Eptr. by apply at_zupd_eq.
  - right. intros c Hc. apply Hfree. simpl in Hc. lia.
Qed.

Lemma part_pushed_inserted : wf (recountingNodesMap s) → inserted s s' lo (zlen bs').
Proof.
  intros Hwf. destruct pushed_frame as (F&Eptr&Epma). destruct pushed_length as [Hpos Hl'].
  pose proof (at_Some_bound _ _ _ He) as Hpb. pose proof (at_Some_bound _ _ _ Hx) as Hxb.
  assert (∀ y, contents (recountingNodesMap s') !! y = spec_insert (contents (recountingNodesMap s)) (node k) true !! y) as Ec.
  { intros y. rewrite (pu_contents _ _ _ _ _ Hp) by done. by destruct bs'. }
  assert (contents (recountingNodesMap s') !! node k = Some true) as Emark.
  { rewrite Ec, spec_insert_lookup. by rewrite decide_True. }
  assert (at_ (bufferPointers s') k = Some x') as Ex by (rewrite Eptr; by apply at_zupd_eq).
  assert (∀ j, j ≠ k → at_ (bufferPointers s') j = at_ (bufferPointers s) j ∧ at_ (pma s') j = at_ (pma s) j) as Eother.
  { intros j Hj. by rewrite Eptr, Epma, !at_zupd_ne by (done || lia). }
  split; try done; try lia.
  - exact (pu_length _ _ _ _ _ Hp).
  - intros c Hc. apply (pu_other _ _ _ _ _ Hp c Hc).
  - intros _. by apply (pu_map _ _ _ _ _ Hp).
  - intros _ y Hy. rewrite Ec, spec_insert_lookup. by destruct (decide _); simplify_eq.
  - intros _ y [v Hy]. rewrite Ec, spec_insert_lookup in Hy. destruct (decide (node k = y)) as [<-|].
    + right. by exists k.
    + left. by exists v.
  - intros _ j y Hy Hlny. destruct (decide (j = k)) as [->|Hj]; [by right|left]. by rewrite (proj1 (Eother j Hj)) in Hy.
  - rewrite Eptr, (buffer_blocks_zupd _ _ _ _ Hx). lia.
  - exact (pu_writes _ _ _ _ _ Hp).
  - by rewrite Epma, zlen_zupd.
  - intros j y Hy Hlny. destruct (decide (j = k)) as [->|Hj]; [congruence|]. by rewrite (proj1 (Eother j Hj)).
  - intros c Hc. exists k, x'. split; [done|]. apply contains_bounds. simpl. lia.
  - intros _ j. destruct (decide (j = k)) as [->|Hj]; [by right|left]. destruct (Eother j Hj) as [-> ->]. done.
  - intros _ y. rewrite Ec, spec_insert_lookup. destruct (decide (node k = y)) as [<-|]; [right|by left].
    exists k, x'. split_and!; [done|done|lia].
Qed.
End pushed.

(** A block without room: its blocks are in the buffer array afterwards. *)
Lemma insert_by_split s g1 l rest g2 pre c1 post bufferRange out :
  layout s (g1 ++ [(l, rest)] :: g2) → unbuffered s (zlen g1) → c1 ≠ [] → sorted c1 →
  (NULL_KEY ∉ keys c1) → (keyOfValue zeroValue ∉ keys c1) →
  (∀ x, x ∈ keys c1 → below (elements (concat g1)) x ∧ above x (elements (concat g2))) →
  wf (recountingNodesMap s) → 0 ≤ Interval.left bufferRange + out →
  room s (Interval.left bufferRange + out) (Interval.right bufferRange) →
  Interval.left bufferRange + out + 2 * zlen c1 ≤ Interval.right bufferRange →
  ∃ s' bs', insertIntoBlockWithSplit s (zlen g1) (pre ++ c1 ++ post) (zlen pre) (zlen pre + zlen c1)
      bufferRange out = Ok (s', zlen pre + zlen c1, out + zlen bs') ∧
    layout s' (g1 ++ bs' :: g2) ∧
    elements (concat (g1 ++ bs' :: g2)) = smerge (elements (concat (g1 ++ [(l, rest)] :: g2))) c1 ∧
    inserted s s' (Interval.left bufferRange + out) (zlen bs') ∧ zlen bs' ≤ 2 * zlen c1 ∧
    (∀ j, j ≠ zlen g1 → at_ (bufferPointers s') j = at_ (bufferPointers s) j).
Proof.
  intros Hl Hun Hne Hs Hnull Hzero Hord Hwf Hlo Hroom Hspace.
  destruct (unbuffered_entry _ _ _ _ _ Hl (at_middle g1 g2 _) Hun) as (_&e&x&He&Hm&Hx&Hlen).
  destruct (stored_block _ _ _ _ _ Hl) as (Hok&Hsl&[Hmin _]&Hst). pose proof Hm as Hr. cbn [entry_is fst snd] in Hr.
  assert (∀ y, y ∈ keys c1 → y ∉ behind_keys g2) as Hfr by (apply not_behind; [done|apply Hord]).
  destruct (insertIntoBlockWithSplit_ok s (zlen g1) e l rest (behind_keys g2) pre c1 post bufferRange out)
    as (s'&bs'&Hins&Hp&Hel&Hgood&Hstal&Hbne&Hcount); try done.
  { apply elem_of_app. right. by left. }
  { by eapply at_Some_bound. }
  assert (blocks_ok (concat g1 ++ bs' ++ concat g2) ∧
    elements (concat g1 ++ bs' ++ concat g2) =
    smerge (elements (concat g1 ++ [(l, rest)] ++ concat g2)) c1) as [Hok' Hel'].
  { apply (blocks_ok_replace _ [(l, rest)]); try done. by rewrite Hel, elements_single. }
  exists s', bs'. split_and!; [done| | | |done|].
  - apply (part_pushed_layout s s' (Interval.left bufferRange + out) (zlen g1) bs' e x Hp Hbne He Hx g1 (l, rest)); try done.
    intros c Hc. apply Hroom. lia.
  - rewrite !concat_app. exact Hel'.
  - by apply (part_pushed_inserted s s' _ (zlen g1) bs' e x).
  - intros j Hj. destruct (pushed_frame _ _ _ _ _ Hp) as (_&->&_). by apply at_zupd_ne; [apply zlen_nonneg|].
Qed.

(** Either way, with the elements found by [findLastBatchElementForBlock]. *)
Lemma insertElementsIntoBlock_ok s g1 l rest g2 pre c1 post next batchRange pmaRange bufferRange out :
  layout s (g1 ++ [(l, rest)] :: g2) → unbuffered s (zlen g1) → c1 ≠ [] → sorted c1 →
  (NULL_KEY ∉ keys c1) → (keyOfValue zeroValue ∉ keys c1) →
  (∀ x, x ∈ keys c1 → below (elements (concat g1)) x ∧ above x (elements (concat g2))) →
  wf (recountingNodesMap s) → 0 ≤ Interval.left bufferRange + out →
  room s (Interval.left bufferRange + out) (Interval.right bufferRange) →
  Interval.left bufferRange + out + 2 * zlen c1 ≤ Interval.right bufferRange →
  findLastBatchElementForBlock s (pre ++ c1 ++ post) (zlen pre) batchRange next pmaRange =
    Ok (zlen pre + zlen c1) →
  ∃ s' bs' n, insertElementsIntoBlock s (zlen g1) next pmaRange bufferRange (pre ++ c1 ++ post)
      (zlen pre) batchRange out = Ok (s', zlen pre + zlen c1, out + n) ∧
    layout s' (g1 ++ bs' :: g2) ∧
    elements (concat (g1 ++ bs' :: g2)) = smerge (elements (concat (g1 ++ [(l, rest)] :: g2))) c1 ∧
    inserted s s' (Interval.left bufferRange + out) n ∧ n ≤ 2 * zlen c1 ∧
    (∀ j, j ≠ zlen g1 → at_ (bufferPointers s') j = at_ (bufferPointers s) j).
Proof.
  intros Hl Hun Hne Hs Hnull Hzero Hord Hwf Hlo Hroom Hspace Hfind.
  assert (blockSize s (zlen g1) = Ok (zlen l)) as Hsize.
  { destruct (unbuffered_entry _ _ _ _ _ Hl (at_middle g1 g2 _) Hun) as (_&e&x&He&[(_&_&Hsz) _]&_).
    unfold blockSize. rewrite (zget_at _ _ _ He). simpl. by rewrite Hsz. }
  unfold insertElementsIntoBlock. rewrite Hfind. cbn [mbind result_bind].
  replace (zlen pre + zlen c1 - zlen pre) with (zlen c1) by lia.
  assert (0 < zlen c1) by (destruct c1; [done|zlen]).
  rewrite (assert_ok (0 <? zlen c1)) by (by apply Z.ltb_lt). cbn [mbind result_bind].
  rewrite Hsize. cbn [mbind result_bind]. destruct (Z.leb_spec (zlen l + zlen c1) MaxSize).
  - destruct (insert_in_place s g1 l rest g2 pre c1 post (Interval.left bufferRange + out))
      as (s'&bs'&->&Hl'&Hel&Hin&Hptr); try done.
    cbn [mbind result_bind]. exists s', bs', 0. rewrite Z.add_0_r. split_and!; try done; [lia|].
    intros j _. by rewrite Hptr.
  - destruct (insert_by_split s g1 l rest g2 pre c1 post bufferRange out)
      as (s'&bs'&->&Hl'&Hel&Hin&Hn&Hptr); try done.
    by exists s', bs', (zlen bs').
Qed.

(** ** The loop of [insertBatchRange] *)

Lemma full_block s gs k : layout s gs → full s k → unbuffered s k →
  ∃ g1 l rest g2, gs = g1 ++ [(l, rest)] :: g2 ∧ zlen g1 = k ∧ l ≠ [] ∧
    (∀ v, v ∈ l → hd s k ≤ keyOfValue v).
Proof.
  intros Hl Hf Hun. pose proof Hf as Hf'. apply (layout_full s gs k Hl) in Hf' as (_&v&l&rest&buf&Hk&_&Hhd).
  destruct (unbuffered_entry _ _ _ _ _ Hl Hk Hun) as [-> _].
  destruct (at_split _ _ _ Hk) as (g1&g2&->&Hg1). exists g1, (v :: l), rest, g2. split_and!; [done..|].
  pose proof (la_blocks _ _ Hl) as (_&Hs&_). rewrite concat_app in Hs. cbn [concat] in Hs.
  rewrite !elements_app, elements_single, !sorted_app in Hs. destruct Hs as (_&(Hsl&_&_)&_).
  apply sorted_cons in Hsl as [Ha _]. unfold above in Ha. rewrite Forall_forall in Ha.
  intros w [->|Hw]%elem_of_cons; [lia|]. specialize (Ha w Hw). lia.
Qed.

(** Elements of earlier entries are below the head of a full one, elements of later full
    ones are above. *)
Lemma before_head s g1 bs g2 : layout s (g1 ++ bs :: g2) → full s (zlen g1) →
  below (elements (concat g1)) (hd s (zlen g1)).
Proof.
  intros Hl Hf. apply (layout_full s _ _ Hl) in Hf as (_&v&l&rest&buf&Hk&_&->).
  rewrite at_middle in Hk. injection Hk as ->.
  pose proof (la_blocks _ _ Hl) as (_&Hs&_). rewrite concat_app in Hs. cbn [concat] in Hs.
  rewrite !elements_app, sorted_app in Hs. destruct Hs as (_&_&Hlt).
  apply Forall_forall. intros w Hw. apply Hlt; [done|]. rewrite elements_cons. cbn [fst]. by left.
Qed.

Lemma in_concat_elements gs v :
  v ∈ elements (concat gs) ↔ ∃ i bs, at_ gs i = Some bs ∧ v ∈ elements bs.
Proof.
  rewrite elements_elem. split.
  - intros (x&Hx&Hv). apply list_elem_of_In, in_concat in Hx as (bs&Hbs&Hx).
    apply list_elem_of_In, list_elem_of_lookup in Hbs as [i Hi]. rewrite <-at_nat in Hi.
    exists (Z.of_nat i), bs. split; [done|]. apply elements_elem. exists x.
    split; [by apply list_elem_of_In|done].
  - intros (i&bs&Hi&Hv). apply elements_elem in Hv as (x&Hx&Hv). exists x. split; [|done].
    by eapply in_layout.
Qed.

(** An entry that is not full and has no buffer blocks has no elements. *)
Lemma not_full_empty s gs k bs :
  layout s gs → at_ gs k = Some bs → 0 ≤ k < size s → unbuffered s k → ¬ full s k → bs = [].
Proof.
  intros Hl Hk Hks (x&Hx&Hlen) Hnf. destruct (la_entries _ _ Hl _ _ Hk) as (main&buf&->&Hparts).
  pose proof (layout_main s gs k main buf Hl Hk Hparts) as Hm.
  destruct Hparts as (e&x'&He&Hmain&Hx'&[Hb _]). assert (x' = x) as -> by congruence.
  assert (buf = []) as -> by (destruct buf; [done|zlen]).
  destruct main as [|y main]; [done|]. exfalso. destruct Hm as (v&l&_&Hhd&Hne). apply Hnf.
  split; [done|]. by rewrite Hhd.
Qed.

(** The elements of the entries behind [k] exceed the batch elements for block [k]. *)
Lemma behind_next s g1 bs g2 c1 next up :
  layout s (g1 ++ bs :: g2) → zlen g1 < next ≤ up → up ≤ size s →
  none_full s (zlen g1 + 1) next → (∀ j, zlen g1 < j < up → unbuffered s j) →
  (next < up → full s next ∧ below c1 (hd s next)) →
  (∀ j b, up ≤ j → at_ (g1 ++ bs :: g2) j = Some b → ∀ x, x ∈ keys c1 → above x (elements b)) →
  ∀ x, x ∈ keys c1 → above x (elements (concat g2)).
Proof.
  intros Hl Hnext Hup Hnone Hun Hfull Hbeyond x Hx. apply Forall_forall.
  intros v (i&b&Hi&Hv)%in_concat_elements. pose proof (at_Some_bound _ _ _ Hi) as Hib.
  pose proof (zlen_nonneg g1). remember (zlen g1 + 1 + i) as j eqn:Hjdef.
  assert (at_ (g1 ++ bs :: g2) j = Some b) as Hj.
  { subst j. rewrite at_app_r, at_cons by lia. destruct (Z.eqb_spec (zlen g1 + 1 + i - zlen g1) 0); [lia|].
    rewrite <-Hi. f_equal. lia. }
  destruct (decide (up ≤ j)) as [Hge|Hlt].
  - specialize (Hbeyond j b Hge Hj x Hx). unfold above in Hbeyond. rewrite Forall_forall in Hbeyond. auto.
  - destruct (decide (j < next)) as [Hjn|Hjn].
    + assert (b = []) as ->; [|by apply elem_of_nil in Hv].
      eapply not_full_empty; [exact Hl|exact Hj|lia|apply Hun; lia|apply Hnone; lia].
    + destruct Hfull as [Hf Hbelow]; [lia|]. apply elem_of_keys in Hx as (w&Hw&<-).
      unfold below in Hbelow. rewrite Forall_forall in Hbelow. specialize (Hbelow w Hw).
      assert (hd s next ≤ keyOfValue v); [|lia].
      apply (layout_full s _ _ Hl) in Hf as (_&u&l&rest&buf&Hk&_&->).
      destruct (decide (j = next)) as [Heq|].
      * rewrite Heq, Hk in Hj. injection Hj as <-.
        pose proof (la_blocks _ _ Hl) as (_&Hs&_).
        destruct (concat_split _ _ _ Hk) as (h1&h2&_&_&Hc). rewrite Hc, !elements_app, !sorted_app in Hs.
        destruct Hs as (_&(Hsb&_&_)&_). rewrite elements_cons in Hsb, Hv. cbn [fst app] in Hsb, Hv.
        apply sorted_cons in Hsb as [Ha _]. unfold above in Ha. rewrite Forall_forall in Ha.
        apply elem_of_cons in Hv as [->|Hv]; [lia|]. specialize (Ha v Hv). lia.
      * pose proof (la_blocks _ _ Hl) as (_&Hs&_).
        apply Z.lt_le_incl. eapply (entries_order _ next j); [exact Hs|exact Hk|exact Hj|lia| |exact Hv].
        rewrite elements_cons. cbn [fst]. by left.
Qed.

(** A full entry without buffer blocks keeps its head when another entry changes. *)
Lemma full_kept s s' g1 bs bs' g2 k :
  layout s (g1 ++ bs :: g2) → layout s' (g1 ++ bs' :: g2) → size s' = size s → zlen g1 < k →
  at_ (bufferPointers s') k = at_ (bufferPointers s) k → unbuffered s k → full s k → full s' k ∧ hd s' k = hd s k.
Proof.
  intros Hl Hl' Hsize Hk Hptr Hun Hf. apply (layout_full s _ _ Hl) in Hf as (Hb&v&l&rest&buf&Hat&_&->).
  destruct (unbuffered_entry _ _ _ _ _ Hl Hat Hun) as (->&_). pose proof (zlen_nonneg g1).
  assert (at_ (g1 ++ bs' :: g2) k = Some [(v :: l, rest)]) as Hat'.
  { rewrite <-Hat, !at_app, !at_cons. destruct (Z.ltb_spec k (zlen g1)); [lia|].
    by destruct (Z.eqb_spec (k - zlen g1) 0); [lia|]. }
  assert (unbuffered s' k) as Hun' by (unfold unbuffered; by rewrite Hptr).
  destruct (la_entries _ _ Hl' _ _ Hat') as (main&buf&Hmb&Hparts). pose proof Hparts as (e&x&_&_&Hx&Hb0&_).
  assert (buf = []) as ->. { destruct Hun' as (x'&Hx'&?). assert (x' = x) as -> by congruence. destruct buf; [done|zlen]. }
  rewrite app_nil_r in Hmb. subst main.
  assert (hd s' k = keyOfValue v) as Hv.
  { by destruct (layout_main s' _ k [(v :: l, rest)] [] Hl') as (v1&l1&[= <- <-]&Hh&_). }
  split; [|done]. apply (layout_full s' _ _ Hl'). rewrite Hsize. split; [done|]. by exists v, l, rest, [].
Qed.

Section loop.
Variables (s0 : Sds) (gs0 : list (list (list ValueType * list ValueType))).
Variables (pre es post : list ValueType) (lo up : Z) (bufferRange : Interval).
Let batch := pre ++ es ++ post.
Let batchRange := mkInterval (zlen pre) (zlen pre + zlen es).
Let pmaRange := mkInterval lo up.
Let from := Interval.left bufferRange.

Hypothesis (range_ok : 0 ≤ lo < up ∧ up ≤ size s0).
Hypothesis (sorted_es : sorted es).
Hypothesis (no_null : NULL_KEY ∉ keys es) (no_zero : keyOfValue zeroValue ∉ keys es).
Hypothesis (before_ok : ∀ j b, j < lo → at_ gs0 j = Some b → ∀ x, x ∈ keys es → below (elements b) x).
Hypothesis (beyond_ok : ∀ j b, up ≤ j → at_ gs0 j = Some b → ∀ x, x ∈ keys es → above x (elements b)).
Hypothesis (map_wf : wf (recountingNodesMap s0)).
Hypothesis (from_ok : 0 ≤ from) (space : room s0 from (Interval.right bufferRange)).
Hypothesis (space_enough : from + 2 * zlen es ≤ Interval.right bufferRange).

(** [done] elements are in place; the entries from [next] on are those of the start. *)
Record range_inv s gs (es1 es2 : list ValueType) (batchIndex blockIndex next out : Z) : Prop := {
  ri_es : es = es1 ++ es2;
  ri_index : batchIndex = zlen pre + zlen es1;
  ri_layout : layout s gs;
  ri_elements : elements (concat gs) = smerge (elements (concat gs0)) es1;
  ri_inserted : inserted s0 s from out;
  ri_out : out ≤ 2 * zlen es1;
  ri_block : lo ≤ blockIndex < up ∧ blockIndex ≤ next ≤ up;
  ri_outside : ∀ j, j < lo ∨ up ≤ j →
    at_ gs j = at_ gs0 j ∧ at_ (bufferPointers s) j = at_ (bufferPointers s0) j;
  ri_unbuffered : ∀ j, next ≤ j < up → unbuffered s j;
  ri_next : es2 = [] ∨ (blockIndex = lo ∧ next = lo ∧ full s lo) ∨
    (blockIndex < next ∧ ∃ j, next ≤ j < up ∧ full s j ∧ ∀ v, v ∈ es2 → hd s j ≤ keyOfValue v);
}.

(** The block the next element goes to. *)
Lemma find_block s gs es1 e es2 batchIndex blockIndex next out :
  range_inv s gs es1 (e :: es2) batchIndex blockIndex next out →
  ∃ k, Search.exponentialSearch s (keyOfValue e) blockIndex up = Ok k ∧
    Search.linearSearch s (keyOfValue e) k up = Ok k ∧ blockIndex ≤ k ∧ next ≤ k < up ∧ full s k ∧
    (∀ j, k < j < up → full s j → keyOfValue e < hd s j) ∧ (k = lo ∨ hd s k ≤ keyOfValue e).
Proof.
  intros [Hes Hi Hl Hel Hin Ho [Hb Hn] Hout Hun Hnext].
  pose proof (layout_array_ok s gs Hl) as Hok. pose proof (in_fixed _ _ _ _ Hin) as F.
  assert (size s = size s0) as Hsize by (unfold insert_fixed in F; congruence).
  destruct (exponentialSearch_ok s Hok (keyOfValue e) blockIndex up) as (k&Hk&Hbest).
  { lia. }
  { simpl. lia. }
  { destruct Hnext as [?|[(->&_&?)|(_&j&Hj&Hf&Hle)]]; [done|by left|right].
    exists j. split_and!; [lia|lia|done|]. apply Hle. by left. }
  pose proof Hbest as (Hkb&Hkc&Hkl). exists k. split; [done|].
  assert (next ≤ k ∧ full s k ∧ (k = lo ∨ hd s k ≤ keyOfValue e)) as (Hnk&Hfk&Hhd).
  { destruct Hnext as [?|[(->&->&Hf)|(Hbn&j&Hj&Hf&Hle)]]; [done| |].
    - destruct Hkc as [->|[? ?]]; [split_and!; [lia|done|by left]|split_and!; [lia|done|by right]].
    - assert (j ≤ k) as Hjk.
      { destruct (decide (j ≤ k)); [done|]. specialize (Hkl j ltac:(lia) Hf).
        specialize (Hle e (list_elem_of_here _ _)). lia. }
      destruct Hkc as [->|[? ?]]; [lia|]. split_and!; [lia|done|by right]. }
  split; [|split_and!; done || lia].
  destruct (linearSearch_ok s Hok (keyOfValue e) k up) as (k'&Hk'&Hbest'); [lia|simpl; lia|].
  rewrite Hk'. f_equal. eapply (best_unique s (keyOfValue e) k up); [exact Hbest'|].
  split_and!; [lia|lia|by left|done].
Qed.

Lemma range_key s gs es1 e es2 batchIndex blockIndex next out :
  range_inv s gs es1 (e :: es2) batchIndex blockIndex next out → batchKey batch batchIndex = Ok (keyOfValue e).
Proof.
  intros [Hes -> _ _ _ _ _ _ _ _]. unfold batchKey, batch. erewrite zget_at; [done|]. rewrite Hes, <-zlen_app.
  replace (pre ++ (es1 ++ e :: es2) ++ post) with ((pre ++ es1) ++ e :: (es2 ++ post)) by (by rewrite <-!app_assoc).
  apply at_middle.
Qed.

(** The elements for a block are above everything in front of it. *)
Lemma range_before s gs es1 e es2 batchIndex blockIndex next out g1 bs g2 c1 c2 :
  range_inv s gs es1 (e :: es2) batchIndex blockIndex next out → gs = g1 ++ bs :: g2 → full s (zlen g1) →
  zlen g1 = lo ∨ hd s (zlen g1) ≤ keyOfValue e → e :: es2 = c1 ++ c2 →
  ∀ x, x ∈ keys c1 → x ∈ keys es ∧ below (elements (concat g1)) x.
Proof.
  intros [Hes _ Hl _ _ _ _ Hout _ _] -> Hf Hhd Hc x Hx.
  assert (x ∈ keys es) as Hxes by (rewrite Hes, Hc, !keys_app, !elem_of_app; tauto). split; [done|]. destruct Hhd as [Hlo|Hhd].
  - apply Forall_forall. intros v (i&b&Hi&Hv)%in_concat_elements. pose proof (at_Some_bound _ _ _ Hi).
    destruct (Hout i ltac:(lia)) as [Hi' _]. rewrite at_app_l in Hi' by lia.
    assert (below (elements b) x) as Hbx by (apply (before_ok i); [lia|congruence|done]).
    unfold below in Hbx. rewrite Forall_forall in Hbx. auto.
  - eapply below_weaken; [exact (before_head _ _ _ _ Hl Hf)|].
    assert (sorted (e :: es2)) as Hs by (rewrite Hes in sorted_es; by apply sorted_app in sorted_es as (_&?&_)).
    apply sorted_cons in Hs as [Ha _]. apply elem_of_keys in Hx as (v&Hv&<-).
    assert (v ∈ e :: es2) as [->|Hv']%elem_of_cons by (rewrite Hc; apply elem_of_app; by left); [lia|].
    unfold above in Ha. rewrite Forall_forall in Ha. specialize (Ha v Hv'). lia.
Qed.

(** The invariant after the elements [c1] have gone to entry [k]. *)
Lemma range_next s s' es1 es2 batchIndex blockIndex next next' out n g1 bs bs' g2 c1 c2 :
  range_inv s (g1 ++ bs :: g2) es1 es2 batchIndex blockIndex next out → es2 = c1 ++ c2 →
  layout s' (g1 ++ bs' :: g2) →
  elements (concat (g1 ++ bs' :: g2)) = smerge (elements (concat (g1 ++ bs :: g2))) c1 →
  inserted s s' (from + out) n → n ≤ 2 * zlen c1 →
  (∀ j, j ≠ zlen g1 → at_ (bufferPointers s') j = at_ (bufferPointers s) j) →
  next ≤ zlen g1 < up → zlen g1 < next' ≤ up →
  (next' = up → c2 = []) → (next' < up → full s next' ∧ above (hd s next' - 1) c2) →
  range_inv s' (g1 ++ bs' :: g2) (es1 ++ c1) c2 (zlen pre + zlen (es1 ++ c1)) (zlen g1) (zlen g1 + 1) (out + n).
Proof.
  intros [Hes _ Hl Hel Hin Ho [Hb Hn] Hout Hun _] -> Hl' Hel' Hin' Hn' Hptr Hk Hnext' Hend Hmid. split; try done.
  - by rewrite Hes, <-app_assoc.
  - rewrite Hel', Hel. by rewrite smerge_app.
  - eapply inserted_trans; [exact Hin|exact Hin'].
  - zlen.
  - lia.
  - intros j Hj. destruct (Hout j Hj) as [Hj1 Hj2]. rewrite Hptr by lia. rewrite <-Hj1, <-Hj2. split; [|done].
    rewrite !at_app, !at_cons. destruct (Z.ltb_spec j (zlen g1)); [done|].
    destruct (Z.eqb_spec (j - zlen g1) 0); [lia|done].
  - intros j Hj. destruct (Hun j) as (x&Hx&?); [lia|]. exists x. split; [|done]. by rewrite Hptr by lia.
  - destruct (decide (next' = up)) as [Heq|Hne]; [left; by apply Hend|].
    right; right. split; [lia|]. destruct (Hmid ltac:(lia)) as [Hf Hc2]. exists next'.
    pose proof (in_fixed _ _ _ _ Hin') as F. unfold insert_fixed in F.
    destruct (full_kept s s' g1 bs bs' g2 next' Hl Hl') as [Hf' Hhd']; try done; [congruence|lia|apply Hptr; lia|apply Hun; lia|].
    split_and!; [lia|lia|done|]. intros v Hv. rewrite Hhd'. unfold above in Hc2. rewrite Forall_forall in Hc2.
    specialize (Hc2 v Hv). lia.
Qed.

(** The part [c1] of the remaining elements in front of the head of the next block. *)
Lemma next_elements s gs es1 e es2 (next' : Z) :
  layout s gs → size s = size s0 → es = es1 ++ e :: es2 → 0 ≤ next' ≤ up →
  (next' < up → full s next' ∧ keyOfValue e < hd s next') →
  ∃ c1 c2, e :: es2 = c1 ++ c2 ∧ c1 ≠ [] ∧
    findLastBatchElementForBlock s ((pre ++ es1) ++ (e :: es2) ++ post) (zlen (pre ++ es1)) batchRange next' pmaRange =
      Ok (zlen (pre ++ es1) + zlen c1) ∧
    (next' = up → c2 = []) ∧ (next' ≠ up → below c1 (hd s next') ∧ above (hd s next' - 1) c2).
Proof.
  intros Hl Hsize Hes Hb Hnext.
  assert (sorted (e :: es2)) as Hs2 by (rewrite Hes in sorted_es; by apply sorted_app in sorted_es as (_&?&_)).
  destruct (findLast_ok s (pre ++ es1) (e :: es2) post batchRange pmaRange next') as (c1&c2&Hc&Hfind&Hend&Hmid).
  - unfold batchRange. simpl. rewrite Hes. zlen.
  - done.
  - unfold pmaRange. simpl. intros Hne. destruct (Hnext ltac:(lia)) as [Hf _]. split; [done|].
    rewrite (la_pma _ _ Hl). pose proof (la_capacity _ _ Hl). destruct Hf as [Hfb _]. simpl in Hfb. lia.
  - exists c1, c2. split_and!; try done. intros ->.
    destruct (decide (next' = up)) as [Heq|Hne]; [by rewrite (Hend Heq) in Hc|].
    destruct (Hmid Hne) as [_ Ha]. simpl in Hc. subst c2. apply above_cons in Ha as [Ha _].
    destruct (Hnext ltac:(lia)). lia.
Qed.

(** One iteration. *)
Lemma range_step s gs es1 e es2 batchIndex blockIndex next out :
  range_inv s gs es1 (e :: es2) batchIndex blockIndex next out →
  ∃ s' k n gs' c1 c2,
    (k0 ← batchKey batch batchIndex;
     blockIndex ← Search.exponentialSearch s k0 blockIndex (Interval.right pmaRange);
     nextBlockIndex ← Search.findNext s blockIndex (Interval.right pmaRange);
     AssertM (r ← Search.linearSearch s k0 blockIndex (Interval.right pmaRange); Ok (blockIndex =? r));;
     '(s, batchIndex, out) ← insertElementsIntoBlock s blockIndex nextBlockIndex pmaRange bufferRange
        batch batchIndex batchRange out;
     Ok (s, batchIndex, blockIndex, out)) = Ok (s', zlen pre + zlen (es1 ++ c1), k, out + n) ∧
    e :: es2 = c1 ++ c2 ∧ c1 ≠ [] ∧
    range_inv s' gs' (es1 ++ c1) c2 (zlen pre + zlen (es1 ++ c1)) k (k + 1) (out + n).
Proof.
  intros Hinv. destruct (find_block _ _ _ _ _ _ _ _ _ Hinv) as (k&Hexp&Hlin&Hbk&Hnk&Hfk&Hlarge&Hhd).
  rewrite (range_key _ _ _ _ _ _ _ _ _ Hinv). pose proof Hinv as [Hes -> Hl _ Hin _ [Hb Hn] Hout Hun _].
  pose proof (layout_array_ok s gs Hl) as Hok. pose proof (in_fixed _ _ _ _ Hin) as F.
  assert (size s = size s0) as Hsize by (unfold insert_fixed in F; congruence).
  cbn [mbind result_bind pmaRange Interval.right]. rewrite Hexp. cbn [mbind result_bind].
  destruct (findNext_ok s Hok k up) as (next'&->&Hnext'&Hnone&Hfnext); [lia|simpl; lia|].
  cbn [mbind result_bind]. rewrite AssertM_ok.
  2: { rewrite Hlin. cbn [mbind result_bind]. by rewrite Z.eqb_refl. }
  cbn [mbind result_bind].
  assert (sorted (e :: es2)) as Hs2 by (rewrite Hes in sorted_es; by apply sorted_app in sorted_es as (_&?&_)).
  destruct (next_elements s gs es1 e es2 next' Hl Hsize Hes) as (c1&c2&Hc&Hc1&Hfind&Hend&Hmid); [lia| |].
  { intros Hlt. split; [auto|]. apply Hlarge; [lia|auto]. }
  destruct (full_block s gs k Hl Hfk) as (g1&l&rest&g2&->&<-&_&_); [apply Hun; lia|].
  pose proof (range_before _ _ _ _ _ _ _ _ _ g1 _ g2 c1 c2 Hinv eq_refl Hfk Hhd Hc) as Hbefore.
  assert (∀ x, x ∈ keys c1 → above x (elements (concat g2))) as Habove.
  { apply (behind_next s g1 [(l, rest)] g2 c1 next' up); try done.
    - lia.
    - lia.
    - intros j Hj. apply Hun. lia.
    - intros Hlt. split; [auto|]. apply Hmid. simpl. lia.
    - intros j b Hj Hat x Hx. destruct (Hout j ltac:(lia)) as [Hj' _].
      apply (beyond_ok j); [done|congruence|by apply Hbefore]. }
  assert (zlen es = zlen es1 + zlen c1 + zlen c2) as Hlen by (rewrite Hes, Hc; zlen).
  pose proof (in_nonneg _ _ _ _ Hin). pose proof (zlen_nonneg c2). pose proof (ri_out _ _ _ _ _ _ _ _ Hinv).
  destruct (insertElementsIntoBlock_ok s g1 l rest g2 (pre ++ es1) c1 (c2 ++ post) next' batchRange
    pmaRange bufferRange out) as (s'&bs'&n&Hins&Hl'&Hel'&Hin'&Hn'&Hptr); try done.
  { apply Hun. lia. }
  { rewrite Hc, sorted_app in Hs2. tauto. }
  { intros Hx%Hbefore. tauto. }
  { intros Hx%Hbefore. tauto. }
  { intros x Hx. split; [by apply Hbefore|auto]. }
  { by apply (in_map _ _ _ _ Hin). }
  { fold from. lia. }
  { fold from. by apply (room_inserted _ _ _ _ _ Hin). }
  { fold from. lia. }
  { rewrite Hc in Hfind. rewrite <-(app_assoc c1) in Hfind. exact Hfind. }
  assert ((pre ++ es1) ++ c1 ++ c2 ++ post = batch) as Hbatch by (unfold batch; rewrite Hes, Hc; by rewrite <-!app_assoc).
  rewrite Hbatch, zlen_app in Hins. rewrite Hins. cbn [mbind result_bind].
  exists s', (zlen g1), n, (g1 ++ bs' :: g2), c1, c2. split; [f_equal; f_equal; f_equal; f_equal; zlen|].
  split; [done|]. split; [done|].
  eapply (range_next s s' es1 (e :: es2) _ blockIndex next next'); try done; [lia|].
  intros Hlt. split; [apply Hfnext; lia|]. apply Hmid. simpl. lia.
Qed.

Lemma insertBatchRange_ok :
  layout s0 gs0 → full s0 lo → (∀ j, lo ≤ j < up → unbuffered s0 j) →
  ∃ s' gs' n, insertBatchRange s0 batch batchRange pmaRange bufferRange = Ok (s', n) ∧
    layout s' gs' ∧ elements (concat gs') = smerge (elements (concat gs0)) es ∧
    inserted s0 s' from n ∧ n ≤ 2 * zlen es ∧
    (∀ j, j < lo ∨ up ≤ j →
       at_ gs' j = at_ gs0 j ∧ at_ (bufferPointers s') j = at_ (bufferPointers s0) j).
Proof.
  intros Hl Hfull Hun. unfold insertBatchRange. cbn [pmaRange batchRange Interval.left Interval.right Interval.length].
  assert ((Interval.length pmaRange =? 0) = false) as Hne by (apply Z.eqb_neq; unfold Interval.length; simpl; lia).
  rewrite AssertM_ok; cycle 1.
  { rewrite (layout_empty s0 gs0) by (done || lia). destruct Hfull as [_ Hf]. cbn [mbind result_bind].
    destruct (Interval.length pmaRange =? 0); [done|]. by destruct (Z.eqb_spec (hd s0 lo) NULL_KEY). }
  rewrite Hne. cbn [mbind result_bind].
  match goal with |- context [while ?f ?cond ?body ?st] =>
    cut (wp (while f cond body st) (λ '(s, batchIndex, blockIndex, out), ∃ gs next,
      range_inv s gs es [] batchIndex blockIndex next out)) end.
  { intros ([[[s' bi] k] out]&->&gs'&next&[_ -> Hl' Hel Hin Ho _ Hout _ _])%wp_returns.
    cbn [mbind result_bind]. rewrite assert_ok by (apply Z.eqb_refl). cbn [mbind result_bind].
    exists s', gs', out. by split_and!. }
  apply (wp_while (λ '(s, batchIndex, blockIndex, out), ∃ gs es1 es2 next,
    range_inv s gs es1 es2 batchIndex blockIndex next out)
    (λ '(_, batchIndex, _, _), zlen pre + zlen es - batchIndex)).
  - intros [[[s bi] k] out] (gs&es1&es2&next&Hinv). pose proof Hinv as [Hes -> _ _ _ _ _ _ _ _].
    assert (zlen es = zlen es1 + zlen es2) as Hlen by (rewrite Hes; zlen).
    split; [pose proof (zlen_nonneg es2); lia|]. cbn [wp].
    destruct (Z.ltb_spec (zlen pre + zlen es1) (zlen pre + zlen es)) as [Hlt|Hge].
    + destruct es2 as [|e es2]; [zlen|].
      destruct (range_step _ _ _ _ _ _ _ _ _ Hinv) as (s'&k'&n&gs'&c1&c2&Hstep&Hc&Hc1&Hinv').
      unfold pmaRange, batchRange in Hstep. cbn [Interval.left Interval.right] in Hstep.
      unfold pmaRange, batchRange. cbn [Interval.left Interval.right]. rewrite Hstep. cbn [wp]. split; [by do 4 eexists|].
      assert (0 < zlen c1) by (destruct c1; [done|zlen]). zlen.
    + assert (es2 = []) as -> by (destruct es2; [done|zlen]). rewrite app_nil_r in Hes. subst es1.
      by exists gs, next.
  - exists gs0, [], es, lo. split; try done; try lia; try zlen; try apply inserted_refl. tauto.
  - pose proof (zlen_nonneg es). unfold batchRange, Interval.length. simpl. lia.
Qed.

End loop.
End range.
