(* ===== verification/SdsFill.v ===== *)
(** * Filling new blocks in the buffer array

    [insertIntoEmptyRange], the first insertion into an empty array, and [inverseMerge],
    which merges a part of one block with a range of the batch.  Both fill an insertion
    block, move it to the buffer array when it is full, and make sure that the last block
    is at least half full. *)

From S2P Require Export SdsLayout BlockFill.
Import BlockSeq BatchedSparseArray Insertion.

Section fill.
Context `{T : SdsTypes} `{C : BlockConfig}.
Context `{BC : !BlockConfigOk} `{HB : !HalfBlocks}.
Context `{R : RebalancingConfig} `{D : DensityManager}.
Context `{H : ConcurrentBucketMap.Hash} `{P : ThreadConfig}.
Implicit Types (s : Sds) (l rest batch es : list ValueType) (bs : list (list ValueType * list ValueType)).
Implicit Types (b : PmaEntry.PmaEntry).

(** ** Filling blocks of the buffer array *)

Section filling.
Variables (s0 : Sds) (range : Interval) (out0 origin : Z).
Let lo := Interval.left range + out0.
Hypothesis (map_wf : wf (recountingNodesMap s0)) (space : room s0 lo (Interval.right range)).

#[local] Instance buffer : BlockSink (Sds * Z) := bufferSink s0 range out0 origin.
#[local] Instance buffer_ok : BlockSinkOk buffer := bufferSink_ok s0 range out0 origin space map_wf.

(** The written blocks [ws] and the insertion block [b] with [li] hold the elements [m]. *)
Definition filling s ws b li (m : list ValueType) (out : Z) : Prop := filled (s, out) ws b li m.

Lemma fi_pushed s ws b li m out : filling s ws b li m out → pushed s0 s lo ws origin.
Proof. by intros [[Hp _] _ _ _ _]. Qed.

Lemma fi_out s ws b li m out : filling s ws b li m out → out = out0 + zlen ws.
Proof. by intros [[_ Ho] _ _ _ _]. Qed.

Lemma filling_start b rest : represents b [] rest → appendable [] rest → filling s0 [] b [] [] out0.
Proof. apply filled_start. split; [apply pushed_nil|simpl; rewrite zlen_nil; lia]. Qed.

Lemma filling_extend s ws b li m out b' x ri' :
  filling s ws b li m out → represents b' (li ++ x) ri' → appendable (li ++ x) ri' →
  filling s ws b' (li ++ x) (m ++ x) out.
Proof. apply filled_extend. Qed.

Lemma filling_bound s ws b li m out : filling s ws b li m out → MinSize * zlen ws + zlen li ≤ zlen m.
Proof. apply filled_bound. Qed.

Lemma filling_size s ws b li m out : filling s ws b li m out → PmaEntry.size b = zlen li ∧ zlen li ≤ MaxSize.
Proof. apply filled_size. Qed.

Lemma filling_extension s ws b li m out x w :
  filling s ws b li m out → sorted (m ++ x ++ w) →
  sorted (li ++ x) ∧ ∃ ri, represents b li ri ∧ appendable li ri.
Proof. intros Hf Hs. split; [by eapply filled_extension|by apply (fd_block _ _ _ _ _ Hf)]. Qed.

(** A full block is written. *)
Lemma nextInsertionBlock_buffer s out b remaining r :
  nextBlock b ((0 <? remaining) && (remaining <? MinSize)) (s, out) = Ok r →
  nextInsertionBlock s b remaining range out origin = Ok (r.1.1, r.2) ∧ r.1.2 = out + 1.
Proof.
  unfold nextBlock, nextInsertionBlock. cbn [emit buffer bufferSink fst snd]. destruct (_ && _).
  - destruct (PmaEntry.split b) as [[b1 b2]|]; [|done]. cbn [mbind result_bind].
    destruct (writeToBufferArray s b1 range out origin) as [s'|]; [|done]. cbn [mbind result_bind]. by intros [= <-].
  - destruct (PmaEntry.allocateBlock PmaEntry.null_entry) as [b2|]; [|done]. cbn [mbind result_bind].
    destruct (writeToBufferArray s b range out origin) as [s'|]; [|done]. cbn [mbind result_bind]. by intros [= <-].
Qed.

Lemma filling_next s ws b li m out remaining :
  filling s ws b li m out → zlen li = MaxSize → lo + zlen ws < Interval.right range →
  ∃ s' b' ws' li', nextInsertionBlock s b remaining range out origin = Ok (s', b') ∧
    filling s' ws' b' li' m (out + 1) ∧ zlen li' < MaxSize ∧
    ((0 < remaining < MinSize ∧ zlen li' = MinSize) ∨ (¬ (0 < remaining < MinSize) ∧ li' = [])).
Proof.
  intros Hf Hfull Hlt. pose proof MinSize_two. pose proof MaxSize_double.
  destruct (filled_next (s, out) ws b li m ((0 <? remaining) && (remaining <? MinSize)) Hf Hfull (λ _ _, I))
    as ([s' o']&b'&ws'&li'&Hn&Hf'&Hlen&Hli'); [simpl; lia|].
  apply nextInsertionBlock_buffer in Hn as [Hn Ho]. cbn [fst snd] in Hn, Ho. subst o'.
  exists s', b', ws', li'. split; [done|]. split; [done|].
  destruct (Z.ltb_spec 0 remaining), (Z.ltb_spec remaining MinSize); cbn [andb] in Hli';
    (split; [lia|]); try (right; split; [lia|]; by destruct li'; [done|zlen]). left; lia.
Qed.

(** The last block is written. *)
Lemma filling_last s ws b li m out :
  filling s ws b li m out → MinSize ≤ zlen li → lo + zlen ws < Interval.right range →
  ∃ s' ri, lastInsertionBlock s b range out origin = Ok (s', out + 1) ∧
    pushed s0 s' lo (ws ++ [(li, ri)]) origin ∧ elements (ws ++ [(li, ri)]) = m ∧
    Forall (λ x, good_size x.1) (ws ++ [(li, ri)]) ∧
    stales [keyOfValue zeroValue] (ws ++ [(li, ri)]).
Proof.
  intros Hf Hmin Hlt. pose proof MinSize_two. destruct (filled_size _ _ _ _ _ Hf) as [Hsz _].
  destruct (filled_last _ _ _ _ _ Hf Hmin (λ _ _, I)) as ([s' o']&ri&Hw&[Hp _]&Hrest); [simpl; lia|].
  exists s', ri. split; [|done]. unfold lastInsertionBlock. rewrite Hsz.
  destruct (Z.ltb_spec 0 (zlen li)); [|lia]. cbn [emit buffer bufferSink fst snd] in Hw.
  destruct (writeToBufferArray s b range out origin); [|done]. cbn [mbind result_bind] in *. congruence.
Qed.
End filling.

(** ** The first insertion *)

Section empty_range.
Variables (s0 : Sds) (range inputRange : Interval) (pre es post : list ValueType).
Let batch := pre ++ es ++ post.
Let batchRange := mkInterval (zlen pre) (zlen pre + zlen es).
Let lo := Interval.left range.
Hypothesis (map_wf : wf (recountingNodesMap s0)) (space : room s0 (lo + 0) (Interval.right range)).
Hypothesis (space_enough : lo + 2 * zlen es ≤ Interval.right range).
Hypothesis (sorted_es : sorted es) (no_zero : keyOfValue zeroValue ∉ keys es).
Hypothesis (enough : MinSize ≤ zlen es).

Definition fill_state_of (st : (Sds * Z) * PmaEntry.PmaEntry * Z) : Sds * PmaEntry.PmaEntry * Z * Z :=
  (st.1.1.1, st.1.2, st.2, st.1.1.2).

Lemma insertIntoEmptyRange_ok :
  0 ≤ Interval.left inputRange < zlen (bufferPointers s0) →
  ∃ s' ws, insertIntoEmptyRange s0 batch batchRange (zlen pre) inputRange range 0 =
      Ok (set_bufferPointers s' (zupd (bufferPointers s0) (Interval.left inputRange)
            (mkInterval lo (lo + zlen ws))), zlen pre + zlen es, zlen ws) ∧
    pushed s0 s' (lo + 0) ws (Interval.left inputRange) ∧ elements ws = es ∧
    Forall (λ x, good_size x.1) ws ∧ stales [keyOfValue zeroValue] ws.
Proof.
  intros Hptr. unfold insertIntoEmptyRange. pose proof MinSize_two.
  destruct (allocateBlock_ok PmaEntry.null_entry) as (b0&->&_&Hb0); [done..|]. cbn [mbind result_bind].
  set (origin := Interval.left inputRange).
  assert (∀ n, n * MinSize ≤ zlen es → n ≤ @sink_limit _ _ _ (buffer s0 range 0 origin)) as Hspace.
  { intros n Hn. simpl. unfold lo in *. nia. }
  destruct (filling_ok (K := buffer s0 range 0 origin) (KO := buffer_ok s0 range 0 origin map_wf space)
    PmaEntry.merge pre es post sorted_es enough Hspace) with (f := fill_state_of)
    (idx := λ x : Sds * PmaEntry.PmaEntry * Z * Z, x.1.2)
    (cond := λ x : Sds * PmaEntry.PmaEntry * Z * Z, let '(_, _, i, _) := x in Ok (i <? zlen pre + zlen es))
    (body := emptyRangeBody batch batchRange range origin)
    (s := (s0, 0)) (b := b0) (rest := replicate (Z.to_nat MaxSize) zeroValue)
    as ([s1 out]&b1&ws&li&Hloop&Hf&Hli&Hlt); try done.
  - intros b l rest p x q Hb Ha Hsx Hne Hfit Hk. apply (merge_append b l rest p x q); try done.
    intros Hz. apply no_zero. apply Hk. rewrite keys_app. apply elem_of_app. by right.
  - intros [[[s o] b] i] st' _ _. unfold fillStep, emptyRangeBody, fill_state_of. cbn [fst snd].
    cbn [batchRange Interval.right]. destruct (PmaEntry.size b =? MaxSize).
    + destruct (nextBlock _ _ _) as [[[s2 o2] b2]|] eqn:Hn; [|done].
      apply nextInsertionBlock_buffer in Hn as [-> Ho]. cbn [mbind result_bind fst snd] in *. subst o2.
      destruct (PmaEntry.merge b2 _ _ _); [|done]. cbn [mbind result_bind]. by intros [= <-].
    + cbn [mbind result_bind]. destruct (PmaEntry.merge b _ _ _); [|done]. cbn [mbind result_bind]. by intros [= <-].
  - split; [apply pushed_nil|done].
  - apply appendable_new.
  - unfold fill_state_of in Hloop. cbn [fst snd] in Hloop. cbn [batchRange Interval.right].
    rewrite Hloop. cbn [mbind result_bind].
    pose proof (fi_out _ _ _ _ _ _ _ _ _ _ Hf) as Ho. simpl in Hlt.
    destruct (filling_last s0 range 0 origin map_wf space s1 ws b1 li es out Hf Hli)
      as (s2&ri&->&Hp&Hel&Hg&Hst).
    { unfold lo in *. lia. }
    cbn [mbind result_bind]. rewrite assert_ok by (apply Z.eqb_refl). cbn [mbind result_bind].
    assert (bufferPointers s2 = bufferPointers s0) as Hbp by (pose proof (pu_fixed _ _ _ _ _ Hp) as F; unfold fixed in F; congruence).
    pose proof (write_bufferRange s2 origin (getDenseWriteIndex (Interval.left range) 0)
      (getDenseWriteIndex (Interval.left range) (out + 1 - 1) + 1)) as Hw. rewrite Hbp in Hw. specialize (Hw Hptr).
    destruct (write_bufferLeft s2 _ _) as [s3|]; [|done]. cbn [mbind result_bind] in Hw |- *. rewrite Hw.
    cbn [mbind result_bind]. exists s2, (ws ++ [(li, ri)]). split; [|done].
    assert (out + 1 = zlen (ws ++ [(li, ri)])) as -> by zlen. unfold getDenseWriteIndex. fold lo.
    by replace (lo + 0) with lo by lia; replace (lo + (zlen (ws ++ [(li, ri)]) - 1) + 1) with (lo + zlen (ws ++ [(li, ri)])) by lia.
Qed.

End empty_range.

(** ** Merging a part of a block with a range of the batch *)

Section inverse_merge.
Variables (s0 : Sds) (range inputRange : Interval) (pre es post m0 m m1 : list ValueType).
Variables (mb : PmaEntry.PmaEntry) (rest : list ValueType).
Let batch := pre ++ es ++ post.
Let batchRange := mkInterval (zlen pre) (zlen pre + zlen es).
Let mergeRange := mkInterval (zlen m0) (zlen m0 + zlen m).
Let mergeBlock := Interval.left inputRange.
Let lo := Interval.left range.
Hypothesis (map_wf : wf (recountingNodesMap s0)) (space : room s0 (lo + 0) (Interval.right range)).
Hypothesis (space_enough : ∀ n, n * MinSize ≤ zlen m + zlen es → lo + n ≤ Interval.right range).
Hypothesis (block : at_ (pma s0) mergeBlock = Some mb) (block_is : represents mb (m0 ++ m ++ m1) rest).
Hypothesis (sorted_es : sorted es) (sorted_m : sorted m).
Hypothesis (no_zero : keyOfValue zeroValue ∉ keys es) (no_null : NULL_KEY ∉ keys es).
Hypothesis (no_zero_block : keyOfValue zeroValue ∉ keys m).
Hypothesis (enough : MinSize ≤ Z.max (zlen es) (zlen m)).

(** [w] is written, [ma] and [mz] are the parts of the block section before and after
    [readIndex], [ea] and [ez] those of the batch range. *)
Record inverse_inv s ws b li (w ma mz ea ez : list ValueType) (batchIndex readIndex lastKey out : Z) : Prop := {
  ii_block : m = ma ++ mz;
  ii_batch : es = ea ++ ez;
  ii_read : readIndex = zlen m0 + zlen ma;
  ii_index : batchIndex = zlen pre + zlen ea;
  ii_filling : filling s0 range 0 mergeBlock s ws b li w out;
  ii_merge : smerge m es = w ++ smerge mz ez;
  ii_last : lastKey = NULL_KEY ∨ lastKey ∈ keys w;
  ii_enough : MinSize ≤ zlen li + Z.max (zlen ez) (zlen mz);
}.

Lemma merge_block_size : 0 ≤ zlen m0 ∧ zlen m0 + zlen m ≤ MaxSize ∧ MaxSize < 65536.
Proof.
  pose proof block_is as [(_&Hm&_) _]. rewrite !zlen_app in Hm. pose proof MaxSize_u16.
  pose proof (zlen_nonneg m0). pose proof (zlen_nonneg m1). pose proof (zlen_nonneg rest). lia.
Qed.

Lemma skipWritten_sorted ea e ez k :
  es = ea ++ e :: ez → keyOfValue e ≠ k →
  skipWritten batch (Interval.right batchRange) (zlen pre + zlen ea) k = Ok (zlen pre + zlen ea).
Proof.
  intros Hes Hne. unfold skipWritten. apply while_exit.
  destruct (zlen pre + zlen ea <? Interval.right batchRange); [|done].
  unfold batchKey, batch. rewrite Hes. erewrite zget_at; cycle 1.
  { rewrite <-zlen_app, <-app_assoc. rewrite app_assoc. apply at_middle. }
  cbn [mbind result_bind]. by destruct (Z.eqb_spec (keyOfValue e) k).
Qed.

Lemma inverse_keys s ws b li w ma mz ea ez batchIndex readIndex lastKey out :
  inverse_inv s ws b li w ma mz ea ez batchIndex readIndex lastKey out →
  sorted mz ∧ sorted ez ∧ sorted (w ++ smerge mz ez) ∧ (keyOfValue zeroValue ∉ keys (smerge mz ez)).
Proof.
  intros [Hm He _ _ _ Hw _ _]. split_and!.
  - rewrite Hm in sorted_m. by apply sorted_app in sorted_m as (_&?&_).
  - rewrite He in sorted_es. by apply sorted_app in sorted_es as (_&?&_).
  - rewrite <-Hw. by apply sorted_smerge.
  - intros Hz. assert (keyOfValue zeroValue ∈ keys (smerge m es)) as Hk.
    { rewrite Hw, keys_app, elem_of_app. by right. }
    apply keys_smerge in Hk. tauto.
Qed.

(** The elements appended by one iteration. *)
Lemma inverse_append s ws b li w x w' out :
  filling s0 range 0 mergeBlock s ws b li w out → sorted (w ++ x ++ w') →
  (keyOfValue zeroValue ∉ keys (x ++ w')) →
  sorted (li ++ x) ∧ (keyOfValue zeroValue ∉ keys x) ∧
  ∃ ri, represents b li ri ∧ appendable li ri.
Proof.
  intros Hf Hs Hz. destruct (filling_extension _ _ _ _ _ _ _ _ _ _ _ _ Hf Hs) as [Hsx Hb].
  split_and!; [done| |done]. intros Hk. apply Hz. rewrite keys_app. apply elem_of_app. by left.
Qed.

(** One element of the block section is appended, a batch element of the same key skipped. *)
Lemma append_filling s ws b li w x w' out :
  filling s0 range 0 mergeBlock s ws b li w out → sorted (w ++ x :: w') →
  (keyOfValue zeroValue ∉ keys (x :: w')) → zlen li < MaxSize →
  ∃ b', append b x = Ok b' ∧ filling s0 range 0 mergeBlock s ws b' (li ++ [x]) (w ++ [x]) out.
Proof.
  intros Hf Hs Hz Hlt. destruct (inverse_append s ws b li w [x] w' out Hf Hs Hz) as (Hsx&Hzx&ri&Hb&Hc).
  destruct (append_last b li ri x Hb Hc Hsx Hlt) as (b'&r&ri'&Hi&Hb'&Hc').
  { intros Heq. apply Hzx. rewrite <-Heq. by left. }
  exists b'. split; [unfold append; by rewrite Hi|]. by eapply filling_extend.
Qed.

Lemma merge_filling s ws b li w p x q w' out :
  filling s0 range 0 mergeBlock s ws b li w out → sorted (w ++ x ++ w') →
  (keyOfValue zeroValue ∉ keys (x ++ w')) → x ≠ [] → zlen li + zlen x ≤ MaxSize →
  ∃ b', PmaEntry.merge b (p ++ x ++ q) (zlen p) (zlen x) = Ok b' ∧
    filling s0 range 0 mergeBlock s ws b' (li ++ x) (w ++ x) out.
Proof.
  intros Hf Hs Hz Hne Hlt. destruct (inverse_append s ws b li w x w' out Hf Hs Hz) as (Hsx&Hzx&ri&Hb&Hc).
  destruct (merge_append b li ri p x q Hb Hc Hsx Hne Hlt Hzx) as (b'&ri'&->&Hb'&Hc').
  exists b'. split; [done|]. by eapply filling_extend.
Qed.

Lemma read_block ma v mz : m = ma ++ v :: mz →
  PmaEntry.get mb (zlen m0 + zlen ma) = Ok v ∧
  u16 (zlen m0 + zlen ma + 1) = zlen m0 + zlen (ma ++ [v]).
Proof.
  intros Hm. pose proof merge_block_size as (?&Hsz&?). pose proof block_is as [Hh _].
  assert (zlen m = zlen ma + 1 + zlen mz) as Hlen by (rewrite Hm; zlen).
  pose proof (zlen_nonneg mz). pose proof (zlen_nonneg ma). split.
  - erewrite get_at; [done|exact Hh|]. rewrite Hm. rewrite <-zlen_app, <-!app_assoc. simpl.
    rewrite app_assoc. apply at_middle.
  - rewrite u16_small by lia. zlen.
Qed.

Lemma read_batch ea e ez : es = ea ++ e :: ez → zget batch (zlen pre + zlen ea) = Ok e.
Proof.
  intros Hes. unfold batch. rewrite Hes. apply zget_at. rewrite <-zlen_app, <-!app_assoc. simpl.
  rewrite app_assoc. apply at_middle.
Qed.

Lemma skip_next ea e ez k :
  es = ea ++ e :: ez → keyOfValue e = k →
  skipWritten batch (Interval.right batchRange) (zlen pre + zlen ea + 1) k = Ok (zlen pre + zlen ea + 1).
Proof.
  intros Hes Hk. destruct ez as [|e' ez].
  - unfold skipWritten. apply while_exit. replace (_ <? _) with false; [done|]. symmetry. apply Z.ltb_ge.
    cbn [batchRange Interval.right]. rewrite Hes. zlen.
  - replace (zlen pre + zlen ea + 1) with (zlen pre + zlen (ea ++ [e])) by zlen.
    apply (skipWritten_sorted (ea ++ [e]) e' ez); [by rewrite Hes, <-app_assoc|].
    rewrite Hes in sorted_es. apply sorted_app in sorted_es as (_&[Ha _]%sorted_cons&_).
    apply above_cons in Ha. lia.
Qed.

(** A new invariant after the element [x] was appended. *)
Lemma inverse_next s ws b li w ma mz ea ez batchIndex readIndex lastKey out b' x ma' mz' ea' ez' :
  inverse_inv s ws b li w ma mz ea ez batchIndex readIndex lastKey out →
  filling s0 range 0 mergeBlock s ws b' (li ++ [x]) (w ++ [x]) out →
  m = ma' ++ mz' → es = ea' ++ ez' → smerge mz ez = x :: smerge mz' ez' →
  zlen mz - 1 ≤ zlen mz' → zlen ez - 1 ≤ zlen ez' →
  inverse_inv s ws b' (li ++ [x]) (w ++ [x]) ma' mz' ea' ez' (zlen pre + zlen ea') (zlen m0 + zlen ma')
    (keyOfValue x) out.
Proof.
  intros Hinv Hf Hm He Hx Hl1 Hl2. destruct Hinv as [_ _ _ _ _ Hw _ Hen]. split; try done.
  - by rewrite Hw, Hx, <-app_assoc.
  - right. rewrite keys_app. apply elem_of_app. right. by left.
  - rewrite zlen_app, zlen_cons, zlen_nil. lia.
Qed.

Lemma inverseStep_ok s ws b li w ma v mz ea e ez batchIndex readIndex lastKey out :
  inverse_inv s ws b li w ma (v :: mz) ea (e :: ez) batchIndex readIndex lastKey out →
  zlen li < MaxSize →
  ∃ b' li' w' ma' mz' ea' ez' batchIndex' readIndex' lastKey',
    inverseStep mb batch batchRange (b, batchIndex, readIndex, lastKey) =
      Ok (b', batchIndex', readIndex', lastKey') ∧
    inverse_inv s ws b' li' w' ma' mz' ea' ez' batchIndex' readIndex' lastKey' out ∧
    zlen mz' + zlen ez' < zlen (v :: mz) + zlen (e :: ez).
Proof.
  intros Hinv Hlt. destruct (inverse_keys _ _ _ _ _ _ _ _ _ _ _ _ _ Hinv) as (Hsm&Hse&Hs&Hz).
  pose proof Hinv as [Hm He -> -> Hf Hw Hlast _].
  destruct (read_block _ _ _ Hm) as [Hget Hnext]. pose proof (read_batch _ _ _ He) as Hbatch.
  unfold inverseStep. rewrite Hget. cbn [mbind result_bind]. rewrite Hbatch. cbn [mbind result_bind]. unfold comp.
  destruct (Z.ltb_spec (keyOfValue v) (keyOfValue e)) as [Hless|Hge].
  - pose proof (smerge_less v mz e ez Hless Hse) as Hx. rewrite Hx in Hs, Hz.
    destruct (append_filling s ws b li w v _ out Hf Hs Hz Hlt) as (b'&->&Hf'). cbn [mbind result_bind].
    rewrite (skipWritten_sorted ea e ez) by (done || lia). cbn [mbind result_bind]. rewrite Hnext.
    exists b', (li ++ [v]), (w ++ [v]), (ma ++ [v]), mz, ea, (e :: ez). do 3 eexists. split; [reflexivity|].
    split; [|rewrite !zlen_cons; lia].
    apply (inverse_next _ _ _ _ _ _ _ _ _ _ _ _ _ b' v (ma ++ [v]) mz ea (e :: ez) Hinv Hf'); try done;
      [by rewrite Hm, <-app_assoc|zlen|zlen].
  - destruct (Z.eqb_spec (keyOfValue v) (keyOfValue e)) as [Heq|Hne].
    + pose proof (smerge_equal v mz e ez Heq Hse) as Hx. rewrite Hx in Hs, Hz.
      destruct (append_filling s ws b li w v _ out Hf Hs Hz Hlt) as (b'&->&Hf'). cbn [mbind result_bind].
      rewrite (skip_next ea e ez) by done. cbn [mbind result_bind]. rewrite Hnext.
      replace (zlen pre + zlen ea + 1) with (zlen pre + zlen (ea ++ [e])) by zlen.
      exists b', (li ++ [v]), (w ++ [v]), (ma ++ [v]), mz, (ea ++ [e]), ez. do 3 eexists. split; [reflexivity|].
      split; [|rewrite !zlen_cons; lia].
      apply (inverse_next _ _ _ _ _ _ _ _ _ _ _ _ _ b' v (ma ++ [v]) mz (ea ++ [e]) ez Hinv Hf'); try done;
        [by rewrite Hm, <-app_assoc|by rewrite He, <-app_assoc|zlen|zlen].
    + assert (keyOfValue e < keyOfValue v) as Hgt by lia.
      pose proof (smerge_greater v mz e ez Hgt Hsm Hse) as Hx. rewrite Hx in Hs, Hz.
      destruct (Z.eqb_spec (keyOfValue e) lastKey) as [Hl|Hl].
      { destruct Hlast as [Hnull|Hk].
        - destruct no_null. rewrite He, keys_app, elem_of_app, <-Hnull, <-Hl. right. by left.
        - apply sorted_middle in Hs as (_&_&Hb&_). apply below_keys with (k' := lastKey) in Hb; [lia|done]. }
      cbn [negb]. destruct (append_filling s ws b li w e _ out Hf Hs Hz Hlt) as (b'&->&Hf'). cbn [mbind result_bind].
      replace (zlen pre + zlen ea + 1) with (zlen pre + zlen (ea ++ [e])) by zlen.
      exists b', (li ++ [e]), (w ++ [e]), ma, (v :: mz), (ea ++ [e]), ez. do 3 eexists. split; [reflexivity|].
      split; [|rewrite !zlen_cons; lia].
      apply (inverse_next _ _ _ _ _ _ _ _ _ _ _ _ _ b' e ma (v :: mz) (ea ++ [e]) ez Hinv Hf'); try done;
        [by rewrite He, <-app_assoc|zlen|zlen].
Qed.

(** Only the batch has elements left. *)
Lemma inverse_batch_ok s ws b li w ma ea ez batchIndex readIndex lastKey out :
  inverse_inv s ws b li w ma [] ea ez batchIndex readIndex lastKey out → zlen li < MaxSize → 0 < zlen ez →
  let n := Z.min (MaxSize - PmaEntry.size b) (Interval.right batchRange - batchIndex) in
  ∃ b' x ez', PmaEntry.merge b batch batchIndex (u16 n) = Ok b' ∧ ez = x ++ ez' ∧ 0 < zlen x ∧
    inverse_inv s ws b' (li ++ x) (w ++ x) ma [] (ea ++ x) ez' (batchIndex + n) readIndex lastKey out.
Proof.
  intros Hinv Hlt Hne n. destruct (inverse_keys _ _ _ _ _ _ _ _ _ _ _ _ _ Hinv) as (_&Hse&Hs&Hz).
  pose proof Hinv as [Hm He Hr Hi Hf Hw Hlast Hen]. rewrite smerge_empty in Hs, Hz, Hw by done.
  destruct (filling_size _ _ _ _ _ _ _ _ _ _ Hf) as [Hsize _]. pose proof MaxSize_u16.
  pose proof (zlen_nonneg li) as Hli0.
  assert (Interval.right batchRange - batchIndex = zlen ez) as Hrem by (rewrite Hi; cbn [batchRange Interval.right]; rewrite He; zlen).
  unfold n. rewrite Hsize, Hrem.
  destruct (split_at ez (Z.min (MaxSize - zlen li) (zlen ez))) as (x&ez'&->&Hx); [lia|]. rewrite <-Hx.
  rewrite u16_small by lia.
  destruct (merge_filling s ws b li w (pre ++ ea) x (ez' ++ post) ez' out Hf Hs Hz) as (b'&Hmerge&Hf');
    [intros ->; rewrite zlen_nil in Hx; lia|lia|].
  exists b', x, ez'. split_and!; [|done|lia|].
  - rewrite zlen_app, <-Hi, <-app_assoc in Hmerge. unfold batch. rewrite He, <-!app_assoc. exact Hmerge.
  - rewrite zlen_app in Hx. apply sorted_app in Hse as (_&Hse'&_).
    split; try done; rewrite ?zlen_app, ?zlen_nil in *; try lia.
    + by rewrite He, <-app_assoc.
    + by rewrite Hw, smerge_empty, <-app_assoc.
    + rewrite keys_app, elem_of_app. tauto.
Qed.

(** Only the block section has elements left. *)
Lemma inverse_block_ok s ws b li w ma mz ea batchIndex readIndex lastKey out :
  inverse_inv s ws b li w ma mz ea [] batchIndex readIndex lastKey out → zlen li < MaxSize → 0 < zlen mz →
  let n := Z.min (u16 (MaxSize - PmaEntry.size b)) (u16 (Interval.right mergeRange - readIndex)) in
  ∃ b' x mz', PmaEntry.merge b (m0 ++ m ++ m1 ++ rest) readIndex n = Ok b' ∧ mz = x ++ mz' ∧ 0 < zlen x ∧
    inverse_inv s ws b' (li ++ x) (w ++ x) (ma ++ x) mz' ea [] batchIndex (u16 (readIndex + n)) lastKey out.
Proof.
  intros Hinv Hlt Hne n. destruct (inverse_keys _ _ _ _ _ _ _ _ _ _ _ _ _ Hinv) as (Hsm&_&Hs&Hz).
  pose proof Hinv as [Hm He Hr Hi Hf Hw Hlast Hen]. rewrite smerge_nil in Hs, Hz, Hw.
  destruct (filling_size _ _ _ _ _ _ _ _ _ _ Hf) as [Hsize _]. pose proof merge_block_size as (Hb0&Hb1&Hb2).
  pose proof (zlen_nonneg li) as Hli0. assert (zlen m = zlen ma + zlen mz) as Hlen by (rewrite Hm; zlen).
  assert (Interval.right mergeRange - readIndex = zlen mz) as Hrem by (rewrite Hr; cbn [mergeRange Interval.right]; lia).
  pose proof (zlen_nonneg ma). unfold n. rewrite Hsize, Hrem. rewrite !(u16_small (zlen mz)), !(u16_small (MaxSize - _)) by lia.
  destruct (split_at mz (Z.min (MaxSize - zlen li) (zlen mz))) as (x&mz'&->&Hx); [lia|]. rewrite <-Hx.
  destruct (merge_filling s ws b li w (m0 ++ ma) x (mz' ++ m1 ++ rest) mz' out Hf Hs Hz) as (b'&Hmerge&Hf');
    [intros ->; rewrite zlen_nil in Hx; lia|lia|].
  exists b', x, mz'. rewrite (u16_small (readIndex + zlen x)) by (rewrite zlen_app in Hlen, Hx; pose proof (zlen_nonneg m0); pose proof (zlen_nonneg mz'); pose proof (zlen_nonneg x); lia).
  split_and!; [|done|lia|].
  - rewrite zlen_app, <-Hr, <-app_assoc in Hmerge. rewrite Hm, <-!app_assoc. exact Hmerge.
  - rewrite zlen_app in Hx. apply sorted_app in Hsm as (_&Hsm'&_).
    split; try done; rewrite ?zlen_app, ?zlen_nil in *; try lia.
    + by rewrite Hm, <-app_assoc.
    + by rewrite Hw, smerge_nil, <-app_assoc.
    + rewrite keys_app, elem_of_app. tauto.
Qed.

Lemma inverseInsert_ok s ws b li w ma mz ea ez batchIndex readIndex lastKey out :
  inverse_inv s ws b li w ma mz ea ez batchIndex readIndex lastKey out →
  zlen li < MaxSize → 0 < zlen mz + zlen ez → at_ (pma s) mergeBlock = Some mb →
  ∃ b' li' w' ma' mz' ea' ez' batchIndex' readIndex' lastKey',
    inverseInsert s batch batchRange mergeRange mergeBlock (b, batchIndex, readIndex, lastKey) =
      Ok (b', batchIndex', readIndex', lastKey') ∧
    inverse_inv s ws b' li' w' ma' mz' ea' ez' batchIndex' readIndex' lastKey' out ∧
    zlen mz' + zlen ez' < zlen mz + zlen ez.
Proof.
  intros Hinv Hlt Hpos Hat. pose proof Hinv as [Hm He Hr Hi Hf _ _ _]. unfold inverseInsert.
  assert (zlen m = zlen ma + zlen mz) as Hlm by (rewrite Hm; zlen).
  assert (zlen es = zlen ea + zlen ez) as Hle by (rewrite He; zlen).
  pose proof block_is as [(Hblk&_) _].
  replace (batchIndex <? Interval.right batchRange) with (0 <? zlen ez)
    by (cbn [batchRange Interval.right]; destruct (Z.ltb_spec 0 (zlen ez)), (Z.ltb_spec batchIndex (zlen pre + zlen es)); lia).
  replace (Interval.right batchRange <=? batchIndex) with (zlen ez <=? 0)
    by (cbn [batchRange Interval.right]; destruct (Z.leb_spec (zlen ez) 0), (Z.leb_spec (zlen pre + zlen es) batchIndex); lia).
  replace (readIndex <? Interval.right mergeRange) with (0 <? zlen mz)
    by (cbn [mergeRange Interval.right]; destruct (Z.ltb_spec 0 (zlen mz)), (Z.ltb_spec readIndex (zlen m0 + zlen m)); lia).
  replace (Interval.right mergeRange <=? readIndex) with (zlen mz <=? 0)
    by (cbn [mergeRange Interval.right]; destruct (Z.leb_spec (zlen mz) 0), (Z.leb_spec (zlen m0 + zlen m) readIndex); lia).
  destruct mz as [|v mz], ez as [|e ez]; [zlen|..].
  - change (zlen (@nil ValueType)) with 0. cbn [Z.ltb Z.leb Z.compare]. rewrite ?andb_false_r.
    destruct (Z.ltb_spec 0 (zlen (e :: ez))) as [Hlz|]; [|zlen]. cbn [andb].
    destruct (inverse_batch_ok _ _ _ _ _ _ _ _ _ _ _ _ Hinv Hlt Hlz) as (b'&x&ez'&->&Hez&Hx&Hinv').
    cbn [mbind result_bind]. do 10 eexists. split; [reflexivity|]. split; [exact Hinv'|].
    rewrite Hez, zlen_nil. zlen.
  - change (zlen (@nil ValueType)) with 0. cbn [Z.ltb Z.leb Z.compare andb].
    destruct (Z.ltb_spec 0 (zlen (v :: mz))) as [Hlz|]; [|zlen]. cbn [andb].
    rewrite (zget_at _ _ _ Hat). cbn [mbind result_bind]. unfold PmaEntry.deref. rewrite Hblk. cbn [mbind result_bind].
    rewrite <-!app_assoc.
    destruct (inverse_block_ok _ _ _ _ _ _ _ _ _ _ _ _ Hinv Hlt Hlz) as (b'&x&mz'&->&Hmz&Hx&Hinv').
    cbn [mbind result_bind]. do 10 eexists. split; [reflexivity|]. split; [exact Hinv'|].
    rewrite Hmz, zlen_nil. zlen.
  - destruct (Z.ltb_spec 0 (zlen (v :: mz))) as [_|]; [|zlen].
    destruct (Z.ltb_spec 0 (zlen (e :: ez))) as [_|]; [|zlen]. cbn [andb].
    rewrite (zget_at _ _ _ Hat). cbn [mbind result_bind]. by apply (inverseStep_ok _ _ _ _ _ _ _ _ _ _ _ _ _ _ _ Hinv).
Qed.

Lemma inverseBody_ok s ws b li w ma mz ea ez batchIndex readIndex lastKey out :
  inverse_inv s ws b li w ma mz ea ez batchIndex readIndex lastKey out → 0 < zlen mz + zlen ez →
  ∃ s' ws' b' li' w' ma' mz' ea' ez' batchIndex' readIndex' lastKey' out',
    inverseBody batch batchRange mergeRange mergeBlock range (s, (b, batchIndex, readIndex, lastKey), out) =
      Ok (s', (b', batchIndex', readIndex', lastKey'), out') ∧
    inverse_inv s' ws' b' li' w' ma' mz' ea' ez' batchIndex' readIndex' lastKey' out' ∧
    zlen mz' + zlen ez' < zlen mz + zlen ez.
Proof.
  intros Hinv Hpos. pose proof Hinv as [Hm He Hr Hi Hf Hw Hlast Hen]. pose proof MinSize_two. pose proof MaxSize_double.
  assert (zlen m = zlen ma + zlen mz) as Hlm by (rewrite Hm; zlen).
  assert (zlen es = zlen ea + zlen ez) as Hle by (rewrite He; zlen).
  pose proof (zlen_nonneg mz). pose proof (zlen_nonneg ez).
  destruct (filling_size _ _ _ _ _ _ _ _ _ _ Hf) as [Hsize Hmax].
  assert (∃ s1 ws1 b1 li1 out1, (if PmaEntry.size b =? MaxSize then
       '(s, newBlock) ← nextInsertionBlock s b
          (Z.max (Interval.right batchRange - batchIndex) (Interval.right mergeRange - readIndex)) range out mergeBlock;
       Ok (s, newBlock, out + 1) else Ok (s, b, out)) = Ok (s1, b1, out1) ∧
    inverse_inv s1 ws1 b1 li1 w ma mz ea ez batchIndex readIndex lastKey out1 ∧ zlen li1 < MaxSize)
    as (s1&ws1&b1&li1&out1&Hnext&Hinv1&Hlt1).
  { destruct (Z.eqb_spec (PmaEntry.size b) MaxSize) as [Hfull|Hroom]; cycle 1.
    { exists s, ws, b, li, out. split_and!; [done|done|lia]. }
    replace (Interval.right batchRange - batchIndex) with (zlen ez) by (cbn [batchRange Interval.right]; lia).
    replace (Interval.right mergeRange - readIndex) with (zlen mz) by (cbn [mergeRange Interval.right]; lia).
    destruct (filling_next s0 range 0 mergeBlock map_wf space s ws b li w out (Z.max (zlen ez) (zlen mz)) Hf)
      as (s1&b1&ws1&li1&->&Hf1&Hlt1&Hcase); [lia| |].
    { pose proof (filling_bound _ _ _ _ _ _ _ _ _ _ Hf) as Hbound.
      assert (zlen w ≤ zlen m + zlen es) as Hwl.
      { pose proof (length_smerge m es) as Hl. rewrite Hw, zlen_app in Hl. pose proof (zlen_nonneg (smerge mz ez)). lia. }
      pose proof (space_enough (zlen ws + 2) ltac:(lia)). unfold lo in *. lia. }
    cbn [mbind result_bind]. exists s1, ws1, b1, li1, (out + 1). split_and!; [done| |done].
    split; try done. destruct Hcase as [[? ?]|[? ->]]; [lia|]. rewrite zlen_nil. lia. }
  unfold inverseBody. rewrite Hnext. cbn [mbind result_bind].
  assert (at_ (pma s1) mergeBlock = Some mb) as Hat.
  { pose proof (pu_fixed _ _ _ _ _ (fi_pushed _ _ _ _ _ _ _ _ _ _ (ii_filling _ _ _ _ _ _ _ _ _ _ _ _ _ Hinv1))) as F.
    unfold fixed in F. assert (pma s1 = pma s0) as -> by congruence. done. }
  destruct (inverseInsert_ok _ _ _ _ _ _ _ _ _ _ _ _ _ Hinv1 Hlt1 Hpos Hat)
    as (b'&li'&w'&ma'&mz'&ea'&ez'&bi'&ri'&lk'&->&Hinv'&Hdec). cbn [mbind result_bind].
  pose proof Hinv' as [Hm' He' Hr' Hi' Hf' _ _ Hen'].
  assert (zlen m = zlen ma' + zlen mz') as Hlm' by (rewrite Hm'; zlen).
  assert (zlen es = zlen ea' + zlen ez') as Hle' by (rewrite He'; zlen).
  destruct (filling_size _ _ _ _ _ _ _ _ _ _ Hf') as [Hsize' _].
  rewrite assert_ok; cycle 1.
  { rewrite !orb_true_iff. cbn [batchRange mergeRange Interval.right]. rewrite !Z.ltb_lt, Z.leb_le.
    pose proof (zlen_nonneg mz'). pose proof (zlen_nonneg ez'). lia. }
  cbn [mbind result_bind]. do 13 eexists. split; [reflexivity|]. split; [exact Hinv'|done].
Qed.

(** The loop stops when both sequences are merged. *)
Lemma inverse_loop b0 (n : nat) :
  represents b0 [] (replicate (Z.to_nat MaxSize) zeroValue) → zlen es + zlen m < Z.of_nat n →
  wp (while n
    (λ '(_, (_, batchIndex, readIndex, _), _),
       Ok ((batchIndex <? zlen pre + zlen es) || (readIndex <? zlen m0 + zlen m)))
    (inverseBody batch batchRange mergeRange mergeBlock range)
    (s0, (b0, zlen pre, u16 (zlen m0), NULL_KEY), 0))
  (λ '(s, (b, batchIndex, readIndex, lastKey), out), ∃ ws li w ma ea,
    inverse_inv s ws b li w ma [] ea [] batchIndex readIndex lastKey out).
Proof.
  intros Hb0 Hn. pose proof merge_block_size as (?&?&?).
  apply (wp_while (λ '(s, (b, batchIndex, readIndex, lastKey), out), ∃ ws li w ma mz ea ez,
      inverse_inv s ws b li w ma mz ea ez batchIndex readIndex lastKey out)
    (λ '(_, (_, batchIndex, readIndex, _), _), zlen pre + zlen es - batchIndex + (zlen m0 + zlen m - readIndex))).
  - intros [[s [[[b bi] ri] lk]] out] (ws&li&w&ma&mz&ea&ez&Hinv). pose proof Hinv as [Hm He Hr Hi _ _ _ _].
    assert (zlen m = zlen ma + zlen mz) as Hlm by (rewrite Hm; zlen).
    assert (zlen es = zlen ea + zlen ez) as Hle by (rewrite He; zlen).
    pose proof (zlen_nonneg mz). pose proof (zlen_nonneg ez). split; [lia|]. cbn [wp].
    destruct (decide (0 < zlen mz + zlen ez)) as [Hpos|Hdone].
    + replace ((bi <? zlen pre + zlen es) || (ri <? zlen m0 + zlen m)) with true
        by (symmetry; rewrite orb_true_iff, !Z.ltb_lt; lia).
      destruct (inverseBody_ok _ _ _ _ _ _ _ _ _ _ _ _ _ Hinv Hpos)
        as (s'&ws'&b'&li'&w'&ma'&mz'&ea'&ez'&bi'&ri'&lk'&out'&->&Hinv'&Hdec).
      cbn [wp]. split; [by do 7 eexists|]. destruct Hinv' as [Hm' He' -> -> _ _ _ _].
      assert (zlen m = zlen ma' + zlen mz') as Hlm' by (rewrite Hm'; zlen).
      assert (zlen es = zlen ea' + zlen ez') as Hle' by (rewrite He'; zlen). lia.
    + replace ((bi <? zlen pre + zlen es) || (ri <? zlen m0 + zlen m)) with false
        by (symmetry; rewrite orb_false_iff, !Z.ltb_ge; lia).
      assert (mz = [] ∧ ez = []) as [-> ->] by (destruct mz, ez; (split; done) || zlen).
      by do 5 eexists.
  - exists [], [], [], [], m, [], es. split; try done.
    + rewrite u16_small by (pose proof (zlen_nonneg m); lia). zlen.
    + zlen.
    + eapply filling_start; [exact Hb0|]. apply appendable_new.
    + by left.
  - rewrite u16_small by (pose proof (zlen_nonneg m); lia).
    pose proof (zlen_nonneg m). pose proof (zlen_nonneg es). lia.
Qed.

Lemma inverseMerge_ok :
  ∃ s' ws, inverseMerge s0 batch batchRange mergeRange inputRange range = Ok (s', zlen ws) ∧
    pushed s0 s' (lo + 0) ws mergeBlock ∧ elements ws = smerge m es ∧
    Forall (λ x, good_size x.1) ws ∧ stales [keyOfValue zeroValue] ws.
Proof.
  unfold inverseMerge. pose proof MinSize_two. pose proof MaxSize_double. pose proof merge_block_size as (?&?&?).
  cbn [batchRange mergeRange Interval.length Interval.left Interval.right]. pose proof enough.
  pose proof (zlen_nonneg m). pose proof (zlen_nonneg es).
  rewrite assert_ok by (apply Z.leb_le; unfold Interval.length; simpl; lia). cbn [mbind result_bind].
  destruct (allocateBlock_ok PmaEntry.null_entry) as (b0&->&_&Hb0); [done..|]. cbn [mbind result_bind].
  destruct (proj1 (wp_returns _ _) (inverse_loop b0 (S (Z.to_nat (Interval.length batchRange + Interval.length mergeRange)))
    Hb0 ltac:(unfold Interval.length; simpl; lia)))
    as ([[s1 [[[b1 bi] ri] lk]] out]&Hloop&ws&li&w&ma&ea&[Hm He -> -> Hf Hw Hlast Hen]).
  fold batchRange mergeRange mergeBlock. rewrite Hloop. cbn [mbind result_bind].
  change (zlen (@nil ValueType)) with 0 in Hen. rewrite app_nil_r in Hm, He. subst ma ea.
  rewrite smerge_nil, app_nil_r in Hw.
  pose proof (filling_bound _ _ _ _ _ _ _ _ _ _ Hf) as Hbound.
  pose proof (length_smerge m es) as Hl. rewrite Hw in Hl. pose proof (fi_out _ _ _ _ _ _ _ _ _ _ Hf) as Ho.
  destruct (filling_last s0 range 0 mergeBlock map_wf space s1 ws b1 li w out Hf ltac:(lia))
    as (s2&rest'&->&Hp&Hel&Hg&Hst).
  { pose proof (space_enough (zlen ws + 1) ltac:(lia)). unfold lo in *. lia. }
  cbn [mbind result_bind]. rewrite !assert_ok by (apply Z.eqb_refl). cbn [mbind result_bind].
  exists s2, (ws ++ [(li, rest')]). split_and!; [do 2 f_equal; zlen|done|by rewrite Hw|done|done].
Qed.

End inverse_merge.
End fill.
