(* ===== verification/SdsTasks.v ===== *)
(** * Creating the rebalancing tasks

    [createTasks] turns the nodes to rebalance that are not dominated into tasks and takes
    the flags of the others back. *)

From S2P Require Export SdsRebalance RebalancingTasks.
Import BatchedSparseArray RebalancingPhase.
Import BinaryRebalancingManager (Manager, logCapacity, nextLevelRecountingNodes).

Section tasks.
Context `{T : SdsTypes} `{C : BlockConfig} `{R : RebalancingConfig} `{D : DensityManager}.
Context `{H : ConcurrentBucketMap.Hash} `{P : ThreadConfig}.
Implicit Types (s : Sds) (m : Manager) (l i : Z) (nodes roots : list RebalancingNode).

(** Only flags differ. *)
Record same_counts m m' : Prop := {
  sc_shape : shape m';
  sc_log : logCapacity m' = logCapacity m;
  sc_size : BinaryRebalancingManager.size m' = BinaryRebalancingManager.size m;
  sc_next : nextLevelRecountingNodes m' = nextLevelRecountingNodes m;
  sc_counts : ∀ l i, node_in (logCapacity m) l i → cnt m' l i = cnt m l i;
}.

Lemma same_counts_refl m : shape m → same_counts m m.
Proof. done. Qed.

Lemma same_counts_trans m m1 m2 : same_counts m m1 → same_counts m1 m2 → same_counts m m2.
Proof.
  intros [S1 L1 Z1 N1 C1] [S2 L2 Z2 N2 C2]. rewrite L1 in C2. split; [done|congruence..|].
  intros l i Hn. by rewrite C2, C1.
Qed.

Lemma set_manager_id s : set_rebalancingManager s (rebalancingManager s) = s.
Proof. by destruct s. Qed.

(** The task of a node. *)
Definition task_of m (nd : RebalancingNode) : RebalancingTask :=
  mkRebalancingTask (mkInterval (node_left (level nd) (index nd)) (node_left (level nd) (index nd + 1)))
    (cnt m (level nd) (index nd)) nd.

Lemma getRebalancingTask_ok m nd : shape m → 0 < AggregateWidth →
  node_in (logCapacity m) (level nd) (index nd) → level nd ≤ logCapacity m →
  BinaryRebalancingManager.getRebalancingTask m nd = Ok (task_of m nd).
Proof.
  intros Hm HW Hn Hl. unfold BinaryRebalancingManager.getRebalancingTask. destruct nd as [l i]. simpl in *.
  rewrite (rebalancingRange_ok m Hm l i) by done. cbn [mbind result_bind].
  unfold BinaryRebalancingManager.numberOfBlocksIn. cbn [level index]. rewrite (shape_super m Hm).
  destruct (Z.eqb_spec l (logCapacity m + 1)); [lia|]. by rewrite (blocksOf_ok m l i).
Qed.

(** Taking a flag back. *)
Lemma clearRebalancedFlag_ok m nd : shape m → node_in (logCapacity m) (level nd) (index nd) →
  ∃ m', BinaryRebalancingManager.clearRebalancedFlag m nd = Ok m' ∧ same_counts m m' ∧
    ∀ l i, node_in (logCapacity m) l i →
      flg m' l i = if bool_decide (mkRebalancingNode l i = nd) then false else flg m l i.
Proof.
  intros Hm Hn. unfold BinaryRebalancingManager.clearRebalancedFlag.
  rewrite (assertIndex_ok m (level nd) (index nd)) by done. cbn [mbind result_bind].
  destruct (storeRebalanced_ok m (level nd) (index nd) false) as (m'&->&(Hs&Hlog&Hnext&Hsz&Hcell&Hother)); [done..|].
  exists m'. split; [done|]. split.
  - split; try done. intros l i Hn'. unfold cnt. destruct (decide ((l, i) = (level nd, index nd))) as [[= -> ->]|Hne].
    + by rewrite Hcell.
    + by rewrite Hother.
  - intros l i Hn'. unfold flg. destruct (decide ((l, i) = (level nd, index nd))) as [[= -> ->]|Hne].
    + rewrite Hcell, bool_decide_eq_true_2; [done|]. by destruct nd.
    + rewrite Hother, bool_decide_eq_false_2 by (done || intros <-; done). done.
Qed.
(** ** The loop over the nodes *)

Section create.
Variable (s : Sds).
Let m0 := rebalancingManager s.
Let nodes := rebalancingNodes s.
Hypothesis (ok : nodes_ok m0 nodes) (HW : 0 < AggregateWidth).

(** The nodes [done] have been looked at, those of [roots] have become tasks. *)
Record creating (done : list RebalancingNode) m roots : Prop := {
  cr_counts : same_counts m0 m;
  cr_flags : ∀ nd, node_in (logCapacity m0) (level nd) (index nd) →
    flg m (level nd) (index nd) = true ↔ nd ∈ nodes ∧ ¬ (nd ∈ done ∧ node_dominated m0 nd);
  cr_roots : ∀ nd, nd ∈ roots ↔ nd ∈ done ∧ ¬ node_dominated m0 nd;
  cr_nodup : NoDup roots;
}.

(** The undominated nodes above a node are still flagged. *)
Lemma still_dominated done m roots nd : creating done m roots → nd ∈ nodes →
  dominated m (level nd) (index nd) ↔ node_dominated m0 nd.
Proof.
  intros [[Hs Hlog _ _ _] Hf _ _] Hnd. destruct (no_levels _ _ ok nd Hnd) as [Hin Hl].
  pose proof (level_nonneg _ _ _ ok Hnd) as [Hl0 Hi0]. split.
  - intros (k&Hk&Hle&Hfl). rewrite Hlog in Hle. exists k. split_and!; [done|done|].
    assert (node_in (logCapacity m0) (level nd + k) (index nd / 2 ^ k)) as Hn by (apply node_ancestor; (done || lia)).
    apply (no_flags _ _ ok); [done|]. by apply (Hf (mkRebalancingNode (level nd + k) (index nd / 2 ^ k)) Hn).
  - intros Hd. destruct (dominating _ _ _ ok Hnd Hd) as (up&Hup&Hlt&Hab).
    destruct (topmost _ _ _ ok Hup) as (top&Htop&Hund&Hab'). destruct (above_trans _ _ _ _ _ _ Hab' Hab) as [Hll Hix].
    destruct (no_levels _ _ ok top Htop) as [Htin Htl]. destruct Hab' as [Hlu _].
    exists (level top - level nd). split_and!; [lia|lia|].
    replace (level nd + (level top - level nd)) with (level top) by lia. rewrite <-Hix.
    apply Hf; [done|]. split; [done|]. tauto.
Qed.

Lemma createTask_ok done nd m roots : creating done m roots → nd ∈ nodes → (nd ∉ done) →
  ∃ m' roots', createTask nd (set_rebalancingManager s m) (task_of m0 <$> roots) =
      Ok (set_rebalancingManager s m', task_of m0 <$> roots') ∧ creating (done ++ [nd]) m' roots'.
Proof.
  intros Hcr Hnd Hfresh. pose proof Hcr as [[Hs Hlog Hsz Hnx Hcnt] Hf Hr Hdup].
  destruct (no_levels _ _ ok nd Hnd) as [Hin Hl]. unfold createTask. cbn [rebalancingManager set_rebalancingManager].
  destruct nd as [l i]. cbn [level index] in *.
  destruct (rebalancingNodeDominated_ok m l i Hs) as (m1&b&->&Hb&Hs1&Hlog1&Hcnt1&Hflg1&Hsz1&Hnx1);
    [by rewrite Hlog|lia| |].
  { apply (Hf (mkRebalancingNode l i)); [done|]. tauto. }
  cbn [mbind result_bind]. rewrite Hlog in Hcnt1, Hflg1.
  pose proof (still_dominated _ _ _ (mkRebalancingNode l i) Hcr Hnd) as Hdom. cbn [level index] in Hdom.
  assert (same_counts m0 m1) as Hsc.
  { split; try congruence. intros l' i' Hn'. rewrite Hcnt1 by done. by apply Hcnt. }
  assert (∀ nd, nd ∈ done ++ [mkRebalancingNode l i] ↔ nd ∈ done ∨ nd = mkRebalancingNode l i) as Hsnoc.
  { intros nd. by rewrite elem_of_app, list_elem_of_singleton. }
  destruct b.
  - destruct (clearRebalancedFlag_ok m1 (mkRebalancingNode l i) Hs1) as (m2&Hc&Hsc2&Hflg2);
      [by rewrite Hlog1, Hlog|]. rewrite Hlog1, Hlog in Hflg2.
    cbn [rebalancingManager set_rebalancingManager] in Hc |- *. rewrite Hc. cbn [mbind result_bind].
    exists m2, roots. split; [done|]. assert (node_dominated m0 (mkRebalancingNode l i)) as Hd by tauto. split.
    + by eapply same_counts_trans.
    + intros nd Hn. rewrite Hflg2, Hflg1 by done. destruct (decide (nd = mkRebalancingNode l i)) as [->|Hne].
      * rewrite bool_decide_eq_true_2 by done. rewrite Hsnoc. split; [done|]. intros [_ Hx]. destruct Hx. tauto.
      * rewrite !bool_decide_eq_false_2 by (destruct nd; simpl in *; congruence). rewrite Hf, Hsnoc by done. tauto.
    + intros nd. rewrite Hr, Hsnoc. split; [tauto|]. intros [[?| ->] ?]; tauto.
    + done.
  - rewrite (getRebalancingTask_ok m1 (mkRebalancingNode l i)) by (rewrite ?Hlog1, ?Hlog; done).
    cbn [mbind result_bind]. exists m1, (roots ++ [mkRebalancingNode l i]). split.
    + rewrite fmap_app. cbn [fmap list_fmap]. do 4 f_equal. unfold task_of. cbn [level index].
      by rewrite (sc_counts _ _ Hsc).
    + assert (¬ node_dominated m0 (mkRebalancingNode l i)) as Hd by (intros ?; destruct Hb as [_ Hb]; discriminate Hb; tauto).
      split; [done|..].
      * intros nd Hn. rewrite Hflg1 by done. destruct (decide (nd = mkRebalancingNode l i)) as [->|Hne].
        -- rewrite bool_decide_eq_true_2 by done. simpl. tauto.
        -- rewrite bool_decide_eq_false_2 by (destruct nd; simpl in *; congruence). rewrite Hf, Hsnoc by done. tauto.
      * intros nd. rewrite elem_of_app, list_elem_of_singleton, Hr, Hsnoc. split; [|tauto]. intros [?| ->]; tauto.
      * apply NoDup_app. split_and!; [done| |apply NoDup_singleton]. intros nd Hnd' ->%list_elem_of_singleton.
        apply Hr in Hnd'. tauto.
Qed.

Lemma createTasks_ok :
  ∃ m roots, createTasks s =
      Ok (set_rebalancingTasks (set_rebalancingNodes (set_rebalancingManager s m) []) (task_of m0 <$> roots)) ∧
    same_counts m0 m ∧ flags_match m roots ∧ NoDup roots ∧
    (∀ nd, nd ∈ roots ↔ nd ∈ nodes ∧ ¬ node_dominated m0 nd).
Proof.
  cut (wp (createTasks s) (λ s', ∃ m roots,
    s' = set_rebalancingTasks (set_rebalancingNodes (set_rebalancingManager s m) []) (task_of m0 <$> roots) ∧
    same_counts m0 m ∧ flags_match m roots ∧ NoDup roots ∧ (∀ nd, nd ∈ roots ↔ nd ∈ nodes ∧ ¬ node_dominated m0 nd))).
  { intros (s'&->&m&roots&->&?)%wp_returns. by exists m, roots. }
  unfold createTasks. apply wp_bind. fold nodes.
  apply (wp_for (λ k '(s', created), ∃ done todo m roots, nodes = done ++ todo ∧ zlen done = k ∧
    s' = set_rebalancingManager s m ∧ created = task_of m0 <$> roots ∧ creating done m roots)).
  - intros k [s' created] Hk (done&todo&m&roots&Hn&Hd&->&->&Hcr).
    destruct todo as [|nd todo]; [rewrite app_nil_r in Hn; rewrite Hn in Hk; lia|].
    change (rebalancingNodes (set_rebalancingManager s m)) with nodes.
    rewrite (zget_at nodes k nd) by (rewrite Hn, <-Hd; apply at_middle). cbn [mbind result_bind].
    destruct (createTask_ok done nd m roots Hcr) as (m'&roots'&->&Hcr').
    + rewrite Hn. apply elem_of_app. right. by left.
    + pose proof (no_nodup _ _ ok) as Hdup. rewrite Hn in Hdup. apply NoDup_app in Hdup as (_&Hx&_).
      intros Hin. apply (Hx nd Hin). by left.
    + cbn [wp]. exists (done ++ [nd]), todo, m', roots'. split_and!; try done; [by rewrite <-app_assoc|zlen].
  - exists [], nodes, m0, []. split_and!; try done; [by rewrite set_manager_id|]. split.
    + apply same_counts_refl. apply ok.
    + intros [l i] Hn. cbn [level index] in *. rewrite (no_flags _ _ ok l i Hn). rewrite elem_of_nil. tauto.
    + intros nd. rewrite !elem_of_nil. tauto.
    + by apply NoDup_nil.
  - intros [s' created] (done&todo&m&roots&Hn&Hd&->&->&Hcr). pose proof (zlen_nonneg nodes).
    assert (todo = []) as ->.
    { rewrite Z.max_r in Hd by lia. rewrite Hn, zlen_app in Hd. pose proof (zlen_nonneg todo). destruct todo; [done|zlen]. }
    rewrite app_nil_r in Hn. subst done. cbn [wp]. exists m, roots. split; [done|].
    pose proof Hcr as [Hsc Hf Hr Hdup]. split_and!; [done| |done|].
    + intros l i. rewrite (sc_log _ _ Hsc). intros Hin. rewrite (Hf (mkRebalancingNode l i) Hin), Hr. split; [|tauto].
      intros [Hx Hy]. split; [done|]. tauto.
    + intros nd. rewrite Hr. done.
Qed.
End create.
End tasks.
