(* ===== verification/SdsMove.v ===== *)
(** * Moving the blocks of pma entries to the swap array

    A rebalancing task visits its entries in order; the block of an entry and then its
    buffer blocks are written, densely, to the swap array.  [moved s s' a b o rows] says
    that the entries [[a, b)] had the blocks [rows], which are now in the cells of the swap
    array from [o] on, and that nothing else has changed. *)

From S2P Require Export SdsRange SdsTasks.
Import BatchedSparseArray RebalancingPhase.
Import PmaEntry(PmaEntry).

Section move.
Context `{T : SdsTypes} `{C : BlockConfig}.
Context `{BC : !BlockConfigOk} `{HB : !HalfBlocks}.
Context `{R : RebalancingConfig} `{D : DensityManager}.
Context `{H : ConcurrentBucketMap.Hash} `{P : ThreadConfig}.
Implicit Types (s : Sds) (e y : PmaEntry) (row buf rows : list PmaEntry) (bs : list (list ValueType * list ValueType)).
Implicit Types (gs : list (list (list ValueType * list ValueType))) (i j k a b c o : Z).

(** ** The blocks of an entry *)

(** An entry with a block, as the assertions of the loops see it. *)
Definition live e : Prop := PmaEntry.isEmpty e = false ∧ 0 < PmaEntry.size e ∧ PmaEntry.head e ≠ NULL_KEY.

(** The cells of the buffer array in an interval. *)
Definition buffer_cells s (x : Interval) buf : Prop :=
  zlen buf = Interval.length x ∧ ∀ j y, at_ buf j = Some y → at_ (bufferArray s) (Interval.left x + j) = Some y.

Definition main_row e : list PmaEntry := if PmaEntry.isEmpty e then [] else [e].

Definition cells s (x : Interval) : list PmaEntry :=
  (λ j, default PmaEntry.null_entry (at_ (bufferArray s) (Interval.left x + j))) <$> seqZ 0 (Interval.length x).

(** The blocks of entry [i], and of the entries [[a, b)]. *)
Definition row s i : list PmaEntry :=
  match at_ (pma s) i, at_ (bufferPointers s) i with
  | Some e, Some x => main_row e ++ cells s x
  | _, _ => []
  end.
Definition rows_of s a b : list PmaEntry := concat (row s <$> seqZ a (b - a)).

(** Entry [i] as it is stored. *)
Record entry_row s i e (x : Interval) buf : Prop := {
  er_pma : at_ (pma s) i = Some e;
  er_main : e = PmaEntry.null_entry ∨ (live e ∧ i < size s);
  er_pointer : at_ (bufferPointers s) i = Some x;
  er_cells : buffer_cells s x buf;
  er_live : Forall live buf;
}.

Lemma entry_is_live e x : entry_is e x → good_size x.1 → (NULL_KEY ∉ keys x.1) → live e.
Proof.
  intros He Hg Hn. pose proof He as [(_&_&Hsz) Hh]. split_and!.
  - by eapply entry_is_nonempty.
  - rewrite Hsz. destruct Hg as [Hg _]. pose proof MinSize_two. lia.
  - destruct x as [[|v l] rest]; simpl in *; [by pose proof (good_nonempty _ Hg)|]. intros Heq. apply Hn.
    rewrite <-Heq, Hh. apply elem_of_keys_cons. by left.
Qed.

Lemma layout_live s gs i bs x e :
  layout s gs → at_ gs i = Some bs → x ∈ bs → entry_is e x → live e.
Proof.
  intros Hl Hi Hx He. pose proof (la_blocks s gs Hl) as (Hg&_&_&Hn&_).
  assert (x ∈ concat gs) as Hin by (by eapply in_layout). rewrite Forall_forall in Hg.
  apply (entry_is_live e x He); [by apply Hg|]. intros Hk. apply Hn. apply elem_of_keys in Hk as (v&Hv&<-).
  apply elem_of_keys. exists v. split; [|done]. apply elements_elem. by exists x.
Qed.

Lemma at_tabulate {A} (f : Z → A) (n j : Z) : 0 ≤ j < n → at_ (f <$> seqZ 0 n) j = Some (f j).
Proof.
  intros Hj. unfold at_. destruct (Z.leb_spec 0 j); [|lia]. rewrite list_lookup_fmap, (proj2 (lookup_seqZ _ _ _ j)) by lia. done.
Qed.

Lemma zlen_tabulate {A} (f : Z → A) (n : Z) : 0 ≤ n → zlen (f <$> seqZ 0 n) = n.
Proof. intros. unfold zlen. rewrite length_fmap, length_seqZ. lia. Qed.

Lemma Forall2_at {A B} (Q : A → B → Prop) l l' :
  zlen l = zlen l' → (∀ j u v, at_ l j = Some u → at_ l' j = Some v → Q u v) → Forall2 Q l l'.
Proof.
  intros Hlen HQ. apply Forall2_same_length_lookup_2; [unfold zlen in Hlen; lia|].
  intros j u v Hu Hv. apply (HQ (Z.of_nat j)); by rewrite at_nat.
Qed.

Lemma Forall2_at_l {A B} (Q : A → B → Prop) l l' j u : Forall2 Q l l' → at_ l j = Some u → ∃ v, at_ l' j = Some v ∧ Q u v.
Proof.
  intros HQ [Hj Hx]%at_lookup. destruct (Forall2_lookup_l _ _ _ _ _ HQ Hx) as (v&Hv&?). exists v.
  split; [|done]. unfold at_. by destruct (Z.leb_spec 0 j); [|lia].
Qed.

Lemma layout_row s gs i bs :
  layout s gs → at_ gs i = Some bs → i < size s ∨ at_ (pma s) i = Some PmaEntry.null_entry →
  ∃ e x, entry_row s i e x (cells s x) ∧ Forall2 entry_is (main_row e ++ cells s x) bs.
Proof.
  intros Hl Hi Hused. destruct (la_entries s gs Hl i bs Hi) as (main&bf&->&e&x&He&Hm&Hx&[Hlen Hb]).
  set (buf := cells s x). pose proof (zlen_nonneg bf) as Hnn.
  assert (zlen buf = zlen bf) as Hbuf by (unfold buf, cells; rewrite Hlen; by apply zlen_tabulate).
  assert (∀ j y, at_ buf j = Some y → at_ (bufferArray s) (Interval.left x + j) = Some y ∧
    ∃ z, at_ bf j = Some z ∧ entry_is y z) as Hcell.
  { intros j y Hj. pose proof (at_Some_bound _ _ _ Hj) as Hjb. rewrite Hbuf in Hjb.
    destruct (at_in_bound bf j Hjb) as [z Hz]. destruct (Hb j z Hz) as (y'&Hy'&Hyz).
    unfold buf, cells in Hj. rewrite Hlen, at_tabulate in Hj by done. rewrite Hy' in Hj. injection Hj as <-. split; [done|]. by exists z. }
  assert (∀ z y, z ∈ main ++ bf → entry_is y z → live y) as Hlive by (intros z y Hz Hy; by eapply layout_live).
  exists e, x. fold buf. split; [split; try done|].
  - destruct Hused as [?|Hnull]; [|left; congruence].
    destruct main as [|z [|? ?]]; [by left| |done]. right. split; [|done]. by apply (Hlive z); [left|].
  - split; [lia|]. intros j y Hj. by apply Hcell.
  - apply Forall_forall. intros y [j Hj]%list_elem_of_lookup. rewrite <-at_nat in Hj.
    destruct (Hcell _ _ Hj) as (_&z&Hz&Hyz). apply (Hlive z); [|done]. apply elem_of_app. right.
    apply at_lookup in Hz as [_ Hz]. by eapply list_elem_of_lookup_2.
  - apply Forall2_app.
    + destruct main as [|z [|? ?]]; [by simpl in Hm; subst e; constructor| |done]. unfold main_row.
      rewrite (entry_is_nonempty _ _ Hm). by constructor.
    + apply Forall2_at; [done|]. intros j y z Hy Hz. destruct (Hcell _ _ Hy) as (_&z'&Hz'&?). congruence.
Qed.
(** ** Arrays *)

(** [rows] has been written to the cells from [o] on. *)
Definition written (w w' : list PmaEntry) o rows : Prop :=
  zlen w' = zlen w ∧ (∀ j y, at_ rows j = Some y → at_ w' (o + j) = Some y) ∧
  (∀ c, c < o ∨ o + zlen rows ≤ c → at_ w' c = at_ w c).

(** The cells that satisfy [Q] have been set to null. *)
Definition erased (f f' : list PmaEntry) (Q : Z → bool) : Prop :=
  zlen f' = zlen f ∧ ∀ c, at_ f' c = if Q c then Some PmaEntry.null_entry else at_ f c.

Lemma written_nil w o : written w w o [].
Proof. split_and!; try done. intros j y Hj. apply at_Some_bound in Hj. zlen. Qed.

Lemma written_app w w1 w2 o r1 r2 : written w w1 o r1 → written w1 w2 (o + zlen r1) r2 → written w w2 o (r1 ++ r2).
Proof.
  intros (L1&W1&O1) (L2&W2&O2). pose proof (zlen_nonneg r1). pose proof (zlen_nonneg r2). split_and!.
  - congruence.
  - intros j y Hj. rewrite at_app in Hj. destruct (Z.ltb_spec j (zlen r1)).
    + rewrite O2 by lia. by apply W1.
    + specialize (W2 _ _ Hj). rewrite <-W2. f_equal. lia.
  - intros c Hc. rewrite zlen_app in Hc. rewrite O2, O1 by lia. done.
Qed.

Lemma written_one w o y : 0 ≤ o < zlen w → written w (zupd w o y) o [y].
Proof.
  intros Ho. split_and!.
  - apply zlen_zupd.
  - intros j z Hj. pose proof (at_Some_bound _ _ _ Hj) as Hb. change (zlen [y]) with 1 in Hb. assert (j = 0) as -> by lia.
    injection Hj as <-. rewrite Z.add_0_r. by apply at_zupd_eq.
  - intros c Hc. change (zlen [y]) with 1 in Hc. apply at_zupd_ne; lia.
Qed.

Lemma erased_none f (Q : Z → bool) : (∀ c, Q c = false) → erased f f Q.
Proof. intros HQ. split; [done|]. intros c. by rewrite HQ. Qed.

Lemma erased_or f f1 f2 (Q1 Q2 Q : Z → bool) :
  erased f f1 Q1 → erased f1 f2 Q2 → (∀ c, Q c = Q1 c || Q2 c) → erased f f2 Q.
Proof.
  intros [L1 E1] [L2 E2] HQ. split; [congruence|]. intros c. rewrite E2, E1, HQ. by destruct (Q1 c), (Q2 c).
Qed.

Lemma erased_one f i (Q : Z → bool) : 0 ≤ i < zlen f → (∀ c, Q c = (c =? i)) → erased f (zupd f i PmaEntry.null_entry) Q.
Proof.
  intros Hi HQ. split; [apply zlen_zupd|]. intros c. rewrite HQ. destruct (Z.eqb_spec c i) as [->|].
  - by apply at_zupd_eq.
  - by rewrite at_zupd_ne by lia.
Qed.

(** Whether a cell is a buffer block of one of the entries [[a, b)]. *)
Definition in_pointer (ps : list Interval) i c : bool :=
  match at_ ps i with Some x => Interval.contains x c | None => false end.
Definition in_pointers (ps : list Interval) a b c : bool := existsb (λ i, in_pointer ps i c) (seqZ a (b - a)).

Lemma in_pointers_true ps a b c : in_pointers ps a b c = true ↔ ∃ i, a ≤ i < b ∧ in_pointer ps i c = true.
Proof.
  unfold in_pointers. rewrite existsb_exists. split; intros (i&Hi&Hc); exists i; (split; [|done]).
  - apply list_elem_of_In, elem_of_seqZ in Hi. lia.
  - apply list_elem_of_In, elem_of_seqZ. lia.
Qed.

Lemma in_pointers_split ps a b c x : a ≤ b → b ≤ c → in_pointers ps a c x = in_pointers ps a b x || in_pointers ps b c x.
Proof.
  intros Hab Hbc. apply eq_true_iff_eq. rewrite orb_true_iff, !in_pointers_true. split.
  - intros (i&Hi&Hx). destruct (decide (i < b)); [left|right]; exists i; (split; [lia|done]).
  - intros [(i&Hi&Hx)|(i&Hi&Hx)]; exists i; (split; [lia|done]).
Qed.

Lemma in_pointers_one ps a x c : at_ ps a = Some x → in_pointers ps a (a + 1) c = Interval.contains x c.
Proof.
  intros Hx. apply eq_true_iff_eq. rewrite in_pointers_true. unfold in_pointer. split.
  - intros (i&Hi&Hc). assert (i = a) as -> by lia. by rewrite Hx in Hc.
  - intros Hc. exists a. split; [lia|]. by rewrite Hx.
Qed.

(** The number of the buffer blocks of entries. *)
Definition pointer_length (ps : list Interval) i : Z := match at_ ps i with Some x => Interval.length x | None => 0 end.
Definition buffered_blocks ps a b : Z := sum_range (pointer_length ps) a b.

(** ** Moving *)

Definition with_arrays s (p w f : list PmaEntry) (r : Z) : Sds :=
  set_bufferReads (set_bufferArray (set_swapPma (set_pma s p) w) f) r.

Definition reads (n : Z) : Z := if NDEBUG then 0 else n.

Definition moved s s' a b o rows : Prop :=
  ∃ p w f, s' = with_arrays s p w f (bufferReads s + reads (buffered_blocks (bufferPointers s) a b)) ∧
    written (swapPma s) w o rows ∧ erased (pma s) p (λ i, (a <=? i) && (i <? b)) ∧
    erased (bufferArray s) f (in_pointers (bufferPointers s) a b).

Lemma reads_add n m : reads (n + m) = reads n + reads m.
Proof. unfold reads. by destruct NDEBUG. Qed.

Lemma moved_nil s a o : moved s s a a o [].
Proof.
  exists (pma s), (swapPma s), (bufferArray s). split_and!.
  - unfold buffered_blocks, reads. rewrite sum_range_nil by lia. destruct s; unfold with_arrays; simpl. f_equal. destruct NDEBUG; lia.
  - apply written_nil.
  - apply erased_none. intros c. destruct (Z.leb_spec a c), (Z.ltb_spec c a); (done || lia).
  - apply erased_none. intros c. apply not_true_is_false. intros (i&Hi&_)%in_pointers_true. lia.
Qed.

Lemma moved_trans s s1 s2 a b c o r1 r2 :
  a ≤ b → b ≤ c → moved s s1 a b o r1 → moved s1 s2 b c (o + zlen r1) r2 → moved s s2 a c o (r1 ++ r2).
Proof.
  intros Hab Hbc (p1&w1&f1&->&W1&P1&F1) (p2&w2&f2&->&W2&P2&F2). cbn [swapPma pma bufferArray bufferPointers bufferReads
    with_arrays set_bufferReads set_bufferArray set_swapPma set_pma] in *.
  exists p2, w2, f2. split_and!.
  - unfold with_arrays, buffered_blocks. simpl. rewrite (sum_range_split _ a b c), reads_add by lia. by rewrite Z.add_assoc.
  - by eapply written_app.
  - eapply erased_or; [exact P1|exact P2|]. intros i. simpl.
    destruct (Z.leb_spec a i), (Z.ltb_spec i b), (Z.leb_spec b i), (Z.ltb_spec i c); (done || lia).
  - eapply erased_or; [exact F1|exact F2|]. intros x. by apply in_pointers_split.
Qed.
(** ** One entry *)

(** The task may write [n] blocks from the cell [o] on. *)
Definition output_fits s (task : RebalancingTask) o (n : Z) : Prop :=
  ∀ c, o ≤ c < o + n → Interval.contains (pmaRange task) c = true ∧ 0 ≤ c < zlen (swapPma s).

Lemma output_fits_split s task o n m : 0 ≤ n → 0 ≤ m → output_fits s task o (n + m) →
  output_fits s task o n ∧ output_fits s task (o + n) m.
Proof. intros Hn Hm Hf. split; intros c Hc; apply Hf; lia. Qed.

Lemma moveToSwap_ok s task o out e :
  output_fits s task (o + out) 1 → moveToSwap s task o out e = Ok (set_swapPma s (zupd (swapPma s) (o + out) e)).
Proof.
  intros Hf. destruct (Hf (o + out) ltac:(lia)) as [Hc Hb]. unfold moveToSwap, getDenseWriteIndex, write_swapPma.
  rewrite (assert_ok _ Hc). cbn [mbind result_bind]. by rewrite (zset_in _ _ _ Hb).
Qed.

Lemma live_tests y : live y → (0 <? PmaEntry.size y) = true ∧ (PmaEntry.size y =? 0) = false ∧ (PmaEntry.head y =? NULL_KEY) = false.
Proof. intros (_&Hs&Hh). split_and!; [by apply Z.ltb_lt|apply Z.eqb_neq; lia|by apply Z.eqb_neq]. Qed.

Lemma moveBufferBlock_ok s task o out c y :
  at_ (bufferArray s) c = Some y → live y → output_fits s task (o + out) 1 →
  moveBufferBlock task o c (s, out) =
    Ok (with_arrays s (pma s) (zupd (swapPma s) (o + out) y) (zupd (bufferArray s) c PmaEntry.null_entry) (bufferReads s + reads 1), out + 1).
Proof.
  intros Hy Hl Hf. unfold moveBufferBlock. rewrite (zget_at _ _ _ Hy). cbn [mbind result_bind].
  destruct (live_tests y Hl) as (H1&H2&H3). pose proof Hl as (He&_&_). rewrite H1, H2, H3, He.
  rewrite !(assert_ok (Bool.eqb false false)) by done. cbn [mbind result_bind].
  rewrite (moveToSwap_ok _ _ _ _ _ Hf). cbn [mbind result_bind]. unfold write_bufferArray. cbn [bufferArray set_swapPma].
  rewrite zset_in by (by eapply at_Some_bound). cbn [mbind result_bind]. unfold countRead, with_arrays, reads.
  destruct NDEBUG; [|by destruct s]. destruct s; simpl. unfold set_bufferReads. simpl. by rewrite Z.add_0_r.
Qed.

Lemma moveBuffer_ok s task o out (x : Interval) buf :
  buffer_cells s x buf → Forall live buf → output_fits s task (o + out) (zlen buf) →
  ∃ w f, for_range (Interval.left x) (Interval.right x) (moveBufferBlock task o) (s, out) =
      Ok (with_arrays s (pma s) w f (bufferReads s + reads (zlen buf)), out + zlen buf) ∧
    written (swapPma s) w (o + out) buf ∧ erased (bufferArray s) f (Interval.contains x).
Proof.
  intros [Hlen Hcells] Hlive Hf. unfold Interval.length in Hlen. pose proof (zlen_nonneg buf) as Hnn.
  cut (wp (for_range (Interval.left x) (Interval.right x) (moveBufferBlock task o) (s, out)) (λ r, ∃ w f,
    r = (with_arrays s (pma s) w f (bufferReads s + reads (zlen buf)), out + zlen buf) ∧
    written (swapPma s) w (o + out) buf ∧ erased (bufferArray s) f (Interval.contains x))).
  { intros (r&->&w&f&->&?&?)%wp_returns. by exists w, f. }
  apply (wp_for (λ c r, ∃ u1 u2 w f, buf = u1 ++ u2 ∧ zlen u1 = c - Interval.left x ∧
    r = (with_arrays s (pma s) w f (bufferReads s + reads (zlen u1)), out + zlen u1) ∧
    written (swapPma s) w (o + out) u1 ∧ erased (bufferArray s) f (λ i, (Interval.left x <=? i) && (i <? c)))).
  - intros c r Hc (u1&u2&w&f&Hb&Hu1&->&Hw&He). destruct u2 as [|y u2]; [rewrite app_nil_r in Hb; subst u1; lia|].
    pose proof (zlen_nonneg u1). pose proof (zlen_nonneg u2). assert (zlen buf = zlen u1 + 1 + zlen u2) as Hl by (rewrite Hb; zlen).
    assert (at_ (bufferArray s) c = Some y) as Hy.
    { replace c with (Interval.left x + zlen u1) by lia. apply Hcells. rewrite Hb. apply at_middle. }
    rewrite moveBufferBlock_ok with (y := y).
    + cbn [wp]. pose proof Hw as (HLw&_&_). pose proof He as [HLf Hef]. destruct (Hf (o + out + zlen u1) ltac:(lia)) as [_ Hob].
      pose proof (at_Some_bound _ _ _ Hy) as Hcb.
      eexists (u1 ++ [y]), u2, (zupd w (o + (out + zlen u1)) y), (zupd f c PmaEntry.null_entry). split_and!.
      * by rewrite Hb, <-app_assoc.
      * zlen.
      * f_equal; [|zlen]. unfold with_arrays. simpl. f_equal. rewrite zlen_app, reads_add. change (zlen [y]) with 1. lia.
      * eapply written_app; [exact Hw|]. rewrite Z.add_assoc. apply written_one. rewrite HLw. lia.
      * eapply erased_or; [exact He|apply erased_one; [by rewrite HLf|done]|]. intros i. cbv beta.
        destruct (Z.leb_spec (Interval.left x) i), (Z.ltb_spec i (c + 1)), (Z.ltb_spec i c), (Z.eqb_spec i c); (done || lia).
    + cbn. destruct He as [_ ->]. destruct (Z.leb_spec (Interval.left x) c), (Z.ltb_spec c c); (done || lia).
    + rewrite Hb in Hlive. by apply Forall_app in Hlive as [_ [? _]%Forall_cons].
    + intros i Hi. cbn [swapPma with_arrays set_bufferReads set_bufferArray set_swapPma]. destruct Hw as (->&_&_). apply Hf. lia.
  - exists [], buf, (swapPma s), (bufferArray s). split_and!; [done|zlen| |apply written_nil|].
    + rewrite zlen_nil, Z.add_0_r. f_equal. destruct s; unfold with_arrays, set_bufferReads, reads; simpl. f_equal. destruct NDEBUG; lia.
    + apply erased_none. intros c. destruct (Z.leb_spec (Interval.left x) c), (Z.ltb_spec c (Interval.left x)); (done || lia).
  - intros r (u1&u2&w&f&Hb&Hu1&->&Hw&He). assert (u2 = []) as ->.
    { assert (zlen buf = zlen u1 + zlen u2) as Hl by (rewrite Hb; zlen). pose proof (zlen_nonneg u2). destruct u2; [done|]. zlen. }
    rewrite app_nil_r in Hb. subst u1. exists w, f. split; [done|]. split; [done|]. destruct He as [HL He]. split; [done|].
    intros c. rewrite He. unfold Interval.contains. by rewrite Z.max_r by lia.
Qed.
Lemma empty_row s i e x buf : entry_row s i e x buf → empty s i = Ok (PmaEntry.isEmpty e).
Proof.
  intros [He Hm _ _ _]. unfold empty. rewrite (zget_at _ _ _ He). destruct Hm as [->|[Hl Hi]].
  - destruct (size s <=? i); [done|]. cbn [mbind result_bind]. change (PmaEntry.head PmaEntry.null_entry) with NULL_KEY.
    rewrite Z.eqb_refl. change (PmaEntry.size PmaEntry.null_entry) with 0. change (PmaEntry.isEmpty PmaEntry.null_entry) with true.
    by rewrite Z.eqb_refl, !(assert_ok (Bool.eqb true true)).
  - destruct (Z.leb_spec (size s) i); [lia|]. cbn [mbind result_bind]. destruct (live_tests e Hl) as (_&H2&H3).
    pose proof Hl as (He'&_&_). rewrite H2, H3, He'. by rewrite !(assert_ok (Bool.eqb false false)).
Qed.

Lemma moved_main s i e x buf task o out :
  entry_row s i e x buf → output_fits s task (o + out) (zlen (main_row e)) →
  ∃ w p, (isFree ← empty s i;
          '(s, out) ← (if isFree : bool then Ok (s, out) else
                         e ← zget (pma s) i;
                         s ← moveToSwap s task o out e;
                         s ← write_pma s i PmaEntry.null_entry;
                         Ok (s, out + 1));
          Ok (s, 0, out)) = Ok (with_arrays s p w (bufferArray s) (bufferReads s), 0, out + zlen (main_row e)) ∧
    written (swapPma s) w (o + out) (main_row e) ∧ erased (pma s) p (λ j, (i <=? j) && (j <? i + 1)).
Proof.
  intros Her Hf. rewrite (empty_row _ _ _ _ _ Her). destruct Her as [He Hm _ _ _]. pose proof (at_Some_bound _ _ _ He) as Hib.
  assert (∀ j, (i <=? j) && (j <? i + 1) = (j =? i)) as Heqb.
  { intros j. destruct (Z.leb_spec i j), (Z.ltb_spec j (i + 1)), (Z.eqb_spec j i); (done || lia). }
  cbn [mbind result_bind]. unfold main_row in *. destruct (PmaEntry.isEmpty e) eqn:Hem.
  - exists (swapPma s), (pma s). change (zlen []) with 0. rewrite Z.add_0_r. split_and!.
    + by destruct s.
    + apply written_nil.
    + split; [done|]. intros j. rewrite Heqb. destruct (Z.eqb_spec j i) as [->|]; [|done]. rewrite He. f_equal.
      destruct Hm as [?|[[Hl _] _]]; [done|congruence].
  - rewrite (zget_at _ _ _ He). cbn [mbind result_bind]. change (zlen [e]) with 1 in Hf |- *.
    rewrite (moveToSwap_ok _ _ _ _ _ Hf). cbn [mbind result_bind]. unfold write_pma. cbn [pma set_swapPma].
    rewrite (zset_in _ _ _ Hib). cbn [mbind result_bind].
    exists (zupd (swapPma s) (o + out) e), (zupd (pma s) i PmaEntry.null_entry). split_and!.
    + by destruct s.
    + apply written_one. apply Hf. lia.
    + apply erased_one; [done|]. exact Heqb.
Qed.

Lemma rebalanceEntry_ok s task o out i e x buf (blockEnd : ExtendedPmaIndex) :
  entry_row s i e x buf → pmaIndex blockEnd ≠ i → output_fits s task (o + out) (zlen (main_row e ++ buf)) →
  ∃ s', rebalanceEntry task o blockEnd (s, mkExtendedPmaIndex i (-1), out) =
      Ok (s', mkExtendedPmaIndex (i + 1) (-1), out + zlen (main_row e ++ buf)) ∧
    moved s s' i (i + 1) (o + out) (main_row e ++ buf).
Proof.
  intros Her Hne Hf. rewrite zlen_app in Hf.
  apply output_fits_split in Hf as [Hf1 Hf2]; [|apply zlen_nonneg..]. pose proof Her as [He Hm Hx Hcells Hlive].
  destruct (moved_main s i e x buf task o out Her Hf1) as (w1&p1&Hmain&Hw1&Hp1).
  unfold rebalanceEntry. cbn [pmaIndex bufferIndex]. change (-1 =? -1) with true. cbn iota. rewrite Hmain. cbn [mbind result_bind].
  set (s1 := with_arrays s p1 w1 (bufferArray s) (bufferReads s)).
  change (bufferPointers s1) with (bufferPointers s). rewrite (zget_at _ _ _ Hx). cbn [mbind result_bind].
  rewrite (proj2 (Z.eqb_neq _ _)) by congruence. rewrite Z.add_0_r.
  assert (output_fits s1 task (o + (out + zlen (main_row e))) (zlen buf)) as Hf2'.
  { intros c Hc. destruct (Hf2 c ltac:(lia)) as [H1 H2]. split; [done|]. simpl. by destruct Hw1 as (->&_). }
  destruct (moveBuffer_ok s1 task o (out + zlen (main_row e)) x buf) as (w&f&Hloop&Hw&Hfz); [done|done|done|].
  rewrite Hloop. cbn [mbind result_bind].
  eexists. split; [rewrite zlen_app, <-Z.add_assoc; reflexivity|].
  exists p1, w, f. split_and!.
  - unfold with_arrays, s1. simpl. f_equal. unfold buffered_blocks. rewrite sum_range_one. unfold pointer_length. rewrite Hx.
    by destruct Hcells as [-> _].
  - eapply written_app; [exact Hw1|]. rewrite <-Z.add_assoc. exact Hw.
  - exact Hp1.
  - destruct Hfz as [HL HE]. split; [done|]. intros c. rewrite HE. by rewrite (in_pointers_one _ _ _ _ Hx).
Qed.

(** ** A range of entries *)

Lemma row_eq s i e x buf : entry_row s i e x buf → row s i = main_row e ++ cells s x.
Proof. intros [He _ Hx _ _]. unfold row. by rewrite He, Hx. Qed.

Lemma cells_eq s x buf : buffer_cells s x buf → cells s x = buf.
Proof.
  intros [Hlen Hc]. pose proof (zlen_nonneg buf). unfold cells. rewrite <-Hlen.
  assert (zlen ((λ j, default PmaEntry.null_entry (at_ (bufferArray s) (Interval.left x + j))) <$> seqZ 0 (zlen buf)) = zlen buf)
    as Hz by (by apply zlen_tabulate).
  apply at_ext; [done|]. intros j Hj. rewrite Hz in Hj. rewrite at_tabulate by done.
  destruct (at_in_bound buf j Hj) as [y Hy]. by rewrite (Hc j y Hy), Hy.
Qed.

Lemma row_cells s i e x buf : entry_row s i e x buf → row s i = main_row e ++ buf.
Proof. intros Hr. rewrite (row_eq _ _ _ _ _ Hr). f_equal. apply cells_eq. apply Hr. Qed.

Lemma rows_of_nil s a b : b ≤ a → rows_of s a b = [].
Proof. intros. unfold rows_of. by rewrite seqZ_nil by lia. Qed.

Lemma rows_of_snoc s a b : a ≤ b → rows_of s a (b + 1) = rows_of s a b ++ row s b.
Proof.
  intros. unfold rows_of. replace (b + 1 - a) with (b - a + 1) by lia. rewrite seqZ_app by lia.
  rewrite fmap_app, concat_app. replace (a + (b - a)) with b by lia. simpl. by rewrite app_nil_r.
Qed.

Lemma rows_of_split s a b c : a ≤ b → b ≤ c → rows_of s a c = rows_of s a b ++ rows_of s b c.
Proof.
  intros. unfold rows_of. replace (c - a) with ((b - a) + (c - b)) by lia. rewrite seqZ_app by lia.
  rewrite fmap_app, concat_app. by replace (a + (b - a)) with b by lia.
Qed.

(** An entry whose blocks have not been moved. *)
Lemma entry_row_moved s s' a b o rows i e x buf :
  moved s s' a b o rows → entry_row s i e x buf → i < a ∨ b ≤ i →
  (∀ c, Interval.contains x c = true → in_pointers (bufferPointers s) a b c = false) → entry_row s' i e x buf.
Proof.
  intros (p&w&f&->&_&[_ Hp]&[_ Hf]) [He Hm Hx [Hlen Hc] Hl] Hi Hdis. split; try done.
  - cbn. rewrite Hp, He. by destruct (Z.leb_spec a i), (Z.ltb_spec i b); [lia|..].
  - split; [done|]. intros j y Hj. cbn. rewrite Hf, (Hc j y Hj), Hdis; [done|].
    apply contains_bounds. pose proof (at_Some_bound _ _ _ Hj). unfold Interval.length in Hlen. lia.
Qed.

(** The entries of a range: each is stored as expected, and no cell belongs to two. *)
Record entries_ok s (lo n : Z) : Prop := {
  eo_row : ∀ i, lo ≤ i < n → ∃ e x, entry_row s i e x (cells s x);
  eo_disjoint : ∀ i j (x y : Interval) c, i ≠ j → at_ (bufferPointers s) i = Some x → at_ (bufferPointers s) j = Some y →
    Interval.contains x c = true → Interval.contains y c = false;
}.

Lemma not_in_pointers s lo n a b i x c : entries_ok s lo n → i < a ∨ b ≤ i → at_ (bufferPointers s) i = Some x →
  Interval.contains x c = true → in_pointers (bufferPointers s) a b c = false.
Proof.
  intros Hok Hi Hx Hc. apply not_true_is_false. intros (j&Hj&Hjc)%in_pointers_true. unfold in_pointer in Hjc.
  destruct (at_ (bufferPointers s) j) as [y|] eqn:Hy; [|done].
  by rewrite (eo_disjoint _ _ _ Hok i j x y c ltac:(lia) Hx Hy Hc) in Hjc.
Qed.

Lemma moveRange_ok s lo n task o a b :
  entries_ok s lo n → lo ≤ a ≤ b → b ≤ n → output_fits s task o (zlen (rows_of s a b)) →
  ∃ s', while (S (Z.to_nat (b + 1 - a)))
      (λ '(_, blockIndex, _), Ok (ExtendedPmaIndex_ltb blockIndex (mkExtendedPmaIndex b (-1))))
      (rebalanceEntry task o (mkExtendedPmaIndex b (-1))) (s, mkExtendedPmaIndex a (-1), 0) =
      Ok (s', mkExtendedPmaIndex b (-1), zlen (rows_of s a b)) ∧
    moved s s' a b o (rows_of s a b).
Proof.
  intros Hok Hab Hbn Hf.
  match goal with |- ∃ s', ?l = Ok _ ∧ _ => cut (wp l (λ '(s', p, out), p = mkExtendedPmaIndex b (-1) ∧
    out = zlen (rows_of s a b) ∧ moved s s' a b o (rows_of s a b))) end.
  { intros ([[s' p] out]&->&->&->&?)%wp_returns. by exists s'. }
  apply (wp_while (λ '(s', p, out), ∃ i, a ≤ i ≤ b ∧ p = mkExtendedPmaIndex i (-1) ∧
    out = zlen (rows_of s a i) ∧ moved s s' a i o (rows_of s a i)) (λ '(_, p, _), b - pmaIndex p)).
  - intros [[s' p] out] (i&Hi&->&->&Hmv). cbn [pmaIndex]. split; [lia|]. cbn [wp].
    unfold ExtendedPmaIndex_ltb. cbn [pmaIndex bufferIndex]. rewrite Z.ltb_irrefl, andb_false_r, orb_false_r.
    destruct (Z.ltb_spec i b) as [Hlt|Hge]; cycle 1.
    { assert (i = b) as -> by lia. done. }
    destruct (eo_row _ _ _ Hok i ltac:(lia)) as (e&x&Hr). pose proof (row_eq _ _ _ _ _ Hr) as Hrow.
    assert (zlen (rows_of s a b) = zlen (rows_of s a i) + zlen (row s i) + zlen (rows_of s (i + 1) b)) as Hlen.
    { rewrite (rows_of_split s a (i + 1) b), rows_of_snoc by lia. zlen. }
    pose proof (zlen_nonneg (rows_of s (i + 1) b)). pose proof (zlen_nonneg (rows_of s a i)).
    destruct (rebalanceEntry_ok s' task o (zlen (rows_of s a i)) i e x (cells s x) (mkExtendedPmaIndex b (-1)))
      as (s2&Hs2&Hmv2).
    + eapply entry_row_moved; [done|done|lia|]. intros c. apply (not_in_pointers s lo n a i i x c Hok); [lia|apply Hr].
    + simpl. lia.
    + rewrite <-Hrow. intros c Hc. destruct (Hf c ltac:(lia)) as [? ?]. split; [done|].
      destruct Hmv as (p&w&f&->&(HL&_)&_). simpl. by rewrite HL.
    + rewrite Hs2. cbn [wp pmaIndex]. split; [|lia]. exists (i + 1). rewrite <-Hrow in *.
      rewrite rows_of_snoc by lia. split_and!; [lia|lia|done|by rewrite zlen_app|]. apply (moved_trans s s' s2 a i (i + 1) o); [lia|lia|exact Hmv|exact Hmv2].
  - exists a. rewrite rows_of_nil by lia. split_and!; try done; try lia. apply moved_nil.
  - simpl. lia.
Qed.

(** Entries without blocks need not be visited. *)
Lemma moved_nothing s a b o : a ≤ b → (∀ i, a ≤ i < b → ∃ e x, entry_row s i e x [] ∧ main_row e = []) →
  moved s s a b o [].
Proof.
  intros Hab Hnone. exists (pma s), (swapPma s), (bufferArray s). split_and!.
  - assert (buffered_blocks (bufferPointers s) a b = 0) as ->.
    { apply sum_range_zero. intros i Hi. destruct (Hnone i Hi) as (e&x&[_ _ Hx [Hlen _] _]&_).
      unfold pointer_length. by rewrite Hx, <-Hlen. }
    destruct s; unfold with_arrays, set_bufferReads, reads; simpl. f_equal. destruct NDEBUG; lia.
  - apply written_nil.
  - split; [done|]. intros c. destruct (Z.leb_spec a c), (Z.ltb_spec c b); try done. simpl.
    destruct (Hnone c ltac:(lia)) as (e&x&[He Hm _ _ _]&Hmr). rewrite He. f_equal.
    destruct Hm as [?|[[Hl _] _]]; [done|]. unfold main_row in Hmr. by rewrite Hl in Hmr.
  - apply erased_none. intros c. apply not_true_is_false. intros (i&Hi&Hc)%in_pointers_true.
    destruct (Hnone i Hi) as (e&x&[_ _ Hx [Hlen _] _]&_). unfold in_pointer in Hc. rewrite Hx in Hc.
    apply contains_bounds in Hc. unfold Interval.length in Hlen. change (zlen []) with 0 in Hlen. lia.
Qed.

Lemma rows_of_none s lo n a b : entries_ok s lo n → lo ≤ a → b ≤ n → rows_of s a b = [] →
  ∀ i, a ≤ i < b → ∃ e x, entry_row s i e x [] ∧ main_row e = [].
Proof.
  intros Hok Ha Hb Hrows i Hi. destruct (eo_row _ _ _ Hok i ltac:(lia)) as (e&x&Hr).
  assert (row s i = []) as Hrow.
  { rewrite (rows_of_split s a (i + 1) b), rows_of_snoc in Hrows by lia.
    apply app_eq_nil in Hrows as [[_ ?]%app_eq_nil _]. done. }
  rewrite (row_eq _ _ _ _ _ Hr) in Hrow. apply app_eq_nil in Hrow as [Hm Hc]. exists e, x.
  by rewrite Hc in Hr.
Qed.

(** The blocks of a task, of which [[q, b)] has none. *)
Lemma moveTask_ok s lo n task o a q b :
  entries_ok s lo n → lo ≤ a ≤ q → q ≤ b ≤ n → rows_of s q b = [] → output_fits s task o (zlen (rows_of s a b)) →
  ∃ s', while (S (Z.to_nat (q + 1 - a)))
      (λ '(_, blockIndex, _), Ok (ExtendedPmaIndex_ltb blockIndex (mkExtendedPmaIndex q (-1))))
      (rebalanceEntry task o (mkExtendedPmaIndex q (-1))) (s, mkExtendedPmaIndex a (-1), 0) =
      Ok (s', mkExtendedPmaIndex q (-1), zlen (rows_of s a b)) ∧
    moved s s' a b o (rows_of s a b).
Proof.
  intros Hok Ha Hb Hnone Hf. rewrite (rows_of_split s a q b), Hnone, app_nil_r in Hf |- * by lia.
  destruct (moveRange_ok s lo n task o a q Hok) as (s'&Hw&Hmv); [lia|lia|done|].
  exists s'. split; [done|]. rewrite <-(app_nil_r (rows_of s a q)).
  apply (moved_trans s s' s' a q b); [lia|lia|done|]. apply moved_nothing; [lia|]. intros i Hi.
  destruct (rows_of_none s lo n q b Hok ltac:(lia) ltac:(lia) Hnone i Hi) as (e&x&Hr&Hm). exists e, x. split; [|done].
  eapply entry_row_moved; [done|done|lia|]. intros c. apply (not_in_pointers s lo n a q i x c Hok); [lia|apply Hr].
Qed.
End move.
