(* ===== verification/SdsPlan.v ===== *)
(** * What the rebalancing hierarchy counts, and dividing the work

    The blocks of an entry, as the hierarchy sees them through the view of the array, are
    the blocks of its row.  The prefix sums over the tasks, and the share of the only
    thread: all blocks of all tasks. *)

From S2P Require Export SdsMove.
Import BatchedSparseArray RebalancingPhase.
Import PmaEntry(PmaEntry).

Section weights.
Context `{T : SdsTypes} `{C : BlockConfig}.
Context `{BC : !BlockConfigOk} `{HB : !HalfBlocks}.
Context `{R : RebalancingConfig} `{D : DensityManager}.
Context `{H : ConcurrentBucketMap.Hash} `{P : ThreadConfig}.
Implicit Types (s : Sds) (i j a b c : Z).

Lemma concat_nils {A} (l : list (list A)) : Forall (λ x, x = []) l → concat l = [].
Proof. induction 1 as [|x l ->]; [done|]. done. Qed.

(** The entries in use; an empty array uses the first one. *)
Definition used s : Z := Z.max 1 (size s).

Definition is_empty s i : bool :=
  (size s <=? i) || match at_ (pma s) i with Some e => PmaEntry.isEmpty e | None => true end.
Definition buffers s i : Z := pointer_length (bufferPointers s) i.
#[local] Abbreviation blocks_at s := (weight (is_empty s) (buffers s)).

(** A layout without a block in the pma of an array of size 0. *)
Record stored s gs : Prop := {
  sd_layout : layout s gs;
  sd_first : 0 < size s ∨ at_ (pma s) 0 = Some PmaEntry.null_entry;
}.

Lemma used_length s gs : stored s gs → zlen gs = used s ∧ 1 ≤ used s ≤ capacity s.
Proof. intros [Hl _]. pose proof (la_size _ _ Hl). pose proof (la_capacity _ _ Hl). unfold used in *. lia. Qed.

Lemma stored_row s gs i bs : stored s gs → at_ gs i = Some bs →
  ∃ e x, entry_row s i e x (cells s x) ∧ Forall2 entry_is (row s i) bs.
Proof.
  intros Hs Hi. pose proof (used_length _ _ Hs) as [Hu _]. destruct Hs as [Hl Hf].
  pose proof (at_Some_bound _ _ _ Hi) as Hb. unfold used in *.
  destruct (layout_row s gs i bs Hl Hi) as (e&x&Hr&He).
  - destruct (decide (i < size s)); [by left|right]. destruct Hf as [?|Hf]; [lia|]. assert (i = 0) as -> by lia. done.
  - exists e, x. by rewrite (row_eq _ _ _ _ _ Hr).
Qed.

Lemma stored_entries s gs : stored s gs → entries_ok s 0 (used s).
Proof.
  intros Hs. pose proof (used_length _ _ Hs) as [Hu _]. split.
  - intros i Hi. rewrite <-Hu in Hi. destruct (at_in_bound _ _ Hi) as [bs Hbs].
    destruct (stored_row _ _ _ _ Hs Hbs) as (e&x&?&_). by exists e, x.
  - apply (la_disjoint _ _ (sd_layout _ _ Hs)).
Qed.

(** Beyond the entries in use there are no blocks. *)
Lemma stored_tail s gs i : stored s gs → used s ≤ i → is_empty s i = true ∧ buffers s i = 0.
Proof.
  intros Hs Hi. pose proof (used_length _ _ Hs) as [Hu _]. destruct Hs as [Hl _]. unfold used in *. split.
  - unfold is_empty. destruct (Z.leb_spec (size s) i); [done|lia].
  - unfold buffers, pointer_length. destruct (decide (i < capacity s)) as [Hc|Hc].
    + destruct (la_tail _ _ Hl i) as [_ ->]; [lia|]. done.
    + rewrite at_None_bound; [done|]. rewrite (la_pointers _ _ Hl). lia.
Qed.

Lemma entry_weight s i e x buf : entry_row s i e x buf →
  is_empty s i = PmaEntry.isEmpty e ∧ buffers s i = zlen buf ∧ blocks_at s i = zlen (row s i).
Proof.
  intros Hr. pose proof (row_cells _ _ _ _ _ Hr) as Hrow. destruct Hr as [He Hm Hx [Hlen _] _].
  assert (is_empty s i = PmaEntry.isEmpty e) as H1.
  { unfold is_empty. rewrite He. destruct Hm as [->|[_ Hi]]; [by rewrite orb_true_r|].
    by destruct (Z.leb_spec (size s) i); [lia|]. }
  assert (buffers s i = zlen buf) as H2 by (unfold buffers, pointer_length; by rewrite Hx).
  split_and!; [done|done|]. unfold weight. rewrite H1, H2, Hrow, zlen_app. unfold main_row.
  by destruct (PmaEntry.isEmpty e).
Qed.

Lemma view_readable s gs bound : stored s gs → readable (view s) (is_empty s) (buffers s) bound.
Proof.
  intros Hs i [Hi _]. pose proof (used_length _ _ Hs) as [Hu Hc]. cbn [view view_empty view_numberOfBufferBlocks].
  assert (empty s i = Ok (is_empty s i)) as ->.
  { destruct (decide (i < used s)) as [Hlt|Hge].
    - destruct (eo_row _ _ _ (stored_entries _ _ Hs) i ltac:(lia)) as (e&x&Hr).
      rewrite (empty_row _ _ _ _ _ Hr). by destruct (entry_weight _ _ _ _ _ Hr) as [-> _].
    - destruct (stored_tail _ _ i Hs) as [-> _]; [lia|]. unfold empty, used in *.
      destruct (Z.leb_spec (size s) i); [done|lia]. }
  split; [done|]. assert (0 ≤ buffers s i) as Hnn.
  { destruct (decide (i < used s)) as [Hlt|Hge].
    - destruct (eo_row _ _ _ (stored_entries _ _ Hs) i ltac:(lia)) as (e&x&Hr).
      destruct (entry_weight _ _ _ _ _ Hr) as (_&->&_). apply zlen_nonneg.
    - destruct (stored_tail _ _ i Hs) as [_ ->]; lia. }
  split; [|done]. unfold numberOfBufferBlocks, buffers, pointer_length in *.
  pose proof (la_pointers _ _ (sd_layout _ _ Hs)). destruct (Z.leb_spec (capacity s) i).
  - by rewrite at_None_bound by lia.
  - destruct (at_in_bound (bufferPointers s) i) as [x Hx]; [lia|]. by rewrite (zget_at _ _ _ Hx), Hx.
Qed.

Lemma tail_weight s gs i : stored s gs → used s ≤ i → blocks_at s i = 0.
Proof. intros Hs Hi. destruct (stored_tail _ _ _ Hs Hi) as [H1 H2]. unfold weight. by rewrite H1, H2. Qed.

Lemma row_weight s gs i : stored s gs → 0 ≤ i < used s → blocks_at s i = zlen (row s i).
Proof.
  intros Hs Hi. destruct (eo_row _ _ _ (stored_entries _ _ Hs) i Hi) as (e&x&Hr). by apply (entry_weight _ _ _ _ _ Hr).
Qed.

Lemma rows_weight s gs a b : stored s gs → 0 ≤ a ≤ b → b ≤ used s → zlen (rows_of s a b) = sum_range (blocks_at s) a b.
Proof.
  intros Hs Hab Hb. remember (Z.to_nat (b - a)) as n eqn:Hn. revert b Hab Hb Hn.
  induction n as [|n IH]; intros b Hab Hb Hn.
  - assert (b = a) as -> by lia. by rewrite rows_of_nil, sum_range_nil by lia.
  - replace b with (b - 1 + 1) by lia. rewrite rows_of_snoc, sum_range_snoc, zlen_app, IH by lia.
    by rewrite (row_weight _ _ _ Hs) by lia.
Qed.

(** The blocks of a range of entries, as far as they are in use. *)
Lemma range_weight s gs a b : stored s gs → 0 ≤ a ≤ b → a ≤ used s →
  sum_range (blocks_at s) a b = zlen (rows_of s a (Z.min b (used s))).
Proof.
  intros Hs Hab Ha. rewrite (rows_weight s gs) by (done || lia).
  destruct (Z.le_gt_cases b (used s)); [by rewrite Z.min_l by lia|]. rewrite Z.min_r by lia.
  rewrite (sum_range_split _ a (used s) b) by lia.
  rewrite (sum_range_zero _ (used s) b); [lia|]. intros i Hi. apply (tail_weight s gs); [done|lia].
Qed.
End weights.

Import BatchedSparseArray RebalancingPhase.
Import BinaryRebalancingManager (Manager, logCapacity).
Import PmaEntry(PmaEntry).

Section plan.
Context `{T : SdsTypes} `{C : BlockConfig}.
Context `{BC : !BlockConfigOk} `{HB : !HalfBlocks}.
Context `{R : RebalancingConfig} `{D : DensityManager}.
Context `{H : ConcurrentBucketMap.Hash} `{P : ThreadConfig}.
Implicit Types (s : Sds) (i j a b : Z) (ts : list RebalancingTask) (task : RebalancingTask).
#[local] Abbreviation blocks_at s := (weight (is_empty s) (buffers s)).

(** ** Prefix sums *)

Fixpoint blocks_in ts : Z :=
  match ts with
  | [] => 0
  | t :: ts => rt_numberOfBlocks t + blocks_in ts
  end.

Lemma blocks_in_app l1 l2 : blocks_in (l1 ++ l2) = blocks_in l1 + blocks_in l2.
Proof. induction l1 as [|t l1 IH]; simpl; [done|]. rewrite IH. lia. Qed.

Lemma zlen_scan ts a : zlen (inclusive_scan a ts) = zlen ts.
Proof. revert a. induction ts as [|t ts IH]; intros a; simpl; [done|]. by rewrite !zlen_cons, IH. Qed.

Lemma scan_middle l1 t l2 a : at_ (inclusive_scan a (l1 ++ t :: l2)) (zlen l1) = Some (a + blocks_in l1 + rt_numberOfBlocks t).
Proof.
  revert a. induction l1 as [|t1 l1 IH]; intros a; simpl.
  - rewrite at_cons. simpl. f_equal. lia.
  - rewrite at_cons, zlen_cons. pose proof (zlen_nonneg l1). destruct (Z.eqb_spec (1 + zlen l1) 0); [lia|].
    replace (1 + zlen l1 - 1) with (zlen l1) by lia. rewrite IH. f_equal. lia.
Qed.

Lemma blocks_in_pos (l : list RebalancingTask) : Forall (λ t, 1 ≤ rt_numberOfBlocks t) l → zlen l ≤ blocks_in l.
Proof. induction 1; simpl; zlen. Qed.

(** The prefix sums of the state. *)
Definition summed s : Prop :=
  prefixNumberOfRebalancingBlocks s = inclusive_scan 0 (rebalancingTasks s) ++ [blocks_in (rebalancingTasks s)].

Lemma sumTasks_ok s : rebalancingTasks s ≠ [] →
  sumTasks s = Ok (set_prefixNumberOfRebalancingBlocks s
    (inclusive_scan 0 (rebalancingTasks s) ++ [blocks_in (rebalancingTasks s)]), blocks_in (rebalancingTasks s)).
Proof.
  intros Hne. unfold sumTasks. destruct (exists_last Hne) as (l1&t&Hts). rewrite Hts.
  rewrite (zget_at _ _ (0 + blocks_in l1 + rt_numberOfBlocks t)).
  - cbn [mbind result_bind]. rewrite blocks_in_app. cbn [blocks_in].
    by replace (0 + blocks_in l1 + rt_numberOfBlocks t) with (blocks_in l1 + (rt_numberOfBlocks t + 0)) by lia.
  - replace (zlen (l1 ++ [t]) - 1) with (zlen l1) by zlen. apply scan_middle.
Qed.

Section tasks.
Variable (s : Sds).
Let ts := rebalancingTasks s.
Let total := blocks_in ts.
Hypothesis (Hsum : summed s) (Hne : ts ≠ []) (Hpos : Forall (λ t, 1 ≤ rt_numberOfBlocks t) ts).

Lemma prefix_task l1 t l2 : ts = l1 ++ t :: l2 →
  at_ (prefixNumberOfRebalancingBlocks s) (zlen l1) = Some (blocks_in l1 + rt_numberOfBlocks t).
Proof.
  intros Hts. rewrite Hsum. fold ts. rewrite Hts, at_app_l by (rewrite zlen_scan; zlen). by rewrite scan_middle.
Qed.

Lemma prefix_end : at_ (prefixNumberOfRebalancingBlocks s) (zlen ts) = Some total.
Proof. rewrite Hsum. fold ts. rewrite <-(zlen_scan ts 0). apply at_middle. Qed.

Lemma prefix_length : zlen (prefixNumberOfRebalancingBlocks s) = zlen ts + 1.
Proof. rewrite Hsum. fold ts. rewrite zlen_app, zlen_scan. done. Qed.

(** The sums ascend to the total. *)
Lemma prefix_at j : 0 ≤ j ≤ zlen ts → ∃ x, at_ (prefixNumberOfRebalancingBlocks s) j = Some x ∧
  0 < x ∧ (j < zlen ts - 1 → x < total) ∧ (zlen ts - 1 ≤ j → x = total).
Proof.
  intros Hj. assert (0 < zlen ts) as Hl by (destruct ts; [done|zlen]). pose proof (blocks_in_pos ts Hpos) as Ht.
  destruct (decide (j = zlen ts)) as [->|Hne'].
  { exists total. rewrite prefix_end. unfold total. split_and!; (done || lia). }
  destruct (at_in_bound ts j ltac:(lia)) as [t Hat]. destruct (at_split _ _ _ Hat) as (l1&l2&Hts&<-).
  exists (blocks_in l1 + rt_numberOfBlocks t). rewrite (prefix_task _ _ _ Hts). unfold total.
  rewrite Hts in Hpos |- *. apply Forall_app in Hpos as [H1 H2]. apply Forall_cons in H2 as [H2 H3].
  apply blocks_in_pos in H1, H3. pose proof (zlen_nonneg l1). rewrite blocks_in_app, zlen_app, zlen_cons. simpl.
  split_and!; [done|lia| |]; intros Hl2; [lia|]. assert (l2 = []) as -> by (destruct l2; [done|zlen]). simpl. lia.
Qed.

Lemma findRebalancingTask_ok (x k : Z) : (x = 0 ∧ k = 0) ∨ (x = total ∧ k = zlen ts - 1) → findRebalancingTask s x = Ok k.
Proof.
  intros Hx. assert (0 < zlen ts) as Hl by (destruct ts; [done|zlen]). unfold findRebalancingTask. rewrite prefix_length.
  set (Pf := λ i, match at_ (prefixNumberOfRebalancingBlocks s) i with Some y => y <? x | None => false end).
  destruct (lower_bound_spec (λ i, y ← zget (prefixNumberOfRebalancingBlocks s) i; Ok (y <? x)) Pf 0 (zlen ts + 1))
    as (k'&->&Hk'&Hlow&Hhigh).
  - lia.
  - intros i Hi. destruct (prefix_at i ltac:(lia)) as (y&Hy&_). unfold Pf. by rewrite (zget_at _ _ _ Hy), Hy.
  - intros i j Hij Hj. unfold Pf. destruct (prefix_at i ltac:(lia)) as (y&->&Hy0&Hy1&Hy2).
    destruct (prefix_at j ltac:(lia)) as (z&->&Hz0&Hz1&Hz2). rewrite !Z.ltb_lt. intros.
    destruct Hx as [[-> ->]|[-> ->]]; [lia|]. destruct (decide (i < zlen ts - 1)); [lia|]. lia.
  - f_equal. destruct (Z.lt_trichotomy k' k) as [Hlt|[?|Hlt]]; [exfalso|done|exfalso].
    + specialize (Hhigh k' ltac:(lia)). unfold Pf in Hhigh. destruct (prefix_at k' ltac:(lia)) as (y&Hy&?&?&?).
      rewrite Hy in Hhigh. apply Z.ltb_ge in Hhigh. lia.
    + specialize (Hlow k ltac:(lia)). unfold Pf in Hlow. destruct (prefix_at k ltac:(lia)) as (y&Hy&?&?&?).
      rewrite Hy in Hlow. apply Z.ltb_lt in Hlow. lia.
Qed.

Lemma taskBlockRange_ok l1 t l2 : ts = l1 ++ t :: l2 →
  taskBlockRange s (zlen l1) = Ok (mkInterval (blocks_in l1) (blocks_in l1 + rt_numberOfBlocks t)).
Proof.
  intros Hts. unfold taskBlockRange. rewrite (zget_at _ _ _ (prefix_task _ _ _ Hts)).
  destruct (Z.ltb_spec 0 (zlen l1)) as [Hpos1|Hz]; cbn [mbind result_bind].
  - assert (l1 ≠ []) as Hne1 by (by intros ->). destruct (exists_last Hne1) as (l0&t0&->).
    rewrite (zget_at _ _ (blocks_in l0 + rt_numberOfBlocks t0)).
    + cbn [mbind result_bind]. rewrite blocks_in_app. simpl. do 2 f_equal; lia.
    + replace (zlen (l0 ++ [t0]) - 1) with (zlen l0) by zlen. apply (prefix_task l0 t0 (t :: l2)). by rewrite Hts, <-app_assoc.
  - assert (l1 = []) as -> by (destruct l1; [done|zlen]). done.
Qed.

Lemma cut_task l1 t l2 : ts = l1 ++ t :: l2 →
  Interval.cut (mkInterval (blocks_in l1) (blocks_in l1 + rt_numberOfBlocks t)) (mkInterval 0 total) =
  mkInterval (blocks_in l1) (blocks_in l1 + rt_numberOfBlocks t).
Proof.
  intros Hts. unfold total, Interval.cut. cbn [Interval.left Interval.right]. rewrite Hts in Hpos |- *.
  apply Forall_app in Hpos as [H1 H2]. apply Forall_cons in H2 as [H2 H3]. apply blocks_in_pos in H1, H3.
  pose proof (zlen_nonneg l1). pose proof (zlen_nonneg l2). rewrite blocks_in_app. simpl.
  destruct (Z.ltb_spec 0 (blocks_in l1)), (Z.ltb_spec (blocks_in l1 + rt_numberOfBlocks t) (blocks_in l1 + (rt_numberOfBlocks t + blocks_in l2)));
    match goal with |- context [if ?x <=? 0 then _ else _] => destruct (Z.leb_spec x 0) end; try lia; f_equal; lia.
Qed.
End tasks.

(** ** The share of a task *)

(** The hierarchy holds the numbers of blocks of the array. *)
Record hierarchy_ok s : Prop := {
  hi_shape : shape (rebalancingManager s);
  hi_counts : ∀ l i, node_in (logCapacity (rebalancingManager s)) l i → l ≤ logCapacity (rebalancingManager s) →
    cnt (rebalancingManager s) l i = sum_range (blocks_at s) (node_left l i) (node_left l (i + 1));
}.

Definition task_left task : Z := Interval.left (pmaRange task).
Definition task_end s task : Z := Z.min (Interval.right (pmaRange task)) (used s).

(** A task of a node whose blocks fit into its range. *)
Record task_ok s task : Prop := {
  to_node : node_in (logCapacity (rebalancingManager s)) (level (rootNode task)) (index (rootNode task)) ∧
    level (rootNode task) ≤ logCapacity (rebalancingManager s);
  to_range : pmaRange task = mkInterval (node_left (level (rootNode task)) (index (rootNode task)))
    (node_left (level (rootNode task)) (index (rootNode task) + 1));
  to_used : 0 ≤ task_left task < used s;
  to_count : rt_numberOfBlocks task = zlen (rows_of s (task_left task) (task_end s task));
  to_blocks : 1 ≤ rt_numberOfBlocks task ≤ Interval.length (pmaRange task);
}.

(** From the first entry to an entry behind which there are no blocks. *)
Definition covers s task (p : PartialRebalancingTask) : Prop :=
  ∃ q, p = mkPartialRebalancingTask (mkExtendedPmaIndex (task_left task) (-1)) (mkExtendedPmaIndex q (-1)) 0 ∧
    task_left task ≤ q ≤ task_end s task ∧ rows_of s q (task_end s task) = [].

Lemma task_count s gs task : stored s gs → hierarchy_ok s → task_ok s task →
  cnt (rebalancingManager s) (level (rootNode task)) (index (rootNode task)) = rt_numberOfBlocks task.
Proof.
  intros Hs [Hm Hc] [[Hn Hl] Hr Hu Hcnt Hb]. rewrite Hc by done. unfold task_end, task_left in *. rewrite Hr in *.
  cbn [Interval.left Interval.right] in *. rewrite (range_weight s gs); [done|done| |lia].
  unfold Interval.length in Hb. simpl in Hb. lia.
Qed.

Lemma rows_nil_iff s gs a b : stored s gs → 0 ≤ a ≤ b → b ≤ used s →
  sum_range (blocks_at s) a b = 0 → rows_of s a b = [].
Proof.
  intros Hs Ha Hb Hsum. rewrite <-(rows_weight s gs) in Hsum by done. destruct (rows_of s a b); [done|zlen].
Qed.

Lemma findBlocks_ok s gs task : stored s gs → hierarchy_ok s → 0 < AggregateWidth → task_ok s task →
  BinaryRebalancingManager.findBlockInRebalancingTask (rebalancingManager s) (view s) (rootNode task) 0 =
    Ok (mkExtendedPmaIndex (task_left task) (-1)) ∧
  ∃ q, BinaryRebalancingManager.findBlockInRebalancingTask (rebalancingManager s) (view s) (rootNode task)
      (rt_numberOfBlocks task) = Ok (mkExtendedPmaIndex q (-1)) ∧
    task_left task ≤ q ≤ task_end s task ∧ rows_of s q (task_end s task) = [].
Proof.
  intros Hs Hh HW Ht. pose proof (task_count _ _ _ Hs Hh Ht) as Hcnt. pose proof Hh as [Hm Hc].
  pose proof Ht as [[Hn Hl] Hr Hu Hrows Hb]. unfold task_end, task_left in *.
  set (nd := rootNode task) in *. set (n := rt_numberOfBlocks task) in *.
  pose proof (λ k, findBlock_ok (view s) (is_empty s) (buffers s) _ Hm HW (view_readable s gs _ Hs) Hc (level nd) (index nd) k Hn Hl) as Hfind.
  rewrite Hcnt in Hfind. assert (mkRebalancingNode (level nd) (index nd) = nd) as Hnd by (by destruct nd).
  rewrite Hnd in Hfind. destruct (node_left_bound (rebalancingManager s) HW (level nd) (index nd) Hn Hl) as (B1&B2&B3).
  split.
  - destruct (Hfind 0 ltac:(lia)) as (p&Hp&_&_&H0&_). rewrite Hp, H0 by done. by rewrite Hr.
  - destruct (Hfind n ltac:(lia)) as (p&Hp&[Hpl Hpb]&Hbef&_&Htight). unfold blocks_before in Hbef.
    rewrite Hr in Hu, Hrows |- *. cbn [Interval.left Interval.right] in *.
    set (w := blocks_at s) in *. set (left := node_left (level nd) (index nd)) in *.
    set (right := node_left (level nd) (index nd + 1)) in *.
    assert (sum_range w left right = n) as Htot by (rewrite <-Hcnt; symmetry; by apply Hc).
    assert (∀ a b, 0 ≤ a → 0 ≤ sum_range w a b) as Hnn.
    { intros a b Ha. apply (weight_nonneg (view s) _ _ b); [by apply (view_readable s gs)|done|lia]. }
    destruct Hpb as [Hpb|[Hpr Hpb]].
    + rewrite Hpb in Hbef. simpl in Hbef. destruct (Htight ltac:(lia) Hpb) as [Hlt Hw].
      assert (pmaIndex p - 1 < used s) as Hpu.
      { destruct (decide (pmaIndex p - 1 < used s)); [done|]. unfold w in Hw. rewrite (tail_weight s gs) in Hw by (done || lia). lia. }
      exists (pmaIndex p). split; [rewrite Hp; f_equal; destruct p; simpl in *; congruence|].
      rewrite (sum_range_split w left (pmaIndex p) right) in Htot by lia. split; [lia|].
      assert (zlen (rows_of s (pmaIndex p) (Z.min right (used s))) = 0) as Hz.
      { rewrite <-(range_weight s gs) by (done || lia). fold w. lia. }
      destruct (rows_of s (pmaIndex p) _); [done|zlen].
    + exfalso. destruct (Z.eqb_spec (bufferIndex p) (-1)); [lia|].
      rewrite (sum_range_split w left (pmaIndex p) right), (sum_range_cons w (pmaIndex p) right) in Htot by lia.
      specialize (Hnn (pmaIndex p + 1) right ltac:(lia)). unfold w in Htot at 2. unfold weight at 1 in Htot. lia.
Qed.

(** The whole of a task is the share of the only thread. *)
Lemma partial_ok s gs l1 task l2 : stored s gs → hierarchy_ok s → 0 < AggregateWidth →
  summed s → Forall (task_ok s) (rebalancingTasks s) → rebalancingTasks s = l1 ++ task :: l2 →
  ∃ p, getPartialRebalancingRange s (zlen l1) (mkInterval 0 (blocks_in (rebalancingTasks s))) = Ok p ∧ covers s task p.
Proof.
  intros Hs Hh HW Hsum Hok Hts. unfold getPartialRebalancingRange.
  assert (Forall (λ t, 1 ≤ rt_numberOfBlocks t) (rebalancingTasks s)) as Hpos
    by (eapply Forall_impl; [exact Hok|]; by intros t [_ _ _ _ []]).
  rewrite (taskBlockRange_ok s Hsum l1 task l2 Hts). cbn [mbind result_bind].
  rewrite (cut_task s Hpos l1 task l2 Hts). cbn [Interval.length Interval.left Interval.right].
  assert (task_ok s task) as Ht by (rewrite Hts in Hok; by apply Forall_app in Hok as [_ [? _]%Forall_cons]).
  destruct (findBlocks_ok s gs task Hs Hh HW Ht) as [H0 (q&Hq&Hqb&Hqr)]. pose proof (to_blocks _ _ Ht) as [Hn1 _].
  unfold Interval.length. cbn [Interval.left Interval.right].
  replace (blocks_in l1 + rt_numberOfBlocks task - blocks_in l1) with (rt_numberOfBlocks task) by lia.
  destruct (Z.eqb_spec (rt_numberOfBlocks task) 0); [lia|]. rewrite Z.sub_diag.
  rewrite (zget_at _ _ task) by (rewrite Hts; apply at_middle). cbn [mbind result_bind].
  rewrite H0, Hq. cbn [mbind result_bind]. rewrite assert_ok by (rewrite Z.leb_refl; apply Z.ltb_lt; lia).
  eexists. split; [done|]. exists q. done.
Qed.

(** ** The plan of the only thread *)

Lemma write_task_at s i t (f : TaskInfo → TaskInfo) : at_ (tasks s) i = Some t →
  write_task s i f = Ok (set_tasks s (zupd (tasks s) i (f t))).
Proof.
  intros Ht. unfold write_task. rewrite (zget_at _ _ _ Ht). cbn [mbind result_bind].
  by rewrite zset_in by (by eapply at_Some_bound).
Qed.

(** A second write to the same task. *)
Lemma write_task_again s i t (f : TaskInfo → TaskInfo) : 0 ≤ i < zlen (tasks s) →
  write_task (set_tasks s (zupd (tasks s) i t)) i f = Ok (set_tasks s (zupd (tasks s) i (f t))).
Proof.
  intros Hi. rewrite (write_task_at _ i t) by (by apply at_zupd_eq). cbn [tasks set_tasks]. by rewrite zupd_zupd.
Qed.

Lemma getPartial_set_tasks s x i (r : Interval) :
  getPartialRebalancingRange (set_tasks s x) i r = getPartialRebalancingRange s i r.
Proof. reflexivity. Qed.
Lemma findTask_set_tasks s x i : findRebalancingTask (set_tasks s x) i = findRebalancingTask s i.
Proof. reflexivity. Qed.

(** Everything is the share of thread 0. *)
Record plan_ok s (t : TaskInfo) : Prop := {
  pl_blocks : rebalancingBlockRange t = mkInterval 0 (blocks_in (rebalancingTasks s));
  pl_tasks : rebalancingTaskRange t = mkInterval 0 (zlen (rebalancingTasks s));
  pl_first : ∀ task, at_ (rebalancingTasks s) 0 = Some task → covers s task (firstRebalancingTask t);
  pl_last : 1 < zlen (rebalancingTasks s) → ∀ task, at_ (rebalancingTasks s) (zlen (rebalancingTasks s) - 1) = Some task →
    covers s task (lastRebalancingTask t);
}.

Lemma threadBlocks_one s n : numberOfThreads s = 1 → 0 ≤ n → threadBlocks s n 0 = mkInterval 0 n.
Proof.
  intros H1 Hn. unfold threadBlocks. rewrite H1, Z.quot_1_r. rewrite Z.mul_0_l, Z.add_0_l, Z.mul_1_l.
  by rewrite Z.min_l by lia.
Qed.

Lemma distributeRebalancing_ok s gs : stored s gs → hierarchy_ok s → 0 < AggregateWidth → summed s →
  numberOfThreads s = 1 → 0 < zlen (tasks s) → rebalancingTasks s ≠ [] → Forall (task_ok s) (rebalancingTasks s) →
  ∃ t, distributeRebalancing (blocks_in (rebalancingTasks s)) 0 s = Ok (set_tasks s (zupd (tasks s) 0 t)) ∧ plan_ok s t.
Proof.
  intros Hs Hh HW Hsum H1 Htk Hne Hok. set (ts := rebalancingTasks s) in *.
  assert (Forall (λ t, 1 ≤ rt_numberOfBlocks t) ts) as Hpos by (eapply Forall_impl; [exact Hok|]; by intros t [_ _ _ _ []]).
  pose proof (blocks_in_pos _ Hpos) as Htot. assert (0 < zlen ts) as Hlen by (destruct ts; [done|zlen]).
  destruct (at_in_bound (tasks s) 0 ltac:(lia)) as [t0 Ht0]. assert (∃ task ts', ts = task :: ts') as (task&ts'&Hts) by (destruct ts; [done|by do 2 eexists]).
  destruct (partial_ok s gs [] task ts') as (p&Hp&Hcov); try done. change (zlen (@nil RebalancingTask)) with 0 in Hp. fold ts in Hp.
  unfold distributeRebalancing. rewrite threadBlocks_one by (done || lia).
  rewrite (write_task_at s 0 t0) by done. cbn [mbind result_bind Interval.length Interval.left Interval.right].
  unfold Interval.length. cbn [Interval.left Interval.right]. destruct (Z.ltb_spec 0 (blocks_in ts - 0)); [|lia].
  rewrite !findTask_set_tasks. rewrite (findRebalancingTask_ok s Hsum Hne Hpos 0 0) by (by left).
  rewrite (findRebalancingTask_ok s Hsum Hne Hpos (blocks_in ts) (zlen ts - 1)) by (by right).
  cbn [mbind result_bind]. rewrite write_task_again by lia. cbn [mbind result_bind]. rewrite getPartial_set_tasks, Hp.
  cbn [mbind result_bind]. rewrite write_task_again by lia. cbn [mbind result_bind].
  replace (zlen ts - 1 + 1 - 0) with (zlen ts) by lia. replace (zlen ts - 1 + 1) with (zlen ts) by lia.
  destruct (Z.ltb_spec 1 (zlen ts)) as [Hlt|Hge].
  - assert (ts' ≠ []) as Hne' by (intros ->; rewrite Hts in Hlt; by vm_compute in Hlt).
    destruct (exists_last Hne') as (l0&last&->). destruct (partial_ok s gs (task :: l0) last []) as (p2&Hp2&Hcov2); try done.
    assert (zlen (task :: l0) = zlen ts - 1) as Hl0 by (rewrite Hts; zlen). rewrite Hl0 in Hp2. fold ts in Hp2.
    rewrite getPartial_set_tasks, Hp2. cbn [mbind result_bind]. rewrite write_task_again by lia.
    eexists. split; [done|]. split; try done.
    + fold ts. rewrite Hts. intros t [= <-]. done.
    + fold ts. intros _ t. rewrite <-Hl0, Hts. change (task :: l0 ++ [last]) with ((task :: l0) ++ [last]).
      rewrite at_middle. by intros [= <-].
  - eexists. split; [done|]. split; try done.
    + fold ts. rewrite Hts. intros t [= <-]. done.
    + fold ts. lia.
Qed.

(** ** One task after the other

    The threads treat the first and the last of their tasks in a way of their own. *)
Lemma bind_first {A B E} (m : result (A * B)) (K : A → result E) :
  ('(a, _) ← m; K a) = (a ← ('(a, _) ← m; Ok a); K a).
Proof. by destruct m as [[? ?]|]. Qed.

Lemma run_tasks {St} (I : list RebalancingTask → St → Prop) ts (first last : St → result St) (full : Z → St → result St) (x : St) :
  ts ≠ [] → I [] x →
  (∀ task l2 x, ts = [] ++ task :: l2 → I [] x → wp (first x) (I [task])) →
  (∀ l1 task l2 x, ts = l1 ++ task :: l2 → I l1 x → wp (full (zlen l1) x) (I (l1 ++ [task]))) →
  (∀ l1 task x, ts = l1 ++ [task] → 1 < zlen ts → zlen ts - 1 = zlen l1 → I l1 x → wp (last x) (I (l1 ++ [task]))) →
  wp (x ← first x; x ← for_range 1 (zlen ts - 1) full x; if 1 <? zlen ts then last x else Ok x) (I ts).
Proof.
  intros Hne HI Hfirst Hfull Hlast. destruct ts as [|task ts]; [done|]. pose proof (zlen_nonneg ts) as Hnn.
  apply wp_bind. eapply wp_mono; [by apply (Hfirst task ts)|]. intros x1 H1. apply wp_bind.
  destruct (decide (ts = [])) as [->|Hne'].
  { change (zlen [task]) with 1. rewrite for_range_nil by lia. cbn [wp]. change (1 <? 1) with false. done. }
  destruct (exists_last Hne') as (mid&t&Hts). assert (zlen (task :: ts) - 1 = zlen (task :: mid)) as Hk by (rewrite Hts; zlen).
  rewrite Hk. assert (1 < zlen (task :: ts)) as Hgt by (rewrite zlen_cons in Hk |- *; rewrite Hts; zlen).
  rewrite (proj2 (Z.ltb_lt _ _) Hgt).
  apply (wp_for (λ j x', ∃ l2 l3, mid = l2 ++ l3 ∧ zlen (task :: l2) = j ∧ I (task :: l2) x')).
  - intros j x' Hj (l2&l3&Hmid&<-&Hmv). destruct l3 as [|u l3]; [rewrite app_nil_r in Hmid; subst; lia|].
    eapply wp_mono; [apply (Hfull (task :: l2) u (l3 ++ [t]) x'); [|done]|].
    + rewrite Hts, Hmid. by rewrite <-app_assoc.
    + intros x2 H2. exists (l2 ++ [u]), l3. split_and!; [by rewrite <-app_assoc|zlen|done].
  - exists [], mid. by split_and!.
  - intros x' (l2&l3&->&Hl&Hmv). assert (l3 = []) as -> by (rewrite Z.max_r in Hl by zlen; destruct l3; [done|zlen]).
    rewrite app_nil_r in *. rewrite Hts in *. apply (Hlast (task :: l2) t x'); done.
Qed.
End plan.
