(* ===== verification/SdsExecute.v ===== *)
(** * Executing the rebalancing tasks

    The tasks one after the other move the blocks of their entries to the swap array. *)

From S2P Require Export SdsPlan.
Import BatchedSparseArray RebalancingPhase.
Import BinaryRebalancingManager (Manager, logCapacity).
Import PmaEntry(PmaEntry).

Section execute.
Context `{T : SdsTypes} `{C : BlockConfig}.
Context `{BC : !BlockConfigOk} `{HB : !HalfBlocks}.
Context `{R : RebalancingConfig} `{D : DensityManager}.
Context `{H : ConcurrentBucketMap.Hash} `{P : ThreadConfig}.
Implicit Types (s : Sds) (i j a b c : Z) (ts : list RebalancingTask) (task : RebalancingTask).

(** The rows of a task, and whether an entry, a buffer cell, or a root belongs to one of
    the tasks. *)
Definition task_rows s task : list PmaEntry := rows_of s (task_left task) (task_end s task).
Definition in_task s task c : bool := (task_left task <=? c) && (c <? task_end s task).
Definition in_tasks s ts c : bool := existsb (λ t, in_task s t c) ts.
Definition in_task_buffers s ts c : bool :=
  existsb (λ t, in_pointers (bufferPointers s) (task_left t) (task_end s t) c) ts.

Definition task_reads s task : Z := buffered_blocks (bufferPointers s) (task_left task) (task_end s task).
Fixpoint tasks_reads s ts : Z :=
  match ts with
  | [] => 0
  | t :: ts => task_reads s t + tasks_reads s ts
  end.

(** The tasks [ts] have been moved; otherwise only the manager has changed. *)
Record moved_tasks s s' ts : Prop := {
  mt_state : ∃ p w f m, s' = with_arrays (set_rebalancingManager s m) p w f (bufferReads s + reads (tasks_reads s ts)) ∧
    same_counts (rebalancingManager s) m;
  mt_flags : ∀ l i, node_in (logCapacity (rebalancingManager s)) l i →
    flg (rebalancingManager s') l i = true ↔ flg (rebalancingManager s) l i = true ∧ (mkRebalancingNode l i ∉ rootNode <$> ts);
  mt_pma : erased (pma s) (pma s') (in_tasks s ts);
  mt_buffer : erased (bufferArray s) (bufferArray s') (in_task_buffers s ts);
  mt_swap_length : zlen (swapPma s') = zlen (swapPma s);
  mt_swap : ∀ t, t ∈ ts → ∀ j e, at_ (task_rows s t) j = Some e → at_ (swapPma s') (task_left t + j) = Some e;
  mt_swap_other : ∀ c, (∀ t, t ∈ ts → ¬ task_left t ≤ c < task_left t + zlen (task_rows s t)) →
    at_ (swapPma s') c = at_ (swapPma s) c;
}.

Lemma existsb_snoc {A} (f : A → bool) l x : existsb f (l ++ [x]) = existsb f l || f x.
Proof. rewrite existsb_app. simpl. by rewrite orb_false_r. Qed.

Lemma tasks_reads_snoc s ts t : tasks_reads s (ts ++ [t]) = tasks_reads s ts + task_reads s t.
Proof. induction ts as [|t0 ts IH]; simpl; [lia|]. rewrite IH. lia. Qed.

Lemma moved_tasks_nil s : shape (rebalancingManager s) → moved_tasks s s [].
Proof.
  intros Hm. split.
  - exists (pma s), (swapPma s), (bufferArray s), (rebalancingManager s). split; [|by apply same_counts_refl].
    destruct s; unfold with_arrays, set_bufferReads, reads; simpl. f_equal. destruct NDEBUG; lia.
  - intros l i _. rewrite elem_of_nil. tauto.
  - by apply erased_none.
  - by apply erased_none.
  - done.
  - intros t Ht. by apply elem_of_nil in Ht.
  - done.
Qed.

(** ** One more task *)

Section step.
Variables (s : Sds) (gs : list (list (list ValueType * list ValueType))).
Hypothesis (st : stored s gs).

(** Entries outside the tasks are still in place. *)
Lemma entry_row_kept s' ts i e x buf : moved_tasks s s' ts → entry_row s i e x buf → in_tasks s ts i = false →
  entry_row s' i e x buf.
Proof.
  intros Hmv [He Hm Hx [Hlen Hc] Hl] Hout.
  destruct (mt_state _ _ _ Hmv) as (p&w&f&m&Heq&_). assert (bufferPointers s' = bufferPointers s) as Hbp by (by rewrite Heq).
  split; try done.
  - rewrite (proj2 (mt_pma _ _ _ Hmv)), Hout. done.
  - by rewrite Heq.
  - by rewrite Hbp.
  - split; [done|]. intros j y Hj. rewrite (proj2 (mt_buffer _ _ _ Hmv)), (Hc j y Hj).
    destruct (in_task_buffers s ts (Interval.left x + j)) eqn:Hb; [|done]. exfalso.
    unfold in_task_buffers in Hb. apply existsb_exists in Hb as (t&Ht&Hb). apply not_true_iff_false in Hb; [done|].
    eapply (not_in_pointers s 0 (used s)); [by eapply stored_entries| |exact Hx|].
    + destruct (decide (task_left t ≤ i < task_end s t)) as [Hin|]; [|lia]. exfalso.
      apply not_true_iff_false in Hout. apply Hout. apply existsb_exists. exists t. split; [done|].
      apply andb_true_intro. rewrite Z.leb_le, Z.ltb_lt. lia.
    + apply contains_bounds. pose proof (at_Some_bound _ _ _ Hj). unfold Interval.length in Hlen. lia.
Qed.

Lemma rows_kept s' ts a b : moved_tasks s s' ts → 0 ≤ a → b ≤ used s → (∀ i, a ≤ i < b → in_tasks s ts i = false) →
  entries_ok s' a b ∧ rows_of s' a b = rows_of s a b.
Proof.
  intros Hmv Ha Hb Hout. pose proof (stored_entries _ _ st) as Hok. 
  assert (∀ i, a ≤ i < b → ∃ e x, entry_row s' i e x (cells s' x) ∧ row s' i = row s i) as Hrow.
  { intros i Hi. destruct (eo_row _ _ _ Hok i ltac:(lia)) as (e&x&Hr).
    pose proof (entry_row_kept _ _ _ _ _ _ Hmv Hr (Hout i Hi)) as Hr'. exists e, x.
    rewrite (row_cells _ _ _ _ _ Hr), (row_cells _ _ _ _ _ Hr'). split; [|done].
    by rewrite (cells_eq s' x (cells s x)) by apply Hr'. }
  split.
  - split.
    + intros i Hi. destruct (Hrow i Hi) as (e&x&?&_). by exists e, x.
    + destruct (mt_state _ _ _ Hmv) as (p&w&f&m&->&_). apply (eo_disjoint _ _ _ Hok).
  - unfold rows_of. f_equal. apply list_fmap_ext. intros k i Hi. apply lookup_seqZ in Hi.
    destruct (Hrow i ltac:(lia)) as (_&_&_&?). done.
Qed.

Lemma move_one s' ts task s1 s2 m : moved_tasks s s' ts → 0 ≤ task_left task →
  (∀ i, task_left task ≤ i < task_end s task → in_tasks s ts i = false) →
  (∀ t, t ∈ ts → ∀ c, task_left t ≤ c < task_left t + zlen (task_rows s t) →
     ¬ task_left task ≤ c < task_left task + zlen (task_rows s task)) →
  s1 = set_rebalancingManager s' m → same_counts (rebalancingManager s') m →
  (∀ l i, node_in (logCapacity (rebalancingManager s')) l i →
     flg m l i = if bool_decide (mkRebalancingNode l i = rootNode task) then false else flg (rebalancingManager s') l i) →
  moved s1 s2 (task_left task) (task_end s task) (task_left task) (task_rows s task) →
  moved_tasks s s2 (ts ++ [task]).
Proof.
  intros Hmv Ha Hout Hdis -> Hsc Hflg (p2&w2&f2&->&W2&P2&F2).
  destruct (mt_state _ _ _ Hmv) as (p&w&f&m1&Heq&Hsc1).
  assert (bufferPointers s' = bufferPointers s) as Hbp by (by rewrite Heq).
  assert (rebalancingManager s' = m1) as Hm1 by (by rewrite Heq).
  split; cbn [with_arrays set_bufferReads set_bufferArray set_swapPma set_pma set_rebalancingManager pma swapPma bufferArray
    rebalancingManager bufferPointers bufferReads] in *.
  - exists p2, w2, f2, m. split; [|rewrite Hm1 in Hsc; by eapply same_counts_trans]. rewrite Heq.
    rewrite tasks_reads_snoc, reads_add. unfold with_arrays. simpl. f_equal. rewrite Heq in Hbp. unfold task_reads. lia.
  - intros l i Hn. rewrite Hflg by (by rewrite Hm1, (sc_log _ _ Hsc1)). rewrite fmap_app, not_elem_of_app. cbn [fmap list_fmap]. rewrite not_elem_of_cons.
    pose proof (mt_flags _ _ _ Hmv l i Hn) as Hf. destruct (decide (mkRebalancingNode l i = rootNode task)) as [Hd|Hd].
    + rewrite bool_decide_eq_true_2 by done. split; [done|]. tauto.
    + rewrite bool_decide_eq_false_2 by done. rewrite Hf. split; [|tauto]. intros [? ?]. split_and!; [done|done|done|].
      apply not_elem_of_nil.
  - eapply erased_or; [exact (mt_pma _ _ _ Hmv)|exact P2|]. intros c. unfold in_tasks. by rewrite existsb_snoc.
  - eapply erased_or; [exact (mt_buffer _ _ _ Hmv)|exact F2|]. intros c. unfold in_task_buffers. rewrite existsb_snoc, Hbp. done.
  - destruct W2 as [-> _]. apply (mt_swap_length _ _ _ Hmv).
  - destruct W2 as (_&Wr&Wo). intros t Ht j e Hj. apply elem_of_app in Ht as [Ht| ->%list_elem_of_singleton]; [|by apply Wr].
    rewrite Wo; [by apply (mt_swap _ _ _ Hmv t Ht)|]. pose proof (at_Some_bound _ _ _ Hj).
    specialize (Hdis t Ht (task_left t + j) ltac:(lia)). lia.
  - destruct W2 as (_&_&Wo). intros c Hc. rewrite Wo.
    + apply (mt_swap_other _ _ _ Hmv). intros t Ht. apply Hc. apply elem_of_app. by left.
    + specialize (Hc task). rewrite elem_of_app, list_elem_of_singleton in Hc. specialize (Hc (or_intror eq_refl)). lia.
Qed.

(** ** All tasks *)

Hypothesis (hier : hierarchy_ok s) (HW : 0 < AggregateWidth).
Hypothesis (tasks_fine : Forall (task_ok s) (rebalancingTasks s)).
Hypothesis (tasks_disjoint : ∀ i j t u c, i ≠ j → at_ (rebalancingTasks s) i = Some t → at_ (rebalancingTasks s) j = Some u →
  Interval.contains (pmaRange t) c = true → Interval.contains (pmaRange u) c = false).
Hypothesis (swap_room : ∀ t, t ∈ rebalancingTasks s → Interval.right (pmaRange t) ≤ zlen (swapPma s)).

Lemma task_rows_length task : task_ok s task → zlen (task_rows s task) = rt_numberOfBlocks task.
Proof. intros Ht. unfold task_rows. by rewrite <-(to_count _ _ Ht). Qed.

Lemma task_range task c : task_ok s task → task_left task ≤ c < task_left task + rt_numberOfBlocks task →
  Interval.contains (pmaRange task) c = true.
Proof.
  intros Ht Hc. pose proof (to_blocks _ _ Ht). apply contains_bounds. unfold task_left, Interval.length in *. lia.
Qed.

Lemma in_task_range task c : in_task s task c = true → Interval.contains (pmaRange task) c = true.
Proof.
  unfold in_task, task_left, task_end. rewrite andb_true_iff, Z.leb_le, Z.ltb_lt. intros ?. apply contains_bounds. lia.
Qed.

Lemma other_task l1 task l2 t c : rebalancingTasks s = l1 ++ task :: l2 → t ∈ l1 →
  Interval.contains (pmaRange t) c = true → Interval.contains (pmaRange task) c = false.
Proof.
  intros Hts Ht Hc. apply list_elem_of_lookup in Ht as [k Hk]. rewrite <-at_nat in Hk.
  pose proof (at_Some_bound _ _ _ Hk) as Hb. apply (tasks_disjoint (Z.of_nat k) (zlen l1) t task c); [lia| | |done].
  - rewrite Hts. by rewrite at_app_l by lia.
  - rewrite Hts. apply at_middle.
Qed.

Lemma task_of_split l1 task l2 : rebalancingTasks s = l1 ++ task :: l2 →
  task_ok s task ∧ (∀ t, t ∈ l1 → task_ok s t) ∧ task ∈ rebalancingTasks s.
Proof.
  intros Hts. rewrite Hts in tasks_fine. apply Forall_app in tasks_fine as [H1 [H2 _]%Forall_cons].
  rewrite Forall_forall in H1. split_and!; [done|done|]. rewrite Hts. apply elem_of_app. right. by left.
Qed.

Lemma rebalanceBlocks_ok s' l1 task l2 q : rebalancingTasks s = l1 ++ task :: l2 → moved_tasks s s' l1 →
  task_left task ≤ q ≤ task_end s task → rows_of s q (task_end s task) = [] →
  ∃ s2 n, rebalanceBlocks (zlen l1) (mkExtendedPmaIndex (task_left task) (-1)) (mkExtendedPmaIndex q (-1)) 0 s' = Ok (s2, n) ∧
    moved_tasks s s2 (l1 ++ [task]).
Proof.
  intros Hts Hmv Hq Hnone. destruct (task_of_split _ _ _ Hts) as (Ht&Hl1&Hin).
  pose proof (task_rows_length _ Ht) as Hlen. pose proof (to_used _ _ Ht) as Hu.
  destruct (mt_state _ _ _ Hmv) as (p&w&f&m1&Heq&Hsc1). destruct (to_node _ _ Ht) as [Hnode Hlvl].
  assert (rebalancingManager s' = m1) as Hm1 by (by rewrite Heq).
  unfold rebalanceBlocks. replace (rebalancingTasks s') with (rebalancingTasks s) by (by rewrite Heq).
  rewrite (zget_at _ _ task) by (rewrite Hts; apply at_middle). cbn [mbind result_bind]. rewrite Hm1.
  destruct (clearRebalancedFlag_ok m1 (rootNode task) (sc_shape _ _ Hsc1)) as (m2&->&Hsc2&Hflg2);
    [by rewrite (sc_log _ _ Hsc1)|]. cbn [mbind result_bind pmaIndex].
  change (Interval.left (pmaRange task) + 0) with (task_left task + 0). rewrite Z.add_0_r.
  assert (∀ i, task_left task ≤ i < task_end s task → in_tasks s l1 i = false) as Hout.
  { intros i Hi. apply not_true_iff_false. intros (t&Htl&Hti%in_task_range)%existsb_exists.
    apply list_elem_of_In in Htl. pose proof (other_task _ _ _ _ _ Hts Htl Hti) as Hno. apply not_true_iff_false in Hno.
    apply Hno, in_task_range. unfold in_task. rewrite andb_true_iff, Z.leb_le, Z.ltb_lt. lia. }
  set (s1 := set_rebalancingManager s' m2).
  destruct (rows_kept s' l1 (task_left task) (task_end s task) Hmv) as [Hok Hrows]; [lia|unfold task_end; lia|done|].
  destruct (rows_kept s' l1 q (task_end s task) Hmv) as [_ Hrq]; [lia|unfold task_end; lia|intros i Hi; apply Hout; lia|].
  destruct (moveTask_ok s1 (task_left task) (task_end s task) task (task_left task) (task_left task) q (task_end s task))
    as (s2&Hw2&Hmv2).
  - destruct Hok as [Hr Hd]. split; [|exact Hd]. intros i Hi. destruct (Hr i Hi) as (e&x&[]). by exists e, x.
  - lia.
  - lia.
  - change (rows_of s1) with (rows_of s'). by rewrite Hrq.
  - change (rows_of s1) with (rows_of s'). rewrite Hrows. change (rows_of s (task_left task) (task_end s task)) with (task_rows s task). rewrite Hlen.
    intros c Hc. pose proof (task_range task c Ht Hc) as Hct. split; [done|].
    change (swapPma s1) with (swapPma s'). rewrite (mt_swap_length _ _ _ Hmv).
    specialize (swap_room task Hin). apply contains_bounds in Hct. unfold task_left in Hu. lia.
  - change (rows_of s1) with (rows_of s') in *. rewrite Hrows in *. change (rows_of s (task_left task) (task_end s task)) with (task_rows s task) in *.
    rewrite Hw2. cbn [mbind result_bind]. exists s2, (zlen (task_rows s task)). split; [done|].
    eapply (move_one s' l1 task s1 s2 m2); try done.
    + lia.
    + intros t Htl c Hc Hc'. rewrite (task_rows_length t) in Hc by auto. rewrite Hlen in Hc'.
      pose proof (other_task _ _ _ t c Hts Htl (task_range t c (Hl1 t Htl) Hc)) as Hno.
      by rewrite (task_range task c Ht Hc') in Hno.
    + by rewrite Hm1.
    + by rewrite Hm1.
Qed.

Lemma startPartial_ok s' l1 task l2 (part : PartialRebalancingTask) : rebalancingTasks s = l1 ++ task :: l2 →
  moved_tasks s s' l1 → covers s task part →
  ∃ s2 n, startPartialRebalancingTask (zlen l1) part s' = Ok (s2, n) ∧ moved_tasks s s2 (l1 ++ [task]).
Proof.
  intros Hts Hmv (q&->&Hq&Hnone). apply (rebalanceBlocks_ok s' l1 task l2 q Hts Hmv Hq Hnone).
Qed.

Lemma effectiveRange_ok s' task : task_ok s task → size s' = size s →
  effectiveRange s' task = Ok (Some (mkInterval (task_left task) (task_end s task))).
Proof.
  intros Ht Hsz. pose proof (to_used _ _ Ht) as Hu. pose proof (to_blocks _ _ Ht) as Hb. unfold effectiveRange.
  unfold task_end, task_left, used, Interval.length in *. rewrite Hsz. cbn [Interval.left Interval.right].
  destruct (Z.leb_spec (Z.max 1 (size s)) (Interval.left (pmaRange task))); [lia|].
  match goal with |- context [?x =? 0] => destruct (Z.eqb_spec x 0) end; [lia|done].
Qed.

Lemma moved_size s' ts : moved_tasks s s' ts → size s' = size s.
Proof. intros Hmv. destruct (mt_state _ _ _ Hmv) as (p&w&f&m&->&_). done. Qed.

Lemma startFull_ok s' l1 task l2 : rebalancingTasks s = l1 ++ task :: l2 → moved_tasks s s' l1 →
  ∃ s2 n, startFullRebalancingTask (zlen l1) s' = Ok (s2, n) ∧ moved_tasks s s2 (l1 ++ [task]).
Proof.
  intros Hts Hmv. destruct (task_of_split _ _ _ Hts) as (Ht&_&_). unfold startFullRebalancingTask.
  replace (rebalancingTasks s') with (rebalancingTasks s) by (by destruct (mt_state _ _ _ Hmv) as (p&w&f&m&->&_)).
  rewrite (zget_at _ _ task) by (rewrite Hts; apply at_middle). cbn [mbind result_bind].
  rewrite (effectiveRange_ok s' task Ht (moved_size _ _ Hmv)). cbn [mbind result_bind Interval.left Interval.right].
  pose proof (to_used _ _ Ht) as Hu. pose proof (to_blocks _ _ Ht) as Hb.
  apply (rebalanceBlocks_ok s' l1 task l2 (task_end s task) Hts Hmv); [|by rewrite rows_of_nil by lia].
  unfold task_end, task_left, Interval.length in *. lia.
Qed.

Variable (t : TaskInfo).
Hypothesis (Htk : at_ (tasks s) 0 = Some t) (plan : plan_ok s t).

Lemma executeRebalancing_ok : rebalancingTasks s ≠ [] →
  ∃ s', executeRebalancing 0 s = Ok s' ∧ moved_tasks s s' (rebalancingTasks s).
Proof.
  intros Hne. pose proof plan as [Hblocks Htasks Hfirst Hlast].
  assert (Forall (λ t, 1 ≤ rt_numberOfBlocks t) (rebalancingTasks s)) as Hpos
    by (eapply Forall_impl; [exact tasks_fine|]; by intros u [_ _ _ _ []]).
  apply blocks_in_pos in Hpos. unfold executeRebalancing. rewrite (zget_at _ _ _ Htk). cbn [mbind result_bind].
  rewrite Hblocks, Htasks. unfold Interval.length. cbn [Interval.left Interval.right]. rewrite !Z.sub_0_r.
  assert (0 < zlen (rebalancingTasks s)) by (destruct (rebalancingTasks s); [done|zlen]).
  destruct (Z.ltb_spec 0 (blocks_in (rebalancingTasks s))); [|lia]. rewrite bind_first. apply wp_returns.
  apply (run_tasks (λ l s', moved_tasks s s' l) (rebalancingTasks s)
    (λ s', '(s', _) ← startPartialRebalancingTask 0 (firstRebalancingTask t) s'; Ok s')
    (λ s', '(s', _) ← startPartialRebalancingTask (zlen (rebalancingTasks s) - 1) (lastRebalancingTask t) s'; Ok s')
    (λ j s', '(s', _) ← startFullRebalancingTask j s'; Ok s')); [done|apply moved_tasks_nil, hier|..].
  - intros task l2 s' Hts Hmv. change 0 with (zlen (@nil RebalancingTask)).
    destruct (startPartial_ok s' [] task l2 (firstRebalancingTask t) Hts Hmv) as (s2&n&->&?); [|done].
    apply Hfirst. by rewrite Hts.
  - intros l1 task l2 s' Hts Hmv. by destruct (startFull_ok s' l1 task l2 Hts Hmv) as (s2&n&->&?).
  - intros l1 task s' Hts Hgt Hk Hmv. rewrite Hk.
    destruct (startPartial_ok s' l1 task [] (lastRebalancingTask t) Hts Hmv) as (s2&n&->&?); [|done].
    apply Hlast; [done|]. rewrite Hk, Hts. apply at_middle.
Qed.
End step.
End execute.
