(* ===== verification/SdsSpread.v ===== *)
(** * The rebalanced entries: buffer pointers and places

    Clearing the pointers of the entries of all tasks, and the even spread of the blocks of
    a task over its entries. *)

From S2P Require Export SdsExecute.
Import BatchedSparseArray RebalancingPhase.
Import PmaEntry(PmaEntry).

Section clear.
Context `{T : SdsTypes} `{C : BlockConfig}.
Context `{BC : !BlockConfigOk} `{HB : !HalfBlocks}.
Context `{R : RebalancingConfig} `{D : DensityManager}.
Context `{H : ConcurrentBucketMap.Hash} `{P : ThreadConfig}.
Implicit Types (s : Sds) (i j a b c q : Z) (ps : list Interval) (ts : list RebalancingTask) (task : RebalancingTask).

(** The pointers of the entries that satisfy [Q] are empty, the others are unchanged. *)
Definition cleared ps ps' (Q : Z → bool) : Prop :=
  zlen ps' = zlen ps ∧ (∀ c, Q c = false → at_ ps' c = at_ ps c) ∧
  (∀ c, Q c = true → ∃ x, at_ ps' c = Some x ∧ Interval.length x = 0).

Lemma cleared_none ps (Q : Z → bool) : (∀ c, Q c = false) → cleared ps ps Q.
Proof. intros HQ. split_and!; [done|done|]. intros c Hc. by rewrite HQ in Hc. Qed.

Lemma cleared_or ps ps1 ps2 (Q1 Q2 Q : Z → bool) : cleared ps ps1 Q1 → cleared ps1 ps2 Q2 → (∀ c, Q c = Q1 c || Q2 c) →
  cleared ps ps2 Q.
Proof.
  intros (L1&O1&C1) (L2&O2&C2) HQ. split_and!; [congruence| |]; intros c; rewrite HQ.
  - intros [? ?]%orb_false_iff. by rewrite O2, O1.
  - destruct (Q2 c) eqn:E2; [auto|]. rewrite orb_false_r. intros E1. rewrite O2 by done. auto.
Qed.

Lemma cleared_one ps i (Q : Z → bool) : 0 ≤ i < zlen ps → (∀ c, Q c = (c =? i)) → cleared ps (zupd ps i Interval.empty) Q.
Proof.
  intros Hi HQ. split_and!; [apply zlen_zupd| |]; intros c; rewrite HQ.
  - intros Hc%Z.eqb_neq. by rewrite at_zupd_ne by lia.
  - intros ->%Z.eqb_eq. exists Interval.empty. by rewrite at_zupd_eq.
Qed.

Definition between a b c : bool := (a <=? c) && (c <? b).

Lemma between_split a b d c : a ≤ b → b ≤ d → between a d c = between a b c || between b d c.
Proof. intros. unfold between. destruct (Z.leb_spec a c), (Z.ltb_spec c b), (Z.leb_spec b c), (Z.ltb_spec c d); (done || lia). Qed.

Lemma between_one i c : between i (i + 1) c = (c =? i).
Proof. unfold between. destruct (Z.leb_spec i c), (Z.ltb_spec c (i + 1)), (Z.eqb_spec c i); (done || lia). Qed.

Lemma clearRange_ok s a q : 0 ≤ a ≤ q → q ≤ zlen (bufferPointers s) →
  ∃ ps, clearBufferBlockPointers (mkExtendedPmaIndex a (-1)) (mkExtendedPmaIndex q (-1)) s = Ok (set_bufferPointers s ps) ∧
    cleared (bufferPointers s) ps (between a q).
Proof.
  intros Ha Hq. unfold clearBufferBlockPointers. cbn [pmaIndex].
  cut (wp (while (S (Z.to_nat (q + 1 - a))) (λ '(_, blockIndex), Ok (ExtendedPmaIndex_ltb blockIndex (mkExtendedPmaIndex q (-1))))
    (λ '(s, blockIndex), s ← write_bufferPointers s (pmaIndex blockIndex) Interval.empty;
      Ok (s, mkExtendedPmaIndex (pmaIndex blockIndex + 1) (bufferIndex blockIndex))) (s, mkExtendedPmaIndex a (-1)))
    (λ '(s', _), ∃ ps, s' = set_bufferPointers s ps ∧ cleared (bufferPointers s) ps (between a q))).
  { intros ([s' p]&->&ps&->&?)%wp_returns. by exists ps. }
  apply (wp_while (λ '(s', p), ∃ i ps, a ≤ i ≤ q ∧ p = mkExtendedPmaIndex i (-1) ∧ s' = set_bufferPointers s ps ∧
    cleared (bufferPointers s) ps (between a i)) (λ '(_, p), q - pmaIndex p)).
  - intros [s' p] (i&ps&Hi&->&->&Hc). cbn [pmaIndex bufferIndex]. split; [lia|]. cbn [wp].
    unfold ExtendedPmaIndex_ltb. cbn [pmaIndex bufferIndex]. rewrite Z.ltb_irrefl, andb_false_r, orb_false_r.
    pose proof Hc as [Hlen _]. destruct (Z.ltb_spec i q) as [Hlt|Hge].
    + unfold write_bufferPointers. cbn [bufferPointers set_bufferPointers]. rewrite zset_in by lia. cbn [mbind result_bind wp pmaIndex].
      split; [|lia]. exists (i + 1), (zupd ps i Interval.empty). split_and!; [lia|lia|done|done|].
      eapply cleared_or; [exact Hc|apply cleared_one; [lia|reflexivity]|]. intros c.
      by rewrite (between_split a i (i + 1)), between_one by lia.
    + assert (i = q) as -> by lia. by exists ps.
  - exists a, (bufferPointers s). split_and!; [lia|lia|done|by destruct s|]. apply cleared_none. intros c. unfold between.
    destruct (Z.leb_spec a c), (Z.ltb_spec c a); (done || lia).
  - simpl. lia.
Qed.

(** ** The tasks *)

Section tasks.
Variables (s : Sds) (gs : list (list (list ValueType * list ValueType))).
Hypothesis (st : stored s gs) (tasks_fine : Forall (task_ok s) (rebalancingTasks s)).

(** What clearing the pointers needs of the state after the moves. *)
Definition same_plan s' : Prop := size s' = size s ∧ rebalancingTasks s' = rebalancingTasks s ∧ tasks s' = tasks s.

Lemma clearTask_ok s' ts task q : size s' = size s → task_ok s task → task_left task ≤ q ≤ task_end s task →
  rows_of s q (task_end s task) = [] → cleared (bufferPointers s) (bufferPointers s') (in_tasks s ts) →
  ∃ ps, clearBufferBlockPointers (mkExtendedPmaIndex (task_left task) (-1)) (mkExtendedPmaIndex q (-1)) s' =
      Ok (set_bufferPointers s' ps) ∧ cleared (bufferPointers s) ps (in_tasks s (ts ++ [task])).
Proof.
  intros Hsz Ht Hq Hnone Hc. pose proof (to_used _ _ Ht) as Hu. pose proof Hc as (HL&HO&HC).
  pose proof (used_length _ _ st) as [_ Hcap]. pose proof (la_pointers _ _ (sd_layout _ _ st)) as Hptr.
  destruct (clearRange_ok s' (task_left task) q) as (ps&->&Hps); [lia|unfold task_end in *; lia|]. exists ps. split; [done|].
  assert (cleared (bufferPointers s) ps (λ c, in_tasks s ts c || between (task_left task) q c)) as (HL1&HO1&HC1)
    by (eapply cleared_or; [exact Hc|exact Hps|done]).
  split_and!; [done| |]; intros c; unfold in_tasks; rewrite existsb_snoc; intros Hin.
  - apply HO1. apply orb_false_iff in Hin as [H1 H2]. apply orb_false_iff. split; [done|]. unfold in_task in H2. unfold between.
    destruct (Z.leb_spec (task_left task) c), (Z.ltb_spec c q), (Z.ltb_spec c (task_end s task)); (done || lia).
  - destruct (in_tasks s ts c || between (task_left task) q c) eqn:Hcase; [auto|]. rewrite (HO1 c Hcase).
    apply orb_false_iff in Hcase as [H1 H2]. unfold in_tasks in H1. rewrite H1 in Hin. simpl in Hin.
    unfold in_task in Hin. unfold between in H2. apply andb_true_iff in Hin as [Hl Hr].
    apply Z.leb_le in Hl. apply Z.ltb_lt in Hr. destruct (Z.leb_spec (task_left task) c), (Z.ltb_spec c q); try done; try lia.
    destruct (rows_of_none s 0 (used s) q (task_end s task) (stored_entries _ _ st) ltac:(lia) ltac:(unfold task_end; lia) Hnone c ltac:(lia))
      as (e&x&[_ _ Hx [Hlen _] _]&_). exists x. split; [done|]. by rewrite <-Hlen.
Qed.

Variable (s0 : Sds).
Hypothesis (same : same_plan s0) (same_pointers : bufferPointers s0 = bufferPointers s).

(** The pointers of the tasks [ts] are cleared. *)
Definition clearing s' ts : Prop :=
  ∃ ps, s' = set_bufferPointers s0 ps ∧ cleared (bufferPointers s) ps (in_tasks s ts).

Lemma clearing_task s' l1 task l2 q : rebalancingTasks s = l1 ++ task :: l2 → clearing s' l1 →
  task_left task ≤ q ≤ task_end s task → rows_of s q (task_end s task) = [] →
  ∃ s2, clearBufferBlockPointers (mkExtendedPmaIndex (task_left task) (-1)) (mkExtendedPmaIndex q (-1)) s' = Ok s2 ∧
    clearing s2 (l1 ++ [task]).
Proof.
  intros Hts (ps&->&Hc) Hq Hnone. destruct (task_of_split s tasks_fine _ _ _ Hts) as (Ht&_&_).
  destruct (clearTask_ok (set_bufferPointers s0 ps) l1 task q) as (ps2&->&Hc2); [apply same|done|done|done|done|].
  eexists. split; [done|]. by exists ps2.
Qed.

Lemma partialClear_ok s' l1 task l2 (part : PartialRebalancingTask) : rebalancingTasks s = l1 ++ task :: l2 → clearing s' l1 →
  covers s task part → ∃ s2, startPartialClearTask part s' = Ok s2 ∧ clearing s2 (l1 ++ [task]).
Proof. intros Hts Hc (q&->&Hq&Hnone). by apply (clearing_task s' l1 task l2 q). Qed.

Lemma fullClear_ok s' l1 task l2 : rebalancingTasks s = l1 ++ task :: l2 → clearing s' l1 →
  ∃ s2, startFullClearTask (zlen l1) s' = Ok s2 ∧ clearing s2 (l1 ++ [task]).
Proof.
  intros Hts Hc. destruct (task_of_split s tasks_fine _ _ _ Hts) as (Ht&_&_). unfold startFullClearTask.
  pose proof Hc as (ps&Heq&_). destruct same as (Hsz&Hrt&_).
  replace (rebalancingTasks s') with (rebalancingTasks s) by (by rewrite Heq).
  rewrite (zget_at _ _ task) by (rewrite Hts; apply at_middle). cbn [mbind result_bind].
  rewrite (effectiveRange_ok s s' task Ht) by (by rewrite Heq). cbn [mbind result_bind Interval.left Interval.right].
  pose proof (to_used _ _ Ht). pose proof (to_blocks _ _ Ht).
  apply (clearing_task s' l1 task l2 (task_end s task)); [done|done| |by rewrite rows_of_nil by lia].
  unfold task_end, task_left, Interval.length in *. lia.
Qed.

Variable (t : TaskInfo).
Hypothesis (Htk : at_ (tasks s) 0 = Some t) (plan : plan_ok s t).

Lemma clearPointers_ok : rebalancingTasks s ≠ [] →
  ∃ ps, clearPointers 0 s0 = Ok (set_bufferPointers s0 ps) ∧ cleared (bufferPointers s) ps (in_tasks s (rebalancingTasks s)).
Proof.
  intros Hne. cut (wp (clearPointers 0 s0) (λ s', clearing s' (rebalancingTasks s))).
  { intros (s'&->&ps&->&?)%wp_returns. by exists ps. }
  pose proof plan as [Hblocks Htasks Hfirst Hlast]. destruct same as (Hsz&Hrt&Htk0).
  assert (Forall (λ t, 1 ≤ rt_numberOfBlocks t) (rebalancingTasks s)) as Hpos
    by (eapply Forall_impl; [exact tasks_fine|]; by intros u [_ _ _ _ []]).
  apply blocks_in_pos in Hpos. unfold clearPointers. rewrite Htk0, (zget_at _ _ _ Htk). cbn [mbind result_bind].
  rewrite Hblocks, Htasks. unfold Interval.length. cbn [Interval.left Interval.right]. rewrite !Z.sub_0_r.
  assert (0 < zlen (rebalancingTasks s)) by (destruct (rebalancingTasks s); [done|zlen]).
  destruct (Z.ltb_spec 0 (blocks_in (rebalancingTasks s))); [|lia].
  apply (run_tasks (λ l s', clearing s' l) (rebalancingTasks s) (startPartialClearTask (firstRebalancingTask t))
    (startPartialClearTask (lastRebalancingTask t)) startFullClearTask); [done| |..].
  - exists (bufferPointers s0). split; [by destruct s0|]. rewrite same_pointers. by apply cleared_none.
  - intros task l2 s' Hts Hc. destruct (partialClear_ok s' [] task l2 (firstRebalancingTask t) Hts Hc) as (s2&->&?); [|done].
    apply Hfirst. by rewrite Hts.
  - intros l1 task l2 s' Hts Hc. by destruct (fullClear_ok s' l1 task l2 Hts Hc) as (s2&->&?).
  - intros l1 task s' Hts Hgt Hk Hc.
    destruct (partialClear_ok s' l1 task [] (lastRebalancingTask t) Hts Hc) as (s2&->&?); [|done].
    apply Hlast; [done|]. rewrite Hk, Hts. apply at_middle.
Qed.
End tasks.
End clear.

(** * Spreading blocks evenly over a range of entries

    [getUniformWriteIndex] places block [k] of [n] at entry [k * len / n] of [len].  Entry
    [c] thus gets the blocks from [first_slot c] to [first_slot (c + 1)], at most one. *)

(** The number of blocks placed before entry [c]. *)
Definition first_slot (n len c : Z) : Z := (c * n + len - 1) / len.

Definition spread {A} (len : Z) (l : list A) : list (list A) :=
  (λ c, slice l (first_slot (zlen l) len c) (first_slot (zlen l) len (c + 1))) <$> seqZ 0 len.

Section spread.
Variables (n len : Z).
Hypothesis (Hn : 1 ≤ n ≤ len).
#[local] Abbreviation slot := (first_slot n len).

(** Block [k] lies before entry [c] when it is one of the blocks placed before [c]. *)
Lemma slot_spec k c : 0 ≤ k → k * len / n < c ↔ k < slot c.
Proof.
  intros Hk. unfold first_slot. pose proof (Z.div_mod (k * len) n ltac:(lia)) as H1.
  pose proof (Z.mod_pos_bound (k * len) n ltac:(lia)) as H2.
  pose proof (Z.div_mod (c * n + len - 1) len ltac:(lia)) as H3.
  pose proof (Z.mod_pos_bound (c * n + len - 1) len ltac:(lia)) as H4.
  set (a := k * len / n) in *. set (b := (c * n + len - 1) / len) in *.
  split; intros Hlt.
  - assert ((k * len) mod n < n) by lia. assert (k * len < c * n) by nia.
    destruct (decide (k < b)); [done|]. exfalso. assert (len * b ≤ len * k) by nia. lia.
  - assert (len * (k + 1) ≤ len * b) by nia. assert (k * len < c * n) by lia.
    destruct (decide (a < c)); [done|]. exfalso. assert (n * c ≤ n * a) by nia. lia.
Qed.

Lemma slot_at k c : 0 ≤ k → k * len / n = c ↔ slot c ≤ k < slot (c + 1).
Proof. intros Hk. pose proof (slot_spec k c Hk). pose proof (slot_spec k (c + 1) Hk). lia. Qed.

Lemma slot_zero : slot 0 = 0.
Proof. unfold first_slot. apply Z.div_small. lia. Qed.

Lemma slot_end : slot len = n.
Proof. unfold first_slot. symmetry. apply Z.div_unique with (len - 1); lia. Qed.

Lemma slot_step c : slot c ≤ slot (c + 1) ≤ slot c + 1.
Proof.
  unfold first_slot. split; [apply Z.div_le_mono; lia|].
  replace ((c * n + len - 1) / len + 1) with ((c * n + len - 1 + 1 * len) / len) by (rewrite Z.div_add; lia).
  apply Z.div_le_mono; lia.
Qed.

Lemma slot_mono c d : c ≤ d → slot c ≤ slot d.
Proof. intros. unfold first_slot. apply Z.div_le_mono; nia. Qed.

Lemma slot_bound c : 0 ≤ c ≤ len → 0 ≤ slot c ≤ n.
Proof. intros Hc. pose proof (slot_mono 0 c ltac:(lia)). pose proof (slot_mono c len ltac:(lia)). rewrite slot_zero, slot_end in *. lia. Qed.

(** Different blocks go to different entries of the range. *)
Lemma place_bound k : 0 ≤ k < n → 0 ≤ k * len / n < len.
Proof. intros Hk. split; [apply Z.div_pos; nia|]. apply (slot_spec k len); [lia|]. rewrite slot_end. lia. Qed.

Lemma place_inj j k : 0 ≤ j → 0 ≤ k → j * len / n = k * len / n → j = k.
Proof.
  intros Hj Hk Heq. apply slot_at in Heq; [|done]. pose proof (slot_step (k * len / n)).
  pose proof (proj1 (slot_at k (k * len / n) Hk) eq_refl). lia.
Qed.
End spread.

Section spread_list.
Context {A : Type}.
Implicit Types (l : list A) (len c : Z).

Lemma slice_app_split l a b c : 0 ≤ a ≤ b → b ≤ c → c ≤ zlen l → slice l a c = slice l a b ++ slice l b c.
Proof.
  intros Ha Hb Hc. apply at_ext; [rewrite zlen_app, !zlen_slice_in by lia; lia|].
  intros i Hi. rewrite zlen_slice_in in Hi by lia. rewrite at_app, zlen_slice_in, !at_slice by lia.
  destruct (Z.ltb_spec i (b - a)), (Z.leb_spec 0 i), (Z.ltb_spec i (c - a)), (Z.leb_spec 0 (i - (b - a))), (Z.ltb_spec (i - (b - a)) (c - b));
    try lia; simpl; try done. f_equal. lia.
Qed.

Lemma zlen_spread len l : 0 ≤ len → zlen (spread len l) = len.
Proof. apply zlen_tabulate. Qed.

Lemma at_spread len l c : 0 ≤ c < len →
  at_ (spread len l) c = Some (slice l (first_slot (zlen l) len c) (first_slot (zlen l) len (c + 1))).
Proof. intros Hc. unfold spread. by rewrite at_tabulate. Qed.

(** Nothing is lost and the order is kept. *)
Lemma concat_spread len l : 1 ≤ zlen l ≤ len → concat (spread len l) = l.
Proof.
  intros Hl. unfold spread. set (f := λ c, slice l (first_slot (zlen l) len c) (first_slot (zlen l) len (c + 1))).
  assert (∀ k : nat, Z.of_nat k ≤ len → concat (f <$> seqZ 0 (Z.of_nat k)) = slice l 0 (first_slot (zlen l) len (Z.of_nat k))) as Hk.
  { induction k as [|k IH]; intros Hb.
    - rewrite slot_zero by done. by rewrite slice_nil by lia.
    - replace (Z.of_nat (S k)) with (Z.of_nat k + 1) by lia. rewrite seqZ_app by lia.
      rewrite fmap_app, concat_app, IH by lia. cbn [fmap list_fmap concat]. rewrite Z.add_0_l. simpl. rewrite app_nil_r.
      unfold f. pose proof (slot_bound (zlen l) len Hl (Z.of_nat k) ltac:(lia)).
      pose proof (slot_bound (zlen l) len Hl (Z.of_nat k + 1) ltac:(lia)). pose proof (slot_step (zlen l) len Hl (Z.of_nat k)).
      change (Z.of_nat 0 + Z.of_nat k) with (Z.of_nat k). symmetry. apply slice_app_split; lia. }
  specialize (Hk (Z.to_nat len) ltac:(lia)). rewrite Z2Nat.id in Hk by lia. rewrite Hk, slot_end by done. apply slice_full.
Qed.

(** An entry gets no block or one. *)
Lemma spread_entry len l c : 1 ≤ zlen l ≤ len → 0 ≤ c < len →
  (slice l (first_slot (zlen l) len c) (first_slot (zlen l) len (c + 1)) = [] ∧
     ∀ k, 0 ≤ k < zlen l → k * len / zlen l ≠ c) ∨
  ∃ k x, 0 ≤ k < zlen l ∧ at_ l k = Some x ∧ k * len / zlen l = c ∧
    slice l (first_slot (zlen l) len c) (first_slot (zlen l) len (c + 1)) = [x].
Proof.
  intros Hl Hc. pose proof (slot_step (zlen l) len Hl c) as Hs. pose proof (slot_bound (zlen l) len Hl c ltac:(lia)) as Hb.
  pose proof (slot_bound (zlen l) len Hl (c + 1) ltac:(lia)) as Hb'. pose proof (λ k, slot_at (zlen l) len Hl k c) as Hat.
  set (a := first_slot (zlen l) len c) in *. set (b := first_slot (zlen l) len (c + 1)) in *.
  destruct (decide (b = a)) as [Heq|Hne]; [left|right].
  - rewrite slice_nil by lia. split; [done|]. intros k Hk Hkc. apply Hat in Hkc; lia.
  - destruct (at_in_bound l a ltac:(lia)) as [x Hx]. exists a, x. split_and!; [lia|lia|done|apply Hat; lia|].
    replace b with (a + 1) by lia. apply at_ext; [rewrite zlen_slice_in by lia; zlen|].
    intros i Hi. rewrite zlen_slice_in in Hi by lia. rewrite at_slice by lia. assert (i = 0) as -> by lia.
    replace (a + 1 - a) with 1 by lia. rewrite Z.add_0_r. by rewrite Hx.
Qed.

(** Block [k] goes to its place. *)
Lemma spread_at len l k x : 1 ≤ zlen l ≤ len → at_ l k = Some x → at_ (spread len l) (k * len / zlen l) = Some [x].
Proof.
  intros Hl Hk. pose proof (at_Some_bound _ _ _ Hk) as Hb. pose proof (place_bound (zlen l) len Hl k Hb) as Hp.
  rewrite at_spread by done. destruct (spread_entry len l (k * len / zlen l) Hl Hp) as [[_ Hno]|(j&y&Hj&Hy&Heq&->)].
  - by destruct (Hno k Hb).
  - assert (j = k) as -> by (apply (place_inj (zlen l) len Hl); [lia|lia|done]). rewrite Hk in Hy. by injection Hy as ->.
Qed.
End spread_list.

(** ** Spreading the blocks of several ranges *)

Section respread.
Context {A : Type}.
Implicit Types (g : list (list A)) (x : Interval) (xs : list Interval) (c : Z).

Definition blocks_of g x : list A := concat (slice g (Interval.left x) (Interval.right x)).

Definition respread g x : list (list A) :=
  slice g 0 (Interval.left x) ++ spread (Interval.length x) (blocks_of g x) ++ slice g (Interval.right x) (zlen g).

(** The blocks of a range can be spread over it. *)
Definition spreadable g x : Prop :=
  0 ≤ Interval.left x ∧ Interval.right x ≤ zlen g ∧ 1 ≤ zlen (blocks_of g x) ≤ Interval.length x.

Lemma slice_three g a b : 0 ≤ a ≤ b → b ≤ zlen g → g = slice g 0 a ++ slice g a b ++ slice g b (zlen g).
Proof. intros. rewrite <-slice_app_split by lia. rewrite <-slice_app_split by lia. by rewrite slice_full. Qed.

Lemma respread_ok g x : spreadable g x →
  zlen (respread g x) = zlen g ∧ concat (respread g x) = concat g ∧
  (∀ c, Interval.contains x c = false → at_ (respread g x) c = at_ g c) ∧
  (∀ c, 0 ≤ c < Interval.length x → at_ (respread g x) (Interval.left x + c) = at_ (spread (Interval.length x) (blocks_of g x)) c).
Proof.
  intros (Hl&Hr&Hb). unfold respread, Interval.length in *. set (a := Interval.left x) in *. set (b := Interval.right x) in *.
  assert (zlen (slice g 0 a) = a) as Ha by (rewrite zlen_slice_in; lia).
  assert (zlen (spread (b - a) (blocks_of g x)) = b - a) as Hm by (apply zlen_spread; lia).
  assert (zlen (slice g b (zlen g)) = zlen g - b) as Hz by (rewrite zlen_slice_in; lia).
  split_and!.
  - rewrite !zlen_app. lia.
  - rewrite !concat_app, concat_spread by lia. unfold blocks_of. fold a b. rewrite <-!concat_app. f_equal.
    rewrite <-slice_three; [done|lia|lia].
  - intros c Hc. apply not_true_iff_false in Hc. rewrite contains_bounds in Hc. fold a b in Hc.
    rewrite !at_app, Ha, Hm. destruct (Z.ltb_spec c a).
    + rewrite at_slice by lia. destruct (Z.leb_spec 0 c); simpl; [|by rewrite at_None_bound by lia].
      destruct (Z.ltb_spec c (a - 0)); [done|lia].
    + destruct (Z.ltb_spec (c - a) (b - a)); [lia|]. rewrite at_slice by lia.
      destruct (Z.leb_spec 0 (c - a - (b - a))); simpl; [|lia].
      destruct (Z.ltb_spec (c - a - (b - a)) (zlen g - b)); [f_equal; lia|]. by rewrite at_None_bound by lia.
  - intros c Hc. rewrite !at_app, Ha, Hm. destruct (Z.ltb_spec (a + c) a); [lia|].
    replace (a + c - a) with c by lia. by destruct (Z.ltb_spec c (b - a)); [|lia].
Qed.

(** Ranges that are disjoint from those that have been spread keep their blocks. *)
Lemma blocks_of_same g g' x : 0 ≤ Interval.left x → zlen g' = zlen g →
  (∀ c, Interval.contains x c = true → at_ g' c = at_ g c) → blocks_of g' x = blocks_of g x.
Proof.
  intros Hl Hlen Hsame. unfold blocks_of. f_equal. apply at_ext.
  - pose proof (zlen_slice g (Interval.left x) (Interval.right x)). pose proof (zlen_slice g' (Interval.left x) (Interval.right x)). lia.
  - intros i Hi. rewrite !at_slice by lia. destruct (Z.leb_spec 0 i), (Z.ltb_spec i (Interval.right x - Interval.left x)); try done.
    apply Hsame. apply contains_bounds. lia.
Qed.

Lemma respread_all g xs :
  (∀ x, x ∈ xs → spreadable g x) →
  (∀ i j x y c, i ≠ j → at_ xs i = Some x → at_ xs j = Some y → Interval.contains x c = true → Interval.contains y c = false) →
  ∃ g', zlen g' = zlen g ∧ concat g' = concat g ∧
    (∀ c, (∀ x, x ∈ xs → Interval.contains x c = false) → at_ g' c = at_ g c) ∧
    (∀ x c, x ∈ xs → 0 ≤ c < Interval.length x →
       at_ g' (Interval.left x + c) = at_ (spread (Interval.length x) (blocks_of g x)) c).
Proof.
  induction xs as [|y xs IH] using rev_ind; intros Hsp Hdis.
  - exists g. split_and!; try done. intros x c Hx. by apply elem_of_nil in Hx.
  - assert (∀ x, x ∈ xs → x ∈ xs ++ [y]) as Hin by (intros; apply elem_of_app; by left).
    destruct IH as (g1&Hlen&Hcc&Hout&Hspr).
    { auto. }
    { intros i j x z c Hij Hi Hj. pose proof (at_Some_bound _ _ _ Hi). pose proof (at_Some_bound _ _ _ Hj).
      apply (Hdis i j); [done|by rewrite at_app_l by lia..]. }
    assert (∀ x c, x ∈ xs → Interval.contains y c = true → Interval.contains x c = false) as Hy.
    { intros x c Hx Hc. apply list_elem_of_lookup in Hx as [k Hk]. rewrite <-at_nat in Hk. pose proof (at_Some_bound _ _ _ Hk).
      apply (Hdis (zlen xs) (Z.of_nat k) y x c); [lia|apply at_middle|by rewrite at_app_l by lia|done]. }
    destruct (Hsp y) as (Hyl&Hyr&Hyb); [apply elem_of_app; right; by left|].
    assert (blocks_of g1 y = blocks_of g y) as Hsame by (apply blocks_of_same; auto).
    destruct (respread_ok g1 y) as (L2&C2&O2&S2); [unfold spreadable; by rewrite Hsame, Hlen|].
    exists (respread g1 y). split_and!; [congruence|congruence| |].
    + intros c Hc. rewrite O2, Hout; [done|auto|]. apply Hc. apply elem_of_app. right. by left.
    + intros x c Hx Hcb. apply elem_of_app in Hx as [Hx| ->%list_elem_of_singleton]; [|by rewrite S2, Hsame].
      rewrite O2; [by apply Hspr|]. apply not_true_iff_false. intros Hyc. pose proof (Hy x _ Hx Hyc) as Hno.
      apply not_true_iff_false in Hno. apply Hno, contains_bounds. unfold Interval.length in Hcb. lia.
Qed.
End respread.
