(* ===== verification/SdsRewrite.v ===== *)
(** * Moving the blocks back to the pma

    [rewriteBlocks] spreads the blocks of a task, which lie densely in the swap array,
    over the entries of its range. *)

From S2P Require Export SdsSpread.
Import BatchedSparseArray RebalancingPhase.
Import PmaEntry(PmaEntry).

Section rewriting.
Context `{T : SdsTypes} `{C : BlockConfig}.
Context `{BC : !BlockConfigOk} `{HB : !HalfBlocks}.
Context `{R : RebalancingConfig} `{D : DensityManager}.
Context `{H : ConcurrentBucketMap.Hash} `{P : ThreadConfig}.
Implicit Types (s : Sds) (i j k a b c : Z) (e : PmaEntry) (rows : list PmaEntry).

Definition entry_of rows : PmaEntry := match rows with e :: _ => e | [] => PmaEntry.null_entry end.

(** The rows have been spread over the entries [[a, a + len)] of the pma. *)
Definition spread_out (p p' : list PmaEntry) a len rows : Prop :=
  zlen p' = zlen p ∧ (∀ c, c < a ∨ a + len ≤ c → at_ p' c = at_ p c) ∧
  (∀ c l, at_ (spread len rows) c = Some l → at_ p' (a + c) = Some (entry_of l)).

(** The nodes of the first [k] of [n] blocks. *)
Definition place a len n k : Z := a + k * len / n.
Definition places a len n k : list (Z * bool) := (λ j, (node (place a len n j), false)) <$> seqZ 0 k.

Definition with_rewrite s (p w : list PmaEntry) (m : ConcurrentBucketMap.ConcurrentBucketMap) : Sds :=
  set_swapPma (set_pma (set_recountingNodesMap s m) p) w.

Section one.
Variables (s : Sds) (a len : Z) (rows : list PmaEntry).
Let n := zlen rows.
Hypothesis (Hn : 1 ≤ n ≤ len) (Ha : 0 ≤ a) (Hp : a + len ≤ zlen (pma s)).
Hypothesis (Hrows : ∀ k e, at_ rows k = Some e → at_ (swapPma s) (a + k) = Some e).
Hypothesis (Hlive : Forall live rows).
Hypothesis (Hnull : ∀ c, a ≤ c < a + len → at_ (pma s) c = Some PmaEntry.null_entry).
Hypothesis (Hwf : wf (recountingNodesMap s)).

(** After [k] blocks. *)
Record rewriting k s' : Prop := {
  rw_state : ∃ p w m, s' = with_rewrite s p w m;
  rw_length : zlen (pma s') = zlen (pma s);
  rw_written : ∀ j e, j < k → at_ rows j = Some e → at_ (pma s') (place a len n j) = Some e;
  rw_other : ∀ c, (∀ j, 0 ≤ j < k → c ≠ place a len n j) → at_ (pma s') c = at_ (pma s) c;
  rw_swap : erased (swapPma s) (swapPma s') (between a (a + k));
  rw_wf : wf (recountingNodesMap s');
  rw_map : contents (recountingNodesMap s') = spec_insert_all (contents (recountingNodesMap s)) (places a len n k);
}.

Lemma rewriting_start : rewriting 0 s.
Proof.
  split; try done.
  - exists (pma s), (swapPma s), (recountingNodesMap s). by destruct s.
  - intros j e Hj [? _]%at_Some_bound. lia.
  - apply erased_none. intros c. unfold between. destruct (Z.leb_spec a c), (Z.ltb_spec c (a + 0)); (done || lia).
Qed.

Lemma places_snoc k : 0 ≤ k → places a len n (k + 1) = places a len n k ++ [(node (place a len n k), false)].
Proof. intros Hk. unfold places. rewrite seqZ_app by lia. rewrite fmap_app. simpl. by rewrite Z.add_0_l. Qed.

Lemma spec_insert_all_snoc (g : gmap Z bool) l x : spec_insert_all g (l ++ [x]) = spec_insert (spec_insert_all g l) x.1 x.2.
Proof. unfold spec_insert_all. by rewrite foldl_app. Qed.

Lemma rewriting_step k s' : rewriting k s' → 0 ≤ k < n →
  ∃ s2, (e ← zget (swapPma s') (a + k);
         AssertMsg (0 <? PmaEntry.size e);;
         writeIndex ← uniformWriteIndex a k len n;
         s ← addRecountingNode s' writeIndex false;
         s ← write_pma s writeIndex e;
         s ← write_swapPma s (a + k) PmaEntry.null_entry;
         Ok (s, k + 1)) = Ok (s2, k + 1) ∧ rewriting (k + 1) s2.
Proof.
  intros [Hst Hlen Hwr Hoth Hsw Hwf' Hmap] Hk. destruct (at_in_bound rows k) as [e He]; [done|].
  assert (at_ (swapPma s') (a + k) = Some e) as Hcell.
  { rewrite (proj2 Hsw). unfold between. destruct (Z.leb_spec a (a + k)), (Z.ltb_spec (a + k) (a + k)); try lia. by apply Hrows. }
  rewrite (zget_at _ _ _ Hcell). cbn [mbind result_bind].
  assert (live e) as Hl by (rewrite Forall_forall in Hlive; apply Hlive; apply at_lookup in He as [_ He]; by eapply list_elem_of_lookup_2).
  destruct (live_tests _ Hl) as (H1&_&_). rewrite (assert_ok _ H1). cbn [mbind result_bind].
  unfold uniformWriteIndex. destruct (Z.eqb_spec n 0); [lia|]. cbn [mbind result_bind].
  unfold getUniformWriteIndex. rewrite Z.quot_div_nonneg by nia. fold (place a len n k).
  pose proof (place_bound n len Hn k Hk) as Hpb. assert (a ≤ place a len n k < a + len) as Hpl by (unfold place; lia).
  unfold addRecountingNode. destruct (insert_refines (recountingNodesMap s') (node (place a len n k)) false Hwf') as (m'&Hm&Hwf2&Hc2).
  change (BinaryRebalancingManager.lowestLevelNodeIndex (place a len n k)) with (node (place a len n k)).
  rewrite Hm. cbn [mbind result_bind]. unfold write_pma. cbn [pma set_recountingNodesMap]. rewrite zset_in by lia. cbn [mbind result_bind].
  unfold write_swapPma. cbn [swapPma set_pma set_recountingNodesMap]. rewrite zset_in by (by eapply at_Some_bound). cbn [mbind result_bind].
  eexists. split; [done|]. split; cbn [pma swapPma recountingNodesMap set_pma set_swapPma set_recountingNodesMap].
  - destruct Hst as (p&w&m&->). by do 3 eexists.
  - by rewrite zlen_zupd.
  - intros j e' Hj He'. destruct (decide (j = k)) as [->|Hne].
    + rewrite at_zupd_eq by lia. congruence.
    + rewrite at_zupd_ne; [apply Hwr; [lia|done]|lia|]. intros Heq. apply Hne. pose proof (at_Some_bound _ _ _ He').
      symmetry. apply (place_inj n len Hn); [lia|lia|]. unfold place in Heq. lia.
  - intros c Hc. rewrite at_zupd_ne; [|lia|]; [apply Hoth; intros j Hj; apply Hc; lia|]. intros Heq. by apply (Hc k); [lia|].
  - eapply erased_or; [exact Hsw|apply erased_one; [rewrite (proj1 Hsw)|reflexivity]|].
    + rewrite <-(proj1 Hsw). by eapply at_Some_bound.
    + intros c. cbv beta. rewrite <-between_one. replace (a + (k + 1)) with (a + k + 1) by lia. apply between_split; lia.
  - done.
  - rewrite Hc2, Hmap, places_snoc by lia. by rewrite spec_insert_all_snoc.
Qed.

(** [spread] says where the blocks are. *)
Lemma rewriting_end s' : rewriting n s' → spread_out (pma s) (pma s') a len rows.
Proof.
  intros [_ Hlen Hwr Hoth _ _ _]. split_and!; [done| |].
  - intros c Hc. apply Hoth. intros j Hj. pose proof (place_bound n len Hn j Hj). unfold place. lia.
  - intros c l Hl. pose proof (at_Some_bound _ _ _ Hl) as Hc. rewrite zlen_spread in Hc by lia.
    rewrite at_spread in Hl by done. injection Hl as <-.
    destruct (spread_entry len rows c Hn Hc) as [[-> Hno]|(k&e&Hk&He&Hkc&->)]; simpl.
    + rewrite Hoth; [apply Hnull; lia|]. intros j Hj Heq. apply (Hno j Hj). unfold place in Heq. fold n. lia.
    + rewrite <-Hkc. apply (Hwr k e); [fold n in Hk; lia|done].
Qed.

Lemma rewriteBlocks_ok (swapRange : Interval) : Interval.left swapRange = a → n ≤ Interval.length swapRange →
  ∃ p w m, rewriteBlocks swapRange (mkInterval a (a + len)) n s = Ok (with_rewrite s p w m) ∧
    spread_out (pma s) p a len rows ∧ erased (swapPma s) w (between a (a + n)) ∧ wf m ∧
    contents m = spec_insert_all (contents (recountingNodesMap s)) (places a len n n).
Proof.
  intros Hleft Hfit. unfold rewriteBlocks. rewrite assert_ok by (by apply Z.leb_le). cbn [mbind result_bind].
  unfold Interval.length. cbn [Interval.left Interval.right]. rewrite Hleft. replace (a + len - a) with len by lia.
  match goal with |- context [for_range ?x ?y ?body ?st] =>
    assert (∃ s', for_range x y body st = Ok (s', n) ∧ rewriting n s') as (s'&->&Hrw) end.
  { match goal with |- ∃ s', ?l = _ ∧ _ => cut (wp l (λ '(s', k), k = n ∧ rewriting n s')) end.
    { intros ([s' k]&->&->&?)%wp_returns. by exists s'. }
    apply (wp_for (λ i '(s', k), i = a + k ∧ 0 ≤ k ≤ n ∧ rewriting k s')).
    - intros i [s' k] Hi (->&Hk&Hrw). destruct (rewriting_step k s' Hrw ltac:(lia)) as (s2&->&Hrw2).
      cbn [wp]. split_and!; [lia|lia|lia|done].
    - split_and!; [lia|lia|lia|apply rewriting_start].
    - intros [s' k] (Hi&Hk&Hrw). assert (k = n) as -> by lia. done. }
  cbn [mbind result_bind]. pose proof (rewriting_end s' Hrw) as Hout. destruct Hrw as [(p&w&m&->) _ _ _ Hsw Hwf' Hmap].
  by exists p, w, m.
Qed.
End one.

(** ** All tasks *)

Section tasks.
Variables (s : Sds) (rows_for : RebalancingTask → list PmaEntry).
Implicit Types (task : RebalancingTask) (ts : list RebalancingTask).
Definition task_length task : Z := Interval.length (pmaRange task).

(** The blocks of a task wait in the swap array and its entries are empty. *)
Record rewritable task : Prop := {
  re_count : zlen (rows_for task) = rt_numberOfBlocks task;
  re_fits : 1 ≤ rt_numberOfBlocks task ≤ task_length task;
  re_range : 0 ≤ task_left task ∧ task_left task + task_length task ≤ zlen (pma s);
  re_rows : ∀ k e, at_ (rows_for task) k = Some e → at_ (swapPma s) (task_left task + k) = Some e;
  re_live : Forall live (rows_for task);
  re_null : ∀ c, task_left task ≤ c < task_left task + task_length task → at_ (pma s) c = Some PmaEntry.null_entry;
}.

Definition all_places ts : list (Z * bool) :=
  concat ((λ t, places (task_left t) (task_length t) (rt_numberOfBlocks t) (rt_numberOfBlocks t)) <$> ts).
Definition in_output ts c : bool :=
  existsb (λ t, between (task_left t) (task_left t + rt_numberOfBlocks t) c) ts.

(** The blocks of the tasks [ts] are back in the pma. *)
Record rewritten_tasks s' ts : Prop := {
  rt_state : ∃ p w m, s' = with_rewrite s p w m;
  rt_length : zlen (pma s') = zlen (pma s);
  rt_spread : ∀ t c l, t ∈ ts → at_ (spread (task_length t) (rows_for t)) c = Some l →
    at_ (pma s') (task_left t + c) = Some (entry_of l);
  rt_other : ∀ c, (∀ t, t ∈ ts → Interval.contains (pmaRange t) c = false) → at_ (pma s') c = at_ (pma s) c;
  rt_swap : erased (swapPma s) (swapPma s') (in_output ts);
  rt_wf : wf (recountingNodesMap s');
  rt_map : contents (recountingNodesMap s') = spec_insert_all (contents (recountingNodesMap s)) (all_places ts);
}.

Lemma task_right task : task_left task + task_length task = Interval.right (pmaRange task).
Proof. unfold task_left, task_length, Interval.length. lia. Qed.

Lemma rewritten_nil : wf (recountingNodesMap s) → rewritten_tasks s [].
Proof.
  intros Hwf. split; try done.
  - exists (pma s), (swapPma s), (recountingNodesMap s). by destruct s.
  - intros t c l Ht. by apply elem_of_nil in Ht.
Qed.

Hypothesis (fine : ∀ t, t ∈ rebalancingTasks s → rewritable t) (Hsum : summed s).
Hypothesis (disjoint : ∀ i j t u c, i ≠ j → at_ (rebalancingTasks s) i = Some t → at_ (rebalancingTasks s) j = Some u →
  Interval.contains (pmaRange t) c = true → Interval.contains (pmaRange u) c = false).

Lemma rewrite_disjoint l1 task l2 t c : rebalancingTasks s = l1 ++ task :: l2 → t ∈ l1 →
  Interval.contains (pmaRange task) c = true → Interval.contains (pmaRange t) c = false.
Proof.
  intros Hts Ht Hc. apply list_elem_of_lookup in Ht as [k Hk]. rewrite <-at_nat in Hk.
  pose proof (at_Some_bound _ _ _ Hk) as Hb. apply (disjoint (zlen l1) (Z.of_nat k) task t c); [lia| | |done].
  - rewrite Hts. apply at_middle.
  - rewrite Hts. by rewrite at_app_l by lia.
Qed.

Lemma split_rewritable l1 task l2 : rebalancingTasks s = l1 ++ task :: l2 →
  rewritable task ∧ ∀ t, t ∈ l1 → rewritable t.
Proof.
  intros Hts. split; [apply fine; rewrite Hts; apply elem_of_app; right; by left|].
  intros t Ht. apply fine. rewrite Hts. apply elem_of_app. by left.
Qed.

(** One more task. *)
Lemma rewriteTask_ok s' l1 task l2 (swapRange : Interval) : rebalancingTasks s = l1 ++ task :: l2 → rewritten_tasks s' l1 →
  Interval.left swapRange = task_left task → rt_numberOfBlocks task ≤ Interval.length swapRange →
  ∃ s2, rewriteBlocks swapRange (mkInterval (task_left task) (task_left task + task_length task))
      (rt_numberOfBlocks task) s' = Ok s2 ∧ rewritten_tasks s2 (l1 ++ [task]).
Proof.
  intros Hts [Hst Hlen Hspr Hoth Hsw Hwf Hmap] Hleft Hfit. destruct (split_rewritable _ _ _ Hts) as [[Hc Hf Hr Hrows Hlive Hnull] Hl1].
  assert (∀ c, task_left task ≤ c < task_left task + task_length task → ∀ t, t ∈ l1 → Interval.contains (pmaRange t) c = false) as Hout.
  { intros c Hcb t Ht. apply (rewrite_disjoint l1 task l2); [done|done|]. apply contains_bounds. rewrite task_right in Hcb. unfold task_left in Hcb. lia. }
  destruct (rewriteBlocks_ok s' (task_left task) (task_length task) (rows_for task)) with (swapRange := swapRange)
    as (p&w&m&Hrw&(L2&O2&S2)&E2&Hwf2&Hmap2); try rewrite !Hc; try done.
  - lia.
  - rewrite Hlen. lia.
  - intros k e He. rewrite (proj2 Hsw), (Hrows k e He). destruct (in_output l1 (task_left task + k)) eqn:Hin; [|done]. exfalso.
    pose proof (at_Some_bound _ _ _ He) as Hk. rewrite Hc in Hk.
    apply existsb_exists in Hin as (t&Ht&Hb). apply list_elem_of_In in Ht. apply andb_true_iff in Hb as [Hb1 Hb2].
    apply Z.leb_le in Hb1. apply Z.ltb_lt in Hb2. pose proof (re_fits _ (Hl1 t Ht)) as Hft.
    pose proof (Hout (task_left task + k) ltac:(lia) t Ht) as Hno. apply not_true_iff_false in Hno. apply Hno, contains_bounds.
    unfold task_left, task_length, Interval.length in *. lia.
  - intros c Hcb. rewrite Hoth; [by apply Hnull|]. by apply Hout.
  - rewrite Hc in Hrw. exists (with_rewrite s' p w m). split; [exact Hrw|].
    split; cbn [with_rewrite pma swapPma recountingNodesMap set_pma set_swapPma set_recountingNodesMap].
    + destruct Hst as (p0&w0&m0&->). by do 3 eexists.
    + congruence.
    + intros t c l Ht Hl. apply elem_of_app in Ht as [Ht| ->%list_elem_of_singleton]; [|by apply S2].
      rewrite O2; [by apply Hspr|]. pose proof (re_fits _ (Hl1 t Ht)) as Hft. pose proof (at_Some_bound _ _ _ Hl) as Hcb.
      rewrite zlen_spread in Hcb by lia.
      destruct (decide (task_left task ≤ task_left t + c < task_left task + task_length task)) as [Hin|]; [|lia]. exfalso.
      pose proof (Hout _ Hin t Ht) as Hno. apply not_true_iff_false in Hno. apply Hno, contains_bounds.
      rewrite <-task_right. unfold task_left in *. lia.
    + intros c Hno. rewrite O2.
      * apply Hoth. intros t Ht. apply Hno. apply elem_of_app. by left.
      * specialize (Hno task). rewrite elem_of_app, list_elem_of_singleton in Hno. specialize (Hno (or_intror eq_refl)).
        apply not_true_iff_false in Hno. rewrite contains_bounds in Hno. rewrite task_right. unfold task_left. lia.
    + eapply erased_or; [exact Hsw|rewrite Hc in E2; exact E2|]. intros c. unfold in_output. by rewrite existsb_snoc.
    + done.
    + rewrite Hmap2, Hmap, Hc. unfold all_places. rewrite fmap_app, concat_app. cbn [fmap list_fmap concat]. rewrite app_nil_r.
      unfold spec_insert_all. by rewrite foldl_app.
Qed.

Lemma startFullRewriting_ok s' l1 task l2 : rebalancingTasks s = l1 ++ task :: l2 → rewritten_tasks s' l1 →
  ∃ s2, startFullRewritingTask (zlen l1) s' = Ok s2 ∧ rewritten_tasks s2 (l1 ++ [task]).
Proof.
  intros Hts Hrw. destruct (split_rewritable _ _ _ Hts) as [Hre _]. unfold startFullRewritingTask.
  replace (rebalancingTasks s') with (rebalancingTasks s) by (by destruct (rt_state _ _ Hrw) as (p&w&m&->)).
  rewrite (zget_at _ _ task) by (rewrite Hts; apply at_middle). cbn [mbind result_bind].
  destruct (rewriteTask_ok s' l1 task l2 (pmaRange task) Hts Hrw) as (s2&Hs2&?); [done|apply Hre|].
  exists s2. split; [|done]. rewrite <-Hs2, task_right. unfold task_left. by destruct (pmaRange task).
Qed.

Lemma startPartialRewriting_ok s' l1 task l2 : rebalancingTasks s = l1 ++ task :: l2 → rewritten_tasks s' l1 →
  ∃ s2, startPartialRewritingTask (zlen l1) (mkInterval 0 (blocks_in (rebalancingTasks s))) s' = Ok s2 ∧
    rewritten_tasks s2 (l1 ++ [task]).
Proof.
  intros Hts Hrw. destruct (split_rewritable _ _ _ Hts) as [Hre _]. pose proof (re_fits _ Hre) as Hn.
  destruct (rt_state _ _ Hrw) as (p&w&m&Heq). unfold startPartialRewritingTask.
  assert (Forall (λ t, 1 ≤ rt_numberOfBlocks t) (rebalancingTasks s)) as Hpos.
  { apply Forall_forall. intros t Ht. apply (re_fits _ (fine t Ht)). }
  assert (prefixNumberOfRebalancingBlocks s' = prefixNumberOfRebalancingBlocks s) as Hpre by (by rewrite Heq).
  rewrite Hpre, (prefix_length s Hsum). assert (0 ≤ zlen l1 < zlen (rebalancingTasks s)) as Hl.
  { rewrite Hts. pose proof (zlen_nonneg l1). pose proof (zlen_nonneg l2). zlen. }
  rewrite (assert_ok ((if 0 <? zlen l1 then zlen l1 - 1 else 0) <? _)) by (apply Z.ltb_lt; destruct (0 <? zlen l1); lia).
  cbn [mbind result_bind]. rewrite (assert_ok (zlen l1 <? _)) by (apply Z.ltb_lt; lia). cbn [mbind result_bind].
  assert (taskBlockRange s' (zlen l1) = taskBlockRange s (zlen l1)) as -> by (unfold taskBlockRange; by rewrite Hpre).
  rewrite (taskBlockRange_ok s Hsum l1 task l2 Hts). cbn [mbind result_bind]. rewrite (cut_task s Hpos l1 task l2 Hts).
  assert (Interval.length (mkInterval (blocks_in l1) (blocks_in l1 + rt_numberOfBlocks task)) = rt_numberOfBlocks task) as Hlen
    by (unfold Interval.length; simpl; lia).
  rewrite Hlen. cbn [Interval.left Interval.right]. rewrite Z.sub_diag.
  destruct (Z.eqb_spec (rt_numberOfBlocks task) 0); [lia|].
  replace (rebalancingTasks s') with (rebalancingTasks s) by (by rewrite Heq).
  rewrite (zget_at _ _ task) by (rewrite Hts; apply at_middle). cbn [mbind result_bind].
  unfold uniformWriteIndex. destruct (Z.eqb_spec (rt_numberOfBlocks task) 0); [lia|]. cbn [mbind result_bind].
  unfold getUniformWriteIndex. rewrite Z.mul_0_l, Z.quot_0_l, !Z.add_0_r, Z.add_0_l by lia.
  fold (task_length task). fold (task_left task). rewrite (Z.mul_comm (rt_numberOfBlocks task)), Z.quot_mul by lia.
  apply (rewriteTask_ok s' l1 task l2 (mkInterval (task_left task) (task_left task + rt_numberOfBlocks task)) Hts Hrw); [done|].
  unfold Interval.length. simpl. lia.
Qed.

Lemma executeRewriting_ok : rebalancingTasks s ≠ [] → numberOfThreads s = 1 → wf (recountingNodesMap s) →
  ∃ s', executeRewriting (blocks_in (rebalancingTasks s)) 0 s = Ok s' ∧ rewritten_tasks s' (rebalancingTasks s).
Proof.
  intros Hne H1 Hwf. apply wp_returns.
  assert (Forall (λ t, 1 ≤ rt_numberOfBlocks t) (rebalancingTasks s)) as Hpos.
  { apply Forall_forall. intros t Ht. apply (re_fits _ (fine t Ht)). }
  pose proof (blocks_in_pos _ Hpos) as Htot. assert (0 < zlen (rebalancingTasks s)) by (destruct (rebalancingTasks s); [done|zlen]).
  unfold executeRewriting. rewrite threadBlocks_one by (done || lia). cbn [Interval.left Interval.right].
  destruct (Z.ltb_spec 0 (blocks_in (rebalancingTasks s))); [|lia].
  rewrite (findRebalancingTask_ok s Hsum Hne Hpos 0 0) by (by left).
  rewrite (findRebalancingTask_ok s Hsum Hne Hpos (blocks_in (rebalancingTasks s)) (zlen (rebalancingTasks s) - 1)) by (by right).
  cbn [mbind result_bind]. replace (zlen (rebalancingTasks s) - 1 + 1) with (zlen (rebalancingTasks s)) by lia. rewrite Z.sub_0_r.
  apply (run_tasks (λ l s', rewritten_tasks s' l) (rebalancingTasks s)
    (startPartialRewritingTask 0 (mkInterval 0 (blocks_in (rebalancingTasks s))))
    (startPartialRewritingTask (zlen (rebalancingTasks s) - 1) (mkInterval 0 (blocks_in (rebalancingTasks s)))) startFullRewritingTask).
  - done.
  - by apply rewritten_nil.
  - intros task l2 s' Hts Hrw. destruct (startPartialRewriting_ok s' [] task l2 Hts Hrw) as (s2&Hs2&?).
    change (zlen (@nil RebalancingTask)) with 0 in Hs2. by rewrite Hs2.
  - intros l1 task l2 s' Hts Hrw. by destruct (startFullRewriting_ok s' l1 task l2 Hts Hrw) as (s2&->&?).
  - intros l1 task s' Hts Hgt Hk Hrw. rewrite Hk. by destruct (startPartialRewriting_ok s' l1 task [] Hts Hrw) as (s2&->&?).
Qed.
End tasks.
End rewriting.

(** * Preparing the rebalancing tasks

    What [executeTasks] relies on, and its first steps: the prefix sums, the growth of the
    swap array and the plan of the only thread. *)

Import BinaryRebalancingManager (Manager, logCapacity).

Section ready.
Context `{T : SdsTypes} `{C : BlockConfig}.
Context `{BC : !BlockConfigOk} `{HB : !HalfBlocks}.
Context `{R : RebalancingConfig} `{D : DensityManager}.
Context `{H : ConcurrentBucketMap.Hash} `{P : ThreadConfig}.
Implicit Types (s : Sds) (i j a b c : Z) (ts : list RebalancingTask) (task : RebalancingTask).
Implicit Types (gs : list (list (list ValueType * list ValueType))).

(** ** States with the same blocks *)

Definition same_store s s' : Prop :=
  pma s' = pma s ∧ bufferPointers s' = bufferPointers s ∧ bufferArray s' = bufferArray s ∧
  size s' = size s ∧ capacity s' = capacity s.

Definition same_tree s s' : Prop := same_store s s' ∧ rebalancingManager s' = rebalancingManager s.

Lemma stored_same s s' gs : same_store s s' → stored s gs → stored s' gs.
Proof.
  intros (E1&E2&E3&E4&E5) [[]]. destruct s, s'; simpl in *; subst. split; [split|]; done.
Qed.

Lemma rows_same s s' a b : same_store s s' → rows_of s' a b = rows_of s a b ∧ used s' = used s.
Proof. intros (E1&E2&E3&E4&E5). destruct s, s'; simpl in *; subst. done. Qed.

Lemma hierarchy_same s s' : same_tree s s' → hierarchy_ok s → hierarchy_ok s'.
Proof. intros [(E1&E2&E3&E4&E5) E6] []. destruct s, s'; simpl in *; subst. by split. Qed.

Lemma task_ok_same s s' task : same_tree s s' → task_ok s task → task_ok s' task.
Proof. intros [(E1&E2&E3&E4&E5) E6] []. destruct s, s'; simpl in *; subst. by split. Qed.

Lemma plan_ok_same s s' t : same_store s s' → rebalancingTasks s' = rebalancingTasks s → plan_ok s t → plan_ok s' t.
Proof. intros (E1&E2&E3&E4&E5) E6 []. destruct s, s'; simpl in *; subst. by split. Qed.

(** ** What the execution of the tasks relies on *)

Definition newSize s : Z :=
  match list.last (rebalancingTasks s) with
  | None => size s
  | Some task => Z.max (size s) (Interval.right (pmaRange task))
  end.

Definition disjoint_tasks ts : Prop :=
  ∀ i j t u c, i ≠ j → at_ ts i = Some t → at_ ts j = Some u →
    Interval.contains (pmaRange t) c = true → Interval.contains (pmaRange u) c = false.

(** All tasks lie within the array, or one task grows it. *)
Definition growing s : Prop :=
  ∃ t, rebalancingTasks s = [t] ∧ task_left t = 0 ∧ size s ≤ Interval.right (pmaRange t).

Record ready s gs : Prop := {
  rd_stored : stored s gs;
  rd_hier : hierarchy_ok s;
  rd_width : 0 < AggregateWidth;
  rd_some : rebalancingTasks s ≠ [];
  rd_fine : Forall (task_ok s) (rebalancingTasks s);
  rd_disjoint : disjoint_tasks (rebalancingTasks s);
  rd_threads : numberOfThreads s = 1;
  rd_tasks : 0 < zlen (tasks s);
  rd_swap : swapPma s = null_entries (swapCapacity s);
  rd_capacity : swapCapacity s = capacity s;
  rd_below : size s < capacity s;
  rd_growth : (∀ t, t ∈ rebalancingTasks s → Interval.right (pmaRange t) ≤ size s) ∨ growing s;
}.

Lemma task_nonempty s task : task_ok s task → task_left task < Interval.right (pmaRange task).
Proof. intros Ht. pose proof (to_blocks _ _ Ht). unfold task_left, Interval.length in *. lia. Qed.

Lemma last_elem {A} (l : list A) x : list.last l = Some x → x ∈ l.
Proof. intros (l'&->)%last_Some. apply elem_of_app. right. by left. Qed.

Lemma newSize_ok s gs : ready s gs →
  used s ≤ newSize s ∧ 1 ≤ newSize s ∧ (∀ t, t ∈ rebalancingTasks s → Interval.right (pmaRange t) ≤ newSize s) ∧
  (newSize s = size s ∨ growing s).
Proof.
  intros Hr. pose proof (rd_some _ _ Hr) as Hne. destruct (exists_last Hne) as (l&t&Hts). unfold newSize. rewrite Hts, last_snoc.
  assert (task_ok s t) as Ht by (pose proof (rd_fine _ _ Hr) as Hf; rewrite Hts in Hf; by apply Forall_app in Hf as [_ [? _]%Forall_cons]).
  pose proof (task_nonempty _ _ Ht) as Hlt. pose proof (to_used _ _ Ht) as Hu. unfold used in *.
  destruct (rd_growth _ _ Hr) as [Hin|(t'&Hts'&Hl&Hrt)].
  - assert (t ∈ rebalancingTasks s) as Htin by (rewrite Hts; apply elem_of_app; right; by left).
    pose proof (Hin t Htin). split_and!; [lia|lia| |left; lia]. intros u Hu'. rewrite <-Hts in Hu'. specialize (Hin u Hu'). lia.
  - rewrite Hts in Hts'. assert (l = []) as -> by (destruct l as [|? [|? ?]]; simplify_eq; done). simpl in Hts'. injection Hts' as ->.
    split_and!; [lia|lia| |right; exists t'; by rewrite Hts]. intros u ->%list_elem_of_singleton. lia.
Qed.

(** ** The swap array *)

Definition with_swap s c : Sds := set_swapPma (set_swapCapacity s c) (null_entries c).

Lemma growSwap_ok s gs : ready s gs →
  ∃ c, growSwap s = Ok (with_swap s c, newSize s) ∧ newSize s < c ∧ capacity s ≤ c ∧ (c = capacity s ∨ growing s).
Proof.
  intros Hr. pose proof (newSize_ok _ _ Hr) as (Hu&H1&_&Hg). pose proof (rd_capacity _ _ Hr) as Hcap. pose proof (rd_below _ _ Hr) as Hb.
  pose proof (used_length _ _ (rd_stored _ _ Hr)) as [_ Hc]. unfold growSwap.
  assert (∃ c, increaseSwapPmaSize s (newSize s) = Ok (with_swap s c) ∧ newSize s < c ∧ capacity s ≤ c ∧ (c = capacity s ∨ growing s))
    as (c&Hinc&Hlt&Hle&Hcg).
  { unfold increaseSwapPmaSize. destruct (Z.leb_spec (swapCapacity s) (newSize s)) as [Hge|Hlt].
    - unfold doubleBeyond. destruct (doubling_ok (swapCapacity s) (newSize s) ltac:(lia)) as (d&->&Hd&_).
      exists (swapCapacity s * 2 ^ Z.of_nat d). split_and!; [done|done|lia|]. right. destruct Hg as [?|?]; [lia|done].
    - exists (swapCapacity s). split_and!; [|done|lia|by left]. unfold with_swap. rewrite <-(rd_swap _ _ Hr). by destruct s. }
  exists c. destruct (exists_last (rd_some _ _ Hr)) as (l&t&Hts). unfold newSize in *. rewrite Hts, last_snoc in *.
  rewrite Hinc. done.
Qed.

Lemma null_entries_at c i : 0 ≤ i < c → at_ (null_entries c) i = Some PmaEntry.null_entry.
Proof. intros. unfold null_entries. rewrite at_replicate by lia. done. Qed.

Lemma zlen_null_entries c : 0 ≤ c → zlen (null_entries c) = c.
Proof. intros. unfold null_entries. rewrite zlen_replicate. lia. Qed.
End ready.
