(* ===== verification/SdsInsertPhase.v ===== *)
(** * The insertion phase with one thread

    The only task covers the array from the block of the first key of the batch to the end.
    Afterwards the array holds its elements merged with the batch, and the entries with
    buffer blocks are marked for the update of the hierarchy. *)

From S2P Require Export SdsFill SdsRewrite SdsDistribute.
Import BlockSeq BatchedSparseArray Insertion Distribution.
Import PmaEntry(PmaEntry).

#[local] Abbreviation hd := SearchFacts.hd.

Section phase.
Context `{T : SdsTypes} `{C : BlockConfig}.
Context `{BC : !BlockConfigOk} `{HB : !HalfBlocks}.
Context `{R : RebalancingConfig} `{D : DensityManager}.
Context `{H : ConcurrentBucketMap.Hash} `{P : ThreadConfig}.
Implicit Types (s : Sds) (i j k : Z) (batch es : list ValueType) (t : TaskInfo) (ts : list TaskInfo).
Implicit Types (gs : list (list (list ValueType * list ValueType))).

(** ** The tasks *)

Lemma write_first_task s t ts (f : TaskInfo → TaskInfo) : tasks s = t :: ts → write_task s 0 f = Ok (set_tasks s (f t :: ts)).
Proof.
  intros Ht. unfold write_task. rewrite Ht. rewrite (zget_at (t :: ts) 0 t) by done. cbn [mbind result_bind].
  rewrite zset_in by (pose proof (zlen_nonneg ts); zlen). done.
Qed.

Lemma write_second_task s t0 t1 ts (f : TaskInfo → TaskInfo) : tasks s = t0 :: t1 :: ts →
  write_task s 1 f = Ok (set_tasks s (t0 :: f t1 :: ts)).
Proof.
  intros Ht. unfold write_task. rewrite Ht. rewrite (zget_at (t0 :: t1 :: ts) 1 t1) by done. cbn [mbind result_bind].
  rewrite zset_in by (pose proof (zlen_nonneg ts); zlen). done.
Qed.

Lemma tasks_set_twice s x y : set_tasks (set_tasks s x) y = set_tasks s y.
Proof. done. Qed.

(** The task that inserts [n] elements from entry [k] on. *)
Definition only_task t k : Prop :=
  type t = INSERTION ∧ blockForBatchSplitter t = k ∧ firstBatchElement t = 0 ∧ startIndex t = k ∧ mergedTasks t = 0.
Definition end_task t s k (n : Z) : Prop :=
  blockForBatchSplitter t = size s ∧ firstBatchElement t = n ∧ startIndex t = k + 2 * n.

Lemma distribute_one s v es t0 t1 ts k (n : Z) : tasks s = t0 :: t1 :: ts → numberOfThreads s = 1 →
  n = zlen (v :: es) → Search.findBlockIndex s (keyOfValue v) = Ok k →
  ∃ u0 u1, (s ← findTasks s (v :: es) n; '(s, hasMergedTask) ← mergeTasks s;
      s ← distributeWorkInMergedTasks s (v :: es) n; '(s, prefixWidth) ← computeStartIndices s;
      Ok (s, hasMergedTask, prefixWidth)) = Ok (set_tasks s (u0 :: u1 :: ts), false, k + 2 * n) ∧
    only_task u0 k ∧ end_task u1 s k n.
Proof.
  intros Ht H1 Hn Hk. unfold findTasks. rewrite H1. erewrite write_second_task by done. cbn [mbind result_bind].
  set (t1' := set_firstBatchElement (set_blockForBatchSplitter t1 (size s)) n).
  change (numberOfThreads (set_tasks s _)) with (numberOfThreads s). rewrite H1.
  rewrite for_range_once by done. unfold findTask, splitterBlock. rewrite Z.mul_0_l.
  change (batchKey (v :: es) 0) with (Ok (keyOfValue v)). cbn [mbind result_bind].
  change (Search.findBlockIndex (set_tasks s _) (keyOfValue v)) with (Search.findBlockIndex s (keyOfValue v)).
  rewrite Hk. cbn [mbind result_bind]. erewrite write_first_task by done. cbn [mbind result_bind]. rewrite tasks_set_twice.
  cbn [Z.ltb Z.compare]. cbn [mbind result_bind]. erewrite write_first_task by done. cbn [mbind result_bind]. rewrite tasks_set_twice.
  change (numberOfThreads (set_tasks s _)) with (numberOfThreads s). rewrite H1. change (0 =? 1 - 1) with true. cbn iota.
  cbn [mbind result_bind]. erewrite write_first_task by done. cbn [mbind result_bind]. rewrite tasks_set_twice.
  unfold mergeTasks. erewrite write_first_task by done. cbn [mbind result_bind]. rewrite tasks_set_twice.
  change (numberOfThreads (set_tasks s _)) with (numberOfThreads s). rewrite H1. rewrite for_range_nil by lia.
  cbn [mbind result_bind]. change (numberOfThreads (set_tasks s _)) with (numberOfThreads s). rewrite H1.
  erewrite write_second_task by done. cbn [mbind result_bind]. rewrite tasks_set_twice.
  unfold distributeWorkInMergedTasks. erewrite write_first_task by done. cbn [mbind result_bind]. rewrite tasks_set_twice.
  change (numberOfThreads (set_tasks s _)) with (numberOfThreads s). rewrite H1. rewrite for_range_nil by lia.
  cbn [mbind result_bind]. unfold computeStartIndices.
  match goal with |- context [tasks (set_tasks s (?x :: ?y :: ts))] => set (u0 := x); set (u1 := y) end.
  change (tasks (set_tasks s (u0 :: u1 :: ts))) with (u0 :: u1 :: ts). rewrite (zget_at (u0 :: u1 :: ts) 0 u0) by done.
  cbn [mbind result_bind]. change (numberOfThreads (set_tasks s _)) with (numberOfThreads s). rewrite H1.
  rewrite for_range_cons by lia. change (tasks (set_tasks s (u0 :: u1 :: ts))) with (u0 :: u1 :: ts).
  rewrite (zget_at (u0 :: u1 :: ts) 0 u0) by done. cbn [mbind result_bind]. erewrite write_first_task by done.
  cbn [mbind result_bind]. rewrite tasks_set_twice. change (numberOfThreads (set_tasks s _)) with (numberOfThreads s). rewrite H1.
  replace (0 <? mergedTasks u0) with false by done. rewrite !andb_false_r. cbn [mbind result_bind].
  rewrite for_range_once by lia. change (0 + 1) with 1. set (u0' := set_startIndex u0 _).
  change (tasks (set_tasks s (u0' :: u1 :: ts))) with (u0' :: u1 :: ts). rewrite (zget_at (u0' :: u1 :: ts) 1 u1) by done.
  cbn [mbind result_bind]. erewrite write_second_task by done. cbn [mbind result_bind]. rewrite tasks_set_twice.
  change (numberOfThreads (set_tasks s _)) with (numberOfThreads s). rewrite H1. change (1 <? 1) with false. cbn [andb mbind result_bind].
  unfold getRequiredWidth in u0. exists u0', (set_startIndex u1 (k + 2 * n)).
  assert (blockForBatchSplitter u0 + requiredWidth u0 = k + 2 * n) as Hw by (cbn; lia).
  rewrite Hw. replace (k + 2 * n + requiredWidth u1) with (k + 2 * n) by (cbn; lia). done.
Qed.

(** ** An array without buffer blocks *)

Record quiet s gs : Prop := {
  qu_stored : stored s gs;
  qu_some : 0 < size s → concat gs ≠ [];
  qu_unbuffered : ∀ i, buffers s i = 0;
  qu_buffer : ∀ c e, at_ (bufferArray s) c = Some e → e = PmaEntry.null_entry;
  qu_room : zlen (bufferArray s) = bufferCapacity s ∧ 0 < bufferCapacity s;
  qu_threads : numberOfThreads s = 1;
  qu_tasks : ∃ t0 t1 ts, tasks s = t0 :: t1 :: ts;
  qu_map : wf (recountingNodesMap s);
}.

Lemma quiet_pointer s gs i : quiet s gs → 0 ≤ i < capacity s → unbuffered s i.
Proof.
  intros Hq Hi. pose proof (la_pointers _ _ (sd_layout _ _ (qu_stored _ _ Hq))) as Hl.
  destruct (at_in_bound (bufferPointers s) i) as [x Hx]; [lia|]. exists x. split; [done|].
  pose proof (qu_unbuffered _ _ Hq i) as Hu. unfold buffers, pointer_length in Hu. by rewrite Hx in Hu.
Qed.

(** The tasks and an empty buffer array are exchanged. *)
Definition with_buffer s ts c (f : list PmaEntry) : Sds := set_bufferArray (set_bufferCapacity (set_tasks s ts) c) f.

Lemma quiet_with_buffer s gs t0 t1 ts c f : quiet s gs → zlen f = c → 0 < c →
  (∀ i e, at_ f i = Some e → e = PmaEntry.null_entry) → quiet (with_buffer s (t0 :: t1 :: ts) c f) gs.
Proof.
  intros Hq Hf Hc Hnull. destruct Hq as [[Hl Hfirst] Hsome Hun Hbuf Hroom Hth Ht Hmap]. split; try done.
  - split; [|done]. destruct Hl. split; try done. intros i bs Hi. destruct (la_entries _ _ Hi) as (main&buf&->&e&x&He&Hm&Hx&Hlen&_).
    assert (buf = []) as ->.
    { specialize (Hun i). unfold buffers, pointer_length in Hun. rewrite Hx in Hun. destruct buf; [done|zlen]. }
    exists main, []. split; [done|]. exists e, x. split_and!; [done|done|done|]. split; [done|]. intros j y Hj. apply at_Some_bound in Hj. zlen.
  - by do 3 eexists.
Qed.

Lemma increaseBuffer_ok s gs t0 t1 ts (n : Z) : quiet s gs → 0 ≤ n →
  ∃ c f, increaseBufferArraySize (set_tasks s (t0 :: t1 :: ts)) n = Ok (with_buffer s (t0 :: t1 :: ts) c f) ∧
    quiet (with_buffer s (t0 :: t1 :: ts) c f) gs ∧ n < c.
Proof.
  intros Hq Hn. destruct (qu_room _ _ Hq) as [Hlen Hpos]. unfold increaseBufferArraySize.
  change (bufferCapacity (set_tasks s _)) with (bufferCapacity s). destruct (Z.leb_spec (bufferCapacity s) n).
  - unfold doubleBeyond. destruct (doubling_ok (bufferCapacity s) n Hpos) as (d&->&Hd&_). cbn [mbind result_bind].
    exists (bufferCapacity s * 2 ^ Z.of_nat d), (null_entries (bufferCapacity s * 2 ^ Z.of_nat d)). split_and!; [done| |done].
    apply quiet_with_buffer; [done| |lia|].
    + unfold null_entries. rewrite zlen_replicate. lia.
    + intros i e He. unfold null_entries in He. apply at_lookup in He as [_ He]. by apply lookup_replicate in He as [-> _].
  - exists (bufferCapacity s), (bufferArray s). split_and!; [by destruct s| |done].
    apply quiet_with_buffer; try done. apply (qu_buffer _ _ Hq).
Qed.

Lemma quiet_room s gs lo hi : quiet s gs → 0 ≤ lo → hi ≤ bufferCapacity s → room s lo hi.
Proof.
  intros Hq Hlo Hhi. split; [done|]. intros i Hi. destruct (qu_room _ _ Hq) as [Hlen _].
  destruct (at_in_bound (bufferArray s) i) as [e He]; [lia|]. exists e. split; [done|].
  by rewrite (qu_buffer _ _ Hq i e He).
Qed.

(** ** Where the batch goes *)

(** The entries before the block of the first key have smaller elements only. *)
Lemma before_splitter s gs v es k : quiet s gs → sorted (v :: es) → 0 < size s →
  Search.findBlockIndex s (keyOfValue v) = Ok k →
  full s k ∧ ∀ j b, j < k → at_ gs j = Some b → ∀ x, x ∈ keys (v :: es) → below (elements b) x.
Proof.
  intros Hq Hs Hsz Hk. pose proof (sd_layout _ _ (qu_stored _ _ Hq)) as Hl.
  assert (∀ j b, at_ gs j = Some b → ¬ full s j → b = []) as Hnone.
  { intros j b Hb Hnf. pose proof (at_Some_bound _ _ _ Hb) as Hj. rewrite (la_size _ _ Hl) in Hj. pose proof (la_capacity _ _ Hl).
    apply (not_full_empty s gs j b Hl Hb); [lia| |done]. apply (quiet_pointer s gs j Hq). lia. }
  destruct (findBlockIndex_ok s (layout_array_ok _ _ Hl) (keyOfValue v)) as (k'&Hk'&Hcase).
  assert (k' = k) as -> by congruence. destruct Hcase as [[Hf [[-> _]|(_&Hle&_)]]|(_&Hb&Hnf&Hfull)]; [by destruct Hf as [[? _] _]|..].
  - split; [done|]. intros j b Hj Hb x Hx. pose proof Hf as [Hkb _]. simpl in Hkb.
    destruct (layout_in_bound s gs k Hl Hkb) as [bs Hbs]. destruct (at_split _ _ _ Hbs) as (g1&g2&->&<-).
    pose proof (before_head s g1 bs g2 Hl Hf) as Hbelow. unfold below in *. rewrite Forall_forall in *. intros w Hw.
    pose proof (at_Some_bound _ _ _ Hb). rewrite at_app_l in Hb by lia.
    assert (keyOfValue w < hd s (zlen g1)) by (apply Hbelow, in_concat_elements; by exists j, b).
    apply elem_of_keys in Hx as (u&Hu&<-). apply sorted_cons in Hs as [Ha _]. unfold above in Ha. rewrite Forall_forall in Ha.
    apply elem_of_cons in Hu as [->|Hu]; [lia|]. specialize (Ha u Hu). lia.
  - simpl in Hb, Hfull. split.
    + apply Hfull. destruct (decide (k < size s)); [done|]. exfalso. apply (qu_some _ _ Hq Hsz).
      apply concat_nils, Forall_forall. intros b (i&Hi)%list_elem_of_lookup. rewrite <-at_nat in Hi.
      apply (Hnone (Z.of_nat i) b Hi). pose proof (at_Some_bound _ _ _ Hi) as Hib. rewrite (la_size _ _ Hl) in Hib. apply Hnf. lia.
    + intros j b Hj Hbj x _. pose proof (at_Some_bound _ _ _ Hbj). rewrite (Hnone j b Hbj) by (apply Hnf; lia). constructor.
Qed.

(** ** The insertion *)

Lemma nonempty_insert s gs v es k : quiet s gs → sorted (v :: es) → 0 < size s →
  (NULL_KEY ∉ keys (v :: es)) → (keyOfValue zeroValue ∉ keys (v :: es)) →
  Search.findBlockIndex s (keyOfValue v) = Ok k → k + 2 * zlen (v :: es) ≤ bufferCapacity s →
  ∃ s' gs' n, insertBatchRange s (v :: es) (mkInterval 0 (zlen (v :: es))) (mkInterval k (size s))
      (mkInterval k (k + 2 * zlen (v :: es))) = Ok (s', n) ∧
    stored s' gs' ∧ elements (concat gs') = smerge (elements (concat gs)) (v :: es) ∧ inserted s s' k n.
Proof.
  intros Hq Hs Hsz Hnull Hzero Hk Hcap. pose proof (sd_layout _ _ (qu_stored _ _ Hq)) as Hl.
  destruct (before_splitter s gs v es k Hq Hs Hsz Hk) as [Hf Hbefore]. pose proof Hf as [Hkb _]. simpl in Hkb.
  pose proof (la_capacity _ _ Hl) as Hc.
  destruct (insertBatchRange_ok s gs [] (v :: es) [] k (size s) (mkInterval k (k + 2 * zlen (v :: es))))
    as (s'&gs'&n&Hi&Hl'&He&Hins&_&_); try done.
  - intros j b Hj Hb. apply at_Some_bound in Hb. rewrite (la_size _ _ Hl) in Hb. lia.
  - apply (qu_map _ _ Hq).
  - cbn [Interval.left]. lia.
  - apply (quiet_room s gs); [done|cbn [Interval.left]; lia|cbn [Interval.right]; lia].
  - intros j Hj. apply (quiet_pointer s gs j Hq). lia.
  - rewrite app_nil_r in Hi. exists s', gs', n. split_and!; [exact Hi| |done|done]. split; [done|]. left.
    pose proof (in_fixed _ _ _ _ Hins) as F. unfold insert_fixed in F. injection F. intros. lia.
Qed.

Lemma empty_contents s gs : quiet s gs → size s = 0 → gs = [[]].
Proof.
  intros Hq Hsz. pose proof (sd_layout _ _ (qu_stored _ _ Hq)) as Hl. pose proof (la_size _ _ Hl) as Hlen. rewrite Hsz in Hlen.
  destruct gs as [|bs [|bs2 gs]]; [done| |pose proof (zlen_nonneg gs); zlen]. f_equal.
  destruct (la_entries _ _ Hl 0 bs eq_refl) as (main&buf&->&e&x&He&Hm&Hx&Hbuf&_).
  destruct (sd_first _ _ (qu_stored _ _ Hq)) as [?|Hnull]; [lia|]. rewrite Hnull in He. injection He as <-.
  destruct main as [|y [|? ?]]; [|by apply entry_is_nonempty in Hm|done].
  pose proof (qu_unbuffered _ _ Hq 0) as Hu. unfold buffers, pointer_length in Hu. rewrite Hx in Hu. destruct buf; [done|zlen].
Qed.

(** The first blocks of an empty array belong to its first entry. *)
Lemma pushed_layout s gs s' ws lo : quiet s gs → size s = 0 → 0 ≤ lo → pushed s s' lo ws 0 → blocks_ok ws →
  layout (set_bufferPointers s' (zupd (bufferPointers s) 0 (mkInterval lo (lo + zlen ws)))) [ws].
Proof.
  intros Hq Hsz Hlo Hp Hok. pose proof (sd_layout _ _ (qu_stored _ _ Hq)) as Hl.
  pose proof (empty_contents s gs Hq Hsz) as ->. pose proof (la_capacity _ _ Hl) as Hcap. rewrite Hsz in Hcap.
  pose proof (pu_fixed _ _ _ _ _ Hp) as F. unfold fixed in F.
  assert (capacity s' = capacity s ∧ size s' = 0 ∧ pma s' = pma s) as (Ec&Es&Ep) by (split_and!; congruence). clear F.
  pose proof (la_pointers _ _ Hl) as Hpl. destruct Hl as [_ _ _ Hpma _ _ Htail _ _].
  split; cbn [size capacity pma bufferPointers set_bufferPointers]; rewrite ?Ec, ?Es, ?Ep, ?zlen_zupd; try done; try lia.
  - intros i bs Hi. pose proof (at_Some_bound _ _ _ Hi) as Hb. change (zlen [ws]) with 1 in Hb. assert (i = 0) as -> by lia.
    change (at_ [ws] 0) with (Some ws) in Hi. injection Hi as <-. exists [], ws. split; [done|].
    destruct (sd_first _ _ (qu_stored _ _ Hq)) as [?|Hnull]; [lia|].
    exists PmaEntry.null_entry, (mkInterval lo (lo + zlen ws)). cbn [pma bufferPointers set_bufferPointers]. rewrite Ep.
    split_and!; [done|done|apply at_zupd_eq; lia|]. split; [unfold Interval.length; simpl; lia|].
    intros j y Hj. apply (pu_blocks _ _ _ _ _ Hp j y Hj).
  - intros i Hi. change (zlen [ws]) with 1 in Hi. rewrite at_zupd_ne by lia. by apply Htail.
  - assert (∀ i x c, i ≠ 0 → at_ (zupd (bufferPointers s) 0 (mkInterval lo (lo + zlen ws))) i = Some x → Interval.contains x c = false) as Hno.
    { intros i x c Hi Hx. rewrite at_zupd_ne in Hx by lia. apply not_true_iff_false. intros ?%contains_length.
      pose proof (at_Some_bound _ _ _ Hx). destruct (quiet_pointer s _ i Hq) as (y&Hy&?); [lia|]. congruence. }
    intros i j x y c Hij Hx Hy Hc. destruct (decide (j = 0)) as [->|]; [|by eapply Hno].
    rewrite (Hno i x c) in Hc; [done|lia|done].
  - simpl. by rewrite app_nil_r.
Qed.

Lemma pushed_inserted s gs s' ws lo : quiet s gs → pushed s s' lo ws 0 → ws ≠ [] → 0 ≤ lo →
  inserted s (set_bufferPointers s' (zupd (bufferPointers s) 0 (mkInterval lo (lo + zlen ws)))) lo (zlen ws).
Proof.
  intros Hq Hp Hne Hlo. pose proof (la_pointers _ _ (sd_layout _ _ (qu_stored _ _ Hq))) as Hpl.
  pose proof (used_length _ _ (qu_stored _ _ Hq)) as [_ Hcap]. destruct (quiet_pointer s gs 0 Hq ltac:(lia)) as (x&Hx&Hlx).
  pose proof (pu_fixed _ _ _ _ _ Hp) as F. unfold fixed in F. assert (pma s' = pma s) as Ep by congruence.
  assert (contents (recountingNodesMap s') = spec_insert (contents (recountingNodesMap s)) (node 0) true) as Ec.
  { rewrite (pu_contents _ _ _ _ _ Hp) by apply (qu_map _ _ Hq). unfold recounted. by destruct ws. }
  assert (0 < zlen ws) by (destruct ws; [done|zlen]). set (y := mkInterval lo (lo + zlen ws)).
  assert (at_ (zupd (bufferPointers s) 0 y) 0 = Some y) as Hy by (apply at_zupd_eq; lia).
  assert (∀ i z, at_ (bufferPointers s) i = Some z → Interval.length z = 0) as Hzero.
  { intros i z Hz. pose proof (qu_unbuffered _ _ Hq i) as Hu. unfold buffers, pointer_length in Hu. by rewrite Hz in Hu. }
  split; cbn [bufferArray bufferPointers recountingNodesMap bufferWrites pma set_bufferPointers]; rewrite ?Ep, ?Ec.
  - unfold insert_fixed. cbn [capacity swapCapacity bufferCapacity size swapPma rebalancingManager rebalancingNodes rebalancingTasks
      prefixNumberOfRebalancingBlocks tasks numberOfThreads bufferReads set_bufferPointers]. congruence.
  - lia.
  - apply (pu_length _ _ _ _ _ Hp).
  - apply (pu_other _ _ _ _ _ Hp).
  - apply (pu_map _ _ _ _ _ Hp).
  - intros _ z Hz. rewrite spec_insert_lookup. by destruct (decide _); simplify_eq.
  - intros _ z. rewrite spec_insert_lookup. destruct (decide (node 0 = z)) as [<-|]; [|by left]. right. exists 0.
    pose proof (la_pma _ _ (sd_layout _ _ (qu_stored _ _ Hq))). split; [lia|done].
  - intros _ i z Hz Hlz. destruct (decide (i = 0)) as [->|]; [right|left; by rewrite at_zupd_ne in Hz by lia].
    by rewrite spec_insert_lookup, decide_True.
  - rewrite (buffer_blocks_zupd _ _ _ _ Hx), Hlx. unfold y, Interval.length. simpl. lia.
  - apply (pu_writes _ _ _ _ _ Hp).
  - done.
  - intros i z Hz Hlz. by destruct Hlz; eapply Hzero.
  - intros c Hc. exists 0, y. split; [done|]. apply contains_bounds. done.
  - intros _ i. destruct (decide (i = 0)) as [->|]; [right; by rewrite spec_insert_lookup, decide_True|left].
    by rewrite at_zupd_ne by lia.
  - intros _ z. rewrite spec_insert_lookup. destruct (decide (node 0 = z)) as [<-|]; [right|by left].
    exists 0, y. split_and!; [done|done|]. unfold y, Interval.length. simpl. lia.
Qed.

Lemma empty_insert s gs v es : quiet s gs → sorted (v :: es) → size s = 0 → MinSize ≤ zlen (v :: es) →
  (NULL_KEY ∉ keys (v :: es)) → (keyOfValue zeroValue ∉ keys (v :: es)) → 2 * zlen (v :: es) ≤ bufferCapacity s →
  ∃ s' gs' n, insertBatchRange s (v :: es) (mkInterval 0 (zlen (v :: es))) (mkInterval 0 0)
      (mkInterval 0 (0 + 2 * zlen (v :: es))) = Ok (s', n) ∧
    stored s' gs' ∧ elements (concat gs') = smerge (elements (concat gs)) (v :: es) ∧ inserted s s' 0 n.
Proof.
  intros Hq Hs Hsz Hmin Hnull Hzero Hcap. pose proof (empty_contents s gs Hq Hsz) as Hgs.
  pose proof (used_length _ _ (qu_stored _ _ Hq)) as [_ Hc]. pose proof (la_pointers _ _ (sd_layout _ _ (qu_stored _ _ Hq))) as Hpl.
  destruct (insertIntoEmptyRange_ok s (mkInterval 0 (0 + 2 * zlen (v :: es))) (mkInterval 0 0) [] (v :: es) [])
    as (s'&ws&Hins&Hp&He&Hg&Hst); try done.
  - apply (qu_map _ _ Hq).
  - apply (quiet_room s gs); [done|done|cbn [Interval.right]; lia].
  - cbn [Interval.left]. lia.
  - cbn [Interval.left] in Hins, Hp. rewrite Z.add_0_r in Hp. rewrite app_nil_r in Hins.
    assert (ws ≠ []) as Hne by (by intros ->).
    pose proof (pushed_layout s gs s' ws 0 Hq Hsz ltac:(lia) Hp ltac:(by rewrite <-He in *)) as Hl.
    pose proof (pushed_inserted s gs s' ws 0 Hq Hp Hne ltac:(lia)) as Hin.
    eexists _, [ws], (zlen ws). split_and!; [|split; [exact Hl|right]| |exact Hin].
    + unfold insertBatchRange. change (Interval.length (mkInterval 0 0) =? 0) with true. cbn iota.
      rewrite AssertM_ok by done. cbn [mbind result_bind]. cbn [Interval.left] in Hins |- *.
      change ([] ++ v :: es) with (v :: es) in Hins. change (zlen (@nil ValueType)) with 0 in Hins.
      change (0 + zlen (v :: es)) with (zlen (v :: es)) in Hins. rewrite Hins. done.
    + pose proof (pu_fixed _ _ _ _ _ Hp) as F. unfold fixed in F. assert (pma s' = pma s) as Ep by congruence.
      cbn [pma set_bufferPointers]. rewrite Ep. destruct (sd_first _ _ (qu_stored _ _ Hq)) as [?|?]; [lia|done].
    + rewrite Hgs. cbn [concat]. rewrite !app_nil_r, He. change (elements []) with (@nil ValueType). symmetry. by apply smerge_empty.
Qed.

(** ** The insertion phase *)

Record insertable s batch : Prop := {
  ib_some : batch ≠ [];
  ib_sorted : sorted batch;
  ib_null : NULL_KEY ∉ keys batch;
  ib_zero : keyOfValue zeroValue ∉ keys batch;
  ib_first : size s = 0 → MinSize ≤ zlen batch;
}.

(** The insertion has changed [s] to [s']. *)
Record batch_inserted s s' : Prop := {
  bi_fixed : (capacity s', swapCapacity s', size s', swapPma s', rebalancingManager s', rebalancingNodes s', rebalancingTasks s') =
    (capacity s, swapCapacity s, size s, swapPma s, rebalancingManager s, rebalancingNodes s, rebalancingTasks s);
  bi_threads : numberOfThreads s' = 1 ∧ ∃ t0 t1 ts, tasks s' = t0 :: t1 :: ts;
  bi_counters : bufferReads s' = bufferReads s ∧
    (NDEBUG = true ∨ bufferWrites s' = bufferWrites s + buffer_blocks (bufferPointers s') - buffer_blocks (bufferPointers s));
  bi_room : zlen (bufferArray s') = bufferCapacity s' ∧ 0 < bufferCapacity s';
  bi_cells : ∀ c e, at_ (bufferArray s') c = Some e → e = PmaEntry.null_entry ∨ ∃ i, in_pointer (bufferPointers s') i c = true;
  bi_map : wf (recountingNodesMap s');
  bi_marked : ∀ i, buffers s' i ≠ 0 → contents (recountingNodesMap s') !! node i = Some true;
  bi_weight : ∀ i, weight (is_empty s') (buffers s') i = weight (is_empty s) (buffers s) i ∨
    contents (recountingNodesMap s') !! node i = Some true;
  bi_origin : ∀ x, contents (recountingNodesMap s') !! x = contents (recountingNodesMap s) !! x ∨
    ∃ i, x = node i ∧ buffers s' i ≠ 0;
}.

Lemma inserted_batch s gs s' lo n : quiet s gs → inserted s s' lo n → batch_inserted s s'.
Proof.
  intros Hq Hin. pose proof (qu_map _ _ Hq) as Hwf. pose proof (in_fixed _ _ _ _ Hin) as F. unfold insert_fixed in F.
  assert (∀ i x, at_ (bufferPointers s) i = Some x → Interval.length x = 0) as Hzero.
  { intros i x Hx. pose proof (qu_unbuffered _ _ Hq i) as Hu. unfold buffers, pointer_length in Hu. by rewrite Hx in Hu. }
  assert (∀ i, buffers s' i ≠ 0 → ∃ x, at_ (bufferPointers s') i = Some x ∧ Interval.length x ≠ 0) as Hbuf.
  { intros i. unfold buffers, pointer_length. destruct (at_ (bufferPointers s') i) as [x|]; [|done]. by exists x. }
  assert (size s' = size s) as Es by congruence.
  split.
  - congruence.
  - split; [|destruct (qu_tasks _ _ Hq) as (t0&t1&ts&Ht); exists t0, t1, ts]; injection F; intros; [|congruence].
    rewrite <-(qu_threads _ _ Hq). congruence.
  - split; [congruence|]. rewrite (in_writes _ _ _ _ Hin), (in_blocks _ _ _ _ Hin). destruct NDEBUG; [by left|right; lia].
  - destruct (qu_room _ _ Hq) as [? ?]. rewrite (in_length _ _ _ _ Hin). split; [|]; injection F; intros; lia.
  - intros c e He. destruct (decide (lo ≤ c < lo + n)) as [Hc|Hc]; [right|left].
    + destruct (in_cells _ _ _ _ Hin c Hc) as (i&x&Hx&Hcx). exists i. unfold in_pointer. by rewrite Hx.
    + rewrite (in_other _ _ _ _ Hin) in He by lia. by eapply (qu_buffer _ _ Hq).
  - by apply (SdsRange.in_map _ _ _ _ Hin).
  - intros i (x&Hx&Hlx)%Hbuf. destruct (in_marked _ _ _ _ Hin Hwf i x Hx Hlx) as [Hx'|?]; [|done]. destruct Hlx. by eapply Hzero.
  - intros i. destruct (in_same _ _ _ _ Hin Hwf i) as [[Hp Hm]|?]; [left|by right]. unfold weight, is_empty, buffers, pointer_length.
    rewrite Hp, Es. destruct (at_ (pma s') i), (at_ (pma s) i); simpl in Hm; try done. by injection Hm as ->.
  - intros x. destruct (in_origin _ _ _ _ Hin Hwf x) as [?|(i&y&->&Hy&Hly)]; [by left|right]. exists i. split; [done|].
    unfold buffers, pointer_length. by rewrite Hy.
Qed.

Lemma batch_inserted_tasks s ts c f s3 u0 u1 us :
  batch_inserted (with_buffer s ts c f) s3 → batch_inserted s (set_tasks s3 (u0 :: u1 :: us)).
Proof. intros [F [Hth _] Hc Hr Hcl Hm Hmk Hw Ho]. split; try done. split; [done|]. by do 3 eexists. Qed.

(** The range of the only task. *)
Lemma insert_range s gs v es k : quiet s gs → insertable s (v :: es) →
  Search.findBlockIndex s (keyOfValue v) = Ok k → 0 ≤ k ≤ size s → k + 2 * zlen (v :: es) ≤ bufferCapacity s →
  ∃ s' gs' n, insertBatchRange s (v :: es) (mkInterval 0 (zlen (v :: es))) (mkInterval k (size s))
      (mkInterval k (k + 2 * zlen (v :: es))) = Ok (s', n) ∧
    stored s' gs' ∧ elements (concat gs') = smerge (elements (concat gs)) (v :: es) ∧ inserted s s' k n.
Proof.
  intros Hq [_ Hs Hnull Hzero Hmin] Hk Hkb Hcap. destruct (decide (size s = 0)) as [Hsz|Hsz].
  - assert (k = 0) as -> by lia. rewrite Hsz. apply empty_insert; try done. by apply Hmin.
  - apply nonempty_insert; try done. lia.
Qed.

Lemma startInsertion_ok s gs v es k u0 u1 ts : quiet s gs → insertable s (v :: es) →
  Search.findBlockIndex s (keyOfValue v) = Ok k → 0 ≤ k ≤ size s → k + 2 * zlen (v :: es) ≤ bufferCapacity s →
  tasks s = u0 :: u1 :: ts → only_task u0 k → end_task u1 s k (zlen (v :: es)) →
  ∃ s' gs' n u, startInsertionTask (v :: es) (zlen (v :: es)) 0 s = Ok (set_tasks s' (u :: u1 :: ts)) ∧
    stored s' gs' ∧ elements (concat gs') = smerge (elements (concat gs)) (v :: es) ∧ inserted s s' k n.
Proof.
  intros Hq Hib Hk Hkb Hcap Ht (Hty&Hb0&Hf0&Hs0&_) (Hb1&Hf1&Hs1).
  destruct (insert_range s gs v es k Hq Hib Hk Hkb Hcap) as (s'&gs'&n&Hi&Hst&Hel&Hin). exists s', gs', n.
  assert (tasks s' = u0 :: u1 :: ts) as Ht'.
  { pose proof (in_fixed _ _ _ _ Hin) as F. unfold insert_fixed in F. rewrite <-Ht. congruence. }
  eexists. split; [|done]. unfold startInsertionTask. rewrite Ht. rewrite (zget_at (u0 :: u1 :: ts) 0 u0) by done.
  cbn [mbind result_bind]. change (0 + 1) with 1. rewrite (zget_at (u0 :: u1 :: ts) 1 u1) by done. cbn [mbind result_bind].
  rewrite Hty, Hb0, Hf0, Hs0, Hb1, Hf1, Hs1. unfold Interval.length at 1. cbn [Interval.left Interval.right].
  destruct (Z.eqb_spec (zlen (v :: es) - 0) 0) as [Hz|_]; [pose proof (zlen_nonneg es); zlen|].
  rewrite Hi. cbn [mbind result_bind]. by erewrite write_first_task by done.
Qed.

Lemma insertionPhase_ok s gs batch : quiet s gs → insertable s batch →
  ∃ s' gs', insertionPhase s batch (zlen batch) = Ok s' ∧ stored s' gs' ∧
    elements (concat gs') = smerge (elements (concat gs)) batch ∧ batch_inserted s s'.
Proof.
  intros Hq [Hne Hs Hnull Hzero Hmin]. destruct batch as [|v es]; [done|].
  pose proof (sd_layout _ _ (qu_stored _ _ Hq)) as Hl. destruct (qu_tasks _ _ Hq) as (t0&t1&ts&Ht).
  destruct (findBlockIndex_ok s (layout_array_ok _ _ Hl) (keyOfValue v)) as (k&Hk&Hcase).
  assert (0 ≤ k ≤ size s) as Hkb by (destruct Hcase as [[[Hx _] _]|(_&Hx&_)]; simpl in Hx; lia).
  destruct (distribute_one s v es t0 t1 ts k _ Ht (qu_threads _ _ Hq) eq_refl Hk) as (u0&u1&Hd&Hu0&Hu1).
  destruct (increaseBuffer_ok s gs u0 u1 ts (k + 2 * zlen (v :: es)) Hq) as (c&f&Hinc&Hq2&Hc).
  { pose proof (zlen_nonneg (v :: es)). lia. }
  set (s2 := with_buffer s (u0 :: u1 :: ts) c f) in *.
  destruct (startInsertion_ok s2 gs v es k u0 u1 ts Hq2) as (s3&gs'&n&u&Hstart&Hst&Hel&Hin); try done; [apply Z.lt_le_incl, Hc|].
  exists (set_tasks s3 (u :: u1 :: ts)), gs'. split_and!; [|by apply (stored_same s3)|done|].
  - unfold insertionPhase. destruct (findTasks s (v :: es) (zlen (v :: es))) as [s1|]; [|done]. cbn [mbind result_bind] in *.
    destruct (mergeTasks s1) as [[s1' b]|]; [|done]. cbn [mbind result_bind] in *.
    destruct (distributeWorkInMergedTasks s1' (v :: es) (zlen (v :: es))) as [s1''|]; [|done]. cbn [mbind result_bind] in *.
    destruct (computeStartIndices s1'') as [[s1''' w]|]; [|done]. cbn [mbind result_bind] in *. injection Hd as -> -> ->.
    rewrite Hinc. cbn [mbind result_bind]. change (numberOfThreads s2) with (numberOfThreads s). rewrite (qu_threads _ _ Hq).
    rewrite for_range_once by done. by rewrite Hstart.
  - eapply batch_inserted_tasks. by eapply inserted_batch.
Qed.
End phase.
