(* ===== verification/SdsRebalanced.v ===== *)
(** * The array while its blocks wait in the swap array

    [emptied]: what [executeTasks] has established when the blocks of the tasks have been
    moved, the pointers cleared and the main pma resized. *)

From S2P Require Export SdsRewrite.
Import BatchedSparseArray RebalancingPhase.
Import BinaryRebalancingManager (Manager, logCapacity).
Import PmaEntry(PmaEntry).

Section emptied.
Context `{T : SdsTypes} `{C : BlockConfig}.
Context `{BC : !BlockConfigOk} `{HB : !HalfBlocks}.
Context `{R : RebalancingConfig} `{D : DensityManager}.
Context `{H : ConcurrentBucketMap.Hash} `{P : ThreadConfig}.
Implicit Types (s : Sds) (i j a b c : Z) (ts : list RebalancingTask) (task : RebalancingTask).
Implicit Types (gs : list (list (list ValueType * list ValueType))).

(** The state in which the blocks are moved. *)
Definition prepared s c (t : TaskInfo) : Sds :=
  set_tasks (with_swap (set_prefixNumberOfRebalancingBlocks s
    (inclusive_scan 0 (rebalancingTasks s) ++ [blocks_in (rebalancingTasks s)])) c) (zupd (tasks s) 0 t).

Lemma ready_prefix s gs x : ready s gs → ready (set_prefixNumberOfRebalancingBlocks s x) gs.
Proof.
  assert (same_tree s (set_prefixNumberOfRebalancingBlocks s x)) as Hsame by done.
  intros []. split; try done.
  - by apply (stored_same s); [apply Hsame|].
  - by apply (hierarchy_same s).
  - eapply Forall_impl; [done|]. intros t Ht. by apply (task_ok_same s).
Qed.

Lemma prepared_same s c t : same_tree s (prepared s c t).
Proof. done. Qed.

Lemma prepare_ok s gs : ready s gs →
  ∃ c t, ('(s, n) ← sumTasks s;
          '(s, newPmaSize) ← growSwap s;
          s ← for_range 0 (numberOfThreads s) (distributeRebalancing n) s;
          Ok (s, n, newPmaSize)) = Ok (prepared s c t, blocks_in (rebalancingTasks s), newSize s) ∧
    newSize s < c ∧ capacity s ≤ c ∧ (c = capacity s ∨ growing s) ∧ plan_ok (prepared s c t) t.
Proof.
  intros Hr. rewrite sumTasks_ok by apply Hr. cbn [mbind result_bind]. set (pre := _ ++ _).
  destruct (growSwap_ok _ gs (ready_prefix s gs pre Hr)) as (c&->&Hlt&Hle&Hg). cbn [mbind result_bind].
  set (s2 := with_swap _ c). change (numberOfThreads s2) with (numberOfThreads s). rewrite (rd_threads _ _ Hr).
  destruct (distributeRebalancing_ok s2 gs) as (t&Hd&Hplan); try apply Hr; try done.
  - by apply (stored_same s); [|apply Hr].
  - by apply (hierarchy_same s); [|apply Hr].
  - eapply Forall_impl; [apply Hr|]. intros t Ht. by apply (task_ok_same s).
  - exists c, t. change (rebalancingTasks s2) with (rebalancingTasks s) in Hd. split_and!; [|done..|].
    + rewrite for_range_once by done. by rewrite Hd.
    + by apply (plan_ok_same s2).
Qed.

(** ** Moving the blocks *)

Lemma move_ok s gs c t : ready s gs → newSize s < c → plan_ok (prepared s c t) t →
  ∃ s', executeRebalancing 0 (prepared s c t) = Ok s' ∧ moved_tasks (prepared s c t) s' (rebalancingTasks s).
Proof.
  intros Hr Hc Hplan. pose proof (newSize_ok _ _ Hr) as (_&H1&Hright&_).
  apply (executeRebalancing_ok (prepared s c t) gs) with (t := t); try apply Hr.
  - by apply (stored_same s); [|apply Hr].
  - by apply (hierarchy_same s); [|apply Hr].
  - eapply Forall_impl; [apply Hr|]. intros u Hu. by apply (task_ok_same s).
  - intros u Hu. specialize (Hright u Hu). change (swapPma (prepared s c t)) with (null_entries c).
    rewrite zlen_null_entries by lia. lia.
  - change (tasks (prepared s c t)) with (zupd (tasks s) 0 t). apply at_zupd_eq. pose proof (rd_tasks _ _ Hr). lia.
  - done.
Qed.

(** ** The emptied array *)

(** Every buffer block belongs to an entry of a task. *)
Definition buffers_covered s : Prop :=
  (∀ i, buffers s i ≠ 0 → in_tasks s (rebalancingTasks s) i = true) ∧
  (∀ c e, at_ (bufferArray s) c = Some e → e = PmaEntry.null_entry ∨ ∃ i, in_pointer (bufferPointers s) i c = true).

(** The parts of the state that the moves do not touch. *)
Definition kept s := (bufferCapacity s, rebalancingNodes s, recountingNodesMap s, rebalancingTasks s, numberOfThreads s, bufferWrites s).

Record emptied s s' c (m : Manager) : Prop := {
  em_kept : kept s' = kept s;
  em_manager : rebalancingManager s' = m;
  em_summed : summed s';
  em_tasks : zlen (tasks s') = zlen (tasks s);
  em_size : size s' = newSize s;
  em_capacity : capacity s' = c ∧ swapCapacity s' = c;
  em_pma_length : zlen (pma s') = c;
  em_pma : ∀ i, 0 ≤ i < c → at_ (pma s') i =
    Some (if in_tasks s (rebalancingTasks s) i then PmaEntry.null_entry else default PmaEntry.null_entry (at_ (pma s) i));
  em_pointers_length : zlen (bufferPointers s') = c;
  em_pointers : ∀ i, 0 ≤ i < c → ∃ x, at_ (bufferPointers s') i = Some x ∧ Interval.length x = 0;
  em_pointers_tail : ∀ i, used s ≤ i < c → at_ (bufferPointers s') i = Some Interval.empty;
  em_buffer_length : zlen (bufferArray s') = zlen (bufferArray s);
  em_buffer : ∀ i e, at_ (bufferArray s') i = Some e → e = PmaEntry.null_entry;
  em_swap_length : zlen (swapPma s') = c;
  em_swap : ∀ t, t ∈ rebalancingTasks s → ∀ j e, at_ (task_rows s t) j = Some e → at_ (swapPma s') (task_left t + j) = Some e;
  em_swap_other : ∀ i, 0 ≤ i < c → (∀ t, t ∈ rebalancingTasks s → ¬ task_left t ≤ i < task_left t + zlen (task_rows s t)) →
    at_ (swapPma s') i = Some PmaEntry.null_entry;
}.

Lemma in_pointer_covered s i c : buffers_covered s → in_pointer (bufferPointers s) i c = true →
  in_tasks s (rebalancingTasks s) i = true.
Proof.
  intros [Hcov _] Hc. apply Hcov. unfold buffers, pointer_length, in_pointer in *.
  destruct (at_ (bufferPointers s) i) as [x|]; [|done]. apply contains_bounds in Hc. unfold Interval.length. lia.
Qed.

(** An array that grows has been moved as a whole. *)
Lemma growing_all s gs i : ready s gs → growing s → 0 ≤ i < used s → in_tasks s (rebalancingTasks s) i = true.
Proof.
  intros Hr (t&Hts&Hl&Hright) Hi. pose proof (rd_fine _ _ Hr) as Hf. rewrite Hts in Hf |- *.
  rewrite Forall_singleton in Hf. pose proof (task_nonempty _ _ Hf) as Hne. unfold in_tasks, in_task, task_end, used in *. simpl.
  rewrite orb_false_r, andb_true_iff, Z.leb_le, Z.ltb_lt. lia.
Qed.

(** The parts of the state after each step. *)
Definition outside s := (kept s, prefixNumberOfRebalancingBlocks s, tasks s, size s, capacity s, swapCapacity s, bufferPointers s).

Lemma moved_outside s s' ts : moved_tasks s s' ts → outside s' = outside s.
Proof. intros Hmv. by destruct (mt_state _ _ _ Hmv) as (p&w&f&m&->&_). Qed.

Lemma resize_parts s n :
  let s' := resizeMainPma s n in
  kept s' = kept s ∧ prefixNumberOfRebalancingBlocks s' = prefixNumberOfRebalancingBlocks s ∧ tasks s' = tasks s ∧
  rebalancingManager s' = rebalancingManager s ∧ size s' = n ∧ capacity s' = swapCapacity s ∧ swapCapacity s' = swapCapacity s ∧
  bufferArray s' = bufferArray s ∧ swapPma s' = swapPma s ∧
  ((swapCapacity s = capacity s ∧ pma s' = pma s ∧ bufferPointers s' = bufferPointers s) ∨
   (swapCapacity s ≠ capacity s ∧ pma s' = null_entries (swapCapacity s) ∧
    bufferPointers s' = replicate (Z.to_nat (swapCapacity s)) Interval.empty)).
Proof.
  unfold resizeMainPma. cbv zeta. change (swapCapacity (set_size s n)) with (swapCapacity s).
  change (capacity (set_size s n)) with (capacity s).
  destruct (Z.eqb_spec (swapCapacity s) (capacity s)); cbn [negb]; (split_and!; try done); [by left|by right].
Qed.

(** Outside the tasks there is no buffer block. *)
Lemma unmoved_pointer s i x : buffers_covered s → in_tasks s (rebalancingTasks s) i = false →
  at_ (bufferPointers s) i = Some x → Interval.length x = 0.
Proof.
  intros Hcov Hin Hx. destruct (decide (Interval.length x = 0)) as [|Hne]; [done|]. exfalso.
  apply not_true_iff_false in Hin. apply Hin, Hcov. unfold buffers, pointer_length. by rewrite Hx.
Qed.

Lemma unmoved_buffer s i e : buffers_covered s → in_task_buffers s (rebalancingTasks s) i = false →
  at_ (bufferArray s) i = Some e → e = PmaEntry.null_entry.
Proof.
  intros Hcov Hin He. destruct (proj2 Hcov i e He) as [|(k&Hk)]; [done|]. exfalso. apply not_true_iff_false in Hin. apply Hin.
  pose proof (in_pointer_covered _ _ _ Hcov Hk) as Hkt. apply existsb_exists in Hkt as (u&Hu'&Hku).
  apply existsb_exists. exists u. split; [done|]. apply in_pointers_true. exists k. split; [|done].
  unfold in_task in Hku. rewrite andb_true_iff, Z.leb_le, Z.ltb_lt in Hku. lia.
Qed.

Lemma emptied_ok s gs c t s4 ps m : ready s gs → buffers_covered s → newSize s < c → capacity s ≤ c → c = capacity s ∨ growing s →
  moved_tasks (prepared s c t) s4 (rebalancingTasks s) →
  cleared (bufferPointers s) ps (in_tasks s (rebalancingTasks s)) →
  emptied s (resizeMainPma (set_bufferPointers (set_rebalancingManager s4 m) ps) (newSize s)) c m.
Proof.
  intros Hr Hcov Hc Hcap Hg Hmv (HpL&HpO&HpC). pose proof (used_length _ _ (rd_stored _ _ Hr)) as [Hu Hus].
  pose proof (sd_layout _ _ (rd_stored _ _ Hr)) as Hl. pose proof (la_pma _ _ Hl) as Hpl. pose proof (la_pointers _ _ Hl) as Hbl.
  pose proof (moved_outside _ _ _ Hmv) as Hout. destruct Hmv as [_ _ [HL1 HE1] [HL2 HE2] HL3 Hsw Hso].
  set (ts := rebalancingTasks s) in *. set (s6 := set_bufferPointers (set_rebalancingManager s4 m) ps).
  destruct (resize_parts s6 (newSize s)) as (K7&P7&T7&M7&S7&C7&W7&B7&Z7&Hcase).
  set (s7 := resizeMainPma s6 (newSize s)) in *. clearbody s7.
  assert (kept s4 = kept s ∧ prefixNumberOfRebalancingBlocks s4 = inclusive_scan 0 ts ++ [blocks_in ts] ∧
    tasks s4 = zupd (tasks s) 0 t ∧ capacity s4 = capacity s ∧ swapCapacity s4 = c) as (K4&P4&T4&C4&W4) by (unfold outside in Hout; injection Hout; intros; unfold kept, ts; split_and!; congruence).
  change (kept s6) with (kept s4) in K7. change (prefixNumberOfRebalancingBlocks s6) with (prefixNumberOfRebalancingBlocks s4) in P7.
  change (tasks s6) with (tasks s4) in T7. change (rebalancingManager s6) with m in M7.
  change (swapCapacity s6) with (swapCapacity s4) in *. change (capacity s6) with (capacity s4) in *.
  change (bufferArray s6) with (bufferArray s4) in B7. change (swapPma s6) with (swapPma s4) in Z7.
  change (pma s6) with (pma s4) in Hcase. change (bufferPointers s6) with ps in Hcase. clearbody s6.
  change (pma (prepared s c t)) with (pma s) in *. change (bufferArray (prepared s c t)) with (bufferArray s) in *.
  change (swapPma (prepared s c t)) with (null_entries c) in *. rewrite zlen_null_entries in HL3 by lia.
  change (in_tasks (prepared s c t) ts) with (in_tasks s ts) in *.
  change (in_task_buffers (prepared s c t) ts) with (in_task_buffers s ts) in *.
  change (task_rows (prepared s c t)) with (task_rows s) in *. clear Hout.
  assert (rebalancingTasks s7 = ts) as R7 by (pose proof K7 as K; rewrite K4 in K; unfold kept in K; injection K; intros; assumption).
  split; try congruence; try lia.
  - rewrite T7, T4, zlen_zupd. done.
  - destruct Hcase as [(?&->&_)|(?&->&_)]; [lia|rewrite zlen_null_entries; lia].
  - intros i Hi. fold ts. assert (∀ i, used s ≤ i < capacity s → at_ (pma s) i = Some PmaEntry.null_entry) as Htail.
    { intros j Hj. apply (la_tail _ _ Hl). unfold used in *. lia. }
    destruct Hcase as [(?&->&_)|(Hne&->&_)].
    + rewrite HE1. destruct (in_tasks s ts i) eqn:Hin; [done|].
      destruct (at_in_bound (pma s) i) as [e He]; [lia|]. by rewrite He.
    + rewrite null_entries_at by lia. destruct (in_tasks s ts i) eqn:Hin; [done|].
      assert (growing s) as Hgr by (destruct Hg; [congruence|done]). assert (used s ≤ i) as Hge.
      { destruct (decide (used s ≤ i)); [done|]. pose proof (growing_all s gs i Hr Hgr ltac:(lia)) as Hx. fold ts in Hx. congruence. }
      destruct (decide (i < capacity s)); [rewrite Htail by lia; done|]. by rewrite at_None_bound by lia.
  - destruct Hcase as [(?&_&->)|(?&_&->)]; [lia|rewrite zlen_replicate; lia].
  - intros i Hi. destruct Hcase as [(?&_&->)|(?&_&->)].
    + destruct (in_tasks s ts i) eqn:Hin; [auto|]. rewrite HpO by done.
      destruct (at_in_bound (bufferPointers s) i) as [x Hx]; [lia|]. exists x. split; [done|].
      by apply (unmoved_pointer s i).
    + exists Interval.empty. split; [|done]. rewrite at_replicate by lia. done.
  - intros i Hi. destruct Hcase as [(?&_&->)|(?&_&->)]; [|by rewrite at_replicate by lia].
    rewrite HpO; [apply (la_tail _ _ Hl); unfold used in *; lia|]. apply not_true_iff_false.
    intros (u&Hu'&Hku)%existsb_exists. unfold in_task, task_end in Hku. rewrite andb_true_iff, Z.leb_le, Z.ltb_lt in Hku. lia.
  - intros i e. rewrite B7, HE2. destruct (in_task_buffers s ts i) eqn:Hin; [congruence|]. intros He. by apply (unmoved_buffer s i).
  - intros u Hu' j e He. rewrite Z7. by apply Hsw.
  - intros i Hi Hno. rewrite Z7, Hso by done. by apply null_entries_at.
Qed.
End emptied.

(** * Rebalancing with one thread

    [executeTasks] spreads the blocks of every task evenly over its entries.  The contents
    of the array stay the same, and no entry has buffer blocks any more. *)

Section rebalanced.
Context `{T : SdsTypes} `{C : BlockConfig}.
Context `{BC : !BlockConfigOk} `{HB : !HalfBlocks}.
Context `{R : RebalancingConfig} `{D : DensityManager}.
Context `{H : ConcurrentBucketMap.Hash} `{P : ThreadConfig}.
Implicit Types (s : Sds) (i j a b c : Z) (ts : list RebalancingTask) (task : RebalancingTask).
Implicit Types (gs : list (list (list ValueType * list ValueType))).

(** ** Rows and blocks *)

Lemma slice_snoc {A} (l : list A) a b x : 0 ≤ a ≤ b → at_ l b = Some x → slice l a (b + 1) = slice l a b ++ [x].
Proof.
  intros Ha Hx. pose proof (at_Some_bound _ _ _ Hx). rewrite (slice_app_split l a b (b + 1)) by lia. f_equal.
  apply at_ext; [rewrite zlen_slice_in by lia; zlen|]. intros i Hi. rewrite zlen_slice_in in Hi by lia. assert (i = 0) as -> by lia.
  rewrite at_slice by lia. replace (b + 1 - b) with 1 by lia. by rewrite Z.add_0_r.
Qed.

Lemma rows_blocks s gs a b : stored s gs → 0 ≤ a ≤ b → b ≤ used s → Forall2 entry_is (rows_of s a b) (concat (slice gs a b)).
Proof.
  intros Hs Ha Hb. pose proof (used_length _ _ Hs) as [Hu _]. remember (Z.to_nat (b - a)) as n eqn:Hn. revert b Ha Hb Hn.
  induction n as [|n IH]; intros b Ha Hb Hn.
  - assert (b = a) as -> by lia. rewrite rows_of_nil, slice_nil by lia. constructor.
  - replace b with (b - 1 + 1) by lia. destruct (at_in_bound gs (b - 1)) as [bs Hbs]; [lia|].
    rewrite rows_of_snoc, (slice_snoc _ _ _ bs), concat_app by (done || lia). apply Forall2_app; [apply IH; lia|].
    simpl. rewrite app_nil_r. by destruct (stored_row _ _ _ _ Hs Hbs) as (e&x&_&?).
Qed.

(** Entries added at the end of the array have no blocks. *)
Definition padded gs n : list (list (list ValueType * list ValueType)) := gs ++ replicate (Z.to_nat (n - zlen gs)) [].

Lemma zlen_padded gs n : zlen gs ≤ n → zlen (padded gs n) = n.
Proof. intros. unfold padded. rewrite zlen_app, zlen_replicate. lia. Qed.

Lemma concat_padded gs n : concat (padded gs n) = concat gs.
Proof. unfold padded. rewrite concat_app. rewrite (concat_nils (replicate _ _)); [apply app_nil_r|]. by apply Forall_replicate. Qed.

Lemma padded_tail gs n i : zlen gs ≤ i < n → at_ (padded gs n) i = Some [].
Proof. intros Hi. unfold padded. rewrite at_app_r by lia. apply at_replicate. lia. Qed.

Lemma padded_head gs n i : i < zlen gs → at_ (padded gs n) i = at_ gs i.
Proof. intros Hi. unfold padded. by rewrite at_app_l. Qed.

Lemma slice_padded gs n a b : 0 ≤ a ≤ zlen gs → a ≤ b → b ≤ n → zlen gs ≤ n →
  concat (slice (padded gs n) a b) = concat (slice gs a (Z.min b (zlen gs))).
Proof.
  intros Ha Hb Hn Hg. pose proof (zlen_padded gs n Hg) as Hlen.
  rewrite (slice_app_split (padded gs n) a (Z.min b (zlen gs)) b) by lia. rewrite concat_app.
  rewrite (concat_nils (slice (padded gs n) (Z.min b (zlen gs)) b)).
  - rewrite app_nil_r. f_equal. apply at_ext; [rewrite !zlen_slice_in by lia; done|]. intros i Hi. rewrite zlen_slice_in in Hi by lia.
    rewrite !at_slice by lia. rewrite padded_head by lia. done.
  - apply Forall_forall. intros x [k Hk]%list_elem_of_lookup. rewrite <-at_nat in Hk. rewrite at_slice in Hk by lia.
    destruct (Z.leb_spec 0 (Z.of_nat k)), (Z.ltb_spec (Z.of_nat k) (b - Z.min b (zlen gs))); try done. simpl in Hk.
    rewrite padded_tail in Hk by lia. congruence.
Qed.

(** The blocks of a task are those of its rows. *)
Lemma task_blocks s gs n task : stored s gs → task_ok s task → used s ≤ n → Interval.right (pmaRange task) ≤ n →
  Forall2 entry_is (task_rows s task) (blocks_of (padded gs n) (pmaRange task)).
Proof.
  intros Hs Ht Hn Hr. pose proof (used_length _ _ Hs) as [Hu _]. pose proof (to_used _ _ Ht). pose proof (task_nonempty _ _ Ht).
  unfold blocks_of. fold (task_left task). rewrite slice_padded by lia. unfold task_rows, task_end. rewrite Hu.
  apply rows_blocks; [done|lia|lia].
Qed.

Lemma task_spreadable s gs n task : stored s gs → task_ok s task → used s ≤ n → Interval.right (pmaRange task) ≤ n →
  spreadable (padded gs n) (pmaRange task) ∧ zlen (blocks_of (padded gs n) (pmaRange task)) = rt_numberOfBlocks task.
Proof.
  intros Hs Ht Hn Hr. pose proof (task_blocks s gs n task Hs Ht Hn Hr) as HF. apply Forall2_length in HF.
  pose proof (used_length _ _ Hs) as [Hu _]. pose proof (to_used _ _ Ht) as Hl. unfold task_left in Hl.
  assert (zlen (blocks_of (padded gs n) (pmaRange task)) = rt_numberOfBlocks task) as Hz.
  { rewrite (to_count _ _ Ht). fold (task_rows s task). unfold zlen. lia. }
  split; [|done]. split; [lia|]. rewrite zlen_padded, Hz by lia. split; [done|]. apply (to_blocks _ _ Ht).
Qed.

(** What an entry of a task gets. *)
Lemma spread_entries len rows bs c l : Forall2 entry_is rows bs → 1 ≤ zlen bs ≤ len → at_ (spread len bs) c = Some l →
  ∃ r, at_ (spread len rows) c = Some r ∧ main_is (entry_of r) l.
Proof.
  intros HF Hb Hl. assert (zlen rows = zlen bs) as Hlen by (apply Forall2_length in HF; unfold zlen; lia).
  pose proof (at_Some_bound _ _ _ Hl) as Hc. rewrite zlen_spread in Hc by lia. rewrite at_spread in Hl by done. injection Hl as <-.
  rewrite at_spread by done. eexists. split; [done|].
  destruct (spread_entry len bs c Hb Hc) as [[-> Hno]|(k&x&Hk&Hx&Hkc&->)].
  - destruct (spread_entry len rows c) as [[-> _]|(k&x&Hk&_&Hkc&_)]; [lia|done|done|]. rewrite Hlen in *. by destruct (Hno k).
  - destruct (spread_entry len rows c) as [[_ Hno]|(k'&e&Hk'&He&Hkc'&->)]; [lia|done| |].
    + rewrite Hlen in Hno. by destruct (Hno k).
    + rewrite Hlen in *. assert (k' = k) as ->.
      { apply (place_inj (zlen bs) len Hb); [lia|lia|congruence]. }
      simpl. destruct (Forall2_at_l _ _ _ _ _ HF He) as (x'&Hx'&?). congruence.
Qed.

(** ** The array after the rebalancing *)

Lemma rows_live s lo n a b : entries_ok s lo n → lo ≤ a → b ≤ n → Forall live (rows_of s a b).
Proof.
  intros Hok Ha Hb. unfold rows_of. apply Forall_concat, Forall_forall. intros r (i&->&Hi)%list_elem_of_fmap.
  apply elem_of_seqZ in Hi. destruct (eo_row _ _ _ Hok i ltac:(lia)) as (e&x&Hr). rewrite (row_eq _ _ _ _ _ Hr).
  destruct Hr as [_ Hm _ _ Hl]. apply Forall_app. split; [|done]. unfold main_row.
  destruct (PmaEntry.isEmpty e) eqn:He; [by constructor|]. constructor; [|by constructor].
  destruct Hm as [->|[? _]]; [done|done].
Qed.

Section result.
Variables (s s' s2 : Sds) (gs : list (list (list ValueType * list ValueType))) (c : Z) (m : Manager).
Let ts := rebalancingTasks s.
Let n := newSize s.
Hypothesis (rd : ready s gs) (em : emptied s s' c m) (Hc : n < c).

Lemma task_facts t : t ∈ ts → task_ok s t ∧ Interval.right (pmaRange t) ≤ n ∧ task_left t + task_length t = Interval.right (pmaRange t).
Proof.
  intros Ht. pose proof (rd_fine _ _ rd) as Hf. rewrite Forall_forall in Hf. pose proof (newSize_ok _ _ rd) as (_&_&Hr&_).
  split_and!; [by apply Hf|by apply Hr|apply task_right].
Qed.

Lemma all_rewritable t : t ∈ ts → rewritable s' (task_rows s) t.
Proof.
  intros Hin. destruct (task_facts t Hin) as (Ht&Hr&Hright). pose proof (to_used _ _ Ht) as Hu.
  pose proof (stored_entries _ _ (rd_stored _ _ rd)) as Hok. pose proof (task_nonempty _ _ Ht) as Hne. split.
  - unfold task_rows. by rewrite <-(to_count _ _ Ht).
  - apply (to_blocks _ _ Ht).
  - rewrite (em_pma_length _ _ _ _ em), Hright. lia.
  - intros k e He. by apply (em_swap _ _ _ _ em t Hin).
  - apply (rows_live s 0 (used s)); [done|lia|unfold task_end; lia].
  - intros i Hi. rewrite Hright in Hi. rewrite (em_pma _ _ _ _ em) by lia. destruct (in_tasks s (rebalancingTasks s) i) eqn:Hit; [done|].
    assert (used s ≤ i) as Hui.
    { destruct (decide (used s ≤ i)); [done|]. exfalso. apply not_true_iff_false in Hit. apply Hit. apply existsb_exists.
      exists t. split; [by apply list_elem_of_In|]. unfold in_task, task_end. rewrite andb_true_iff, Z.leb_le, Z.ltb_lt. lia. }
    pose proof (sd_layout _ _ (rd_stored _ _ rd)) as Hl. destruct (decide (i < capacity s)).
    + destruct (la_tail _ _ Hl i) as [-> _]; [|done]. rewrite (la_size _ _ Hl). unfold used in Hui. lia.
    + rewrite at_None_bound; [done|]. rewrite (la_pma _ _ Hl). lia.
Qed.

Hypothesis (rw : rewritten_tasks s' (task_rows s) s2 ts).

(** An entry outside the tasks keeps its block and has no buffer blocks. *)
Lemma kept_entry i bs : buffers_covered s → at_ (padded gs n) i = Some bs → (∀ t, t ∈ ts → Interval.contains (pmaRange t) i = false) →
  ∃ e, at_ (pma s2) i = Some e ∧ main_is e bs.
Proof.
  intros Hcov Hbs Hno. pose proof (used_length _ _ (rd_stored _ _ rd)) as [Hu Hcap]. pose proof (newSize_ok _ _ rd) as (Hun&_).
  pose proof (sd_layout _ _ (rd_stored _ _ rd)) as Hl. pose proof (at_Some_bound _ _ _ Hbs) as Hb. rewrite zlen_padded in Hb by (unfold n; lia).
  rewrite (rt_other _ _ _ _ rw i Hno), (em_pma _ _ _ _ em i) by lia.
  assert (in_tasks s (rebalancingTasks s) i = false) as Hit.
  { apply not_true_iff_false. intros (t&Ht&Hti%in_task_range)%existsb_exists. apply list_elem_of_In in Ht. rewrite Hno in Hti; done. }
  rewrite Hit. eexists. split; [done|]. destruct (decide (i < zlen gs)) as [Hlt|Hge].
  - rewrite padded_head in Hbs by done. destruct (la_entries _ _ Hl i bs Hbs) as (main&buf&->&e&x&He&Hm&Hx&[Hlen _]).
    assert (buf = []) as ->.
    { destruct (decide (buffers s i = 0)) as [Hz|Hnz].
      - unfold buffers, pointer_length in Hz. rewrite Hx in Hz. destruct buf; [done|zlen].
      - apply (proj1 Hcov) in Hnz. fold ts in Hnz, Hit. congruence. }
    by rewrite app_nil_r, He.
  - rewrite padded_tail in Hbs by (unfold n; lia). injection Hbs as <-. simpl.
    destruct (decide (i < capacity s)); [|rewrite at_None_bound; [done|]; rewrite (la_pma _ _ Hl); lia].
    by destruct (la_tail _ _ Hl i ltac:(lia)) as [-> _].
Qed.

(** The entries [gs'] of the rebalanced array. *)
Record spread_over (gs' : list (list (list ValueType * list ValueType))) : Prop := {
  so_length : zlen gs' = n;
  so_contents : concat gs' = concat gs;
  so_other : ∀ i, (∀ t, t ∈ ts → Interval.contains (pmaRange t) i = false) → at_ gs' i = at_ (padded gs n) i;
  so_spread : ∀ t i, t ∈ ts → 0 ≤ i < task_length t →
    at_ gs' (task_left t + i) = at_ (spread (task_length t) (blocks_of (padded gs n) (pmaRange t))) i;
}.

Lemma spread_over_exists : ∃ gs', spread_over gs'.
Proof.
  pose proof (newSize_ok _ _ rd) as (Hun&_). pose proof (used_length _ _ (rd_stored _ _ rd)) as [Hu _].
  destruct (respread_all (padded gs n) (pmaRange <$> ts)) as (gs'&Hlen&Hcc&Hout&Hspr).
  - intros x (t&->&Ht)%list_elem_of_fmap. destruct (task_facts t Ht) as (Hok&Hr&_).
    by destruct (task_spreadable s gs n t (rd_stored _ _ rd) Hok Hun Hr).
  - intros i j x y k Hij (Hi&Hx)%at_lookup (Hj&Hy)%at_lookup. rewrite list_lookup_fmap, fmap_Some in Hx, Hy.
    destruct Hx as (t&Ht&->), Hy as (u&Hu'&->). apply (rd_disjoint _ _ rd i j t u k Hij); unfold at_.
    + by destruct (Z.leb_spec 0 i); [|lia].
    + by destruct (Z.leb_spec 0 j); [|lia].
  - exists gs'. rewrite zlen_padded in Hlen by (unfold n; lia). rewrite concat_padded in Hcc. split; try done.
    + intros i Hno. apply Hout. intros x (t&->&Ht)%list_elem_of_fmap. by apply Hno.
    + intros t i Ht Hi. apply Hspr; [by apply list_elem_of_fmap_2|done].
Qed.

Lemma rebalanced_layout gs' : buffers_covered s → spread_over gs' → stored s2 gs'.
Proof.
  intros Hcov Hso. pose proof Hso as [Hlen Hcc Hout Hspr]. pose proof (newSize_ok _ _ rd) as (Hun&H1&_).
  pose proof (sd_layout _ _ (rd_stored _ _ rd)) as Hl. destruct (rt_state _ _ _ _ rw) as (p&w&mp&Heq).
  assert (size s2 = n ∧ capacity s2 = c ∧ bufferPointers s2 = bufferPointers s') as (Hsz&Hcp&Hbp).
  { rewrite Heq. split_and!; [apply em|apply em|done]. }
  assert (∀ i x, at_ (bufferPointers s2) i = Some x → Interval.length x = 0) as Hno.
  { intros i x. rewrite Hbp. intros Hx. pose proof (at_Some_bound _ _ _ Hx) as Hb. rewrite (em_pointers_length _ _ _ _ em) in Hb.
    destruct (em_pointers _ _ _ _ em i Hb) as (y&Hy&?). congruence. }
  split; [split|].
  - rewrite Hlen, Hsz. lia.
  - lia.
  - lia.
  - rewrite (rt_length _ _ _ _ rw), Hcp. apply em.
  - rewrite Hbp, Hcp. apply em.
  - intros i bs Hbs. pose proof (at_Some_bound _ _ _ Hbs) as Hb. rewrite Hlen in Hb.
    assert (∃ e, at_ (pma s2) i = Some e ∧ main_is e bs) as (e&He&Hm).
    { destruct (decide (Forall (λ t, Interval.contains (pmaRange t) i = false) ts)) as [Hnone|Hsome].
      - rewrite Forall_forall in Hnone. rewrite Hout in Hbs by done. by apply kept_entry.
      - apply not_Forall_Exists in Hsome; [|tc_solve]. apply Exists_exists in Hsome as (t&Ht&Hct). apply not_false_iff_true in Hct.
        apply contains_bounds in Hct. destruct (task_facts t Ht) as (Hok&Hr&Hright). fold (task_left t) in Hct.
        replace i with (task_left t + (i - task_left t)) in Hbs by lia. rewrite Hspr in Hbs by (done || lia).
        destruct (task_spreadable s gs n t (rd_stored _ _ rd) Hok Hun Hr) as [_ Hz].
        destruct (spread_entries (task_length t) (task_rows s t) _ _ _ (task_blocks s gs n t (rd_stored _ _ rd) Hok Hun Hr)
          ltac:(rewrite Hz; apply Hok) Hbs) as (r&Hrs&Hm).
        exists (entry_of r). split; [|done]. rewrite <-(rt_spread _ _ _ _ rw t _ r Ht Hrs). f_equal. lia. }
    destruct (at_in_bound (bufferPointers s2) i) as [x Hx]; [rewrite Hbp, (em_pointers_length _ _ _ _ em); lia|].
    exists bs, []. split; [by rewrite app_nil_r|]. exists e, x. split_and!; [done|done|done|].
    split; [by rewrite (Hno i x Hx)|]. intros j y Hj. apply at_Some_bound in Hj. zlen.
  - intros i Hi. rewrite Hlen, Hcp in Hi. unfold n in *. split; [|rewrite Hbp; apply (em_pointers_tail _ _ _ _ em); lia].
    rewrite (rt_other _ _ _ _ rw), (em_pma _ _ _ _ em) by (lia || intros t Ht; destruct (task_facts t Ht) as (_&?&_); apply not_true_iff_false; intros ?%contains_bounds; unfold n in *; lia).
    destruct (in_tasks s (rebalancingTasks s) i); [done|].
    destruct (decide (i < capacity s)); [|rewrite at_None_bound; [done|]; rewrite (la_pma _ _ Hl); lia].
    destruct (la_tail _ _ Hl i) as [-> _]; [|done]. pose proof (la_size _ _ Hl). unfold used in *. lia.
  - intros i j x y c0 _ Hx _ Hin%contains_bounds. pose proof (Hno i x Hx). unfold Interval.length in *. lia.
  - rewrite Hcc. apply (la_blocks _ _ Hl).
  - left. lia.
Qed.
End result.
End rebalanced.
