(* ===== verification/SdsExecuteTasks.v ===== *)
(** * [executeTasks] with one thread

    The rebalancing of all tasks: the contents of the array stay the same, the buffer and
    the swap array are empty afterwards, and the entries that got a block are marked for
    the next update of the hierarchy. *)

From S2P Require Export SdsRebalanced RebalancingShape.
Import BatchedSparseArray RebalancingPhase.
Import BinaryRebalancingManager (Manager, logCapacity, aggregates).
Import PmaEntry(PmaEntry).

Section execute.
Context `{T : SdsTypes} `{C : BlockConfig}.
Context `{BC : !BlockConfigOk} `{HB : !HalfBlocks}.
Context `{R : RebalancingConfig} `{D : DensityManager}.
Context `{H : ConcurrentBucketMap.Hash} `{P : ThreadConfig}.
Implicit Types (s : Sds) (i j a b c : Z) (ts : list RebalancingTask) (task : RebalancingTask).
Implicit Types (gs : list (list (list ValueType * list ValueType))).

(** The counters of the debug build: every buffer block that was written is still there. *)
Definition counters_ok s : Prop :=
  NDEBUG = true ∨ bufferReads s + tasks_reads s (rebalancingTasks s) = bufferWrites s.

(** The hierarchy can be resized. *)
Record resizable s : Prop := {
  rs_log : logCapacity (rebalancingManager s) ≤ 60;
  rs_size : BinaryRebalancingManager.size (rebalancingManager s) ≤ BinaryRebalancingManager.capacity (rebalancingManager s);
  rs_new : newSize s / AggregateWidth < 2 ^ 58;
}.

(** The manager [m'] is the resized [m], whose flags have been taken back. *)
Record resized m m' (n : Z) : Prop := {
  rz_shape : shape m';
  rz_size : BinaryRebalancingManager.size m' = n / AggregateWidth + 1;
  rz_fits : BinaryRebalancingManager.size m' ≤ BinaryRebalancingManager.capacity m';
  rz_grown : BinaryRebalancingManager.capacity m < BinaryRebalancingManager.size m' → ∀ l i, cnt m' l i = 0 ∧ flg m' l i = false;
  rz_kept : BinaryRebalancingManager.size m' ≤ BinaryRebalancingManager.capacity m →
    logCapacity m' = logCapacity m ∧
    ∀ l i, node_in (logCapacity m) l i → cnt m' l i = cnt m l i ∧ flg m' l i = false;
  rz_next : BinaryRebalancingManager.nextLevelRecountingNodes m' = BinaryRebalancingManager.nextLevelRecountingNodes m;
  rz_log : logCapacity m ≤ logCapacity m';
  rz_capacity : BinaryRebalancingManager.capacity m' = BinaryRebalancingManager.capacity m ∨
    BinaryRebalancingManager.capacity m' ≤ 2 * BinaryRebalancingManager.size m';
}.

(** The state [s'] after the rebalancing of [s]. *)
Record rebalanced s s' gs gs' : Prop := {
  rb_stored : stored s' gs';
  rb_contents : concat gs' = concat gs;
  rb_spread : spread_over s gs gs';
  rb_size : size s' = newSize s ∧ size s' < capacity s' ∧ capacity s ≤ capacity s';
  rb_pointers : ∀ i, buffers s' i = 0;
  rb_buffer : zlen (bufferArray s') = zlen (bufferArray s) ∧ ∀ i e, at_ (bufferArray s') i = Some e → e = PmaEntry.null_entry;
  rb_buffer_capacity : bufferCapacity s' = bufferCapacity s;
  rb_swap : swapCapacity s' = capacity s' ∧ swapPma s' = null_entries (capacity s');
  rb_tasks : rebalancingTasks s' = [] ∧ prefixNumberOfRebalancingBlocks s' = [] ∧ rebalancingNodes s' = rebalancingNodes s;
  rb_threads : numberOfThreads s' = numberOfThreads s ∧ zlen (tasks s') = zlen (tasks s);
  rb_wf : wf (recountingNodesMap s');
  rb_map : contents (recountingNodesMap s') =
    spec_insert_all (contents (recountingNodesMap s)) (all_places (rebalancingTasks s));
  rb_manager : resized (rebalancingManager s) (rebalancingManager s') (newSize s);
}.

(** The flags of the tasks are taken back when their blocks are moved. *)
Definition flags_of_tasks s : Prop :=
  flags_match (rebalancingManager s) (rootNode <$> rebalancingTasks s).

Lemma resize_moved s s4 gs : ready s gs → resizable s → flags_of_tasks s →
  same_counts (rebalancingManager s) (rebalancingManager s4) →
  (∀ l i, node_in (logCapacity (rebalancingManager s)) l i →
    flg (rebalancingManager s4) l i = true ↔
    flg (rebalancingManager s) l i = true ∧ (mkRebalancingNode l i ∉ rootNode <$> rebalancingTasks s)) →
  ∃ m', BinaryRebalancingManager.resize (rebalancingManager s4) (newSize s) = Ok m' ∧
    resized (rebalancingManager s) m' (newSize s).
Proof.
  intros Hr [Hlog Hsz Hnew] Hfl [Hsh Hl Hz Hnx Hct] Hf4. pose proof (newSize_ok _ _ Hr) as (_&H1&_).
  assert (BinaryRebalancingManager.capacity (rebalancingManager s4) = BinaryRebalancingManager.capacity (rebalancingManager s)) as Hcap.
  { rewrite (shape_capacity _ Hsh), (shape_capacity _ (hi_shape _ (rd_hier _ _ Hr))). by rewrite Hl. }
  destruct (resize_ok (rebalancingManager s4) (newSize s)) as (m'&->&Hsh'&Hsz'&Hfit&Hgr&Hkp&Hnx'&Hlg&Hcp); try done.
  - apply (rd_width _ _ Hr).
  - lia.
  - lia.
  - lia.
  - exists m'. split; [done|]. rewrite Hcap in *. rewrite Hl in *. split; try congruence; try lia; try done.
    intros Hle. destruct (Hkp Hle) as [Hag Hlg']. split; [done|]. intros l i Hn.
    assert (cnt m' l i = cnt (rebalancingManager s4) l i ∧ flg m' l i = flg (rebalancingManager s4) l i) as [-> ->].
    { unfold cnt, flg, cell. by rewrite Hag, Hlg', Hl. }
    split; [by apply Hct|]. apply not_true_iff_false. intros Hx. apply (Hf4 l i Hn) in Hx as [Hx1 Hx2].
    apply Hx2. by apply (Hfl l i Hn).
Qed.

(** The swap array is empty again. *)
Lemma swap_returned s s' s2 gs c m : ready s gs → emptied s s' c m → newSize s < c →
  rewritten_tasks s' (task_rows s) s2 (rebalancingTasks s) → swapPma s2 = null_entries c.
Proof.
  intros Hr Hem Hc Hrw. destruct (rt_swap _ _ _ _ Hrw) as [HL HE]. pose proof (newSize_ok _ _ Hr) as (_&H1&_).
  rewrite (em_swap_length _ _ _ _ Hem) in HL. apply at_ext; [rewrite zlen_null_entries; lia|]. intros i Hi. rewrite HL in Hi.
  rewrite null_entries_at, HE by lia. destruct (in_output (rebalancingTasks s) i) eqn:Hin; [done|].
  apply (em_swap_other _ _ _ _ Hem); [lia|]. intros u Hu Hb. apply not_true_iff_false in Hin. apply Hin, existsb_exists.
  exists u. split; [by apply list_elem_of_In|]. pose proof (rd_fine _ _ Hr) as Hf. rewrite Forall_forall in Hf.
  rewrite (task_rows_length s u (Hf u Hu)) in Hb. unfold SdsSpread.between. rewrite andb_true_iff, Z.leb_le, Z.ltb_lt. lia.
Qed.

Lemma executed_finish s s' s2 gs gs' c m : ready s gs → buffers_covered s → emptied s s' c m → newSize s < c → capacity s ≤ c →
  rewritten_tasks s' (task_rows s) s2 (rebalancingTasks s) → spread_over s gs gs' →
  resized (rebalancingManager s) m (newSize s) → rebalanced s (clearTasks s2) gs gs'.
Proof.
  intros Hr Hcov Hem Hc Hcap Hrw Hso Hm. pose proof (swap_returned _ _ _ _ _ _ Hr Hem Hc Hrw) as Hsw.
  pose proof (rebalanced_layout s s' s2 gs c m Hr Hem Hc Hrw gs' Hcov Hso) as Hst.
  pose proof (rt_wf _ _ _ _ Hrw) as Hwf. pose proof (rt_map _ _ _ _ Hrw) as Hcont.
  destruct (rt_state _ _ _ _ Hrw) as (p&w&mp&Heq). destruct (em_capacity _ _ _ _ Hem) as [Hc1 Hc2].
  pose proof (em_kept _ _ _ _ Hem) as Hk. unfold kept in Hk. injection Hk as K1 K2 K3 K4 K5 K6. rewrite K3 in Hcont.
  assert (capacity s2 = c ∧ swapCapacity s2 = c ∧ size s2 = newSize s ∧ bufferPointers s2 = bufferPointers s' ∧
    bufferArray s2 = bufferArray s' ∧ bufferCapacity s2 = bufferCapacity s ∧ rebalancingNodes s2 = rebalancingNodes s ∧
    numberOfThreads s2 = numberOfThreads s ∧ tasks s2 = tasks s' ∧ rebalancingManager s2 = m) as (E1&E2&E3&E4&E5&E6&E7&E8&E9&E10).
  { rewrite Heq. split_and!; try done; apply Hem. }
  clear Heq. split; cbn [clearTasks set_prefixNumberOfRebalancingBlocks set_rebalancingTasks size capacity bufferPointers
    bufferArray bufferCapacity swapCapacity swapPma rebalancingTasks prefixNumberOfRebalancingBlocks rebalancingNodes
    numberOfThreads tasks recountingNodesMap rebalancingManager] in *; rewrite ?E1, ?E2, ?E3, ?E5, ?E10; try done.
  - by apply (stored_same s2).
  - apply Hso.
  - intros i. unfold buffers, pointer_length. change (bufferPointers (clearTasks s2)) with (bufferPointers s2). rewrite E4.
    destruct (at_ (bufferPointers s') i) as [x|] eqn:Hx; [|done]. pose proof (at_Some_bound _ _ _ Hx) as Hb.
    rewrite (em_pointers_length _ _ _ _ Hem) in Hb. destruct (em_pointers _ _ _ _ Hem i Hb) as (y&Hy&?). congruence.
  - split; [apply (em_buffer_length _ _ _ _ Hem)|apply (em_buffer _ _ _ _ Hem)].
  - split; [done|]. by rewrite E9, (em_tasks _ _ _ _ Hem).
Qed.

Lemma tasks_reads_prepared s c t ts : tasks_reads (prepared s c t) ts = tasks_reads s ts.
Proof. induction ts as [|u ts IH]; [done|]. simpl. by rewrite IH. Qed.

(** The counters agree when all blocks have been moved. *)
Lemma counters_agree s s4 c t : counters_ok s → moved_tasks (prepared s c t) s4 (rebalancingTasks s) →
  AssertMsg (bufferReads s4 =? bufferWrites s4) = Ok tt.
Proof.
  intros Hcnt Hmv. assert (bufferWrites s4 = bufferWrites s) as ->.
  { pose proof (moved_outside _ _ _ Hmv) as Hout. unfold outside, kept in Hout. injection Hout. intros. congruence. }
  assert (bufferReads s4 = bufferReads s + reads (tasks_reads s (rebalancingTasks s))) as ->.
  { destruct (mt_state _ _ _ Hmv) as (p&w&f&m&->&_). by rewrite tasks_reads_prepared. }
  unfold AssertMsg, counters_ok, reads in *. destruct NDEBUG; [done|]. destruct Hcnt as [?|Hcnt]; [done|].
  by rewrite Hcnt, Z.eqb_refl.
Qed.

(** The state before the blocks are moved back. *)
Definition waiting s s4 ps m : Sds := resizeMainPma (set_bufferPointers (set_rebalancingManager s4 m) ps) (newSize s).

Lemma for_one s (f : Z → Sds → result Sds) : numberOfThreads s = 1 → for_range 0 (numberOfThreads s) f s = f 0 s.
Proof. intros ->. by apply for_range_once. Qed.

(** [executeTasks] as its five phases. *)
Lemma executeTasks_phases s s3 s4 s5 s6 n newPmaSize m : numberOfThreads s = 1 →
  ('(s, n) ← sumTasks s; '(s, newPmaSize) ← growSwap s; s ← for_range 0 (numberOfThreads s) (distributeRebalancing n) s;
   Ok (s, n, newPmaSize)) = Ok (s3, n, newPmaSize) → numberOfThreads s3 = 1 →
  executeRebalancing 0 s3 = Ok s4 → AssertMsg (bufferReads s4 =? bufferWrites s4) = Ok tt →
  BinaryRebalancingManager.resize (rebalancingManager s4) newPmaSize = Ok m → numberOfThreads s4 = 1 →
  clearPointers 0 (set_rebalancingManager s4 m) = Ok s5 → size (resizeMainPma s5 newPmaSize) = newPmaSize →
  numberOfThreads (resizeMainPma s5 newPmaSize) = 1 → executeRewriting n 0 (resizeMainPma s5 newPmaSize) = Ok s6 →
  executeTasks s = Ok (clearTasks s6).
Proof.
  intros H1 Hprep H3 Hmove Hcnt Hm H4 Hclear Hsz H5 Hrw. unfold executeTasks.
  destruct (sumTasks s) as [[s1 n1]|]; [|done]. cbn [mbind result_bind] in *.
  destruct (growSwap s1) as [[s2 n2]|]; [|done]. cbn [mbind result_bind] in *.
  destruct (for_range 0 (numberOfThreads s2) (distributeRebalancing n1) s2); [|done]. cbn [mbind result_bind] in *.
  injection Hprep as -> -> ->. rewrite for_one, Hmove by done. cbn [mbind result_bind]. rewrite Hcnt. cbn [mbind result_bind].
  rewrite Hm. cbn [mbind result_bind]. rewrite for_one, Hclear by done. cbn [mbind result_bind].
  rewrite Hsz. unfold AssertMsg at 1. rewrite Z.eqb_refl. replace (assert_unless NDEBUG true) with (Ok tt) by (by destruct NDEBUG).
  cbn [mbind result_bind]. rewrite for_one, Hrw by done. done.
Qed.

(** The tasks can be executed: they are disjoint nodes that cover all buffer blocks and
    have room for their blocks, and the bookkeeping agrees with them. *)
Record executable s gs : Prop := {
  ex_ready : ready s gs;
  ex_covered : buffers_covered s;
  ex_counters : counters_ok s;
  ex_resizable : resizable s;
  ex_flags : flags_of_tasks s;
  ex_map : wf (recountingNodesMap s);
}.

Lemma executeTasks_ok s gs : executable s gs → ∃ s' gs', executeTasks s = Ok s' ∧ rebalanced s s' gs gs'.
Proof.
  intros [Hr Hcov Hcnt Hrs Hfl Hwf]. destruct (prepare_ok s gs Hr) as (c&t&Hprep&Hlt&Hle&Hg&Hplan).
  destruct (move_ok s gs c t Hr Hlt Hplan) as (s4&Hmove&Hmv). pose proof (moved_outside _ _ _ Hmv) as Hout.
  destruct (resize_moved s s4 gs Hr Hrs Hfl) as (m&Hm&Hrz).
  { destruct (mt_state _ _ _ Hmv) as (p&w&f&m&->&Hsc). done. }
  { apply (mt_flags _ _ _ Hmv). }
  destruct (clearPointers_ok (prepared s c t) gs) with (s0 := set_rebalancingManager s4 m) (t := t) as (ps&Hclear&Hps);
    try apply Hr; try done.
  { by apply (stored_same s); [|apply Hr]. }
  { eapply Forall_impl; [apply Hr|]. intros u Hu. by apply (task_ok_same s). }
  { unfold outside, kept in Hout. injection Hout. intros. by split_and!. }
  { unfold outside in Hout. by injection Hout. }
  { apply (at_zupd_eq (tasks s) 0 t). pose proof (rd_tasks _ _ Hr). lia. }
  destruct (spread_over_exists s gs Hr) as (gs'&Hso).
  pose proof (emptied_ok s gs c t s4 ps m Hr Hcov Hlt Hle Hg Hmv Hps) as Hem. fold (waiting s s4 ps m) in Hem.
  pose proof (em_kept _ _ _ _ Hem) as Hk. unfold kept in Hk. injection Hk as K1 K2 K3 K4 K5 K6.
  destruct (executeRewriting_ok (waiting s s4 ps m) (task_rows s)) as (s6&Hs6&Hrw).
  { rewrite K4. intros u Hu. by eapply all_rewritable. }
  { apply Hem. }
  { rewrite K4. apply Hr. }
  { rewrite K4. apply Hr. }
  { rewrite K5. apply Hr. }
  { by rewrite K3. }
  rewrite K4 in Hs6, Hrw. exists (clearTasks s6), gs'. split; [|by eapply executed_finish].
  eapply executeTasks_phases; try done.
  - apply Hr.
  - apply Hr.
  - by eapply counters_agree.
  - unfold outside, kept in Hout. injection Hout. intros. etransitivity; [done|]. apply Hr.
  - apply Hem.
  - etransitivity; [exact K5|]. apply Hr.
Qed.
(** Where the blocks of a task are afterwards. *)
Lemma rebalanced_at s s' gs gs' t k x : ready s gs → rebalanced s s' gs gs' → t ∈ rebalancingTasks s →
  at_ (blocks_of (padded gs (newSize s)) (pmaRange t)) k = Some x →
  at_ gs' (place (task_left t) (task_length t) (rt_numberOfBlocks t) k) = Some [x].
Proof.
  intros Hr Hrb Ht Hk. pose proof (rd_fine _ _ Hr) as Hf. rewrite Forall_forall in Hf. specialize (Hf t Ht).
  pose proof (newSize_ok _ _ Hr) as (Hu&_&Hright&_). specialize (Hright t Ht).
  destruct (task_spreadable s gs (newSize s) t (rd_stored _ _ Hr) Hf Hu Hright) as [(_&_&Hn) Hz].
  fold (task_length t) in Hn. rewrite <-Hz. unfold place. pose proof (at_Some_bound _ _ _ Hk) as Hb.
  rewrite (so_spread _ _ _ (rb_spread _ _ _ _ Hrb) t _ Ht) by (apply place_bound; done). by apply spread_at.
Qed.
End execute.

(** * The counters of the debug build

    The tasks read every buffer block once: their ranges are disjoint and cover all entries
    with buffer blocks. *)

Import BatchedSparseArray.

Section counters.
Context `{T : SdsTypes} `{C : BlockConfig}.
Context `{BC : !BlockConfigOk} `{HB : !HalfBlocks}.
Context `{R : RebalancingConfig} `{D : DensityManager}.
Context `{H : ConcurrentBucketMap.Hash} `{P : ThreadConfig}.
Implicit Types (s : Sds) (i j a b c : Z) (ts : list RebalancingTask) (t : RebalancingTask) (ps : list Interval).

Lemma buffer_blocks_sum ps : buffer_blocks ps = sum_range (pointer_length ps) 0 (zlen ps).
Proof.
  induction ps as [|x ps IH] using rev_ind; [done|].
  rewrite zlen_app. change (zlen [x]) with 1. rewrite sum_range_snoc by (pose proof (zlen_nonneg ps); lia).
  rewrite (sum_range_ext _ (pointer_length ps)); cycle 1.
  { intros i Hi. unfold pointer_length. by rewrite at_app_l by lia. }
  rewrite <-IH. unfold pointer_length. rewrite at_middle. unfold buffer_blocks.
  rewrite fmap_app, foldr_app. simpl. generalize (Interval.length <$> ps). intros l.
  induction l as [|y l IHl]; simpl; lia.
Qed.

Lemma disjoint_tasks_cons t ts : disjoint_tasks (t :: ts) →
  disjoint_tasks ts ∧ ∀ u c, u ∈ ts → Interval.contains (pmaRange t) c = true → Interval.contains (pmaRange u) c = false.
Proof.
  intros Hd. split.
  - intros i j u v c Hij Hi Hj. pose proof (at_Some_bound _ _ _ Hi). pose proof (at_Some_bound _ _ _ Hj).
    apply (Hd (i + 1) (j + 1) u v c); [lia|rewrite at_cons|rewrite at_cons].
    + destruct (Z.eqb_spec (i + 1) 0); [lia|]. by replace (i + 1 - 1) with i by lia.
    + destruct (Z.eqb_spec (j + 1) 0); [lia|]. by replace (j + 1 - 1) with j by lia.
  - intros u c (k&Hk)%list_elem_of_lookup. rewrite <-at_nat in Hk. apply (Hd 0 (Z.of_nat k + 1) t u c); [lia|done|].
    rewrite at_cons. destruct (Z.eqb_spec (Z.of_nat k + 1) 0); [lia|]. by replace (Z.of_nat k + 1 - 1) with (Z.of_nat k) by lia.
Qed.

Lemma tasks_reads_sum s ts n : Forall (task_ok s) ts → disjoint_tasks ts → used s ≤ n →
  tasks_reads s ts = sum_range (λ i, if in_tasks s ts i then pointer_length (bufferPointers s) i else 0) 0 n.
Proof.
  intros Hf Hd Hn. induction ts as [|t ts IH]; simpl.
  - symmetry. by apply sum_range_zero.
  - apply Forall_cons in Hf as [Ht Hf]. apply disjoint_tasks_cons in Hd as [Hd Hno]. rewrite (IH Hf Hd).
    pose proof (to_used _ _ Ht) as Hu. pose proof (task_nonempty _ _ Ht) as Hlt. unfold task_reads, buffered_blocks.
    rewrite <-(sum_range_part (pointer_length (bufferPointers s)) 0 (task_left t) (task_end s t) n) by (unfold task_end; lia).
    rewrite <-sum_range_add. apply sum_range_ext. intros i _. fold (in_task s t i).
    destruct (in_task s t i) eqn:Hi; cbn [orb]; [|lia].
    assert (in_tasks s ts i = false) as ->; [|lia]. apply not_true_iff_false. intros (u&Hu'&Hiu)%existsb_exists.
    apply list_elem_of_In in Hu'. apply in_task_range in Hi, Hiu. by rewrite (Hno u i) in Hiu.
Qed.

Lemma reads_all s gs ts : stored s gs → Forall (task_ok s) ts → disjoint_tasks ts →
  (∀ i, buffers s i ≠ 0 → in_tasks s ts i = true) → tasks_reads s ts = buffer_blocks (bufferPointers s).
Proof.
  intros Hs Hf Hd Hcov. pose proof (used_length _ _ Hs) as [_ Hu]. rewrite buffer_blocks_sum.
  rewrite (la_pointers _ _ (sd_layout _ _ Hs)). rewrite (tasks_reads_sum s ts (capacity s)) by (done || lia).
  apply sum_range_ext. intros i _. destruct (in_tasks s ts i) eqn:Hi; [done|].
  destruct (decide (buffers s i = 0)) as [Hz|Hnz]; [by rewrite <-Hz|]. rewrite Hcov in Hi; done.
Qed.
End counters.
