(* ===== verification/SdsUpdated.v ===== *)
(** * The rebalancing hierarchy over a batch

    [steady]: between two batches the hierarchy holds the numbers of blocks of the array,
    apart from segments that are recorded for recounting, and no flag is raised.  An
    insertion keeps the recorded segments up to date.  After it the update makes the counts
    exact, and the tasks cover all entries with buffer blocks: the state is ready to be
    rebalanced. *)

From S2P Require Export SdsInsertPhase SdsExecuteTasks.
Import BatchedSparseArray.
Import BinaryRebalancingManager (Manager, logCapacity, nextLevelRecountingNodes, threshold, getBlockIndexLevelZero).
Import PmaEntry(PmaEntry).

(** A level that is full enough to be exceeded has a block for each segment of the level
    above. *)
Class DenseLaw `{R : RebalancingConfig} `{D : DensityManager} : Prop := {
  width_positive : 0 < AggregateWidth;
  threshold_dense : ∀ l Lc, 0 ≤ l < Lc → Lc ≤ 60 → 2 ^ (l + 1) - 1 ≤ threshold l Lc (2 ^ l);
}.

Section steady.
Context `{T : SdsTypes} `{C : BlockConfig}.
Context `{BC : !BlockConfigOk} `{HB : !HalfBlocks}.
Context `{R : RebalancingConfig} `{D : DensityManager} `{Law : !ThresholdLaw} `{Dense : !DenseLaw}.
Context `{H : ConcurrentBucketMap.Hash} `{P : ThreadConfig}.
Implicit Types (s : Sds) (m : Manager) (l i j k : Z).
Implicit Types (gs : list (list (list ValueType * list ValueType))).
#[local] Abbreviation blocks_at s := (weight (is_empty s) (buffers s)).
#[local] Abbreviation manager := rebalancingManager.

(** The blocks of segment [j]. *)
Definition seg s j : Z := sum_range (blocks_at s) (getBlockIndexLevelZero j) (getBlockIndexLevelZero (j + 1)).

Lemma node_segment i j : 0 ≤ i → node i = j ↔ getBlockIndexLevelZero j ≤ i < getBlockIndexLevelZero (j + 1).
Proof.
  pose proof width_positive as HW. assert (AggregateWidth ≠ 0) as Hnz by lia. intros Hi. unfold node, BinaryRebalancingManager.lowestLevelNodeIndex, getBlockIndexLevelZero.
  rewrite Z.quot_div_nonneg by lia. split.
  - intros <-. pose proof (Z.div_mod i AggregateWidth Hnz). pose proof (Z.mod_pos_bound i AggregateWidth HW). lia.
  - intros Hj. symmetry. apply Z.div_unique with (i - j * AggregateWidth); lia.
Qed.

Lemma segment_entries j : 0 ≤ j → 0 ≤ getBlockIndexLevelZero j ≤ getBlockIndexLevelZero (j + 1) ∧
  getBlockIndexLevelZero (j + 1) - getBlockIndexLevelZero j = AggregateWidth.
Proof. pose proof width_positive. unfold getBlockIndexLevelZero. nia. Qed.

Lemma blocks_nonneg s gs i : stored s gs → 0 ≤ i → 0 ≤ blocks_at s i.
Proof.
  intros Hs Hi. destruct (view_readable s gs (i + 1) Hs i ltac:(lia)) as (_&_&Hb). unfold weight. destruct (is_empty s i); lia.
Qed.

Lemma pointer_used s gs i : stored s gs → buffers s i ≠ 0 → 0 ≤ i < used s.
Proof.
  intros Hs Hb. destruct (decide (i < used s)) as [Hlt|Hge].
  - split; [|done]. unfold buffers, pointer_length in Hb. destruct (at_ (bufferPointers s) i) eqn:Hx; [|done].
    apply at_Some_bound in Hx. lia.
  - destruct (stored_tail s gs i Hs ltac:(lia)). done.
Qed.

(** What holds of the hierarchy and the recounting map between two batches. *)
Record steady s : Prop := {
  sy_shape : shape (manager s);
  sy_log : 1 ≤ logCapacity (manager s) ≤ 58;
  sy_flags : ∀ l i, node_in (logCapacity (manager s)) l i → flg (manager s) l i = false;
  sy_counts : ∃ before, counts_match (manager s) before ∧
    ∀ j, 0 ≤ j < 2 ^ logCapacity (manager s) → before j ≠ seg s j → is_Some (contents (recountingNodesMap s) !! j);
  sy_leaves : ∀ j, is_Some (contents (recountingNodesMap s) !! j) → 0 ≤ j < 2 ^ logCapacity (manager s);
  sy_unmarked : ∀ j, contents (recountingNodesMap s) !! j ≠ Some true;
  sy_next : wf (nextLevelRecountingNodes (manager s));
  sy_next_keys : ∀ k, is_Some (contents (nextLevelRecountingNodes (manager s)) !! k) → k = 0;
  sy_next_unmarked : ∀ k, contents (nextLevelRecountingNodes (manager s)) !! k ≠ Some true;
  sy_size : BinaryRebalancingManager.size (manager s) ≤ BinaryRebalancingManager.capacity (manager s);
  sy_nodes : rebalancingNodes s = [] ∧ rebalancingTasks s = [];
}.

(** The array lies below a child of the root, and ends with a node. *)
Definition aligned s : Prop :=
  size s = 0 ∨ ∃ k, 0 ≤ k ≤ logCapacity (manager s) - 1 ∧ size s = 2 ^ k * AggregateWidth.

(** The blocks fit below the thresholds of the root and of its children. *)
Definition small m (n : Z) : Prop :=
  n ≤ threshold (logCapacity m - 1) (logCapacity m) (2 ^ (logCapacity m - 1)) ∧
  n ≤ threshold (logCapacity m) (logCapacity m) (2 ^ logCapacity m).

Lemma aligned_used s : 1 ≤ logCapacity (manager s) → aligned s → used s ≤ 2 ^ (logCapacity (manager s) - 1) * AggregateWidth.
Proof.
  pose proof width_positive as HW. intros HL Hal. unfold used. destruct Hal as [->|(k&Hk&->)].
  - assert (0 < 2 ^ (logCapacity (manager s) - 1)) by (apply Z.pow_pos_nonneg; lia). nia.
  - assert (2 ^ k ≤ 2 ^ (logCapacity (manager s) - 1)) by (apply Z.pow_le_mono_r; lia).
    assert (0 < 2 ^ k) by (apply Z.pow_pos_nonneg; lia). nia.
Qed.

Lemma used_leaf s i : 1 ≤ logCapacity (manager s) → aligned s → 0 ≤ i < used s → 0 ≤ node i < 2 ^ logCapacity (manager s).
Proof.
  pose proof width_positive as HW. intros HL Hal Hi. pose proof (aligned_used s HL Hal) as Hu.
  assert (2 ^ logCapacity (manager s) = 2 * 2 ^ (logCapacity (manager s) - 1)) as Hp.
  { rewrite <-Z.pow_succ_r by lia. f_equal. lia. }
  pose proof (proj1 (node_segment i (node i) ltac:(lia)) eq_refl) as Hb. unfold getBlockIndexLevelZero in Hb.
  assert (0 < 2 ^ (logCapacity (manager s) - 1)) by (apply Z.pow_pos_nonneg; lia). nia.
Qed.

(** ** After an insertion *)

Section inserted.
Variables (s s' : Sds) (gs gs' : list (list (list ValueType * list ValueType))).
Hypothesis (st : stored s gs) (sy : steady s) (st' : stored s' gs') (bi : batch_inserted s s') (al : aligned s').
Let m := manager s'.
Let marks := contents (recountingNodesMap s').

Lemma inserted_manager : manager s' = manager s.
Proof. pose proof (bi_fixed _ _ bi) as F. congruence. Qed.

(** Marked segments have a block. *)
Lemma marked_segment j : marks !! j = Some true → 1 ≤ seg s' j ∧ ∃ i, j = node i ∧ buffers s' i ≠ 0.
Proof.
  intros Hj. destruct (bi_origin _ _ bi j) as [Hold|(i&->&Hi)].
  - unfold marks in Hj. rewrite Hold in Hj. by destruct (sy_unmarked _ sy j).
  - split; [|by exists i]. destruct (pointer_used s' gs' i st' Hi) as [Hi0 _].
    assert (1 ≤ blocks_at s' i) as Hw.
    { destruct (view_readable s' gs' (i + 1) st' i ltac:(lia)) as (_&_&Hb). unfold weight. destruct (is_empty s' i); lia. }
    pose proof (proj1 (node_segment i (node i) Hi0) eq_refl) as Hr. etransitivity; [exact Hw|].
    apply (sum_range_pick (blocks_at s')); [|done]. intros c Hc. apply (blocks_nonneg s' gs' c st'). 
    assert (0 ≤ node i); [|pose proof (segment_entries (node i)); lia].
    unfold node, BinaryRebalancingManager.lowestLevelNodeIndex. pose proof width_positive. apply Z.quot_pos; lia.
Qed.

Lemma marked_leaves j : is_Some (marks !! j) → 0 ≤ j < 2 ^ logCapacity m.
Proof.
  intros Hj. unfold m. destruct (bi_origin _ _ bi j) as [Hold|(i&->&Hi)].
  - rewrite inserted_manager. apply (sy_leaves _ sy). by rewrite <-Hold.
  - apply used_leaf; [|done|by eapply pointer_used]. rewrite inserted_manager. apply (sy_log _ sy).
Qed.

Lemma dirty_marked j : 0 ≤ j < 2 ^ logCapacity m → cnt m 0 j ≠ seg s' j → is_Some (marks !! j).
Proof.
  intros Hj Hne. destruct (sy_counts _ sy) as (before&Hc&Hb). unfold m in *. rewrite inserted_manager in *.
  rewrite Hc in Hne by (try (left; rewrite Z.sub_0_r); pose proof (sy_log _ sy); lia).
  change (target before 0 j) with (before j) in Hne. destruct (decide (seg s' j = seg s j)) as [Heq|Hdiff].
  - assert (is_Some (contents (recountingNodesMap s) !! j)) as Hs by (apply Hb; [done|congruence]).
    destruct (bi_origin _ _ bi j) as [Hold|(i&->&Hi)]; [unfold marks; by rewrite Hold|]. unfold marks. rewrite (bi_marked _ _ bi i Hi). by eexists.
  - apply sum_range_differ in Hdiff as (i&Hi&Hw). destruct (bi_weight _ _ bi i) as [?|Hmk]; [done|].
    pose proof (segment_entries j ltac:(lia)) as [? _]. rewrite (proj2 (node_segment i j ltac:(lia))) in Hmk by done. by eexists.
Qed.

Lemma overfull_marked j : 0 ≤ j → AggregateWidth < seg s' j → marks !! j = Some true.
Proof.
  intros Hj Hlt. pose proof (segment_entries j Hj) as [Hb Hw]. unfold seg in Hlt. rewrite <-Hw in Hlt.
  apply sum_range_exceeds in Hlt as (i&Hi&Hgt); [|lia]. rewrite <-(proj2 (node_segment i j ltac:(lia)) Hi).
  apply (bi_marked _ _ bi). intros Hz. unfold weight in Hgt. rewrite Hz in Hgt. destruct (is_empty s' i); lia.
Qed.
End inserted.
End steady.

Import BatchedSparseArray RebalancingPhase.
Import BinaryRebalancingManager (Manager, logCapacity, nextLevelRecountingNodes, threshold, getBlockIndexLevelZero,
  leftChild, rightChild).
Import PmaEntry(PmaEntry).

Section updated.
Context `{T : SdsTypes} `{C : BlockConfig}.
Context `{BC : !BlockConfigOk} `{HB : !HalfBlocks}.
Context `{R : RebalancingConfig} `{D : DensityManager} `{Law : !ThresholdLaw} `{Dense : !DenseLaw}.
Context `{H : ConcurrentBucketMap.Hash} `{P : ThreadConfig}.
Implicit Types (m : Manager) (l i j k : Z) (nodes : list RebalancingNode).
#[local] Abbreviation blocks_at s := (weight (is_empty s) (buffers s)).
#[local] Abbreviation manager := rebalancingManager.

Variables (s s' : Sds) (gs gs' : list (list (list ValueType * list ValueType))).
Hypothesis (st : stored s gs) (sy : steady s) (st' : stored s' gs') (bi : batch_inserted s s') (al : aligned s').
Hypothesis (few : small (manager s') (zlen (concat gs'))).
Let Lc := logCapacity (manager s').
Let marks := contents (recountingNodesMap s').

Lemma log_bounds : 1 ≤ Lc ≤ 58.
Proof. unfold Lc. rewrite (inserted_manager s s' bi). apply (sy_log _ sy). Qed.

Lemma node_bounds l i : node_in Lc l i → l ≤ Lc → 0 ≤ l ∧ 0 ≤ i ∧ 0 ≤ node_left l i ≤ node_left l (i + 1).
Proof.
  pose proof width_positive as HW. intros [[? [? _]]|[? ?]] ?; [|lia]. split_and!; [lia|lia|..]; unfold node_left;
    assert (0 < 2 ^ l) by (apply Z.pow_pos_nonneg; lia); nia.
Qed.

(** The blocks below a node. *)
Lemma target_seg l i : node_in Lc l i → l ≤ Lc → target (seg s') l i = sum_range (blocks_at s') (node_left l i) (node_left l (i + 1)).
Proof. intros Hn Hl. apply target_range; [apply width_positive|apply (node_bounds l i Hn Hl)..]. Qed.

Lemma total_blocks : target (seg s') Lc 0 = zlen (concat gs').
Proof.
  pose proof log_bounds. pose proof width_positive as HW. pose proof (used_length _ _ st') as [Hu Hc].
  rewrite target_seg by (try (left; rewrite Z.sub_diag); simpl; lia). unfold node_left at 1. rewrite Z.mul_0_l.
  assert (used s' ≤ node_left Lc (0 + 1)) as Hle.
  { pose proof (aligned_used s' ltac:(fold Lc; lia) al) as Ha. fold Lc in Ha. unfold node_left.
    assert (2 ^ Lc = 2 * 2 ^ (Lc - 1)) as ->. { rewrite <-Z.pow_succ_r by lia. f_equal. lia. }
    assert (0 < 2 ^ (Lc - 1)) by (apply Z.pow_pos_nonneg; lia). nia. }
  rewrite (range_weight s' gs') by (done || lia). rewrite Z.min_r by lia. rewrite <-Hu.
  pose proof (rows_blocks s' gs' 0 (zlen gs') st' ltac:(lia) ltac:(lia)) as HF. apply Forall2_length in HF.
  rewrite slice_full in HF. unfold zlen in *. lia.
Qed.

Lemma node_sum_bounds l i : node_in Lc l i → l ≤ Lc → 0 ≤ target (seg s') l i ≤ zlen (concat gs').
Proof.
  intros Hn Hl. destruct (node_bounds l i Hn Hl) as (Hl0&Hi0&Hle). rewrite <-total_blocks, !target_seg by (done || (try (left; rewrite Z.sub_diag); simpl; lia)).
  split.
  - apply sum_range_nonneg. intros c Hc. apply (blocks_nonneg s' gs' c st'). lia.
  - unfold node_left at 3. rewrite Z.mul_0_l. apply sum_range_sub; [|lia|lia|].
    + intros c Hc. apply (blocks_nonneg s' gs' c st'). lia.
    + destruct Hn as [[_ Hi]|[? ?]]; [|lia]. unfold node_left. pose proof width_positive.
      assert (2 ^ Lc = 2 ^ (Lc - l) * 2 ^ l) as ->. { rewrite <-Z.pow_add_r by lia. f_equal. lia. }
      assert (0 < 2 ^ l) by (apply Z.pow_pos_nonneg; lia). nia.
Qed.

(** ** The update *)

Lemma seg_counted j : 0 ≤ j < 2 ^ Lc → BinaryRebalancingManager.aggregateNodeRangeLevelZero (view s') j = Ok (seg s' j).
Proof.
  intros Hj. pose proof width_positive as HW.
  rewrite (aggregateNodeRangeLevelZero_ok (view s') (is_empty s') (buffers s') (used s')); try done; [|by apply (view_readable s' gs')|lia].
  f_equal. apply segment_range; [done|]. intros i Hi. apply (tail_weight s' gs' i st'). done.
Qed.

(** What the update leaves: exact counts, and no marks for the next batch. *)
Record refreshed m map nodes : Prop := {
  re_updated : updated (manager s') (seg s') marks m nodes;
  re_map : wf map;
  re_map_keys : ∀ k, is_Some (contents map !! k) → k = 0;
  re_map_unmarked : ∀ k, contents map !! k ≠ Some true;
  re_next : wf (nextLevelRecountingNodes m);
  re_next_keys : ∀ k, is_Some (contents (nextLevelRecountingNodes m) !! k) → k = 0;
  re_next_unmarked : ∀ k, contents (nextLevelRecountingNodes m) !! k ≠ Some true;
}.

Lemma unmarked_before : clean (manager s').
Proof. intros k. rewrite (inserted_manager s s' bi). apply (sy_next_unmarked _ sy). Qed.

Lemma child_small j : 0 ≤ j < 2 ^ Lc → target (seg s') (Lc - 1) (ancestor j (Lc - 1)) ≤ zlen (concat gs').
Proof. intros Hj. pose proof log_bounds. apply node_sum_bounds; [|lia]. apply (ancestor_in (manager s')); fold Lc; lia. Qed.

Definition with_update m map nodes : Sds := set_rebalancingNodes (set_recountingNodesMap (set_rebalancingManager s' m) map) nodes.

Lemma updateHierarchy_ok : ∃ m map nodes, updateHierarchy s' = Ok (with_update m map nodes) ∧ refreshed m map nodes.
Proof.
  pose proof log_bounds as HL. destruct few as [Hfew1 Hfew2]. fold Lc in Hfew1, Hfew2.
  pose proof (inserted_manager s s' bi) as Hm. destruct (sy_counts _ sy) as (before&Hc&_).
  assert (wp (BinaryRebalancingManager.update (manager s') (view s') (recountingNodesMap s') [])
    (λ '(m, map, nodes), refreshed m map nodes)) as Hu.
  { eapply wp_mono; [apply (update_ok (manager s') (seg s') marks)|].
    - apply (counts_consistent _ before). by rewrite Hm.
    - by apply (marked_leaves s s' gs').
    - fold Lc. lia.
    - exact Law.
    - rewrite Hm. apply sy.
    - apply bi.
    - done.
    - rewrite Hm. apply sy.
    - intros k Hk. rewrite Hm in Hk. rewrite (sy_next_keys _ sy k Hk). left. split; [fold Lc; lia|]. split; [done|]. apply Z.pow_pos_nonneg; fold Lc; lia.
    - rewrite Hm. apply (sy_flags _ sy).
    - apply seg_counted.
    - by apply (dirty_marked s s').
    - intros j Hj. by apply (overfull_marked s s'); [|lia].
    - intros [[m map] nodes] (Hup&Hmap&Hnext&Hk1&Hk2&Hk3&Hk4). split; try done.
      + apply Hk1. fold Lc. lia.
      + intros k Hk. destruct (Hk2 ltac:(fold Lc; lia) unmarked_before k Hk) as (j&Hj&_&Hlt).
        specialize (Hlt ltac:(fold Lc; lia)). fold Lc in Hlt.
        pose proof (child_small j). assert (0 ≤ j < 2 ^ Lc) by (apply (marked_leaves s s' gs'); [done..|by eexists]). lia.
      + intros k Hk. specialize (Hk4 unmarked_before k Hk). fold Lc in Hk4. rewrite total_blocks in Hk4. lia. }
  apply wp_returns in Hu as ([[m map] nodes]&Hu&Hre). exists m, map, nodes. split; [|done].
  unfold updateHierarchy. assert (rebalancingNodes s' = []) as ->.
  { pose proof (bi_fixed _ _ bi) as F. transitivity (rebalancingNodes s); [congruence|]. apply (sy_nodes _ sy). }
  rewrite Hu. done.
Qed.

(** ** The nodes to rebalance *)

Section nodes.
Variables (m : Manager) (map : ConcurrentBucketMap.ConcurrentBucketMap) (nodes : list RebalancingNode).
Hypothesis re : refreshed m map nodes.

(** A node to rebalance has a block for each of its segments, and its blocks fit. *)
Lemma node_facts nd : nd ∈ nodes → node_in Lc (level nd) (index nd) ∧ 0 ≤ level nd ≤ Lc - 1 ∧
  2 ^ level nd ≤ target (seg s') (level nd) (index nd) ≤ AggregateWidth * 2 ^ level nd.
Proof.
  intros Hnd. pose proof log_bounds as HL. destruct few as [Hfew1 Hfew2]. fold Lc in Hfew1, Hfew2.
  pose proof (re_updated _ _ _ re) as Hup. destruct (u_nodes _ _ _ _ _ Hup nd Hnd) as (Hin&Hfit&Hsuper). fold Lc in Hin, Hfit, Hsuper.
  assert (level nd ≤ Lc) as Hle.
  { destruct Hin as [[? _]|[Hl _]]; [lia|]. specialize (Hsuper Hl). rewrite total_blocks in Hsuper.
    pose proof (threshold_fits Lc Lc). lia. }
  destruct (node_bounds _ _ Hin Hle) as (Hl0&Hi0&_).
  destruct (u_origins _ _ _ _ _ Hup unmarked_before nd Hnd Hle) as (j&Hj&Hanc&Hover). fold Lc in Hover.
  assert (0 ≤ j < 2 ^ Lc) as Hjb by (apply (marked_leaves s s' gs'); [done..|by eexists]).
  assert (level nd ≠ Lc) as Hroot.
  { intros Hl. rewrite Hl in Hover. specialize (Hover ltac:(lia)). pose proof (child_small j Hjb). lia. }
  split_and!; [done|lia|lia| |].
  - destruct (decide (level nd = 0)) as [Hz|Hz].
    + rewrite Hz in *. unfold ancestor in Hanc. rewrite Z.pow_0_r, Z.div_1_r in *. subst j.
      apply (marked_segment s s' gs'); done.
    + specialize (Hover ltac:(lia)). pose proof (threshold_dense (level nd - 1) Lc ltac:(lia) ltac:(lia)) as Hd.
      replace (level nd - 1 + 1) with (level nd) in Hd by lia.
      rewrite target_succ by lia. destruct (children_in _ _ _ Hin) as [H1 H2]; [lia|].
      pose proof (node_sum_bounds _ _ H1 ltac:(lia)). pose proof (node_sum_bounds _ _ H2 ltac:(lia)).
      assert (ancestor j (level nd - 1) = leftChild (index nd) ∨ ancestor j (level nd - 1) = rightChild (index nd)) as [Ha|Ha].
      { assert (BinaryRebalancingManager.parent (ancestor j (level nd - 1)) = index nd) as Hp.
        { rewrite <-ancestor_succ by lia. by replace (level nd - 1 + 1) with (level nd) by lia. }
        unfold BinaryRebalancingManager.parent, leftChild, rightChild in *.
        assert (0 ≤ ancestor j (level nd - 1)) by (apply Z.div_pos; [lia|apply Z.pow_pos_nonneg; lia]).
        rewrite Z.quot_div_nonneg in Hp by lia. Z.div_mod_to_equations. lia. }
      * rewrite Ha in Hover. lia.
      * rewrite Ha in Hover. lia.
  - specialize (Hfit Hle). pose proof (threshold_fits (level nd) Lc). lia.
Qed.

Lemma refreshed_nodes : nodes_ok m nodes.
Proof.
  pose proof (re_updated _ _ _ re) as Hup. pose proof (u_log _ _ _ _ _ Hup) as Hlog. fold Lc in Hlog. split.
  - apply Hup.
  - apply Hup.
  - apply Hup.
  - intros nd Hnd. destruct (node_facts nd Hnd) as (?&?&?). rewrite Hlog. split; [done|lia].
Qed.

(** ** The tasks *)

Variables (m2 : Manager) (roots : list RebalancingNode).
Hypothesis (same : same_counts m m2) (flags : flags_match m2 roots) (nodup : NoDup roots).
Hypothesis (roots_ok : ∀ nd, nd ∈ roots ↔ nd ∈ nodes ∧ ¬ node_dominated m nd).

Definition created : Sds :=
  set_rebalancingTasks (set_rebalancingNodes (set_rebalancingManager (with_update m map nodes) m2) []) (task_of m <$> roots).

Lemma created_log : logCapacity m2 = Lc ∧ logCapacity m = Lc.
Proof. pose proof (u_log _ _ _ _ _ (re_updated _ _ _ re)) as Hlog. fold Lc in Hlog. rewrite (sc_log _ _ same). done. Qed.

Lemma created_stored : stored created gs'.
Proof. by apply (stored_same s'). Qed.

Lemma created_count l i : node_in Lc l i → l ≤ Lc → cnt m2 l i = sum_range (blocks_at created) (node_left l i) (node_left l (i + 1)).
Proof.
  intros Hn Hl. rewrite (sc_counts _ _ same) by (by rewrite (proj2 created_log)).
  rewrite (u_counts _ _ _ _ _ (re_updated _ _ _ re)) by done. by apply target_seg.
Qed.

Lemma created_hierarchy : hierarchy_ok created.
Proof. split; [apply (sc_shape _ _ same)|]. change (manager created) with m2. rewrite (proj1 created_log). apply created_count. Qed.

Lemma created_task nd : nd ∈ roots → task_ok created (task_of m nd) ∧ nd ∈ nodes.
Proof.
  intros Hnd. apply roots_ok in Hnd as [Hnd _]. split; [|done]. destruct (node_facts nd Hnd) as (Hin&Hl&Hb).
  destruct (node_bounds _ _ Hin ltac:(lia)) as (Hl0&Hi0&Hle). pose proof width_positive as HW.
  assert (0 < 2 ^ level nd) as Hpow by (apply Z.pow_pos_nonneg; lia).
  assert (cnt m (level nd) (index nd) = target (seg s') (level nd) (index nd)) as Hcnt
    by (apply (u_counts _ _ _ _ _ (re_updated _ _ _ re)); [done|unfold Lc in *; lia]).
  pose proof Hcnt as Hsum. rewrite target_seg in Hsum by (done || lia).
  assert (node_left (level nd) (index nd) < used created) as Hused.
  { change (used created) with (used s'). destruct (decide (node_left (level nd) (index nd) < used s')); [done|]. exfalso.
    rewrite (sum_range_zero (blocks_at s')) in Hsum; [lia|]. intros c Hc. apply (tail_weight s' gs' c st'). lia. }
  split; cbn [task_of rootNode pmaRange rt_numberOfBlocks].
  - change (manager created) with m2. rewrite (proj1 created_log). split; [done|lia].
  - done.
  - unfold task_left. simpl. lia.
  - unfold task_left, task_end. cbn [task_of pmaRange Interval.left Interval.right]. rewrite Hsum.
    change (blocks_at s') with (blocks_at created). apply (range_weight created gs'); [apply created_stored|done|lia].
  - rewrite Hcnt. unfold Interval.length. simpl. unfold node_left. split; [lia|]. nia.
Qed.

Lemma created_disjoint : disjoint_tasks (task_of m <$> roots).
Proof.
  intros i j t u c Hij (Hi&Ht)%at_lookup (Hj&Hu)%at_lookup Hct. rewrite list_lookup_fmap, fmap_Some in Ht, Hu.
  destruct Ht as (nd&Hnd&->), Hu as (nd'&Hnd'&->). apply not_true_iff_false. intros Hcu.
  apply contains_bounds in Hct, Hcu. cbn [task_of pmaRange Interval.left Interval.right] in Hct, Hcu.
  pose proof (list_elem_of_lookup_2 _ _ _ Hnd) as [H1 H2]%roots_ok. pose proof (list_elem_of_lookup_2 _ _ _ Hnd') as [H3 H4]%roots_ok.
  assert (nd = nd') as <- by (apply (undominated_disjoint m nodes nd nd' c refreshed_nodes width_positive); done).
  apply Hij. apply Z2Nat.inj; [lia|lia|]. by apply (NoDup_lookup roots _ _ nd).
Qed.

(** A task that reaches beyond the array covers all of it. *)
Lemma reaching_left k l i : 0 ≤ k → 0 ≤ l → 0 ≤ i → node_left l i < 2 ^ k * AggregateWidth → 2 ^ k * AggregateWidth < node_left l (i + 1) → i = 0.
Proof.
  intros Hk Hl Hi Hlt Hgt. pose proof width_positive as HW. unfold node_left in *.
  assert (0 < 2 ^ k) by (apply Z.pow_pos_nonneg; lia). assert (0 < 2 ^ l) by (apply Z.pow_pos_nonneg; lia).
  assert (i * 2 ^ l < 2 ^ k) by nia. assert (2 ^ k < (i + 1) * 2 ^ l) by nia.
  destruct (Z.le_gt_cases l k) as [Hle|?].
  - assert (2 ^ k = 2 ^ (k - l) * 2 ^ l) as Hp by (rewrite <-Z.pow_add_r by lia; f_equal; lia).
    rewrite Hp in *. assert (i < 2 ^ (k - l)) by (apply (Z.mul_lt_mono_pos_r (2 ^ l)); lia).
    assert (2 ^ (k - l) < i + 1) by (apply (Z.mul_lt_mono_pos_r (2 ^ l)); lia). lia.
  - assert (2 ^ k < 2 ^ l) by (apply Z.pow_lt_mono_r; lia). assert (i < 1); [|lia]. apply (Z.mul_lt_mono_pos_r (2 ^ l)); lia.
Qed.

Lemma created_growth : (∀ t, t ∈ rebalancingTasks created → Interval.right (pmaRange t) ≤ size created) ∨ growing created.
Proof.
  change (rebalancingTasks created) with (task_of m <$> roots). change (size created) with (size s').
  destruct (decide (Exists (λ nd, size s' < node_left (level nd) (index nd + 1)) roots)) as [Hex|Hno]; cycle 1.
  { left. intros t (nd&->&Hnd)%list_elem_of_fmap. simpl. apply not_Exists_Forall in Hno; [|tc_solve]. rewrite Forall_forall in Hno. apply Z.le_ngt, (Hno nd Hnd). }
  right. apply Exists_exists in Hex as (nd&Hnd&Hgt). destruct (created_task nd Hnd) as [Ht Hin]. destruct (node_facts nd Hin) as (Hn&Hl&_).
  destruct (node_bounds _ _ Hn ltac:(lia)) as (Hl0&Hi0&Hle). pose proof (to_used _ _ Ht) as [_ Hu].
  change (used created) with (used s') in Hu. unfold task_left in Hu. cbn [task_of pmaRange Interval.left] in Hu.
  assert (node_left (level nd) (index nd) = 0) as Hleft.
  { unfold used in Hu. destruct al as [Hz|(k&Hk&Hz)]; [rewrite Hz in Hu; lia|]. rewrite Hz in Hu, Hgt.
    pose proof width_positive as HW. assert (0 < 2 ^ k) by (apply Z.pow_pos_nonneg; lia).
    assert (0 < 2 ^ k * AggregateWidth) by nia. rewrite (reaching_left k (level nd) (index nd)); [done|lia|lia|lia|lia|done]. }
  exists (task_of m nd). split_and!; [|exact Hleft|simpl; change (size created) with (size s'); lia].
  assert (∀ nd', nd' ∈ roots → nd' = nd) as Hone.
  { intros nd' Hnd'. destruct (created_task nd' Hnd') as [Ht' Hin']. pose proof (task_nonempty _ _ Ht') as Hlt.
    pose proof (to_used _ _ Ht') as Hu'. change (used created) with (used s') in Hu'. unfold task_left in *.
    cbn [task_of pmaRange Interval.left Interval.right] in Hu', Hlt.
    apply roots_ok in Hnd as [_ Hd]. apply roots_ok in Hnd' as [_ Hd']. pose proof (task_nonempty _ _ Ht) as Hlt2.
    unfold task_left in Hlt2. cbn [task_of pmaRange Interval.left Interval.right] in Hlt2. pose proof (la_nonneg _ _ (sd_layout _ _ st')).
    apply (undominated_disjoint m nodes nd' nd (node_left (level nd') (index nd')) refreshed_nodes width_positive); try done. all: unfold used in Hu'; lia. }
  change (rebalancingTasks created) with (task_of m <$> roots).
  destruct roots as [|x [|y l]]; [by apply elem_of_nil in Hnd|by rewrite (Hone x) by left|].
  exfalso. apply NoDup_cons in nodup as [Hx _]. apply Hx. rewrite (Hone x), <-(Hone y) by (by repeat constructor). by left.
Qed.

Lemma created_resizable_size : BinaryRebalancingManager.size m2 ≤ BinaryRebalancingManager.capacity m2.
Proof.
  pose proof (re_updated _ _ _ re) as Hup. pose proof created_log as [Hl2 Hl1]. rewrite (sc_size _ _ same), (u_size _ _ _ _ _ Hup).
  rewrite (shape_capacity _ (sc_shape _ _ same)), Hl2. pose proof (sy_size _ sy) as Hs.
  rewrite (inserted_manager s s' bi). rewrite (shape_capacity _ (sy_shape _ sy)) in Hs. unfold Lc. by rewrite (inserted_manager s s' bi).
Qed.

(** Every entry with buffer blocks belongs to a task. *)
Lemma created_covered : buffers_covered created.
Proof.
  pose proof log_bounds as HL. destruct few as [_ Hfew2]. fold Lc in Hfew2. split; [|apply (bi_cells _ _ bi)].
  intros i Hi. change (buffers created i) with (buffers s' i) in Hi. pose proof (pointer_used s' gs' i st' Hi) as Hu.
  pose proof (used_leaf s' i ltac:(fold Lc; lia) al Hu) as Hleaf. fold Lc in Hleaf.
  destruct (u_covered _ _ _ _ _ (re_updated _ _ _ re) (node i) (bi_marked _ _ bi i Hi)) as [(l&Hl&Hnd)|[Hgap _]]; cycle 1.
  { fold Lc in Hgap. rewrite total_blocks in Hgap. lia. }
  destruct (topmost m nodes _ refreshed_nodes Hnd) as (top&Htop&Hdom&Hab). cbn [level index] in Hab.
  assert (top ∈ roots) as Hroot by (by apply roots_ok). destruct (created_task top Hroot) as [Ht _].
  apply existsb_exists. exists (task_of m top). split.
  { apply list_elem_of_In. change (rebalancingTasks created) with (task_of m <$> roots). by apply list_elem_of_fmap_2. }
  destruct (above_range (level top) (index top) 0 (node i) width_positive) as [Hleft Hright].
  { eapply above_trans; [exact Hab|]. apply above_ancestor. lia. }
  pose proof (proj1 (node_segment i (node i) ltac:(lia)) eq_refl) as Hseg. unfold getBlockIndexLevelZero, node_left in *.
  rewrite Z.pow_0_r, !Z.mul_1_l in Hleft, Hright. unfold in_task, task_left, task_end. cbn [task_of pmaRange Interval.left Interval.right].
  change (used created) with (used s'). rewrite andb_true_iff, Z.leb_le, Z.ltb_lt. unfold node_left. lia.
Qed.

Lemma created_roots : rootNode <$> (task_of m <$> roots) = roots.
Proof. rewrite <-list_fmap_compose. by rewrite <-(list_fmap_id roots) at 2. Qed.

Lemma created_fine : Forall (task_ok created) (task_of m <$> roots).
Proof. apply Forall_forall. intros t (nd&->&Hnd)%list_elem_of_fmap. by apply created_task. Qed.

Section ready.
Hypothesis (threads : 0 < zlen (tasks s')) (some : roots ≠ []) (below : size s < capacity s).
Hypothesis (swap : swapPma s = null_entries (swapCapacity s)) (swap_capacity : swapCapacity s = capacity s).

Lemma created_ready : ready created gs'.
Proof.
  pose proof (bi_fixed _ _ bi) as F. pose proof (bi_threads _ _ bi) as [Hth _]. split.
  - apply created_stored.
  - apply created_hierarchy.
  - apply width_positive.
  - change (rebalancingTasks created) with (task_of m <$> roots). intros Hnil. apply fmap_nil_inv in Hnil. done.
  - apply created_fine.
  - apply created_disjoint.
  - done.
  - done.
  - change (swapPma s' = null_entries (swapCapacity s')). congruence.
  - change (swapCapacity s' = capacity s'). congruence.
  - change (size s' < capacity s'). assert (size s' = size s ∧ capacity s' = capacity s) as [-> ->]; [split; congruence|done].
  - apply created_growth.
Qed.

(** The new size is that of a node again. *)
Lemma created_newSize : ∃ k, 0 ≤ k ≤ Lc - 1 ∧ newSize created = 2 ^ k * AggregateWidth.
Proof.
  pose proof (newSize_ok _ _ created_ready) as (Hu&H1&_&[Hsz|(t&Hts&Hl&Hright)]).
  - change (size created) with (size s') in Hsz. destruct al as [Hz|(k&Hk&Hz)]; [lia|]. exists k. rewrite Hsz. done.
  - assert (t ∈ rebalancingTasks created) as Hin by (rewrite Hts; by left).
    change (rebalancingTasks created) with (task_of m <$> roots) in Hin. apply list_elem_of_fmap in Hin as (nd&->&Hnd).
    destruct (created_task nd Hnd) as [_ Hin]. destruct (node_facts nd Hin) as (Hn&Hlv&_).
    destruct (node_bounds _ _ Hn ltac:(lia)) as (Hl0&Hi0&_). pose proof width_positive as HW.
    unfold newSize. rewrite Hts. change (list.last [?x]) with (Some x).
    unfold task_left in Hl. cbn [task_of pmaRange Interval.left Interval.right] in Hl, Hright |- *.
    assert (0 < 2 ^ level nd) by (apply Z.pow_pos_nonneg; lia). unfold node_left in *.
    assert (index nd = 0) as Hz by nia. rewrite Hz in *. exists (level nd). split; [done|]. change (size created) with (size s') in *. rewrite Z.add_0_l, Z.mul_1_l in *. lia.
Qed.

Lemma created_resizable : resizable created.
Proof.
  pose proof log_bounds as HL. pose proof (re_updated _ _ _ re) as Hup. pose proof created_log as [Hl2 Hl1]. split.
  - change (manager created) with m2. lia.
  - apply created_resizable_size.
  - destruct created_newSize as (k&Hk&->). pose proof width_positive. rewrite Z.div_mul by lia. apply Z.pow_lt_mono_r; lia.
Qed.

Lemma created_flags : flags_of_tasks created.
Proof. unfold flags_of_tasks. change (rebalancingTasks created) with (task_of m <$> roots). rewrite created_roots. exact flags. Qed.

Lemma created_counters : bufferReads s = 0 → bufferWrites s = 0 → buffer_blocks (bufferPointers s) = 0 → counters_ok created.
Proof.
  intros Hr Hw Hz. destruct (bi_counters _ _ bi) as [Hreads [?|Hwrites]]; [by left|right].
  change (bufferReads created) with (bufferReads s'). change (bufferWrites created) with (bufferWrites s').
  rewrite (reads_all created gs' (rebalancingTasks created) created_stored created_fine created_disjoint (proj1 created_covered)).
  change (bufferPointers created) with (bufferPointers s'). lia.
Qed.
End ready.
End nodes.
End updated.
