(* ===== verification/OverallocatedBlock.v ===== *)
(** * OverallocatedPmaEntry: the blocks of the second array
    (dataStructures/overallocatedBlock.hpp)

    The class has the members of [PmaEntry] and the text of most of its operations; the
    removals, the split and the moves between neighbouring blocks lack the assertions on
    the head.  The operations that are the same are those of [Block.v]; the others are
    written out, and [forgets_assertions] relates them to their counterparts: what
    [PmaEntry] returns, they return, so that the lemmas of [BlockMoves] carry over. *)

From S2P Require Export BlockMerge.

Module OverallocatedPmaEntry.
Import PmaEntry(PmaEntry, block, head, size, set_block, set_size, has_block, deref, put, moveForward).
Section definitions.
Context `{T : SdsTypes} `{C : BlockConfig}.
Implicit Types (b other right left : PmaEntry).

Definition allocateBlock b : result PmaEntry := PmaEntry.allocateBlock b.
Definition deleteBlock b : result PmaEntry := PmaEntry.deleteBlock b.
Definition get b (index : Z) : result ValueType := PmaEntry.get b index.
Definition linearSearch b (e searchStart : Z) : result Z := PmaEntry.linearSearch b e searchStart.
Definition insertWithIndex b (e : ValueType) (searchStartIndex : Z)
    : result (PmaEntry * (bool * Z)) := PmaEntry.insertWithIndex b e searchStartIndex.
Definition merge b (batch : list ValueType) (from numberOfElements : Z) : result PmaEntry :=
  PmaEntry.merge b batch from numberOfElements.
Definition mergeFaster b (batch : list ValueType) (from numberOfElements : Z) : result PmaEntry :=
  MergeFaster.mergeFaster b batch from numberOfElements.
Definition findIndex b (e : Z) : result Z := PmaEntry.findIndex b e.
Definition contains b (e : Z) : result bool := PmaEntry.contains b e.
Definition isEmpty b : bool := PmaEntry.isEmpty b.
Definition updateHead b : result PmaEntry := PmaEntry.updateHead b.

(** Returns the block and the new block of the elements split to the right. *)
Definition split b : result (PmaEntry * PmaEntry) :=
  AssertMsg (has_block b);;
  AssertMsg (size b =? MaxSize);;
  rightHalf ← allocateBlock PmaEntry.null_entry;
  let splitPosition := u16 (MaxSize ÷ 2) in
  c ← deref b;
  rc ← deref rightHalf;
  rc' ← copy_up c splitPosition (MaxSize - splitPosition) rc 0;
  let b' := set_size b splitPosition in
  rightHalf' ← updateHead (set_size (set_block rightHalf (Some rc')) splitPosition);
  PmaEntry.assertHead b';;
  Ok (b', rightHalf').

Definition remove b (e : ValueType) : result (PmaEntry * bool) :=
  AssertMsg (has_block b);;
  pos ← linearSearch b (keyOfValue e) 0;
  found ← (if pos <? size b
           then v ← get b pos; Ok (keyOfValue v =? keyOfValue e) else Ok false);
  if found : bool then
    b1 ← moveForward b pos;
    b2 ← updateHead (set_size b1 (u16 (size b1 - 1)));
    Ok (b2, true)
  else Ok (b, false).

Definition removeLast b : result PmaEntry := Ok (set_size b (u16 (size b - 1))).

Definition mergeSmaller b other : result PmaEntry :=
  AssertMsg (has_block b);;
  AssertMsg (has_block other);;
  b1 ← for_range 0 (size b)
    (λ k b', let i := size b - 1 - k in
             v ← get b' i; put b' (u16 (size other) + i) v) b;
  b2 ← for_range 0 (size other) (λ i b', v ← get other i; put b' i v) b1;
  updateHead (set_size b2 (u16 (size b + size other))).

Definition steal b right : result (PmaEntry * PmaEntry) :=
  AssertMsg (has_block b);;
  AssertMsg (has_block right);;
  AssertMsg (0 <? size b);;
  AssertMsg (2 * MinSize <=? size b + size right);;
  let numberOfElementsNeeded := u16 (MinSize - size b) in
  c ← deref b;
  rc ← deref right;
  c' ← copy_up rc 0 numberOfElementsNeeded c (size b);
  let b1 := set_size (set_block b (Some c')) (u16 (size b + numberOfElementsNeeded)) in
  rc' ← copy_within rc numberOfElementsNeeded (size right - numberOfElementsNeeded) 0;
  let right1 := set_size (set_block right (Some rc')) (u16 (size right - numberOfElementsNeeded)) in
  AssertMsg (MinSize <=? size b1);;
  AssertMsg (MinSize <=? size right1);;
  right2 ← updateHead right1;
  Ok (b1, right2).

Definition stealFromSmaller b left : result (PmaEntry * PmaEntry) :=
  AssertMsg (has_block b);;
  AssertMsg (has_block left);;
  AssertMsg (0 <? size b);;
  AssertMsg (2 * MinSize <=? size b + size left);;
  let numberOfElementsNeeded := u16 (MinSize - size b) in
  c ← deref b;
  lc ← deref left;
  c1 ← copy_within_backward c 0 (size b) numberOfElementsNeeded;
  c2 ← copy_up lc (size left - numberOfElementsNeeded) numberOfElementsNeeded c1 0;
  let b1 := set_size (set_block b (Some c2)) (u16 (size b + numberOfElementsNeeded)) in
  let left1 := set_size left (u16 (size left - numberOfElementsNeeded)) in
  AssertMsg (MinSize <=? size b1);;
  AssertMsg (MinSize <=? size left1);;
  b2 ← updateHead b1;
  Ok (b2, left1).

End definitions.
End OverallocatedPmaEntry.

(** ** What the missing assertions change: nothing that [PmaEntry] returns *)

(** [c'] returns what [c] returns; it may also return where [c] fails. *)
Definition forgets_assertions {A} (c c' : result A) : Prop := ∀ x, c = Ok x → c' = Ok x.

Lemma forgets_refl {A} (c : result A) : forgets_assertions c c.
Proof. by intros x. Qed.

Lemma forgets_bind {A B} (c : result A) (k k' : A → result B) :
  (∀ x, forgets_assertions (k x) (k' x)) → forgets_assertions (x ← c; k x) (x ← c; k' x).
Proof. intros Hk y. destruct c; cbn [mbind result_bind]; [apply Hk|done]. Qed.

(** Dropping a check in front of, or behind, a computation. *)
Lemma forgets_before {A} (check : result unit) (c c' : result A) :
  forgets_assertions c c' → forgets_assertions (check;; c) c'.
Proof. intros Hc y. destruct check; cbn [mbind result_bind]; [apply Hc|done]. Qed.

Lemma forgets_behind {A} (c : result A) (check : A → result unit) :
  forgets_assertions (x ← c; check x;; Ok x) c.
Proof. intros y. destruct c as [x|]; cbn [mbind result_bind]; [by destruct (check x)|done]. Qed.

Lemma forgets_if {A} (t : bool) (c1 c2 c1' c2' : result A) :
  forgets_assertions c1 c1' → forgets_assertions c2 c2' →
  forgets_assertions (if t then c1 else c2) (if t then c1' else c2').
Proof. by destruct t. Qed.

Section forgets.
Context `{T : SdsTypes} `{C : BlockConfig}.
Implicit Types (b : PmaEntry.PmaEntry).

(** Peels equal steps off both sides and the checks off the left one. *)
Ltac forget :=
  repeat first
    [ apply forgets_refl | apply forgets_behind
    | apply forgets_bind; intros ? | apply forgets_before | apply forgets_if ].

Lemma split_forgets b : forgets_assertions (PmaEntry.split b) (OverallocatedPmaEntry.split b).
Proof. unfold PmaEntry.split. apply forgets_before. apply forgets_refl. Qed.

Lemma remove_forgets b e : forgets_assertions (PmaEntry.remove b e) (OverallocatedPmaEntry.remove b e).
Proof. unfold PmaEntry.remove, OverallocatedPmaEntry.remove. forget. Qed.

Lemma removeLast_forgets b : forgets_assertions (PmaEntry.removeLast b) (OverallocatedPmaEntry.removeLast b).
Proof. unfold PmaEntry.removeLast, OverallocatedPmaEntry.removeLast. forget. Qed.

Lemma mergeSmaller_forgets b o :
  forgets_assertions (PmaEntry.mergeSmaller b o) (OverallocatedPmaEntry.mergeSmaller b o).
Proof. unfold PmaEntry.mergeSmaller, OverallocatedPmaEntry.mergeSmaller. forget. Qed.

Lemma steal_forgets b r : forgets_assertions (PmaEntry.steal b r) (OverallocatedPmaEntry.steal b r).
Proof. unfold PmaEntry.steal, OverallocatedPmaEntry.steal. forget. Qed.

Lemma stealFromSmaller_forgets b l :
  forgets_assertions (PmaEntry.stealFromSmaller b l) (OverallocatedPmaEntry.stealFromSmaller b l).
Proof. unfold PmaEntry.stealFromSmaller, OverallocatedPmaEntry.stealFromSmaller. forget. Qed.

End forgets.
