(* ===== verification/Gbpma.v ===== *)
(** * The overallocated batched sparse array: state and basic operations
    (dataStructures/overallocatedBatchedSparseArray.hpp)

    The state of class [OverallocatedBatchedSparseArray] is one record, which its
    operations take and return; [pma] and [swapPma] are arrays of [capacity] and
    [swapCapacity] entries.  The searches and the iterator operations have the text of the
    other array and are those of [Search.v], at this array's instance of [SparseArray];
    the number of elements below a range of blocks comes from the size manager. *)

From S2P Require Export OverallocatedBlock Float64 SizeManager Types Search.
Import PmaEntry(PmaEntry).
Import HierarchicalBlockSizeManager(HierarchicalBlockSizeManager).

(** The template parameters MAX_NUMBER_OF_THREADS and ALLOW_IN_PLACE_INSERTS. *)
Class OverallocationConfig := { MaxThreads : Z; AllowInPlaceInserts : bool }.

Module OverallocatedBatchedSparseArray.
Section definitions.
Context `{T : SdsTypes} `{C : BlockConfig} `{O : OverallocationConfig}.

Definition LogInitialArrayCapacity : Z := 12.
Definition InitialArrayCapacity : Z := 2 ^ LogInitialArrayCapacity.
Definition InitialOverallocationFactor : double := literal 18 10.

Record Sds := mkSds {
  capacity : Z;
  swapCapacity : Z;
  size : Z;
  overallocationFactor : double;
  pma : list PmaEntry;
  swapPma : list PmaEntry;
  sizeManager : HierarchicalBlockSizeManager;
  tasks : list TaskInfo;
  FasterMergeMinimum : Z;
}.

Definition set_capacity (s : Sds) (x : Z) : Sds :=
  mkSds x (swapCapacity s) (size s) (overallocationFactor s) (pma s) (swapPma s) (sizeManager s)
    (tasks s) (FasterMergeMinimum s).
Definition set_swapCapacity (s : Sds) (x : Z) : Sds :=
  mkSds (capacity s) x (size s) (overallocationFactor s) (pma s) (swapPma s) (sizeManager s)
    (tasks s) (FasterMergeMinimum s).
Definition set_size (s : Sds) (x : Z) : Sds :=
  mkSds (capacity s) (swapCapacity s) x (overallocationFactor s) (pma s) (swapPma s)
    (sizeManager s) (tasks s) (FasterMergeMinimum s).
Definition set_pma (s : Sds) (x : list PmaEntry) : Sds :=
  mkSds (capacity s) (swapCapacity s) (size s) (overallocationFactor s) x (swapPma s)
    (sizeManager s) (tasks s) (FasterMergeMinimum s).
Definition set_swapPma (s : Sds) (x : list PmaEntry) : Sds :=
  mkSds (capacity s) (swapCapacity s) (size s) (overallocationFactor s) (pma s) x (sizeManager
    s) (tasks s) (FasterMergeMinimum s).
Definition set_sizeManager (s : Sds) (x : HierarchicalBlockSizeManager) : Sds :=
  mkSds (capacity s) (swapCapacity s) (size s) (overallocationFactor s) (pma s) (swapPma s) x
    (tasks s) (FasterMergeMinimum s).
Definition set_tasks (s : Sds) (x : list TaskInfo) : Sds :=
  mkSds (capacity s) (swapCapacity s) (size s) (overallocationFactor s) (pma s) (swapPma s)
    (sizeManager s) x (FasterMergeMinimum s).

(** ** Arrays *)

Definition null_entries (n : Z) : list PmaEntry := replicate (Z.to_nat n) PmaEntry.null_entry.

(** What the size manager sees. *)
Definition sizeView (s : Sds) : SizeView := mkSizeView (size s) (PmaEntry.size <$> pma s).

(** [OverallocatedBatchedSparseArray(alloc, numThreads)]. *)
Definition create `{M : TaskMemory} : Sds :=
  mkSds InitialArrayCapacity InitialArrayCapacity 0 InitialOverallocationFactor
    (null_entries InitialArrayCapacity) (null_entries InitialArrayCapacity)
    (HierarchicalBlockSizeManager.create (mkSizeView 0 []))
    (uninitializedTasks (MaxThreads + 1)) 3.

(** [pma[i] = e], [swapPma[i] = e] and [tasks[i].f = ..]. *)
Definition write_pma (s : Sds) (i : Z) (e : PmaEntry) : result Sds :=
  a ← zset (pma s) i e; Ok (set_pma s a).
Definition write_swapPma (s : Sds) (i : Z) (e : PmaEntry) : result Sds :=
  a ← zset (swapPma s) i e; Ok (set_swapPma s a).
Definition write_task (s : Sds) (i : Z) (f : TaskInfo → TaskInfo) : result Sds :=
  t ← zget (tasks s) i;
  a ← zset (tasks s) i (f t);
  Ok (set_tasks s a).

Definition head (s : Sds) (index : Z) : result Z :=
  e ← zget (pma s) index; Ok (PmaEntry.head e).

Definition blockSize (s : Sds) (index : Z) : result Z :=
  e ← zget (pma s) index; Ok (PmaEntry.size e).

Definition empty (s : Sds) (index : Z) : result bool :=
  e ← zget (pma s) index;
  AssertMsg (Bool.eqb (PmaEntry.head e =? NULL_KEY) (PmaEntry.isEmpty e));;
  AssertMsg (Bool.eqb (PmaEntry.head e =? NULL_KEY) (PmaEntry.size e =? 0));;
  Ok (PmaEntry.head e =? NULL_KEY).

#[export] Instance sparseArray : SparseArray Sds := {|
  arr_size := size; arr_pma := pma; arr_empty := empty |}.

(** ** Queries, as in the other array *)

Definition findNext (s : Sds) (start upperLimit : Z) : result Z :=
  Search.findNext s start upperLimit.
Definition findPrevious (s : Sds) (start lowerLimit : Z) : result Z :=
  Search.findPrevious s start lowerLimit.
Definition linearSearch (s : Sds) (e lower upper : Z) : result Z :=
  Search.linearSearch s e lower upper.
Definition binarySearch (s : Sds) (e lower upper : Z) : result Z :=
  Search.binarySearch s e lower upper.
Definition exponentialSearch (s : Sds) (e lower upper : Z) : result Z :=
  Search.exponentialSearch s e lower upper.
Definition findContainingBlock (s : Sds) (e : Z) : result Z := Search.findContainingBlock s e.
Definition findBlockIndex (s : Sds) (e : Z) : result Z := Search.findBlockIndex s e.
Definition contains (s : Sds) (e : Z) : result bool := Search.contains s e.
Definition find (s : Sds) (e : Z) : result Iterator.iterator := Iterator.find s e.
Definition lowerBound (s : Sds) (e : Z) : result Iterator.iterator := Iterator.lowerBound s e.
Definition rangeQuery (s : Sds) (left right : Z) (fuel : nat) : result (list ValueType) :=
  Iterator.rangeQuery s left right fuel.
Definition begin_ (s : Sds) : result Iterator.iterator := Iterator.begin_ s.
Definition end_ (s : Sds) : Iterator.iterator := Iterator.end_ s.

(** ** The size manager of the array *)

Definition adjustBlockSize (s : Sds) (blockIndex oldSize newSize : Z) : result Sds :=
  m ← HierarchicalBlockSizeManager.adjustBlockSize (sizeManager s) blockIndex oldSize newSize;
  Ok (set_sizeManager s m).
Definition shiftLeft (s : Sds) (left right : Z) : result Sds :=
  m ← HierarchicalBlockSizeManager.shiftLeft (sizeManager s) (sizeView s) left right;
  Ok (set_sizeManager s m).
Definition shiftRight (s : Sds) (left right : Z) : result Sds :=
  m ← HierarchicalBlockSizeManager.shiftRight (sizeManager s) (sizeView s) left right;
  Ok (set_sizeManager s m).
Definition recompute (s : Sds) (numberOfThreads : Z) : result Sds :=
  m ← HierarchicalBlockSizeManager.recompute (sizeManager s) (sizeView s) numberOfThreads;
  Ok (set_sizeManager s m).
Definition getNumberOfElements (s : Sds) (left right : Z) : result Z :=
  HierarchicalBlockSizeManager.getNumberOfElements (sizeManager s) (sizeView s) left right.

(** ** Sizes *)

Definition resizeMainPma (s : Sds) : Sds :=
  if negb (swapCapacity s =? capacity s) then
    set_capacity (set_pma s (null_entries (swapCapacity s))) (swapCapacity s)
  else s.

(** [while (c <= newSize) c *= 2] for a positive [c]. *)
Definition doubleBeyond (c newSize : Z) : result Z :=
  while (S (Z.to_nat (newSize + 1))) (λ c, Ok (c <=? newSize)) (λ c, Ok (c * 2)) c.

Definition increaseSize (s : Sds) (newSize : Z) : result Sds :=
  s ← (if swapCapacity s <=? newSize then
         c ← doubleBeyond (swapCapacity s) newSize;
         Ok (set_swapPma (set_swapCapacity s c) (null_entries c))
       else Ok s);
  Ok (set_size s newSize).

Definition maxRedistributionWidth (numberOfElements newElements : Z) : result Z :=
  AssertMsg ((0 <=? numberOfElements) && (0 <=? newElements));;
  let newNumberOfElements := numberOfElements + newElements in
  Ok (if newNumberOfElements =? 0 then 0 else newNumberOfElements ÷ MinSize + 1).

Definition getDenseWriteIndex (outputStart blockNumber : Z) : Z := outputStart + blockNumber.

Definition getUniformWriteIndex (outputStart blockNumber outputLength numberOfBlocks : Z)
    : result Z :=
  AssertMsg (blockNumber <? numberOfBlocks);;
  Ok (outputStart + (blockNumber * outputLength) ÷ numberOfBlocks).

(** ** Writing a block *)

(** [writeBlock(block, outputStart, blockNumber)]. *)
Definition writeBlock (s : Sds) (block : PmaEntry) (outputStart blockNumber : Z) : result Sds :=
  AssertMsg (negb (PmaEntry.isEmpty block));;
  let writeIndex := getDenseWriteIndex outputStart blockNumber in
  AssertMsg (writeIndex <? swapCapacity s);;
  AssertMsg (writeIndex <? size s);;
  AssertM (old ← zget (swapPma s) writeIndex; Ok (PmaEntry.isEmpty old));;
  write_swapPma s writeIndex block.

(** [writeBlock(blockIndex, outputStart, blockNumber)]: moves a block of the pma. *)
Definition moveBlock (s : Sds) (blockIndex outputStart blockNumber : Z) : result Sds :=
  block ← zget (pma s) blockIndex;
  s ← writeBlock s block outputStart blockNumber;
  write_pma s blockIndex PmaEntry.null_entry.

(** [while (shift < right && carry.block != nullptr) { swap(pma[shift], carry); ++shift; }];
    the state is the array, [shift] and [carry]. *)
Definition shiftUp (a : list PmaEntry) (shift right : Z) (carry : PmaEntry)
    : result (list PmaEntry * Z * PmaEntry) :=
  while (S (Z.to_nat (right - shift)))
    (λ '(_, shift, carry), Ok ((shift <? right) && PmaEntry.has_block carry))
    (λ '(a, shift, carry),
       old ← zget a shift;
       a ← zset a shift carry;
       Ok (a, shift + 1, old)) (a, shift, carry).

(** The same towards [left]. *)
Definition shiftDown (a : list PmaEntry) (shift left : Z) (carry : PmaEntry)
    : result (list PmaEntry * Z * PmaEntry) :=
  while (S (Z.to_nat (shift + 1 - left)))
    (λ '(_, shift, carry), Ok ((left <=? shift) && PmaEntry.has_block carry))
    (λ '(a, shift, carry),
       old ← zget a shift;
       a ← zset a shift carry;
       Ok (a, shift - 1, old)) (a, shift, carry).

(** [targetIndex] is occupied: make space to the right or else to the left of it. *)
Definition writeBlockShifting (s : Sds) (newBlock : PmaEntry) (targetIndex : Z)
    (pmaRange : Interval) : result (Sds * Z) :=
  '(a, shift, carry) ← shiftUp (pma s) targetIndex (Interval.right pmaRange) newBlock;
  if negb (PmaEntry.has_block carry) then
    let s := set_pma s a in
    s ← adjustBlockSize s targetIndex 0 (PmaEntry.size newBlock);
    s ← shiftRight s (targetIndex + 1) (shift - 1);
    Ok (s, targetIndex)
  else
    AssertMsg (shift =? Interval.right pmaRange);;
    '(a, shift, _) ← shiftDown a (Interval.right pmaRange - 1) (Interval.left pmaRange) carry;
    let s := set_pma s a in
    let insertionIndex := targetIndex - 1 in
    s ← adjustBlockSize s insertionIndex 0 (PmaEntry.size newBlock);
    s ← shiftLeft s (shift + 1) (insertionIndex - 1);
    Ok (s, insertionIndex).

(** Returns the index that the block was written to. *)
Definition writeBlockInPlace (s : Sds) (newBlock : PmaEntry) (targetIndex : Z)
    (pmaRange : Interval) : result (Sds * Z) :=
  AssertMsg (Interval.right pmaRange <=? size s);;
  AssertMsg ((Interval.left pmaRange <=? targetIndex) && (targetIndex <=? Interval.right pmaRange));;
  if targetIndex =? Interval.right pmaRange then
    '(a, shift, carry) ← shiftDown (pma s) (targetIndex - 1) (Interval.left pmaRange) newBlock;
    let s := set_pma s a in
    AssertMsg (negb (PmaEntry.has_block carry));;
    s ← adjustBlockSize s (targetIndex - 1) 0 (PmaEntry.size newBlock);
    s ← shiftLeft s (shift + 1) (targetIndex - 2);
    Ok (s, targetIndex - 1)
  else
    isFree ← empty s targetIndex;
    '(s, insertionIndex) ←
      (if negb isFree then writeBlockShifting s newBlock targetIndex pmaRange
       else
         s ← adjustBlockSize s targetIndex 0 (PmaEntry.size newBlock);
         s ← write_pma s targetIndex newBlock;
         Ok (s, targetIndex));
    AssertM (e ← zget (pma s) insertionIndex; v ← PmaEntry.get e 0;
             Ok (PmaEntry.head e =? keyOfValue v));;
    Ok (s, insertionIndex).

(** ** Counting and validation *)

Definition numberOfElements (s : Sds) : result Z :=
  for_range 0 (size s)
    (λ i n, b ← empty s i;
            if b : bool then Ok n else k ← blockSize s i; Ok (n + k)) 0.

Definition numberOfBlocks (s : Sds) : result Z :=
  for_range 0 (size s)
    (λ i n, b ← empty s i; Ok (if b : bool then n else n + 1)) 0.

(** The elements of an entry in [isValid] and [validateSwapPma]: [smaller] is the order
    test of the function; [None] once an element does not exceed the previous one,
    otherwise the last key. *)
Definition validElements (smaller : Z → Z → bool) (e : PmaEntry) (currentElement : Z)
    : result (option Z) :=
  for_range 0 (PmaEntry.size e)
    (λ j acc,
       match acc with
       | None => Ok None
       | Some currentElement =>
           v ← PmaEntry.get e j;
           let element := keyOfValue v in
           if smaller element currentElement || (element =? currentElement) then
             AssertMsg false;; Ok None
           else Ok (Some element)
       end) (Some currentElement).

(** The checks of a block behind those of its size. *)
Definition validBlock (smaller : Z → Z → bool) (e : PmaEntry) (currentHead currentElement : Z)
    : result (option (Z * Z)) :=
  if smaller (PmaEntry.head e) currentHead || (PmaEntry.head e =? currentHead) then
    AssertMsg false;; Ok None
  else
    v ← PmaEntry.get e 0;
    if negb (PmaEntry.head e =? keyOfValue v) then AssertMsg false;; Ok None
    else
      r ← validElements smaller e currentElement;
      Ok (r ← r; Some (PmaEntry.head e, r)).

(** One cell of the pma in [isValid]; the state is [currentHead] and [currentElement]. *)
Definition validCell (s : Sds) (i currentHead currentElement : Z) : result (option (Z * Z)) :=
  b ← empty s i;
  e ← zget (pma s) i;
  if negb b then
    AssertMsg (PmaEntry.size e <=? MaxSize);;
    AssertMsg (MinSize <=? PmaEntry.size e);;
    if (MaxSize <? PmaEntry.size e) || (PmaEntry.size e <? MinSize) then Ok None
    else validBlock comp e currentHead currentElement
  else
    AssertMsg (PmaEntry.isEmpty e && (PmaEntry.size e =? 0));;
    if negb (PmaEntry.isEmpty e) || negb (PmaEntry.size e =? 0) then Ok None
    else Ok (Some (currentHead, currentElement)).

Definition isValid (s : Sds) : result bool :=
  r ← for_range 0 (capacity s)
    (λ i acc,
       match acc with
       | None => Ok None
       | Some (currentHead, currentElement) => validCell s i currentHead currentElement
       end) (Some (NULL_KEY, NULL_KEY));
  Ok (match r with Some _ => true | None => false end).

(** [validateSwapPma] compares with [<=], not with the comparator. *)
Definition validateSwapPma (s : Sds) : result bool :=
  r ← for_range 0 (capacity s)
    (λ i acc,
       match acc with
       | None => Ok None
       | Some (currentHead, currentElement) =>
           e ← zget (swapPma s) i;
           if PmaEntry.has_block e then validBlock Z.leb e currentHead currentElement
           else
             AssertMsg (negb (PmaEntry.has_block e) && (PmaEntry.size e =? 0));;
             if PmaEntry.has_block e || negb (PmaEntry.size e =? 0) then Ok None
             else Ok acc
       end) (Some (NULL_KEY, NULL_KEY));
  Ok (match r with Some _ => true | None => false end).

Definition validateTaskDistribution (s : Sds) (numberOfThreads batchSize : Z) (isInPlace : bool)
    : result unit :=
  t0 ← zget (tasks s) 0;
  AssertMsg (firstBatchElement t0 =? 0);;
  for_range 0 (numberOfThreads + 1)
    (λ thread _,
       t ← zget (tasks s) thread;
       if negb isInPlace && is_type (type t) INVERSE_MERGE then
         AssertMsg (mergedTasks t <? numberOfThreads);;
         AssertMsg (mergedTaskIndex t <? mergedTasks t)
       else Ok tt) tt;;
  t ← zget (tasks s) numberOfThreads;
  AssertMsg (firstBatchElement t =? batchSize);;
  AssertMsg (blockForBatchSplitter t =? size s).

(** [batchSorted]: [None] once an element is smaller than its predecessor. *)
Definition batchSorted (batch : list ValueType) (batchSize : Z) : result bool :=
  r ← for_range 0 batchSize
    (λ i acc,
       match acc with
       | None => Ok None
       | Some last =>
           v ← zget batch i;
           Ok (if comp (keyOfValue v) last then None else Some (keyOfValue v))
       end) (Some NULL_KEY);
  Ok (match r with Some _ => true | None => false end).

(** The destructor: the pma without its blocks. *)
Definition destroy (s : Sds) : result Sds :=
  for_range 0 (size s)
    (λ i s,
       e ← zget (pma s) i;
       if negb (PmaEntry.isEmpty e) then
         e ← OverallocatedPmaEntry.deleteBlock e; write_pma s i e
       else Ok s) s.

End definitions.
End OverallocatedBatchedSparseArray.
