(* ===== verification/GbpmaInsert.v ===== *)
(** * The overallocated batched sparse array: inserting a range of a batch
    (dataStructures/overallocatedBatchedSparseArray.hpp, lines 308-706)

    An insertion task works in place, inside the range of the pma that it reads, or moves
    all blocks of its range to [swapPma] while it merges batch elements into them.  The
    template parameter WRITE_TO_SWAP chooses between the two and is an argument here;
    [batchIndex], a reference parameter of the code, is passed in and returned. *)

From S2P Require Export Gbpma.
Import OverallocatedBatchedSparseArray.

Module OverallocatedInsertion.
Section definitions.
Context `{T : SdsTypes} `{C : BlockConfig} `{O : OverallocationConfig}.
Implicit Types (s : Sds) (batch : list ValueType).

(** [KeyOf::keyOfValue(batch[i])]. *)
Definition batchKey batch (i : Z) : result Z := v ← zget batch i; Ok (keyOfValue v).

Definition findLastBatchElementForBlock s batch (batchIndex : Z) (batchRange : Interval)
    (nextBlockIndex : Z) (pmaRange : Interval) : result Z :=
  if nextBlockIndex =? Interval.right pmaRange then Ok (Interval.right batchRange) else
  while (S (Z.to_nat (Interval.right batchRange - batchIndex)))
    (λ lastBlockElement,
       if lastBlockElement <? Interval.right batchRange then
         k ← batchKey batch lastBlockElement; h ← head s nextBlockIndex; Ok (comp k h)
       else Ok false)
    (λ lastBlockElement, Ok (lastBlockElement + 1)) batchIndex.

Definition insertIntoBlockWithoutSplit s (blockIndex : Z) batch (batchIndex lastBlockElement : Z)
    : result (Sds * Z) :=
  oldSize ← blockSize s blockIndex;
  let numberOfInsertions := u16 (lastBlockElement - batchIndex) in
  e ← zget (pma s) blockIndex;
  e ← (if FasterMergeMinimum s <=? numberOfInsertions
       then OverallocatedPmaEntry.mergeFaster e batch batchIndex numberOfInsertions
       else OverallocatedPmaEntry.merge e batch batchIndex numberOfInsertions);
  s ← write_pma s blockIndex e;
  s ← adjustBlockSize s blockIndex oldSize (PmaEntry.size e);
  Ok (s, lastBlockElement).

(** [insertionBlock] leaves the loop: to the next cell of [swapPma], or to the pma.
    Returns the state, [insertionBlockIndex] and [outputBlockNumber]. *)
Definition outputBlock (WRITE_TO_SWAP : bool) s (insertionBlock : PmaEntry.PmaEntry)
    (insertionBlockIndex : Z) (pmaOutputRange : Interval) (outputBlockNumber : Z)
    : result (Sds * Z * Z) :=
  if WRITE_TO_SWAP then
    s ← writeBlock s insertionBlock (Interval.left pmaOutputRange) outputBlockNumber;
    Ok (s, insertionBlockIndex, outputBlockNumber + 1)
  else
    '(s, i) ← writeBlockInPlace s insertionBlock insertionBlockIndex pmaOutputRange;
    Ok (s, 1 + i, outputBlockNumber).

(** The local variables of the loop of [insertIntoBlockWithSplit]. *)
Record SplitState := mkSplitState {
  insertionBlock : PmaEntry.PmaEntry;
  rightHalf : PmaEntry.PmaEntry;
  insertionBlockIndex : Z;
  lastInsertionIndex : Z;
  split_batchIndex : Z;
  outputBlockNumber : Z;
}.

Definition splitLoopBody (WRITE_TO_SWAP : bool) batch (pmaOutputRange : Interval)
    (st : Sds * SplitState) : result (Sds * SplitState) :=
  let '(s, mkSplitState block half blockIndex last batchIndex out) := st in
  e ← zget batch batchIndex;
  let toRight := negb (PmaEntry.isEmpty half) &&
    (comp (PmaEntry.head half) (keyOfValue e) || (keyOfValue e =? PmaEntry.head half)) in
  '(s, block, half, blockIndex, last, out) ←
    (if toRight then
       '(s, blockIndex, out) ← outputBlock WRITE_TO_SWAP s block blockIndex pmaOutputRange out;
       Ok (s, half, PmaEntry.null_entry, blockIndex, 0, out)
     else Ok (s, block, half, blockIndex, last, out));
  if PmaEntry.size block <? MaxSize then
    '(block, (_, last)) ← OverallocatedPmaEntry.insertWithIndex block e last;
    Ok (s, mkSplitState block half blockIndex last (batchIndex + 1) out)
  else
    '(block, newBlock) ← OverallocatedPmaEntry.split block;
    if negb (PmaEntry.isEmpty half) then
      '(s, blockIndex, out) ← outputBlock WRITE_TO_SWAP s block blockIndex pmaOutputRange out;
      Ok (s, mkSplitState newBlock half blockIndex 0 batchIndex out)
    else Ok (s, mkSplitState block newBlock blockIndex last batchIndex out).

Definition splitLoop (WRITE_TO_SWAP : bool) batch (pmaOutputRange : Interval)
    (lastBlockElement : Z) (st : Sds * SplitState) : result (Sds * SplitState) :=
  while (S (Z.to_nat (2 * (lastBlockElement - split_batchIndex st.2))))
    (λ st, Ok (split_batchIndex st.2 <? lastBlockElement))
    (splitLoopBody WRITE_TO_SWAP batch pmaOutputRange) st.

(** Returns the state, [batchIndex] and the number of the next output block. *)
Definition insertIntoBlockWithSplit (WRITE_TO_SWAP : bool) s (blockIndex : Z) batch
    (batchIndex lastBlockElement : Z) (pmaOutputRange : Interval) (out : Z)
    : result (Sds * Z * Z) :=
  e ← zget (pma s) blockIndex;
  s ← adjustBlockSize s blockIndex (PmaEntry.size e) 0;
  s ← write_pma s blockIndex PmaEntry.null_entry;
  '(s, st) ← splitLoop WRITE_TO_SWAP batch pmaOutputRange lastBlockElement
    (s, mkSplitState e PmaEntry.null_entry blockIndex 0 batchIndex out);
  '(s, blockIndex, out) ← outputBlock WRITE_TO_SWAP s (insertionBlock st) (insertionBlockIndex st)
    pmaOutputRange (outputBlockNumber st);
  '(s, out) ←
    (if negb (PmaEntry.isEmpty (rightHalf st)) then
       '(s, _, out) ← outputBlock WRITE_TO_SWAP s (rightHalf st) blockIndex pmaOutputRange out;
       Ok (s, out)
     else Ok (s, out));
  Ok (s, split_batchIndex st, out).

Definition insertElementsIntoBlockWithPrecalculatedInsertionWidths (WRITE_TO_SWAP : bool) s
    (blockIndex nextBlockIndex : Z) (pmaInputRange pmaOutputRange : Interval) (out : Z) batch
    (batchIndex : Z) (batchRange : Interval) : result (Sds * Z * Z) :=
  lastBlockElement ← findLastBatchElementForBlock s batch batchIndex batchRange nextBlockIndex
    pmaInputRange;
  let elementsInBlock := lastBlockElement - batchIndex in
  AssertMsg (0 <? elementsInBlock);;
  n ← blockSize s blockIndex;
  if n + elementsInBlock <=? MaxSize then
    '(s, batchIndex) ← insertIntoBlockWithoutSplit s blockIndex batch batchIndex lastBlockElement;
    if WRITE_TO_SWAP then
      s ← moveBlock s blockIndex (Interval.left pmaOutputRange) out;
      Ok (s, batchIndex, out + 1)
    else Ok (s, batchIndex, out)
  else
    insertIntoBlockWithSplit WRITE_TO_SWAP s blockIndex batch batchIndex lastBlockElement
      pmaOutputRange out.

(** [UsePrecalculatedInsertionLengths] is set. *)
Definition insertElementsIntoBlock (WRITE_TO_SWAP : bool) s (blockIndex nextBlockIndex : Z)
    (pmaInputRange pmaOutputRange : Interval) batch (batchIndex : Z) (batchRange : Interval)
    (out : Z) : result (Sds * Z * Z) :=
  insertElementsIntoBlockWithPrecalculatedInsertionWidths WRITE_TO_SWAP s blockIndex
    nextBlockIndex pmaInputRange pmaOutputRange out batch batchIndex batchRange.

(** [insertBatchRange(batch, batchRange, pmaRange)]: in place. *)
Definition insertBatchRange s batch (batchRange pmaRange : Interval) : result Sds :=
  '(s, batchIndex, _) ←
    while (S (Z.to_nat (Interval.length batchRange)))
      (λ '(_, batchIndex, _), Ok (batchIndex <? Interval.right batchRange))
      (λ '(s, batchIndex, blockIndex),
         k ← batchKey batch batchIndex;
         blockIndex ← exponentialSearch s k blockIndex (Interval.right pmaRange);
         nextBlockIndex ← findNext s blockIndex (Interval.right pmaRange);
         AssertM (r ← linearSearch s k blockIndex (Interval.right pmaRange);
                  Ok (blockIndex =? r));;
         '(s, batchIndex, _) ← insertElementsIntoBlock false s blockIndex nextBlockIndex pmaRange
            pmaRange batch batchIndex batchRange 0;
         Ok (s, batchIndex, blockIndex))
      (s, Interval.left batchRange, Interval.left pmaRange);
  AssertMsg (batchIndex =? Interval.right batchRange);;
  Ok s.

(** A full insertion block of [insertIntoEmptyRange] moves to [swapPma]; the next one is
    its upper half when fewer than [MinBlockSize] elements follow. *)
Definition nextInsertionBlock s (block : PmaEntry.PmaEntry) (remainingElements : Z)
    (pmaOutputRange : Interval) (out : Z) : result (Sds * PmaEntry.PmaEntry) :=
  '(block, newBlock) ←
    (if (0 <? remainingElements) && (remainingElements <? MinSize)
     then OverallocatedPmaEntry.split block
     else
       newBlock ← OverallocatedPmaEntry.allocateBlock PmaEntry.null_entry;
       Ok (block, newBlock));
  s ← writeBlock s block (Interval.left pmaOutputRange) out;
  Ok (s, newBlock).

(** The insertion block left at the end is written unless it is empty. *)
Definition lastInsertionBlock s (block : PmaEntry.PmaEntry) (pmaOutputRange : Interval) (out : Z)
    : result (Sds * Z) :=
  if 0 <? PmaEntry.size block then
    s ← writeBlock s block (Interval.left pmaOutputRange) out;
    Ok (s, out + 1)
  else
    block ← OverallocatedPmaEntry.deleteBlock block;
    Ok (s, out).

(** The break of the loop is not reachable: its condition contradicts the loop condition. *)
Definition emptyRangeBody batch (batchRange pmaOutputRange : Interval)
    (st : Sds * PmaEntry.PmaEntry * Z * Z) : result (Sds * PmaEntry.PmaEntry * Z * Z) :=
  let '(s, block, batchIndex, out) := st in
  '(s, block, out) ←
    (if PmaEntry.size block =? MaxSize then
       '(s, newBlock) ← nextInsertionBlock s block (Interval.right batchRange - batchIndex)
          pmaOutputRange out;
       Ok (s, newBlock, out + 1)
     else Ok (s, block, out));
  let numberOfInsertions := Z.min MaxSize (Interval.right batchRange - batchIndex) in
  block ← OverallocatedPmaEntry.mergeFaster block batch batchIndex (u16 numberOfInsertions);
  Ok (s, block, batchIndex + numberOfInsertions, out).

Definition insertIntoEmptyRange s batch (batchRange : Interval) (batchIndex : Z)
    (pmaOutputRange : Interval) (out : Z) : result (Sds * Z * Z) :=
  block ← OverallocatedPmaEntry.allocateBlock PmaEntry.null_entry;
  '(s, block, batchIndex, out) ←
    while (S (Z.to_nat (Interval.right batchRange - batchIndex)))
      (λ '(_, _, batchIndex, _), Ok (batchIndex <? Interval.right batchRange))
      (emptyRangeBody batch batchRange pmaOutputRange)
      (s, block, batchIndex, out);
  '(s, out) ← lastInsertionBlock s block pmaOutputRange out;
  AssertMsg (batchIndex =? Interval.right batchRange);;
  Ok (s, batchIndex, out).

(** [comp(key(batch[batchIndex]), head(nextBlockIndex)) || empty(nextBlockIndex)]. *)
Definition belongsBefore s batch (batchIndex nextBlockIndex : Z) : result bool :=
  k ← batchKey batch batchIndex;
  h ← head s nextBlockIndex;
  if comp k h then Ok true else empty s nextBlockIndex.

(** One block of the input range, moved to [swapPma]; the state is [batchIndex],
    [blockIndex], [nextBlockIndex] and [outputBlockNumber]. *)
Definition outOfPlaceBody batch (batchRange pmaInputRange pmaOutputRange : Interval)
    (st : Sds * Z * Z * Z * Z) : result (Sds * Z * Z * Z * Z) :=
  let '(s, batchIndex, blockIndex, nextBlockIndex, out) := st in
  insertHere ← (if batchIndex <? Interval.right batchRange
                then belongsBefore s batch batchIndex nextBlockIndex else Ok false);
  '(s, batchIndex, out) ←
    (if insertHere : bool then
       AssertMsg (blockIndex <? Interval.right pmaInputRange);;
       insertElementsIntoBlock true s blockIndex nextBlockIndex pmaInputRange pmaOutputRange
         batch batchIndex batchRange out
     else
       s ← moveBlock s blockIndex (Interval.left pmaOutputRange) out;
       Ok (s, batchIndex, out + 1));
  next ← findNext s nextBlockIndex (Interval.right pmaInputRange);
  Ok (s, batchIndex, nextBlockIndex, next, out).

(** [insertBatchRange(batch, batchRange, pmaInputRange, pmaOutputRange)]: returns the state
    and the number of blocks written to [swapPma]. *)
Definition insertBatchRangeOutOfPlace s batch (batchRange pmaInputRange pmaOutputRange : Interval)
    : result (Sds * Z) :=
  AssertM (if Interval.length pmaInputRange =? 0 then Ok true else
             b ← empty s (Interval.left pmaInputRange); Ok (negb b));;
  nextBlockIndex ← findNext s (Interval.left pmaInputRange) (Interval.right pmaInputRange);
  '(s, batchIndex, _, _, out) ←
    while (S (Z.to_nat (Interval.length pmaInputRange)))
      (λ '(_, _, blockIndex, _, _), Ok (blockIndex <? Interval.right pmaInputRange))
      (outOfPlaceBody batch batchRange pmaInputRange pmaOutputRange)
      (s, Interval.left batchRange, Interval.left pmaInputRange, nextBlockIndex, 0);
  if Interval.length pmaInputRange =? 0 then
    '(s, _, out) ← insertIntoEmptyRange s batch batchRange batchIndex pmaOutputRange out;
    Ok (s, out)
  else
    AssertMsg (batchIndex =? Interval.right batchRange);;
    Ok (s, out).

(** ** Inverse merge *)

(** [while (key(batch[batchIndex]) == lastWrittenKey) ++batchIndex]: without a bound on
    [batchIndex] but the end of the batch, behind which the access is a fault. *)
Definition skipWritten batch (batchIndex lastWrittenKey : Z) : result Z :=
  while (S (Z.to_nat (zlen batch - batchIndex)))
    (λ batchIndex, k ← batchKey batch batchIndex; Ok (k =? lastWrittenKey))
    (λ batchIndex, Ok (batchIndex + 1)) batchIndex.

(** [insertionBlock.insertWithIndex(v, insertionBlock.size)]. *)
Definition append (block : PmaEntry.PmaEntry) (v : ValueType) : result PmaEntry.PmaEntry :=
  '(block, _) ← OverallocatedPmaEntry.insertWithIndex block v (PmaEntry.size block);
  Ok block.

(** The local variables of the loop: the insertion block, [batchIndex], [readIndex] and
    [lastWrittenKey]. *)
Definition InverseState : Type := PmaEntry.PmaEntry * Z * Z * Z.

(** One element, the smaller of the next ones of the block and of the batch. *)
Definition inverseStep (cells : PmaEntry.PmaEntry) batch (st : InverseState) : result InverseState :=
  let '(block, batchIndex, readIndex, lastWrittenKey) := st in
  v ← OverallocatedPmaEntry.get cells readIndex;
  e ← zget batch batchIndex;
  if comp (keyOfValue v) (keyOfValue e) then
    block ← append block v;
    Ok (block, batchIndex, u16 (readIndex + 1), keyOfValue v)
  else if keyOfValue v =? keyOfValue e then
    block ← append block v;
    Ok (block, batchIndex + 1, u16 (readIndex + 1), keyOfValue v)
  else if negb (keyOfValue e =? lastWrittenKey) then
    block ← append block e;
    Ok (block, batchIndex + 1, readIndex, keyOfValue e)
  else Ok (block, batchIndex + 1, readIndex, lastWrittenKey).

(** The insertions of one iteration. *)
Definition inverseInsert s batch (batchRange mergeRange : Interval) (mergeBlock : Z)
    (st : InverseState) : result InverseState :=
  let '(block, batchIndex, readIndex, lastWrittenKey) := st in
  if (batchIndex <? Interval.right batchRange) && (readIndex <? Interval.right mergeRange) then
    cells ← zget (pma s) mergeBlock;
    inverseStep cells batch st
  else if (batchIndex <? Interval.right batchRange) && (Interval.right mergeRange <=? readIndex) then
    batchIndex ← skipWritten batch batchIndex lastWrittenKey;
    let numberOfInsertions :=
      Z.min (MaxSize - PmaEntry.size block) (Interval.right batchRange - batchIndex) in
    block ← OverallocatedPmaEntry.merge block batch batchIndex (u16 numberOfInsertions);
    Ok (block, batchIndex + numberOfInsertions, readIndex, lastWrittenKey)
  else if (Interval.right batchRange <=? batchIndex) && (readIndex <? Interval.right mergeRange) then
    let numberOfInsertions := Z.min (u16 (MaxSize - PmaEntry.size block))
      (u16 (Interval.right mergeRange - readIndex)) in
    cells ← zget (pma s) mergeBlock;
    c ← PmaEntry.deref cells;
    block ← OverallocatedPmaEntry.merge block c readIndex numberOfInsertions;
    Ok (block, batchIndex, u16 (readIndex + numberOfInsertions), lastWrittenKey)
  else
    AssertMsg false;;
    Ok st.

Definition inverseBody batch (batchRange mergeRange : Interval) (mergeBlock : Z)
    (pmaOutputRange : Interval) (st : Sds * InverseState * Z) : result (Sds * InverseState * Z) :=
  let '(s, (block, batchIndex, readIndex, lastWrittenKey), out) := st in
  '(s, block, out) ←
    (if PmaEntry.size block =? MaxSize then
       newBlock ← OverallocatedPmaEntry.allocateBlock PmaEntry.null_entry;
       s ← writeBlock s block (Interval.left pmaOutputRange) out;
       Ok (s, newBlock, out + 1)
     else Ok (s, block, out));
  st ← inverseInsert s batch batchRange mergeRange mergeBlock
    (block, batchIndex, readIndex, lastWrittenKey);
  Ok (s, st, out).

Definition inverseMerge s batch (batchRange mergeRange pmaInputRange pmaOutputRange : Interval)
    : result (Sds * Z) :=
  let mergeBlock := Interval.left pmaInputRange in
  block ← OverallocatedPmaEntry.allocateBlock PmaEntry.null_entry;
  '(s, (block, batchIndex, readIndex, _), out) ←
    while (S (Z.to_nat (Interval.length batchRange + Interval.length mergeRange)))
      (λ '(_, (_, batchIndex, readIndex, _), _),
         Ok ((batchIndex <? Interval.right batchRange) || (readIndex <? Interval.right mergeRange)))
      (inverseBody batch batchRange mergeRange mergeBlock pmaOutputRange)
      (s, (block, Interval.left batchRange, u16 (Interval.left mergeRange), NULL_KEY), 0);
  '(s, out) ← lastInsertionBlock s block pmaOutputRange out;
  AssertMsg (batchIndex =? Interval.right batchRange);;
  AssertMsg (readIndex =? Interval.right mergeRange);;
  Ok (s, out).

(** ** The start of a task's part of the batch: a linear search downwards *)

Definition findFirstBatchElement batch (startIndex blockHead : Z) : result Z :=
  r ← while (S (Z.to_nat (startIndex + 1)))
    (λ i, if 0 <=? i then
            k ← batchKey batch i; Ok (comp blockHead k || (k =? blockHead))
          else Ok false)
    (λ i, Ok (i - 1)) startIndex;
  Ok (r + 1).

(** [std::unique] on a copy of the batch: of equal neighbours the first is kept. *)
Fixpoint unique (l : list ValueType) : list ValueType :=
  match l with
  | [] => []
  | v :: l' =>
      match unique l' with
      | w :: rest => if keyOfValue v =? keyOfValue w then v :: rest else v :: w :: rest
      | [] => [v]
      end
  end.

Definition deduplicate batch (batchSize : Z) : result (list ValueType * Z) :=
  newBatch ← copy_up batch 0 batchSize (replicate (Z.to_nat batchSize) indeterminate) 0;
  let newEnd := unique newBatch in
  Ok (newEnd, zlen newEnd).

End definitions.
End OverallocatedInsertion.
