(* ===== verification/GbpmaDistribute.v ===== *)
(** * The overallocated batched sparse array: batch insertion
    (dataStructures/overallocatedBatchedSparseArray.hpp, lines 112-246 and 864-1116)

    [insertBatch]: distributing a batch to the threads, the decision between inserting in
    place and rewriting the whole array, the tasks of the threads, the clean-up after
    inverse merges and the uniform redistribution.  The threads of a parallel region work
    on disjoint parts of the state; they run one after the other here. *)

From S2P Require Export GbpmaInsert.
Import OverallocatedBatchedSparseArray OverallocatedInsertion.

Module OverallocatedDistribution.
Section definitions.
Context `{T : SdsTypes} `{C : BlockConfig} `{O : OverallocationConfig}.
Implicit Types (s : Sds) (batch : list ValueType).

(** ** Distribution *)

(** The block of the splitter of a thread, and the first batch element of its task. *)
Definition splitterBlock s batch (splitterDistance thread : Z) : result Z :=
  k ← batchKey batch (thread * splitterDistance);
  findBlockIndex s k.

Definition splitterElement s batch (splitterDistance thread block : Z) : result Z :=
  h ← head s block;
  findFirstBatchElement batch (thread * splitterDistance) h.

(** 1. for one thread. *)
Definition findTask batch (batchSize splitterDistance numberOfThreads : Z) (thread : Z) s
    : result Sds :=
  block ← splitterBlock s batch splitterDistance thread;
  s ← write_task s thread (λ t, set_blockForBatchSplitter t block);
  first ← splitterElement s batch splitterDistance thread block;
  s ← write_task s thread (λ t, set_firstBatchElement t first);
  '(nextBlock, nextFirst) ←
    (if thread =? numberOfThreads - 1 then Ok (size s, batchSize)
     else
       nextBlock ← splitterBlock s batch splitterDistance (thread + 1);
       nextFirst ← splitterElement s batch splitterDistance (thread + 1) nextBlock;
       Ok (nextBlock, nextFirst));
  numberOfOldElements ← getNumberOfElements s block nextBlock;
  width ← maxRedistributionWidth numberOfOldElements (nextFirst - first);
  write_task s thread (λ t, set_requiredWidth t width).

Definition findTasks s batch (batchSize numberOfThreads : Z) : result Sds :=
  let splitterDistance := batchSize ÷ numberOfThreads in
  s ← write_task s numberOfThreads
        (λ t, set_firstBatchElement (set_blockForBatchSplitter t (size s)) batchSize);
  for_range 0 numberOfThreads (findTask batch batchSize splitterDistance numberOfThreads) s.

(** 2. for one thread; the state has [mergedTasks] and [hasMergedTask]. *)
Definition mergeTask (thread : Z) (st : Sds * Z * bool) : result (Sds * Z * bool) :=
  let '(s, merged, hasMergedTask) := st in
  t ← zget (tasks s) thread;
  previous ← zget (tasks s) (thread - 1);
  if blockForBatchSplitter t =? blockForBatchSplitter previous then
    s ← write_task s thread (λ t, set_type (set_firstBatchElement t (firstBatchElement previous)) INSERTION);
    s ← write_task s (thread - 1) (λ t, set_type t INVERSE_MERGE);
    let merged := merged + 1 in
    s ← write_task s thread (λ t, set_mergedTasks t merged);
    s ← write_task s (thread - 1) (λ t, set_requiredWidth t 0);
    Ok (s, merged, true)
  else
    s ← write_task s thread (λ t, set_mergedTasks (set_type t INSERTION) 0);
    Ok (s, 0, hasMergedTask).

Definition mergeTasks s (numberOfThreads : Z) : result (Sds * bool) :=
  s ← write_task s 0 (λ t, set_type (set_firstBatchElement t 0) INSERTION);
  '(s, _, hasMergedTask) ← for_range 1 numberOfThreads mergeTask (s, 0, false);
  Ok (s, hasMergedTask).

(** The first batch element for the last task of a merge group. *)
Definition lastTaskBatchStart s batch (batchSize firstNormalBlock : Z) (totalBatchRange : Interval)
    : result Z :=
  b ← empty s firstNormalBlock;
  if b : bool then Ok (Interval.right totalBatchRange) else
  h ← head s firstNormalBlock;
  x ← lower_bound (λ i, k ← batchKey batch i; Ok (k <? h)) 0 batchSize;
  Ok (Z.min x (Interval.right totalBatchRange)).

Definition distributeMergeGroup batch (batchSize thread : Z) s : result Sds :=
  t ← zget (tasks s) thread;
  next ← zget (tasks s) (thread + 1);
  let mergeBlock := blockForBatchSplitter t in
  let merged := mergedTasks t in
  let totalBatchRange := mkInterval (firstBatchElement t) (firstBatchElement next) in
  firstNormalBlock ← findNext s mergeBlock (blockForBatchSplitter next);
  batchStart ← lastTaskBatchStart s batch batchSize firstNormalBlock totalBatchRange;
  AssertMsg ((Interval.left totalBatchRange <=? batchStart) &&
    (batchStart <=? Interval.right totalBatchRange));;
  s ← (if negb (batchStart =? Interval.left totalBatchRange) then
         write_task s thread
           (λ t, set_blockForBatchSplitter (set_firstBatchElement t batchStart) firstNormalBlock)
       else Ok s);
  let mergeBatchRange := mkInterval (Interval.left totalBatchRange) batchStart in
  let elementsPerThread := Interval.length mergeBatchRange ÷ merged + 1 in
  for_down merged 0
    (λ mergeThread s,
       let mergeTaskBatchStart :=
         Z.min (Interval.left mergeBatchRange + (merged - mergeThread) * elementsPerThread)
           (Interval.right mergeBatchRange) in
       n ← blockSize s mergeBlock;
       width ← maxRedistributionWidth n elementsPerThread;
       write_task s (thread - mergeThread)
         (λ t, set_requiredWidth (set_mergedTaskIndex (set_mergedTasks (set_blockForBatchSplitter
                 (set_firstBatchElement t mergeTaskBatchStart) mergeBlock) merged)
                 (merged - mergeThread)) width)) s.

Definition distributeWorkInMergedTasks s batch (batchSize numberOfThreads : Z) : result Sds :=
  for_range 1 numberOfThreads
    (λ thread s,
       t ← zget (tasks s) thread;
       if is_type (type t) INSERTION && (0 <? mergedTasks t)
       then distributeMergeGroup batch batchSize thread s
       else Ok s) s.

(** Whether all tasks fit into their intervals. *)
Definition fitInPlace s (numberOfThreads : Z) : result bool :=
  for_range 0 numberOfThreads
    (λ thread (useInPlaceInserts : bool),
       if useInPlaceInserts then
         t ← zget (tasks s) thread;
         next ← zget (tasks s) (thread + 1);
         let currentWidth := blockForBatchSplitter next - blockForBatchSplitter t in
         Ok (negb ((currentWidth <? requiredWidth t) || is_type (type t) INVERSE_MERGE))
       else Ok false) AllowInPlaceInserts.

(** ** Tasks *)

Definition startTaskInPlace batch (taskIndex : Z) s : result Sds :=
  t ← zget (tasks s) taskIndex;
  next ← zget (tasks s) (taskIndex + 1);
  AssertMsg (is_type (type t) INSERTION);;
  let batchRange := mkInterval (firstBatchElement t) (firstBatchElement next) in
  if Interval.length batchRange =? 0 then Ok s
  else
    insertBatchRange s batch batchRange
      (mkInterval (blockForBatchSplitter t) (blockForBatchSplitter next)).

(** The blocks in front of the first task move to the same cells of [swapPma]. *)
Definition copyFront s (left : Z) : result Sds :=
  for_range 0 left
    (λ blockIndex s,
       b ← empty s blockIndex;
       if negb b then
         e ← zget (pma s) blockIndex;
         s ← write_swapPma s blockIndex e;
         write_pma s blockIndex PmaEntry.null_entry
       else Ok s) s.

(** A task without batch elements moves its blocks. *)
Definition copyBlocks s (pmaInputRange pmaOutputRange : Interval) : result (Sds * Z) :=
  for_range (Interval.left pmaInputRange) (Interval.right pmaInputRange)
    (λ blockIndex '(s, written),
       b ← empty s blockIndex;
       if negb b then
         s ← moveBlock s blockIndex (Interval.left pmaOutputRange) written;
         Ok (s, written + 1)
       else Ok (s, written)) (s, 0).

(** The part of the merge block that an inverse merge task merges. *)
Definition inverseMergeRange (cells : PmaEntry.PmaEntry) batch (batchSize : Z)
    (t : TaskInfo) (batchRange : Interval) : result Interval :=
  let n := PmaEntry.size cells in
  lft ← (if negb (n =? 0) && negb (mergedTaskIndex t =? 0) then
           AssertMsg (negb (Interval.left batchRange =? batchSize));;
           k ← batchKey batch (Interval.left batchRange);
           OverallocatedPmaEntry.findIndex cells k
         else Ok 0);
  rgt ← (if negb (n =? 0) && negb (u64 (mergedTaskIndex t + 1) =? mergedTasks t) &&
             negb (Interval.right batchRange =? batchSize) then
           k ← batchKey batch (Interval.right batchRange);
           OverallocatedPmaEntry.findIndex cells k
         else Ok n);
  Ok (mkInterval lft rgt).

Definition startTaskOutOfPlace batch (batchSize taskIndex : Z) s : result Sds :=
  t ← zget (tasks s) taskIndex;
  next ← zget (tasks s) (taskIndex + 1);
  let batchRange := mkInterval (firstBatchElement t) (firstBatchElement next) in
  let pmaInputRange := mkInterval (blockForBatchSplitter t) (blockForBatchSplitter next) in
  let pmaOutputRange := mkInterval (startIndex t) (startIndex next) in
  s ← (if taskIndex =? 0 then copyFront s (Interval.left pmaInputRange) else Ok s);
  '(s, written) ←
    (if is_type (type t) INSERTION then
       if Interval.length batchRange =? 0 then copyBlocks s pmaInputRange pmaOutputRange
       else insertBatchRangeOutOfPlace s batch batchRange pmaInputRange pmaOutputRange
     else
       AssertMsg (is_type (type t) INVERSE_MERGE);;
       if Interval.length batchRange =? 0 then Ok (s, 0)
       else
         cells ← zget (pma s) (Interval.left pmaInputRange);
         mergeRange ← inverseMergeRange cells batch batchSize t batchRange;
         inverseMerge s batch batchRange mergeRange pmaInputRange pmaOutputRange);
  write_task s taskIndex (λ t, set_numberOfBlocksWritten t written).

(** ** Post-processing of inverse merges *)

Definition addBlocksWritten s (taskIndex n : Z) : result Sds :=
  write_task s taskIndex (λ t, set_numberOfBlocksWritten t (numberOfBlocksWritten t + n)).

(** The carry block meets the first block of the task. *)
Definition mergeCarry s (thread : Z) (carry : PmaEntry.PmaEntry) : result Sds :=
  t ← zget (tasks s) thread;
  AssertMsg (0 <? PmaEntry.size carry);;
  first ← zget (swapPma s) (startIndex t);
  if PmaEntry.size first + PmaEntry.size carry <? MaxSize then
    first ← OverallocatedPmaEntry.mergeSmaller first carry;
    s ← write_swapPma s (startIndex t) first;
    carry ← OverallocatedPmaEntry.deleteBlock carry;
    Ok s
  else
    '(carry, first) ← OverallocatedPmaEntry.steal carry first;
    s ← write_swapPma s (startIndex t) first;
    previous ← zget (tasks s) (thread - 1);
    s ← write_swapPma s (startIndex previous + numberOfBlocksWritten previous) carry;
    addBlocksWritten s (thread - 1) 1.

(** A last block that is too small becomes the carry block. *)
Definition takeCarry s (thread : Z) (carry : PmaEntry.PmaEntry)
    : result (Sds * PmaEntry.PmaEntry) :=
  t ← zget (tasks s) thread;
  let lastWrittenBlock := startIndex t + numberOfBlocksWritten t - 1 in
  last ← zget (swapPma s) lastWrittenBlock;
  AssertMsg (0 <? PmaEntry.size last);;
  if PmaEntry.size last <? MinSize then
    AssertMsg (negb (PmaEntry.has_block carry));;
    s ← write_swapPma s lastWrittenBlock PmaEntry.null_entry;
    s ← addBlocksWritten s thread (-1);
    Ok (s, last)
  else Ok (s, carry).

Definition deleteMergeBlock s (mergeBlock : Z) : result Sds :=
  b ← empty s mergeBlock;
  if negb b then
    e ← zget (pma s) mergeBlock;
    e ← OverallocatedPmaEntry.deleteBlock e;
    write_pma s mergeBlock PmaEntry.null_entry
  else Ok s.

(** The first loop, for one thread. *)
Definition postprocessTask (thread : Z) (st : Sds * PmaEntry.PmaEntry)
    : result (Sds * PmaEntry.PmaEntry) :=
  let '(s, carry) := st in
  t ← zget (tasks s) thread;
  '(s, carry) ←
    (if PmaEntry.has_block carry && (0 <? numberOfBlocksWritten t) then
       s ← mergeCarry s thread carry; Ok (s, PmaEntry.null_entry)
     else Ok (s, carry));
  '(s, carry) ←
    (if is_type (type t) INVERSE_MERGE && (0 <? numberOfBlocksWritten t)
     then takeCarry s thread carry else Ok (s, carry));
  s ← (if 0 <? thread then
         previous ← zget (tasks s) (thread - 1);
         if is_type (type t) INSERTION && is_type (type previous) INVERSE_MERGE
         then deleteMergeBlock s (blockForBatchSplitter previous) else Ok s
       else Ok s);
  Ok (s, carry).

(** The carry block that is left goes behind the last block written by [thread]. *)
Definition placeCarry s (numberOfThreads thread : Z) (carry : PmaEntry.PmaEntry) : result Sds :=
  t ← zget (tasks s) thread;
  let lastWrittenBlock := startIndex t + numberOfBlocksWritten t - 1 in
  last ← zget (swapPma s) lastWrittenBlock;
  if PmaEntry.size last + PmaEntry.size carry <? MaxSize then
    carry ← OverallocatedPmaEntry.mergeSmaller carry last;
    last ← OverallocatedPmaEntry.deleteBlock last;
    write_swapPma s lastWrittenBlock carry
  else
    '(carry, last) ← OverallocatedPmaEntry.stealFromSmaller carry last;
    s ← write_swapPma s lastWrittenBlock last;
    '(s, writeIndex) ←
      (if numberOfBlocksWritten t <? requiredWidth t then
         s ← addBlocksWritten s thread 1;
         Ok (s, startIndex t + numberOfBlocksWritten t)
       else
         AssertMsg (thread + 1 <? numberOfThreads);;
         next ← zget (tasks s) (thread + 1);
         AssertMsg (numberOfBlocksWritten next =? 0);;
         s ← addBlocksWritten s (thread + 1) 1;
         Ok (s, startIndex next));
    write_swapPma s writeIndex carry.

(** The second loop: from the last task down to the first one with a block. *)
Definition placeLastCarry s (numberOfThreads : Z) (carry : PmaEntry.PmaEntry)
    : result (Sds * PmaEntry.PmaEntry) :=
  for_down (numberOfThreads - 1) (-1)
    (λ thread '(s, carry),
       if PmaEntry.has_block carry then
         t ← zget (tasks s) thread;
         if 0 <? numberOfBlocksWritten t then
           s ← placeCarry s numberOfThreads thread carry;
           Ok (s, PmaEntry.null_entry)
         else Ok (s, carry)
       else Ok (s, carry)) (s, carry).

Definition postprocessInverseMergeTasks s (numberOfThreads : Z) : result Sds :=
  '(s, carry) ← for_range 0 numberOfThreads postprocessTask (s, PmaEntry.null_entry);
  '(s, carry) ← (if PmaEntry.has_block carry then placeLastCarry s numberOfThreads carry
                 else Ok (s, carry));
  AssertMsg (negb (PmaEntry.has_block carry));;
  Ok s.

(** ** Rewriting *)

Definition rewrite s (range : Interval) (numberOfBlocks : Z) : result Sds :=
  for_range 0 numberOfBlocks
    (λ currentBlock s,
       let readIndex := Interval.left range + currentBlock in
       block ← zget (swapPma s) readIndex;
       AssertMsg (PmaEntry.has_block block);;
       writeIndex ← getUniformWriteIndex (Interval.left range) currentBlock
         (Interval.length range) numberOfBlocks;
       AssertMsg (writeIndex <? size s);;
       AssertMsg ((Interval.left range <=? writeIndex) && (writeIndex <? Interval.right range));;
       AssertM (empty s writeIndex);;
       s ← write_pma s writeIndex block;
       write_swapPma s readIndex PmaEntry.null_entry) s.

(** The blocks in front of the first task move back. *)
Definition copyFrontBack s (left : Z) : result Sds :=
  for_range 0 left
    (λ blockIndex s,
       e ← zget (swapPma s) blockIndex;
       if negb (PmaEntry.isEmpty e) then
         s ← write_pma s blockIndex e;
         write_swapPma s blockIndex PmaEntry.null_entry
       else Ok s) s.

Definition startRewritingTask (taskIndex : Z) s : result Sds :=
  t ← zget (tasks s) taskIndex;
  next ← zget (tasks s) (taskIndex + 1);
  s ← (if taskIndex =? 0 then copyFrontBack s (blockForBatchSplitter t) else Ok s);
  rewrite s (mkInterval (startIndex t) (startIndex next)) (numberOfBlocksWritten t).

(** ** The whole operation *)

(** The width a task gets in a global rewriting operation. *)
Definition overallocatedWidth s (width : Z) : Z :=
  if AllowInPlaceInserts then to_int (dmul (overallocationFactor s) (to_double width)) else width.

(** B-1: the start indices; returns the total width. *)
Definition computeStartIndices s (numberOfThreads : Z) : result (Sds * Z) :=
  t0 ← zget (tasks s) 0;
  for_range 0 (numberOfThreads + 1)
    (λ i '(s, prefixWidth),
       t ← zget (tasks s) i;
       s ← write_task s i (λ t, set_startIndex t prefixWidth);
       Ok (s, prefixWidth + overallocatedWidth s (requiredWidth t)))
    (s, blockForBatchSplitter t0).

Definition insertOutOfPlace s batch (batchSize numberOfThreads : Z) (hasMergedTask : bool)
    : result Sds :=
  '(s, prefixWidth) ← computeStartIndices s numberOfThreads;
  s ← increaseSize s prefixWidth;
  s ← for_range 0 numberOfThreads (startTaskOutOfPlace batch batchSize) s;
  s ← (if hasMergedTask then postprocessInverseMergeTasks s numberOfThreads else Ok s);
  let s := resizeMainPma s in
  s ← for_range 0 numberOfThreads startRewritingTask s;
  recompute s numberOfThreads.

Definition insertInPlace s batch (numberOfThreads : Z) : result Sds :=
  s ← for_range 0 numberOfThreads (startTaskInPlace batch) s;
  (if NDEBUG then Ok tt
   else HierarchicalBlockSizeManager.validate (sizeManager s) (sizeView s) false);;
  Ok s.

Definition insertBatch s batch (batchSize numberOfThreads : Z) : result Sds :=
  AssertM (batchSorted batch batchSize);;
  AssertMsg (numberOfThreads <=? MaxThreads);;
  AssertMsg (numberOfThreads <=? batchSize);;
  s ← findTasks s batch batchSize numberOfThreads;
  '(s, hasMergedTask) ← mergeTasks s numberOfThreads;
  s ← distributeWorkInMergedTasks s batch batchSize numberOfThreads;
  useInPlaceInserts ← fitInPlace s numberOfThreads;
  s ← write_task s numberOfThreads (λ t, set_requiredWidth t 0);
  (if NDEBUG then Ok tt
   else validateTaskDistribution s numberOfThreads batchSize useInPlaceInserts);;
  if useInPlaceInserts : bool then insertInPlace s batch numberOfThreads
  else insertOutOfPlace s batch batchSize numberOfThreads hasMergedTask.

End definitions.
End OverallocatedDistribution.
