(* ===== verification/FirstElement.v ===== *)
(** * The searches for the first batch element of a task

    A sorted batch is partitioned at the number of its elements below the head of a block;
    the exponential search, the binary search and the walk down all stop there. *)

From S2P Require Export SdsInsert GbpmaInsert.

Section partition.
Context `{T : SdsTypes}.
Implicit Types (batch : list ValueType) (h : Z).

(** The number of batch elements with a key below [h]. *)
Definition countBelow batch h : Z := zlen (filter (λ v, keyOfValue v < h) batch).

Lemma countBelow_cons v batch h :
  countBelow (v :: batch) h = (if decide (keyOfValue v < h) then 1 else 0) + countBelow batch h.
Proof. unfold countBelow. rewrite filter_cons. destruct (decide _); zlen. Qed.

Lemma countBelow_none k batch h : above (k - 1) batch → ¬ k < h → countBelow batch h = 0.
Proof.
  intros Hall Hk. unfold countBelow. rewrite filter_none; [done|].
  intros w Hw. unfold above in Hall. rewrite Forall_forall in Hall. specialize (Hall _ Hw). simpl in Hall. lia.
Qed.

(** A sorted batch is partitioned at this number. *)
Lemma countBelow_partition batch h i v :
  nondecreasing batch → at_ batch i = Some v → keyOfValue v < h ↔ i < countBelow batch h.
Proof.
  revert i. induction batch as [|w batch IH]; intros i Hs Hi.
  - apply at_Some_bound in Hi. zlen.
  - apply nondecreasing_cons in Hs as [Hw Hs]. rewrite at_cons in Hi. rewrite countBelow_cons.
    pose proof (zlen_nonneg (filter (λ v, keyOfValue v < h) batch)) as Hn. fold (countBelow batch h) in Hn.
    destruct (Z.eqb_spec i 0) as [->|Hne].
    + injection Hi as <-. destruct (decide (keyOfValue w < h)); [lia|].
      rewrite (countBelow_none (keyOfValue w) batch h) by done. lia.
    + pose proof (at_Some_bound _ _ _ Hi). rewrite (IH _ Hs Hi).
      destruct (decide (keyOfValue w < h)); [lia|].
      rewrite (countBelow_none (keyOfValue w) batch h) by done. lia.
Qed.

Lemma countBelow_bounds batch h : 0 ≤ countBelow batch h ≤ zlen batch.
Proof.
  unfold countBelow. split; [apply zlen_nonneg|]. unfold zlen. pose proof (length_filter (λ v, keyOfValue v < h) batch). lia.
Qed.

Section searches.
Context (batch : list ValueType) (h : Z) (Hs : nondecreasing batch).

Lemma key_below i : 0 ≤ i < zlen batch →
  ∃ v, at_ batch i = Some v ∧ (keyOfValue v <? h) = bool_decide (i < countBelow batch h).
Proof.
  intros Hi. destruct (at_in_bound batch i Hi) as [v Hv]. exists v. split; [done|].
  pose proof (countBelow_partition batch h i v Hs Hv). case_bool_decide; bool_cases; tauto || lia.
Qed.

(** [comp(h, key) || h == key]. *)
Lemma reaches_head i v : at_ batch i = Some v →
  comp h (keyOfValue v) || (keyOfValue v =? h) = bool_decide (countBelow batch h ≤ i).
Proof.
  intros Hv. pose proof (countBelow_partition batch h i v Hs Hv). unfold comp.
  case_bool_decide; bool_cases; simpl; lia || done || (exfalso; tauto || lia).
Qed.

Lemma firstBatchElementStart_ok s : 1 ≤ s < zlen batch →
  ∃ current delta, Insertion.firstBatchElementStart batch s h = Ok (current, delta) ∧
    1 ≤ delta ∧ current + delta ≤ s ∧ delta ≤ s ∧ -delta < current ∧
    (0 < current → current < countBelow batch h) ∧
    (current + delta < s → countBelow batch h ≤ current + delta).
Proof.
  intros Hb. unfold Insertion.firstBatchElementStart.
  cut (wp (while (S (Z.to_nat s))
      (λ '(current, delta),
       if 0 <? current then
         k ← Insertion.batchKey batch current; Ok (comp h k || (h =? k))
       else Ok false)
      (λ '(current, delta), Ok (current - delta * 2, delta * 2))
    (s - 1, 1)) (λ '(current, delta), 1 ≤ delta ∧ current + delta ≤ s ∧ delta ≤ s ∧
      -delta < current ∧ (0 < current → current < countBelow batch h) ∧
      (current + delta < s → countBelow batch h ≤ current + delta))).
  { intros Hwp. apply wp_returns in Hwp as ([current delta]&->&?). by exists current, delta. }
  apply (wp_while (λ '(current, delta), 1 ≤ delta ∧ current + 2 * delta = s + 1 ∧
      -delta < current ∧ (current + delta < s → countBelow batch h ≤ current + delta))
    (λ '(current, _), Z.max 0 current)).
  - intros [current delta] (Hd&Hsum&Hlow&Hcount). destruct (Z.ltb_spec 0 current) as [Hpos|Hneg].
    + unfold Insertion.batchKey. destruct (at_in_bound batch current) as [v Hv]; [lia|].
      rewrite (zget_at _ _ _ Hv). cbn [mbind result_bind wp].
      rewrite (Z.eqb_sym h), (reaches_head _ _ Hv). case_bool_decide as Hr; cbn [wp].
      * split_and!; lia.
      * split_and!; lia.
    + cbn [mbind result_bind wp]. split_and!; lia.
  - split_and!; lia.
  - lia.
Qed.

Lemma lower_bound_batch first last : 0 ≤ first ≤ last → last ≤ zlen batch →
  first ≤ countBelow batch h ∨ first = last →
  lower_bound (λ i, k ← Insertion.batchKey batch i; Ok (comp k h)) first last =
  Ok (Z.min (Z.max first (countBelow batch h)) last).
Proof.
  intros Hf Hl Hc.
  destruct (lower_bound_spec (λ i, k ← Insertion.batchKey batch i; Ok (comp k h))
    (λ i, bool_decide (i < countBelow batch h)) first last) as (k&Hk&Hkb&Hlow&Hhigh).
  - lia.
  - intros i Hi. unfold Insertion.batchKey. destruct (key_below i) as (v&Hv&Hd); [lia|].
    rewrite (zget_at _ _ _ Hv). cbn [mbind result_bind]. unfold comp. by rewrite Hd.
  - intros i j Hij _. rewrite !bool_decide_eq_true. lia.
  - rewrite Hk. f_equal.
    destruct (decide (first < k)) as [Hfk|]; [pose proof (Hlow (k - 1) ltac:(lia)) as H1; apply bool_decide_eq_true in H1|];
    (destruct (decide (k < last)) as [Hkl|]; [pose proof (Hhigh k ltac:(lia)) as H2; apply bool_decide_eq_false in H2|]); lia.
Qed.

Lemma walkDown_ok s : 0 ≤ s < zlen batch →
  OverallocatedInsertion.findFirstBatchElement batch s h = Ok (Z.min (countBelow batch h) (s + 1)).
Proof.
  intros Hb. pose proof (countBelow_bounds batch h). apply wp_is.
  unfold OverallocatedInsertion.findFirstBatchElement. apply wp_bind.
  apply (wp_while (λ i, -1 ≤ i ≤ s ∧ Z.min (countBelow batch h) (s + 1) ≤ i + 1) (λ i, i + 1)).
  - intros i [Hi Hmin]. destruct (Z.leb_spec 0 i).
    + unfold OverallocatedInsertion.batchKey. destruct (at_in_bound batch i) as [v Hv]; [lia|].
      rewrite (zget_at _ _ _ Hv). cbn [mbind result_bind wp]. rewrite (reaches_head _ _ Hv).
      case_bool_decide; cbn [wp]; lia.
    + cbn [mbind result_bind wp]. lia.
  - lia.
  - lia.
Qed.

End searches.

(** ** The order check of a batch *)

(** The loop of [batchSorted]. *)
Definition orderStep batch (i : Z) (acc : option Z) : result (option Z) :=
  match acc with
  | None => Ok None
  | Some last =>
      v ← zget batch i; Ok (if comp (keyOfValue v) last then None else Some (keyOfValue v))
  end.

Lemma orderStep_loop pre l k :
  ∃ r, for_range (zlen pre) (zlen (pre ++ l)) (orderStep (pre ++ l)) (Some k) = Ok r ∧
    (is_Some r ↔ nondecreasing l ∧ above (k - 1) l).
Proof.
  revert pre k. induction l as [|v l IH]; intros pre k.
  - rewrite app_nil_r, for_range_nil by lia. exists (Some k). split; [done|]. split; [|done].
    intros _. split; constructor.
  - rewrite for_range_cons by zlen. cbn [orderStep]. rewrite (zget_at _ _ _ (at_middle _ _ _)).
    cbn [mbind result_bind]. unfold comp.
    destruct (Z.ltb_spec (keyOfValue v) k).
    + exists None. rewrite above_cons. split; [|split; [by intros [? ?]|lia]].
      generalize (zlen (pre ++ v :: l)). generalize (zlen pre + 1). intros a b.
      apply wp_is. apply (wp_for (λ _ r, r = None)); [|done|done]. by intros i r _ ->.
    + destruct (IH (pre ++ [v]) (keyOfValue v)) as (r&Hr&Hiff). exists r.
      rewrite <-app_assoc in Hr. simpl in Hr. replace (zlen (pre ++ [v])) with (zlen pre + 1) in Hr by zlen.
      split; [exact Hr|]. rewrite Hiff, nondecreasing_cons, above_cons. split; [|tauto]. intros [? Ha]. split_and!; try done; [lia|].
      eapply above_weaken; [exact Ha|lia].
Qed.

Lemma batchSorted_spec batch :
  ∃ b, OverallocatedBatchedSparseArray.batchSorted batch (zlen batch) = Ok b ∧
    (b = true ↔ nondecreasing batch ∧ ∀ k, k ∈ keys batch → NULL_KEY ≤ k).
Proof.
  destruct (orderStep_loop [] batch NULL_KEY) as (r&Hr&Hiff). unfold OverallocatedBatchedSparseArray.batchSorted.
  change (for_range 0 (zlen batch) _ _) with (for_range (zlen (@nil ValueType)) (zlen ([] ++ batch)) (orderStep ([] ++ batch)) (Some NULL_KEY)).
  rewrite Hr. cbn [mbind result_bind]. eexists. split; [done|]. rewrite above_keys in Hiff.
  assert ((∀ k, k ∈ keys batch → NULL_KEY - 1 < k) ↔ (∀ k, k ∈ keys batch → NULL_KEY ≤ k)) as <-.
  { split; intros Hk k Hin; specialize (Hk k Hin); lia. }
  rewrite <-Hiff. destruct r; split; try done.
Qed.

End partition.
