(* ===== verification/SdsBatch.v ===== *)
(** * Batches with one thread

    [idle]: the state between two batches.  [insertBatch] with one thread leads from one
    such state to the next and merges the batch into the contents. *)

From S2P Require Export SdsUpdated FirstElement.
Import BlockSeq BatchedSparseArray RebalancingPhase.
Import BinaryRebalancingManager (Manager, logCapacity, nextLevelRecountingNodes, threshold, getBlockIndexLevelZero).
Import PmaEntry(PmaEntry).

Section batch.
Context `{T : SdsTypes} `{C : BlockConfig}.
Context `{BC : !BlockConfigOk} `{HB : !HalfBlocks}.
Context `{R : RebalancingConfig} `{D : DensityManager} `{Law : !ThresholdLaw} `{Dense : !DenseLaw}.
Context `{H : ConcurrentBucketMap.Hash} `{P : ThreadConfig}.
Implicit Types (s : Sds) (m : Manager) (l i j k : Z) (nodes : list RebalancingNode).
Implicit Types (gs : list (list (list ValueType * list ValueType))) (batch : list ValueType).
#[local] Abbreviation blocks_at s := (weight (is_empty s) (buffers s)).
#[local] Abbreviation manager := rebalancingManager.

Record idle s gs : Prop := {
  id_quiet : quiet s gs;
  id_steady : steady s;
  id_aligned : aligned s;
  id_log : logCapacity (manager s) = BinaryRebalancingManager.LogInitialArrayCapacity;
  id_below : size s < capacity s;
  id_swap : swapPma s = null_entries (swapCapacity s) ∧ swapCapacity s = capacity s;
}.

(** ** Segments that are not recounted keep their blocks *)

Lemma entry_blocks_count s gs i : stored s gs → 0 ≤ i → blocks_at s i = zlen (default [] (at_ gs i)).
Proof.
  intros Hs Hi. pose proof (used_length _ _ Hs) as [Hu _]. destruct (decide (i < used s)).
  - destruct (at_in_bound gs i ltac:(lia)) as [bs Hbs]. rewrite (row_weight s gs i Hs) by lia. rewrite Hbs. simpl.
    destruct (stored_row s gs i bs Hs Hbs) as (_&_&_&HF). apply Forall2_length in HF. unfold zlen. lia.
  - rewrite (tail_weight s gs i Hs) by lia. by rewrite at_None_bound by lia.
Qed.

(** With a block per segment, every segment of a task gets one. *)
Lemma segment_place p q w n : 0 < w → 0 ≤ q < p → p ≤ n →
  ∃ k, 0 ≤ k < n ∧ q * w ≤ k * (p * w) / n < (q + 1) * w.
Proof.
  intros Hw Hq Hn. exists ((q * n + p - 1) / p).
  pose proof (Z.div_mod (q * n + p - 1) p ltac:(lia)) as Hd. pose proof (Z.mod_pos_bound (q * n + p - 1) p ltac:(lia)) as Hm.
  set (k := (q * n + p - 1) / p) in *. assert (q * n ≤ p * k < q * n + p) as Hk by lia.
  split; [nia|]. split.
  - apply Z.div_le_lower_bound; [lia|]. nia.
  - apply Z.div_lt_upper_bound; [lia|]. nia.
Qed.

Section after.
Variables (s s' : Sds) (gs gs' : list (list (list ValueType * list ValueType))).
Hypothesis (rd : ready s gs) (cov : buffers_covered s) (rb : rebalanced s s' gs gs').
Hypothesis (dense : ∀ t, t ∈ rebalancingTasks s → 2 ^ level (rootNode t) ≤ rt_numberOfBlocks t).

Lemma task_node t : t ∈ rebalancingTasks s → task_ok s t ∧ 0 ≤ level (rootNode t) ∧ 0 ≤ index (rootNode t).
Proof.
  intros Ht. pose proof (rd_fine _ _ rd) as Hf. rewrite Forall_forall in Hf. specialize (Hf t Ht). split; [done|].
  destruct (to_node _ _ Hf) as [[[? [? _]]|[? ?]] ?]; lia.
Qed.

(** Every segment of a task is recorded for recounting. *)
Lemma task_recounted t j : t ∈ rebalancingTasks s → 0 ≤ j →
  task_left t ≤ getBlockIndexLevelZero j < Interval.right (pmaRange t) → is_Some (contents (recountingNodesMap s') !! j).
Proof.
  intros Ht Hj Hb. pose proof width_positive as HW. destruct (task_node t Ht) as (Hok&Hl&Hi). pose proof (dense t Ht) as Hd.
  set (l := level (rootNode t)) in *. set (i := index (rootNode t)) in *. assert (0 < 2 ^ l) as Hp by (apply Z.pow_pos_nonneg; lia).
  pose proof (to_range _ _ Hok) as Hr. fold l i in Hr. unfold task_left in Hb. rewrite Hr in Hb. cbn [Interval.left Interval.right] in Hb.
  unfold node_left, getBlockIndexLevelZero in Hb.
  assert (i * 2 ^ l ≤ j < (i + 1) * 2 ^ l) as Hij.
  { rewrite !(Z.mul_assoc _ (2 ^ l)) in Hb. split; [apply (Z.mul_le_mono_pos_r _ _ AggregateWidth HW)|apply (Z.mul_lt_mono_pos_r AggregateWidth _ _ HW)]; lia. }
  destruct (segment_place (2 ^ l) (j - i * 2 ^ l) AggregateWidth (rt_numberOfBlocks t)) as (k&Hk&Hplace); [done|lia|done|].
  rewrite (rb_map _ _ _ _ rb). apply spec_insert_all_lookup. right. apply list_elem_of_fmap. exists (j, false). split; [done|].
  unfold all_places. apply list_elem_of_In, in_concat. eexists. split; [apply list_elem_of_In, list_elem_of_fmap; exists t; split; [done|exact Ht]|].
  apply list_elem_of_In. unfold places. apply list_elem_of_fmap. exists k. split; [|apply elem_of_seqZ; lia]. f_equal. symmetry.
  assert (task_left t = i * 2 ^ l * AggregateWidth) as -> by (unfold task_left; rewrite Hr; simpl; unfold node_left; lia).
  assert (task_length t = 2 ^ l * AggregateWidth) as -> by (unfold task_length, Interval.length; rewrite Hr; simpl; unfold node_left; lia).
  unfold place. apply node_segment; [nia|]. unfold getBlockIndexLevelZero. nia.
Qed.

Lemma changed_recounted j : 0 ≤ j → seg s j ≠ seg s' j → is_Some (contents (recountingNodesMap s') !! j).
Proof.
  intros Hj Hne. pose proof width_positive as HW. pose proof (segment_entries j Hj) as [Hb _].
  apply sum_range_differ in Hne as (c&Hc&Hw). pose proof (rb_spread _ _ _ _ rb) as [_ _ Hout _].
  destruct (decide (Forall (λ t, Interval.contains (pmaRange t) c = false) (rebalancingTasks s))) as [Hno|Hsome].
  - exfalso. apply Hw. rewrite Forall_forall in Hno. rewrite (entry_blocks_count s gs c (rd_stored _ _ rd)) by lia.
    rewrite (entry_blocks_count s' gs' c (rb_stored _ _ _ _ rb)) by lia. rewrite (Hout c Hno).
    destruct (decide (c < zlen gs)); [by rewrite padded_head by done|]. rewrite (at_None_bound gs) by lia. simpl.
    pose proof (newSize_ok _ _ rd) as (Hu&_). pose proof (used_length _ _ (rd_stored _ _ rd)) as [Hlen _].
    destruct (decide (c < newSize s)); [by rewrite padded_tail by lia|]. by rewrite at_None_bound by (rewrite zlen_padded; lia).
  - apply not_Forall_Exists in Hsome; [|tc_solve]. apply Exists_exists in Hsome as (t&Ht&Hct). apply not_false_iff_true in Hct.
    apply contains_bounds in Hct. apply (task_recounted t j Ht Hj). destruct (task_node t Ht) as (Hok&Hl&Hi).
    pose proof (to_range _ _ Hok) as Hr. unfold task_left. rewrite Hr in *. cbn [Interval.left Interval.right] in *.
    unfold node_left, getBlockIndexLevelZero in *. set (p := 2 ^ level (rootNode t)) in *. set (i := index (rootNode t)) in *.
    rewrite !(Z.mul_assoc _ p) in *. split.
    + apply Z.mul_le_mono_nonneg_r; [lia|]. assert (i * p < j + 1); [|lia]. apply (Z.mul_lt_mono_pos_r AggregateWidth _ _ HW). lia.
    + lia.
Qed.

(** ** The next idle state *)

(** What the update of the hierarchy has left. *)
Record settled : Prop := {
  se_log : 1 ≤ logCapacity (manager s) ≤ 58;
  se_counts : counts_match (manager s) (seg s);
  se_map : ∀ k, is_Some (contents (recountingNodesMap s) !! k) → k = 0;
  se_unmarked : ∀ k, contents (recountingNodesMap s) !! k ≠ Some true;
  se_next : wf (nextLevelRecountingNodes (manager s));
  se_next_keys : ∀ k, is_Some (contents (nextLevelRecountingNodes (manager s)) !! k) → k = 0;
  se_next_unmarked : ∀ k, contents (nextLevelRecountingNodes (manager s)) !! k ≠ Some true;
  se_nodes : rebalancingNodes s = [];
  se_newSize : ∃ k, 0 ≤ k ≤ logCapacity (manager s) - 1 ∧ newSize s = 2 ^ k * AggregateWidth;
}.
Hypothesis set : settled.

Lemma after_manager : BinaryRebalancingManager.size (manager s') ≤ BinaryRebalancingManager.capacity (manager s) ∧
  logCapacity (manager s') = logCapacity (manager s).
Proof.
  pose proof (rb_manager _ _ _ _ rb) as Hm. pose proof width_positive as HW. pose proof (se_log set) as HL.
  destruct (se_newSize set) as (k&Hk&Hn).
  assert (BinaryRebalancingManager.size (manager s') ≤ BinaryRebalancingManager.capacity (manager s)) as Hle.
  { rewrite (rz_size _ _ _ Hm), Hn, Z.div_mul by (intros Hz; rewrite Hz in HW; lia).
    rewrite (shape_capacity _ (hi_shape _ (rd_hier _ _ rd))).
    assert (2 ^ k ≤ 2 ^ (logCapacity (manager s) - 1)) by (apply Z.pow_le_mono_r; lia).
    assert (2 ^ logCapacity (manager s) = 2 * 2 ^ (logCapacity (manager s) - 1)) as ->.
    { rewrite <-Z.pow_succ_r by lia. f_equal. lia. }
    assert (0 < 2 ^ (logCapacity (manager s) - 1)) by (apply Z.pow_pos_nonneg; lia). lia. }
  split; [done|]. by apply (rz_kept _ _ _ Hm).
Qed.

Lemma after_aligned : aligned s'.
Proof.
  right. destruct (se_newSize set) as (k&Hk&Hn). exists k. rewrite (proj2 after_manager). destruct (rb_size _ _ _ _ rb) as [-> _]. done.
Qed.

Lemma all_places_range x : x ∈ all_places (rebalancingTasks s) → x.2 = false ∧ ∃ c, 0 ≤ c < newSize s ∧ x.1 = node c.
Proof.
  intros (l&Hl&Hx)%list_elem_of_In%in_concat. apply list_elem_of_In, list_elem_of_fmap in Hl as (t&->&Ht).
  apply list_elem_of_In, list_elem_of_fmap in Hx as (k&->&Hk). apply elem_of_seqZ in Hk. split; [done|].
  destruct (task_node t Ht) as (Hok&_). pose proof (to_used _ _ Hok). pose proof (to_blocks _ _ Hok) as Hb.
  pose proof (newSize_ok _ _ rd) as (_&_&Hright&_). specialize (Hright t Ht). rewrite <-(task_right t) in Hright.
  fold (task_length t) in Hb. exists (place (task_left t) (task_length t) (rt_numberOfBlocks t) k). split; [|done].
  unfold place. assert (0 ≤ k * task_length t / rt_numberOfBlocks t < task_length t); [|lia]. split.
  - apply Z.div_pos; nia.
  - apply Z.div_lt_upper_bound; nia.
Qed.

Lemma after_steady : steady s'.
Proof.
  pose proof (rb_manager _ _ _ _ rb) as Hm. destruct after_manager as [Hfits Hlog]. destruct (rz_kept _ _ _ Hm Hfits) as [_ Hkept].
  pose proof (se_log set) as HL. assert (0 < 2 ^ logCapacity (manager s)) by (apply Z.pow_pos_nonneg; lia). split.
  - apply Hm.
  - by rewrite Hlog.
  - rewrite Hlog. intros l i Hn. by apply Hkept.
  - exists (seg s). split.
    + intros l i. rewrite Hlog. intros Hn Hl. destruct (Hkept l i Hn) as [-> _]. by apply (se_counts set).
    + intros j Hj. apply changed_recounted. lia.
  - intros j Hj. rewrite (rb_map _ _ _ _ rb) in Hj. apply spec_insert_all_lookup in Hj as [Hj|(x&->&Hx)%list_elem_of_fmap].
    + rewrite (se_map set j Hj), Hlog. lia.
    + destruct (all_places_range x Hx) as (_&c&Hc&->). apply used_leaf; [rewrite Hlog; lia|apply after_aligned|].
      destruct (rb_size _ _ _ _ rb) as [Hsz _]. unfold used. rewrite Hsz. lia.
  - intros j. rewrite (rb_map _ _ _ _ rb). intros Hj. apply spec_insert_all_lookup in Hj as [Hj|Hj]; [by destruct (se_unmarked set j)|].
    by destruct (all_places_range _ Hj) as [? _].
  - rewrite (rz_next _ _ _ Hm). apply (se_next set).
  - rewrite (rz_next _ _ _ Hm). apply (se_next_keys set).
  - rewrite (rz_next _ _ _ Hm). apply (se_next_unmarked set).
  - apply (rz_fits _ _ _ Hm).
  - destruct (rb_tasks _ _ _ _ rb) as (->&_&->). split; [apply (se_nodes set)|done].
Qed.

Lemma after_quiet : numberOfThreads s = 1 → 2 ≤ zlen (tasks s) → concat gs ≠ [] →
  zlen (bufferArray s) = bufferCapacity s → 0 < bufferCapacity s → quiet s' gs'.
Proof.
  intros Hth Htasks Hne Hbuf Hpos. destruct (rb_threads _ _ _ _ rb) as [Hth' Htl]. destruct (rb_buffer _ _ _ _ rb) as [Hbl Hbn]. split.
  - apply rb.
  - intros _. by rewrite (rb_contents _ _ _ _ rb).
  - apply rb.
  - done.
  - rewrite (rb_buffer_capacity _ _ _ _ rb). split; [congruence|done].
  - congruence.
  - rewrite <-Htl in Htasks. destruct (tasks s') as [|t0 [|t1 ts]]; [zlen|zlen|]. by exists t0, t1, ts.
  - apply rb.
Qed.
End after.

(** ** The rebalancing phase *)

Section phase.
Variables (s s' : Sds) (gs gs' : list (list (list ValueType * list ValueType))).
Hypothesis (id : idle s gs) (st' : stored s' gs') (bi : batch_inserted s s').
Hypothesis (few : small (manager s') (zlen (concat gs'))) (some : concat gs' ≠ []).
Hypothesis counters : NDEBUG = true ∨ bufferReads s = 0 ∧ bufferWrites s = 0.

Lemma inserted_aligned : aligned s'.
Proof.
  pose proof (bi_fixed _ _ bi) as F. assert (size s' = size s ∧ manager s' = manager s) as [Hs Hm] by (split; congruence).
  unfold aligned. rewrite Hs, Hm. apply id.
Qed.

Variables (m m2 : Manager) (map : ConcurrentBucketMap.ConcurrentBucketMap) (nodes roots : list RebalancingNode).
Hypothesis (re : refreshed s' m map nodes) (same : same_counts m m2) (flags : flags_match m2 roots) (nodup : NoDup roots).
Hypothesis roots_ok : ∀ nd, nd ∈ roots ↔ nd ∈ nodes ∧ ¬ node_dominated m nd.
#[local] Abbreviation state := (created s' m map nodes m2 roots).

Lemma state_counts : 1 ≤ logCapacity (manager state) ≤ 58 ∧ counts_match (manager state) (seg state) ∧
  logCapacity (manager state) = logCapacity (manager s).
Proof.
  pose proof (log_bounds s s' (id_steady _ _ id) bi) as HL. pose proof (created_log s' m map nodes re m2 same) as [Hl2 Hl1].
  change (manager state) with m2. rewrite Hl2. split_and!; [lia|lia| |by rewrite (inserted_manager s s' bi)].
  intros l i. rewrite Hl2. intros Hn Hl. rewrite (sc_counts _ _ same) by (by rewrite Hl1).
  by apply (u_counts _ _ _ _ _ (re_updated _ _ _ _ re)).
Qed.

Lemma state_next : nextLevelRecountingNodes m2 = nextLevelRecountingNodes m.
Proof. apply same. Qed.

(** Nothing to rebalance: only the hierarchy and the recounting map have changed. *)
Section nothing.
Hypothesis none : roots = [].
#[local] Abbreviation rest := (clearTasks state).

Lemma settled_zero i : buffers s' i = 0.
Proof.
  pose proof (created_covered s s' gs' (id_steady _ _ id) st' bi inserted_aligned few m map nodes re m2 roots same roots_ok) as [Hcov _].
  change (rebalancingTasks state) with (task_of m <$> roots) in Hcov.
  destruct (decide (buffers s' i = 0)) as [|Hnz]; [done|]. specialize (Hcov i Hnz). by rewrite none in Hcov.
Qed.

Lemma settled_quiet : quiet rest gs'.
Proof.
  split.
  - by apply (stored_same s').
  - done.
  - apply settled_zero.
  - intros c e He. destruct (bi_cells _ _ bi c e He) as [|[i Hi]]; [done|]. exfalso. pose proof (settled_zero i) as Hz.
    unfold in_pointer, buffers, pointer_length in *. destruct (at_ (bufferPointers s') i); [|done]. by apply contains_length in Hi.
  - apply (bi_room _ _ bi).
  - apply (bi_threads _ _ bi).
  - apply (bi_threads _ _ bi).
  - apply (re_map _ _ _ _ re).
Qed.

Lemma settled_steady : steady rest.
Proof.
  destruct state_counts as (HL&Hcounts&_). change (manager state) with m2 in *. split; change (manager rest) with m2.
  - apply same.
  - exact HL.
  - intros l i Hn. apply not_true_iff_false. intros Hf. apply (flags l i Hn) in Hf. rewrite none in Hf. by apply elem_of_nil in Hf.
  - exists (seg state). split; [exact Hcounts|]. intros j _ Hne. by destruct Hne.
  - intros j Hj. rewrite (re_map_keys _ _ _ _ re j Hj). split; [lia|]. apply Z.pow_pos_nonneg; lia.
  - apply (re_map_unmarked _ _ _ _ re).
  - rewrite state_next. apply (re_next _ _ _ _ re).
  - rewrite state_next. apply (re_next_keys _ _ _ _ re).
  - rewrite state_next. apply (re_next_unmarked _ _ _ _ re).
  - apply (created_resizable_size s s' (id_steady _ _ id) bi m map nodes re m2 same).
  - done.
Qed.

Lemma settled_idle : idle rest gs'.
Proof.
  destruct state_counts as (_&_&Hlog). pose proof (bi_fixed _ _ bi) as F. change (manager state) with m2 in Hlog.
  assert (size s' = size s ∧ capacity s' = capacity s ∧ swapPma s' = swapPma s ∧ swapCapacity s' = swapCapacity s) as (E1&E2&E3&E4)
    by (split_and!; congruence). clear F. split.
  - apply settled_quiet.
  - apply settled_steady.
  - pose proof inserted_aligned as al. unfold aligned in *. change (manager rest) with m2. rewrite Hlog.
    rewrite (inserted_manager s s' bi) in al. exact al.
  - change (manager rest) with m2. rewrite Hlog. apply (id_log _ _ id).
  - change (size s' < capacity s'). rewrite E1, E2. apply (id_below _ _ id).
  - change (swapPma s' = null_entries (swapCapacity s') ∧ swapCapacity s' = capacity s'). rewrite E2, E3, E4. apply (id_swap _ _ id).
Qed.
End nothing.

(** Something to rebalance. *)
Section something.
Hypothesis roots_some : roots ≠ [].

Lemma two_tasks : 2 ≤ zlen (tasks s').
Proof. destruct (bi_threads _ _ bi) as [_ (t0&t1&ts&->)]. pose proof (zlen_nonneg ts). zlen. Qed.

Lemma state_ready : ready state gs'.
Proof.
  pose proof two_tasks. destruct (id_swap _ _ id) as [Hsw Hcap].
  by apply (created_ready s s' gs' (id_steady _ _ id) st' bi inserted_aligned few m map nodes re m2 roots same flags nodup roots_ok
    ltac:(lia) roots_some (id_below _ _ id)).
Qed.

Lemma state_dense t : t ∈ rebalancingTasks state → 2 ^ level (rootNode t) ≤ rt_numberOfBlocks t.
Proof.
  change (rebalancingTasks state) with (task_of m <$> roots). intros (nd&->&Hnd)%list_elem_of_fmap. simpl.
  apply roots_ok in Hnd as [Hnd _].
  destruct (node_facts s s' gs' (id_steady _ _ id) st' bi inserted_aligned few m map nodes re nd Hnd) as (Hin&Hl&Hb).
  rewrite (u_counts _ _ _ _ _ (re_updated _ _ _ _ re)); [lia|done|lia].
Qed.

Lemma state_settled : settled state.
Proof.
  destruct state_counts as (HL&Hcounts&_). pose proof two_tasks. destruct (id_swap _ _ id) as [Hsw Hcap]. split.
  - exact HL.
  - exact Hcounts.
  - apply (re_map_keys _ _ _ _ re).
  - apply (re_map_unmarked _ _ _ _ re).
  - change (manager state) with m2. rewrite state_next. apply (re_next _ _ _ _ re).
  - change (manager state) with m2. rewrite state_next. apply (re_next_keys _ _ _ _ re).
  - change (manager state) with m2. rewrite state_next. apply (re_next_unmarked _ _ _ _ re).
  - done.
  - change (manager state) with m2. rewrite (proj1 (created_log s' m map nodes re m2 same)).
    by apply (created_newSize s s' gs' (id_steady _ _ id) st' bi inserted_aligned few m map nodes re m2 roots same flags nodup roots_ok
      ltac:(lia) roots_some (id_below _ _ id)).
Qed.

Lemma state_within t : t ∈ rebalancingTasks state →
  rt_numberOfBlocks t ≤ threshold (level (rootNode t)) (logCapacity (manager state)) (2 ^ level (rootNode t)).
Proof.
  pose proof (proj1 (created_log s' m map nodes re m2 same)) as Hlog. change (manager state) with m2. rewrite Hlog.
  change (rebalancingTasks state) with (task_of m <$> roots).
  intros (nd&->&Hnd)%list_elem_of_fmap. simpl. apply roots_ok in Hnd as [Hnd _].
  destruct (node_facts s s' gs' (id_steady _ _ id) st' bi inserted_aligned few m map nodes re nd Hnd) as (Hin&Hl&Hb).
  destruct (u_nodes _ _ _ _ _ (re_updated _ _ _ _ re) nd Hnd) as (_&Hfit&_).
  rewrite (u_counts _ _ _ _ _ (re_updated _ _ _ _ re)) by (done || lia). apply Hfit. lia.
Qed.

Lemma state_executable : executable state gs'.
Proof.
  pose proof two_tasks. destruct (id_swap _ _ id) as [Hsw Hcap]. split.
  - apply state_ready.
  - apply (created_covered s s' gs' (id_steady _ _ id) st' bi inserted_aligned few m map nodes re m2 roots same roots_ok).
  - destruct counters as [?|[Hread Hwrite]]; [by left|].
    apply (created_counters s s' gs' (id_steady _ _ id) st' bi inserted_aligned few m map nodes re m2 roots same nodup roots_ok Hread Hwrite).
    rewrite buffer_blocks_sum. apply sum_range_zero. intros i _. apply (qu_unbuffered _ _ (id_quiet _ _ id) i).
  - by apply (created_resizable s s' gs' (id_steady _ _ id) st' bi inserted_aligned few m map nodes re m2 roots same flags nodup roots_ok
      ltac:(lia) roots_some (id_below _ _ id)).
  - apply (created_flags s' m map nodes m2 roots flags).
  - apply (re_map _ _ _ _ re).
Qed.

Lemma executed_idle : ∃ s2 gs2, executeTasks state = Ok s2 ∧ idle s2 gs2 ∧ concat gs2 = concat gs'.
Proof.
  pose proof two_tasks as Htwo. pose proof state_ready as Hr. destruct (id_swap _ _ id) as [Hsw Hcap].
  destruct (executeTasks_ok state gs' state_executable) as (s2&gs2&Hex&Hrb).
  exists s2, gs2. split; [done|]. split; [|apply (rb_contents _ _ _ _ Hrb)]. destruct (rb_size _ _ _ _ Hrb) as (_&Hb&_).
  destruct (rb_swap _ _ _ _ Hrb) as [Hsc Hsp]. destruct state_counts as (_&_&Hlog). split.
  + apply (after_quiet state s2 gs' gs2 Hrb); [apply (rd_threads _ _ Hr)|exact Htwo|done|apply (bi_room _ _ bi)..].
  + apply (after_steady state s2 gs' gs2 Hr Hrb state_dense state_settled).
  + apply (after_aligned state s2 gs' gs2 Hr Hrb state_settled).
  + rewrite (proj2 (after_manager state s2 gs' gs2 Hr Hrb state_settled)), Hlog. apply (id_log _ _ id).
  + done.
  + rewrite Hsc. done.
Qed.
End something.
End phase.

(** The tasks of the batch, if there are any, can be executed, and those of the density that
    the thresholds of their nodes allow. *)
Lemma tasks_created s s' gs gs' : idle s gs → stored s' gs' → batch_inserted s s' →
  small (manager s') (zlen (concat gs')) → concat gs' ≠ [] → NDEBUG = true ∨ bufferReads s = 0 ∧ bufferWrites s = 0 →
  ∃ s1 s2, updateHierarchy s' = Ok s1 ∧ createTasks s1 = Ok s2 ∧ (rebalancingTasks s2 ≠ [] → executable s2 gs') ∧
    (rebalancingTasks s2 = [] → ∀ i, buffers s2 i = 0) ∧
    ∀ t, t ∈ rebalancingTasks s2 → 2 ^ level (rootNode t) ≤ rt_numberOfBlocks t ≤
      threshold (level (rootNode t)) (logCapacity (manager s2)) (2 ^ level (rootNode t)).
Proof.
  intros Hid st' bi few some Hcnt. pose proof (id_steady _ _ Hid) as sy. pose proof (inserted_aligned s s' gs Hid bi) as al.
  destruct (updateHierarchy_ok s s' gs' sy st' bi al few) as (m&map&nodes&Hup&re).
  pose proof (refreshed_nodes s s' gs' sy st' bi al few m map nodes re) as Hnodes.
  destruct (createTasks_ok (with_update s' m map nodes) Hnodes width_positive) as (m2&roots&Hct&same&flags&nodup&Hroots).
  exists (with_update s' m map nodes), (created s' m map nodes m2 roots). split; [done|]. split; [exact Hct|].
  change (rebalancingTasks (created s' m map nodes m2 roots)) with (task_of m <$> roots).
  assert (task_of m <$> roots = [] → roots = []) as Hnil by (by destruct roots). split; [|split].
  - intros Hne. assert (roots ≠ []) as Hr by (intros ->; by destruct Hne).
    by apply (state_executable s s' gs gs' Hid st' bi few Hcnt m m2 map nodes roots re same flags nodup Hroots Hr).
  - intros Hz%Hnil. apply (settled_zero s s' gs gs' Hid st' bi few m m2 map nodes roots re same Hroots Hz).
  - intros t Ht. split.
    + by apply (state_dense s s' gs gs' Hid st' bi few m m2 map nodes roots re Hroots).
    + by apply (state_within s s' gs gs' Hid st' bi few m m2 map nodes roots re same Hroots).
Qed.

Lemma rebalancingPhase_ok s s' gs gs' : idle s gs → stored s' gs' → batch_inserted s s' →
  small (manager s') (zlen (concat gs')) → concat gs' ≠ [] → NDEBUG = true ∨ bufferReads s = 0 ∧ bufferWrites s = 0 →
  ∃ s2 gs2, rebalancingPhase s' = Ok s2 ∧ idle s2 gs2 ∧ concat gs2 = concat gs'.
Proof.
  intros Hid st' bi few some Hcnt. pose proof (id_steady _ _ Hid) as sy. pose proof (inserted_aligned s s' gs Hid bi) as al.
  destruct (updateHierarchy_ok s s' gs' sy st' bi al few) as (m&map&nodes&Hup&re).
  pose proof (refreshed_nodes s s' gs' sy st' bi al few m map nodes re) as Hnodes.
  destruct (createTasks_ok (with_update s' m map nodes) Hnodes width_positive) as (m2&roots&Hct&same&flags&nodup&Hroots).
  assert (createTasks (with_update s' m map nodes) = Ok (created s' m map nodes m2 roots)) as Hcreated by exact Hct. clear Hct.
  unfold rebalancingPhase. rewrite Hup. cbn [mbind result_bind]. rewrite Hcreated. cbn [mbind result_bind]. destruct (decide (roots = [])) as [Hnone|Hsome].
  - exists (clearTasks (created s' m map nodes m2 roots)), gs'. split; [|split; [|done]].
    + change (rebalancingTasks (created s' m map nodes m2 roots)) with (task_of m <$> roots).
      assert ((zlen (task_of m <$> roots) =? 0) = true) as ->; [by rewrite Hnone|done].
    + by apply (settled_idle s s' gs gs' Hid st' bi few some m m2 map nodes roots re same flags Hroots Hnone).
  - destruct (executed_idle s s' gs gs' Hid st' bi few some Hcnt m m2 map nodes roots re same flags nodup Hroots Hsome)
      as (s2&gs2&Hex&Hid2&Hcc). exists s2, gs2. split; [|done]. rewrite <-Hex.
    change (rebalancingTasks (created s' m map nodes m2 roots)) with (task_of m <$> roots).
    destruct (Z.eqb_spec (zlen (task_of m <$> roots)) 0) as [Hz|_]; [|done]. unfold zlen in Hz. rewrite length_fmap in Hz. by destruct roots.
Qed.

(** ** [insertBatch] *)

(** The number of elements that the initial hierarchy has room for. *)
Definition key_limit : Z :=
  let Lc := BinaryRebalancingManager.LogInitialArrayCapacity in
  MinSize * Z.min (threshold (Lc - 1) Lc (2 ^ (Lc - 1))) (threshold Lc Lc (2 ^ Lc)).

Lemma elements_bound (bs : list (list ValueType * list ValueType)) : Forall (λ x, good_size x.1) bs → MinSize * zlen bs ≤ zlen (elements bs).
Proof.
  induction 1 as [|x bs [Hx _] _ IH]; [change (zlen (elements [])) with 0; change (zlen (@nil (list ValueType * list ValueType))) with 0; lia|].
  rewrite elements_cons, zlen_app, zlen_cons. lia.
Qed.

Lemma limit_small m bs : logCapacity m = BinaryRebalancingManager.LogInitialArrayCapacity → Forall (λ x, good_size x.1) bs →
  zlen (elements bs) ≤ key_limit → small m (zlen bs).
Proof.
  intros Hm Hg Hle. apply elements_bound in Hg. unfold key_limit in Hle. unfold small. rewrite Hm. pose proof MinSize_two.
  assert (zlen bs ≤ Z.min (threshold (BinaryRebalancingManager.LogInitialArrayCapacity - 1) BinaryRebalancingManager.LogInitialArrayCapacity
    (2 ^ (BinaryRebalancingManager.LogInitialArrayCapacity - 1))) (threshold BinaryRebalancingManager.LogInitialArrayCapacity
    BinaryRebalancingManager.LogInitialArrayCapacity (2 ^ BinaryRebalancingManager.LogInitialArrayCapacity))); [|lia].
  apply (Z.mul_le_mono_pos_l _ _ MinSize); [lia|]. etransitivity; [exact Hg|exact Hle].
Qed.

Lemma order_checked batch : sorted batch → NDEBUG = true ∨ (∀ k, k ∈ keys batch → NULL_KEY ≤ k) →
  AssertM (batchSorted batch (zlen batch)) = Ok tt.
Proof.
  intros Hs [Hd|Hk]; [unfold AssertM; by rewrite Hd|]. apply AssertM_ok. destruct (batchSorted_spec batch) as (b&Heq&Hb).
  change (OverallocatedBatchedSparseArray.batchSorted batch (zlen batch)) with (batchSorted batch (zlen batch)) in Heq.
  rewrite Heq. f_equal. apply Hb. split; [by apply sorted_nondecreasing|done].
Qed.

(** The counters are reset in the debug build. *)
Lemma reset_idle s gs : idle s gs → idle (set_bufferReads (set_bufferWrites s 0) 0) gs.
Proof.
  intros [Hq Hs Ha Hl Hb Hsw]. split; try done.
  - destruct Hq as [Hst]. split; try done. by apply (stored_same s).
  - destruct Hs. by split.
Qed.

Lemma insertBatch_idle s gs batch : idle s gs → insertable s batch → 1 ≤ MaxNumberOfThreads →
  NDEBUG = true ∨ (∀ k, k ∈ keys batch → NULL_KEY ≤ k) → zlen (elements (concat gs)) + zlen batch ≤ key_limit →
  ∃ s' gs', insertBatch s batch (zlen batch) 1 = Ok s' ∧ idle s' gs' ∧
    elements (concat gs') = smerge (elements (concat gs)) batch.
Proof.
  intros Hid Hib Hth Hkeys Hlim. pose proof (ib_sorted _ _ Hib) as Hs. pose proof (ib_some _ _ Hib) as Hne.
  set (s0 := if NDEBUG then s else set_bufferReads (set_bufferWrites s 0) 0).
  assert (idle s0 gs) as Hid0 by (unfold s0; destruct NDEBUG; [done|by apply reset_idle]).
  assert (NDEBUG = true ∨ bufferReads s0 = 0 ∧ bufferWrites s0 = 0) as Hcnt by (unfold s0; destruct NDEBUG; [by left|by right]).
  assert (insertable s0 batch) as Hib0 by (unfold s0; destruct Hib; destruct NDEBUG; by split).
  destruct (insertionPhase_ok s0 gs batch (id_quiet _ _ Hid0) Hib0) as (s1&gs1&Hins&Hst&Hel&Hbi).
  pose proof (la_blocks _ _ (sd_layout _ _ Hst)) as (Hg&_).
  destruct (rebalancingPhase_ok s0 s1 gs gs1 Hid0 Hst Hbi) as (s2&gs2&Hreb&Hid2&Hcc).
  - apply limit_small; [|done|].
    + rewrite (inserted_manager s0 s1 Hbi). apply (id_log _ _ Hid0).
    + rewrite Hel. pose proof (length_smerge (elements (concat gs)) batch). lia.
  - intros Hnil. rewrite Hnil in Hel. destruct batch as [|v es]; [done|].
    assert (keyOfValue v ∈ keys (smerge (elements (concat gs)) (v :: es))) as Hin.
    { apply keys_smerge. right. apply elem_of_keys_cons. by left. }
    rewrite <-Hel in Hin. by apply elem_of_nil in Hin.
  - done.
  - exists s2, gs2. split; [|split; [done|by rewrite Hcc]]. unfold insertBatch.
    rewrite (qu_threads _ _ (id_quiet _ _ Hid)). rewrite (assert_ok (1 =? 1)) by done. cbn [mbind result_bind]. fold s0.
    rewrite order_checked by done. cbn [mbind result_bind]. rewrite (qu_threads _ _ (id_quiet _ _ Hid0)).
    rewrite (assert_ok (1 <=? MaxNumberOfThreads)) by (by apply Z.leb_le). cbn [mbind result_bind].
    rewrite (assert_ok (1 <=? zlen batch)) by (apply Z.leb_le; destruct batch as [|v es]; [done|pose proof (zlen_nonneg es); zlen]).
    cbn [mbind result_bind]. rewrite Hins. done.
Qed.
End batch.
