(* ===== verification/SdsClient.v ===== *)
(** * A client of the batched sparse array

    It inserts batches one after the other, each with a single thread, from the constructor
    on.  The constructed array is idle; every batch leaves an idle array. *)

From S2P Require Export SdsBatch.
Import BlockSeq BatchedSparseArray RebalancingPhase.
Import BinaryRebalancingManager (Manager, logCapacity, nextLevelRecountingNodes).
Import PmaEntry(PmaEntry).

Section client.
Context `{T : SdsTypes} `{C : BlockConfig}.
Context `{BC : !BlockConfigOk} `{HB : !HalfBlocks}.
Context `{R : RebalancingConfig} `{D : DensityManager} `{Law : !ThresholdLaw} `{Dense : !DenseLaw}.
Context `{H : ConcurrentBucketMap.Hash} `{P : ThreadConfig} `{M : TaskMemory}.
Implicit Types (s : Sds) (i j k : Z) (batch : list ValueType).
Implicit Types (gs : list (list (list ValueType * list ValueType))).
#[local] Abbreviation manager := rebalancingManager.

(** ** The empty array *)

Definition created_array (m : Manager) : Sds :=
  mkSds InitialArrayCapacity InitialArrayCapacity InitialArrayCapacity 0 (null_entries InitialArrayCapacity)
    (null_entries InitialArrayCapacity) (null_entries InitialArrayCapacity)
    (replicate (Z.to_nat InitialArrayCapacity) Interval.empty) m [] (ConcurrentBucketMap.create 1) [] []
    (uninitializedTasks (MaxNumberOfThreads + 1)) 1 0 0.

Lemma created_pointer m i : buffers (created_array m) i = 0.
Proof.
  unfold buffers, pointer_length. cbn [bufferPointers created_array]. destruct (at_ (replicate _ _) i) as [x|] eqn:Hx; [|done].
  apply at_lookup in Hx as [_ Hx]. by apply lookup_replicate in Hx as [-> _].
Qed.

Lemma created_layout m : stored (created_array m) [[]].
Proof.
  split; [|right; by apply null_entries_at]. split; try done.
  - intros i bs Hi. pose proof (at_Some_bound _ _ _ Hi) as Hb. change (zlen [[]]) with 1 in Hb. assert (i = 0) as -> by lia.
    injection Hi as <-. exists [], []. split; [done|]. exists PmaEntry.null_entry, Interval.empty.
    split_and!; [by apply null_entries_at|done|by apply at_replicate|]. split; [done|]. intros j y Hj. by apply at_Some_bound in Hj; zlen.
  - intros i Hi. cbn [capacity created_array] in Hi. change (zlen [[]]) with 1 in Hi.
    split; [apply null_entries_at; lia|apply at_replicate; lia].
  - intros i j x y c _ Hx _ Hin. apply contains_length in Hin. destruct Hin.
    pose proof (created_pointer m i) as Hz. unfold buffers, pointer_length in Hz. by rewrite Hx in Hz.
  - split_and!; try done; try constructor; by intros ?%elem_of_nil.
Qed.
Lemma constructed_stored m : stored (created_array m) [[]].
Proof. split; [apply created_layout|right; by apply null_entries_at]. Qed.

Lemma created_quiet m : 1 ≤ MaxNumberOfThreads → quiet (created_array m) [[]].
Proof.
  intros Hth. split.
  - apply constructed_stored.
  - cbn. lia.
  - apply created_pointer.
  - intros c e Hc. pose proof (at_Some_bound _ _ _ Hc) as Hb. cbn [bufferArray created_array] in Hc, Hb.
    unfold null_entries in Hb. rewrite zlen_replicate, Z2Nat.id in Hb by done. rewrite null_entries_at in Hc; [by injection Hc|done].
  - cbn [bufferArray bufferCapacity created_array]. unfold null_entries. by rewrite zlen_replicate.
  - done.
  - destruct (uninitializedTasks_two MaxNumberOfThreads Hth) as [ts Hts]. by eexists _, _, ts.
  - by apply wf_create.
Qed.

Lemma created_seg m j : seg (created_array m) j = 0.
Proof.
  apply sum_range_zero. intros i _. unfold weight. rewrite created_pointer.
  assert (is_empty (created_array m) i = true) as ->; [|done]. unfold is_empty. cbn [size created_array].
  destruct (Z.leb_spec 0 i); [done|]. by rewrite at_None_bound by lia.
Qed.

Lemma target_zero l i : target (λ _, 0) l i = 0.
Proof.
  unfold target. generalize (Z.to_nat l). intros n. revert i. induction n as [|n IH]; intros i; simpl; [done|]. by rewrite !IH.
Qed.

Lemma create_idle : 1 ≤ MaxNumberOfThreads → ∃ s, create 1 = Ok s ∧ idle s [[]].
Proof.
  intros Hth. pose proof width_positive as HW.
  destruct (RebalancingShape.create_ok 0 1 HW) as (m&Hm&Hshape&Hlog&Hcells&Hnext&Hsize); [done| |].
  { apply Z.mul_pos_pos; [done|exact HW]. }
  rewrite Z.div_0_l in Hsize by (intros Hz; rewrite Hz in HW; lia).
  exists (created_array m). split; [unfold create; by rewrite Hm|].
  assert (contents (ConcurrentBucketMap.create 1) = ∅) as Hnone by apply contents_empty. split.
  - by apply created_quiet.
  - split; change (manager (created_array m)) with m.
    + done.
    + by rewrite Hlog.
    + intros l i _. apply Hcells.
    + exists (λ _, 0). split; [|intros j _ Hj; by rewrite created_seg in Hj].
      intros l i _ _. rewrite target_zero. apply Hcells.
    + intros j. change (recountingNodesMap (created_array m)) with (ConcurrentBucketMap.create 1).
      rewrite Hnone, lookup_empty. by intros [].
    + intros j. change (recountingNodesMap (created_array m)) with (ConcurrentBucketMap.create 1). by rewrite Hnone, lookup_empty.
    + rewrite Hnext. by apply wf_create.
    + intros k. rewrite Hnext, Hnone, lookup_empty. by intros [].
    + intros k. by rewrite Hnext, Hnone, lookup_empty.
    + rewrite Hsize, (shape_capacity _ Hshape), Hlog. done.
    + done.
  - by left.
  - done.
  - done.
  - done.
Qed.
(** ** The contents of an idle array *)

(** An entry without buffer blocks has its block in the pma. *)
Lemma quiet_entry s gs i bs : quiet s gs → at_ gs i = Some bs →
  ∃ e, at_ (pma s) i = Some e ∧ ((bs = [] ∧ e = PmaEntry.null_entry) ∨ ∃ x, bs = [x] ∧ entry_is e x).
Proof.
  intros Hq Hi. pose proof (sd_layout _ _ (qu_stored _ _ Hq)) as Hl.
  destruct (la_entries _ _ Hl i bs Hi) as (main&buf&->&e&x&He&Hm&Hx&Hbuf&_).
  pose proof (qu_unbuffered _ _ Hq i) as Hu. unfold buffers, pointer_length in Hu. rewrite Hx in Hu.
  destruct buf; [|zlen]. rewrite app_nil_r. exists e. split; [done|].
  destruct main as [|y [|? ?]]; [by left|right; by exists y|done].
Qed.

Definition entry_elements s gs : list (list ValueType) := if size s =? 0 then [] else elements <$> gs.

Lemma concat_entries gs : concat (elements <$> gs) = elements (concat gs).
Proof. induction gs as [|bs gs IH]; [done|]. rewrite fmap_cons. simpl. by rewrite IH, elements_app. Qed.

Lemma entries_at gs i l : at_ (elements <$> gs) i = Some l → ∃ bs, at_ gs i = Some bs ∧ l = elements bs.
Proof.
  intros [Hi Hl]%at_lookup. apply list_lookup_fmap_Some in Hl as (bs&->&Hb). exists bs. split; [|done].
  unfold at_. by destruct (Z.leb_spec 0 i); [|lia].
Qed.

Lemma quiet_stores s gs : quiet s gs → stores s (entry_elements s gs) ∧ concat (entry_elements s gs) = elements (concat gs).
Proof.
  intros Hq. pose proof (sd_layout _ _ (qu_stored _ _ Hq)) as Hl. destruct (layout_array_ok s gs Hl) as [Hb He Hend _].
  pose proof (la_nonneg _ _ Hl) as Hpos. pose proof (la_size _ _ Hl) as Hlen.
  destruct (la_blocks _ _ Hl) as (Hgood&Hsorted&_&Hnull&_). unfold entry_elements. destruct (Z.eqb_spec (size s) 0) as [Hz|Hz].
  - rewrite (empty_contents s gs Hq Hz). split; [|done]. split; try done.
    + apply Hb.
    + intros i l Hi. apply at_Some_bound in Hi. zlen.
    + by constructor.
    + by intros ?%elem_of_nil.
  - split; [|apply concat_entries]. split; rewrite ?concat_entries; try done.
    + unfold zlen in *. rewrite length_fmap. simpl. lia.
    + apply Hb.
    + intros i l (bs&Hi&->)%entries_at. destruct (quiet_entry s gs i bs Hq Hi) as (e&Hat&[[-> ->]|(x&->&Hx)]).
      * left. split; [done|]. unfold hd. simpl. by rewrite Hat.
      * right. destruct x as [l rest]. rewrite elements_single. split; [|by exists e, rest].
        rewrite Forall_forall in Hgood. apply good_nonempty, (Hgood (l, rest)). eapply in_layout; [exact Hi|by left].
Qed.

(** ** Batches one after the other *)

Definition insertBatches (batches : list (list ValueType)) s : result Sds :=
  foldr (λ batch rest s, s ← insertBatch s batch (zlen batch) 1; rest s) Ok batches s.

(** What a client may insert. *)
Record good_batch batch : Prop := {
  go_some : batch ≠ [];
  go_sorted : sorted batch;
  go_null : NULL_KEY ∉ keys batch;
  go_zero : keyOfValue zeroValue ∉ keys batch;
  go_order : NDEBUG = true ∨ ∀ k, k ∈ keys batch → NULL_KEY ≤ k;
}.

Lemma good_insertable s batch : good_batch batch → (size s = 0 → MinSize ≤ zlen batch) → insertable s batch.
Proof. intros []. by split. Qed.

Lemma merged_size s gs batch l : idle s gs → batch ≠ [] → elements (concat gs) = smerge l batch → size s ≠ 0.
Proof.
  intros Hid Hne Hel Hz. rewrite (empty_contents s gs (id_quiet _ _ Hid) Hz) in Hel. destruct batch as [|v es]; [done|].
  assert (keyOfValue v ∈ keys (smerge l (v :: es))) as Hin.
  { apply keys_smerge. right. apply elem_of_keys_cons. by left. }
  rewrite <-Hel in Hin. by apply elem_of_nil in Hin.
Qed.

Lemma insertBatches_idle batches s gs : 1 ≤ MaxNumberOfThreads → Forall good_batch batches → idle s gs →
  (size s = 0 → ∀ b, batches !! 0%nat = Some b → MinSize ≤ zlen b) →
  zlen (elements (concat gs)) + zlen (concat batches) ≤ key_limit →
  ∃ s' gs', insertBatches batches s = Ok s' ∧ idle s' gs' ∧ elements (concat gs') = foldl smerge (elements (concat gs)) batches.
Proof.
  intros Hth Hb. revert s gs. induction Hb as [|b bs Hgood _ IH]; intros s gs Hid Hmin Hlim; [by exists s, gs|].
  change (concat (b :: bs)) with (b ++ concat bs) in Hlim. rewrite zlen_app in Hlim. pose proof (zlen_nonneg (concat bs)).
  destruct (insertBatch_idle s gs b) as (s1&gs1&Hi&Hid1&Hel).
  - done.
  - apply good_insertable; [done|]. intros Hz. by apply Hmin.
  - done.
  - apply Hgood.
  - lia.
  - destruct (IH s1 gs1) as (s'&gs'&Hr&Hid'&Hel').
    + done.
    + intros Hz. by destruct (merged_size s1 gs1 b _ Hid1 (go_some _ Hgood) Hel).
    + rewrite Hel. pose proof (length_smerge (elements (concat gs)) b). lia.
    + exists s', gs'. unfold insertBatches. simpl. rewrite Hi. cbn [mbind result_bind]. split; [exact Hr|].
      split; [done|]. by rewrite Hel', Hel.
Qed.

Lemma insertBatches_from_create batches : 1 ≤ MaxNumberOfThreads → Forall good_batch batches →
  (∀ b, batches !! 0%nat = Some b → MinSize ≤ zlen b) → zlen (concat batches) ≤ key_limit →
  ∃ s0 s gs, create 1 = Ok s0 ∧ insertBatches batches s0 = Ok s ∧ idle s gs ∧ elements (concat gs) = foldl smerge [] batches.
Proof.
  intros Hth Hb Hmin Hlim. destruct (create_idle Hth) as (s0&Hc&Hid).
  destruct (insertBatches_idle batches s0 [[]] Hth Hb Hid) as (s&gs&Hi&Hid'&Hel); [by intros _|done|]. by exists s0, s, gs.
Qed.
End client.
