(* ===== verification/GbpmaWrite.v ===== *)
(** * Writing a block in place

    The cells of the pma as a sequence of blocks, the two shifts of [writeBlockInPlace],
    and the correctness of the whole operation: the block lands between the blocks in
    front of the target index and those from it on, and the size manager follows. *)

From S2P Require Export GbpmaDistribute BlockSplit SizeManager.
Import OverallocatedBatchedSparseArray.
Import PmaEntry(PmaEntry).

(** Size views of the array. *)
#[local] Abbreviation sizes := (fmap (M := list) PmaEntry.size).

Section cells.
Context `{T : SdsTypes} `{C : BlockConfig}.
Context `{BC : !BlockConfigOk} `{HB : !HalfBlocks}.
Implicit Types (e b : PmaEntry) (a m p q : list PmaEntry).

(** The block in a cell, by its elements and its stale cells; none for a null entry. *)
Definition group_of e : list (list ValueType * list ValueType) :=
  match PmaEntry.block e with
  | None => []
  | Some c => [(take (Z.to_nat (PmaEntry.size e)) c, drop (Z.to_nat (PmaEntry.size e)) c)]
  end.

Definition blocks_of a : list (list ValueType * list ValueType) := concat (group_of <$> a).

(** A cell is null or holds a block with a key that is not [NULL_KEY] in front. *)
Definition block_ok e : Prop :=
  ∃ v l rest, represents e (v :: l) rest ∧ keyOfValue v ≠ NULL_KEY.

Definition cell_ok e : Prop := e = PmaEntry.null_entry ∨ block_ok e.

Lemma group_of_null : group_of PmaEntry.null_entry = [].
Proof. done. Qed.

Lemma group_of_block e l rest : represents e l rest → group_of e = [(l, rest)].
Proof.
  intros [(Hb&_&Hs) _]. unfold group_of. rewrite Hb, Hs. unfold zlen. rewrite Nat2Z.id.
  by rewrite take_app_length, drop_app_length.
Qed.

Lemma blocks_of_app a a' : blocks_of (a ++ a') = blocks_of a ++ blocks_of a'.
Proof. unfold blocks_of. by rewrite fmap_app, concat_app. Qed.

Lemma blocks_of_cons e a : blocks_of (e :: a) = group_of e ++ blocks_of a.
Proof. done. Qed.

Lemma blocks_of_null a : blocks_of (PmaEntry.null_entry :: a) = blocks_of a.
Proof. done. Qed.

Lemma block_ok_has e : block_ok e → PmaEntry.has_block e = true.
Proof. intros (v&l&rest&[Hh _]&_). by eapply holds_has_block. Qed.

(** Null entries. *)
Definition nulls (n : nat) : list PmaEntry := replicate n PmaEntry.null_entry.

Lemma nulls_app (n k : nat) : nulls n ++ nulls k = nulls (n + k).
Proof. symmetry. apply replicate_add. Qed.

Lemma length_nulls (n : nat) : length (nulls n) = n.
Proof. apply length_replicate. Qed.

Lemma zlen_nulls (n : nat) : zlen (nulls n) = Z.of_nat n.
Proof. apply zlen_replicate. Qed.

Lemma nulls_cons_comm (n : nat) a : nulls n ++ PmaEntry.null_entry :: a = nulls (S n) ++ a.
Proof. unfold nulls. rewrite replicate_S_end, <-app_assoc. done. Qed.

(** The first null entry, and the last one, of cells that hold fewer blocks than cells. *)
Lemma first_gap m :
  Forall cell_ok m → zlen (blocks_of m) < zlen m →
  ∃ p q, m = p ++ PmaEntry.null_entry :: q ∧ Forall block_ok p.
Proof.
  induction 1 as [|e m He Hm IH]; [unfold zlen; simpl; lia|]. intros Hlt.
  destruct He as [->|He]; [by exists [], m|].
  destruct IH as (p&q&->&Hp).
  { destruct He as (v&l&rest&Hr&_). rewrite blocks_of_cons, (group_of_block _ _ _ Hr) in Hlt. zlen. }
  exists (e :: p), q. split; [done|]. by constructor.
Qed.

Lemma blocks_of_full m : Forall block_ok m → zlen (blocks_of m) = zlen m.
Proof.
  induction 1 as [|e m (v&l&rest&Hr&_) _ IH]; [done|].
  rewrite blocks_of_cons, (group_of_block _ _ _ Hr). zlen.
Qed.

Lemma last_gap m :
  Forall cell_ok m → zlen (blocks_of m) < zlen m →
  ∃ p q, m = p ++ PmaEntry.null_entry :: q ∧ Forall block_ok q.
Proof.
  induction m as [|e m IH] using rev_ind; intros Hm Hlt; [unfold zlen in Hlt; simpl in Hlt; lia|].
  apply Forall_app in Hm as [Hm He]. rewrite Forall_singleton in He. destruct He as [->|He].
  - exists m, []. by split.
  - destruct IH as (p&q&->&Hq); [done| |].
    { destruct He as (v&l&rest&Hr&_).
      rewrite blocks_of_app, blocks_of_cons, (group_of_block _ _ _ Hr) in Hlt. change (blocks_of []) with (@nil (list ValueType * list ValueType)) in Hlt. zlen. }
    exists p, (q ++ [e]). split; [by rewrite <-app_assoc|]. apply Forall_app. split; [done|by apply Forall_singleton].
Qed.

Lemma cells_full m : Forall cell_ok m → zlen (blocks_of m) = zlen m → Forall block_ok m.
Proof.
  induction 1 as [|e m He Hm IH]; [constructor|]. intros Heq.
  assert (zlen (blocks_of m) ≤ zlen m) as Hle.
  { clear - Hm BC. induction Hm as [|e m He Hm IH]; [done|]. destruct He as [->|(v&l&r&Hr&_)].
    - rewrite blocks_of_null. zlen.
    - rewrite blocks_of_cons, (group_of_block _ _ _ Hr). zlen. }
  destruct He as [->|He]; [rewrite blocks_of_null in Heq; zlen|].
  constructor; [done|]. apply IH. destruct He as (v&l&r&Hr&_).
  rewrite blocks_of_cons, (group_of_block _ _ _ Hr) in Heq. zlen.
Qed.

(** ** The shifts *)

Lemma shiftUp_loop (fuel : nat) a1 q a2 e0 c right :
  Forall block_ok q → block_ok c → PmaEntry.has_block e0 = false →
  zlen a1 + zlen q < right → (length q + 1 < fuel)%nat →
  while fuel (λ '(_, shift, carry), Ok ((shift <? right) && PmaEntry.has_block carry))
    (λ '(a, shift, carry), old ← zget a shift; a ← zset a shift carry; Ok (a, shift + 1, old))
    (a1 ++ q ++ e0 :: a2, zlen a1, c) = Ok (a1 ++ c :: q ++ a2, zlen a1 + zlen q + 1, e0).
Proof.
  intros Hq Hc He. revert a1 c fuel Hc. induction Hq as [|x q Hx Hq IH]; intros a1 c fuel Hc Hlt Hf;
    (destruct fuel as [|fuel]; [simpl in Hf; lia|]).
  - change (zlen []) with 0 in *. simpl app. erewrite while_iterate; cycle 1.
    + destruct (Z.ltb_spec (zlen a1) right); [|lia]. by rewrite (block_ok_has _ Hc).
    + rewrite (zget_at _ _ _ (at_middle _ _ _)). cbn [mbind result_bind].
      rewrite zset_middle by done. done.
    + destruct fuel; [simpl in Hf; lia|]. rewrite while_exit; [f_equal; f_equal; f_equal; lia|].
      by rewrite He, andb_false_r.
  - simpl app. erewrite while_iterate; cycle 1.
    + destruct (Z.ltb_spec (zlen a1) right); [|zlen]. by rewrite (block_ok_has _ Hc).
    + rewrite (zget_at _ _ _ (at_middle _ _ _)). cbn [mbind result_bind].
      rewrite zset_middle by done. done.
    + replace (a1 ++ c :: q ++ e0 :: a2) with ((a1 ++ [c]) ++ q ++ e0 :: a2) by (by rewrite <-app_assoc).
      replace (zlen a1 + 1) with (zlen (a1 ++ [c])) by zlen.
      rewrite (IH (a1 ++ [c]) x fuel Hx); [|zlen|simpl in Hf; lia].
      rewrite <-app_assoc. simpl. do 2 f_equal. f_equal. zlen.
Qed.

Lemma shiftUp_gap a1 q a2 c right :
  Forall block_ok q → block_ok c → zlen a1 + zlen q < right →
  shiftUp (a1 ++ q ++ PmaEntry.null_entry :: a2) (zlen a1) right c =
  Ok (a1 ++ c :: q ++ a2, zlen a1 + zlen q + 1, PmaEntry.null_entry).
Proof.
  intros Hq Hc Hlt. unfold shiftUp. apply shiftUp_loop; try done. unfold zlen in *. lia.
Qed.

(** Without a gap the last block is left over. *)
Lemma shiftUp_full a1 q a2 c p z :
  Forall block_ok q → block_ok c → c :: q = p ++ [z] →
  shiftUp (a1 ++ q ++ a2) (zlen a1) (zlen a1 + zlen q) c = Ok (a1 ++ p ++ a2, zlen a1 + zlen q, z).
Proof.
  intros Hq Hc Hz. unfold shiftUp. set (right := zlen a1 + zlen q).
  assert (∀ fuel : nat, (length q < fuel)%nat →
    while fuel (λ '(_, shift, carry), Ok ((shift <? right) && PmaEntry.has_block carry))
      (λ '(a, shift, carry), old ← zget a shift; a ← zset a shift carry; Ok (a, shift + 1, old))
      (a1 ++ q ++ a2, zlen a1, c) = Ok (a1 ++ p ++ a2, right, z)) as Hgen; [|apply Hgen; unfold right, zlen; lia].
  unfold right. clear right. revert a1 c p Hc Hz. induction Hq as [|x q Hx Hq IH]; intros a1 c p Hc Hz fuel Hf;
    (destruct fuel as [|fuel]; [simpl in Hf; lia|]).
  - change (zlen []) with 0. destruct p as [|y p]; [|destruct p; discriminate]. injection Hz as ->.
    rewrite while_exit; [f_equal; f_equal; f_equal; lia|]. destruct (Z.ltb_spec (zlen a1) (zlen a1 + 0)); [lia|done].
  - destruct p as [|y p]; [destruct q; discriminate|]. injection Hz as -> Hz. simpl app. erewrite while_iterate; cycle 1.
    + destruct (Z.ltb_spec (zlen a1) (zlen a1 + zlen (x :: q))); [|zlen]. by rewrite (block_ok_has _ Hc).
    + rewrite (zget_at _ _ _ (at_middle _ _ _)). cbn [mbind result_bind].
      rewrite zset_middle by done. done.
    + specialize (IH (a1 ++ [y]) x p Hx Hz fuel ltac:(simpl in Hf; lia)).
      rewrite <-!app_assoc in IH. simpl in IH.
      replace (zlen (a1 ++ [y]) + zlen q) with (zlen a1 + zlen (x :: q)) in IH by zlen.
      replace (zlen (a1 ++ [y])) with (zlen a1 + 1) in IH by zlen. exact IH.
Qed.

Lemma shiftDown_gap a1 q a2 c left :
  Forall block_ok q → block_ok c → left ≤ zlen a1 →
  shiftDown (a1 ++ PmaEntry.null_entry :: q ++ a2) (zlen a1 + zlen q) left c =
  Ok (a1 ++ q ++ c :: a2, zlen a1 - 1, PmaEntry.null_entry).
Proof.
  intros Hq Hc Hle. unfold shiftDown.
  assert (∀ fuel : nat, (length q + 1 < fuel)%nat →
    while fuel (λ '(_, shift, carry), Ok ((left <=? shift) && PmaEntry.has_block carry))
      (λ '(a, shift, carry), old ← zget a shift; a ← zset a shift carry; Ok (a, shift - 1, old))
      (a1 ++ PmaEntry.null_entry :: q ++ a2, zlen a1 + zlen q, c) =
    Ok (a1 ++ q ++ c :: a2, zlen a1 - 1, PmaEntry.null_entry)) as Hgen; [|apply Hgen; unfold zlen in *; lia].
  revert a2 c Hc. induction q as [|x q IH] using rev_ind; intros a2 c Hc fuel Hf;
    (destruct fuel as [|fuel]; [lia|]).
  - change (zlen []) with 0. rewrite Z.add_0_r. simpl app. erewrite while_iterate; cycle 1.
    + destruct (Z.leb_spec left (zlen a1)); [|lia]. by rewrite (block_ok_has _ Hc).
    + rewrite (zget_at _ _ _ (at_middle _ _ _)). cbn [mbind result_bind]. rewrite zset_middle by done. done.
    + destruct fuel; [lia|]. rewrite while_exit; [done|]. by rewrite andb_false_r.
  - apply Forall_app in Hq as [Hq Hx]. rewrite Forall_singleton in Hx.
    assert (a1 ++ PmaEntry.null_entry :: (q ++ [x]) ++ a2 = (a1 ++ PmaEntry.null_entry :: q) ++ x :: a2) as Heq.
    { by rewrite <-!app_assoc. }
    rewrite Heq. assert (zlen a1 + zlen (q ++ [x]) = zlen (a1 ++ PmaEntry.null_entry :: q)) as Hlen by zlen.
    rewrite Hlen. erewrite while_iterate; cycle 1.
    + destruct (Z.leb_spec left (zlen (a1 ++ PmaEntry.null_entry :: q))); [|zlen]. by rewrite (block_ok_has _ Hc).
    + rewrite (zget_at _ _ _ (at_middle _ _ _)). cbn [mbind result_bind]. rewrite zset_middle by done. done.
    + specialize (IH Hq (c :: a2) x Hx fuel ltac:(rewrite length_app in Hf; simpl in Hf; lia)).
      replace (zlen (a1 ++ PmaEntry.null_entry :: q) - 1) with (zlen a1 + zlen q) by zlen.
      replace ((a1 ++ PmaEntry.null_entry :: q) ++ c :: a2) with (a1 ++ PmaEntry.null_entry :: q ++ c :: a2)
        by (by rewrite <-app_assoc).
      rewrite IH. by rewrite <-app_assoc.
Qed.

(** ** The assertions about a cell *)

Lemma empty_at s u x w :
  pma s = u ++ x :: w → cell_ok x → empty s (zlen u) = Ok (negb (PmaEntry.has_block x)).
Proof.
  intros Hp Hx. unfold empty. rewrite Hp, (zget_at _ _ _ (at_middle _ _ _)). cbn [mbind result_bind].
  assert ((PmaEntry.head x =? NULL_KEY) = negb (PmaEntry.has_block x) ∧
          (PmaEntry.size x =? 0) = negb (PmaEntry.has_block x)) as [H1 H2].
  { destruct Hx as [->|Hx]; [split; apply Z.eqb_refl|]. rewrite (block_ok_has _ Hx).
    destruct Hx as (v&l&rest&Hr&Hk). pose proof (block_size _ _ _ Hr). destruct Hr as [_ Hh]. simpl in Hh.
    split; apply Z.eqb_neq; [congruence|zlen]. }
  rewrite H1, H2. unfold PmaEntry.isEmpty.
  by rewrite !assert_ok by apply eqb_reflx.
Qed.

Lemma first_key_at s u x w :
  pma s = u ++ x :: w → block_ok x →
  AssertM (e ← zget (pma s) (zlen u); v ← PmaEntry.get e 0; Ok (PmaEntry.head e =? keyOfValue v)) = Ok tt.
Proof.
  intros Hp (v&l&rest&[Hb Hh]&_). unfold AssertM. destruct NDEBUG eqn:?; [done|].
  rewrite Hp, (zget_at _ _ _ (at_middle _ _ _)). cbn [mbind result_bind].
  rewrite (get_at x (v :: l) rest 0 v Hb) by (by rewrite <-app_comm_cons, at_cons).
  cbn [mbind result_bind]. apply assert_ok. simpl in Hh. by apply Z.eqb_eq.
Qed.

(** ** The size manager of the array *)

Definition manager_valid (s : Sds) : Prop := valid (sizeManager s) (sizeView s).
Definition managed (s : Sds) : Z :=
  HierarchicalBlockSizeManager.size (sizeManager s) *
  HierarchicalBlockSizeManager.AggregateWidth (sizeManager s).

(** The array with other cells and a manager for them. *)
Definition follows (s s' : Sds) (a : list PmaEntry) : Prop :=
  ∃ (m : HierarchicalBlockSizeManager.HierarchicalBlockSizeManager),
    s' = set_sizeManager (set_pma s a) m ∧ manager_valid s' ∧ same_shape (sizeManager s) m.

Lemma follows_managed s s' a : follows s s' a → managed s' = managed s.
Proof. intros (m&->&_&[HW HS]). unfold managed. simpl. by rewrite HW, HS. Qed.

Lemma slide_left_array s u q w e :
  pma s = u ++ PmaEntry.null_entry :: q ++ w → manager_valid s → zlen u + zlen q < managed s →
  ∃ s', (s1 ← adjustBlockSize (set_pma s (u ++ q ++ e :: w)) (zlen u + zlen q) 0 (PmaEntry.size e);
         shiftLeft s1 (zlen u) (zlen u + zlen q - 1)) = Ok s' ∧ follows s s' (u ++ q ++ e :: w).
Proof.
  intros Hp Hv Hb. unfold manager_valid, sizeView in Hv. rewrite Hp in Hv.
  rewrite fmap_app, fmap_cons, fmap_app in Hv.
  assert (∀ x : list PmaEntry, zlen (sizes x) = zlen x) as Hz by (intros; unfold zlen; by rewrite length_fmap).
  destruct (slide_left_ok _ _ (sizes u) (sizes q) (sizes w) (PmaEntry.size e) Hv)
    as (m1&m2&H1&H2&Hv2&[HW HS]); [rewrite !Hz; exact Hb|]. rewrite !Hz in *.
  exists (set_sizeManager (set_pma s (u ++ q ++ e :: w)) m2). split.
  - unfold adjustBlockSize, shiftLeft, sizeView. simpl. rewrite H1. cbn [mbind result_bind]. simpl.
    by rewrite !fmap_app, fmap_cons, H2.
  - exists m2. split_and!; [done| |by split]. unfold manager_valid, sizeView. simpl. by rewrite !fmap_app, fmap_cons.
Qed.

Lemma slide_right_array s u q w e :
  pma s = u ++ q ++ PmaEntry.null_entry :: w → q ≠ [] → manager_valid s → zlen u + zlen q < managed s →
  ∃ s', (s1 ← adjustBlockSize (set_pma s (u ++ e :: q ++ w)) (zlen u) 0 (PmaEntry.size e);
         shiftRight s1 (zlen u + 1) (zlen u + zlen q)) = Ok s' ∧ follows s s' (u ++ e :: q ++ w).
Proof.
  intros Hp Hq Hv Hb. unfold manager_valid, sizeView in Hv. rewrite Hp in Hv.
  rewrite !fmap_app, fmap_cons in Hv.
  assert (∀ x : list PmaEntry, zlen (sizes x) = zlen x) as Hz by (intros; unfold zlen; by rewrite length_fmap).
  destruct (slide_right_ok _ _ (sizes u) (sizes q) (sizes w) (PmaEntry.size e) Hv)
    as (m1&m2&H1&H2&Hv2&[HW HS]); [by destruct q|rewrite !Hz; exact Hb|]. rewrite !Hz in *.
  exists (set_sizeManager (set_pma s (u ++ e :: q ++ w)) m2). split.
  - unfold adjustBlockSize, shiftRight, sizeView. simpl. rewrite H1. cbn [mbind result_bind]. simpl.
    by rewrite fmap_app, fmap_cons, fmap_app, H2.
  - exists m2. split_and!; [done| |by split]. unfold manager_valid, sizeView. simpl. by rewrite fmap_app, fmap_cons, fmap_app.
Qed.

Lemma place_array s u w e :
  pma s = u ++ PmaEntry.null_entry :: w → manager_valid s → zlen u < managed s →
  ∃ s', (s1 ← adjustBlockSize s (zlen u) 0 (PmaEntry.size e); write_pma s1 (zlen u) e) = Ok s' ∧
    follows s s' (u ++ e :: w).
Proof.
  intros Hp Hv Hb. unfold manager_valid, sizeView in Hv. rewrite Hp, fmap_app, fmap_cons in Hv.
  assert (∀ x : list PmaEntry, zlen (sizes x) = zlen x) as Hz by (intros; unfold zlen; by rewrite length_fmap).
  destruct (place_ok _ _ (sizes u) (sizes w) (PmaEntry.size e) Hv) as (m1&H1&Hv1&[HW HS]);
    [rewrite !Hz; exact Hb|]. rewrite !Hz in *.
  exists (set_sizeManager (set_pma s (u ++ e :: w)) m1). split.
  - unfold adjustBlockSize, write_pma. rewrite H1. cbn [mbind result_bind]. simpl.
    by rewrite Hp, zset_middle.
  - exists m1. split_and!; [done| |by split]. unfold manager_valid, sizeView. simpl. by rewrite fmap_app, fmap_cons.
Qed.

(** ** The whole operation *)

(** [s'] is [s] with [e] among the cells [m1 ++ m2], between the blocks of both parts. *)
Definition writes_between (s s' : Sds) (i : Z) (u m1 m2 w : list PmaEntry) (e : PmaEntry) : Prop :=
  ∃ m1' m2', follows s s' (u ++ m1' ++ e :: m2' ++ w) ∧ i = zlen u + zlen m1' ∧
    blocks_of m1' = blocks_of m1 ∧ blocks_of m2' = blocks_of m2 ∧
    zlen (m1' ++ e :: m2') = zlen (m1 ++ m2) ∧ Forall cell_ok (m1' ++ m2') ∧
    zlen m1 ≤ zlen m1' + 1 ∧ (∀ q, m2 = PmaEntry.null_entry :: q → zlen m1' = zlen m1).

Lemma follows_pma s s' a : follows s s' a → pma s' = a.
Proof. by intros (m&->&_). Qed.

Lemma blocks_of_gap p q : blocks_of (p ++ PmaEntry.null_entry :: q) = blocks_of (p ++ q).
Proof. by rewrite !blocks_of_app, blocks_of_null. Qed.

(** A gap among the cells behind the target: the blocks up to it move to the right. *)
Lemma writeBlockShifting_right s e u m1 p q w r :
  pma s = u ++ m1 ++ (p ++ PmaEntry.null_entry :: q) ++ w → p ≠ [] →
  Forall block_ok p → Forall cell_ok m1 → Forall cell_ok q → block_ok e →
  Interval.right r = zlen u + zlen m1 + zlen (p ++ PmaEntry.null_entry :: q) →
  manager_valid s → zlen u + zlen m1 + zlen p < managed s →
  ∃ s' i, writeBlockShifting s e (zlen u + zlen m1) r = Ok (s', i) ∧
    writes_between s s' i u m1 (p ++ PmaEntry.null_entry :: q) w e.
Proof.
  intros Hp Hne Hblk Hm1 Hq He Hr Hv Hb. unfold writeBlockShifting.
  assert (pma s = (u ++ m1) ++ p ++ PmaEntry.null_entry :: (q ++ w)) as Hp' by (rewrite Hp, <-!app_assoc; done).
  rewrite Hp'. replace (zlen u + zlen m1) with (zlen (u ++ m1)) in * by zlen.
  rewrite shiftUp_gap by (done || (rewrite Hr; zlen)). cbn [mbind result_bind].
  change (PmaEntry.has_block PmaEntry.null_entry) with false. cbn [negb].
  destruct (slide_right_array s (u ++ m1) p (q ++ w) e Hp' Hne Hv Hb) as (s'&Hs'&Hf).
  replace (zlen (u ++ m1) + zlen p + 1 - 1) with (zlen (u ++ m1) + zlen p) by lia.
  exists s', (zlen (u ++ m1)). split.
  { destruct (adjustBlockSize _ _ _ _) as [s1|] eqn:Ha; [|done]. cbn [mbind result_bind] in *. by rewrite Hs'. }
  exists m1, (p ++ q). rewrite <-!app_assoc in *. split_and!; [done|zlen|done|by rewrite blocks_of_gap|zlen| |lia|done].
  rewrite !Forall_app. split_and!; [done| |done]. eapply Forall_impl; [exact Hblk|]. by right.
Qed.

(** None behind, but one in front: the blocks from it on move to the left. *)
Lemma writeBlockShifting_left s e u p q m2 w r :
  pma s = u ++ (p ++ PmaEntry.null_entry :: q) ++ m2 ++ w →
  Forall cell_ok p → Forall block_ok q → Forall block_ok m2 → block_ok e →
  r = Interval.mkInterval (zlen u) (zlen u + zlen (p ++ PmaEntry.null_entry :: q) + zlen m2) →
  manager_valid s → zlen u + zlen (p ++ PmaEntry.null_entry :: q) ≤ managed s →
  ∃ s' i, writeBlockShifting s e (zlen u + zlen (p ++ PmaEntry.null_entry :: q)) r = Ok (s', i) ∧
    writes_between s s' i u (p ++ PmaEntry.null_entry :: q) m2 w e.
Proof.
  intros Hp Hcp Hq Hm2 He -> Hv Hb. unfold writeBlockShifting.
  destruct (exists_last (l := e :: m2)) as (b&z&Hz); [done|].
  assert (Forall block_ok (b ++ [z])) as Hbz by (rewrite <-Hz; by constructor).
  apply Forall_app in Hbz as [Hb' Hz']. rewrite Forall_singleton in Hz'.
  assert (zlen m2 = zlen b) as Hlen.
  { assert (zlen (e :: m2) = zlen (b ++ [z])) as Hl by (by rewrite Hz). zlen. }
  set (m1 := p ++ PmaEntry.null_entry :: q) in *.
  assert (pma s = (u ++ m1) ++ m2 ++ w) as Hp' by (rewrite Hp, <-!app_assoc; done).
  rewrite Hp'. replace (zlen u + zlen m1) with (zlen (u ++ m1)) in * by zlen. cbn [Interval.right Interval.left].
  rewrite (shiftUp_full _ _ _ _ b z) by done. cbn [mbind result_bind].
  rewrite (block_ok_has _ Hz'). cbn [negb]. rewrite assert_ok by apply Z.eqb_refl. cbn [mbind result_bind].
  assert ((u ++ m1) ++ b ++ w = (u ++ p) ++ PmaEntry.null_entry :: (q ++ b) ++ w) as ->.
  { unfold m1. by rewrite <-!app_assoc. }
  assert (zlen (u ++ m1) = zlen (u ++ p) + 1 + zlen q) as Hum by (unfold m1; zlen).
  replace (zlen (u ++ m1) + zlen m2 - 1) with (zlen (u ++ p) + zlen (q ++ b)) by zlen.
  rewrite shiftDown_gap; [|by apply Forall_app|done|zlen]. cbn [mbind result_bind].
  assert ((u ++ p) ++ (q ++ b) ++ z :: w = (u ++ p) ++ q ++ e :: m2 ++ w) as ->.
  { rewrite <-!app_assoc. do 3 f_equal. change (e :: m2 ++ w) with ((e :: m2) ++ w). by rewrite Hz, <-app_assoc. }
  destruct (slide_left_array s (u ++ p) q (m2 ++ w) e) as (s'&Hs'&Hf); [|done|lia|].
  { rewrite Hp. unfold m1. by rewrite <-!app_assoc. }
  replace (zlen (u ++ m1) - 1) with (zlen (u ++ p) + zlen q) by lia.
  replace (zlen (u ++ p) - 1 + 1) with (zlen (u ++ p)) by lia.
  exists s', (zlen (u ++ p) + zlen q). split.
  { destruct (adjustBlockSize _ _ _ _) as [s1|] eqn:Ha; [|done]. cbn [mbind result_bind] in *. by rewrite Hs'. }
  exists (p ++ q), m2. unfold m1. rewrite <-!app_assoc in *.
  split_and!; [done|zlen|by rewrite blocks_of_gap|done|zlen| |zlen|].
  - rewrite !Forall_app. split_and!; [done| |]; (eapply Forall_impl; [eassumption|]; by right).
  - intros x ->. apply Forall_cons in Hm2 as [Hx _]. by apply block_ok_has in Hx.
Qed.

Lemma blocks_of_le a : Forall cell_ok a → zlen (blocks_of a) ≤ zlen a.
Proof.
  induction 1 as [|e a He _ IH]; [done|]. destruct He as [->|(v&l&r&Hr&_)].
  - rewrite blocks_of_null. zlen.
  - rewrite blocks_of_cons, (group_of_block _ _ _ Hr). zlen.
Qed.

(** A free target, or one with a gap on either side. *)
Lemma writeBlockInPlace_inside s e u m1 x m2 w r :
  pma s = u ++ m1 ++ (x :: m2) ++ w → Forall cell_ok (m1 ++ x :: m2) →
  zlen (blocks_of (m1 ++ x :: m2)) < zlen (m1 ++ x :: m2) → block_ok e →
  r = Interval.mkInterval (zlen u) (zlen u + zlen m1 + zlen (x :: m2)) → Interval.right r ≤ size s →
  manager_valid s → zlen u + zlen m1 + zlen (x :: m2) ≤ managed s →
  ∃ s' i, writeBlockInPlace s e (zlen u + zlen m1) r = Ok (s', i) ∧
    writes_between s s' i u m1 (x :: m2) w e.
Proof.
  intros Hp Hcells Hgap He -> Hsize Hv Hb. unfold writeBlockInPlace. cbn [Interval.left Interval.right] in *.
  pose proof (zlen_nonneg m1). pose proof (zlen_nonneg m2).
  apply Forall_app in Hcells as [Hm1 Hxm2]. apply Forall_cons in Hxm2 as [Hx Hm2].
  rewrite (assert_ok (_ <=? size s)) by (apply Z.leb_le; lia). cbn [mbind result_bind].
  rewrite (assert_ok (_ && _)) by (apply andb_true_intro; split; apply Z.leb_le; zlen). cbn [mbind result_bind].
  destruct (Z.eqb_spec (zlen u + zlen m1) (zlen u + zlen m1 + zlen (x :: m2))); [zlen|].
  assert (zlen u + zlen m1 = zlen (u ++ m1)) as Hum by zlen.
  rewrite Hum, (empty_at s (u ++ m1) x (m2 ++ w)) by (done || (rewrite Hp, <-app_assoc; done)).
  cbn [mbind result_bind]. rewrite negb_involutive, <-Hum.
  assert (∃ s' i, (if PmaEntry.has_block x
      then writeBlockShifting s e (zlen u + zlen m1) (Interval.mkInterval (zlen u) (zlen u + zlen m1 + zlen (x :: m2)))
      else (s ← adjustBlockSize s (zlen u + zlen m1) 0 (PmaEntry.size e); s ← write_pma s (zlen u + zlen m1) e;
            Ok (s, zlen u + zlen m1))) = Ok (s', i) ∧ writes_between s s' i u m1 (x :: m2) w e) as (s'&i&->&Hw).
  { destruct Hx as [Hx|Hx].
    - rewrite Hx in *. change (PmaEntry.has_block PmaEntry.null_entry) with false.
      destruct (place_array s (u ++ m1) (m2 ++ w) e) as (s'&Hs'&Hf); [by rewrite Hp, <-app_assoc|done|zlen|].
      exists s', (zlen u + zlen m1). rewrite Hum. split.
      { destruct (adjustBlockSize _ _ _ _) as [s1|]; [|done]. cbn [mbind result_bind] in *. by rewrite Hs'. }
      exists m1, m2. rewrite <-app_assoc in Hf. split_and!; [done|zlen|done|done|zlen|by apply Forall_app|lia|done].
    - rewrite (block_ok_has _ Hx). assert (Forall cell_ok (x :: m2)) as Hc by (by constructor; [right|]).
      destruct (decide (zlen (blocks_of (x :: m2)) < zlen (x :: m2))) as [Hlt|Hge].
      + destruct (first_gap (x :: m2)) as (p&q&Hpq&Hblk); [done..|]. rewrite Hpq in *.
        apply Forall_app in Hc as [_ [_ Hcq]%Forall_cons].
        apply writeBlockShifting_right; try done; [|zlen].
        intros ->. simpl in Hpq. injection Hpq as -> _. by apply block_ok_has in Hx.
      + pose proof (blocks_of_le _ Hc). rewrite blocks_of_app, !zlen_app in Hgap.
        destruct (last_gap m1) as (p&q&Hpq&Hblk); [done|lia|]. rewrite Hpq in *.
        apply Forall_app in Hm1 as [Hp1 _].
        apply writeBlockShifting_left; try done; [|pose proof (zlen_nonneg (x :: m2)); lia].
        apply cells_full; [done|lia]. }
  cbn [mbind result_bind]. destruct Hw as (m1'&m2'&Hf&Hi&Hw).
  pose proof (follows_pma _ _ _ Hf) as Hp'.
  assert (i = zlen (u ++ m1')) as -> by zlen. rewrite (app_assoc u m1') in Hp'.
  rewrite (first_key_at s' (u ++ m1') e (m2' ++ w)) by done. cbn [mbind result_bind].
  exists s', (zlen (u ++ m1')). split; [done|]. by exists m1', m2'.
Qed.

(** A target behind all cells of the range. *)
Lemma writeBlockInPlace_end s e u m1 w r :
  pma s = u ++ m1 ++ w → Forall cell_ok m1 → zlen (blocks_of m1) < zlen m1 → block_ok e →
  r = Interval.mkInterval (zlen u) (zlen u + zlen m1) → Interval.right r ≤ size s →
  manager_valid s → zlen u + zlen m1 ≤ managed s →
  ∃ s' i, writeBlockInPlace s e (zlen u + zlen m1) r = Ok (s', i) ∧
    writes_between s s' i u m1 [] w e.
Proof.
  intros Hp Hcells Hgap He -> Hsize Hv Hb. unfold writeBlockInPlace. cbn [Interval.left Interval.right] in *.
  pose proof (zlen_nonneg m1).
  rewrite (assert_ok (_ <=? size s)) by (apply Z.leb_le; lia). cbn [mbind result_bind].
  rewrite (assert_ok (_ && _)) by (apply andb_true_intro; split; apply Z.leb_le; lia). cbn [mbind result_bind].
  rewrite Z.eqb_refl.
  destruct (last_gap m1) as (p&q&->&Hq); [done..|]. apply Forall_app in Hcells as [Hcp _].
  assert (pma s = (u ++ p) ++ PmaEntry.null_entry :: q ++ w) as Hp' by (by rewrite Hp, <-!app_assoc).
  assert (zlen u + zlen (p ++ PmaEntry.null_entry :: q) = zlen (u ++ p) + 1 + zlen q) as Hum by zlen.
  rewrite Hp', Hum in *.
  replace (zlen (u ++ p) + 1 + zlen q - 1) with (zlen (u ++ p) + zlen q) by lia.
  replace (zlen (u ++ p) + 1 + zlen q - 2) with (zlen (u ++ p) + zlen q - 1) by lia.
  rewrite shiftDown_gap by (done || zlen). cbn [mbind result_bind].
  rewrite assert_ok by done. cbn [mbind result_bind].
  replace (zlen (u ++ p) - 1 + 1) with (zlen (u ++ p)) by lia.
  destruct (slide_left_array s (u ++ p) q w e Hp' Hv) as (s'&Hs'&Hf); [lia|].
  exists s', (zlen (u ++ p) + zlen q). split.
  { destruct (adjustBlockSize _ _ _ _) as [s1|]; [|done]. cbn [mbind result_bind] in *. by rewrite Hs'. }
  exists (p ++ q), []. rewrite <-!app_assoc in *. split_and!; [done|zlen|by rewrite blocks_of_gap|done|zlen| |zlen|done].
  rewrite app_nil_r, !Forall_app. split; [done|]. eapply Forall_impl; [exact Hq|]. by right.
Qed.

Lemma writeBlockInPlace_ok s e u m1 m2 w r :
  pma s = u ++ m1 ++ m2 ++ w → Forall cell_ok (m1 ++ m2) →
  zlen (blocks_of (m1 ++ m2)) < zlen (m1 ++ m2) → block_ok e →
  r = Interval.mkInterval (zlen u) (zlen u + zlen (m1 ++ m2)) → Interval.right r ≤ size s →
  manager_valid s → Interval.right r ≤ managed s →
  ∃ s' i, writeBlockInPlace s e (zlen u + zlen m1) r = Ok (s', i) ∧
    writes_between s s' i u m1 m2 w e.
Proof.
  intros Hp Hcells Hgap He -> Hsize Hv Hb. cbn [Interval.right] in *. rewrite zlen_app in *.
  destruct m2 as [|x m2].
  - change (zlen []) with 0 in *. rewrite Z.add_0_r, app_nil_r in *. by apply writeBlockInPlace_end.
  - apply writeBlockInPlace_inside; try done; [by rewrite zlen_app| |]; rewrite ?Z.add_assoc; try done; simpl; lia.
Qed.


End cells.
