(* ===== verification/GbpmaContents.v ===== *)
(** * The contents of the overallocated array

    A valid array: its blocks in order, all other cells null, the size manager right.  The
    searches are correct for it, and find the place of the first key of a batch. *)

From S2P Require Export GbpmaWrite ArrayContents.
Import BlockSeq OverallocatedBatchedSparseArray.
Import PmaEntry(PmaEntry).
Import HierarchicalBlockSizeManager(AggregateWidth).

Section contents.
Context `{T : SdsTypes} `{C : BlockConfig}.
Context `{BC : !BlockConfigOk} `{HB : !HalfBlocks}.
Implicit Types (s : Sds) (e b z : PmaEntry) (u w a ents : list PmaEntry).
Implicit Types (ws bs xs : list (list ValueType * list ValueType)).

(** ** The contents of the array *)

(** The used cells [u] hold the blocks [xs]; all other cells of both arrays are null. *)
Record valid_array s xs : Prop := {
  va_pma : ∃ u (k : nat), pma s = u ++ nulls (S k) ∧ zlen u = size s ∧ Forall cell_ok u ∧ blocks_of u = xs;
  va_capacity : zlen (pma s) = capacity s;
  va_swap : swapPma s = nulls (length (pma s));
  va_swapCapacity : swapCapacity s = capacity s;
  va_good : Forall (λ x, good_size x.1) xs;
  va_sorted : sorted (elements xs);
  va_stales : stales [keyOfValue zeroValue] xs;
  va_null : NULL_KEY ∉ keys (elements xs);
  va_some : xs = [] → size s = 0;
  va_manager : manager_valid s;
  va_managed : HierarchicalBlockSizeManager.size (sizeManager s) = size s / AggregateWidth (sizeManager s) + 1;
  va_width : (AggregateWidth (sizeManager s) | capacity s);
  va_tasks : ∃ t0 t1 ts, tasks s = t0 :: t1 :: ts ∧ (NDEBUG = true ∨ is_type (type t1) INVERSE_MERGE = false);
  va_factor : overallocationFactor s = InitialOverallocationFactor;
}.

(** The elements of a cell. *)
Definition cell_elements e : list ValueType := elements (group_of e).

Lemma concat_cells u : concat (cell_elements <$> u) = elements (blocks_of u).
Proof.
  induction u as [|e u IH]; [done|]. rewrite fmap_cons, blocks_of_cons, elements_app. simpl. by rewrite IH.
Qed.

Lemma cell_stores e : cell_ok e →
  (cell_elements e = [] ∧ e = PmaEntry.null_entry) ∨
  (cell_elements e ≠ [] ∧ ∃ rest, represents e (cell_elements e) rest).
Proof.
  intros [->|(v&l&rest&He&_)]; [by left|right]. unfold cell_elements.
  rewrite (group_of_block _ _ _ He), elements_single. split; [done|by exists rest].
Qed.

(** Such an array is one that the searches are correct for. *)
Lemma cells_stores s u w :
  pma s = u ++ PmaEntry.null_entry :: w → zlen u = size s → Forall cell_ok u →
  sorted (elements (blocks_of u)) → (NULL_KEY ∉ keys (elements (blocks_of u))) →
  stores s (cell_elements <$> u).
Proof.
  intros Hp Hs Hu Hso Hn.
  assert (∀ i e, at_ u i = Some e → ∃ u1 u2, u = u1 ++ e :: u2 ∧ zlen u1 = i) as Hat by (intros; by apply at_split).
  assert (∀ i e, at_ u i = Some e → at_ (pma s) i = Some e ∧ cell_ok e) as Hcell.
  { intros i e (u1&u2&->&<-)%Hat. apply Forall_app in Hu as [_ [He _]%Forall_cons].
    split; [|done]. rewrite Hp, <-app_assoc. apply at_middle. }
  split; rewrite ?concat_cells; try done.
  - unfold zlen in *. by rewrite length_fmap.
  - simpl. rewrite Hp. zlen.
  - intros i l Hl. assert (∃ e, at_ u i = Some e ∧ l = cell_elements e) as (e&He&->).
    { apply at_lookup in Hl as [Hi Hl]. apply list_lookup_fmap_Some in Hl as (e&->&He).
      exists e. split; [|done]. unfold at_. by destruct (Z.leb_spec 0 i); [|lia]. }
    destruct (Hcell i e He) as [Hie Hok]. destruct (cell_stores e Hok) as [[Hce ->]|[Hce [rest Hr]]].
    + left. split; [done|]. unfold hd. simpl. by rewrite Hie.
    + right. split; [done|]. by exists e, rest.
  - intros i Hi. simpl in Hi. destruct (at_in_bound u i) as [e He]; [lia|].
    destruct (Hcell i e He) as [Hie Hok]. destruct (Hat i e He) as (u1&u2&->&<-).
    assert (arr_empty s (zlen u1) = empty s (zlen u1)) as -> by done.
    rewrite (empty_at s u1 e (u2 ++ PmaEntry.null_entry :: w)); [|by rewrite Hp, <-app_assoc|done].
    f_equal. unfold hd. simpl. rewrite Hie. simpl. destruct Hok as [->|Hb]; [by rewrite Z.eqb_refl|].
    rewrite (block_ok_has _ Hb). destruct Hb as (v&l&rest&[_ Hh]&Hk). simpl in Hh. rewrite Hh.
    by destruct (Z.eqb_spec (keyOfValue v) NULL_KEY).
  - simpl. rewrite <-Hs. rewrite (empty_at s u PmaEntry.null_entry w) by (done || by left). done.
Qed.

Lemma valid_array_stores s xs : valid_array s xs → ∃ ls, stores s ls ∧ concat ls = elements xs.
Proof.
  intros Hv. destruct (va_pma _ _ Hv) as (u&k&Hp&Hs&Hu&<-). exists (cell_elements <$> u).
  split; [|apply concat_cells]. apply (cells_stores s u (nulls k)); try done; apply Hv.
Qed.

(** ** The range of the task *)

Lemma before_cells u (n : nat) : before (cell_elements <$> u) (Z.of_nat n) = elements (blocks_of (take n u)).
Proof. unfold before. by rewrite Nat2Z.id, <-fmap_take, concat_cells. Qed.

Lemma no_elements xs : Forall (λ x, good_size x.1) xs → elements xs = [] → xs = [].
Proof.
  intros Hg He. pose proof (blocks_bound xs Hg) as Hb. rewrite He in Hb. pose proof MinSize_two.
  destruct xs; [done|]. unfold zlen in Hb. simpl in Hb. lia.
Qed.

(** A position of the array, seen as a position of its cells. *)
Section cells.
Variables (s : Sds) (xs : list (list ValueType * list ValueType)) (a : list PmaEntry) (k : nat).
Hypothesis (valid : valid_array s xs).
Hypothesis (cells : pma s = a ++ nulls (S k)) (used : zlen a = size s).
Hypothesis (a_ok : Forall cell_ok a) (a_blocks : blocks_of a = xs).

Lemma cell_head u z m : a = u ++ z :: m → hd s (zlen u) = PmaEntry.head z.
Proof. intros Ha. unfold hd. simpl arr_pma. rewrite cells, Ha, <-app_assoc. simpl. by rewrite at_middle. Qed.

Lemma heads_behind u e m key :
  a = u ++ e :: m → (∀ j, full s j → zlen u < j → key < hd s j) →
  Forall (λ z, block_ok z → key < PmaEntry.head z) m.
Proof.
  intros Hau Hlt. apply Forall_forall. intros z (m1&m2&->)%list_elem_of_split Hz.
  pose proof (cell_head (u ++ e :: m1) z m2 ltac:(rewrite Hau; by simplify_list_eq)) as Hh. rewrite <-Hh. apply Hlt.
  - split; [simpl; rewrite <-used, Hau; pose proof (zlen_nonneg m2); zlen|]. rewrite Hh.
    destruct Hz as (v&l&rest&[_ Hz]&Hk). simpl in Hz. by rewrite Hz.
  - pose proof (zlen_nonneg m1). zlen.
Qed.

Lemma full_cell i : full s i →
  ∃ u e m, a = u ++ e :: m ∧ zlen u = i ∧ block_ok e ∧ Forall cell_ok u ∧ Forall cell_ok (e :: m).
Proof.
  intros Hf. pose proof Hf as [Hi Hne]. simpl in Hi. destruct (at_in_bound a i) as [e He]; [lia|].
  destruct (at_split _ _ _ He) as (u&m&Hau&<-). exists u, e, m. pose proof a_ok as Hok.
  rewrite Hau in Hok. apply Forall_app in Hok as [Hu Hm]. split_and!; try done.
  apply Forall_cons in Hm as [[->|?] _]; [|done]. destruct Hne. by rewrite (cell_head _ _ _ Hau).
Qed.

Lemma elements_before u m : a = u ++ m → before (cell_elements <$> a) (zlen u) = elements (blocks_of u).
Proof. intros ->. unfold zlen. by rewrite before_cells, take_app_length. Qed.

(** [m] are the cells from the block on where the insertion of [key] starts, [u] those in
    front of it. *)
Definition starts_from key u m : Prop :=
  below (elements (blocks_of u)) key ∧
  ((u = [] ∧ m = []) ∨ ∃ e m', m = e :: m' ∧ block_ok e ∧ (blocks_of u = [] ∨ PmaEntry.head e ≤ key) ∧
     Forall (λ z, block_ok z → key < PmaEntry.head z) m').

Lemma locate_cells key : ∃ u m, findBlockIndex s key = Ok (zlen u) ∧ a = u ++ m ∧
  Forall cell_ok u ∧ Forall cell_ok m ∧ starts_from key u m.
Proof.
  assert (stores s (cell_elements <$> a)) as Hst.
  { apply (cells_stores s a (nulls k)); try done; rewrite a_blocks; apply valid. }
  destruct (SearchFacts.findBlockIndex_ok s (stores_array_ok s _ Hst) key) as (i&Hi&[[Hf Hc]|(Hall&Hib&Hnone&Hf)]).
  { destruct (full_cell i Hf) as (u&e&m&Hau&<-&He&Hu&Hm). pose proof (zlen_nonneg u).
    exists u, (e :: m). split_and!; try done. split.
    - destruct (containing_split s _ Hst key (zlen u) Hc ltac:(lia)) as (_&_&_&_&_&_&_&_&_&Hb&_).
      by rewrite (elements_before _ _ Hau) in Hb.
    - right. exists e, m. rewrite <-(cell_head _ _ _ Hau).
      destruct Hc as [[? _]|(_&Hle&Hlt)]; [lia|]. split_and!; [done|done|by right|by eapply heads_behind]. }
  pose proof (none_full_before s _ Hst 0 i ltac:(lia) ltac:(lia) Hnone) as Hb0.
  change (before (cell_elements <$> a) 0) with (@nil ValueType) in Hb0.
  destruct (decide (i < arr_size s)) as [Hlt|Hge].
  - destruct (full_cell i (Hf Hlt)) as (u&e&m&Hau&<-&He&Hu&Hm).
    rewrite (elements_before _ _ Hau) in Hb0. exists u, (e :: m). split_and!; try done. split.
    + rewrite Hb0. constructor.
    + right. exists e, m. split_and!; [done|done| |].
      * left. apply no_elements; [|done]. pose proof (va_good _ _ valid) as Hg. rewrite <-a_blocks, Hau, blocks_of_app in Hg.
        by apply Forall_app in Hg as [? _].
      * eapply heads_behind; [done|]. intros j Hj _. destruct Hall as [[_ Hall]|([? _]&_)]; [by apply Hall|lia].
  - assert (i = zlen a) as -> by (simpl in *; lia).
    rewrite before_all in Hb0 by (unfold zlen; by rewrite length_fmap). rewrite concat_cells, a_blocks in Hb0.
    pose proof (no_elements _ (va_good _ _ valid) Hb0) as Hnil. pose proof (va_some _ _ valid Hnil).
    assert (a = []) as Ha0 by (destruct a; [done|]; rewrite <-used, zlen_cons in *; pose proof (zlen_nonneg l); lia).
    exists [], []. rewrite Ha0 in *. split_and!; try done. split; [constructor|by left].
Qed.
End cells.

(** The block of the first key: no element in front of it reaches the key. *)
Lemma locate s xs key :
  valid_array s xs →
  ∃ u m (k : nat), findBlockIndex s key = Ok (zlen u) ∧ pma s = u ++ m ++ nulls (S k) ∧
    zlen u + zlen m = size s ∧ Forall cell_ok u ∧ Forall cell_ok m ∧ xs = blocks_of u ++ blocks_of m ∧
    starts_from key u m.
Proof.
  intros Hv. destruct (va_pma _ _ Hv) as (a&k&Hp&Hs&Ha&Hxs).
  destruct (locate_cells s xs a k Hv Hp Hs Ha Hxs key) as (u&m&Hi&->&Hu&Hm&Hkey).
  exists u, m, k. split_and!; try done.
  - by rewrite Hp, <-app_assoc.
  - rewrite <-Hs. zlen.
  - by rewrite <-Hxs, blocks_of_app.
Qed.

End contents.
