(* ===== verification/GbpmaOutput.v ===== *)
(** * The split loop of the overallocated array

    [insertIntoBlockWithSplit] writes its blocks to [swapPma] or in place.  For any sink
    that [outputBlock] writes to, its loop is the one of [BlockSplit.v]. *)

From S2P Require Export GbpmaInsert BlockSplit GbpmaWrite BlockFill.
Import BlockSeq OverallocatedBatchedSparseArray OverallocatedInsertion.
Import PmaEntry(PmaEntry).

Section split.
Context `{T : SdsTypes} `{C : BlockConfig}.
Context `{BC : !BlockConfigOk} `{HB : !HalfBlocks}.
Context {St : Type} `{K : !BlockSink St} `{KO : !BlockSinkOk K}.
Implicit Types (st : St) (l rest batch es pre post : list ValueType) (ks : list Z).
Implicit Types (ws bs : list (list ValueType * list ValueType)) (b : PmaEntry).

(** The state, [insertionBlockIndex] and [outputBlockNumber] of the code in the sink's. *)
Variables (WRITE_TO_SWAP : bool) (range : Interval) (embed : St → Sds * Z * Z).
Hypothesis (outputs : ∀ b st,
  outputBlock WRITE_TO_SWAP (embed st).1.1 b (embed st).1.2 range (embed st).2 =
  (st ← emit b st; Ok (embed st))).

Definition split_state_of (x : St * Cursor) : Sds * SplitState :=
  let '(s, i, out) := embed x.1 in
  (s, mkSplitState (cur_block x.2) (cur_right x.2) i (cur_hint x.2) (cur_index x.2) out).

Definition cursor_of (x : Sds * SplitState) : Cursor :=
  mkCursor (insertionBlock x.2) (rightHalf x.2) (lastInsertionIndex x.2) (split_batchIndex x.2).

Lemma cursor_of_state x : cursor_of (split_state_of x) = x.2.
Proof. unfold split_state_of. destruct (embed x.1) as [[s i] out]. by destruct x as [? []]. Qed.

Lemma outputs_at b st s i out :
  embed st = (s, i, out) → outputBlock WRITE_TO_SWAP s b i range out = (st ← emit b st; Ok (embed st)).
Proof. intros He. pose proof (outputs b st) as Ho. by rewrite He in Ho. Qed.

(** The loop body does what the common one does; its [split] checks less. *)
Lemma body_simulates_sink batch x x' :
  splitStep batch x = Ok x' →
  splitLoopBody WRITE_TO_SWAP batch range (split_state_of x) = Ok (split_state_of x').
Proof.
  destruct x as [st [b rh idx bi]]. unfold splitStep, splitLoopBody, split_state_of.
  destruct (embed st) as [[s i] out] eqn:He. cbn [fst snd cur_block cur_right cur_hint cur_index]. rewrite He.
  destruct (zget batch bi) as [e|]; [|done]. cbn [mbind result_bind].
  assert (∀ b r, PmaEntry.split b = Ok r → OverallocatedPmaEntry.split b = Ok r) as Hsplit by (intros; by apply split_forgets).
  match goal with |- context [if ?t then _ else Ok (st, b, rh, idx)] => destruct t end.
  - rewrite (outputs_at b st) by done. destruct (emit b st) as [st2|]; [|done]. cbn [mbind result_bind].
    destruct (embed st2) as [[s2 i2] out2] eqn:He2. cbn [mbind result_bind]. destruct (PmaEntry.size rh <? MaxSize).
    + change (OverallocatedPmaEntry.insertWithIndex rh e 0) with (PmaEntry.insertWithIndex rh e 0).
      destruct (PmaEntry.insertWithIndex rh e 0) as [[b2 [? h2]]|]; [|done]. cbn [mbind result_bind].
      intros [= <-]. cbn [fst snd]. by rewrite He2.
    + destruct (PmaEntry.split rh) as [[b2 n2]|] eqn:Hsp; [|done]. rewrite (Hsplit _ _ Hsp). cbn [mbind result_bind].
      cbn [PmaEntry.isEmpty PmaEntry.has_block PmaEntry.block PmaEntry.null_entry negb].
      intros [= <-]. cbn [fst snd]. by rewrite He2.
  - cbn [mbind result_bind]. destruct (PmaEntry.size b <? MaxSize).
    + change (OverallocatedPmaEntry.insertWithIndex b e idx) with (PmaEntry.insertWithIndex b e idx).
      destruct (PmaEntry.insertWithIndex b e idx) as [[b2 [? h2]]|]; [|done]. cbn [mbind result_bind].
      intros [= <-]. cbn [fst snd]. by rewrite He.
    + destruct (PmaEntry.split b) as [[b2 n2]|] eqn:Hsp; [|done]. rewrite (Hsplit _ _ Hsp). cbn [mbind result_bind].
      destruct (negb (PmaEntry.isEmpty rh)); [|intros [= <-]; cbn [fst snd]; by rewrite He].
      rewrite (outputs_at b2 st) by done. destruct (emit b2 st) as [st2|]; [|done]. cbn [mbind result_bind].
      intros [= <-]. cbn [fst snd]. destruct (embed st2) as [[s2 i2] out2]. done.
Qed.

(** The loop and the two blocks that are left. *)
Lemma splitLoop_sink st0 s0 i0 out0 l rest ks pre es post e :
  embed st0 = (s0, i0, out0) → written st0 [] →
  represents e l rest → sorted l → MinSize ≤ zlen l → stale (keys l ++ ks) rest → keyOfValue zeroValue ∈ ks →
  sorted es → (∀ k, k ∈ keys es → k ∉ ks) →
  (∀ n, n * MinSize ≤ zlen l + zlen es → n ≤ sink_limit) → (∀ k, k ∈ keys l ∨ k ∈ keys es → sink_accepts k) →
  ∃ s x st' bs, splitLoop WRITE_TO_SWAP (pre ++ es ++ post) range (zlen pre + zlen es)
      (s0, mkSplitState e PmaEntry.null_entry i0 0 (zlen pre) out0) = Ok (s, x) ∧
    split_batchIndex x = zlen pre + zlen es ∧
    ('(s, blockIndex, out) ← outputBlock WRITE_TO_SWAP s (insertionBlock x) (insertionBlockIndex x)
       range (outputBlockNumber x);
     if negb (PmaEntry.isEmpty (rightHalf x)) then
       '(s, _, out) ← outputBlock WRITE_TO_SWAP s (rightHalf x) blockIndex range out;
       Ok (s, out)
     else Ok (s, out)) = Ok ((embed st').1.1, (embed st').2) ∧
    written st' bs ∧ elements bs = smerge l es ∧ Forall (λ x, good_size x.1) bs ∧ stales ks bs ∧ bs ≠ [].
Proof.
  intros He0 Hw0 Hr Hsl Hmin Hst Hz Hses Hfr Hlim Hacc. pose proof Hr as [(_&Hmax&_) _]. pose proof (zlen_nonneg rest).
  assert (zlen l ≤ MaxSize) as Hlmax by lia.
  destruct (splitting_ok l ks pre es post Hsl Hses Hz Hfr Hlmax Hlim Hacc split_state_of cursor_of
    (splitLoopBody WRITE_TO_SWAP (pre ++ es ++ post) range) (st0, mkCursor e PmaEntry.null_entry 0 (zlen pre)))
    as ([st cur]&ws&li&ri&rs&a&c&Hloop&Hinv).
  - intros. by rewrite cursor_of_state.
  - intros. by apply body_simulates_sink.
  - by eapply splitting_start.
  - destruct (splitting_finish l ks pre es Hlim Hacc _ _ _ _ _ _ _ Hinv) as (st1&Hw1&st2&Hw2&Hwr).
    pose proof Hinv as [_ Hi _ Hb _ Hel Hst' _ _ _ _ _ _ _ _].
    unfold split_state_of in Hloop. cbn [fst snd cur_block cur_right cur_hint cur_index] in Hloop. rewrite He0 in Hloop.
    destruct (embed st) as [[s i] out] eqn:He. cbn [fst snd] in *.
    eexists s, _, st2, (ws ++ (li, ri) :: rs). split; [exact Hloop|].
    cbn [insertionBlock rightHalf insertionBlockIndex outputBlockNumber split_batchIndex]. split; [done|]. split.
    { rewrite (outputs_at _ st) by done. rewrite Hw1. cbn [mbind result_bind].
      destruct (embed st1) as [[s1 i1] out1] eqn:He1. destruct (negb (PmaEntry.isEmpty (cur_right cur))).
      - rewrite (outputs_at _ st1) by done. rewrite Hw2. cbn [mbind result_bind].
        by destruct (embed st2) as [[s2 i2] out2].
      - injection Hw2 as <-. by rewrite He1. }
    split_and!; [done|done|by eapply split_good|done|by destruct ws].
Qed.

End split.

(** * Moving blocks to the second array

    The tasks that do not work in place move all blocks of their range of the pma to
    consecutive cells of [swapPma].  These cells are a [BlockSink]; with it the split loop
    of [insertIntoBlockWithSplit] is that of [BlockSplit.v]. *)

(** What [mergeFaster] needs: signed 16-bit indices, and keys other than zero if assertions
    are compiled. *)
Class FasterMergeOk `{T : SdsTypes} `{C : BlockConfig} : Prop := {
  MaxSize_signed : MaxSize ≤ 32768;
  null_is_zero : NDEBUG = true ∨ NULL_KEY = 0;
}.

Section output.
Context `{T : SdsTypes} `{C : BlockConfig}.
Context `{BC : !BlockConfigOk} `{HB : !HalfBlocks} `{FM : !FasterMergeOk}.
Implicit Types (s : Sds) (e b : PmaEntry) (u w : list PmaEntry).
Implicit Types (l rest batch es pre post : list ValueType) (ks : list Z).
Implicit Types (ws bs : list (list ValueType * list ValueType)).

Lemma null_free_zero l : (NULL_KEY ∉ keys l) → NDEBUG = true ∨ (0 ∉ keys l).
Proof. intros Hn. destruct null_is_zero as [?|Hz]; [by left|right]. by rewrite <-Hz. Qed.

(** Both merges, as the code chooses between them. *)
Lemma merge_either (fast : bool) b l rest pre es post :
  represents b l rest → sorted l → sorted es → es ≠ [] → zlen l + zlen es ≤ MaxSize →
  BlockFacts.fresh l rest (keys es) → (NULL_KEY ∉ keys l) → (NULL_KEY ∉ keys es) →
  ∃ b' rest', (if fast then OverallocatedPmaEntry.mergeFaster b (pre ++ es ++ post) (zlen pre) (zlen es)
               else OverallocatedPmaEntry.merge b (pre ++ es ++ post) (zlen pre) (zlen es)) = Ok b' ∧
    represents b' (smerge l es) rest' ∧
    ∀ v, v ∈ rest' → v ∈ rest ∨ keyOfValue v ∈ keys (smerge l es).
Proof.
  intros Hb Hs Hse Hne Hfit Hfr Hnl Hne'. destruct fast.
  - apply (mergeFaster_ok b l rest pre es post); try done; [apply MaxSize_signed|].
    destruct (null_free_zero l Hnl); [by left|]. destruct (null_free_zero es Hne'); [by left|by right].
  - destruct (merge_ok b l rest pre es post) as (b'&used&rest'&Hm&Hr&->&_);
      [done|done|by apply sorted_nondecreasing|done..|].
    exists b', rest'. split_and!; [done|done|]. intros v Hv. left. apply elem_of_app. by right.
Qed.

(** ** Consecutive cells of [swapPma] *)

(** The [N] cells behind [sa] hold the blocks [ws], then null entries. *)
Definition out_cells (sa : list PmaEntry) (N : nat) (sz a : list PmaEntry) ws : Prop :=
  ∃ ents, a = sa ++ ents ++ replicate (N - length ws) PmaEntry.null_entry ++ sz ∧
    Forall2 entry_is ents ws ∧ (length ws ≤ N)%nat.

Lemma out_cells_start sa N sz : out_cells sa N sz (sa ++ replicate N PmaEntry.null_entry ++ sz) [].
Proof. exists []. rewrite Nat.sub_0_r. split_and!; [done|constructor|simpl; lia]. Qed.

Lemma out_cells_next sa N sz a ws b x :
  out_cells sa N sz a ws → zlen ws < Z.of_nat N → entry_is b x →
  at_ a (zlen sa + zlen ws) = Some PmaEntry.null_entry ∧
  ∃ a', zset a (zlen sa + zlen ws) b = Ok a' ∧ out_cells sa N sz a' (ws ++ [x]).
Proof.
  intros (ents&->&Hents&Hle) Hlt Hx. pose proof (Forall2_length _ _ _ Hents) as Hlen.
  replace (N - length ws)%nat with (S (N - length (ws ++ [x]))) by (unfold zlen in Hlt; rewrite length_app; simpl; lia).
  cbn [replicate app]. rewrite app_assoc.
  assert (zlen sa + zlen ws = zlen (sa ++ ents)) as -> by (rewrite zlen_app; unfold zlen; lia).
  split; [apply at_middle|]. rewrite zset_middle by done. eexists. split; [done|].
  exists (ents ++ [b]). split_and!.
  - by rewrite <-!app_assoc.
  - apply Forall2_app; [done|]. by constructor.
  - rewrite length_app. unfold zlen in Hlt. simpl. lia.
Qed.

(** The cells are inside the array. *)
Definition out_room s (sa : list PmaEntry) (N : nat) : Prop :=
  zlen sa + Z.of_nat N ≤ swapCapacity s ∧ zlen sa + Z.of_nat N ≤ size s.

Lemma writeBlock_ok s sa N sz ws b x :
  out_cells sa N sz (swapPma s) ws → out_room s sa N → zlen ws < Z.of_nat N → entry_is b x →
  ∃ a', writeBlock s b (zlen sa) (zlen ws) = Ok (set_swapPma s a') ∧ out_cells sa N sz a' (ws ++ [x]).
Proof.
  intros Ho [Hr1 Hr2] Hlt Hx. destruct (out_cells_next _ _ _ _ _ b x Ho Hlt Hx) as (Hat&a'&Hset&Ho').
  exists a'. split; [|done]. unfold writeBlock, getDenseWriteIndex.
  rewrite (assert_ok (negb (PmaEntry.isEmpty b))); cycle 1.
  { destruct Hx as [Hh _]. unfold PmaEntry.isEmpty. by rewrite (holds_has_block _ _ _ Hh). }
  cbn [mbind result_bind]. rewrite (assert_ok (_ <? swapCapacity s)) by (apply Z.ltb_lt; lia).
  cbn [mbind result_bind]. rewrite (assert_ok (_ <? size s)) by (apply Z.ltb_lt; lia).
  cbn [mbind result_bind]. rewrite AssertM_ok; cycle 1.
  { rewrite (zget_at _ _ _ Hat). done. }
  cbn [mbind result_bind]. unfold write_swapPma. by rewrite Hset.
Qed.

(** The cells behind the blocks [ws0] as a sink. *)
Section sink.
Variables (s1 : Sds) (sa : list PmaEntry) (N : nat) (sz : list PmaEntry).
Variables (ws0 : list (list ValueType * list ValueType)).
Hypothesis (room_ok : out_room s1 sa N).

#[local] Instance swapSink : BlockSink (Sds * Z) := {|
  emit b st := s ← writeBlock st.1 b (zlen sa) st.2; Ok (s, st.2 + 1);
  written st ws := ∃ a, st.1 = set_swapPma s1 a ∧ out_cells sa N sz a (ws0 ++ ws) ∧ st.2 = zlen (ws0 ++ ws);
  sink_limit := Z.of_nat N - zlen ws0;
  sink_accepts _ := True;
|}.

#[local] Instance swapSink_ok : BlockSinkOk swapSink.
Proof.
  intros [s o] ws b l rest (a&Hs&Ho&Hlen) Hb Hg _ Hlim. cbn [sink_limit swapSink] in Hlim. simpl in *. subst s o.
  destruct (writeBlock_ok (set_swapPma s1 a) sa N sz (ws0 ++ ws) b (l, rest)) as (a'&Hw&Ho'); try done; [zlen|].
  exists (set_swapPma s1 a', zlen (ws0 ++ ws) + 1). rewrite Hw. split; [done|]. exists a'.
  rewrite app_assoc. split_and!; [done|done|simpl; rewrite (zlen_app (ws0 ++ ws)); zlen].
Qed.

(** ** The split loop *)

Section split_loop.
Variables (blockIndex : Z) (pmaOutputRange : Interval).
Hypothesis (output_left : Interval.left pmaOutputRange = zlen sa).

Definition swap_embed (st : Sds * Z) : Sds * Z * Z := (st.1, blockIndex, st.2).

Lemma outputBlock_swap b st :
  outputBlock true (swap_embed st).1.1 b (swap_embed st).1.2 pmaOutputRange (swap_embed st).2 =
  (st ← emit b st; Ok (swap_embed st)).
Proof.
  unfold outputBlock, swap_embed. cbn [emit swapSink fst snd]. rewrite output_left.
  by destruct (writeBlock st.1 b _ st.2).
Qed.

Lemma splitLoop_swap l rest ks pre es post e :
  represents e l rest → sorted l → MinSize ≤ zlen l → stale (keys l ++ ks) rest → keyOfValue zeroValue ∈ ks →
  sorted es → (∀ k, k ∈ keys es → k ∉ ks) → out_cells sa N sz (swapPma s1) ws0 →
  (∀ n, n * MinSize ≤ zlen l + zlen es → n ≤ Z.of_nat N - zlen ws0) →
  ∃ a s st bs, splitLoop true (pre ++ es ++ post) pmaOutputRange (zlen pre + zlen es)
      (s1, mkSplitState e PmaEntry.null_entry blockIndex 0 (zlen pre) (zlen ws0)) = Ok (s, st) ∧
    split_batchIndex st = zlen pre + zlen es ∧
    ('(s, blockIndex, out) ← outputBlock true s (insertionBlock st) (insertionBlockIndex st)
       pmaOutputRange (outputBlockNumber st);
     if negb (PmaEntry.isEmpty (rightHalf st)) then
       '(s, _, out) ← outputBlock true s (rightHalf st) blockIndex pmaOutputRange out;
       Ok (s, out)
     else Ok (s, out)) = Ok (set_swapPma s1 a, zlen (ws0 ++ bs)) ∧
    out_cells sa N sz a (ws0 ++ bs) ∧ elements bs = smerge l es ∧ Forall (λ x, good_size x.1) bs ∧
    stales ks bs.
Proof.
  intros Hr Hsl Hmin Hst Hz Hses Hfr Hout Hspace.
  destruct (splitLoop_sink (K := swapSink) true pmaOutputRange swap_embed outputBlock_swap (s1, zlen ws0) s1 blockIndex (zlen ws0)
    l rest ks pre es post e) as (s&x&st'&bs&Hloop&Hi&Hlast&(a&Ha&Ho&Hn)&Hel&Hg&Hstl&_); try done.
  - exists (swapPma s1). rewrite app_nil_r. split_and!; [by destruct s1|done|done].
  - exists a, s, x, bs. cbn [swap_embed fst snd] in Hlast. rewrite Ha, Hn in Hlast. by split_and!.
Qed.

End split_loop.

(** ** The fill loop *)

Section fill_loop.
Variables (pmaOutputRange : Interval).
Hypothesis (output_left : Interval.left pmaOutputRange = zlen sa).

Definition fill_state_of (st : (Sds * Z) * PmaEntry * Z) : Sds * PmaEntry * Z * Z :=
  (st.1.1.1, st.1.2, st.2, st.1.1.2).

Lemma nextInsertionBlock_swap s o b remaining r :
  nextBlock b ((0 <? remaining) && (remaining <? MinSize)) (s, o) = Ok r →
  nextInsertionBlock s b remaining pmaOutputRange o = Ok (r.1.1, r.2) ∧ r.1.2 = o + 1.
Proof.
  unfold nextBlock, nextInsertionBlock. rewrite output_left. cbn [emit swapSink fst snd].
  change (OverallocatedPmaEntry.allocateBlock) with (PmaEntry.allocateBlock).
  destruct (_ && _).
  - destruct (PmaEntry.split b) as [[b1 b2]|] eqn:Hs; [|done].
    rewrite (split_forgets _ _ Hs). cbn [mbind result_bind].
    destruct (writeBlock s b1 (zlen sa) o) as [s'|]; [|done]. cbn [mbind result_bind]. by intros [= <-].
  - destruct (PmaEntry.allocateBlock PmaEntry.null_entry) as [b2|]; [|done]. cbn [mbind result_bind].
    destruct (writeBlock s b (zlen sa) o) as [s'|]; [|done]. cbn [mbind result_bind]. by intros [= <-].
Qed.

Lemma insertIntoEmptyRange_swap pre es post :
  sorted es → MinSize ≤ zlen es → (∀ n, n * MinSize ≤ zlen es → n ≤ Z.of_nat N - zlen ws0) →
  (NULL_KEY ∉ keys es) → (keyOfValue zeroValue ∉ keys es) → out_cells sa N sz (swapPma s1) ws0 →
  ∃ a bs, insertIntoEmptyRange s1 (pre ++ es ++ post) (mkInterval (zlen pre) (zlen pre + zlen es))
      (zlen pre) pmaOutputRange (zlen ws0) = Ok (set_swapPma s1 a, zlen pre + zlen es, zlen (ws0 ++ bs)) ∧
    out_cells sa N sz a (ws0 ++ bs) ∧ elements bs = es ∧ Forall (λ x, good_size x.1) bs ∧
    stales [keyOfValue zeroValue] bs.
Proof.
  intros Hs Hen Hspace Hnull Hzero Hout. unfold insertIntoEmptyRange. pose proof MinSize_two.
  change (OverallocatedPmaEntry.allocateBlock) with (PmaEntry.allocateBlock).
  destruct (allocateBlock_ok PmaEntry.null_entry) as (b0&->&_&Hb0); [done..|]. cbn [mbind result_bind].
  set (batchRange := mkInterval (zlen pre) (zlen pre + zlen es)).
  destruct (filling_ok (K := swapSink) OverallocatedPmaEntry.mergeFaster pre es post Hs Hen Hspace (λ _ _, I)) with
    (f := fill_state_of) (idx := λ x : Sds * PmaEntry * Z * Z, x.1.2)
    (cond := λ x : Sds * PmaEntry * Z * Z, let '(_, _, batchIndex, _) := x in Ok (batchIndex <? zlen pre + zlen es))
    (body := emptyRangeBody (pre ++ es ++ post) batchRange pmaOutputRange)
    (s := (s1, zlen ws0)) (b := b0) (rest := replicate (Z.to_nat MaxSize) zeroValue)
    as ([s' o]&b'&ws&li&Hloop&Hf&Hli&Hlt); try done.
  - intros b l rest p x q Hb Ha Hsx Hne Hfit Hk. apply (mergeFaster_append b l rest p x q); try done.
    + apply MaxSize_signed.
    + intros Hin%Hk. done.
    + apply null_free_zero. intros Hin%Hk. done.
  - intros [[[s o] b] i] st' _ _. unfold fillStep, emptyRangeBody, fill_state_of. cbn [fst snd].
    cbn [batchRange Interval.right].
    destruct (PmaEntry.size b =? MaxSize).
    + destruct (nextBlock _ _ _) as [[[s2 o2] b2]|] eqn:Hn; [|done].
      apply nextInsertionBlock_swap in Hn as [-> Ho]. cbn [mbind result_bind fst snd] in *. subst o2.
      destruct (OverallocatedPmaEntry.mergeFaster b2 _ _ _); [|done]. cbn [mbind result_bind]. by intros [= <-].
    + cbn [mbind result_bind].
      destruct (OverallocatedPmaEntry.mergeFaster b _ _ _); [|done]. cbn [mbind result_bind]. by intros [= <-].
  - exists (swapPma s1). rewrite app_nil_r. split_and!; [by destruct s1|done|done].
  - apply appendable_new.
  - unfold fill_state_of in Hloop. cbn [fst snd] in Hloop. unfold batchRange in *. cbn [Interval.right].
    rewrite Hloop. cbn [mbind result_bind].
    destruct (filled_size _ _ _ _ _ Hf) as [Hsz _].
    destruct (filled_last _ _ _ _ _ Hf Hli (λ _ _, I) Hlt) as ([s3 o3]&ri&Hw&(a&Ha&Ho&Hn)&Hel&Hg&Hst).
    cbn [emit swapSink fst snd] in Hw, Ha, Hn. unfold lastInsertionBlock. rewrite Hsz, output_left.
    destruct (Z.ltb_spec 0 (zlen li)); [|lia].
    destruct (writeBlock s' b' (zlen sa) o) as [s4|]; [|done]. cbn [mbind result_bind] in Hw |- *.
    injection Hw as -> <-. rewrite assert_ok by apply Z.eqb_refl. cbn [mbind result_bind].
    exists a, (ws ++ [(li, ri)]). rewrite Ha, Hn. by split_and!.
Qed.
End fill_loop.
End sink.

(** ** What a task may change *)

(** The manager has a counter for each of the aggregates that it counts. *)
Definition counts s : Prop :=
  0 < HierarchicalBlockSizeManager.AggregateWidth (sizeManager s) ∧
  zlen (HierarchicalBlockSizeManager.aggregates (sizeManager s)) = HierarchicalBlockSizeManager.size (sizeManager s).

(** The manager counts as many cells, in aggregates of the same width. *)
Definition alike s s' : Prop :=
  managed s' = managed s ∧
  HierarchicalBlockSizeManager.AggregateWidth (sizeManager s') = HierarchicalBlockSizeManager.AggregateWidth (sizeManager s).

(** Both arrays of entries and the counts of the manager. *)
Definition frame s s' : Prop :=
  ∃ p a (m : HierarchicalBlockSizeManager.HierarchicalBlockSizeManager),
    s' = set_sizeManager (set_swapPma (set_pma s p) a) m ∧ counts s' ∧ alike s s'.

Lemma frame_refl s : counts s → frame s s.
Proof. intros Hc. exists (pma s), (swapPma s), (sizeManager s). by destruct s. Qed.

Lemma frame_trans s s' s'' : frame s s' → frame s' s'' → frame s s''.
Proof.
  intros (p&a&m&->&_&[Hm HW]) (p'&a'&m'&->&Hc'&[Hm' HW']). exists p', a', m'. split_and!; [done|done|].
  split; congruence.
Qed.

Lemma frame_room s s' sa N : frame s s' → out_room s sa N → out_room s' sa N.
Proof. by intros (p&a&m&->&_). Qed.

(** In a task out of place the counts need not be right, but they are in bounds. *)
Lemma adjustBlockSize_any s i x y :
  counts s → 0 ≤ i < managed s →
  ∃ m, adjustBlockSize s i x y = Ok (set_sizeManager s m) ∧
    counts (set_sizeManager s m) ∧ alike s (set_sizeManager s m).
Proof.
  intros [HW Hl] Hi. unfold adjustBlockSize, HierarchicalBlockSizeManager.adjustBlockSize,
    HierarchicalBlockSizeManager.aggregateIndex. unfold managed in Hi.
  rewrite Z.quot_div_nonneg by lia. set (W := HierarchicalBlockSizeManager.AggregateWidth _) in *.
  destruct (at_in_bound (HierarchicalBlockSizeManager.aggregates (sizeManager s)) (i / W)) as [v Hv];
    [Z.div_mod_to_equations; nia|].
  erewrite fetch_add_ok by done. cbn [mbind result_bind]. eexists. split; [done|].
  split; [|done]. split; [done|]. simpl. by rewrite zlen_zupd.
Qed.

Lemma set_pma_frame s p : counts s → frame s (set_pma s p).
Proof. intros Hc. exists p, (swapPma s), (sizeManager s). by destruct s. Qed.

Lemma set_swapPma_frame s a : counts s → frame s (set_swapPma s a).
Proof. intros Hc. exists (pma s), a, (sizeManager s). by destruct s. Qed.

Lemma set_sizeManager_frame s m :
  counts (set_sizeManager s m) → alike s (set_sizeManager s m) → frame s (set_sizeManager s m).
Proof. intros Hc Hm. exists (pma s), (swapPma s), m. by destruct s. Qed.

End output.
