(* ===== verification/GbpmaRange.v ===== *)
(** * A task that moves its blocks to the second array

    [insertBatchRange] out of place: the blocks of the task's range move, one after the
    other, to consecutive cells of [swapPma]; on the way each takes its part of the batch. *)

From S2P Require Export GbpmaOutput.
Import BlockSeq OverallocatedBatchedSparseArray OverallocatedInsertion.
Import PmaEntry(PmaEntry).

Section cells.
Context `{T : SdsTypes} `{C : BlockConfig}.
Context `{BC : !BlockConfigOk} `{HB : !HalfBlocks}.
Implicit Types (s : Sds) (e b z : PmaEntry) (u w gap : list PmaEntry).
Implicit Types (l rest batch es pre post : list ValueType) (ks : list Z).
Implicit Types (ws bs : list (list ValueType * list ValueType)).

(** ** The cells of the range *)

Lemma first_block m :
  Forall cell_ok m → ∃ gap m', m = gap ++ m' ∧ Forall (λ x, x = PmaEntry.null_entry) gap ∧
    (m' = [] ∨ ∃ e m'', m' = e :: m'' ∧ block_ok e).
Proof.
  induction 1 as [|x m [Hx|Hx] Hm IH].
  - exists [], []. split_and!; [done|constructor|by left].
  - destruct IH as (gap&m'&->&Hg&Hm'). exists (x :: gap), m'. split_and!; [done|by constructor|done].
  - exists [], (x :: m). split_and!; [done|constructor|right]. by exists x, m.
Qed.

Lemma blocks_of_nulls gap m : Forall (λ x, x = PmaEntry.null_entry) gap → blocks_of (gap ++ m) = blocks_of m.
Proof. induction 1 as [|x gap -> _ IH]; [done|]. simpl app. by rewrite blocks_of_null. Qed.

Lemma findNext_gap s u gap m w i right :
  pma s = u ++ gap ++ m ++ w → Forall (λ x, x = PmaEntry.null_entry) gap →
  (m = [] ∨ ∃ e m', m = e :: m' ∧ block_ok e) →
  i = zlen u - 1 → right = zlen u + zlen gap + zlen m →
  findNext s i right = Ok (zlen u + zlen gap).
Proof.
  intros Hp Hg Hm -> ->. unfold findNext, Search.findNext, Search.skipEmpty.
  replace (zlen u - 1 + 1) with (zlen u) by lia.
  replace (Z.to_nat (zlen u + zlen gap + zlen m - zlen u)) with (length gap + length m)%nat by (unfold zlen; lia).
  change (@Search.skipEmpty) with (@Search.skipEmpty). revert u Hp. induction Hg as [|x gap -> Hg IH]; intros u Hp.
  - change (zlen []) with 0. rewrite !Z.add_0_r. apply while_exit. destruct Hm as [->|(e&m'&->&He)].
    + change (zlen []) with 0. by destruct (Z.ltb_spec (zlen u) (zlen u + 0)); [lia|].
    + destruct (Z.ltb_spec (zlen u) (zlen u + zlen (e :: m'))); [|zlen].
      change (arr_empty s (zlen u)) with (empty s (zlen u)).
      rewrite (empty_at s u e (m' ++ w)) by (done || by right). by rewrite (block_ok_has _ He).
  - simpl length. rewrite Nat.add_succ_l. erewrite while_iterate; [| |done].
    + specialize (IH (u ++ [PmaEntry.null_entry])). rewrite <-app_assoc in IH. specialize (IH Hp).
      replace (zlen (u ++ [PmaEntry.null_entry])) with (zlen u + 1) in IH by zlen.
      rewrite zlen_cons. replace (zlen u + (1 + zlen gap)) with (zlen u + 1 + zlen gap) by lia. exact IH.
    + destruct (Z.ltb_spec (zlen u) (zlen u + zlen (PmaEntry.null_entry :: gap) + zlen m)); [|zlen].
      change (arr_empty s (zlen u)) with (empty s (zlen u)).
      rewrite (empty_at s u PmaEntry.null_entry ((gap ++ m) ++ w)); [done|by rewrite Hp, <-app_assoc|by left].
Qed.

(** Behind a block that the batch elements [c1] go to, the others [c2] follow: everything
    in front of the head of the next block, or all if the next cell is the end. *)
Lemma part_of_block s u z w pre es post batchRange pmaRange :
  pma s = u ++ z :: w → cell_ok z → sorted es → Interval.right batchRange = zlen pre + zlen es →
  (zlen u = Interval.right pmaRange → z = PmaEntry.null_entry ∨ ∀ k, k ∈ keys es → k < PmaEntry.head z) →
  (zlen u ≠ Interval.right pmaRange → block_ok z) →
  ∃ c1 c2, es = c1 ++ c2 ∧
    (if zlen pre <? Interval.right batchRange then belongsBefore s (pre ++ es ++ post) (zlen pre) (zlen u)
     else Ok false) = Ok (bool_decide (c1 ≠ [])) ∧
    findLastBatchElementForBlock s (pre ++ es ++ post) (zlen pre) batchRange (zlen u) pmaRange =
      Ok (zlen pre + zlen c1) ∧
    (zlen u = Interval.right pmaRange → c2 = []) ∧
    (zlen u ≠ Interval.right pmaRange → below c1 (PmaEntry.head z) ∧ above (PmaEntry.head z - 1) c2).
Proof.
  intros Hp Hz Hs Hr Hend Hin. unfold findLastBatchElementForBlock, belongsBefore, head. rewrite Hr, Hp.
  rewrite (zget_at _ _ _ (at_middle _ _ _)). cbn [mbind result_bind].
  rewrite (empty_at s u z w Hp Hz).
  assert (∀ (v : ValueType) es', es = v :: es' → batchKey (pre ++ es ++ post) (zlen pre) = Ok (keyOfValue v)) as Hkey.
  { intros v es' ->. unfold batchKey. by erewrite zget_at by apply at_middle. }
  destruct (Z.eqb_spec (zlen u) (Interval.right pmaRange)) as [Heq|Hne].
  - exists es, []. rewrite app_nil_r. split_and!; try done. destruct es as [|e es].
    + change (zlen []) with 0. by destruct (Z.ltb_spec (zlen pre) (zlen pre + 0)); [lia|].
    + destruct (Z.ltb_spec (zlen pre) (zlen pre + zlen (e :: es))); [|zlen].
      rewrite (Hkey e es) by done. cbn [mbind result_bind]. rewrite bool_decide_eq_true_2 by done.
      destruct (Hend Heq) as [->|Hlt]; [by destruct (comp _ _)|].
      unfold comp. destruct (Z.ltb_spec (keyOfValue e) (PmaEntry.head z)) as [|Hge]; [done|].
      specialize (Hlt (keyOfValue e) ltac:(by left)). lia.
  - destruct (split_at_key es (PmaEntry.head z) Hs) as (c1&c2&->&Hc1&Hc2). exists c1, c2.
    split_and!; try done; cycle 1.
    { replace (Z.to_nat (zlen pre + zlen (c1 ++ c2) - zlen pre)) with (length (c1 ++ c2)) by (unfold zlen; lia).
      by apply (scan_batch pre c1 c2 post (Ok (PmaEntry.head z)) (PmaEntry.head z)). }
    rewrite (block_ok_has _ (Hin Hne)). cbn [negb]. destruct c1 as [|e c1].
    + rewrite bool_decide_eq_false_2 by (by intros ?). destruct c2 as [|e c2].
      * change (zlen ([] ++ [])) with 0. by destruct (Z.ltb_spec (zlen pre) (zlen pre + 0)); [lia|].
      * destruct (Z.ltb_spec (zlen pre) (zlen pre + zlen ([] ++ e :: c2))); [|done].
        rewrite (Hkey e c2) by done. cbn [mbind result_bind]. apply above_cons in Hc2 as [? _].
        unfold comp. by destruct (Z.ltb_spec (keyOfValue e) (PmaEntry.head z)); [lia|].
    + rewrite bool_decide_eq_true_2 by done.
      destruct (Z.ltb_spec (zlen pre) (zlen pre + zlen ((e :: c1) ++ c2))); [|zlen].
      rewrite (Hkey e (c1 ++ c2)) by done. cbn [mbind result_bind]. apply below_cons in Hc1 as [? _].
      unfold comp. by destruct (Z.ltb_spec (keyOfValue e) (PmaEntry.head z)); [|lia].
Qed.

End cells.

Section range.
Context `{T : SdsTypes} `{C : BlockConfig}.
Context `{BC : !BlockConfigOk} `{HB : !HalfBlocks} `{FM : !FasterMergeOk}.
Implicit Types (s : Sds) (e b z : PmaEntry) (u w gap : list PmaEntry).
Implicit Types (l rest batch es pre post : list ValueType) (ks : list Z).
Implicit Types (ws bs : list (list ValueType * list ValueType)).

(** The output cells of the task. *)
Variables (sa : list PmaEntry) (N : nat) (sz : list PmaEntry) (pmaOutputRange : Interval).
Hypothesis (output_left : Interval.left pmaOutputRange = zlen sa).

(** The state in front of a block: its cell, what was written, and room for more. *)
Record ready s u e w ws : Prop := {
  rd_pma : pma s = u ++ e :: w;
  rd_counts : counts s;
  rd_managed : zlen u < managed s;
  rd_out : out_cells sa N sz (swapPma s) ws;
  rd_room : out_room s sa N;
}.

(** The block became the blocks [bs] of [swapPma], which hold [l]. *)
Record moved s s' u w ws ks bs l : Prop := {
  mv_frame : frame s s';
  mv_pma : pma s' = u ++ PmaEntry.null_entry :: w;
  mv_out : out_cells sa N sz (swapPma s') (ws ++ bs);
  mv_elements : elements bs = l;
  mv_good : Forall (λ x, good_size x.1) bs;
  mv_stales : stales ks bs;
}.

Lemma moveBlock_ok s u e w ws l rest ks :
  ready s u e w ws → represents e l rest → good_size l → stale (keys l ++ ks) rest → zlen ws < Z.of_nat N →
  ∃ s', moveBlock s (zlen u) (Interval.left pmaOutputRange) (zlen ws) = Ok s' ∧
    moved s s' u w ws ks [(l, rest)] l.
Proof.
  intros [Hp Hc Hm Ho Hr] He Hg Hst Hlt. unfold moveBlock. rewrite output_left, Hp.
  rewrite (zget_at _ _ _ (at_middle _ _ _)). cbn [mbind result_bind].
  destruct (writeBlock_ok s sa N sz ws e (l, rest) Ho Hr Hlt He) as (a'&->&Ho'). cbn [mbind result_bind].
  unfold write_pma. simpl. rewrite Hp, zset_middle by done. cbn [mbind result_bind].
  eexists. split; [done|]. split; try done.
  - eapply frame_trans; [by apply (set_swapPma_frame s a')|]. by apply set_pma_frame.
  - apply elements_single.
  - by apply Forall_singleton.
Qed.

(** A block with room for its part of the batch. *)
Lemma insert_then_move s u e w ws l rest ks pre c post :
  ready s u e w ws → represents e l rest → sorted l → good_size l → stale (keys l ++ ks) rest →
  sorted c → c ≠ [] → (∀ k, k ∈ keys c → k ∉ ks) → (NULL_KEY ∉ keys l) → (NULL_KEY ∉ keys c) →
  zlen l + zlen c ≤ MaxSize → zlen ws < Z.of_nat N →
  ∃ s' bs, ('(s, batchIndex) ← insertIntoBlockWithoutSplit s (zlen u) (pre ++ c ++ post) (zlen pre) (zlen pre + zlen c);
            s ← moveBlock s (zlen u) (Interval.left pmaOutputRange) (zlen ws);
            Ok (s, batchIndex, zlen ws + 1)) = Ok (s', zlen pre + zlen c, zlen (ws ++ bs)) ∧
    moved s s' u w ws ks bs (smerge l c).
Proof.
  intros [Hp Hc Hm Ho Hr] He Hs Hg Hst Hsc Hne Hfr Hnl Hnc Hfit Hlt. pose proof MaxSize_u16.
  pose proof (zlen_nonneg l). pose proof (zlen_nonneg c).
  destruct (merge_either (FasterMergeMinimum s <=? zlen c) e l rest pre c post He Hs Hsc Hne Hfit
    (stale_fresh _ _ _ _ Hst Hfr) Hnl Hnc) as (e'&rest'&Hmerge&He'&Hrest').
  unfold insertIntoBlockWithoutSplit, blockSize. rewrite Hp, (zget_at _ _ _ (at_middle _ _ _)).
  cbn [mbind result_bind]. replace (zlen pre + zlen c - zlen pre) with (zlen c) by lia.
  rewrite u16_small by lia. rewrite Hmerge. cbn [mbind result_bind].
  unfold write_pma at 1. rewrite Hp, zset_middle by done. cbn [mbind result_bind].
  destruct (adjustBlockSize_any (set_pma s (u ++ e' :: w)) (zlen u) (PmaEntry.size e) (PmaEntry.size e'))
    as (m&->&Hcm&Hmm); [done|pose proof (zlen_nonneg u); done|]. cbn [mbind result_bind].
  set (s1 := set_sizeManager (set_pma s (u ++ e' :: w)) m) in *.
  assert (frame s s1) as Hf1.
  { eapply frame_trans; [by apply (set_pma_frame s (u ++ e' :: w))|]. by apply set_sizeManager_frame. }
  destruct (moveBlock_ok s1 u e' w ws (smerge l c) rest' ks) as (s'&->&[Hf' Hp' Ho' Hel' Hg' Hst']); try done.
  - split; try done. rewrite (proj1 Hmm). done.
  - pose proof (length_smerge l c). destruct Hg. split; lia.
  - intros v [Hv|Hv]%Hrest'; [|by apply elem_of_app; left].
    apply (stale_smerge l c ks rest Hst) in Hv. done.
  - cbn [mbind result_bind]. exists s', [(smerge l c, rest')]. split; [do 2 f_equal; zlen|].
    split; try done. by eapply frame_trans.
Qed.

(** A block without it. *)
Lemma insert_and_split s u e w ws l rest ks pre c post :
  ready s u e w ws → represents e l rest → sorted l → good_size l → stale (keys l ++ ks) rest →
  keyOfValue zeroValue ∈ ks → sorted c → (∀ k, k ∈ keys c → k ∉ ks) →
  (∀ n, n * MinSize ≤ zlen l + zlen c → n ≤ Z.of_nat N - zlen ws) →
  ∃ s' bs, insertIntoBlockWithSplit true s (zlen u) (pre ++ c ++ post) (zlen pre) (zlen pre + zlen c)
      pmaOutputRange (zlen ws) = Ok (s', zlen pre + zlen c, zlen (ws ++ bs)) ∧
    moved s s' u w ws ks bs (smerge l c).
Proof.
  intros [Hp Hc Hm Ho Hr] He Hs [Hg _] Hst Hz Hsc Hfr Hsp. unfold insertIntoBlockWithSplit.
  rewrite Hp, (zget_at _ _ _ (at_middle _ _ _)). cbn [mbind result_bind].
  destruct (adjustBlockSize_any s (zlen u) (PmaEntry.size e) 0) as (m&->&Hcm&Hmm);
    [done|pose proof (zlen_nonneg u); done|]. cbn [mbind result_bind].
  unfold write_pma. change (pma (set_sizeManager s m)) with (pma s).
  rewrite Hp, zset_middle by done. cbn [mbind result_bind].
  set (s1 := set_pma (set_sizeManager s m) (u ++ PmaEntry.null_entry :: w)).
  destruct (splitLoop_swap s1 sa N sz ws Hr (zlen u) pmaOutputRange output_left l rest ks pre c post e)
    as (a&s2&st&bs&Hloop&Hbi&Hlast&Ho'&Hel&Hgd&Hstl); try done.
  rewrite Hloop. cbn [mbind result_bind].
  destruct (outputBlock true s2 (insertionBlock st) (insertionBlockIndex st) pmaOutputRange (outputBlockNumber st))
    as [[[s3 i3] o3]|]; [|done]. cbn [mbind result_bind] in Hlast |- *. rewrite Hlast. cbn [mbind result_bind].
  exists (set_swapPma s1 a), bs. rewrite Hbi. split; [done|]. split; try done.
  eapply frame_trans; [by apply (set_sizeManager_frame s m)|].
  eapply frame_trans; [by apply (set_pma_frame _ (u ++ PmaEntry.null_entry :: w))|]. by apply set_swapPma_frame.
Qed.

(** ** One iteration, and the loop *)

Lemma insertElements_ok s u e w ws l rest ks pre c post next batchRange pmaRange :
  ready s u e w ws → represents e l rest → sorted l → good_size l → stale (keys l ++ ks) rest →
  keyOfValue zeroValue ∈ ks → sorted c → c ≠ [] → (∀ k, k ∈ keys c → k ∉ ks) →
  (NULL_KEY ∉ keys l) → (NULL_KEY ∉ keys c) →
  (∀ n, n * MinSize ≤ zlen l + zlen c → n ≤ Z.of_nat N - zlen ws) →
  findLastBatchElementForBlock s (pre ++ c ++ post) (zlen pre) batchRange next pmaRange =
    Ok (zlen pre + zlen c) →
  ∃ s' bs, insertElementsIntoBlock true s (zlen u) next pmaRange pmaOutputRange (pre ++ c ++ post)
      (zlen pre) batchRange (zlen ws) = Ok (s', zlen pre + zlen c, zlen (ws ++ bs)) ∧
    moved s s' u w ws ks bs (smerge l c).
Proof.
  intros Hrd He Hs Hg Hst Hz Hsc Hne Hfr Hnl Hnc Hsp Hfind.
  unfold insertElementsIntoBlock, insertElementsIntoBlockWithPrecalculatedInsertionWidths.
  rewrite Hfind. cbn [mbind result_bind].
  assert (0 < zlen c) by (destruct c; [done|zlen]).
  rewrite (assert_ok (0 <? _)) by (apply Z.ltb_lt; lia). cbn [mbind result_bind].
  unfold blockSize. rewrite (rd_pma _ _ _ _ _ Hrd), (zget_at _ _ _ (at_middle _ _ _)). cbn [mbind result_bind].
  rewrite (block_size _ _ _ He). replace (zlen pre + zlen c - zlen pre) with (zlen c) by lia.
  assert (zlen ws < Z.of_nat N).
  { pose proof Hg as [? _]. specialize (Hsp 1 ltac:(lia)). lia. }
  destruct (Z.leb_spec (zlen l + zlen c) MaxSize).
  - by eapply insert_then_move.
  - by eapply insert_and_split.
Qed.

Lemma outOfPlaceBody_ok s u e w ws l rest ks pre c post next next' batchRange pmaRange :
  ready s u e w ws → represents e l rest → sorted l → good_size l → stale (keys l ++ ks) rest →
  keyOfValue zeroValue ∈ ks → sorted c → (∀ k, k ∈ keys c → k ∉ ks) →
  (NULL_KEY ∉ keys l) → (NULL_KEY ∉ keys c) →
  (∀ n, n * MinSize ≤ zlen l + zlen c → n ≤ Z.of_nat N - zlen ws) → zlen u < Interval.right pmaRange →
  (if zlen pre <? Interval.right batchRange then belongsBefore s (pre ++ c ++ post) (zlen pre) next
   else Ok false) = Ok (bool_decide (c ≠ [])) →
  findLastBatchElementForBlock s (pre ++ c ++ post) (zlen pre) batchRange next pmaRange =
    Ok (zlen pre + zlen c) →
  (∀ s', pma s' = u ++ PmaEntry.null_entry :: w → findNext s' next (Interval.right pmaRange) = Ok next') →
  ∃ s' bs, outOfPlaceBody (pre ++ c ++ post) batchRange pmaRange pmaOutputRange
      (s, zlen pre, zlen u, next, zlen ws) = Ok (s', zlen pre + zlen c, next, next', zlen (ws ++ bs)) ∧
    moved s s' u w ws ks bs (smerge l c).
Proof.
  intros Hrd He Hs Hg Hst Hz Hsc Hfr Hnl Hnc Hsp Hlt Hhere Hfind Hnext. unfold outOfPlaceBody.
  rewrite Hhere. cbn [mbind result_bind]. destruct (bool_decide_reflect (c ≠ [])) as [Hne|He'].
  - rewrite assert_ok by (by apply Z.ltb_lt). cbn [mbind result_bind].
    destruct (insertElements_ok s u e w ws l rest ks pre c post next batchRange pmaRange)
      as (s'&bs&->&Hm); try done. cbn [mbind result_bind].
    rewrite Hnext by (apply (mv_pma _ _ _ _ _ _ _ _ Hm)). cbn [mbind result_bind]. by exists s', bs.
  - assert (c = []) as -> by (destruct c; [done|by destruct He']).
    assert (zlen ws < Z.of_nat N).
    { pose proof Hg as [? _]. pose proof (zlen_nonneg (@nil ValueType)). specialize (Hsp 1 ltac:(lia)). lia. }
    destruct (moveBlock_ok s u e w ws l rest ks) as (s'&->&Hm); try done. cbn [mbind result_bind].
    rewrite Hnext by (apply (mv_pma _ _ _ _ _ _ _ _ Hm)). cbn [mbind result_bind].
    exists s', [(l, rest)]. rewrite smerge_nil. split; [|done]. change (zlen []) with 0.
    rewrite Z.add_0_r. do 2 f_equal. zlen.
Qed.

(** The elements of the cells [m] of the range, which the batch part [es] goes to. *)
Record mergeable m ks es (room : Z) : Prop := {
  mg_good : Forall (λ x, good_size x.1) (blocks_of m);
  mg_sorted : sorted (elements (blocks_of m));
  mg_stales : stales ks (blocks_of m);
  mg_null : NULL_KEY ∉ keys (elements (blocks_of m));
  mg_batch : sorted es;
  mg_fresh : ∀ k, k ∈ keys es → k ∉ ks;
  mg_batch_null : NULL_KEY ∉ keys es;
  mg_room : ∀ n, n * MinSize ≤ zlen (elements (blocks_of m)) + zlen es → n ≤ room;
}.

(** What the loop has done when it is behind the cells. *)
Definition task_done s s' u (n : nat) w ws ks bs l : Prop :=
  frame s s' ∧ pma s' = u ++ replicate n PmaEntry.null_entry ++ w ∧
  out_cells sa N sz (swapPma s') (ws ++ bs) ∧ elements bs = l ∧
  Forall (λ x, good_size x.1) bs ∧ stales ks bs.

(** The first block with its part [c1] of the batch, and what is left for the others. *)
Lemma mergeable_split l rest e m ks c1 c2 room :
  represents e l rest → mergeable (e :: m) ks (c1 ++ c2) room →
  sorted l ∧ good_size l ∧ stale (keys l ++ keys (elements (blocks_of m)) ++ ks) rest ∧
  (NULL_KEY ∉ keys l) ∧ sorted c1 ∧ (NULL_KEY ∉ keys c1) ∧
  (∀ n, n * MinSize ≤ zlen l + zlen c1 → n ≤ room) ∧
  elements (blocks_of (e :: m)) = l ++ elements (blocks_of m).
Proof.
  intros He [Hg Hs Hst Hn Hb Hf Hbn Hr].
  rewrite blocks_of_cons, (group_of_block _ _ _ He) in *. cbn [app] in *.
  rewrite elements_cons in *. cbn [fst] in *. rewrite keys_app, elem_of_app in Hn, Hbn.
  apply Forall_cons in Hg as [Hgl _]. apply sorted_app in Hs as (Hsl&_&_). destruct Hst as [Hst _].
  apply sorted_app in Hb as (Hb&_&_). split_and!; try done; try tauto. intros n Hle. apply Hr. zlen.
Qed.

Lemma mergeable_rest l rest e m m' ks c1 c2 room bs :
  represents e l rest → mergeable (e :: m) ks (c1 ++ c2) room → blocks_of m' = blocks_of m →
  elements bs = smerge l c1 → Forall (λ x, good_size x.1) bs →
  mergeable m' ks c2 (room - zlen bs).
Proof.
  intros He [Hg Hs Hst Hn Hb Hf Hbn Hr] Hm' Hbs Hgbs.
  rewrite blocks_of_cons, (group_of_block _ _ _ He) in *. cbn [app] in *.
  rewrite elements_cons in *. cbn [fst] in *. rewrite keys_app, elem_of_app in Hn, Hbn.
  apply Forall_cons in Hg as [_ Hg]. apply sorted_app in Hs as (_&Hs&_). destruct Hst as [_ Hst].
  apply sorted_app in Hb as (_&Hb&_). split; rewrite ?Hm'; try done; try tauto.
  - intros k Hk. apply Hf. rewrite keys_app, elem_of_app. by right.
  - intros n Hle. pose proof (blocks_bound bs Hgbs) as Hbb. rewrite Hbs in Hbb.
    pose proof (length_smerge l c1). specialize (Hr (n + zlen bs) ltac:(zlen)). lia.
Qed.

Lemma smerge_parts l l2 c1 c2 :
  (∀ k, k ∈ keys c1 → above k l2) → (∀ k, k ∈ keys c2 → below (smerge l c1) k) →
  smerge (l ++ l2) (c1 ++ c2) = smerge l c1 ++ smerge l2 c2.
Proof. intros H1 H2. by rewrite smerge_app, smerge_app_l, smerge_app_r. Qed.

(** The first element of the cells from a block on is the head of the block. *)
Lemma head_first e m :
  block_ok e → ∃ v l, elements (blocks_of (e :: m)) = v :: l ∧ PmaEntry.head e = keyOfValue v.
Proof.
  intros (v&l&rest&He&_). exists v, (l ++ elements (blocks_of m)).
  rewrite blocks_of_cons, (group_of_block _ _ _ He). by destruct He as [_ Hh].
Qed.

(** Parts of the batch on the two sides of the head of the next block. *)
Lemma merge_around l e2 m ks c1 c2 :
  block_ok e2 → sorted (l ++ elements (blocks_of (e2 :: m))) →
  below c1 (PmaEntry.head e2) → above (PmaEntry.head e2 - 1) c2 →
  smerge (l ++ elements (blocks_of (e2 :: m))) (c1 ++ c2) =
    smerge l c1 ++ smerge (elements (blocks_of (e2 :: m))) c2 ∧
  (∀ k, k ∈ keys c1 → (k ∉ ks) → k ∉ keys (elements (blocks_of (e2 :: m))) ++ ks).
Proof.
  intros He2 Hs Hc1 Hc2. destruct (head_first e2 m He2) as (v&l2&Heq&Hh). rewrite Heq, Hh in *.
  apply sorted_middle in Hs as (_&_&Hl&Hl2).
  assert (∀ k, k ∈ keys c1 → above k (v :: l2)) as H1.
  { intros k Hk. rewrite below_keys in Hc1. specialize (Hc1 k Hk). apply above_cons.
    split; [done|]. eapply above_weaken; [exact Hl2|lia]. }
  split; [apply smerge_parts; [exact H1|]|].
  - intros k Hk. rewrite above_keys in Hc2. specialize (Hc2 k Hk). apply below_keys.
    intros k' [Hk'|Hk']%keys_smerge; [rewrite below_keys in Hl; specialize (Hl k' Hk')|
      rewrite below_keys in Hc1; specialize (Hc1 k' Hk')]; lia.
  - intros k Hk Hks. rewrite elem_of_app. intros [Hin|Hin]; [|done].
    by apply (above_not_in _ _ (H1 k Hk)).
Qed.

Lemma task_done_step s s1 s2 u n m z w ws ks bs1 bs2 gap l1 l2 c :
  moved s s1 u (gap ++ m ++ z :: w) ws (keys l2 ++ ks) bs1 l1 →
  Forall (λ x, x = PmaEntry.null_entry) gap →
  task_done s1 s2 (u ++ PmaEntry.null_entry :: gap) n (z :: w) (ws ++ bs1) ks bs2 (smerge l2 c) →
  task_done s s2 u (S (length gap + n)) (z :: w) ws ks (bs1 ++ bs2) (l1 ++ smerge l2 c).
Proof.
  intros [Hf1 _ _ Hel1 Hg1 Hst1] Hgap (Hf2&Hp2&Ho2&Hel2&Hg2&Hst2). split_and!.
  - by eapply frame_trans.
  - rewrite Hp2, <-app_assoc. simpl. do 2 f_equal. rewrite replicate_add, <-app_assoc. f_equal.
    clear - Hgap. induction Hgap as [|x gap -> _ IH]; [done|]. simpl. by f_equal.
  - by rewrite app_assoc.
  - by rewrite elements_app, Hel1, Hel2.
  - by apply Forall_app.
  - apply stales_app. split; [|done]. eapply stales_mono; [exact Hst1|]. intros k.
    rewrite Hel2, !elem_of_app, keys_smerge. tauto.
Qed.

(** The index of the next block is determined by the cells. *)
Lemma next_after u e gap m z w right :
  Forall cell_ok m → right = zlen u + 1 + zlen gap + zlen m →
  ∃ next, ∀ s, pma s = u ++ PmaEntry.null_entry :: gap ++ m ++ z :: w →
    findNext s (zlen (u ++ e :: gap)) right = Ok next.
Proof.
  intros Hm ->. destruct m as [|x m].
  - exists (zlen (u ++ e :: gap) + 1). intros s _. unfold findNext, Search.findNext, Search.skipEmpty.
    apply while_exit. destruct (Z.ltb_spec (zlen (u ++ e :: gap) + 1) (zlen u + 1 + zlen gap + zlen (@nil PmaEntry))); [zlen|done].
  - apply Forall_cons in Hm as [_ Hm]. destruct (first_block m Hm) as (gap'&m'&->&Hgap'&Hm').
    exists (zlen (u ++ e :: gap ++ [x]) + zlen gap'). intros s Hp.
    rewrite (findNext_gap s (u ++ PmaEntry.null_entry :: gap ++ [x]) gap' m' (z :: w)); try done.
    + f_equal. zlen.
    + rewrite Hp. by simplify_list_eq.
    + zlen.
    + zlen.
Qed.

(** The loop in front of the block [e], with the cells [m] of the range behind it, the cell
    [z] behind the range, and the rest [es] of the batch part. *)
Record at_block s u e m z w ws es ks : Prop := {
  ab_pma : pma s = u ++ (e :: m) ++ z :: w;
  ab_block : block_ok e;
  ab_cells : Forall cell_ok m;
  ab_end : cell_ok z;
  ab_last : z = PmaEntry.null_entry ∨ ∀ k, k ∈ keys es → k < PmaEntry.head z;
  ab_counts : counts s;
  ab_managed : zlen u + zlen (e :: m) ≤ managed s;
  ab_out : out_cells sa N sz (swapPma s) ws;
  ab_room : out_room s sa N;
  ab_mergeable : mergeable (e :: m) ks es (Z.of_nat N - zlen ws);
}.

(** Null entries up to the next block, or up to the end of the range. *)
Definition then_block (m : list PmaEntry) : Prop := m = [] ∨ ∃ x m', m = x :: m' ∧ block_ok x.

(** The part [c1] of the batch for the first block, and what the searches make of it. *)
Record part_for s u e gap m pre es post ks (batchRange pmaRange : Interval) c1 c2 : Prop := {
  pf_es : es = c1 ++ c2;
  pf_last : m = [] → c2 = [];
  pf_here : (if zlen pre <? Interval.right batchRange
             then belongsBefore s (pre ++ es ++ post) (zlen pre) (zlen (u ++ e :: gap)) else Ok false) = Ok (bool_decide (c1 ≠ []));
  pf_find : findLastBatchElementForBlock s (pre ++ es ++ post) (zlen pre) batchRange (zlen (u ++ e :: gap)) pmaRange =
            Ok (zlen pre + zlen c1);
  pf_fresh : ∀ k, k ∈ keys c1 → k ∉ keys (elements (blocks_of m)) ++ ks;
  pf_merge : ∀ l, sorted (l ++ elements (blocks_of m)) →
    smerge (l ++ elements (blocks_of m)) (c1 ++ c2) = smerge l c1 ++ smerge (elements (blocks_of m)) c2;
}.

Lemma find_part s u e gap m z w ws pre es post ks batchRange pmaRange :
  at_block s u e (gap ++ m) z w ws es ks → then_block m →
  Interval.right batchRange = zlen pre + zlen es → Interval.right pmaRange = zlen u + zlen (e :: gap ++ m) →
  ∃ c1 c2, part_for s u e gap m pre es post ks batchRange pmaRange c1 c2.
Proof.
  intros [Hp He Hm Hz Hzk _ _ _ _ Hmrg] Hnext Hbr Hpr. apply Forall_app in Hm as [_ Hm].
  set (z2 := match m with [] => z | x :: _ => x end).
  set (w2 := match m with [] => w | _ :: m' => m' ++ z :: w end).
  assert (pma s = (u ++ e :: gap) ++ z2 :: w2) as Hp2.
  { rewrite Hp. replace (z2 :: w2) with (m ++ z :: w) by (by destruct m). by simplify_list_eq. }
  assert (zlen (u ++ e :: gap) = Interval.right pmaRange ↔ m = []) as Hend.
  { rewrite Hpr, !zlen_app, !zlen_cons, zlen_app. split; [|intros ->; unfold zlen; simpl; lia].
    intros ?. destruct m as [|x m]; [done|]. rewrite zlen_cons in *. pose proof (zlen_nonneg m). lia. }
  destruct (part_of_block s (u ++ e :: gap) z2 w2 pre es post batchRange pmaRange Hp2)
    as (c1&c2&->&Hhere&Hfind&Hlast&Hmid); [| |done| | |].
  { destruct m as [|x m']; [done|]. by apply Forall_cons in Hm as [? _]. }
  { apply (mg_batch _ _ _ _ Hmrg). }
  { intros Heq%Hend. unfold z2. by rewrite Heq. }
  { intros Hne. unfold z2. destruct Hnext as [->|(x&m'&->&Hx)]; [by destruct Hne; apply Hend|done]. }
  assert (∀ k, k ∈ keys c1 → k ∉ ks) as Hfr.
  { intros k Hk. apply (mg_fresh _ _ _ _ Hmrg). rewrite keys_app, elem_of_app. by left. }
  exists c1, c2. destruct Hnext as [->|(x&m'&->&Hx)].
  - rewrite (Hlast (proj2 Hend eq_refl)) in *. split; try done. intros l _. by rewrite !app_nil_r.
  - assert (zlen (u ++ e :: gap) ≠ Interval.right pmaRange) as Hne by (by intros ?%Hend).
    destruct (Hmid Hne) as [Hb1 Hb2]. split; try done.
    + intros k Hk. destruct (head_first x m' Hx) as (v&l2&Heq&Hh).
      assert (sorted ([] ++ elements (blocks_of (x :: m')))) as Hs.
      { pose proof (mg_sorted _ _ _ _ Hmrg) as Hs. simpl. change (e :: gap ++ x :: m') with ((e :: gap) ++ x :: m') in Hs.
        rewrite blocks_of_app, elements_app in Hs. by apply sorted_app in Hs as (_&Hs&_). }
      by apply (proj2 (merge_around [] x m' ks c1 c2 Hx Hs Hb1 Hb2)); [|apply Hfr].
    + intros l Hs. apply (merge_around l x m' ks c1 c2 Hx Hs Hb1 Hb2).
Qed.

(** One iteration: the block moves, with its part of the batch, and the loop is in front of
    the next block, if there is one. *)
Lemma outOfPlace_step s u e gap m z w ws pre es post ks batchRange pmaRange :
  at_block s u e (gap ++ m) z w ws es ks → Forall (λ x, x = PmaEntry.null_entry) gap → then_block m →
  keyOfValue zeroValue ∈ ks →
  Interval.right batchRange = zlen pre + zlen es → Interval.right pmaRange = zlen u + zlen (e :: gap ++ m) →
  ∃ c1 c2 l s1 bs1 next, es = c1 ++ c2 ∧ (m = [] → c2 = []) ∧
    outOfPlaceBody (pre ++ es ++ post) batchRange pmaRange pmaOutputRange
      (s, zlen pre, zlen u, zlen (u ++ e :: gap), zlen ws) =
      Ok (s1, zlen pre + zlen c1, zlen (u ++ e :: gap), next, zlen (ws ++ bs1)) ∧
    findNext s1 (zlen (u ++ e :: gap)) (Interval.right pmaRange) = Ok next ∧
    moved s s1 u (gap ++ m ++ z :: w) ws (keys (elements (blocks_of m)) ++ ks) bs1 (smerge l c1) ∧
    smerge (elements (blocks_of (e :: gap ++ m))) es = smerge l c1 ++ smerge (elements (blocks_of m)) c2 ∧
    (∀ x m', m = x :: m' → at_block s1 (u ++ PmaEntry.null_entry :: gap) x m' z w (ws ++ bs1) c2 ks).
Proof.
  intros Hat Hgap Hnext Hzero Hbr Hpr.
  destruct (find_part _ _ _ _ _ _ _ _ _ _ post _ _ _ Hat Hnext Hbr Hpr) as (c1&c2&[-> Hlast Hhere Hfind Hfr Hmerge]).
  pose proof Hat as [Hp He Hm Hz Hzk Hc Hmg Ho Hr Hmrg]. apply Forall_app in Hm as [_ Hm].
  pose proof He as (v&l0&rest&Hrep&Hvn). pose proof (zlen_nonneg gap). pose proof (zlen_nonneg m).
  destruct (mergeable_split (v :: l0) rest e (gap ++ m) ks c1 c2 _ Hrep Hmrg) as (Hsl&Hgl&Hstl&Hnl&Hsc&Hnc&Hsp&Helm).
  rewrite (blocks_of_nulls gap m Hgap) in Hstl, Helm.
  destruct (next_after u e gap m z w (Interval.right pmaRange)) as (next&Hnext');
    [done|by rewrite Hpr, zlen_cons, zlen_app; lia|].
  rewrite <-app_assoc in Hhere, Hfind.
  destruct (outOfPlaceBody_ok s u e (gap ++ m ++ z :: w) ws (v :: l0) rest (keys (elements (blocks_of m)) ++ ks) pre c1
    (c2 ++ post) (zlen (u ++ e :: gap)) next batchRange pmaRange) as (s1&bs1&Hbody&Hmv); try done.
  { split; try done; [by rewrite Hp; simplify_list_eq|zlen]. }
  { apply elem_of_app. by right. }
  { rewrite Hpr. zlen. }
  exists c1, c2, (v :: l0), s1, bs1, next. rewrite <-app_assoc.
  pose proof (mv_pma _ _ _ _ _ _ _ _ Hmv) as Hp1. pose proof (mv_frame _ _ _ _ _ _ _ _ Hmv) as Hf1.
  split_and!; try done; [by apply Hnext'| |].
  - rewrite Helm. apply Hmerge. rewrite <-Helm. apply (mg_sorted _ _ _ _ Hmrg).
  - intros x m' ->. destruct Hnext as [?|(x'&m''&[= <- <-]&Hx)]; [done|]. apply Forall_cons in Hm as [_ Hm'].
    pose proof Hf1 as (p1&a1&mm1&Hs1&Hc1&Hm1). split; try done.
    + rewrite Hp1. by simplify_list_eq.
    + destruct Hzk as [?|Hzk]; [by left|right]. intros k Hk. apply Hzk. rewrite keys_app, elem_of_app. by right.
    + rewrite (proj1 Hm1). zlen.
    + apply (mv_out _ _ _ _ _ _ _ _ Hmv).
    + by eapply frame_room.
    + rewrite zlen_app, Z.sub_add_distr. eapply mergeable_rest; [exact Hrep|exact Hmrg| | |].
      * by rewrite blocks_of_nulls.
      * apply (mv_elements _ _ _ _ _ _ _ _ Hmv).
      * apply (mv_good _ _ _ _ _ _ _ _ Hmv).
Qed.

Lemma outOfPlace_loop (n : nat) :
  ∀ m s u e z w ws pre es post ks next batchRange pmaRange (fuel : nat),
  (length m ≤ n)%nat → (length (e :: m) < fuel)%nat → at_block s u e m z w ws es ks → keyOfValue zeroValue ∈ ks →
  Interval.right batchRange = zlen pre + zlen es → Interval.right pmaRange = zlen u + zlen (e :: m) →
  findNext s (zlen u) (Interval.right pmaRange) = Ok next →
  ∃ s' bs nx, while fuel (λ '(_, _, blockIndex, _, _), Ok (blockIndex <? Interval.right pmaRange))
      (outOfPlaceBody (pre ++ es ++ post) batchRange pmaRange pmaOutputRange)
      (s, zlen pre, zlen u, next, zlen ws) =
      Ok (s', zlen pre + zlen es, Interval.right pmaRange, nx, zlen (ws ++ bs)) ∧
    task_done s s' u (length (e :: m)) (z :: w) ws ks bs (smerge (elements (blocks_of (e :: m))) es).
Proof.
  induction n as [n IH] using lt_wf_ind.
  intros m s u e z w ws pre es post ks next batchRange pmaRange fuel Hn Hfuel Hat Hzero Hbr Hpr Hnext.
  destruct fuel as [|fuel]; [simpl in Hfuel; lia|].
  destruct (first_block m (ab_cells _ _ _ _ _ _ _ _ _ Hat)) as (gap&m2&->&Hgap&Hm2).
  pose proof (zlen_nonneg gap). pose proof (zlen_nonneg m2).
  assert (next = zlen (u ++ e :: gap)) as ->.
  { pose proof (ab_pma _ _ _ _ _ _ _ _ _ Hat) as Hp. replace (u ++ (e :: gap ++ m2) ++ z :: w) with ((u ++ [e]) ++ gap ++ m2 ++ z :: w) in Hp
      by (by simplify_list_eq).
    rewrite (findNext_gap s (u ++ [e]) gap m2 (z :: w)) in Hnext; try done; [|zlen|zlen].
    injection Hnext as <-. zlen. }
  destruct (outOfPlace_step s u e gap m2 z w ws pre es post ks batchRange pmaRange)
    as (c1&c2&l&s1&bs1&next&->&Hlast&Hbody&Hnext1&Hmv&Hmerge&Hrest); try done.
  rewrite (while_iterate _ _ _ _ (s1, zlen pre + zlen c1, zlen (u ++ e :: gap), next, zlen (ws ++ bs1)));
    [|by destruct (Z.ltb_spec (zlen u) (Interval.right pmaRange)); [|zlen]|exact Hbody].
  assert (∃ s2 bs2 nx, while fuel (λ '(_, _, blockIndex, _, _), Ok (blockIndex <? Interval.right pmaRange))
      (outOfPlaceBody (pre ++ (c1 ++ c2) ++ post) batchRange pmaRange pmaOutputRange)
      (s1, zlen pre + zlen c1, zlen (u ++ e :: gap), next, zlen (ws ++ bs1)) =
      Ok (s2, zlen pre + zlen (c1 ++ c2), Interval.right pmaRange, nx, zlen (ws ++ bs1 ++ bs2)) ∧
    task_done s1 s2 (u ++ PmaEntry.null_entry :: gap) (length m2) (z :: w) (ws ++ bs1) ks bs2
      (smerge (elements (blocks_of m2)) c2)) as (s2&bs2&nx&Hloop&Hdone).
  { destruct m2 as [|x m3].
    - rewrite Hlast in * by done. assert (zlen (u ++ e :: gap) = Interval.right pmaRange) as -> by (rewrite Hpr, app_nil_r; zlen).
      exists s1, [], next. rewrite !app_nil_r. split.
      + destruct fuel; [simpl in Hfuel; lia|]. rewrite while_exit; [done|]. by rewrite Z.ltb_irrefl.
      + pose proof (mv_pma _ _ _ _ _ _ _ _ Hmv) as Hp1. pose proof (mv_frame _ _ _ _ _ _ _ _ Hmv) as (?&?&?&?&?&?). split_and!; try done; [by apply frame_refl|by rewrite Hp1; simplify_list_eq|].
        rewrite app_nil_r. apply (mv_out _ _ _ _ _ _ _ _ Hmv).
    - rewrite length_app in Hn. simpl in Hn, Hfuel. rewrite length_app in Hfuel. simpl in Hfuel.
      destruct (IH (length m3) ltac:(lia) m3 s1 (u ++ PmaEntry.null_entry :: gap) x z w
        (ws ++ bs1) (pre ++ c1) c2 post ks next batchRange pmaRange fuel) as (s2&bs2&nx&Hloop&Hdone); try done.
      + simpl. lia.
      + by apply Hrest.
      + rewrite Hbr. zlen.
      + rewrite Hpr. zlen.
      + rewrite <-Hnext1. f_equal. zlen.
      + exists s2, bs2, nx. split; [|exact Hdone]. rewrite <-!app_assoc in Hloop. rewrite <-(app_assoc c1).
        replace (zlen (u ++ e :: gap)) with (zlen (u ++ PmaEntry.null_entry :: gap)) by zlen.
        replace (zlen pre + zlen c1) with (zlen (pre ++ c1)) by zlen.
        replace (zlen pre + zlen (c1 ++ c2)) with (zlen (pre ++ c1) + zlen c2) by zlen. exact Hloop. }
  exists s2, (bs1 ++ bs2), nx. split; [exact Hloop|]. rewrite Hmerge.
  replace (length (e :: gap ++ m2)) with (S (length gap + length m2)) by (simpl; by rewrite length_app).
  by eapply task_done_step.
Qed.

Lemma findNext_first s u e m z w :
  pma s = u ++ (e :: m) ++ z :: w → Forall cell_ok m →
  ∃ next, findNext s (zlen u) (zlen u + zlen (e :: m)) = Ok next.
Proof.
  intros Hp Hm. destruct (first_block m Hm) as (gap&m'&->&Hg&Hm').
  eexists. apply (findNext_gap s (u ++ [e]) gap m' (z :: w)); try done; [|zlen|zlen].
  rewrite Hp. by simplify_list_eq.
Qed.

(** The whole task. *)
Lemma insertBatchRangeOutOfPlace_ok s u e m z w pre es post ks :
  pma s = u ++ (e :: m) ++ z :: w → block_ok e → Forall cell_ok m → cell_ok z →
  (z = PmaEntry.null_entry ∨ ∀ k, k ∈ keys es → k < PmaEntry.head z) →
  counts s → zlen u + zlen (e :: m) ≤ managed s → out_cells sa N sz (swapPma s) [] → out_room s sa N →
  keyOfValue zeroValue ∈ ks → mergeable (e :: m) ks es (Z.of_nat N) →
  ∃ s' bs, insertBatchRangeOutOfPlace s (pre ++ es ++ post) (mkInterval (zlen pre) (zlen pre + zlen es))
      (mkInterval (zlen u) (zlen u + zlen (e :: m))) pmaOutputRange = Ok (s', zlen bs) ∧
    task_done s s' u (length (e :: m)) (z :: w) [] ks bs (smerge (elements (blocks_of (e :: m))) es).
Proof.
  intros Hp He Hm Hz Hzk Hc Hmg Ho Hr Hzero Hmrg. unfold insertBatchRangeOutOfPlace.
  cbn [Interval.left Interval.right]. set (pmaRange := mkInterval (zlen u) (zlen u + zlen (e :: m))).
  set (batchRange := mkInterval (zlen pre) (zlen pre + zlen es)).
  assert (Interval.length pmaRange = zlen (e :: m)) as Hlen by (unfold Interval.length; simpl; lia).
  destruct (Z.eqb_spec (Interval.length pmaRange) 0); [rewrite Hlen in *; zlen|].
  rewrite AssertM_ok; cycle 1.
  { rewrite (empty_at s u e (m ++ z :: w)) by (done || by right). by rewrite (block_ok_has _ He). }
  cbn [mbind result_bind]. destruct (findNext_first s u e m z w Hp Hm) as (next&Hnext). rewrite Hnext.
  cbn [mbind result_bind].
  destruct (outOfPlace_loop (length m) m s u e z w [] pre es post ks next batchRange pmaRange
    (S (Z.to_nat (Interval.length pmaRange)))) as (s'&bs&nx&Hloop&Hdone); try done.
  - rewrite Hlen. unfold zlen. lia.
  - split; try done. change (zlen []) with 0. by rewrite Z.sub_0_r.
  - change (zlen []) with 0 in Hloop. unfold pmaRange, batchRange in Hloop |- *.
    cbn [Interval.left Interval.right] in Hloop |- *. rewrite Hloop. cbn [mbind result_bind].
    rewrite assert_ok by apply Z.eqb_refl. cbn [mbind result_bind]. by exists s', bs.
Qed.

End range.
