(* ===== verification/GbpmaInPlace.v ===== *)
(** * A task that works in place

    [insertBatchRange]: the blocks that a task reads keep their range of the pma.  A block
    that overflows is replaced by several; they are written next to each other, and other
    blocks of the range move aside.  The range is a [BlockSink] for them. *)

From S2P Require Export GbpmaOutput GbpmaRange.
Import BlockSeq OverallocatedBatchedSparseArray OverallocatedInsertion.
Import PmaEntry(PmaEntry).

Section in_place.
Context `{T : SdsTypes} `{C : BlockConfig}.
Context `{BC : !BlockConfigOk} `{HB : !HalfBlocks} `{FM : !FasterMergeOk}.
Implicit Types (s : Sds) (e b z : PmaEntry) (u w a m : list PmaEntry).
Implicit Types (l rest batch es pre post c : list ValueType) (ks : list Z).
Implicit Types (ws bs : list (list ValueType * list ValueType)).

(** ** The size manager follows *)

Lemma follows_trans s s' s'' x y : follows s s' x → follows s' s'' y → follows s s'' y.
Proof.
  intros (m&->&_&[HW HS]) (m'&->&Hv&[HW' HS']). exists m'. split_and!; [done|done|]. simpl in *. split; congruence.
Qed.

Lemma follows_refl s : manager_valid s → follows s s (pma s).
Proof. intros Hv. exists (sizeManager s). by destruct s. Qed.

(** The announced change of a cell, whether it is made before or afterwards. *)
Lemma adjust_cell s u e e' w :
  pma s = u ++ e :: w → manager_valid s → zlen u < managed s →
  ∃ mm, (∀ p, adjustBlockSize (set_pma s p) (zlen u) (PmaEntry.size e) (PmaEntry.size e') =
              Ok (set_sizeManager (set_pma s p) mm)) ∧
    follows s (set_sizeManager (set_pma s (u ++ e' :: w)) mm) (u ++ e' :: w).
Proof.
  intros Hp Hv Hb. unfold manager_valid, sizeView in Hv. rewrite Hp, fmap_app, fmap_cons in Hv.
  set (fu := PmaEntry.size <$> u) in *. set (fw := PmaEntry.size <$> w) in *.
  assert (zlen u = zlen fu) as Hu by (unfold fu, zlen; by rewrite length_fmap).
  destruct (adjustBlockSize_by _ _ (zlen fu) (PmaEntry.size e) (PmaEntry.size e') Hv) as (m&Ha&Hv'&[HW HS]).
  { unfold managed in Hb. pose proof (zlen_nonneg fu). lia. }
  exists m. rewrite Hu. split.
  - intros p. unfold adjustBlockSize. simpl. by rewrite Ha.
  - exists m. split; [done|]. split; [|by split].
    unfold manager_valid, sizeView. simpl. rewrite fmap_app, fmap_cons.
    unfold update_size in Hv'. simpl in Hv'. rewrite zupd_middle in Hv'.
    unfold size_at in Hv'. simpl in Hv'. rewrite at_middle in Hv'. simpl in Hv'.
    by replace (PmaEntry.size e + (PmaEntry.size e' - PmaEntry.size e)) with (PmaEntry.size e') in Hv' by lia.
Qed.

(** ** A block with room for its part of the batch *)

Lemma insertIntoBlockWithoutSplit_ok s u e w l rest ks pre c post :
  pma s = u ++ e :: w → manager_valid s → zlen u < managed s →
  represents e l rest → sorted l → stale (keys l ++ ks) rest →
  sorted c → c ≠ [] → (∀ k, k ∈ keys c → k ∉ ks) → (NULL_KEY ∉ keys l) → (NULL_KEY ∉ keys c) →
  zlen l + zlen c ≤ MaxSize →
  ∃ s' e' rest', insertIntoBlockWithoutSplit s (zlen u) (pre ++ c ++ post) (zlen pre) (zlen pre + zlen c) =
      Ok (s', zlen pre + zlen c) ∧
    follows s s' (u ++ e' :: w) ∧ represents e' (smerge l c) rest' ∧ stale (keys (smerge l c) ++ ks) rest'.
Proof.
  intros Hp Hv Hm He Hs Hst Hsc Hne Hfr Hnl Hnc Hfit. pose proof MaxSize_u16.
  pose proof (zlen_nonneg l). pose proof (zlen_nonneg c).
  destruct (merge_either (FasterMergeMinimum s <=? zlen c) e l rest pre c post He Hs Hsc Hne Hfit
    (stale_fresh _ _ _ _ Hst Hfr) Hnl Hnc) as (e'&rest'&Hmerge&He'&Hrest').
  unfold insertIntoBlockWithoutSplit, blockSize. rewrite Hp, (zget_at _ _ _ (at_middle _ _ _)).
  cbn [mbind result_bind]. replace (zlen pre + zlen c - zlen pre) with (zlen c) by lia.
  rewrite u16_small by lia. rewrite Hmerge. cbn [mbind result_bind].
  unfold write_pma. rewrite Hp, zset_middle by done. cbn [mbind result_bind].
  destruct (adjust_cell s u e e' w Hp Hv Hm) as (m&Ha&Hf). rewrite Ha. cbn [mbind result_bind].
  eexists _, e', rest'. split_and!; [done|exact Hf|done|].
  intros v [Hv'|Hv']%Hrest'; [|by apply elem_of_app; left].
  by apply (stale_smerge l c ks rest Hst) in Hv'.
Qed.

(** ** The range of a task as a sink *)

Section sink.
Variables (s1 : Sds) (u a d w : list PmaEntry) (range : Interval).
Hypothesis (cells : pma s1 = u ++ (a ++ PmaEntry.null_entry :: d) ++ w).
Hypothesis (range_is : range = mkInterval (zlen u) (zlen u + zlen (a ++ PmaEntry.null_entry :: d))).
Hypothesis (a_ok : Forall cell_ok a) (d_ok : Forall cell_ok d).
Hypothesis (valid_manager : manager_valid s1).
Hypothesis (in_size : Interval.right range ≤ size s1) (in_managed : Interval.right range ≤ managed s1).

(** The cells [m1] end with the last written block; the first one takes the null cell. *)
Record in_cells (st : Sds * Z) ws m1 m2 : Prop := {
  ic_follows : follows s1 st.1 (u ++ m1 ++ m2 ++ w);
  ic_index : st.2 = zlen u + zlen m1;
  ic_front : blocks_of m1 = blocks_of a ++ ws;
  ic_back : blocks_of m2 = blocks_of d;
  ic_length : zlen (m1 ++ m2) = zlen (a ++ PmaEntry.null_entry :: d);
  ic_ok : Forall cell_ok (m1 ++ m2);
  ic_start : ws = [] → m1 = a ∧ m2 = PmaEntry.null_entry :: d;
  ic_last : ws ≠ [] → zlen a < zlen m1 ∧ ∃ p e, m1 = p ++ [e] ∧ block_ok e;
}.

#[local] Instance rangeSink : BlockSink (Sds * Z) := {|
  emit b st := '(s, i) ← writeBlockInPlace st.1 b st.2 range; Ok (s, 1 + i);
  written st ws := ∃ m1 m2, in_cells st ws m1 m2;
  sink_limit := zlen (a ++ PmaEntry.null_entry :: d) - zlen (blocks_of (a ++ d));
  sink_accepts k := k ≠ NULL_KEY;
|}.

#[local] Instance rangeSink_ok : BlockSinkOk rangeSink.
Proof.
  intros [s i] ws b l rest (m1&m2&[Hf Hi H1 H2 Hl Hok Hstart Hlast]) Hb Hg Hacc Hlim.
  cbn [sink_limit rangeSink emit fst snd] in *. subst i.
  assert (block_ok b) as Hbok.
  { destruct l as [|v l]; [pose proof MinSize_two; destruct Hg; zlen|]. exists v, l, rest. split; [done|].
    apply Hacc. apply elem_of_keys_cons. by left. }
  pose proof Hf as (m&Hs&Hv&_). pose proof (follows_pma _ _ _ Hf) as Hp. pose proof (follows_managed _ _ _ Hf) as Hmg.
  destruct (writeBlockInPlace_ok s b u m1 m2 w range) as (s'&i&->&m1'&m2'&Hf'&->&H1'&H2'&Hl'&Hok'&Hpos&Hnull); try done.
  - rewrite Hl. rewrite !blocks_of_app, H1, H2 in *. rewrite !zlen_app in *. lia.
  - by rewrite range_is, Hl.
  - rewrite Hs. done.
  - by rewrite Hmg.
  - cbn [mbind result_bind]. eexists. split; [done|]. exists (m1' ++ [b]), m2'. split; cbn [fst snd].
    + rewrite <-!app_assoc. eapply follows_trans; [exact Hf|exact Hf'].
    + zlen.
    + rewrite blocks_of_app, H1', H1, blocks_of_cons, (group_of_block _ _ _ Hb), <-app_assoc. done.
    + by rewrite H2'.
    + rewrite <-Hl, <-Hl', <-app_assoc. done.
    + rewrite <-app_assoc. apply Forall_app in Hok' as [? ?]. apply Forall_app. split; [done|].
      constructor; [by right|done].
    + intros Hnil. by destruct ws.
    + intros _. split; [|by exists m1', b]. destruct (decide (ws = [])) as [Hw|Hw].
      * destruct (Hstart Hw) as [-> ->]. rewrite zlen_app, (Hnull d eq_refl). zlen.
      * destruct (Hlast Hw) as [? _]. zlen.
Qed.

Lemma in_cells_start : in_cells (s1, zlen u + zlen a) [] a (PmaEntry.null_entry :: d).
Proof.
  split; cbn [fst snd]; try done.
  - pose proof (follows_refl s1 valid_manager) as Hf. rewrite cells, <-app_assoc in Hf. exact Hf.
  - by rewrite app_nil_r.
  - apply Forall_app. split; [done|]. constructor; [by left|done].
Qed.

(** [outputBlockNumber] does not change. *)
Definition range_embed (out : Z) (st : Sds * Z) : Sds * Z * Z := (st.1, st.2, out).

Lemma outputBlock_range (out : Z) b st :
  outputBlock false (range_embed out st).1.1 b (range_embed out st).1.2 range (range_embed out st).2 =
  (st ← emit b st; Ok (range_embed out st)).
Proof.
  unfold outputBlock, range_embed. cbn [emit rangeSink fst snd].
  by destruct (writeBlockInPlace st.1 b st.2 range) as [[s i]|].
Qed.
End sink.

(** ** A block of the range takes its part of the batch *)

(** The cell between [a] and [d] became the blocks [bs], with the elements [l]; the other
    blocks of the range are as before, and its last new block is behind the cells [a]. *)
Record replaced s s' u a d w ks bs l m1 m2 : Prop := {
  rp_follows : follows s s' (u ++ (m1 ++ m2) ++ w);
  rp_front : blocks_of m1 = blocks_of a ++ bs;
  rp_back : blocks_of m2 = blocks_of d;
  rp_length : zlen (m1 ++ m2) = zlen a + 1 + zlen d;
  rp_ok : Forall cell_ok (m1 ++ m2);
  rp_last : ∃ p e, m1 = p ++ [e] ∧ block_ok e ∧ zlen a ≤ zlen p;
  rp_elements : elements bs = l;
  rp_good : Forall (λ x, good_size x.1) bs;
  rp_stales : stales ks bs;
}.

(** The block and what the batch part needs. *)
Record target e l rest ks c : Prop := {
  tg_block : represents e l rest;
  tg_sorted : sorted l;
  tg_good : good_size l;
  tg_stale : stale (keys l ++ ks) rest;
  tg_zero : keyOfValue zeroValue ∈ ks;
  tg_batch : sorted c;
  tg_some : c ≠ [];
  tg_fresh : ∀ k, k ∈ keys c → k ∉ ks;
  tg_null : NULL_KEY ∉ keys l;
  tg_batch_null : NULL_KEY ∉ keys c;
}.

Lemma keys_not_null l c k : (NULL_KEY ∉ keys l) → (NULL_KEY ∉ keys c) → k ∈ keys l ∨ k ∈ keys c → k ≠ NULL_KEY.
Proof. intros Hl Hc [Hk|Hk] ->; done. Qed.

Section insert.
Variables (s : Sds) (u a : list PmaEntry) (e : PmaEntry) (d w : list PmaEntry) (range : Interval).
Hypothesis (cells : pma s = u ++ (a ++ e :: d) ++ w).
Hypothesis (range_is : range = mkInterval (zlen u) (zlen u + (zlen a + 1 + zlen d))).
Hypothesis (a_ok : Forall cell_ok a) (d_ok : Forall cell_ok d).
Hypothesis (valid_manager : manager_valid s).
Hypothesis (in_size : Interval.right range ≤ size s) (in_managed : Interval.right range ≤ managed s).

Lemma target_cell : pma s = (u ++ a) ++ e :: d ++ w ∧ zlen u + zlen a = zlen (u ++ a) ∧ zlen (u ++ a) < managed s.
Proof.
  pose proof in_managed as Hm. rewrite range_is in Hm. cbn [Interval.right] in Hm. pose proof (zlen_nonneg d).
  split_and!; [rewrite cells; by simplify_list_eq|zlen|zlen].
Qed.

Lemma insertIntoBlockWithSplit_range l rest ks pre c post (out : Z) :
  target e l rest ks c →
  (∀ n, n * MinSize ≤ zlen l + zlen c → n ≤ zlen a + 1 + zlen d - zlen (blocks_of (a ++ d))) →
  ∃ s' bs m1 m2, insertIntoBlockWithSplit false s (zlen u + zlen a) (pre ++ c ++ post) (zlen pre) (zlen pre + zlen c)
      range out = Ok (s', zlen pre + zlen c, out) ∧ replaced s s' u a d w ks bs (smerge l c) m1 m2.
Proof.
  intros [He Hs [Hmin _] Hst Hz Hsc Hne Hfr Hnl Hnc] Hsp. destruct target_cell as (Hp&Hu&Hm).
  unfold insertIntoBlockWithSplit. rewrite Hu, Hp, (zget_at _ _ _ (at_middle _ _ _)). cbn [mbind result_bind].
  destruct (adjust_cell s (u ++ a) e PmaEntry.null_entry (d ++ w) Hp valid_manager Hm) as (mm&Ha&Hf).
  specialize (Ha (pma s)). replace (set_pma s (pma s)) with s in Ha by (by destruct s).
  change (PmaEntry.size PmaEntry.null_entry) with 0 in Ha. rewrite Ha. cbn [mbind result_bind].
  unfold write_pma. change (pma (set_sizeManager s mm)) with (pma s). rewrite Hp, zset_middle by done.
  cbn [mbind result_bind]. rewrite <-Hu.
  set (s1 := set_sizeManager (set_pma s ((u ++ a) ++ PmaEntry.null_entry :: d ++ w)) mm) in *.
  change (set_pma (set_sizeManager s mm) _) with s1. pose proof Hf as (mm'&_&Hv1&_). pose proof (follows_managed _ _ _ Hf) as Hm1.
  assert (pma s1 = u ++ (a ++ PmaEntry.null_entry :: d) ++ w) as Hp1 by (simpl; by simplify_list_eq).
  assert (zlen (a ++ PmaEntry.null_entry :: d) = zlen a + 1 + zlen d) as Hlen by zlen.
  set (K := rangeSink s1 u a d w range).
  assert (BlockSinkOk K) as KO by (apply rangeSink_ok; rewrite ?Hlen, ?Hm1; done).
  destruct (splitLoop_sink (K := K) false range (range_embed out) (outputBlock_range s1 u a d w range out)
    (s1, zlen u + zlen a) s1 (zlen u + zlen a) out l rest ks pre c post e)
    as (s2&x&st'&bs&Hloop&Hi&Hlast&(m1&m2&Hin)&Hel&Hg&Hstl&Hbs); try done.
  - exists a, (PmaEntry.null_entry :: d). by apply in_cells_start.
  - intros n Hn. cbn [sink_limit K rangeSink]. rewrite Hlen. by apply Hsp.
  - intros k Hk. cbn [sink_accepts K rangeSink]. exact (keys_not_null l c k Hnl Hnc Hk).
  - rewrite Hloop. cbn [mbind result_bind].
    destruct (outputBlock false s2 (insertionBlock x) (insertionBlockIndex x) range (outputBlockNumber x))
      as [[[s3 i3] o3]|]; [|done]. cbn [mbind result_bind] in Hlast |- *. rewrite Hlast. cbn [mbind result_bind].
    exists st'.1, bs, m1, m2. rewrite Hi. split; [done|]. destruct Hin as [Hfl _ H1 H2 Hl Hok _ Hlt]. split; try done.
    + rewrite <-app_assoc. by eapply follows_trans.
    + by rewrite Hl.
    + destruct (Hlt Hbs) as (Hla&p&e'&->&He'). exists p, e'. split_and!; [done|done|]. rewrite zlen_app in Hla. change (zlen [e']) with 1 in Hla. lia.
Qed.

Lemma insertIntoBlockWithoutSplit_range l rest ks pre c post :
  target e l rest ks c → zlen l + zlen c ≤ MaxSize →
  ∃ s' bs m1 m2, insertIntoBlockWithoutSplit s (zlen u + zlen a) (pre ++ c ++ post) (zlen pre) (zlen pre + zlen c) =
      Ok (s', zlen pre + zlen c) ∧ replaced s s' u a d w ks bs (smerge l c) m1 m2.
Proof.
  intros [He Hs Hg Hst Hz Hsc Hne Hfr Hnl Hnc] Hfit. destruct target_cell as (Hp&Hu&Hm).
  destruct (insertIntoBlockWithoutSplit_ok s (u ++ a) e (d ++ w) l rest ks pre c post)
    as (s'&e'&rest'&Hi&Hf&He'&Hst'); try done.
  assert (good_size (smerge l c)) as Hg'.
  { pose proof (length_smerge l c). destruct Hg. split; lia. }
  assert (block_ok e') as Hok.
  { destruct (smerge l c) as [|v l'] eqn:Hl; [pose proof MinSize_two; destruct Hg'; zlen|].
    exists v, l', rest'. split; [done|]. intros Hv.
    assert (NULL_KEY ∈ keys (smerge l c)) as Hin by (rewrite Hl, <-Hv; apply elem_of_keys_cons; by left).
    apply keys_smerge in Hin. tauto. }
  rewrite Hu, Hi. exists s', [(smerge l c, rest')], (a ++ [e']), d. split; [done|]. split; try done.
  - replace (u ++ ((a ++ [e']) ++ d) ++ w) with ((u ++ a) ++ e' :: d ++ w) by (by simplify_list_eq). done.
  - by rewrite blocks_of_app, blocks_of_cons, (group_of_block _ _ _ He').
  - zlen.
  - rewrite <-app_assoc. apply Forall_app. split; [done|]. constructor; [by right|done].
  - by exists a, e'.
  - apply elements_single.
  - by apply Forall_singleton.
Qed.

Lemma insertElements_range l rest ks pre c post next batchRange (out : Z) :
  target e l rest ks c →
  (∀ n, n * MinSize ≤ zlen l + zlen c → n ≤ zlen a + 1 + zlen d - zlen (blocks_of (a ++ d))) →
  findLastBatchElementForBlock s (pre ++ c ++ post) (zlen pre) batchRange next range = Ok (zlen pre + zlen c) →
  ∃ s' bs m1 m2, insertElementsIntoBlock false s (zlen u + zlen a) next range range (pre ++ c ++ post)
      (zlen pre) batchRange out = Ok (s', zlen pre + zlen c, out) ∧
    replaced s s' u a d w ks bs (smerge l c) m1 m2.
Proof.
  intros Htg Hsp Hfind. destruct target_cell as (Hp&Hu&Hm). pose proof Htg as [He _ _ _ _ _ Hne _ _ _].
  unfold insertElementsIntoBlock, insertElementsIntoBlockWithPrecalculatedInsertionWidths.
  rewrite Hfind. cbn [mbind result_bind].
  assert (0 < zlen c) by (destruct c; [done|zlen]).
  rewrite (assert_ok (0 <? _)) by (apply Z.ltb_lt; lia). cbn [mbind result_bind].
  unfold blockSize at 1. rewrite Hu, Hp, (zget_at _ _ _ (at_middle _ _ _)). cbn [mbind result_bind].
  rewrite (block_size _ _ _ He). replace (zlen pre + zlen c - zlen pre) with (zlen c) by lia. rewrite <-Hu.
  destruct (Z.leb_spec (zlen l + zlen c) MaxSize).
  - destruct (insertIntoBlockWithoutSplit_range l rest ks pre c post Htg) as (s'&bs&m1&m2&->&Hr); [done|].
    cbn [mbind result_bind]. by exists s', bs, m1, m2.
  - by apply (insertIntoBlockWithSplit_range l rest ks pre c post out).
Qed.

End insert.

End in_place.
