(* ===== verification/GbpmaInPlaceRange.v ===== *)
(** * The loop of a task that works in place

    [insertBatchRange] searches the block of the next batch element, from the last one
    on, and inserts all elements that belong to it.  The blocks of the range stay in order
    and take the elements of the task's part of the batch. *)

From S2P Require Export GbpmaInPlace GbpmaContents.
Import BlockSeq OverallocatedBatchedSparseArray OverallocatedInsertion.
Import PmaEntry(PmaEntry).

Section task.
Context `{T : SdsTypes} `{C : BlockConfig}.
Context `{BC : !BlockConfigOk} `{HB : !HalfBlocks} `{FM : !FasterMergeOk}.
Implicit Types (s : Sds) (v : ValueType) (e b z : PmaEntry) (u w a d m : list PmaEntry).
Implicit Types (l rest batch es pre post c : list ValueType) (ks : list Z).
Implicit Types (ws bs : list (list ValueType * list ValueType)).

(** The state before the task; the range has the cells [m0], between [u] and [w1]. *)
Variables (s0 : Sds) (u m0 w1 w2 : list PmaEntry) (pre es post : list ValueType) (ks : list Z).
Let range := mkInterval (zlen u) (zlen u + zlen m0).
Let batchRange := mkInterval (zlen pre) (zlen pre + zlen es).
Let batch := pre ++ es ++ post.

Hypothesis (cells : pma s0 = u ++ m0 ++ w1 ++ PmaEntry.null_entry :: w2).
Hypothesis (all_used : zlen (u ++ m0 ++ w1) = size s0).
Hypothesis (u_ok : Forall cell_ok u) (m0_ok : Forall cell_ok m0) (w1_ok : Forall cell_ok w1).
Hypothesis (manager0 : manager_valid s0) (managed0 : size s0 ≤ managed s0).
Hypothesis (sorted0 : sorted (elements (blocks_of (u ++ m0 ++ w1)))).
Hypothesis (null0 : NULL_KEY ∉ keys (elements (blocks_of (u ++ m0 ++ w1)))).
Hypothesis (good0 : Forall (λ x, good_size x.1) (blocks_of m0)) (stales0 : stales ks (blocks_of m0)).
Hypothesis (zero_stale : keyOfValue zeroValue ∈ ks).
Hypothesis (es_sorted : sorted es) (es_fresh : ∀ k, k ∈ keys es → (k ∉ ks)) (es_null : NULL_KEY ∉ keys es).
Hypothesis (es_between : ∀ k, k ∈ keys es → below (elements (blocks_of u)) k ∧ above k (elements (blocks_of w1))).
Hypothesis (es_room : ∀ n, n * MinSize ≤ zlen (elements (blocks_of m0)) + zlen es → n ≤ zlen m0).

(** The range after the batch elements [es1]. *)
Record merged s m es1 : Prop := {
  md_follows : follows s0 s (u ++ m ++ w1 ++ PmaEntry.null_entry :: w2);
  md_length : zlen m = zlen m0;
  md_cells : Forall cell_ok m;
  md_elements : elements (blocks_of m) = smerge (elements (blocks_of m0)) es1;
  md_good : Forall (λ x, good_size x.1) (blocks_of m);
  md_stales : stales ks (blocks_of m);
}.

Lemma merged_whole s m es1 es2 :
  merged s m es1 → es = es1 ++ es2 →
  sorted (elements (blocks_of (u ++ m ++ w1))) ∧ (NULL_KEY ∉ keys (elements (blocks_of (u ++ m ++ w1)))).
Proof.
  intros Hm Hes. assert (elements (blocks_of (u ++ m ++ w1)) = smerge (elements (blocks_of (u ++ m0 ++ w1))) es1) as ->.
  { rewrite !blocks_of_app, !elements_app, (md_elements _ _ _ Hm).
    assert (∀ k, k ∈ keys es1 → k ∈ keys es) as Hin by (intros k; rewrite Hes, keys_app, elem_of_app; tauto).
    rewrite smerge_app_r by (intros k Hk%Hin; by apply es_between).
    by rewrite smerge_app_l by (intros k Hk%Hin; by apply es_between). }
  split; [by apply sorted_smerge|]. rewrite keys_smerge. intros [?|Hk]; [done|].
  apply es_null. rewrite Hes, keys_app, elem_of_app. by left.
Qed.

Lemma merged_array s m es1 es2 :
  merged s m es1 → es = es1 ++ es2 → array_ok s ∧ size s = zlen u + zlen m + zlen w1.
Proof.
  intros Hm Hes. destruct (merged_whole s m es1 es2 Hm Hes) as [Hs Hn].
  pose proof (md_follows _ _ _ Hm) as (mm&->&_). pose proof (md_length _ _ _ Hm) as Hl.
  assert (zlen (u ++ m ++ w1) = size s0) as Hsize by (rewrite <-all_used; zlen).
  split; [|simpl; rewrite <-Hsize; zlen].
  eapply stores_array_ok, (cells_stores _ (u ++ m ++ w1) w2); try done.
  - simpl. by simplify_list_eq.
  - rewrite !Forall_app. split_and!; [done|apply Hm|done].
Qed.

(** Cells by their index. *)
Lemma full_in s m w : pma s = u ++ m ++ w → Forall cell_ok m →
  ∀ j, zlen u ≤ j < zlen u + zlen m → full s j →
  ∃ a b d, m = a ++ b :: d ∧ j = zlen u + zlen a ∧ block_ok b ∧ hd s j = PmaEntry.head b.
Proof.
  intros Hp Hm j Hj [_ Hh]. destruct (at_in_bound m (j - zlen u)) as [b Hb]; [lia|].
  destruct (at_split _ _ _ Hb) as (a&d&->&Ha). apply Forall_app in Hm as [_ [Hbo _]%Forall_cons].
  assert (j = zlen (u ++ a)) as -> by zlen.
  assert (hd s (zlen (u ++ a)) = PmaEntry.head b) as Hhd.
  { unfold hd. simpl arr_pma. rewrite Hp, <-app_assoc, (app_assoc u a). simpl. by rewrite at_middle. }
  exists a, b, d. split_and!; [done|zlen| |done]. destruct Hbo as [->|?]; [|done]. by rewrite Hhd in Hh.
Qed.

Lemma in_full s a b d w : pma s = u ++ (a ++ b :: d) ++ w → block_ok b → zlen u + zlen a < size s →
  full s (zlen u + zlen a) ∧ hd s (zlen u + zlen a) = PmaEntry.head b.
Proof.
  intros Hp Hb Hlt. assert (zlen u + zlen a = zlen (u ++ a)) as Hz by zlen. rewrite Hz in *.
  assert (hd s (zlen (u ++ a)) = PmaEntry.head b) as Hhd.
  { unfold hd. simpl arr_pma. rewrite Hp, <-app_assoc, (app_assoc u a). simpl. by rewrite at_middle. }
  split; [|done]. split; [pose proof (zlen_nonneg (u ++ a)); done|]. rewrite Hhd.
  destruct Hb as (v&l&rest&[_ Hh]&Hk). simpl in Hh. by rewrite Hh.
Qed.

(** The search may start at [start]: at the first block of the range, or not behind a
    block whose elements are smaller than the rest [es2] of the batch part. *)
Definition search_from m (start : Z) es2 : Prop :=
  ∃ a b d, m = a ++ b :: d ∧ block_ok b ∧ zlen u ≤ start ≤ zlen u + zlen a ∧
    ((a = [] ∧ start = zlen u) ∨ ∀ k, k ∈ keys es2 → PmaEntry.head b ≤ k).

(** The searches of an iteration find a block; all blocks in front of it are smaller than
    the key, and the next one is larger. *)
Lemma search_block s m es1 v es2 start :
  merged s m es1 → es = es1 ++ v :: es2 → search_from m start (v :: es2) →
  ∃ a b d, m = a ++ b :: d ∧ block_ok b ∧ start ≤ zlen u + zlen a ∧
    exponentialSearch s (keyOfValue v) start (Interval.right range) = Ok (zlen u + zlen a) ∧
    AssertM (r ← linearSearch s (keyOfValue v) (zlen u + zlen a) (Interval.right range);
             Ok (zlen u + zlen a =? r)) = Ok tt ∧
    (a = [] ∨ PmaEntry.head b ≤ keyOfValue v) ∧
    (∀ d1 b2 d2, d = d1 ++ b2 :: d2 → block_ok b2 → keyOfValue v < PmaEntry.head b2).
Proof.
  intros Hm Hes (a0&b0&d0&Hm0&Hb0&Hstart&Hsmall). destruct (merged_array s m es1 _ Hm Hes) as [Harr Hsize].
  pose proof (follows_pma _ _ _ (md_follows _ _ _ Hm)) as Hp. pose proof (md_length _ _ _ Hm) as Hl.
  pose proof (zlen_nonneg u). pose proof (zlen_nonneg w1). pose proof (zlen_nonneg d0). unfold range. cbn [Interval.right].
  rewrite <-Hl in *. set (up := zlen u + zlen m) in *. set (k := keyOfValue v).
  assert (zlen u + zlen a0 < up) as Hup by (unfold up; rewrite Hm0; zlen).
  destruct (in_full s a0 b0 d0 (w1 ++ PmaEntry.null_entry :: w2)) as [Hf0 Hh0]; [by rewrite Hp, Hm0|done|lia|].
  assert (full s start ∧ a0 = [] ∧ start = zlen u ∨
    (∃ j, start ≤ j < up ∧ full s j ∧ hd s j ≤ k)) as Hcase.
  { destruct Hsmall as [[-> ->]|Hsmall].
    - left. change (zlen []) with 0 in *. rewrite Z.add_0_r in *. done.
    - right. exists (zlen u + zlen a0). split_and!; [lia|lia|done|]. rewrite Hh0. apply Hsmall.
      apply elem_of_keys_cons. by left. }
  destruct (exponentialSearch_ok s Harr k start up) as (j&Hj&Hbest); [lia|simpl; lia|tauto|].
  pose proof Hbest as (Hjb&Hjc&Hja).
  assert (full s j ∧ (j = zlen u ∨ hd s j ≤ k)) as [Hfj Hjk].
  { destruct Hjc as [->|[? ?]]; [|tauto]. destruct Hcase as [(?&_&?)|(i&Hi&Hfi&Hhi)]; [tauto|].
    destruct (decide (start = i)) as [->|]; [tauto|]. specialize (Hja i ltac:(lia) Hfi). lia. }
  destruct (full_in s m _ Hp (md_cells _ _ _ Hm) j) as (a&b&d&Hmj&->&Hb&Hhb); [unfold up in *; lia|done|].
  exists a, b, d. split_and!; try done.
  - lia.
  - apply AssertM_ok. destruct (linearSearch_ok s Harr k (zlen u + zlen a) up) as (r&Hlin&Hr); [lia|simpl; lia|].
    unfold linearSearch. fold up k. rewrite Hlin. cbn [mbind result_bind]. f_equal. apply Z.eqb_eq. eapply best_unique; [|exact Hr].
    split_and!; [lia|lia|by left|done].
  - destruct Hjk as [Hz|?]; [left|right; by rewrite <-Hhb]. destruct a; [done|zlen].
  - intros d1 b2 d2 -> Hb2.
    assert (pma s = u ++ ((a ++ b :: d1) ++ b2 :: d2) ++ w1 ++ PmaEntry.null_entry :: w2) as Hp2.
    { rewrite Hp, Hmj. by simplify_list_eq. }
    assert (zlen u + zlen (a ++ b :: d1) < up) as Hlt by (unfold up; rewrite Hmj; pose proof (zlen_nonneg d2); zlen).
    destruct (in_full s (a ++ b :: d1) b2 d2 _ Hp2 Hb2) as [Hf2 Hh2]; [lia|]. rewrite <-Hh2.
    apply Hja; [|done]. pose proof (zlen_nonneg d1). zlen.
Qed.

(** The part [c1] of the batch elements [v :: es2] that belongs to the block [b]. *)
Definition next_is d c1 c2 : Prop :=
  (c2 = [] ∧ ∃ gap, d = gap ∧ Forall (λ x, x = PmaEntry.null_entry) gap) ∨
  (∃ gap b2 d2, d = gap ++ b2 :: d2 ∧ Forall (λ x, x = PmaEntry.null_entry) gap ∧ block_ok b2 ∧
    below c1 (PmaEntry.head b2) ∧ above (PmaEntry.head b2 - 1) c2).

(** What is behind the cells [d'] of the range, seen as one cell: the task's keys are in
    front of it. *)
Lemma behind_cells w d' es1 es2 :
  w = w1 ++ PmaEntry.null_entry :: w2 → es = es1 ++ es2 →
  d' = [] ∨ (∃ b2 d2, d' = b2 :: d2 ∧ block_ok b2) →
  ∃ z wz, d' ++ w = z :: wz ∧ cell_ok z ∧
    (d' = [] → z = PmaEntry.null_entry ∨ ∀ k, k ∈ keys es2 → k < PmaEntry.head z) ∧
    (d' ≠ [] → block_ok z ∧ ∃ d2, d' = z :: d2).
Proof.
  intros -> Hes [->|(b2&d2&->&Hb2)]; [|exists b2; eexists; split_and!; [done|by right|done|by eauto]].
  destruct w1 as [|z wz].
  - exists PmaEntry.null_entry, w2. split_and!; [done|by left|by left|done].
  - exists z, (wz ++ PmaEntry.null_entry :: w2). apply Forall_cons in w1_ok as [Hz _].
    split_and!; [done|done| |done]. intros _. destruct Hz as [?|Hz]; [by left|right]. intros k Hk.
    destruct (head_first z wz Hz) as (x&l&Heq&->). destruct (es_between k) as [_ Ha].
    { rewrite Hes, keys_app, elem_of_app. by right. }
    rewrite Heq in Ha. by apply above_cons in Ha as [? _].
Qed.

Lemma next_part s m es1 v es2 a b d :
  merged s m es1 → es = es1 ++ v :: es2 → m = a ++ b :: d →
  (∀ d1 b2 d2, d = d1 ++ b2 :: d2 → block_ok b2 → keyOfValue v < PmaEntry.head b2) →
  ∃ c1 c2 next, v :: es2 = c1 ++ c2 ∧ c1 ≠ [] ∧
    findNext s (zlen u + zlen a) (Interval.right range) = Ok next ∧
    findLastBatchElementForBlock s batch (zlen pre + zlen es1) batchRange next range =
      Ok (zlen pre + zlen es1 + zlen c1) ∧ next_is d c1 c2.
Proof.
  intros Hm Hes -> Hnext. pose proof (follows_pma _ _ _ (md_follows _ _ _ Hm)) as Hp.
  pose proof (md_length _ _ _ Hm) as Hl. pose proof (md_cells _ _ _ Hm) as Hcells.
  apply Forall_app in Hcells as [_ [_ Hd]%Forall_cons].
  destruct (first_block d Hd) as (gap&d'&->&Hgap&Hd').
  set (w := w1 ++ PmaEntry.null_entry :: w2) in *. set (u' := u ++ a ++ b :: gap).
  assert (zlen u' = zlen u + zlen a + 1 + zlen gap) as Hu' by (unfold u'; rewrite !zlen_app, zlen_cons; lia).
  assert (Interval.right range = zlen u' + zlen d') as Hright.
  { unfold range. cbn [Interval.right]. rewrite <-Hl, Hu'. rewrite zlen_app, zlen_cons, zlen_app. lia. }
  assert (pma s = u' ++ d' ++ w) as Hpu by (unfold u'; rewrite Hp; by simplify_list_eq).
  assert (findNext s (zlen u + zlen a) (Interval.right range) = Ok (zlen u')) as Hfind.
  { rewrite (findNext_gap s (u ++ a ++ [b]) gap d' w); try done.
    - f_equal. rewrite Hu'. rewrite !zlen_app. change (zlen [b]) with 1. lia.
    - rewrite Hpu. unfold u'. by simplify_list_eq.
    - rewrite !zlen_app. change (zlen [b]) with 1. lia.
    - rewrite Hright, Hu', !zlen_app. change (zlen [b]) with 1. lia. }
  destruct (behind_cells w d' es1 (v :: es2) eq_refl Hes Hd') as (z&wz&Hz&Hzok&Hz1&Hz2).
  assert (sorted (v :: es2)) as Hs2 by (rewrite Hes in es_sorted; by apply sorted_app in es_sorted as (_&?&_)).
  destruct (part_of_block s u' z wz (pre ++ es1) (v :: es2) post batchRange range)
    as (c1&c2&Hc&_&Hlast&Hend&Hmid); try done.
  - by rewrite Hpu, Hz.
  - unfold batchRange. cbn [Interval.right]. rewrite Hes, !zlen_app. lia.
  - intros Hr. apply Hz1. destruct d'; [done|]. rewrite Hright, zlen_cons in Hr. pose proof (zlen_nonneg d'). lia.
  - intros Hr. apply Hz2. intros ->. apply Hr. rewrite Hright. change (zlen []) with 0. lia.
  - assert ((pre ++ es1) ++ (v :: es2) ++ post = batch) as Hb by (unfold batch; rewrite Hes; by simplify_list_eq).
    rewrite Hb, zlen_app in Hlast.
    assert (d' = [] ↔ zlen u' = Interval.right range) as Hiff.
    { rewrite Hright. split; [intros ->; change (zlen []) with 0; lia|]. destruct d'; [done|].
      rewrite zlen_cons. pose proof (zlen_nonneg d'). lia. }
    assert (c1 ≠ [] ∧ next_is (gap ++ d') c1 c2) as [Hne Hnx].
    { destruct (decide (d' = [])) as [Hd0|Hd0].
      - specialize (Hend (proj1 Hiff Hd0)). subst c2 d'. rewrite app_nil_r in *. split; [by destruct c1|].
        left. split; [done|]. by exists gap.
      - destruct (Hmid ltac:(by intros ?%Hiff)) as [H1 H2]. destruct (Hz2 Hd0) as [Hbz (d2&->)]. split.
        + intros ->. simpl in Hc. rewrite <-Hc in H2. apply above_cons in H2 as [H2 _].
          specialize (Hnext gap z d2 eq_refl Hbz). lia.
        + right. by exists gap, z, d2. }
    exists c1, c2, (zlen u'). by split_and!.
Qed.

(** Between the blocks in front and those behind, the block takes its part. *)
Lemma merge_at_block l rest a b d c1 c2 ks1 :
  represents b l rest → sorted (elements (blocks_of (a ++ b :: d))) → next_is d c1 c2 →
  (a = [] ∨ ∀ k, k ∈ keys c1 → PmaEntry.head b ≤ k) → block_ok b → (∀ k, k ∈ keys c1 → k ∉ ks1) →
  smerge (elements (blocks_of (a ++ b :: d))) c1 =
    elements (blocks_of a) ++ smerge l c1 ++ elements (blocks_of d) ∧
  (∀ k, k ∈ keys c1 → k ∉ keys (elements (blocks_of d)) ++ ks1) ∧
  (∀ k k', k ∈ keys (smerge l c1) → k' ∈ keys c2 → k ≤ k').
Proof.
  intros Hb Hs Hnext Hfront Hbok Hfr.
  assert (elements (blocks_of (a ++ b :: d)) = elements (blocks_of a) ++ l ++ elements (blocks_of d)) as Hel.
  { rewrite blocks_of_app, blocks_of_cons, (group_of_block _ _ _ Hb), !elements_app. by rewrite elements_single. }
  assert (∀ k, k ∈ keys c1 → below (elements (blocks_of a)) k) as Hbelow.
  { intros k Hk. destruct Hfront as [->|Hle]; [constructor|]. specialize (Hle k Hk).
    destruct (head_first b d Hbok) as (x&l'&Hx&Hh). rewrite blocks_of_app, elements_app, Hx in Hs.
    apply sorted_middle in Hs as (_&_&Hbl&_). rewrite Hh in Hle. eapply below_weaken; [exact Hbl|done]. }
  rewrite Hel in Hs |- *. apply sorted_app in Hs as (_&Hs&_). rewrite smerge_app_r by done.
  destruct Hnext as [(->&gap&->&Hgap)|(gap&b2&d2&->&Hgap&Hb2&Hc1&Hc2)].
  - assert (blocks_of gap = []) as Hg by (rewrite <-(app_nil_r gap); by rewrite blocks_of_nulls).
    rewrite Hg. change (elements []) with (@nil ValueType). rewrite !app_nil_r. split_and!; [done|done|].
    intros k k' _ ?%elem_of_nil. done.
  - rewrite blocks_of_nulls in Hs |- * by done.
    destruct (merge_around l b2 d2 ks1 c1 [] Hb2 Hs Hc1 ltac:(constructor)) as [Hm Hf].
    rewrite app_nil_r, smerge_nil in Hm. split; [by rewrite Hm|]. split; [auto|].
    destruct (head_first b2 d2 Hb2) as (x&l'&Hx&Hh). rewrite Hx in Hs. apply sorted_middle in Hs as (_&_&Hl&_).
    intros k k' Hk Hk'. rewrite above_keys in Hc2. specialize (Hc2 k' Hk'). rewrite below_keys in Hc1, Hl.
    apply keys_smerge in Hk as [Hk|Hk]; [specialize (Hl k Hk)|specialize (Hc1 k Hk)]; lia.
Qed.

Lemma block_target s m es1 v es2 a b d c1 c2 :
  merged s m es1 → es = es1 ++ v :: es2 → m = a ++ b :: d → block_ok b → v :: es2 = c1 ++ c2 → c1 ≠ [] →
  next_is d c1 c2 → (a = [] ∨ PmaEntry.head b ≤ keyOfValue v) →
  ∃ l rest, target b l rest (keys (elements (blocks_of d)) ++ ks) c1 ∧
    smerge (elements (blocks_of m)) c1 = elements (blocks_of a) ++ smerge l c1 ++ elements (blocks_of d) ∧
    (∀ k k', k ∈ keys (smerge l c1) → k' ∈ keys c2 → k ≤ k') ∧
    stales (keys (l ++ elements (blocks_of d)) ++ ks) (blocks_of a) ∧ stales ks (blocks_of d) ∧
    Forall (λ x, good_size x.1) (blocks_of a ++ blocks_of d) ∧
    (∀ n, n * MinSize ≤ zlen l + zlen c1 → n ≤ zlen a + 1 + zlen d - zlen (blocks_of (a ++ d))).
Proof.
  intros Hm Hes Hmabd Hb Hc Hne Hnext Hfront. destruct (merged_whole s m es1 _ Hm Hes) as [Hwhole Hnw].
  destruct Hb as (x&l'&rest&Hr&Hx). pose proof Hm as [_ Hlen _ Hel Hg Hst].
  assert (block_ok b) as Hbok by (by exists x, l', rest).
  set (l := x :: l') in *. subst m.
  rewrite !blocks_of_app, !elements_app in Hwhole. apply sorted_app in Hwhole as (_&Hwhole&_).
  apply sorted_app in Hwhole as (Hsm&_&_). rewrite <-elements_app, <-blocks_of_app in Hsm.
  assert (∀ k, k ∈ keys c1 → k ∈ keys es) as Hin.
  { intros k Hk. rewrite Hes, Hc, !keys_app, !elem_of_app. tauto. }
  pose proof es_sorted as Hsc. rewrite Hes in Hsc. apply sorted_app in Hsc as (_&Hsc&_).
  assert (∀ k, k ∈ keys c1 → keyOfValue v ≤ k) as Hvk.
  { intros k Hk. assert (k ∈ keys (v :: es2)) as Hk' by (rewrite Hc, keys_app, elem_of_app; by left).
    apply elem_of_keys_cons in Hk' as [->|Hk']; [done|]. apply sorted_cons in Hsc as [Ha _].
    rewrite above_keys in Ha. specialize (Ha k Hk'). lia. }
  rewrite Hc in Hsc. apply sorted_app in Hsc as (Hsc&_&_).
  destruct (merge_at_block l rest a b d c1 c2 ks Hr Hsm Hnext) as (Hmerge&Hfresh&Hle); try done.
  { destruct Hfront as [?|Hfr]; [by left|right]. intros k Hk%Hvk. lia. }
  { intros k Hk%Hin. by apply es_fresh. }
  rewrite blocks_of_app, blocks_of_cons, (group_of_block _ _ _ Hr) in Hg, Hst. cbn [app] in Hg, Hst.
  apply Forall_app in Hg as [Hga Hgbd]. pose proof Hgbd as [Hgl Hgd]%Forall_cons.
  apply stales_app in Hst as [Hsta [Hstl Hstd]]. cbn [fst snd] in *.
  assert (elements (blocks_of (a ++ b :: d)) = elements (blocks_of a) ++ l ++ elements (blocks_of d)) as Helm.
  { rewrite blocks_of_app, blocks_of_cons, (group_of_block _ _ _ Hr), !elements_app. by rewrite elements_single. }
  exists l, rest. split; [split; try done|].
  - rewrite Helm in Hsm. apply sorted_app in Hsm as (_&Hsm&_). by apply sorted_app in Hsm as (?&_&_).
  - apply elem_of_app. by right.
  - intros Hn. apply Hnw. rewrite blocks_of_app, (blocks_of_app (a ++ b :: d)), !elements_app, Helm, !keys_app, !elem_of_app. tauto.
  - intros Hn%Hin. done.
  - split_and!; [done|done| |done|by apply Forall_app|].
    + rewrite elements_cons in Hsta. exact Hsta.
    + intros n Hn. assert (zlen (a ++ b :: d) = zlen a + 1 + zlen d) as Hz by (rewrite zlen_app, zlen_cons; lia).
      assert (Forall (λ x, good_size x.1) (blocks_of (a ++ d))) as Hgad by (rewrite blocks_of_app; by apply Forall_app).
      pose proof (blocks_bound _ Hgad) as Hbd.
      assert (n + zlen (blocks_of (a ++ d)) ≤ zlen m0); [|lia]. apply es_room.
      pose proof (length_smerge (elements (blocks_of m0)) es1) as Hle1. rewrite <-Hel, Helm, !zlen_app in Hle1.
      rewrite blocks_of_app, elements_app, !zlen_app in Hbd. rewrite Hes, Hc, !zlen_app. rewrite blocks_of_app.
      pose proof (zlen_nonneg c2). rewrite (zlen_app (blocks_of a)). lia.
Qed.

(** The last cell of the new blocks has one of them. *)
Lemma last_head p e a bs : blocks_of (p ++ [e]) = blocks_of a ++ bs → block_ok e → elements bs ≠ [] →
  PmaEntry.head e ∈ keys (elements bs).
Proof.
  intros Hb (v&l&rest&He&_) Hne. destruct (exists_last (l := bs)) as (bs'&y&->); [by intros ->|].
  rewrite blocks_of_app, blocks_of_cons, (group_of_block _ _ _ He) in Hb. cbn [app] in Hb.
  change (blocks_of []) with (@nil (list ValueType * list ValueType)) in Hb.
  rewrite app_assoc in Hb. apply app_inj_tail in Hb as [_ <-].
  rewrite elements_app, elements_single, keys_app, elem_of_app. right. destruct He as [_ Hh]. simpl in Hh.
  rewrite Hh. apply elem_of_keys_cons. by left.
Qed.

(** The body of the loop. *)
Definition rangeBody (st : Sds * Z * Z) : result (Sds * Z * Z) :=
  let '(s, batchIndex, blockIndex) := st in
  k ← batchKey batch batchIndex;
  blockIndex ← exponentialSearch s k blockIndex (Interval.right range);
  nextBlockIndex ← findNext s blockIndex (Interval.right range);
  AssertM (r ← linearSearch s k blockIndex (Interval.right range); Ok (blockIndex =? r));;
  '(s, batchIndex, _) ← insertElementsIntoBlock false s blockIndex nextBlockIndex range
     range batch batchIndex batchRange 0;
  Ok (s, batchIndex, blockIndex).

Lemma iteration_ok s m es1 v es2 start :
  merged s m es1 → es = es1 ++ v :: es2 → search_from m start (v :: es2) →
  ∃ s' m' c1 c2 start', rangeBody (s, zlen pre + zlen es1, start) = Ok (s', zlen pre + zlen (es1 ++ c1), start') ∧
    v :: es2 = c1 ++ c2 ∧ c1 ≠ [] ∧ merged s' m' (es1 ++ c1) ∧ search_from m' start' c2.
Proof.
  intros Hm Hes Hsearch.
  destruct (search_block s m es1 v es2 start Hm Hes Hsearch) as (a&b&d&Hmabd&Hb&Hge&Hexp&Hlin&Hfront&Hbehind).
  destruct (next_part s m es1 v es2 a b d Hm Hes Hmabd Hbehind) as (c1&c2&next&Hc&Hne&Hfind&Hlast&Hnext).
  destruct (block_target s m es1 v es2 a b d c1 c2 Hm Hes Hmabd Hb Hc Hne Hnext Hfront)
    as (l&rest&Htg&Hmerge&Hle&Hsta&Hstd&Hgad&Hroom).
  destruct (merged_array s m es1 _ Hm Hes) as [_ Hsize].
  pose proof Hm as [Hf Hlen Hcells Hel _ _]. subst m. pose proof Hf as (mm&Hs&Hv&_). pose proof (follows_managed _ _ _ Hf) as Hmg.
  apply Forall_app in Hcells as [Ha [_ Hd]%Forall_cons].
  assert (zlen m0 = zlen a + 1 + zlen d) as Hz by (rewrite <-Hlen, zlen_app, zlen_cons; lia).
  assert (batch = (pre ++ es1) ++ c1 ++ c2 ++ post) as Hbatch by (unfold batch; rewrite Hes, Hc; by simplify_list_eq).
  destruct (insertElements_range s u a b d (w1 ++ PmaEntry.null_entry :: w2) range) with
    (l := l) (rest := rest) (ks := keys (elements (blocks_of d)) ++ ks) (pre := pre ++ es1) (c := c1) (post := c2 ++ post)
    (next := next) (batchRange := batchRange) (out := 0) as (s'&bs&m1&m2&Hins&Hrep); try done.
  - rewrite (follows_pma _ _ _ Hf). done.
  - unfold range. by rewrite Hz.
  - unfold range. cbn [Interval.right]. rewrite Hsize, Hlen. pose proof (zlen_nonneg w1). lia.
  - unfold range. cbn [Interval.right]. rewrite Hmg. etransitivity; [|exact managed0]. rewrite <-all_used, !zlen_app.
    pose proof (zlen_nonneg w1). lia.
  - by rewrite <-Hbatch, zlen_app.
  - rewrite <-Hbatch, zlen_app in Hins. unfold rangeBody. unfold batchKey at 1.
    assert (zget batch (zlen pre + zlen es1) = Ok v) as ->.
    { rewrite Hbatch, app_assoc, app_assoc. rewrite <-(app_assoc (pre ++ es1)). rewrite <-Hc, <-app_assoc, <-zlen_app.
      apply zget_at, at_middle. }
    cbn [mbind result_bind]. rewrite Hexp. cbn [mbind result_bind]. rewrite Hfind. cbn [mbind result_bind].
    rewrite Hlin. cbn [mbind result_bind]. rewrite Hins. cbn [mbind result_bind].
    exists s', (m1 ++ m2), c1, c2, (zlen u + zlen a). split; [do 3 f_equal; zlen|]. split_and!; [done|done| |].
    + destruct Hrep as [Hf' H1 H2 Hl' Hok' _ Hel' Hg' Hst']. split; try done.
      * rewrite <-app_assoc in Hf'. eapply follows_trans; [exact Hf|]. by simplify_list_eq.
      * lia.
      * rewrite blocks_of_app, H1, H2, !elements_app, Hel', smerge_app, <-Hel, Hmerge. by simplify_list_eq.
      * rewrite blocks_of_app, H1, H2. apply Forall_app in Hgad as [??]. by rewrite !Forall_app.
      * rewrite blocks_of_app, H1, H2, <-app_assoc. apply stales_app. split; [|by apply stales_app].
        eapply stales_mono; [exact Hsta|]. intros k. rewrite elements_app, Hel', !keys_app, !elem_of_app, keys_smerge. tauto.
    + destruct (rp_last _ _ _ _ _ _ _ _ _ _ _ Hrep) as (p&e&->&He&Hp). exists p, e, m2.
      split_and!; [by simplify_list_eq|done|pose proof (zlen_nonneg a); lia|lia|].
      right. intros k Hk. apply Hle; [|done]. rewrite <-(rp_elements _ _ _ _ _ _ _ _ _ _ _ Hrep).
      apply (last_head p e a bs); [apply (rp_front _ _ _ _ _ _ _ _ _ _ _ Hrep)|done|].
      rewrite (rp_elements _ _ _ _ _ _ _ _ _ _ _ Hrep). pose proof (length_smerge l c1) as [Hll _].
      intros Hnil. rewrite Hnil in Hll. change (zlen []) with 0 in Hll.
      destruct (tg_good _ _ _ _ _ Htg). pose proof MinSize_two. lia.
Qed.

(** The whole task. *)
Lemma insertBatchRange_in_place :
  (∃ e m, m0 = e :: m ∧ block_ok e) →
  ∃ s m, insertBatchRange s0 batch batchRange range = Ok s ∧ merged s m es.
Proof.
  intros (e&m&Hm0&He). unfold insertBatchRange.
  change (while (S (Z.to_nat (Interval.length batchRange))) _ _ _) with
    (while (S (Z.to_nat (Interval.length batchRange)))
      (λ '(_, batchIndex, _), Ok (batchIndex <? Interval.right batchRange)) rangeBody
      (s0, Interval.left batchRange, Interval.left range)).
  cut (wp (while (S (Z.to_nat (Interval.length batchRange)))
      (λ '(_, batchIndex, _), Ok (batchIndex <? Interval.right batchRange)) rangeBody
      (s0, Interval.left batchRange, Interval.left range))
    (λ '(s, batchIndex, _), batchIndex = Interval.right batchRange ∧ ∃ m, merged s m es)).
  { intros ([[s i] blk]&->&->&m'&Hm)%wp_returns. cbn [mbind result_bind]. rewrite assert_ok by apply Z.eqb_refl.
    cbn [mbind result_bind]. by exists s, m'. }
  apply (wp_while (λ '(s, i, start), ∃ m es1 es2, es = es1 ++ es2 ∧ i = zlen pre + zlen es1 ∧ merged s m es1 ∧
      search_from m start es2) (λ '(_, i, _), Z.max 0 (zlen pre + zlen es - i))).
  - intros [[s i] start] (m'&es1&es2&Hes&->&Hm&Hsearch). split; [lia|]. unfold batchRange at 1. cbn [Interval.right wp].
    assert (zlen es = zlen es1 + zlen es2) as Hlen by (rewrite Hes; zlen).
    destruct es2 as [|v es2].
    + destruct (Z.ltb_spec (zlen pre + zlen es1) (zlen pre + zlen es)); [zlen|].
      rewrite app_nil_r in Hes. subst es1. split; [done|by exists m'].
    + pose proof (zlen_nonneg es2). destruct (Z.ltb_spec (zlen pre + zlen es1) (zlen pre + zlen es)); [|zlen].
      destruct (iteration_ok s m' es1 v es2 start Hm Hes Hsearch) as (s'&m''&c1&c2&start'&->&Hc&Hne&Hm'&Hsearch').
      cbn [wp]. split; [|destruct c1; [done|]; pose proof (zlen_nonneg c1); zlen].
      exists m'', (es1 ++ c1), c2. split_and!; try done. by rewrite Hes, Hc, app_assoc.
  - exists m0, [], es. split_and!; [done|unfold batchRange; simpl; zlen| |].
    + split; try done. pose proof (follows_refl s0 manager0) as Hf. by rewrite cells in Hf.
    + exists [], e, m. split_and!; [done|done|unfold range; simpl; zlen|unfold range; simpl; zlen|by left].
  - unfold batchRange, Interval.length. simpl. lia.
Qed.

End task.
