(* ===== verification/GbpmaRewrite.v ===== *)
(** * Redistribution: blocks between the two arrays

    The copies of the blocks in front of the first task, and [rewrite], which spreads the
    blocks of a task evenly over its part of the pma. *)

From S2P Require Export GbpmaRange GbpmaDistribute.
Import BlockSeq OverallocatedBatchedSparseArray OverallocatedInsertion OverallocatedDistribution.
Import PmaEntry(PmaEntry).

Section rewrite.
Context `{T : SdsTypes} `{C : BlockConfig} `{O : OverallocationConfig}.
Context `{BC : !BlockConfigOk} `{HB : !HalfBlocks}.
Implicit Types (s : Sds) (e b z : PmaEntry) (u w a ents : list PmaEntry).
Implicit Types (ws bs : list (list ValueType * list ValueType)).

Lemma cell_empty e : cell_ok e → negb (PmaEntry.isEmpty e) = PmaEntry.has_block e.
Proof. intros _. unfold PmaEntry.isEmpty. by rewrite negb_involutive. Qed.

Lemma cell_null e : cell_ok e → PmaEntry.has_block e = false → e = PmaEntry.null_entry.
Proof. intros [->|He] Hb; [done|]. by rewrite (block_ok_has _ He) in Hb. Qed.

(** The front of the pma moves to the same cells of [swapPma]. *)
Lemma copyFront_ok s u w (n : nat) :
  pma s = u ++ w → Forall cell_ok u → swapPma s = nulls (length u + n) →
  copyFront s (zlen u) = Ok (set_swapPma (set_pma s (nulls (length u) ++ w)) (u ++ nulls n)).
Proof.
  intros Hp Hu Hs. apply wp_is. unfold copyFront.
  apply (wp_for (λ i s', ∃ u1 u2, u = u1 ++ u2 ∧ zlen u1 = i ∧
    s' = set_swapPma (set_pma s (nulls (length u1) ++ u2 ++ w)) (u1 ++ nulls (length u2 + n)))).
  - intros i s' Hi (u1&u2&->&Hlen&->). destruct u2 as [|x u2]; [rewrite app_nil_r in Hi; lia|].
    apply Forall_app in Hu as [_ [Hx _]%Forall_cons].
    assert (i = zlen (nulls (length u1))) as Hi' by (rewrite zlen_nulls; unfold zlen in Hlen; lia).
    rewrite Hi', (empty_at _ (nulls (length u1)) x (u2 ++ w)) by done. cbn [mbind result_bind].
    rewrite negb_involutive. destruct (PmaEntry.has_block x) eqn:Hb.
    + cbn [pma set_swapPma set_pma]. simpl app. rewrite (zget_at _ _ _ (at_middle _ _ _)). cbn [mbind result_bind].
      unfold write_swapPma. cbn [swapPma set_swapPma]. simpl length. cbn [Nat.add nulls replicate].
      rewrite zset_middle by lia. cbn [mbind result_bind]. unfold write_pma. simpl.
      rewrite zset_middle by done. cbn [mbind result_bind wp].
      exists (u1 ++ [x]), u2. split_and!; [by simplify_list_eq|zlen|].
      rewrite length_app, Nat.add_1_r. rewrite <-nulls_cons_comm. by simplify_list_eq.
    + apply cell_null in Hb; [|done]. subst x. cbn [wp].
      exists (u1 ++ [PmaEntry.null_entry]), u2. split_and!; [by simplify_list_eq|zlen|].
      rewrite length_app, Nat.add_1_r. rewrite <-nulls_cons_comm. by simplify_list_eq.
  - exists [], u. split_and!; [done|done|]. simpl. rewrite <-Hp, <-Hs. by destruct s.
  - intros s' (u1&u2&->&Hlen&->). assert (u2 = []) as -> by (destruct u2; [done|]; rewrite zlen_app, zlen_cons in Hlen; pose proof (zlen_nonneg u1); pose proof (zlen_nonneg u2); lia).
    by rewrite !app_nil_r.
Qed.

(** And back. *)
Lemma copyFrontBack_ok s u w (n : nat) :
  swapPma s = u ++ w → Forall cell_ok u → pma s = nulls (length u + n) →
  copyFrontBack s (zlen u) = Ok (set_swapPma (set_pma s (u ++ nulls n)) (nulls (length u) ++ w)).
Proof.
  intros Hp Hu Hs. apply wp_is. unfold copyFrontBack.
  apply (wp_for (λ i s', ∃ u1 u2, u = u1 ++ u2 ∧ zlen u1 = i ∧
    s' = set_swapPma (set_pma s (u1 ++ nulls (length u2 + n))) (nulls (length u1) ++ u2 ++ w))).
  - intros i s' Hi (u1&u2&->&Hlen&->). destruct u2 as [|x u2]; [rewrite app_nil_r in Hi; lia|].
    apply Forall_app in Hu as [_ [Hx _]%Forall_cons].
    assert (i = zlen (nulls (length u1))) as Hi' by (rewrite zlen_nulls; unfold zlen in Hlen; lia).
    rewrite Hi'. cbn [swapPma set_swapPma]. simpl app.
    rewrite (zget_at _ _ _ (at_middle _ _ _)). cbn [mbind result_bind].
    rewrite (cell_empty _ Hx). destruct (PmaEntry.has_block x) eqn:Hb.
    + unfold write_pma. simpl length. cbn [pma set_swapPma set_pma Nat.add nulls replicate].
      rewrite zset_middle by lia. cbn [mbind result_bind]. unfold write_swapPma. simpl.
      rewrite zset_middle by done. cbn [mbind result_bind wp].
      exists (u1 ++ [x]), u2. split_and!; [by simplify_list_eq|zlen|].
      rewrite length_app, Nat.add_1_r. rewrite <-nulls_cons_comm. by simplify_list_eq.
    + apply cell_null in Hb; [|done]. subst x. cbn [wp].
      exists (u1 ++ [PmaEntry.null_entry]), u2. split_and!; [by simplify_list_eq|zlen|].
      rewrite length_app, Nat.add_1_r. rewrite <-nulls_cons_comm. by simplify_list_eq.
  - exists [], u. split_and!; [done|done|]. simpl. rewrite <-Hp, <-Hs. by destruct s.
  - intros s' (u1&u2&->&Hlen&->). assert (u2 = []) as -> by (destruct u2; [done|]; rewrite zlen_app, zlen_cons in Hlen; pose proof (zlen_nonneg u1); pose proof (zlen_nonneg u2); lia).
    by rewrite !app_nil_r.
Qed.

(** ** Uniform positions *)

(** The position of block [j] of [n] in [len] cells. *)
Definition uniform (len n j : Z) : Z := j * len / n.

Lemma uniform_next len n j : 0 < n ≤ len → uniform len n j < uniform len n (j + 1).
Proof. intros Hn. unfold uniform. Z.div_mod_to_equations. nia. Qed.

Lemma uniform_bound len n j : 0 < n ≤ len → 0 ≤ j < n → 0 ≤ uniform len n j < len.
Proof. intros Hn Hj. unfold uniform. split; [apply Z.div_pos; nia|]. apply Z.div_lt_upper_bound; nia. Qed.

Lemma getUniformWriteIndex_ok left len n j :
  0 ≤ len → 0 ≤ j < n → getUniformWriteIndex left j len n = Ok (left + uniform len n j).
Proof.
  intros Hl Hj. unfold getUniformWriteIndex. rewrite assert_ok by (apply Z.ltb_lt; lia).
  cbn [mbind result_bind]. unfold uniform. by rewrite Z.quot_div_nonneg by nia.
Qed.

(** After [j] blocks: [v] has the cells written so far, the last one with block [j - 1]. *)
Definition spread_cells s u ents sz (n k : nat) (L j : Z) (s' : Sds) : Prop :=
  ∃ (e1 e2 : list PmaEntry) v, ents = e1 ++ e2 ∧ zlen e1 = j ∧ (length v ≤ n)%nat ∧
    (e2 ≠ [] → zlen v = uniform (Z.of_nat n) L j) ∧ blocks_of v = blocks_of e1 ∧ Forall cell_ok v ∧
    s' = set_swapPma (set_pma s (u ++ v ++ nulls (n - length v) ++ nulls k))
           (nulls (length u + length e1) ++ e2 ++ sz).

(** The cells between one block and the next. *)
Lemma spread_gap (n len : nat) L j : 0 < L ≤ Z.of_nat n → 0 ≤ j < L → Z.of_nat len = uniform (Z.of_nat n) L j →
  ∃ d r : nat, (n - len = S (d + r))%nat ∧ (j + 1 < L → Z.of_nat len + 1 + Z.of_nat d = uniform (Z.of_nat n) L (j + 1)).
Proof.
  intros HL Hj Hpos. pose proof (uniform_bound (Z.of_nat n) L j ltac:(lia) Hj). pose proof (uniform_next (Z.of_nat n) L j ltac:(lia)).
  destruct (decide (j + 1 < L)) as [Hlt|Hge].
  - pose proof (uniform_bound (Z.of_nat n) L (j + 1) ltac:(lia) ltac:(lia)).
    exists (Z.to_nat (uniform (Z.of_nat n) L (j + 1) - uniform (Z.of_nat n) L j - 1)),
      (Z.to_nat (Z.of_nat n - uniform (Z.of_nat n) L (j + 1))). lia.
  - exists 0%nat, (n - len - 1)%nat. lia.
Qed.

Lemma spread_step s u ents sz (n k : nat) j s' :
  Forall block_ok ents → (length ents ≤ n)%nat → zlen u + Z.of_nat n ≤ size s → 0 ≤ j < zlen ents →
  spread_cells s u ents sz n k (zlen ents) j s' →
  wp (block ← zget (swapPma s') (zlen u + j);
      AssertMsg (PmaEntry.has_block block);;
      writeIndex ← getUniformWriteIndex (zlen u) j (Z.of_nat n) (zlen ents);
      AssertMsg (writeIndex <? size s');;
      AssertMsg ((zlen u <=? writeIndex) && (writeIndex <? zlen u + Z.of_nat n));;
      AssertM (empty s' writeIndex);;
      s' ← write_pma s' writeIndex block;
      write_swapPma s' (zlen u + j) PmaEntry.null_entry) (spread_cells s u ents sz n k (zlen ents) (j + 1)).
Proof.
  intros Hents Hle Hsz Hj (e1&e2&v&He&Hj1&Hv&Hpos&Hbl&Hcell&->).
  destruct e2 as [|x e2]; [rewrite app_nil_r in He; subst ents; lia|]. specialize (Hpos ltac:(done)).
  assert (block_ok x) as Hx by (rewrite He in Hents; by apply Forall_app in Hents as [_ [? _]%Forall_cons]).
  assert (zlen u + j = zlen (nulls (length u + length e1))) as -> by (rewrite zlen_nulls; unfold zlen in *; lia).
  assert (zlen ents ≤ Z.of_nat n) as HL by (unfold zlen; lia). pose proof (uniform_bound (Z.of_nat n) (zlen ents) j ltac:(lia) Hj).
  cbn [swapPma set_swapPma]. simpl app. rewrite (zget_at _ _ _ (at_middle _ _ _)). cbn [mbind result_bind].
  rewrite (assert_ok (PmaEntry.has_block x)) by (by apply block_ok_has). cbn [mbind result_bind].
  rewrite getUniformWriteIndex_ok by lia. cbn [mbind result_bind].
  rewrite (assert_ok (_ <? size _)) by (apply Z.ltb_lt; simpl; lia). cbn [mbind result_bind].
  rewrite (assert_ok (_ && _)) by (apply andb_true_intro; split; [apply Z.leb_le|apply Z.ltb_lt]; lia).
  cbn [mbind result_bind]. rewrite <-Hpos.
  destruct (spread_gap n (length v) (zlen ents) j) as (d&r&Hdr&Hd); [lia|done|exact Hpos|].
  assert (zlen u + zlen v = zlen (u ++ v)) as -> by zlen. rewrite Hdr. cbn [nulls replicate app].
  rewrite AssertM_ok; cycle 1.
  { rewrite (empty_at _ (u ++ v) PmaEntry.null_entry (nulls (d + r) ++ nulls k)); [done| |by left].
    simpl. by simplify_list_eq. }
  cbn [mbind result_bind]. unfold write_pma. cbn [pma set_swapPma set_pma]. rewrite (app_assoc u v).
  rewrite zset_middle by done. cbn [mbind result_bind]. unfold write_swapPma. simpl.
  rewrite zset_middle by done. cbn [mbind result_bind wp].
  exists (e1 ++ [x]), e2, (v ++ x :: nulls d). rewrite length_app. simpl length. rewrite length_nulls.
  split_and!; try done.
  - by simplify_list_eq.
  - zlen.
  - lia.
  - intros Hne. rewrite zlen_app, zlen_cons, zlen_nulls. unfold zlen at 1. rewrite <-Hd; [lia|].
    rewrite He, zlen_app, zlen_cons. destruct e2; [done|]. pose proof (zlen_nonneg e2). zlen.
  - rewrite !blocks_of_app, Hbl, !blocks_of_cons. f_equal. f_equal.
    rewrite <-(app_nil_r (nulls _)), blocks_of_nulls; [done|]. by apply Forall_replicate.
  - apply Forall_app. split; [done|]. constructor; [by right|]. apply Forall_replicate. by left.
  - rewrite length_app. simpl length.
    replace (length u + (length e1 + 1))%nat with (S (length u + length e1)) by lia. rewrite <-nulls_cons_comm.
    replace (n - (length v + S d))%nat with r by lia. rewrite <-!nulls_app.
    change (replicate (d + r) PmaEntry.null_entry) with (nulls (d + r)). rewrite <-nulls_app. by simplify_list_eq.
Qed.

(** Blocks next to each other in [swapPma] are spread over the null cells of the range. *)
Lemma rewrite_ok s u ents sz (n k : nat) range :
  pma s = u ++ nulls n ++ nulls k → swapPma s = nulls (length u) ++ ents ++ sz →
  Forall block_ok ents → (length ents ≤ n)%nat →
  range = mkInterval (zlen u) (zlen u + Z.of_nat n) → Interval.right range ≤ size s →
  ∃ v, OverallocatedDistribution.rewrite s range (zlen ents) =
      Ok (set_swapPma (set_pma s (u ++ v ++ nulls k)) (nulls (length u + length ents) ++ sz)) ∧
    length v = n ∧ blocks_of v = blocks_of ents ∧ Forall cell_ok v.
Proof.
  intros Hp Hs Hents Hle -> Hsz.
  cut (wp (OverallocatedDistribution.rewrite s (mkInterval (zlen u) (zlen u + Z.of_nat n)) (zlen ents))
    (λ s', ∃ v, s' = set_swapPma (set_pma s (u ++ v ++ nulls k)) (nulls (length u + length ents) ++ sz) ∧
       length v = n ∧ blocks_of v = blocks_of ents ∧ Forall cell_ok v)).
  { intros (s'&->&v&->&?)%wp_returns. by exists v. }
  unfold OverallocatedDistribution.rewrite. cbn [Interval.left Interval.right] in *.
  assert (Interval.length (mkInterval (zlen u) (zlen u + Z.of_nat n)) = Z.of_nat n) as -> by (unfold Interval.length; simpl; lia).
  apply (wp_for (spread_cells s u ents sz n k (zlen ents))).
  - intros j s' Hj Hcells. by apply spread_step.
  - exists [], ents, []. split_and!; try done.
    + simpl. lia.
    + simpl. rewrite Nat.sub_0_r, Nat.add_0_r, <-Hp, <-Hs. by destruct s.
  - intros s' (e1&e2&v&He&Hj1&Hv&_&Hbl&Hcell&->).
    assert (e2 = []) as ->.
    { destruct e2 as [|x e2]; [done|]. rewrite He, zlen_app, zlen_cons in Hj1. pose proof (zlen_nonneg e1). pose proof (zlen_nonneg e2). lia. }
    rewrite app_nil_r in He. subst e1. exists (v ++ nulls (n - length v)). split_and!.
    + by simplify_list_eq.
    + rewrite length_app, length_nulls. lia.
    + rewrite blocks_of_app, Hbl. rewrite <-(app_nil_r (nulls _)), blocks_of_nulls; [by rewrite app_nil_r|].
      by apply Forall_replicate.
    + apply Forall_app. split; [done|]. apply Forall_replicate. by left.
Qed.

(** ** The tasks, one after the other *)

(** What the entries of written blocks are. *)
Lemma blocks_of_entries ents bs : Forall2 entry_is ents bs → blocks_of ents = bs.
Proof.
  induction 1 as [|e [l rest] ents bs He _ IH]; [done|].
  by rewrite blocks_of_cons, (group_of_block _ _ _ He), IH.
Qed.

Lemma entries_ok ents bs :
  Forall2 entry_is ents bs → Forall (λ x, good_size x.1) bs → (NULL_KEY ∉ keys (elements bs)) → Forall block_ok ents.
Proof.
  induction 1 as [|e [l rest] ents bs He _ IH]; [done|]. intros [Hg Hgs]%Forall_cons Hn. simpl in Hg.
  rewrite elements_cons, keys_app, elem_of_app in Hn. constructor; [|apply IH; tauto].
  pose proof MinSize_two. destruct Hg as [Hg _]. destruct l as [|v l]; [unfold zlen in Hg; simpl in Hg; lia|].
  exists v, l, rest. split; [exact He|]. intros Heq. apply Hn. left. simpl. rewrite <-Heq. apply elem_of_keys_cons. by left.
Qed.

(** What a task wrote into its part of [swapPma]: the entries of its blocks, and null cells. *)
Record group := mkGroup { g_width : nat; g_entries : list PmaEntry; g_blocks : list (list ValueType * list ValueType) }.
Implicit Types (g : group) (gs : list group).

Definition group_ok g : Prop := Forall2 entry_is (g_entries g) (g_blocks g) ∧ (length (g_blocks g) ≤ g_width g)%nat.
Definition group_cells g : list PmaEntry := g_entries g ++ nulls (g_width g - length (g_blocks g)).
Definition groups_cells gs : list PmaEntry := concat (group_cells <$> gs).
Definition groups_blocks gs : list (list ValueType * list ValueType) := concat (g_blocks <$> gs).

Lemma zlen_group g : group_ok g → zlen (group_cells g) = Z.of_nat (g_width g).
Proof. intros [He Hle]. apply Forall2_length in He. unfold group_cells. rewrite zlen_app, zlen_nulls. unfold zlen. lia. Qed.

Lemma groups_cells_app gs1 gs2 : groups_cells (gs1 ++ gs2) = groups_cells gs1 ++ groups_cells gs2.
Proof. unfold groups_cells. by rewrite fmap_app, concat_app. Qed.

Lemma groups_blocks_app gs1 gs2 : groups_blocks (gs1 ++ gs2) = groups_blocks gs1 ++ groups_blocks gs2.
Proof. unfold groups_blocks. by rewrite fmap_app, concat_app. Qed.

Lemma groups_one g : groups_cells [g] = group_cells g ∧ groups_blocks [g] = g_blocks g.
Proof. unfold groups_cells, groups_blocks. cbn [fmap list_fmap concat]. by rewrite !app_nil_r. Qed.

(** The tasks [ts] wrote the groups [gs] behind the cells [u]. *)
Definition wrote (ts : list TaskInfo) u gs : Prop := ∀ gs1 g gs2, gs = gs1 ++ g :: gs2 →
  ∃ t t', at_ ts (zlen gs1) = Some t ∧ at_ ts (zlen gs1 + 1) = Some t' ∧
    startIndex t = zlen (u ++ groups_cells gs1) ∧ startIndex t' = zlen (u ++ groups_cells gs1) + Z.of_nat (g_width g) ∧
    numberOfBlocksWritten t = zlen (g_blocks g).

(** The groups [gs1] are spread over the cells [v]; the groups [gs2] follow. *)
Definition spread_groups s u (r : nat) gs1 gs2 s' : Prop := ∃ v,
  s' = set_swapPma (set_pma s (u ++ v ++ nulls (length (groups_cells gs2) + r)))
         (nulls (length (u ++ groups_cells gs1)) ++ groups_cells gs2 ++ nulls r) ∧
  length v = length (groups_cells gs1) ∧ blocks_of v = groups_blocks gs1 ∧ Forall cell_ok v.

Lemma spread_group s u (r : nat) gs1 g gs2 s' :
  spread_groups s u r gs1 (g :: gs2) s' → group_ok g → Forall (λ x, good_size x.1) (g_blocks g) →
  (NULL_KEY ∉ keys (elements (g_blocks g))) → zlen (u ++ groups_cells (gs1 ++ g :: gs2)) ≤ size s →
  ∃ s'', OverallocatedDistribution.rewrite s' (mkInterval (zlen (u ++ groups_cells gs1))
      (zlen (u ++ groups_cells gs1) + Z.of_nat (g_width g))) (zlen (g_blocks g)) = Ok s'' ∧
    spread_groups s u r (gs1 ++ [g]) gs2 s''.
Proof.
  intros (v&->&Hlen&Hbl&Hok) Hg Hgood Hnull Hsz. pose proof (zlen_group _ Hg) as Hw. destruct Hg as [Hents Hle].
  pose proof (Forall2_length _ _ _ Hents) as Hel. pose proof (groups_one g) as [Hc1 Hb1].
  change (g :: gs2) with ([g] ++ gs2) in *. rewrite !groups_cells_app, Hc1 in *.
  assert (length (group_cells g) = g_width g) as Hwl by (unfold zlen in Hw; lia).
  assert (zlen (u ++ groups_cells gs1) = zlen (u ++ v)) as Hpos by (unfold zlen; rewrite !length_app; lia).
  set (s' := set_swapPma _ _). replace (zlen (g_blocks g)) with (zlen (g_entries g)) by (unfold zlen; lia).
  destruct (rewrite_ok s' (u ++ v) (g_entries g) (nulls (g_width g - length (g_blocks g)) ++ groups_cells gs2 ++ nulls r)
    (g_width g) (length (groups_cells gs2) + r) (mkInterval (zlen (u ++ groups_cells gs1)) (zlen (u ++ groups_cells gs1) + Z.of_nat (g_width g))))
    as (v'&->&Hv'&Hbl'&Hok').
  - simpl. rewrite length_app, Hwl, nulls_app, <-app_assoc. do 3 f_equal. lia.
  - simpl. unfold group_cells. rewrite <-!app_assoc. f_equal. f_equal. rewrite !length_app. lia.
  - by eapply entries_ok.
  - lia.
  - by rewrite Hpos.
  - simpl. pose proof (zlen_nonneg (groups_cells gs2)). rewrite !zlen_app in Hsz. rewrite zlen_app. lia.
  - eexists. split; [done|]. exists (v ++ v'). split_and!.
    + rewrite !(app_assoc (nulls _) (nulls _)), !nulls_app, <-!app_assoc.
      replace (length (u ++ v) + length (g_entries g) + (g_width g - length (g_blocks g)))%nat
        with (length (u ++ groups_cells (gs1 ++ [g]))) by (rewrite groups_cells_app, Hc1, !length_app, Hwl; lia). done.
    + rewrite groups_cells_app, Hc1, !length_app, Hwl. lia.
    + rewrite blocks_of_app, Hbl, Hbl', (blocks_of_entries _ _ Hents), groups_blocks_app, Hb1. done.
    + by apply Forall_app.
Qed.

(** All tasks: the blocks in front of the first one move back, and all others are spread. *)
Section tasks.
Variables (s : Sds) (u : list PmaEntry) (r : nat) (gs : list group) (t0 : TaskInfo).
Hypothesis (pma_empty : pma s = nulls (length u + length (groups_cells gs) + r)).
Hypothesis (written : swapPma s = u ++ groups_cells gs ++ nulls r).
Hypothesis (some : gs ≠ []) (first_task : at_ (tasks s) 0 = Some t0) (front : blockForBatchSplitter t0 = zlen u).
Hypothesis (by_tasks : wrote (tasks s) u gs) (front_ok : Forall cell_ok u) (all_ok : Forall group_ok gs).
Hypothesis (good : Forall (λ x, good_size x.1) (groups_blocks gs)) (null : NULL_KEY ∉ keys (elements (groups_blocks gs))).
Hypothesis (inside : zlen (u ++ groups_cells gs) ≤ size s).

Definition rewritten (i : Z) s' : Prop :=
  (i = 0 ∧ s' = s) ∨ (0 < i ∧ ∃ gs1 gs2, gs = gs1 ++ gs2 ∧ zlen gs1 = i ∧ spread_groups s u r gs1 gs2 s').

Lemma rewriting_front (i : Z) s' :
  0 ≤ i < zlen gs → rewritten i s' → ∃ s1, (if i =? 0 then copyFrontBack s' (zlen u) else Ok s') = Ok s1 ∧
    ∃ gs1 g gs2, gs = gs1 ++ g :: gs2 ∧ zlen gs1 = i ∧ spread_groups s u r gs1 (g :: gs2) s1.
Proof.
  intros Hi [[-> ->]|(Hpos&gs1&gs2&Hgs&<-&Hspread)].
  - rewrite <-Nat.add_assoc in pma_empty. simpl. rewrite (copyFrontBack_ok s u _ _ written front_ok pma_empty).
    eexists. split; [done|]. destruct gs as [|g gs']; [done|]. exists [], g, gs'. split_and!; [done|done|].
    exists []. split_and!; [|done|done|constructor]. change (groups_cells []) with (@nil PmaEntry). by rewrite app_nil_r.
  - destruct (Z.eqb_spec (zlen gs1) 0); [lia|]. eexists. split; [done|].
    destruct gs2 as [|g gs2]; [rewrite Hgs, app_nil_r in Hi; lia|]. by exists gs1, g, gs2.
Qed.

Lemma rewritten_step (i : Z) s' : 0 ≤ i < zlen gs → rewritten i s' → wp (startRewritingTask i s') (rewritten (i + 1)).
Proof.
  intros Hi Hcase. destruct (rewriting_front i s' Hi Hcase) as (s1&Hfront&gs1&g&gs2&Hgs&<-&Hspread).
  destruct (by_tasks gs1 g gs2 Hgs) as (t&t'&Ht&Ht'&Hst&Hst'&Hw).
  assert (tasks s' = tasks s) as Htasks by (destruct Hcase as [[_ ->]|(_&?&?&_&_&?&->&_)]; done).
  pose proof all_ok as Hok. pose proof good as Hgood. pose proof null as Hnull. pose proof inside as Hin.
  rewrite Hgs in Hok, Hgood, Hnull, Hin. apply Forall_app in Hok as [_ [Hg _]%Forall_cons]. pose proof (groups_one g) as [_ Hb1].
  rewrite groups_blocks_app in Hgood, Hnull. change (g :: gs2) with ([g] ++ gs2) in Hgood, Hnull.
  rewrite groups_blocks_app, Hb1 in Hgood, Hnull. rewrite !elements_app, !keys_app, !elem_of_app in Hnull.
  apply Forall_app in Hgood as [_ [Hgood _]%Forall_app].
  destruct (spread_group s u r gs1 g gs2 s1 Hspread Hg Hgood) as (s2&Hrw&Hspread2); [tauto|done|].
  unfold startRewritingTask. rewrite Htasks, (zget_at _ _ _ Ht), (zget_at _ _ _ Ht'). cbn [mbind result_bind].
  assert ((if zlen gs1 =? 0 then copyFrontBack s' (blockForBatchSplitter t) else Ok s') = Ok s1) as ->.
  { rewrite <-Hfront. destruct (Z.eqb_spec (zlen gs1) 0) as [Hz|]; [|done].
    rewrite Hz, first_task in Ht. injection Ht as <-. by rewrite front. }
  cbn [mbind result_bind]. rewrite Hst, Hst', Hw, Hrw. cbn [wp]. right. split; [lia|].
  exists (gs1 ++ [g]), gs2. split_and!; [by rewrite <-app_assoc|zlen|done].
Qed.

Lemma rewriting_ok :
  ∃ v, for_range 0 (zlen gs) startRewritingTask s =
      Ok (set_swapPma (set_pma s (u ++ v ++ nulls r)) (nulls (length u + length (groups_cells gs) + r))) ∧
    length v = length (groups_cells gs) ∧ blocks_of v = groups_blocks gs ∧ Forall cell_ok v.
Proof.
  cut (wp (for_range 0 (zlen gs) startRewritingTask s) (spread_groups s u r gs [])).
  { intros (s'&->&v&->&Hv)%wp_returns. exists v. split; [|exact Hv]. simpl. rewrite nulls_app. by rewrite length_app. }
  apply (wp_for rewritten); [apply rewritten_step|by left|].
  intros s'. pose proof (zlen_nonneg gs). rewrite Z.max_r by done. intros [[Hz _]|(_&gs1&gs2&Hgs&Hlen&Hspread)].
  - destruct gs; [done|zlen].
  - assert (gs2 = []) as Hnil; [|by rewrite Hgs, Hnil, app_nil_r in *].
    destruct gs2 as [|g gs2]; [done|]. rewrite Hgs in Hlen. pose proof (zlen_nonneg gs2). zlen.
Qed.
End tasks.

End rewrite.
