(* ===== verification/GbpmaBatch.v ===== *)
(** * Inserting a whole batch: what surrounds the tasks

    The numbers of elements that the distribution computes, the widths of tasks, the size of
    the second array, and what follows the tasks out of place: all blocks are spread over
    the pma, and the counters are computed again. *)

From S2P Require Export Float64 GbpmaRewrite GbpmaContents FirstElement.
Import BlockSeq OverallocatedBatchedSparseArray OverallocatedInsertion OverallocatedDistribution.
Import PmaEntry(PmaEntry).
Import HierarchicalBlockSizeManager(AggregateWidth).

Section batch.
Context `{T : SdsTypes} `{C : BlockConfig} `{O : OverallocationConfig}.
Context `{BC : !BlockConfigOk} `{HB : !HalfBlocks} `{FM : !FasterMergeOk}.
Implicit Types (s : Sds) (e b z : PmaEntry) (u w a ents : list PmaEntry).
Implicit Types (batch l es pre post : list ValueType).
Implicit Types (ws bs xs : list (list ValueType * list ValueType)).

(** ** The tasks *)

Lemma set_tasks_twice s x y : set_tasks (set_tasks s x) y = set_tasks s y.
Proof. done. Qed.

Lemma cell_size e : cell_ok e → PmaEntry.size e = zlen (cell_elements e).
Proof.
  intros He. destruct (cell_stores e He) as [[-> ->]|[_ [rest Hr]]]; [done|]. by apply block_size in Hr.
Qed.

(** Counting the elements, cell by cell. *)
Lemma numberOfElements_ok s xs : valid_array s xs → numberOfElements s = Ok (zlen (elements xs)).
Proof.
  intros Hv. destruct (va_pma _ _ Hv) as (u&k&Hp&Hs&Hu&<-). apply wp_is.
  apply (wp_for (λ i n, ∃ u1 u2, u = u1 ++ u2 ∧ zlen u1 = i ∧ n = zlen (elements (blocks_of u1)))).
  - intros i n Hi (u1&u2&->&<-&->). destruct u2 as [|e u2]; [rewrite app_nil_r in Hs; lia|].
    rewrite <-app_assoc in Hp. pose proof Hu as [_ [He _]%Forall_cons]%Forall_app.
    rewrite (empty_at _ _ _ _ Hp He). unfold blockSize. rewrite Hp. cbn [mbind result_bind app].
    rewrite (zget_at _ _ _ (at_middle _ _ _)). cbn [mbind result_bind]. rewrite (cell_size _ He).
    assert (∃ u1' u2', u1 ++ e :: u2 = u1' ++ u2' ∧ zlen u1' = zlen u1 + 1 ∧
      zlen (elements (blocks_of u1)) + zlen (cell_elements e) = zlen (elements (blocks_of u1'))) as Hnext.
    { exists (u1 ++ [e]), u2. rewrite blocks_of_app, blocks_of_cons, app_nil_r, elements_app. unfold cell_elements.
      split_and!; [by simplify_list_eq|zlen|zlen]. }
    destruct (PmaEntry.has_block e) eqn:Hb; cbn [negb wp]; [done|]. destruct Hnext as (u1'&u2'&?&?&Hn).
    exists u1', u2'. split_and!; [done|done|]. rewrite <-Hn.
    destruct He as [->|He]; [change (cell_elements PmaEntry.null_entry) with (@nil ValueType); change (zlen []) with 0; lia|].
    by rewrite (block_ok_has _ He) in Hb.
  - by exists [], u.
  - intros n (u1&u2&->&Hu1&->). pose proof (zlen_nonneg u1). destruct u2 as [|e u2]; [by rewrite app_nil_r|].
    pose proof (zlen_nonneg u2). zlen.
Qed.

(** The size manager counts the elements of cells by their sizes. *)
Lemma sum_cells n u m w :
  Forall cell_ok m →
  sum_range (size_at (mkSizeView n (PmaEntry.size <$> (u ++ m ++ w)))) (zlen u) (zlen u + zlen m) =
  zlen (elements (blocks_of m)).
Proof.
  intros Hm. revert u. induction Hm as [|e m He Hm IH]; intros u.
  { rewrite sum_range_nil by (rewrite zlen_nil; lia). done. }
  rewrite sum_range_cons by zlen. rewrite blocks_of_cons, elements_app, zlen_app.
  change (zlen (elements (group_of e))) with (zlen (cell_elements e)). rewrite <-(cell_size e He). f_equal.
  - unfold size_at. simpl. rewrite fmap_app. simpl.
    replace (zlen u) with (zlen (PmaEntry.size <$> u)) by (unfold zlen; by rewrite length_fmap).
    by rewrite at_middle.
  - specialize (IH (u ++ [e])). rewrite <-app_assoc in IH. simpl in IH. rewrite <-IH. f_equal; zlen.
Qed.

Lemma numberOfElements_range s xs u m w :
  valid_array s xs → pma s = u ++ m ++ w → zlen u + zlen m ≤ size s → Forall cell_ok m →
  getNumberOfElements s (zlen u) (zlen u + zlen m) = Ok (zlen (elements (blocks_of m))).
Proof.
  intros Hv Hp Hs Hm. pose proof (va_manager _ _ Hv) as Hman. unfold manager_valid in Hman.
  pose proof Hman as [(HW&_&_) _]. pose proof (va_managed _ _ Hv) as Hmg.
  pose proof (zlen_nonneg u). pose proof (zlen_nonneg m).
  unfold getNumberOfElements. rewrite (getNumberOfElements_ok _ _ _ _ Hman).
  - f_equal. unfold sizeView. rewrite Hp. by apply sum_cells.
  - lia.
  - simpl. unfold zlen. rewrite length_fmap. rewrite Hp, !length_app in *. unfold zlen in *. lia.
  - rewrite Z.quot_div_nonneg by lia. rewrite Hmg.
    pose proof (Z.div_le_mono (zlen u + zlen m) (size s) (AggregateWidth (sizeManager s)) ltac:(lia) Hs). lia.
Qed.

Lemma width_bound (n d w : Z) : 0 ≤ n + d → maxRedistributionWidth n d = Ok w → 0 ≤ w ≤ n + d + 1.
Proof.
  intros Hn. pose proof MinSize_two. unfold maxRedistributionWidth.
  destruct (AssertMsg _); [|done]. cbn [mbind result_bind]. intros [= <-].
  destruct (Z.eqb_spec (n + d) 0); [lia|]. rewrite Z.quot_div_nonneg by lia.
  pose proof (Z.div_pos (n + d) MinSize). pose proof (Z.div_le_upper_bound (n + d) MinSize (n + d)). nia.
Qed.

(** Everything in front of the tasks: distribution, merging of tasks, the decision, checks. *)
Definition prepare s batch (batchSize numberOfThreads : Z) : result (Sds * bool * bool) :=
  s ← findTasks s batch batchSize numberOfThreads;
  '(s, hasMergedTask) ← mergeTasks s numberOfThreads;
  s ← distributeWorkInMergedTasks s batch batchSize numberOfThreads;
  useInPlaceInserts ← fitInPlace s numberOfThreads;
  s ← write_task s numberOfThreads (λ t, set_requiredWidth t 0);
  (if NDEBUG then Ok tt else validateTaskDistribution s numberOfThreads batchSize useInPlaceInserts);;
  Ok (s, hasMergedTask, useInPlaceInserts).

(** The width of a task in the second array. *)
Lemma overallocatedWidth_bounds s (w : Z) :
  overallocationFactor s = InitialOverallocationFactor → (AllowInPlaceInserts = true → w < 2 ^ 53) → 0 ≤ w →
  w ≤ overallocatedWidth s w ≤ 2 * w.
Proof.
  intros Hf Hw Hpos. unfold overallocatedWidth. destruct AllowInPlaceInserts; [|lia].
  rewrite Hf. assert (InitialOverallocationFactor = SpecFloat.S754_finite false 8106479329266893 (-52)) as -> by (vm_compute; done).
  apply dmul_to_int; [done|]. split; [done|]. by apply Hw.
Qed.

(** ** The size *)

Lemma doubleBeyond_ok (c n : Z) :
  0 < c → ∃ d : nat, doubleBeyond c n = Ok (c * 2 ^ Z.of_nat d) ∧ n < c * 2 ^ Z.of_nat d ∧
    (d = 0%nat ∨ c * 2 ^ Z.of_nat d ≤ 2 * n).
Proof. apply doubling_ok. Qed.

(** Null cells of another number. *)
Definition with_swap s (c n : Z) : Sds := set_size (set_swapPma (set_swapCapacity s c) (nulls (Z.to_nat c))) n.

Lemma increaseSize_ok s (n : Z) :
  0 < swapCapacity s → swapPma s = nulls (Z.to_nat (swapCapacity s)) →
  ∃ d : nat, increaseSize s n = Ok (with_swap s (swapCapacity s * 2 ^ Z.of_nat d) n) ∧
    n < swapCapacity s * 2 ^ Z.of_nat d.
Proof.
  intros Hc Hs. unfold increaseSize. destruct (Z.leb_spec (swapCapacity s) n).
  - destruct (doubleBeyond_ok (swapCapacity s) n Hc) as (d&->&Hd&_). by exists d.
  - exists 0%nat. change (2 ^ Z.of_nat 0) with 1. rewrite Z.mul_1_r. split; [|done].
    unfold with_swap. rewrite <-Hs. by destruct s.
Qed.

(** ** The whole operation *)

Lemma resizeMainPma_ok s (n : nat) :
  pma s = nulls n → zlen (pma s) = capacity s → 0 ≤ swapCapacity s →
  resizeMainPma s = set_capacity (set_pma s (nulls (Z.to_nat (swapCapacity s)))) (swapCapacity s).
Proof.
  intros Hp Hc Hn. unfold resizeMainPma. destruct (Z.eqb_spec (swapCapacity s) (capacity s)) as [Heq|]; [|done].
  cbn [negb]. rewrite Heq, <-Hc, Hp, zlen_nulls, Nat2Z.id. rewrite <-Hp at 1. rewrite <-zlen_nulls, <-Hp, Hc. by destruct s.
Qed.

Lemma recompute_any s (n : Z) :
  0 < AggregateWidth (sizeManager s) → counts s → 0 ≤ size s < zlen (pma s) →
  (AggregateWidth (sizeManager s) | zlen (pma s)) →
  ∃ m, recompute s n = Ok (set_sizeManager s m) ∧ manager_valid (set_sizeManager s m) ∧
    AggregateWidth m = AggregateWidth (sizeManager s) ∧
    HierarchicalBlockSizeManager.size m = size s / AggregateWidth (sizeManager s) + 1.
Proof.
  intros HW [_ Hl] Hsz [q Hq].
  destruct (manager_recompute_ok (sizeManager s) (sizeView s) n) as (m&Hm&Hv&HAW&Hcount); [done|done|simpl; lia| |].
  - simpl. unfold zlen at 1. rewrite length_fmap. change (Z.of_nat (length (pma s))) with (zlen (pma s)). rewrite Hq.
    apply Z.mul_le_mono_nonneg_r; [lia|]. apply Z.le_succ_l. apply Z.div_lt_upper_bound; lia.
  - exists m. unfold recompute. rewrite Hm. by split_and!.
Qed.

(** What a batch may hold. *)
Record insertable es : Prop := {
  in_sorted : sorted es;
  in_null : NULL_KEY ∉ keys es;
  in_zero : keyOfValue zeroValue ∉ keys es;
}.

(** Both arrays after the tasks: the blocks [gs] of the tasks behind the cells [u]. *)
Record all_moved s u (r : nat) gs t0 : Prop := {
  am_pma : pma s = nulls (length (pma s));
  am_capacity : zlen (pma s) = capacity s;
  am_swapCapacity : swapCapacity s = Z.of_nat (length u + length (groups_cells gs) + S r);
  am_swap : swapPma s = u ++ groups_cells gs ++ nulls (S r);
  am_size : size s = zlen (u ++ groups_cells gs);
  am_some : gs ≠ [];
  am_first : at_ (tasks s) 0 = Some t0;
  am_front : blockForBatchSplitter t0 = zlen u;
  am_tasks : wrote (tasks s) u gs;
  am_second : ∃ t0 t1 ts, tasks s = t0 :: t1 :: ts ∧ (NDEBUG = true ∨ is_type (type t1) INVERSE_MERGE = false);
  am_cells : Forall cell_ok u;
  am_groups : Forall group_ok gs;
  am_counts : counts s;
  am_width : (AggregateWidth (sizeManager s) | swapCapacity s);
  am_factor : overallocationFactor s = InitialOverallocationFactor;
}.

(** Blocks that an array may hold. *)
Record contents_ok xs : Prop := {
  co_good : Forall (λ x, good_size x.1) xs;
  co_sorted : sorted (elements xs);
  co_stales : stales [keyOfValue zeroValue] xs;
  co_null : NULL_KEY ∉ keys (elements xs);
  co_some : xs ≠ [];
}.

(** Everything that follows the tasks. *)
Lemma rewriting_finishes s u (r : nat) gs t0 :
  all_moved s u r gs t0 → contents_ok (blocks_of u ++ groups_blocks gs) →
  ∃ s', (s ← for_range 0 (zlen gs) startRewritingTask (resizeMainPma s); recompute s (zlen gs)) = Ok s' ∧
    valid_array s' (blocks_of u ++ groups_blocks gs) ∧ tasks s' = tasks s.
Proof.
  intros [Hp Hcap Hsc Hsw Hsz Hsome Ht0 Hb Hwrote Hsecond Hu Hgs [HW Hl] Hdiv Hf] [Hg Hso Hst Hn Hne].
  rewrite (resizeMainPma_ok s _ Hp Hcap) by lia. set (c := (length u + length (groups_cells gs) + S r)%nat) in *.
  rewrite Hsc, Nat2Z.id. set (s1 := set_capacity _ _).
  pose proof Hg as [_ Hgb]%Forall_app. pose proof Hn as Hnb. rewrite elements_app, keys_app, elem_of_app in Hnb.
  destruct (rewriting_ok s1 u (S r) gs t0) as (v&->&Hv&Hbl&Hcell); try done; [tauto|by rewrite <-Hsz|].
  cbn [mbind result_bind]. fold c. set (s2 := set_swapPma _ _). assert (zlen (pma s2) = Z.of_nat c) as Hlen.
  { simpl. rewrite !zlen_app, zlen_nulls. unfold zlen, c. lia. }
  destruct (recompute_any s2 (zlen gs)) as (mm&Hm&Hmv&HAW&Hms); [done|done| |by rewrite Hlen, <-Hsc|].
  { rewrite Hlen. simpl. rewrite Hsz, zlen_app. unfold zlen, c. lia. }
  exists (set_sizeManager s2 mm). split; [done|]. split; [|done]. split; try done.
  - exists (u ++ v), r. split_and!; [by rewrite <-app_assoc| | |].
    + change (zlen (u ++ v) = size s). rewrite Hsz. unfold zlen. rewrite !length_app. lia.
    + by apply Forall_app.
    + by rewrite blocks_of_app, Hbl.
  - change (nulls c = nulls (length (pma s2))). f_equal. unfold zlen in Hlen. lia.
  - change (HierarchicalBlockSizeManager.size mm = size s2 / AggregateWidth mm + 1). by rewrite Hms, HAW.
  - change (AggregateWidth mm | Z.of_nat c). by rewrite HAW, <-Hsc.
Qed.

(** The second array grows to more than the width of all tasks. *)
Lemma grow_ok s xs ts (w : Z) :
  valid_array s xs → 0 ≤ w →
  ∃ c : Z, increaseSize (set_tasks s ts) w = Ok (with_swap (set_tasks s ts) c w) ∧ w < c ∧ (AggregateWidth (sizeManager s) | c).
Proof.
  intros Hv Hw. destruct (va_pma _ _ Hv) as (u&k&Hp&_).
  assert (capacity s = swapCapacity s) as Hcap by (by rewrite (va_swapCapacity _ _ Hv)).
  assert (0 < capacity s) as Hpos.
  { rewrite <-(va_capacity _ _ Hv), Hp, zlen_app, zlen_nulls. pose proof (zlen_nonneg u). lia. }
  destruct (increaseSize_ok (set_tasks s ts) w) as (d&->&Hlt).
  { simpl. lia. }
  { simpl. rewrite (va_swap _ _ Hv), <-Hcap, <-(va_capacity _ _ Hv). unfold zlen. by rewrite Nat2Z.id. }
  eexists. split; [done|]. split; [exact Hlt|]. simpl. rewrite <-Hcap. apply Z.divide_mul_l, Hv.
Qed.

(** The order check of a batch passes. *)
Lemma batchSorted_assert batch :
  nondecreasing batch → NDEBUG = true ∨ (∀ k, k ∈ keys batch → NULL_KEY ≤ k) →
  AssertM (batchSorted batch (zlen batch)) = Ok tt.
Proof.
  intros Hs [Hd|Hk]; [unfold AssertM; by rewrite Hd|]. apply AssertM_ok.
  destruct (batchSorted_spec batch) as (b&Heq&Hb'). rewrite Heq. f_equal. by apply Hb'.
Qed.

(** [insertBatch] after the distribution of the batch. *)
Lemma insertBatch_prepared s batch (n : Z) s1 (merged inPlace : bool) :
  nondecreasing batch → NDEBUG = true ∨ (∀ k, k ∈ keys batch → NULL_KEY ≤ k) → n ≤ MaxThreads → n ≤ zlen batch →
  prepare s batch (zlen batch) n = Ok (s1, merged, inPlace) →
  insertBatch s batch (zlen batch) n =
    (if inPlace then insertInPlace s1 batch n else insertOutOfPlace s1 batch (zlen batch) n merged).
Proof.
  intros Hs Hkeys Hn Hnb Hprep. unfold insertBatch. rewrite batchSorted_assert by done. cbn [mbind result_bind].
  rewrite (assert_ok (n <=? MaxThreads)) by (by apply Z.leb_le). cbn [mbind result_bind].
  rewrite (assert_ok (n <=? zlen batch)) by (by apply Z.leb_le). cbn [mbind result_bind].
  unfold prepare in Hprep. destruct (findTasks _ _ _ _) as [s2|]; [|done]. cbn [mbind result_bind] in *.
  destruct (mergeTasks s2 n) as [[s3 h]|]; [|done]. cbn [mbind result_bind] in *.
  destruct (distributeWorkInMergedTasks _ _ _ _) as [s4|]; [|done]. cbn [mbind result_bind] in *.
  destruct (fitInPlace s4 n) as [ip|]; [|done]. cbn [mbind result_bind] in *.
  destruct (write_task s4 n _) as [s5|]; [|done]. cbn [mbind result_bind] in *.
  destruct (if NDEBUG then _ else _) as [[]|]; [|done]. cbn [mbind result_bind] in *.
  by injection Hprep as -> -> ->.
Qed.

End batch.
