(* ===== verification/GbpmaThreads.v ===== *)
(** * The distribution of a batch to several threads

    What [insertBatch] knows before the tasks start: they have consecutive ranges of the
    pma and consecutive parts of the batch, which belong to these ranges; in place, each
    range has room for its part. *)

From S2P Require Export GbpmaBatch GbpmaInPlaceRange.
Import BlockSeq OverallocatedBatchedSparseArray OverallocatedInsertion OverallocatedDistribution.
Import PmaEntry(PmaEntry).

Section threads.
Context `{T : SdsTypes} `{C : BlockConfig} `{O : OverallocationConfig}.
Context `{BC : !BlockConfigOk} `{HB : !HalfBlocks}.
Implicit Types (s : Sds) (e b z : PmaEntry) (u w a : list PmaEntry) (v : ValueType).
Implicit Types (batch l es pre post : list ValueType).
Implicit Types (ts : list TaskInfo) (t : TaskInfo).

(** ** Writing tasks *)

Lemma wlp_write_task s (i : Z) f (Q : Sds → Prop) :
  (∀ t, at_ (tasks s) i = Some t → Q (set_tasks s (zupd (tasks s) i (f t)))) → wlp (write_task s i f) Q.
Proof.
  intros HQ. unfold write_task, zget. destruct (at_ (tasks s) i) as [t|] eqn:Ht; [|done]. cbn [mbind result_bind].
  rewrite zset_in by (by eapply at_Some_bound). cbn [mbind result_bind]. apply wlp_ok. by apply HQ.
Qed.

Lemma wlp_get_task s (i : Z) (Q : TaskInfo → Prop) :
  (∀ t, at_ (tasks s) i = Some t → Q t) → wlp (zget (tasks s) i) Q.
Proof. intros HQ. unfold zget. destruct (at_ (tasks s) i) as [t|] eqn:Ht; [|done]. apply wlp_ok. by apply HQ. Qed.

(** ** One splitter *)

(** Where the part of a thread starts: at the block [e] of its splitter key, behind the
    cells [a1]; the elements in front are smaller than the batch elements of the part, and
    the batch elements in front of the part are smaller than the block. *)
Record starts_at a1 e a2 batch (key block first : Z) : Prop := {
  sa_index : zlen a1 = block;
  sa_block : block_ok e;
  sa_first : 0 ≤ first ≤ zlen batch;
  sa_part : ∀ k, k ∈ keys (drop (Z.to_nat first) batch) → below (elements (blocks_of a1)) k;
  sa_front : ∀ k, k ∈ keys (take (Z.to_nat first) batch) → k < PmaEntry.head e;
  sa_least : blocks_of a1 = [] ∨ PmaEntry.head e ≤ key;
  sa_behind : Forall (λ z, block_ok z → key < PmaEntry.head z) a2;
}.

Lemma key_of_part batch (n : nat) k : k ∈ keys (drop n batch) → ∃ i v, at_ batch i = Some v ∧ Z.of_nat n ≤ i ∧ keyOfValue v = k.
Proof.
  intros (v&Hv&<-)%elem_of_keys. apply list_elem_of_lookup in Hv as [j Hj]. rewrite lookup_drop in Hj.
  exists (Z.of_nat (n + j)), v. split_and!; [|lia|done]. unfold at_. destruct (Z.leb_spec 0 (Z.of_nat (n + j))); [|lia].
  by rewrite Nat2Z.id.
Qed.

Lemma key_of_front batch (n : nat) k : k ∈ keys (take n batch) → ∃ i v, at_ batch i = Some v ∧ i < Z.of_nat n ∧ keyOfValue v = k.
Proof.
  intros (v&Hv&<-)%elem_of_keys. apply list_elem_of_lookup in Hv as [j Hj]. apply lookup_take_Some in Hj as [Hj Hlt].
  exists (Z.of_nat j), v. split_and!; [|lia|done]. unfold at_. destruct (Z.leb_spec 0 (Z.of_nat j)); [|lia].
  by rewrite Nat2Z.id.
Qed.

(** The part of the first thread starts with the batch. *)
Definition part_start (thread first : Z) : Z := if thread =? 0 then 0 else first.

Lemma splitter_ok s xs a w batch (distance thread : Z) v :
  valid_array s xs → xs ≠ [] → pma s = a ++ w → zlen a = size s → sorted batch →
  at_ batch (thread * distance) = Some v →
  ∃ block first a1 e a2,
    splitterBlock s batch distance thread = Ok block ∧ splitterElement s batch distance thread block = Ok first ∧
    first ≤ thread * distance + 1 ∧ 0 ≤ first ∧ a = a1 ++ e :: a2 ∧
    starts_at a1 e a2 batch (keyOfValue v) block first ∧
    starts_at a1 e a2 batch (keyOfValue v) block (part_start thread first).
Proof.
  intros Hv Hne Hp Ha Hs Hvi. set (i := thread * distance) in *. pose proof (at_Some_bound _ _ _ Hvi) as Hi.
  destruct (locate s xs (keyOfValue v) Hv) as (u&m&k&Hloc&Hp'&Hsz&_&_&Hxs&Hbelow&Hshape).
  assert (a = u ++ m) as Ham.
  { rewrite Hp, app_assoc in Hp'. apply app_inj_1 in Hp' as [-> _]; [done|]. unfold zlen in *. rewrite length_app. lia. }
  destruct Hshape as [[-> ->]|(e&m'&->&He&Hleast&Hbehind)]; [by destruct Hne|].
  pose proof (sorted_nondecreasing _ Hs) as Hnd.
  pose proof (countBelow_bounds batch (PmaEntry.head e)) as Hc. set (h := PmaEntry.head e) in *.
  set (f := Z.min (countBelow batch h) (i + 1)).
  assert (splitterBlock s batch distance thread = Ok (zlen u)) as Hblock.
  { unfold splitterBlock, batchKey. fold i. by rewrite (zget_at _ _ _ Hvi). }
  assert (splitterElement s batch distance thread (zlen u) = Ok f) as Hfirst.
  { unfold splitterElement, OverallocatedBatchedSparseArray.head. rewrite Hp'. simpl app.
    rewrite (zget_at _ _ _ (at_middle _ _ _)). cbn [mbind result_bind]. by rewrite walkDown_ok. }
  cut (∀ p, 0 ≤ p ≤ f → p = f ∨ p = i → starts_at u e m' batch (keyOfValue v) (zlen u) p).
  { intros Hst. exists (zlen u), f, u, e, m'. split_and!; try done; try lia; apply Hst; try lia;
      unfold part_start; destruct (Z.eqb_spec thread 0) as [Hz|]; try lia; unfold i; rewrite Hz; lia. }
  intros p Hps Hpcase.
  split; try done.
  - lia.
  - intros k' (j&v'&Hj&Hge&<-)%key_of_part. rewrite Z2Nat.id in Hge by lia.
    pose proof (countBelow_partition batch h j v' Hnd Hj) as Hpart.
    destruct (decide (countBelow batch h ≤ j)) as [Hle|Hgt].
    + pose proof (va_sorted _ _ Hv) as Hso. rewrite Hxs, elements_app in Hso.
      destruct (head_first e m' He) as (x&l&Hx&Hh). rewrite Hx in Hso. apply sorted_middle in Hso as (_&_&Hbl&_).
      eapply below_weaken; [exact Hbl|]. assert (¬ keyOfValue v' < h) by (rewrite Hpart; lia). unfold h in *. lia.
    + destruct (decide (i = j)) as [<-|].
      * rewrite Hvi in Hj. by injection Hj as <-.
      * assert (i < j) as Hij by lia. pose proof (sorted_at_lt batch i j v v' Hs Hvi Hj Hij).
        eapply below_weaken; [exact Hbelow|lia].
  - intros k' (j&v'&Hj&Hlt&<-)%key_of_front. rewrite Z2Nat.id in Hlt by lia.
    apply (countBelow_partition batch h j v' Hnd Hj). lia.
Qed.

(** ** All splitters *)

Record found s batch (distance n thread : Z) t : Prop := {
  fo_block : splitterBlock s batch distance thread = Ok (blockForBatchSplitter t);
  fo_first : splitterElement s batch distance thread (blockForBatchSplitter t) = Ok (firstBatchElement t);
  fo_next : ∃ (nb nf x : Z),
    (if thread =? n - 1 then nb = size s ∧ nf = zlen batch
     else splitterBlock s batch distance (thread + 1) = Ok nb ∧ splitterElement s batch distance (thread + 1) nb = Ok nf) ∧
    getNumberOfElements s (blockForBatchSplitter t) nb = Ok x ∧
    maxRedistributionWidth x (nf - firstBatchElement t) = Ok (requiredWidth t);
}.

(** The entry behind the tasks. *)
Definition sentinel s batch (n : Z) ts : Prop :=
  ∃ t t0, at_ ts n = Some t ∧ at_ (tasks s) n = Some t0 ∧ blockForBatchSplitter t = size s ∧
    firstBatchElement t = zlen batch ∧ type t = type t0.

Lemma findTask_found s batch (distance n thread : Z) ts :
  wlp (findTask batch (zlen batch) distance n thread (set_tasks s ts)) (λ s',
    ∃ t t0, at_ ts thread = Some t0 ∧ found s batch distance n thread t ∧ s' = set_tasks s (zupd ts thread t)).
Proof.
  unfold findTask. apply wlp_bind. intros b Hb. apply wlp_bind, wlp_write_task. intros t0 Ht0. cbn [tasks set_tasks] in *.
  pose proof (at_Some_bound _ _ _ Ht0) as Hbd.
  apply wlp_bind. intros f Hf. apply wlp_bind, wlp_write_task. intros t1 Ht1. cbn [tasks set_tasks] in *.
  rewrite at_zupd_eq in Ht1 by done. injection Ht1 as <-. rewrite zupd_zupd.
  apply wlp_bind. intros [nb nf] Hnext. cbn [size set_tasks] in Hnext.
  apply wlp_bind. intros x Hx. apply wlp_bind. intros w Hw. apply wlp_write_task. intros t2 Ht2. cbn [tasks set_tasks] in *.
  rewrite at_zupd_eq in Ht2 by done. injection Ht2 as <-. rewrite zupd_zupd.
  eexists _, t0. split; [done|]. split; [|reflexivity]. split.
  - exact Hb.
  - exact Hf.
  - cbn [blockForBatchSplitter firstBatchElement requiredWidth set_requiredWidth set_firstBatchElement set_blockForBatchSplitter].
    exists nb, nf, x. split; [|split; [exact Hx|exact Hw]]. destruct (thread =? n - 1); [by injection Hnext as <- <-|].
    revert Hnext. rewrite ?set_tasks_twice. change (splitterBlock (set_tasks s ?y)) with (splitterBlock s).
    destruct (splitterBlock s batch distance (thread + 1)) as [b'|]; [|done]. cbn [mbind result_bind].
    change (splitterElement (set_tasks s ?y)) with (splitterElement s).
    destruct (splitterElement s batch distance (thread + 1) b') as [f'|] eqn:Hf'; [|done]. cbn [mbind result_bind].
    by intros [= <- <-].
Qed.

Lemma findTasks_found s batch (n : Z) :
  0 ≤ n → wlp (findTasks s batch (zlen batch) n) (λ s', ∃ ts, s' = set_tasks s ts ∧
    (∀ i, 0 ≤ i < n → ∃ t, at_ ts i = Some t ∧ found s batch (zlen batch ÷ n) n i t) ∧ sentinel s batch n ts).
Proof.
  intros Hn. unfold findTasks. apply wlp_bind, wlp_write_task. intros t0 Ht0.
  pose proof (at_Some_bound _ _ _ Ht0) as Hb0.
  apply (wlp_for (λ k s', ∃ ts, s' = set_tasks s ts ∧
    (∀ i, 0 ≤ i < k → ∃ t, at_ ts i = Some t ∧ found s batch (zlen batch ÷ n) n i t) ∧ sentinel s batch n ts)).
  - intros k s' Hk (ts&->&Hts&(t&t0'&Ht&Ht0'&Hsent)). eapply wlp_mono; [apply findTask_found|].
    intros s' (t1&t1'&Ht1&Hf&->). pose proof (at_Some_bound _ _ _ Ht1) as Hb1. eexists. split; [done|]. split.
    + intros i Hi. destruct (decide (i = k)) as [->|]; [exists t1; by rewrite at_zupd_eq|].
      rewrite at_zupd_ne by lia. apply Hts. lia.
    + exists t, t0'. by rewrite at_zupd_ne by lia.
  - done.
  - eexists. split; [done|]. split; [lia|]. eexists _, t0. rewrite at_zupd_eq by done. by split_and!.
Qed.

(** ** Merged tasks *)

Definition inverse_below (n : Z) ts : Prop :=
  ∃ i t, 0 ≤ i < n ∧ at_ ts i = Some t ∧ is_type (type t) INVERSE_MERGE = true.

(** No task in front of [n] was merged: their splitters are different blocks. *)
Record unmerged ts0 ts (n : Z) : Prop := {
  um_zero : ∃ t, at_ ts0 0 = Some t ∧ at_ ts 0 = Some (set_type (set_firstBatchElement t 0) INSERTION);
  um_other : ∀ i, 1 ≤ i < n → ∃ t, at_ ts0 i = Some t ∧ at_ ts i = Some (set_mergedTasks (set_type t INSERTION) 0);
  um_rest : ∀ i, n ≤ i → at_ ts i = at_ ts0 i;
  um_blocks : ∀ i t t', 1 ≤ i < n → at_ ts0 i = Some t → at_ ts0 (i - 1) = Some t' →
    blockForBatchSplitter t ≠ blockForBatchSplitter t';
}.

Lemma unmerged_block ts0 ts n i t :
  unmerged ts0 ts n → 0 ≤ i → at_ ts i = Some t →
  ∃ t0, at_ ts0 i = Some t0 ∧ blockForBatchSplitter t = blockForBatchSplitter t0.
Proof.
  intros [(t0&Ht0&H0) Hother Hrest _] Hi Ht. destruct (decide (i = 0)) as [->|].
  - rewrite H0 in Ht. injection Ht as <-. by exists t0.
  - destruct (decide (i < n)).
    + destruct (Hother i) as (t1&Ht1&Hi1); [lia|]. rewrite Hi1 in Ht. injection Ht as <-. by exists t1.
    + rewrite Hrest in Ht by lia. by exists t.
Qed.

Lemma unmerged_step ts0 ts (k : Z) t p :
  1 ≤ k → unmerged ts0 ts k → at_ ts k = Some t → at_ ts (k - 1) = Some p →
  blockForBatchSplitter t ≠ blockForBatchSplitter p →
  unmerged ts0 (zupd ts k (set_mergedTasks (set_type t INSERTION) 0)) (k + 1).
Proof.
  intros Hk Hum Hat Hap Hne. pose proof Hum as [(z&Hz&H0) Hother Hrest Hblocks].
  pose proof (at_Some_bound _ _ _ Hat) as Hb1.
  assert (at_ ts0 k = Some t) as Hat0 by (by rewrite <-Hrest by lia). split.
  - exists z. by rewrite at_zupd_ne by lia.
  - intros i Hi. destruct (decide (i = k)) as [->|].
    + exists t. by rewrite at_zupd_eq by done.
    + rewrite at_zupd_ne by lia. apply Hother. lia.
  - intros i Hi. rewrite at_zupd_ne by lia. apply Hrest. lia.
  - intros i t1 t1' Hi Ht1 Ht1'. destruct (decide (i = k)) as [->|]; [|apply (Hblocks i); [lia|done..]].
    rewrite Hat0 in Ht1. injection Ht1 as <-.
    destruct (unmerged_block ts0 ts k (k - 1) p Hum ltac:(lia) Hap) as (p0&Hp0&Hpb).
    rewrite Ht1' in Hp0. injection Hp0 as <-. by rewrite <-Hpb.
Qed.

Lemma unmerged_start ts0 t : at_ ts0 0 = Some t → unmerged ts0 (zupd ts0 0 (set_type (set_firstBatchElement t 0) INSERTION)) 1.
Proof.
  intros Ht. pose proof (at_Some_bound _ _ _ Ht). split.
  - exists t. by rewrite at_zupd_eq.
  - intros i Hi. lia.
  - intros i Hi. rewrite at_zupd_ne; [done|lia|lia].
  - intros i ? ? Hi. lia.
Qed.

Lemma mergeTask_step s ts0 ts (k merged : Z) (h : bool) :
  1 ≤ k → inverse_below (k - 1) ts ∨ unmerged ts0 ts k →
  wlp (mergeTask k (set_tasks s ts, merged, h)) (λ '(s', _, _), ∃ ts', s' = set_tasks s ts' ∧
    (inverse_below k ts' ∨ unmerged ts0 ts' (k + 1))).
Proof.
  intros Hk Hcase. unfold mergeTask. apply wlp_bind. intros t Ht. apply wlp_bind. intros p Hp.
  cbn [tasks set_tasks] in *. unfold zget in Ht, Hp.
  destruct (at_ ts k) as [t'|] eqn:Hat; [|done]. injection Ht as ->.
  destruct (at_ ts (k - 1)) as [p'|] eqn:Hap; [|done]. injection Hp as ->.
  pose proof (at_Some_bound _ _ _ Hat) as Hb1. pose proof (at_Some_bound _ _ _ Hap) as Hb2.
  destruct (Z.eqb_spec (blockForBatchSplitter t) (blockForBatchSplitter p)) as [Heq|Hne].
  - do 4 (apply wlp_bind, wlp_write_task; cbn [tasks set_tasks]; intros ? ?). apply wlp_ok.
    eexists. split; [reflexivity|]. left. exists (k - 1).
    rewrite at_zupd_eq by (rewrite !zlen_zupd; lia).
    eexists. split; [lia|]. split; [reflexivity|].
    match goal with Hx : at_ _ (k - 1) = Some ?x |- is_type (type (set_requiredWidth ?x _)) _ = true =>
      rewrite at_zupd_ne, at_zupd_eq in Hx by (rewrite ?zlen_zupd; lia); injection Hx as <- end. done.
  - apply wlp_bind, wlp_write_task. cbn [tasks set_tasks]. intros t2 Ht2. rewrite Hat in Ht2. injection Ht2 as <-.
    apply wlp_ok. eexists. split; [reflexivity|]. destruct Hcase as [(i&ti&Hi&Hti&Hinv)|Hum].
    + left. exists i, ti. rewrite at_zupd_ne by lia. split_and!; [lia|lia|done|done].
    + right. by apply (unmerged_step ts0 ts k t p).
Qed.

Lemma mergeTasks_ok s ts0 (n : Z) :
  1 ≤ n → wlp (mergeTasks (set_tasks s ts0) n) (λ '(s', _), ∃ ts, s' = set_tasks s ts ∧
    (inverse_below (n - 1) ts ∨ unmerged ts0 ts n)).
Proof.
  intros Hn. unfold mergeTasks. apply wlp_bind, wlp_write_task. cbn [tasks set_tasks]. intros t0 Ht0.
  pose proof (at_Some_bound _ _ _ Ht0).
  apply wlp_bind. eapply wlp_mono.
  - apply (wlp_for (λ k '(s', _, _), ∃ ts, s' = set_tasks s ts ∧ (inverse_below (k - 1) ts ∨ unmerged ts0 ts k))); [|done|].
    + intros k [[s' merged] h] Hk (ts&->&Hcase). eapply wlp_mono; [by apply mergeTask_step; [lia|]|].
      intros [[s' ?] ?] (ts'&->&Hc). exists ts'. by replace (k + 1 - 1) with k by lia.
    + eexists. split; [reflexivity|]. right. by apply unmerged_start.
  - intros [[s' merged] h] Hs. apply wlp_ok. done.
Qed.

(** The distribution in a group of merged tasks keeps the types. *)
Definition same_types s s' : Prop :=
  ∀ i t, at_ (tasks s) i = Some t → ∃ t', at_ (tasks s') i = Some t' ∧ type t' = type t.

Lemma same_types_refl s : same_types s s.
Proof. intros i t Ht. by exists t. Qed.

Lemma same_types_trans s s' s'' : same_types s s' → same_types s' s'' → same_types s s''.
Proof. intros H1 H2 i t (t'&Ht'&<-)%H1. by apply H2. Qed.

Lemma same_types_write s (i : Z) f :
  (∀ t, type (f t) = type t) → wlp (write_task s i f) (same_types s).
Proof.
  intros Hf. apply wlp_write_task. intros t Ht j t' Ht'. cbn [tasks set_tasks].
  pose proof (at_Some_bound _ _ _ Ht). destruct (decide (j = i)) as [->|].
  - rewrite at_zupd_eq by done. rewrite Ht in Ht'. injection Ht' as ->. by eexists.
  - rewrite at_zupd_ne by lia. by exists t'.
Qed.

Lemma distributeMergeGroup_types batch (batchSize thread : Z) s :
  wlp (distributeMergeGroup batch batchSize thread s) (same_types s).
Proof.
  unfold distributeMergeGroup. apply wlp_bind. intros t _. apply wlp_bind. intros next _.
  apply wlp_bind. intros block _. apply wlp_bind. intros start _. apply wlp_bind. intros [] _.
  apply wlp_bind. eapply (wlp_mono _ (same_types s)).
  - destruct (negb _); [|apply wlp_ok, same_types_refl]. by apply same_types_write.
  - intros s1 Hs1. unfold for_down. set (m := mergedTasks t). destruct (decide (m ≤ 0)).
    + rewrite for_range_nil by lia. by apply wlp_ok.
    + apply (wlp_for (λ _, same_types s)); [|lia|done]. intros j s2 _ Hs2.
      apply wlp_bind. intros size _. apply wlp_bind. intros width _.
      eapply wlp_mono; [by apply same_types_write|]. intros s3. by apply same_types_trans.
Qed.

Lemma distribute_types s batch (batchSize n : Z) :
  1 ≤ n → wlp (distributeWorkInMergedTasks s batch batchSize n) (same_types s).
Proof.
  intros Hn. unfold distributeWorkInMergedTasks. apply (wlp_for (λ _, same_types s)); [|done|apply same_types_refl].
  intros i s1 _ Hs1. apply wlp_bind. intros t _. destruct (_ && _); [|by apply wlp_ok].
  eapply wlp_mono; [apply distributeMergeGroup_types|]. intros s2. by apply same_types_trans.
Qed.

Lemma distribute_unmerged s ts0 ts batch (batchSize n : Z) :
  unmerged ts0 ts n → distributeWorkInMergedTasks (set_tasks s ts) batch batchSize n = Ok (set_tasks s ts).
Proof.
  intros Hum. unfold distributeWorkInMergedTasks. apply wp_is, (wp_for (λ _ s', s' = set_tasks s ts)); [|done|done].
  intros i s1 Hi ->. cbn [tasks set_tasks]. destruct (um_other _ _ _ Hum i Hi) as (t&_&Ht).
  rewrite (zget_at _ _ _ Ht). cbn [mbind result_bind mergedTasks set_mergedTasks]. by rewrite andb_false_r.
Qed.

(** The decision for insertions in place. *)
Lemma fitInPlace_true s (n : Z) :
  0 ≤ n → wlp (fitInPlace s n) (λ fits, fits = true → ∀ i, 0 ≤ i < n → ∃ t t', at_ (tasks s) i = Some t ∧
    at_ (tasks s) (i + 1) = Some t' ∧ is_type (type t) INVERSE_MERGE = false ∧
    requiredWidth t ≤ blockForBatchSplitter t' - blockForBatchSplitter t).
Proof.
  intros Hn. unfold fitInPlace.
  apply (wlp_for (λ k (b : bool), b = true → ∀ i, 0 ≤ i < k → ∃ t t', at_ (tasks s) i = Some t ∧
    at_ (tasks s) (i + 1) = Some t' ∧ is_type (type t) INVERSE_MERGE = false ∧
    requiredWidth t ≤ blockForBatchSplitter t' - blockForBatchSplitter t)); [|done|intros _ i Hi; lia].
  intros k b Hk IH. destruct b; [|by apply wlp_ok]. specialize (IH eq_refl).
  unfold zget. destruct (at_ (tasks s) k) as [t|] eqn:Ht; [|done]. cbn [mbind result_bind].
  destruct (at_ (tasks s) (k + 1)) as [t'|] eqn:Ht'; [|done]. cbn [mbind result_bind]. apply wlp_ok.
  intros Hb i Hi. destruct (decide (i = k)) as [->|]; [|apply IH; lia].
  apply negb_true_iff, orb_false_iff in Hb as [Hw Hty]. exists t, t'. split_and!; try done.
  by apply Z.ltb_ge in Hw.
Qed.

(** What holds of the tasks when no two splitters are in the same block. *)
Record separate_tasks s batch (n : Z) ts : Prop := {
  it_task : ∀ i, 0 ≤ i < n → ∃ t0 t t', found s batch (zlen batch ÷ n) n i t0 ∧ at_ ts i = Some t ∧ at_ ts (i + 1) = Some t' ∧
    is_type (type t) INSERTION = true ∧ blockForBatchSplitter t = blockForBatchSplitter t0 ∧
    firstBatchElement t = part_start i (firstBatchElement t0) ∧ requiredWidth t = requiredWidth t0 ∧
    (i + 1 < n → blockForBatchSplitter t ≠ blockForBatchSplitter t');
  it_sentinel : sentinel s batch n ts;
  it_end : ∃ t, at_ ts n = Some t ∧ requiredWidth t = 0;
}.

(** Each of them fits into its range. *)
Definition tasks_fit (n : Z) ts : Prop := ∀ i t t', 0 ≤ i < n → at_ ts i = Some t → at_ ts (i + 1) = Some t' →
  requiredWidth t ≤ blockForBatchSplitter t' - blockForBatchSplitter t.

Lemma unmerged_separate s batch (n : Z) ts0 ts tn :
  1 ≤ n → (∀ i, 0 ≤ i < n → ∃ t, at_ ts0 i = Some t ∧ found s batch (zlen batch ÷ n) n i t) →
  sentinel s batch n ts0 → unmerged ts0 ts n → at_ ts n = Some tn →
  separate_tasks s batch n (zupd ts n (set_requiredWidth tn 0)).
Proof.
  intros Hn Hfound (tn1&tn0&Htn&Htn0&Hbn&Hfn&Htyn) Hum Htn'. pose proof (at_Some_bound _ _ _ Htn').
  rewrite (um_rest _ _ _ Hum) in Htn' by lia. rewrite Htn in Htn'. injection Htn' as ->.
  assert (∀ i, 0 ≤ i < n → ∃ t0 t, at_ ts0 i = Some t0 ∧ found s batch (zlen batch ÷ n) n i t0 ∧ at_ ts i = Some t ∧
    is_type (type t) INSERTION = true ∧ blockForBatchSplitter t = blockForBatchSplitter t0 ∧
    firstBatchElement t = part_start i (firstBatchElement t0) ∧ requiredWidth t = requiredWidth t0) as Htask.
  { intros i Hi. destruct (Hfound i Hi) as (t0&Ht0&Hf). unfold part_start. destruct (Z.eqb_spec i 0) as [->|].
    - destruct (um_zero _ _ _ Hum) as (z&Hz&Hz0). rewrite Ht0 in Hz. injection Hz as <-. eexists t0, _. by split_and!.
    - destruct (um_other _ _ _ Hum i ltac:(lia)) as (z&Hz&Hz0). rewrite Ht0 in Hz. injection Hz as <-.
      eexists t0, _. by split_and!. }
  split.
  - intros i Hi. destruct (Htask i Hi) as (t0&t&Ht0&Hf&Ht&Hty&Hb&Hfi&Hw). rewrite (at_zupd_ne _ n i) by lia.
    destruct (decide (i + 1 = n)) as [Heq|].
    + rewrite Heq. rewrite at_zupd_eq by done. exists t0, t, (set_requiredWidth tn 0). split_and!; try done. lia.
    + destruct (Htask (i + 1) ltac:(lia)) as (t0'&t'&Ht0'&_&Ht'&_&Hb'&_). rewrite at_zupd_ne by lia.
      exists t0, t, t'. split_and!; try done. intros _. rewrite Hb, Hb'.
      intros Heq. apply (um_blocks _ _ _ Hum (i + 1) t0' t0); [lia|done| |done]. by replace (i + 1 - 1) with i by lia.
  - eexists _, tn0. rewrite at_zupd_eq by done. by split_and!.
  - eexists. by rewrite at_zupd_eq.
Qed.

Lemma prepare_in_place s batch (n : Z) :
  1 ≤ n → wlp (prepare s batch (zlen batch) n) (λ '(s', _, in_place), in_place = true →
    ∃ ts, s' = set_tasks s ts ∧ separate_tasks s batch n ts ∧ tasks_fit n ts).
Proof.
  intros Hn. unfold prepare. apply wlp_bind. eapply wlp_mono; [apply findTasks_found; lia|].
  intros s1 (ts0&->&Hfound&Hsent). apply wlp_bind. eapply wlp_mono; [by apply mergeTasks_ok|].
  intros [s1 h] (ts&->&Hcase). apply wlp_bind. intros s2 Hs2. apply wlp_bind. intros b Hb.
  apply fitInPlace_true in Hb; [|lia]. apply wlp_bind. intros s3 Hs3. apply wlp_bind. intros [] _. apply wlp_ok.
  intros ->. specialize (Hb eq_refl). destruct Hcase as [(i&t&Hi&Ht&Hinv)|Hum].
  { exfalso. apply distribute_types in Hs2; [|done]. destruct (Hs2 i t Ht) as (t'&Ht'&Hty).
    destruct (Hb i) as (t2&?&Ht2&_&Hno&_); [lia|]. rewrite Ht' in Ht2. injection Ht2 as ->. congruence. }
  rewrite (distribute_unmerged _ _ _ _ _ _ Hum) in Hs2. injection Hs2 as <-. cbn [tasks set_tasks] in Hb.
  revert s3 Hs3. match goal with |- ∀ x, write_task ?y ?i ?f = Ok x → @?Q x => change (wlp (write_task y i f) Q) end.
  apply wlp_write_task. cbn [tasks set_tasks]. intros tn Htn. pose proof (at_Some_bound _ _ _ Htn).
  eexists. split; [done|]. split; [by eapply unmerged_separate|].
  intros i t t' Hi Ht Ht'. destruct (Hb i Hi) as (u&u'&Hu&Hu'&_&Hw). rewrite at_zupd_ne in Ht by lia.
  rewrite Ht in Hu. injection Hu as <-. destruct (decide (i + 1 = n)) as [Heq|].
  - rewrite Heq in *. rewrite at_zupd_eq in Ht' by done. injection Ht' as <-. rewrite Htn in Hu'. by injection Hu' as <-.
  - rewrite at_zupd_ne in Ht' by lia. rewrite Ht' in Hu'. by injection Hu' as <-.
Qed.

(** The width that the distribution computes has room for the blocks of the task. *)
Lemma width_room (x y width d q : Z) :
  maxRedistributionWidth x y = Ok width → 0 ≤ x + y → d ≤ x + y + 1 → q * MinSize ≤ d → q ≤ width.
Proof.
  intros Hw Hxy Hd Hq. pose proof MinSize_two. unfold maxRedistributionWidth in Hw.
  destruct (AssertMsg _); [|done]. cbn [mbind result_bind] in Hw. injection Hw as <-.
  destruct (Z.eqb_spec (x + y) 0); [nia|]. rewrite Z.quot_div_nonneg by lia.
  assert (0 < MinSize) as Hpos by lia. pose proof (Z.mul_succ_div_gt (x + y) MinSize Hpos). nia.
Qed.

(** ** The ranges of the tasks

    The tasks cut the used cells and the batch into pieces. *)

Section pieces.
Variables (s : Sds) (xs : list (list ValueType * list ValueType)) (a : list PmaEntry) (k : nat).
Variables (batch : list ValueType) (n : Z).
Hypothesis (valid : valid_array s xs) (some : xs ≠ []).
Hypothesis (cells : pma s = a ++ nulls (S k)) (used : zlen a = size s) (a_ok : Forall cell_ok a) (blocks : blocks_of a = xs).
Hypothesis (good_batch : insertable batch) (n_one : 1 ≤ n) (n_batch : n ≤ zlen batch).

Definition splitter_index (i : Z) : Z := i * (zlen batch ÷ n).

Lemma splitter_index_bound i : 0 ≤ i < n → 0 ≤ splitter_index i < zlen batch.
Proof.
  intros Hi. unfold splitter_index. rewrite Z.quot_div_nonneg by lia.
  assert (1 ≤ zlen batch / n) by (apply Z.div_le_lower_bound; lia).
  pose proof (Z.mul_div_le (zlen batch) n ltac:(lia)). nia.
Qed.

Lemma splitter_index_lt i : 0 ≤ i → i + 1 < n → splitter_index i < splitter_index (i + 1).
Proof.
  intros Hi Hn. unfold splitter_index. rewrite Z.quot_div_nonneg by lia.
  assert (1 ≤ zlen batch / n) by (apply Z.div_le_lower_bound; lia). nia.
Qed.

(** The start of a task. *)
Lemma start_exists i :
  0 ≤ i < n → ∃ v block first a1 e a2, at_ batch (splitter_index i) = Some v ∧
    splitterBlock s batch (zlen batch ÷ n) i = Ok block ∧ splitterElement s batch (zlen batch ÷ n) i block = Ok first ∧
    first ≤ splitter_index i + 1 ∧ 0 ≤ first ∧ a = a1 ++ e :: a2 ∧
    starts_at a1 e a2 batch (keyOfValue v) block first ∧
    starts_at a1 e a2 batch (keyOfValue v) block (part_start i first).
Proof.
  intros Hi. destruct (at_in_bound batch (splitter_index i)) as [v Hv]; [by apply splitter_index_bound|].
  destruct (splitter_ok s xs a (nulls (S k)) batch (zlen batch ÷ n) i v)
    as (block&first&a1&e&a2&Hrest); try done; [apply good_batch|]. by exists v, block, first, a1, e, a2.
Qed.

Lemma found_start i t0 :
  0 ≤ i < n → found s batch (zlen batch ÷ n) n i t0 →
  firstBatchElement t0 ≤ splitter_index i + 1 ∧ 0 ≤ firstBatchElement t0 ∧ ∃ v, at_ batch (splitter_index i) = Some v ∧
    ∃ a1 e a2, a = a1 ++ e :: a2 ∧
      starts_at a1 e a2 batch (keyOfValue v) (blockForBatchSplitter t0) (part_start i (firstBatchElement t0)).
Proof.
  intros Hi Hf. destruct (start_exists i Hi) as (v&block&first&a1&e&a2&Hv&Hb&He&H1&H2&Ha&_&Hst).
  rewrite (fo_block _ _ _ _ _ _ Hf) in Hb. injection Hb as <-. rewrite (fo_first _ _ _ _ _ _ Hf) in He. injection He as <-.
  split_and!; [done|done|]. exists v. split; [done|]. by exists a1, e, a2.
Qed.

(** The range of a task and its part of the batch: both between those of the other tasks. *)
Record piece t t' a1 e m a3 : Prop := {
  pc_cells : a = a1 ++ (e :: m) ++ a3;
  pc_left : zlen a1 = blockForBatchSplitter t;
  pc_right : zlen a1 + zlen (e :: m) = blockForBatchSplitter t';
  pc_block : block_ok e;
  pc_first : 0 ≤ firstBatchElement t ≤ firstBatchElement t' ∧ firstBatchElement t' ≤ zlen batch;
  pc_below : ∀ key, key ∈ keys (drop (Z.to_nat (firstBatchElement t)) batch) → below (elements (blocks_of a1)) key;
  pc_front : ∀ key, key ∈ keys (take (Z.to_nat (firstBatchElement t)) batch) → above key (elements (blocks_of (e :: m ++ a3)));
  pc_above : ∀ key, key ∈ keys (take (Z.to_nat (firstBatchElement t')) batch) → above key (elements (blocks_of a3));
  pc_room : ∀ q, q * MinSize ≤ zlen (elements (blocks_of (e :: m))) + (firstBatchElement t' - firstBatchElement t) →
    q ≤ requiredWidth t;
  pc_width : 0 ≤ requiredWidth t ≤ zlen (elements (blocks_of a)) + zlen batch + 1;
}.

(** A block in the array is larger than the keys below its head. *)
Lemma above_block a1 e a2 key : a = a1 ++ e :: a2 → block_ok e → key < PmaEntry.head e → above key (elements (blocks_of (e :: a2))).
Proof.
  intros Ha He Hk. pose proof (va_sorted _ _ valid) as Hs. rewrite <-blocks, Ha, blocks_of_app, elements_app in Hs.
  apply sorted_app in Hs as (_&Hs&_). destruct (head_first e a2 He) as (x&l&Hx&Hh). rewrite Hx, Hh in *.
  apply sorted_cons in Hs as [Hx' _]. apply above_cons. split; [done|]. eapply above_weaken; [exact Hx'|lia].
Qed.

(** The splitters of consecutive tasks are in order. *)
Lemma starts_order a1 e a2 a1' e' a2' key key' block block' first first' :
  a = a1 ++ e :: a2 → a = a1' ++ e' :: a2' → key < key' → block ≠ block' →
  starts_at a1 e a2 batch key block first → starts_at a1' e' a2' batch key' block' first' →
  ∃ m, a1' = a1 ++ e :: m ∧ first ≤ first'.
Proof.
  intros Ha Ha' Hkey Hne [Hi He Hf _ Hfront Hleast _] [Hi' He' Hf' Hpart' _ _ Hbehind'].
  destruct (Z.lt_trichotomy (zlen a1) (zlen a1')) as [Hlt|[?|Hlt]]; [|congruence|].
  - destruct (split_at a1' (zlen a1)) as (p&q&->&Hp); [pose proof (zlen_nonneg a1); lia|].
    rewrite Ha, <-app_assoc in Ha'. apply app_inj_1 in Ha' as [-> Hq]; [|unfold zlen in *; lia].
    destruct q as [|x m]; [rewrite app_nil_r in Hlt; lia|]. injection Hq as <- Hq. exists m. split; [done|].
    destruct (decide (first ≤ first')) as [|Hgt]; [done|]. exfalso.
    destruct (at_in_bound batch first') as [v Hv]; [lia|]. apply at_lookup in Hv as [_ Hv].
    assert (keyOfValue v < PmaEntry.head e) as H1.
    { apply Hfront. apply elem_of_keys. exists v. split; [|done]. apply list_elem_of_lookup. exists (Z.to_nat first').
      apply lookup_take_Some. split; [done|lia]. }
    assert (below (elements (blocks_of (p ++ e :: m))) (keyOfValue v)) as H2.
    { apply Hpart'. apply elem_of_keys. exists v. split; [|done]. apply list_elem_of_lookup. exists 0%nat.
      by rewrite lookup_drop, Nat.add_0_r. }
    rewrite blocks_of_app, elements_app in H2. apply below_app in H2 as [_ H2].
    destruct (head_first e m He) as (x&l&Hx&Hh). rewrite Hx in H2. apply below_cons in H2 as [H2 _]. lia.
  - destruct (split_at a1 (zlen a1')) as (p&q&->&Hp); [pose proof (zlen_nonneg a1'); lia|].
    rewrite Ha', <-app_assoc in Ha. apply app_inj_1 in Ha as [-> Hq]; [|unfold zlen in *; lia].
    destruct q as [|x m]; [rewrite app_nil_r in Hlt; lia|]. injection Hq as <- Hq. exfalso.
    assert (key' < PmaEntry.head e) as H1.
    { rewrite Hq in Hbehind'. by apply Forall_app in Hbehind' as [_ [H1 _]%Forall_cons]; apply H1. }
    destruct Hleast as [Hnil|Hle]; [|lia]. destruct He' as (y&l&rest&Hr&_).
    rewrite blocks_of_app, blocks_of_cons, (group_of_block _ _ _ Hr) in Hnil. by destruct (blocks_of p).
Qed.

Variable (ts : list TaskInfo).
Hypothesis (good_tasks : separate_tasks s batch n ts).

(** The cells and the batch elements up to the next task, or to the end. *)
Lemma next_start i t0 t t' a1 e a2 v :
  0 ≤ i < n → found s batch (zlen batch ÷ n) n i t0 → at_ ts i = Some t → at_ ts (i + 1) = Some t' →
  blockForBatchSplitter t = blockForBatchSplitter t0 →
  (i + 1 < n → blockForBatchSplitter t ≠ blockForBatchSplitter t') →
  at_ batch (splitter_index i) = Some v → a = a1 ++ e :: a2 →
  starts_at a1 e a2 batch (keyOfValue v) (blockForBatchSplitter t0) (part_start i (firstBatchElement t0)) →
  ∃ m a3 x, e :: a2 = (e :: m) ++ a3 ∧ zlen a1 + zlen (e :: m) = blockForBatchSplitter t' ∧
    part_start i (firstBatchElement t0) ≤ firstBatchElement t' ≤ zlen batch ∧
    (∀ key, key ∈ keys (take (Z.to_nat (firstBatchElement t')) batch) → above key (elements (blocks_of a3))) ∧
    (i + 1 = n → a3 = [] ∧ firstBatchElement t' = zlen batch) ∧
    getNumberOfElements s (blockForBatchSplitter t0) (blockForBatchSplitter t') = Ok x ∧
    maxRedistributionWidth x (firstBatchElement t' - firstBatchElement t0) = Ok (requiredWidth t0).
Proof.
  intros Hi Hf Ht Ht' Hbl Hdiff Hv Ha Hst. destruct (fo_next _ _ _ _ _ _ Hf) as (nb&nf&x&Hnext&Hx&Hw).
  pose proof (sa_index _ _ _ _ _ _ _ Hst) as Ha1. pose proof (sa_first _ _ _ _ _ _ _ Hst) as Hfirst.
  destruct (Z.eqb_spec i (n - 1)) as [->|Hin].
  - (* the sentinel *)
    replace (n - 1 + 1) with n in * by lia. destruct Hnext as [-> ->].
    destruct (it_sentinel _ _ _ _ good_tasks) as (tn&tn0&Htn&_&Hbn&Hfn&_). rewrite Ht' in Htn. injection Htn as <-.
    rewrite Hbn, Hfn. exists a2, [], x. rewrite app_nil_r. split_and!; try done; [|lia|intros; constructor].
    rewrite <-used, Ha. zlen.
  - destruct (it_task _ _ _ _ good_tasks (i + 1)) as (t0'&t1&_&Hf'&Ht1&_&_&Hbl'&Hfi'&_); [lia|].
    rewrite Ht' in Ht1. injection Ht1 as <-. unfold part_start in Hfi'. destruct (Z.eqb_spec (i + 1) 0); [lia|].
    destruct Hnext as [Hnb Hnf]. rewrite (fo_block _ _ _ _ _ _ Hf') in Hnb. injection Hnb as <-.
    rewrite (fo_first _ _ _ _ _ _ Hf') in Hnf. injection Hnf as <-.
    destruct (found_start (i + 1) t0' ltac:(lia) Hf') as (_&_&v'&Hv'&a1'&e'&a2'&Ha'&Hst').
    unfold part_start at 1 in Hst'. destruct (Z.eqb_spec (i + 1) 0); [lia|].
    assert (keyOfValue v < keyOfValue v') as Hkey.
    { eapply (sorted_at_lt batch); [apply good_batch|exact Hv|exact Hv'|]. apply splitter_index_lt; lia. }
    assert (blockForBatchSplitter t0 ≠ blockForBatchSplitter t0') as Hne by (rewrite <-Hbl, <-Hbl'; apply Hdiff; lia).
    destruct (starts_order _ _ _ _ _ _ _ _ _ _ _ _ Ha Ha' Hkey Hne Hst Hst')
      as (m&->&Hle).
    pose proof Hst' as [Ha1' He' Hf1' _ Hfront' _ _]. rewrite Hbl', Hfi'.
    exists m, (e' :: a2'), x. split_and!; try done; try lia.
    + rewrite Ha, <-app_assoc in Ha'. by apply app_inv_head in Ha'.
    + rewrite <-Ha1'. zlen.
    + intros key Hk. eapply above_block; [exact Ha'|done|by apply Hfront'].
Qed.

Lemma pieces i :
  0 ≤ i < n → ∃ t t' a1 e m a3, at_ ts i = Some t ∧ at_ ts (i + 1) = Some t' ∧ is_type (type t) INSERTION = true ∧
    piece t t' a1 e m a3 ∧ (i = 0 → firstBatchElement t = 0) ∧ (i + 1 = n → a3 = [] ∧ firstBatchElement t' = zlen batch).
Proof.
  intros Hi. destruct (it_task _ _ _ _ good_tasks i Hi) as (t0&t&t'&Hf&Ht&Ht'&Hty&Hbl&Hfi&Hreq&Hdiff).
  destruct (found_start i t0 Hi Hf) as (Hf1&Hf0&v&Hv&a1&e&a2&Ha&Hst).
  destruct (next_start i t0 t t' a1 e a2 v Hi Hf Ht Ht' Hbl Hdiff Hv Ha Hst)
    as (m&a3&x&Hcells&Hright&Hle&Habove&Hend&Hx&Hw).
  pose proof Hst as [Ha1 He Hfirst Hpart Hfront _ _].
  pose proof a_ok as Hok. rewrite Ha, Hcells in Hok. apply Forall_app in Hok as [_ [Hok _]%Forall_app].
  assert (getNumberOfElements s (zlen a1) (zlen a1 + zlen (e :: m)) = Ok (zlen (elements (blocks_of (e :: m))))) as Hn.
  { apply (numberOfElements_range s xs a1 (e :: m) (a3 ++ nulls (S k)) valid); [|rewrite <-used, Ha, Hcells; zlen|done].
    rewrite cells, Ha, Hcells. by simplify_list_eq. }
  rewrite Hright, Ha1, Hx in Hn. injection Hn as ->.
  assert (2 ≤ zlen (elements (blocks_of (e :: m)))) as Htwo.
  { pose proof (va_good _ _ valid) as Hg. rewrite <-blocks, Ha, Hcells, !blocks_of_app in Hg.
    apply Forall_app in Hg as [_ [Hg _]%Forall_app]. destruct He as (y&l&rest&Hr&_).
    rewrite blocks_of_cons, (group_of_block _ _ _ Hr) in Hg |- *. apply Forall_app in Hg as [[Hg _]%Forall_singleton _].
    rewrite elements_app, elements_single, zlen_app. pose proof MinSize_two. pose proof (zlen_nonneg (elements (blocks_of m))).
    simpl in Hg. lia. }
  assert (zlen (elements (blocks_of (e :: m))) ≤ zlen (elements (blocks_of a))) as Hpart_of.
  { rewrite Ha, Hcells, !blocks_of_app, !elements_app, !zlen_app.
    pose proof (zlen_nonneg (elements (blocks_of a1))). pose proof (zlen_nonneg (elements (blocks_of a3))). lia. }
  assert (firstBatchElement t0 ≤ part_start i (firstBatchElement t0) + 1) as Hraw.
  { unfold part_start. destruct (Z.eqb_spec i 0) as [->|]; [unfold splitter_index in Hf1|]; lia. }
  exists t, t', a1, e, m, a3. split_and!; try done; cycle 1.
  { intros ->. by rewrite Hfi. }
  split; try done; rewrite ?Hfi, ?Hreq; try done; try lia.
  - by rewrite Ha, Hcells.
  - intros key Hk. simpl in Hcells. injection Hcells as <-. eapply above_block; [exact Ha|done|by apply Hfront].
  - intros q Hq. eapply width_room; [exact Hw|lia|reflexivity|lia].
  - apply width_bound in Hw; lia.
Qed.
Lemma second_task : ∃ t0 t1 ts', ts = t0 :: t1 :: ts' ∧ (NDEBUG = true ∨ is_type (type t1) INVERSE_MERGE = false).
Proof.
  destruct (it_sentinel _ _ _ _ good_tasks) as (tn&tn0&Htn&Htn0&_&_&Hty).
  assert (∃ t0 t1 ts', ts = t0 :: t1 :: ts') as (t0&t1&ts'&Hts).
  { apply at_Some_bound in Htn. destruct ts as [|t0 [|t1 ts']]; [unfold zlen in Htn; simpl in Htn; lia..|]. by exists t0, t1, ts'. }
  exists t0, t1, ts'. split; [done|]. assert (at_ ts 1 = Some t1) as H1 by (by rewrite Hts).
  destruct (decide (n = 1)) as [->|].
  - destruct (va_tasks _ _ valid) as (u0&u1&us&Hu&Hsent). rewrite H1 in Htn. injection Htn as <-.
    rewrite Hu in Htn0. change (at_ (u0 :: u1 :: us) 1) with (Some u1) in Htn0. injection Htn0 as <-. by rewrite Hty.
  - right. destruct (it_task _ _ _ _ good_tasks 1) as (?&t&?&_&Ht&_&Hins&_); [lia|].
    rewrite H1 in Ht. injection Ht as <-. by destruct (type t1).
Qed.

(** A part of the batch and what is around it. *)
Lemma batch_part (f f' : Z) : 0 ≤ f ≤ f' → f' ≤ zlen batch →
  ∃ pre es post, batch = pre ++ es ++ post ∧ zlen pre = f ∧ zlen (pre ++ es) = f' ∧
    take (Z.to_nat f) batch = pre ∧ take (Z.to_nat f') batch = pre ++ es ∧ drop (Z.to_nat f) batch = es ++ post.
Proof.
  clear n_one n_batch.
  intros Hf Hf'. exists (take (Z.to_nat f) batch), (take (Z.to_nat (f' - f)) (drop (Z.to_nat f) batch)), (drop (Z.to_nat f') batch).
  assert (take (Z.to_nat f') batch = take (Z.to_nat f) batch ++ take (Z.to_nat (f' - f)) (drop (Z.to_nat f) batch)) as Htake.
  { rewrite take_drop_commute. replace (Z.to_nat f + Z.to_nat (f' - f))%nat with (Z.to_nat f') by lia.
    rewrite <-(take_drop (Z.to_nat f) (take (Z.to_nat f') batch)) at 1. rewrite take_take. by rewrite Nat.min_l by lia. }
  assert (drop (Z.to_nat f) batch = take (Z.to_nat (f' - f)) (drop (Z.to_nat f) batch) ++ drop (Z.to_nat f') batch) as Hdrop.
  { rewrite <-(take_drop (Z.to_nat (f' - f)) (drop (Z.to_nat f) batch)) at 1. rewrite drop_drop. do 2 f_equal. lia. }
  split_and!; try done.
  - by rewrite app_assoc, <-Htake, take_drop.
  - unfold zlen in *. rewrite length_take. lia.
  - rewrite <-Htake. unfold zlen in *. rewrite length_take. lia.
Qed.

(** The batch, split at the part of a task. *)
Record batch_around t t' pre es post : Prop := {
  ba_batch : batch = pre ++ es ++ post;
  ba_left : zlen pre = firstBatchElement t;
  ba_right : zlen (pre ++ es) = firstBatchElement t';
  ba_take : take (Z.to_nat (firstBatchElement t)) batch = pre;
  ba_take' : take (Z.to_nat (firstBatchElement t')) batch = pre ++ es;
  ba_drop : drop (Z.to_nat (firstBatchElement t)) batch = es ++ post;
}.

Lemma piece_batch t t' a1 e m a3 : piece t t' a1 e m a3 → ∃ pre es post, batch_around t t' pre es post.
Proof.
  clear n_one n_batch.
  intros [_ _ _ _ [Hf1 Hf2] _ _ _ _]. destruct (batch_part _ _ Hf1 Hf2) as (pre&es&post&?&?&?&?&?&?).
  by exists pre, es, post.
Qed.

(** The part of the batch lies between what is in front of the range and behind it. *)
Lemma piece_between t t' a1 e m a3 pre es post key :
  piece t t' a1 e m a3 → batch_around t t' pre es post → key ∈ keys es →
  below (smerge (elements (blocks_of a1)) pre) key ∧ above key (elements (blocks_of a3)).
Proof.
  intros Hpc [Hb _ _ Htake Htake' Hdrop] Hk. split.
  - apply below_keys. intros k' [Hk'|Hk']%keys_smerge.
    + pose proof (pc_below _ _ _ _ _ _ Hpc key) as Hbelow. rewrite Hdrop, keys_app, elem_of_app, below_keys in Hbelow.
      apply Hbelow; [by left|done].
    + pose proof (in_sorted _ good_batch) as Hs. rewrite Hb in Hs. apply sorted_app in Hs as (_&_&Hlt).
      apply elem_of_keys in Hk as (x&Hx&<-). apply elem_of_keys in Hk' as (y&Hy&<-).
      apply Hlt; [done|]. apply elem_of_app. by left.
  - apply (pc_above _ _ _ _ _ _ Hpc). rewrite Htake', keys_app, elem_of_app. by right.
Qed.

(** So the pieces are merged one by one. *)
Lemma piece_merge t t' a1 e m a3 pre es post :
  piece t t' a1 e m a3 → batch_around t t' pre es post →
  smerge (elements (blocks_of (a1 ++ e :: m))) (pre ++ es) =
  smerge (elements (blocks_of a1)) pre ++ smerge (elements (blocks_of (e :: m))) es.
Proof.
  intros Hpc Hba. rewrite blocks_of_app, elements_app. apply smerge_parts.
  - intros key Hk. pose proof (pc_front _ _ _ _ _ _ Hpc key) as Hf. rewrite (ba_take _ _ _ _ _ Hba) in Hf.
    specialize (Hf Hk). change (e :: m ++ a3) with ((e :: m) ++ a3) in Hf.
    rewrite blocks_of_app, elements_app in Hf. by apply above_app in Hf as [? _].
  - intros key Hk. by apply (piece_between _ _ _ _ _ _ _ _ _ _ Hpc Hba).
Qed.
End pieces.

End threads.
