(* ===== verification/GbpmaInPlaceBatch.v ===== *)
(** * Inserting a batch in place, with several threads

    When every task fits into its range, the tasks work in place, each on its own range.
    Run one after the other, they merge the whole batch into the array; neither the size
    of the array nor the second array changes. *)

From S2P Require Export GbpmaThreads.
Import BlockSeq OverallocatedBatchedSparseArray OverallocatedInsertion OverallocatedDistribution.
Import PmaEntry(PmaEntry).
Import HierarchicalBlockSizeManager(AggregateWidth).

Section in_place.
Context `{T : SdsTypes} `{C : BlockConfig} `{O : OverallocationConfig}.
Context `{BC : !BlockConfigOk} `{HB : !HalfBlocks} `{FM : !FasterMergeOk}.
Implicit Types (s : Sds) (e z : PmaEntry) (u w a m : list PmaEntry) (v : ValueType).
Implicit Types (batch l es pre post : list ValueType).
Implicit Types (ts : list TaskInfo) (t : TaskInfo).

Section tasks.
Variables (s : Sds) (xs : list (list ValueType * list ValueType)) (a : list PmaEntry) (k : nat).
Variables (batch : list ValueType) (n : Z) (ts : list TaskInfo).
Hypothesis (valid : valid_array s xs) (some : xs ≠ []).
Hypothesis (cells : pma s = a ++ nulls (S k)) (used : zlen a = size s) (a_ok : Forall cell_ok a) (blocks : blocks_of a = xs).
Hypothesis (good_batch : insertable batch) (n_one : 1 ≤ n) (n_batch : n ≤ zlen batch).
Hypothesis (good_tasks : separate_tasks s batch n ts) (tasks_room : tasks_fit n ts).

#[local] Abbreviation task_piece := (piece a batch).
#[local] Abbreviation around := (batch_around batch).

(** ** The tasks, one after the other *)

(** The cells [ud] have the elements of [a1] and the batch in front of the task [t]; the
    cells [ar] behind them have not changed. *)
Record reached t ud a1 ar s' : Prop := {
  re_cells : a = a1 ++ ar;
  re_index : zlen a1 = blockForBatchSplitter t;
  re_follows : follows (set_tasks s ts) s' (ud ++ ar ++ nulls (S k));
  re_length : zlen ud = zlen a1;
  re_ok : Forall cell_ok ud;
  re_elements : elements (blocks_of ud) =
    smerge (elements (blocks_of a1)) (take (Z.to_nat (firstBatchElement t)) batch);
  re_good : Forall (λ x, good_size x.1) (blocks_of (ud ++ ar));
  re_stales : stales [keyOfValue zeroValue] (blocks_of (ud ++ ar));
}.

Definition done_until (i : Z) s' : Prop := ∃ t ud a1 ar, at_ ts i = Some t ∧ reached t ud a1 ar s'.

(** The part of the task lies between what is in front of its range and behind it. *)
Lemma part_between t t' ud a1 e m a3 pre es post s' :
  reached t ud a1 ((e :: m) ++ a3) s' → task_piece t t' a1 e m a3 → around t t' pre es post →
  ∀ key, key ∈ keys es → below (elements (blocks_of ud)) key ∧ above key (elements (blocks_of a3)).
Proof.
  intros Hre Hpc Hba key Hk. rewrite (re_elements _ _ _ _ _ Hre), (ba_take _ _ _ _ _ _ Hba).
  by apply (piece_between a batch good_batch _ _ _ _ _ _ _ _ _ _ Hpc Hba).
Qed.

(** The batch in front of the part changes nothing in the range and behind it. *)
Lemma whole_elements t t' ud a1 e m a3 pre es post s' :
  reached t ud a1 ((e :: m) ++ a3) s' → task_piece t t' a1 e m a3 → around t t' pre es post →
  elements (blocks_of (ud ++ (e :: m) ++ a3)) = smerge (elements xs) pre.
Proof.
  intros Hre Hpc Hba. rewrite blocks_of_app, elements_app, (re_elements _ _ _ _ _ Hre), (ba_take _ _ _ _ _ _ Hba).
  rewrite <-blocks, (re_cells _ _ _ _ _ Hre), (blocks_of_app a1), elements_app. symmetry. apply smerge_app_l.
  intros key Hk. apply (pc_front _ _ _ _ _ _ _ _ Hpc). by rewrite (ba_take _ _ _ _ _ _ Hba).
Qed.

(** What a task makes of its range. *)
Record range_done m m' es ks : Prop := {
  rg_length : zlen m' = zlen m;
  rg_ok : Forall cell_ok m';
  rg_elements : elements (blocks_of m') = smerge (elements (blocks_of m)) es;
  rg_good : Forall (λ x, good_size x.1) (blocks_of m');
  rg_stales : stales ks (blocks_of m');
}.

Lemma part_inserted t t' ud a1 e m a3 pre es post s' :
  reached t ud a1 ((e :: m) ++ a3) s' → task_piece t t' a1 e m a3 → around t t' pre es post → es ≠ [] →
  Forall cell_ok (e :: m) → Forall cell_ok a3 → requiredWidth t ≤ zlen (e :: m) →
  ∃ s'' m', insertBatchRange s' batch (mkInterval (zlen pre) (zlen pre + zlen es)) (mkInterval (zlen ud) (zlen ud + zlen (e :: m))) = Ok s'' ∧
    follows s' s'' (ud ++ m' ++ a3 ++ nulls (S k)) ∧
    range_done (e :: m) m' es (keys (elements (blocks_of a3)) ++ [keyOfValue zeroValue]).
Proof.
  intros Hre Hpc Hba Hne Hemok Ha3ok Hroom. pose proof (part_between _ _ _ _ _ _ _ _ _ _ _ Hre Hpc Hba) as Hbetween.
  pose proof (whole_elements _ _ _ _ _ _ _ _ _ _ _ Hre Hpc Hba) as Hwhole. destruct good_batch as [Hbs Hbn Hbz].
  pose proof Hbs as Hbs'. rewrite (ba_batch _ _ _ _ _ _ Hba) in Hbs', Hbn, Hbz |- *.
  rewrite !keys_app, !elem_of_app in Hbn, Hbz.
  apply sorted_app in Hbs' as (_&Hses&_). apply sorted_app in Hses as (Hses&_&_).
  destruct Hre as [Hcells Hleft Hf Hlen Hud _ Hg Hst]. rewrite !blocks_of_app in Hg, Hst.
  apply Forall_app in Hg as [_ [Hg _]%Forall_app]. apply stales_app in Hst as [_ [Hst _]%stales_app].
  pose proof (follows_pma _ _ _ Hf) as Hp. pose proof Hf as (mm&Hs'&Hv'&_).
  assert (size s' = size s) as Hsize by (by rewrite Hs').
  destruct (insertBatchRange_in_place s' ud (e :: m) a3 (nulls k) pre es post (keys (elements (blocks_of a3)) ++ [keyOfValue zeroValue]))
    as (s''&m'&Hins&[Hf2 Hl2 Hc2 He2 Hg2 Hst2]); try done.
  - by rewrite Hp, <-app_assoc.
  - rewrite Hsize, <-used, Hcells. zlen.
  - rewrite (follows_managed _ _ _ Hf), Hsize. pose proof (va_managed _ _ valid) as Hmg.
    pose proof (va_manager _ _ valid) as [(HW0&_&_) _]. unfold managed. simpl. rewrite Hmg.
    pose proof (Z.mul_succ_div_gt (size s) (AggregateWidth (sizeManager s)) HW0). lia.
  - rewrite Hwhole. by apply sorted_smerge, valid.
  - rewrite Hwhole, keys_smerge. pose proof (va_null _ _ valid). tauto.
  - apply elem_of_app. right. by left.
  - intros key Hk [Hin| ->%list_elem_of_singleton]%elem_of_app; [|tauto].
    by apply (above_not_in _ _ (proj2 (Hbetween key Hk))).
  - tauto.
  - intros q Hq. etrans; [|exact Hroom]. apply (pc_room _ _ _ _ _ _ _ _ Hpc). rewrite <-(ba_left _ _ _ _ _ _ Hba), <-(ba_right _ _ _ _ _ _ Hba). zlen.
  - exists e, m. split; [done|apply Hpc].
  - exists s'', m'. split; [exact Hins|]. split; [exact Hf2|]. by split.
Qed.

(** Behind the task. *)
Lemma reached_next t t' ud a1 e m a3 pre es post s' s'' m' :
  reached t ud a1 ((e :: m) ++ a3) s' → task_piece t t' a1 e m a3 → around t t' pre es post →
  follows s' s'' (ud ++ m' ++ a3 ++ nulls (S k)) →
  range_done (e :: m) m' es (keys (elements (blocks_of a3)) ++ [keyOfValue zeroValue]) →
  reached t' (ud ++ m') (a1 ++ e :: m) a3 s''.
Proof.
  intros Hre Hpc Hba Hf'' [Hlen' Hok' Hel' Hg' Hst'].
  pose proof (part_between _ _ _ _ _ _ _ _ _ _ _ Hre Hpc Hba) as Hbetween.
  pose proof (pc_front _ _ _ _ _ _ _ _ Hpc) as Hfront. rewrite (ba_take _ _ _ _ _ _ Hba) in Hfront.
  pose proof (re_elements _ _ _ _ _ Hre) as Hel. rewrite (ba_take _ _ _ _ _ _ Hba) in Hel.
  destruct Hre as [Hcells Hleft Hf Hlen Hud _ Hg Hst]. split.
  - rewrite Hcells. by simplify_list_eq.
  - rewrite <-(pc_right _ _ _ _ _ _ _ _ Hpc). zlen.
  - rewrite <-app_assoc. exact (follows_trans _ _ _ _ _ Hf Hf'').
  - zlen.
  - by apply Forall_app.
  - by rewrite (ba_take' _ _ _ _ _ _ Hba), blocks_of_app, elements_app, Hel, Hel', <-(piece_merge a batch good_batch _ _ _ _ _ _ _ _ _ Hpc Hba).
  - rewrite !blocks_of_app in Hg |- *. apply Forall_app in Hg as [Hg1 [_ Hg3]%Forall_app]. by rewrite !Forall_app.
  - rewrite !blocks_of_app in Hst |- *. apply stales_app in Hst as [Hst1 [_ Hst3]%stales_app]. rewrite <-app_assoc.
    apply stales_app. split; [|by apply stales_app]. eapply stales_mono; [exact Hst1|]. intros key.
    rewrite !elements_app, Hel', !keys_app, !elem_of_app, keys_smerge. tauto.
Qed.

Lemma startTaskInPlace_ok i s' :
  0 ≤ i < n → done_until i s' → ∃ s'', startTaskInPlace batch i s' = Ok s'' ∧ done_until (i + 1) s''.
Proof.
  intros Hi (t&ud&a1&ar&Ht&Hre). pose proof Hre as [Hcells Hleft Hf Hlen Hud Hel Hg Hst].
  destruct (pieces s xs a k batch n valid some cells used a_ok blocks good_batch n_one n_batch ts good_tasks i Hi) as (t2&t'&b1&e&m&a3&Ht2&Ht'&Hty&Hpc&_&_). rewrite Ht in Ht2. injection Ht2 as <-.
  assert (a1 = b1 ∧ ar = (e :: m) ++ a3) as [<- ->].
  { pose proof (pc_cells _ _ _ _ _ _ _ _ Hpc) as Hc. pose proof (pc_left _ _ _ _ _ _ _ _ Hpc). rewrite Hcells in Hc.
    apply app_inj_1 in Hc; [done|]. unfold zlen in *. lia. }
  destruct (piece_batch a batch _ _ _ _ _ _ Hpc) as (pre&es&post&Hba).
  assert (Forall cell_ok (e :: m) ∧ Forall cell_ok a3) as [Hemok Ha3ok].
  { rewrite Hcells in a_ok. by apply Forall_app in a_ok as [_ [? ?]%Forall_app]. }
  unfold startTaskInPlace. assert (tasks s' = ts) as -> by (by destruct Hf as (mm&->&_)).
  rewrite (zget_at _ _ _ Ht), (zget_at _ _ _ Ht'). cbn [mbind result_bind].
  rewrite (assert_ok (is_type _ _)) by done. cbn [mbind result_bind]. unfold Interval.length. cbn [Interval.left Interval.right].
  rewrite <-(ba_left _ _ _ _ _ _ Hba), <-(ba_right _ _ _ _ _ _ Hba), <-(pc_right _ _ _ _ _ _ _ _ Hpc), <-Hleft, <-Hlen, zlen_app.
  destruct (decide (es = [])) as [->|Hne].
  - change (zlen []) with 0. replace (zlen pre + 0 - zlen pre) with 0 by lia. rewrite Z.eqb_refl.
    exists s'. split; [done|]. exists t', (ud ++ e :: m), (a1 ++ e :: m), a3. split; [done|].
    eapply reached_next; [exact Hre|exact Hpc|exact Hba| |].
    + pose proof Hf as (mm&Hs'&Hv'&_). pose proof (follows_refl s' Hv') as Hr.
      rewrite (follows_pma _ _ _ Hf), <-app_assoc in Hr. exact Hr.
    + rewrite !blocks_of_app in Hg, Hst. apply Forall_app in Hg as [_ [Hg _]%Forall_app].
      apply stales_app in Hst as [_ [Hst _]%stales_app]. by split.
  - destruct (Z.eqb_spec (zlen pre + zlen es - zlen pre) 0); [destruct es as [|? es]; [done|]; pose proof (zlen_nonneg es); zlen|].
    assert (requiredWidth t ≤ zlen (e :: m)) as Hroom.
    { pose proof (tasks_room i t t' Hi Ht Ht'). rewrite <-(pc_left _ _ _ _ _ _ _ _ Hpc), <-(pc_right _ _ _ _ _ _ _ _ Hpc) in *. lia. }
    destruct (part_inserted _ _ _ _ _ _ _ _ _ _ _ Hre Hpc Hba Hne Hemok Ha3ok Hroom) as (s''&m'&Hins&Hf''&Hrg).
    exists s''. split; [exact Hins|]. exists t', (ud ++ m'), (a1 ++ e :: m), a3. split; [done|].
    by eapply reached_next.
Qed.

Lemma done_start : done_until 0 (set_tasks s ts).
Proof.
  destruct (pieces s xs a k batch n valid some cells used a_ok blocks good_batch n_one n_batch ts good_tasks 0 ltac:(lia)) as (t&t'&a1&e&m&a3&Ht&_&_&[Hcells Hleft _ _ _ _ _ _ _]&H0&_).
  exists t, a1, a1, ((e :: m) ++ a3). split; [done|]. pose proof a_ok as Hok. rewrite Hcells in Hok.
  apply Forall_app in Hok as [Ha1 _]. split; [done|done| |done|done|by rewrite H0| | ].
  - pose proof (follows_refl (set_tasks s ts) (va_manager _ _ valid)) as Hf.
    change (pma (set_tasks s ts)) with (pma s) in Hf. rewrite cells, Hcells, <-app_assoc in Hf. exact Hf.
  - rewrite <-Hcells, blocks. apply valid.
  - rewrite <-Hcells, blocks. apply valid.
Qed.

Lemma insertInPlace_ok :
  ∃ s' xs', insertInPlace (set_tasks s ts) batch n = Ok s' ∧ valid_array s' xs' ∧ elements xs' = smerge (elements xs) batch ∧
    size s' = size s ∧ capacity s' = capacity s ∧ swapPma s' = swapPma s ∧ tasks s' = ts.
Proof.
  cut (wp (for_range 0 n (startTaskInPlace batch) (set_tasks s ts)) (done_until n)).
  - intros (s'&Hloop&t&ud&a1&ar&Ht&[Ha Ha1 (mm&->&Hv'&[HW HS]) Hlen Hud Hel Hg Hst])%wp_returns.
    destruct (it_sentinel _ _ _ _ good_tasks) as (tn&_&Htn&_&Hbn&Hfn&_). rewrite Ht in Htn. injection Htn as <-.
    assert (ar = []) as ->.
    { rewrite Hbn, <-used, Ha, zlen_app in Ha1. destruct ar as [|? ar]; [done|]. pose proof (zlen_nonneg ar). zlen. }
    rewrite app_nil_r in Ha, Hg, Hst. subst a1. rewrite Hfn in Hel. unfold zlen in Hel. rewrite Nat2Z.id, firstn_all in Hel.
    rewrite blocks in Hel. set (s' := set_sizeManager _ mm) in *.
    exists s', (blocks_of ud). unfold insertInPlace. rewrite Hloop. cbn [mbind result_bind].
    rewrite (manager_validate_ok _ _ _ Hv'). split; [by destruct NDEBUG|]. split; [|by split_and!].
    destruct good_batch as [Hbs Hbn' Hbz]. split; try done.
    + exists ud, k. split_and!; [done|simpl; lia|done|done].
    + pose proof (va_capacity _ _ valid) as Hcap. rewrite cells in Hcap. simpl. rewrite <-Hcap. zlen.
    + pose proof (va_swap _ _ valid) as Hsw. rewrite cells in Hsw. simpl. rewrite Hsw. f_equal. rewrite !length_app. unfold zlen in *. lia.
    + apply valid.
    + rewrite Hel. apply sorted_smerge, valid.
    + rewrite Hel, keys_smerge. intros [Hk|Hk]; [|done]. by apply (va_null _ _ valid).
    + intros Hnil. rewrite Hnil in Hel. change (elements []) with (@nil ValueType) in Hel.
      pose proof (length_smerge (elements xs) batch) as [Hl _]. rewrite <-Hel in Hl. change (zlen []) with 0 in Hl.
      destruct some. apply no_elements; [apply valid|]. destruct (elements xs) as [|? l]; [done|]. pose proof (zlen_nonneg l). zlen.
    + simpl. rewrite HW, HS. apply valid.
    + simpl. rewrite HW. apply valid.
    + by apply (second_task s xs batch n valid n_one n_batch).
    + apply (va_factor _ _ valid).
  - apply (wp_for done_until); [|apply done_start|].
    + intros i s' Hi Hd. destruct (startTaskInPlace_ok i s' Hi Hd) as (s''&->&Hd'). done.
    + intros s'. by rewrite Z.max_r by lia.
Qed.
End tasks.

(** ** The whole operation *)

Lemma insertBatch_in_place s xs batch (n : Z) s1 h :
  valid_array s xs → xs ≠ [] → insertable batch → 1 ≤ n ≤ MaxThreads → n ≤ zlen batch →
  NDEBUG = true ∨ (∀ key, key ∈ keys batch → NULL_KEY ≤ key) →
  prepare s batch (zlen batch) n = Ok (s1, h, true) →
  ∃ s' xs', insertBatch s batch (zlen batch) n = Ok s' ∧ valid_array s' xs' ∧ elements xs' = smerge (elements xs) batch ∧
    size s' = size s ∧ capacity s' = capacity s ∧ swapPma s' = swapPma s.
Proof.
  intros Hv Hne Hins Hn Hnb Hkeys Hprep.
  destruct (prepare_in_place s batch n ltac:(lia) _ Hprep eq_refl) as (ts&->&Hts&Hfit).
  destruct (va_pma _ _ Hv) as (a&k&Hp&Hs&Ha&Hxs).
  destruct (insertInPlace_ok s xs a k batch n ts) as (s'&xs'&Hdone&Hv'&Hel&Hs'&Hc&Hsw&_); try done; [lia|].
  exists s', xs'. split; [|by split_and!].
  rewrite (insertBatch_prepared _ _ _ _ _ _ (sorted_nondecreasing _ (in_sorted _ Hins)) Hkeys (proj2 Hn) Hnb Hprep). done.
Qed.

End in_place.
