(* ===== verification/GbpmaPrepare.v ===== *)
(** * The distribution when no two splitters are in the same block

    The splitters of a batch usually belong to different blocks.  Then the distribution
    returns, no task is merged with another one, and the tasks are those of
    [separate_tasks]. *)

From S2P Require Export GbpmaInPlaceBatch.
Import BlockSeq OverallocatedBatchedSparseArray OverallocatedInsertion OverallocatedDistribution.
Import PmaEntry(PmaEntry).

(** ** What the distribution keeps of the tasks *)

Section tasks.
Context `{T : SdsTypes} `{C : BlockConfig} `{O : OverallocationConfig}.
Implicit Types (s : Sds) (ts : list TaskInfo) (t : TaskInfo).

(** No task is left over from a merge. *)
Definition no_inverse ts : Prop := ∀ i t, at_ ts i = Some t → is_type (type t) INVERSE_MERGE = false.

(** The number of tasks, and the absence of inverse merges. *)
Definition clean ts ts' : Prop := zlen ts' = zlen ts ∧ (no_inverse ts → no_inverse ts').

Lemma clean_refl ts : clean ts ts.
Proof. done. Qed.

Lemma clean_trans ts1 ts2 ts3 : clean ts1 ts2 → clean ts2 ts3 → clean ts1 ts3.
Proof. intros [H1 H2] [H3 H4]. split; [congruence|auto]. Qed.

Lemma clean_update ts (i : Z) t u :
  at_ ts i = Some t → (is_type (type t) INVERSE_MERGE = false → is_type (type u) INVERSE_MERGE = false) →
  clean ts (zupd ts i u).
Proof.
  intros Ht Hu. pose proof (at_Some_bound _ _ _ Ht). split; [apply zlen_zupd|]. intros Hno j x.
  destruct (decide (j = i)) as [->|]; [rewrite at_zupd_eq by done; intros [= <-]; by apply Hu, (Hno i)|].
  destruct (decide (0 ≤ j)); [rewrite at_zupd_ne by lia; apply Hno|]. intros Hx. apply at_Some_bound in Hx. lia.
Qed.

(** The same kinds of tasks. *)
Definition same_kinds ts ts' : Prop := type <$> ts' = type <$> ts.

Lemma kinds_length ts ts' : same_kinds ts ts' → zlen ts' = zlen ts.
Proof. intros H. unfold zlen. by rewrite <-(length_fmap type ts'), H, length_fmap. Qed.

Lemma kinds_trans ts1 ts2 ts3 : same_kinds ts1 ts2 → same_kinds ts2 ts3 → same_kinds ts1 ts3.
Proof. unfold same_kinds. congruence. Qed.

Lemma kinds_at ts ts' (i : Z) t' : same_kinds ts ts' → at_ ts' i = Some t' → ∃ t, at_ ts i = Some t ∧ type t = type t'.
Proof.
  intros H [Hi Ht]%at_lookup. pose proof (f_equal (λ l, l !! Z.to_nat i) H) as Hl. cbn beta in Hl.
  rewrite !list_lookup_fmap, Ht in Hl. destruct (ts !! Z.to_nat i) as [t|] eqn:Hti; [|done]. injection Hl as Hl.
  exists t. split; [|done]. unfold at_. by destruct (Z.leb_spec 0 i); [|lia].
Qed.

Lemma kinds_clean ts ts' : same_kinds ts ts' → clean ts ts'.
Proof.
  intros H. split; [by apply kinds_length|]. intros Hno i t' (t&Ht&<-)%(kinds_at _ _ _ _ H). by apply (Hno i).
Qed.

Lemma kinds_update ts (i : Z) t u : at_ ts i = Some t → type u = type t → same_kinds ts (zupd ts i u).
Proof.
  intros [Hi Ht]%at_lookup Hu. unfold same_kinds, zupd. rewrite list_fmap_insert, Hu. apply list_insert_id.
  by rewrite list_lookup_fmap, Ht.
Qed.

Lemma wp_write_task s ts (i : Z) f (Q : Sds → Prop) :
  0 ≤ i < zlen ts → (∀ t, at_ ts i = Some t → Q (set_tasks s (zupd ts i (f t)))) → wp (write_task (set_tasks s ts) i f) Q.
Proof.
  intros Hi HQ. destruct (at_in_bound ts i Hi) as [t Ht]. unfold write_task. cbn [tasks set_tasks].
  rewrite (zget_at _ _ _ Ht). cbn [mbind result_bind]. rewrite zset_in by done. cbn [mbind result_bind]. by apply HQ.
Qed.

(** The state with other tasks. *)
Definition tasks_kept s ts s' : Prop := ∃ ts', s' = set_tasks s ts' ∧ clean ts ts'.

(** Writing a task without touching its type. *)
Lemma wp_write_kept s ts (i : Z) f :
  0 ≤ i < zlen ts → (∀ t, type (f t) = type t) → wp (write_task (set_tasks s ts) i f) (tasks_kept s ts).
Proof.
  intros Hi Hf. apply wp_write_task; [done|]. intros t Ht. eexists. split; [done|].
  apply (clean_update _ _ t); [done|]. by rewrite Hf.
Qed.

(** ** One thread finds its task *)

Lemma findTask_kept s batch (n i block first nb nf x width : Z) ts :
  0 ≤ i < zlen ts → splitterBlock s batch (zlen batch ÷ n) i = Ok block →
  splitterElement s batch (zlen batch ÷ n) i block = Ok first →
  (if i =? n - 1 then nb = size s ∧ nf = zlen batch
   else splitterBlock s batch (zlen batch ÷ n) (i + 1) = Ok nb ∧ splitterElement s batch (zlen batch ÷ n) (i + 1) nb = Ok nf) →
  getNumberOfElements s block nb = Ok x → maxRedistributionWidth x (nf - first) = Ok width →
  wp (findTask batch (zlen batch) (zlen batch ÷ n) n i (set_tasks s ts)) (tasks_kept s ts).
Proof.
  intros Hi Hb He Hnext Hx Hw.
  unfold findTask. change (splitterBlock (set_tasks s ts)) with (splitterBlock s). rewrite Hb. cbn [mbind result_bind].
  apply wp_bind. eapply wp_mono; [by apply wp_write_kept; [lia|]|]. intros s1 (ts1&->&Hc1).
  change (splitterElement (set_tasks s ts1)) with (splitterElement s). rewrite He. cbn [mbind result_bind].
  apply wp_bind. eapply wp_mono; [by apply wp_write_kept; [rewrite (proj1 Hc1); lia|]|]. intros s2 (ts2&->&Hc2).
  pose proof (clean_trans _ _ _ Hc1 Hc2) as Hc. cbn [size set_tasks].
  change (splitterBlock (set_tasks s ts2)) with (splitterBlock s).
  change (splitterElement (set_tasks s ts2)) with (splitterElement s).
  assert ((if i =? n - 1 then Ok (size s, zlen batch)
           else nextBlock ← splitterBlock s batch (zlen batch ÷ n) (i + 1);
                nextFirst ← splitterElement s batch (zlen batch ÷ n) (i + 1) nextBlock; Ok (nextBlock, nextFirst)) = Ok (nb, nf)) as ->.
  { destruct (i =? n - 1); [by destruct Hnext as [-> ->]|]. destruct Hnext as [-> Hnf]. cbn [mbind result_bind]. by rewrite Hnf. }
  cbn [mbind result_bind]. change (getNumberOfElements (set_tasks s ts2)) with (getNumberOfElements s).
  rewrite Hx. cbn [mbind result_bind]. rewrite Hw. cbn [mbind result_bind].
  eapply wp_mono; [by apply wp_write_kept; [rewrite (proj1 Hc); lia|]|]. intros s3 (ts3&->&Hc3).
  exists ts3. split; [done|]. by eapply clean_trans.
Qed.

Lemma findTasks_kept s batch (n : Z) :
  1 ≤ n → n < zlen (tasks s) →
  (∀ i ts, 0 ≤ i < n → n < zlen ts → wp (findTask batch (zlen batch) (zlen batch ÷ n) n i (set_tasks s ts)) (tasks_kept s ts)) →
  wp (findTasks s batch (zlen batch) n) (tasks_kept s (tasks s)).
Proof.
  intros n_one Hn Htask. unfold findTasks. assert (s = set_tasks s (tasks s)) as Hs by (by destruct s). rewrite Hs at 1.
  apply wp_bind. eapply wp_mono; [by apply wp_write_kept; [lia|]|]. intros s1 (ts1&->&Hc1).
  apply (wp_for (λ _, tasks_kept s (tasks s))); [|by exists ts1|done].
  intros i s2 Hi (ts2&->&Hc2). eapply wp_mono; [apply Htask; [lia|rewrite (proj1 Hc2); lia]|].
  intros s3 (ts3&->&Hc3). exists ts3. split; [done|]. by eapply clean_trans.
Qed.

(** Whether the tasks fit is decided, whatever the answer. *)
Lemma fitInPlace_returns s (n : Z) : n < zlen (tasks s) → ∃ fits, fitInPlace s n = Ok fits.
Proof.
  intros Hn. cut (wp (fitInPlace s n) (λ _, True)); [intros (fits&?&_)%wp_returns; by exists fits|].
  apply (wp_for (λ _ _, True)); [|done|done]. intros i b Hi _. destruct b; [|done].
  destruct (at_in_bound (tasks s) i) as [t Ht]; [lia|]. destruct (at_in_bound (tasks s) (i + 1)) as [t' Ht']; [lia|].
  by rewrite (zget_at _ _ _ Ht), (zget_at _ _ _ Ht').
Qed.

(** The checks of the distribution pass. *)
Lemma validate_separate s batch (n : Z) ts (inPlace : bool) :
  1 ≤ n → separate_tasks s batch n ts → (∀ t, at_ (tasks s) n = Some t → is_type (type t) INVERSE_MERGE = false) →
  validateTaskDistribution (set_tasks s ts) n (zlen batch) inPlace = Ok tt.
Proof.
  intros Hn Hsep Hno. unfold validateTaskDistribution. cbn [tasks set_tasks].
  destruct (it_task _ _ _ _ Hsep 0) as (?&t0&?&_&Ht0&_&_&_&Hf&_); [lia|].
  destruct (it_sentinel _ _ _ _ Hsep) as (tn&tn0&Htn&Htn0&Hbn&Hfn&Hty).
  rewrite (zget_at _ _ _ Ht0), (zget_at _ _ _ Htn). cbn [mbind result_bind]. rewrite Hf.
  change (part_start 0 _) with 0. rewrite (assert_ok (0 =? 0)) by done.
  cbn [mbind result_bind]. apply wp_is, wp_bind.
  apply (wp_for (λ _ _, True)); [|done|].
  - intros i [] Hi _. destruct (at_in_bound ts i) as [t Ht].
    { pose proof (at_Some_bound _ _ _ Htn). lia. }
    rewrite (zget_at _ _ _ Ht). cbn [mbind result_bind].
    assert (is_type (type t) INVERSE_MERGE = false) as ->; [|by rewrite andb_false_r].
    destruct (decide (i = n)) as [->|].
    + rewrite Htn in Ht. injection Ht as <-. rewrite Hty. by apply Hno.
    + destruct (it_task _ _ _ _ Hsep i) as (?&t1&?&_&Ht1&_&Hins&_); [lia|]. rewrite Ht in Ht1. injection Ht1 as <-.
      by destruct (type t).
  - intros [] _. rewrite Hbn, Hfn, !assert_ok by (by apply Z.eqb_eq). done.
Qed.

End tasks.

(** ** The steps of the distribution *)

Section distinct.
Context `{T : SdsTypes} `{C : BlockConfig} `{O : OverallocationConfig}.
Context `{BC : !BlockConfigOk} `{HB : !HalfBlocks} `{FM : !FasterMergeOk}.
Implicit Types (e z : PmaEntry) (u w m : list PmaEntry) (v : ValueType) (ts : list TaskInfo) (t : TaskInfo).

(** The splitters of consecutive threads are in different blocks. *)
Definition distinct_splitters (s : Sds) (batch : list ValueType) (n : Z) : Prop :=
  ∀ i, 1 ≤ i < n → splitterBlock s batch (zlen batch ÷ n) i ≠ splitterBlock s batch (zlen batch ÷ n) (i - 1).

(** No task is merged. *)
Lemma mergeTasks_distinct s (n : Z) ts0 :
  1 ≤ n ≤ zlen ts0 → (∀ i t t', 1 ≤ i < n → at_ ts0 i = Some t → at_ ts0 (i - 1) = Some t' →
    blockForBatchSplitter t ≠ blockForBatchSplitter t') →
  ∃ ts, mergeTasks (set_tasks s ts0) n = Ok (set_tasks s ts, false) ∧ unmerged ts0 ts n ∧ clean ts0 ts.
Proof.
  intros Hn Hne. destruct (at_in_bound ts0 0) as [t0 Ht0]; [lia|].
  cut (wp (mergeTasks (set_tasks s ts0) n) (λ '(s', h), ∃ ts, s' = set_tasks s ts ∧ h = false ∧ unmerged ts0 ts n ∧ clean ts0 ts)).
  { intros ([s' h]&->&ts&->&->&?&?)%wp_returns. by exists ts. }
  unfold mergeTasks. apply wp_bind, wp_write_task; [lia|]. intros t Ht. rewrite Ht0 in Ht. injection Ht as <-.
  apply wp_bind. apply (wp_for (λ i '(s', merged, h), ∃ ts, s' = set_tasks s ts ∧ merged = 0 ∧ h = false ∧ unmerged ts0 ts i ∧ clean ts0 ts)).
  - intros i [[s' merged] h] Hi (ts&->&->&->&Hum&Hc). unfold mergeTask. cbn [tasks set_tasks].
    destruct (at_in_bound ts i) as [t Ht]; [rewrite (proj1 Hc); lia|].
    destruct (at_in_bound ts (i - 1)) as [p Hp]; [rewrite (proj1 Hc); lia|].
    rewrite (zget_at _ _ _ Ht), (zget_at _ _ _ Hp). cbn [mbind result_bind].
    destruct (unmerged_block _ _ _ i _ Hum ltac:(lia) Ht) as (t1&Ht1&Hb1).
    destruct (unmerged_block _ _ _ (i - 1) _ Hum ltac:(lia) Hp) as (p1&Hp1&Hb2).
    assert (blockForBatchSplitter t ≠ blockForBatchSplitter p) as Hdiff by (rewrite Hb1, Hb2; by apply (Hne i)).
    destruct (Z.eqb_spec (blockForBatchSplitter t) (blockForBatchSplitter p)); [done|].
    apply wp_bind, wp_write_task; [rewrite (proj1 Hc); lia|]. intros t2 Ht2. rewrite Ht in Ht2. injection Ht2 as <-.
    eexists. split; [done|]. do 2 (split; [done|]). split; [apply (unmerged_step _ _ _ _ p); try done; lia|].
    eapply clean_trans; [exact Hc|]. by apply (clean_update _ _ t).
  - eexists. split; [done|]. do 2 (split; [done|]). split; [by apply unmerged_start|]. by eapply clean_update.
  - intros [[s' merged] h]. rewrite Z.max_r by lia. intros (ts&->&_&->&Hum&Hc). by exists ts.
Qed.

(** When the tasks are found, the whole distribution returns. *)
Lemma prepare_found s batch (n : Z) :
  1 ≤ n → distinct_splitters s batch n → wp (findTasks s batch (zlen batch) n) (tasks_kept s (tasks s)) →
  n < zlen (tasks s) → NDEBUG = true ∨ (∀ t, at_ (tasks s) n = Some t → is_type (type t) INVERSE_MERGE = false) →
  ∃ ts fits, prepare s batch (zlen batch) n = Ok (set_tasks s ts, false, fits) ∧ separate_tasks s batch n ts ∧
    clean (tasks s) ts ∧ (fits = true → tasks_fit n ts).
Proof.
  intros n_one distinct (s1&Hfind&ts0&->&Hc0)%wp_returns Hn Hdebug.
  pose proof (findTasks_found s batch n ltac:(lia) _ Hfind) as (ts1&Heq&Hfound&Hsent). apply (f_equal tasks) in Heq. simpl in Heq. subst ts1.
  destruct (mergeTasks_distinct s n ts0) as (ts&Hmerge&Hum&Hc1).
  { rewrite (proj1 Hc0). lia. }
  { intros i t t' Hi Ht Ht' Heq. destruct (Hfound i ltac:(lia)) as (x&Hx&Hfx). destruct (Hfound (i - 1) ltac:(lia)) as (y&Hy&Hfy).
    rewrite Ht in Hx. injection Hx as <-. rewrite Ht' in Hy. injection Hy as <-.
    apply (distinct i Hi). by rewrite (fo_block _ _ _ _ _ _ Hfx), (fo_block _ _ _ _ _ _ Hfy), Heq. }
  pose proof (clean_trans _ _ _ Hc0 Hc1) as Hc.
  destruct (fitInPlace_returns (set_tasks s ts) n) as [fits Hfits]; [simpl; rewrite (proj1 Hc); lia|].
  destruct (at_in_bound ts n) as [tn Htn]; [rewrite (proj1 Hc); lia|].
  pose proof (unmerged_separate s batch n ts0 ts tn n_one Hfound Hsent Hum Htn) as Hsep.
  assert (clean (tasks s) (zupd ts n (set_requiredWidth tn 0))) as Hc'.
  { eapply clean_trans; [exact Hc|]. by eapply clean_update. }
  assert (prepare s batch (zlen batch) n = Ok (set_tasks s (zupd ts n (set_requiredWidth tn 0)), false, fits)) as Hprep.
  { unfold prepare. rewrite Hfind. cbn [mbind result_bind]. rewrite Hmerge. cbn [mbind result_bind].
    rewrite (distribute_unmerged _ _ _ _ _ _ Hum). cbn [mbind result_bind]. rewrite Hfits. cbn [mbind result_bind].
    unfold write_task. cbn [tasks set_tasks]. rewrite (zget_at _ _ _ Htn). cbn [mbind result_bind].
    rewrite zset_in by (by eapply at_Some_bound). cbn [mbind result_bind]. rewrite set_tasks_twice.
    destruct NDEBUG; [done|]. destruct Hdebug as [?|Hno]; [done|].
    by rewrite (validate_separate _ _ _ _ _ n_one Hsep Hno). }
  exists (zupd ts n (set_requiredWidth tn 0)), fits. split_and!; try done.
  intros ->. destruct (prepare_in_place s batch n n_one _ Hprep eq_refl) as (ts'&Heq&_&Hfit).
  apply (f_equal tasks) in Heq. simpl in Heq. by subst ts'.
Qed.
Section array.
Variables (s : Sds) (xs : list (list ValueType * list ValueType)) (a : list PmaEntry) (k : nat).
Variables (batch : list ValueType) (n : Z).
Hypothesis (valid : valid_array s xs) (some : xs ≠ []).
Hypothesis (cells : pma s = a ++ nulls (S k)) (used : zlen a = size s) (a_ok : Forall cell_ok a) (blocks : blocks_of a = xs).
Hypothesis (good_batch : insertable batch) (n_one : 1 ≤ n) (n_batch : n ≤ zlen batch).
Hypothesis (distinct : distinct_splitters s batch n).

#[local] Abbreviation start := (start_exists s xs a k batch n valid some cells used good_batch n_one n_batch).

(** A task is found, its width included. *)
Lemma found_exists i (block first : Z) :
  0 ≤ i < n → splitterBlock s batch (zlen batch ÷ n) i = Ok block →
  splitterElement s batch (zlen batch ÷ n) i block = Ok first →
  ∃ nb nf x width, (if i =? n - 1 then nb = size s ∧ nf = zlen batch
     else splitterBlock s batch (zlen batch ÷ n) (i + 1) = Ok nb ∧ splitterElement s batch (zlen batch ÷ n) (i + 1) nb = Ok nf) ∧
    getNumberOfElements s block nb = Ok x ∧ maxRedistributionWidth x (nf - first) = Ok width.
Proof.
  intros Hi Hb He. destruct (start i Hi) as (v&block'&first'&a1&e&a2&Hv&Hb'&He'&H1&H2&Ha&Hst&_).
  rewrite Hb in Hb'. injection Hb' as <-. rewrite He in He'. injection He' as <-.
  pose proof (splitter_index_bound batch n n_one n_batch i Hi).
  assert (∀ m w, e :: a2 = (e :: m) ++ w →
    getNumberOfElements s block (zlen a1 + zlen (e :: m)) = Ok (zlen (elements (blocks_of (e :: m))))) as Hcount.
  { intros m w Hm. rewrite <-(sa_index _ _ _ _ _ _ _ Hst).
    pose proof a_ok as Hok. rewrite Ha, Hm in Hok. apply Forall_app in Hok as [_ [Hok _]%Forall_app].
    apply (numberOfElements_range s xs a1 (e :: m) (w ++ nulls (S k)) valid); [|rewrite <-used, Ha, Hm; zlen|done].
    rewrite cells, Ha, Hm. by simplify_list_eq. }
  assert (∀ (x : list ValueType) d, 0 ≤ d → ∃ width : Z, maxRedistributionWidth (zlen x) d = Ok width) as Hwidth.
  { intros x d Hd. unfold maxRedistributionWidth. rewrite assert_ok; [by eexists|].
    pose proof (zlen_nonneg x). apply andb_true_intro. split; by apply Z.leb_le. }
  destruct (Z.eqb_spec i (n - 1)) as [|Hin].
  - destruct (Hwidth (elements (blocks_of (e :: a2))) (zlen batch - first)) as [width Hw]; [lia|].
    exists (size s), (zlen batch), (zlen (elements (blocks_of (e :: a2)))), width. split; [done|]. split; [|exact Hw].
    rewrite <-(Hcount a2 []) by (by rewrite app_nil_r). f_equal. rewrite <-used, Ha. zlen.
  - destruct (start (i + 1) ltac:(lia)) as (v'&nb&nf&a1'&e'&a2'&Hv'&Hb'&He'&_&_&Ha'&Hst'&_).
    assert (keyOfValue v < keyOfValue v') as Hkey.
    { eapply (sorted_at_lt batch); [apply good_batch|exact Hv|exact Hv'|]. apply splitter_index_lt; lia. }
    assert (block ≠ nb) as Hne.
    { intros ->. apply (distinct (i + 1)); [lia|]. replace (i + 1 - 1) with i by lia. by rewrite Hb, Hb'. }
    destruct (starts_order a batch _ _ _ _ _ _ _ _ _ _ _ _ Ha Ha' Hkey Hne Hst Hst') as (m&->&Hle).
    assert (e :: a2 = (e :: m) ++ e' :: a2') as Hm.
    { rewrite Ha, <-app_assoc in Ha'. by apply app_inv_head in Ha'. }
    destruct (Hwidth (elements (blocks_of (e :: m))) (nf - first)) as [width Hw]; [lia|].
    exists nb, nf, (zlen (elements (blocks_of (e :: m)))), width. split; [done|]. split; [|exact Hw].
    rewrite <-(Hcount m (e' :: a2') Hm). f_equal. rewrite <-(sa_index _ _ _ _ _ _ _ Hst'). zlen.
Qed.

Lemma findTask_returns i ts :
  0 ≤ i < n → n < zlen ts →
  wp (findTask batch (zlen batch) (zlen batch ÷ n) n i (set_tasks s ts)) (tasks_kept s ts).
Proof.
  intros Hi Hn. destruct (start i Hi) as (v&block&first&a1&e&a2&_&Hb&He&_).
  destruct (found_exists i block first Hi Hb He) as (nb&nf&x&width&Hnext&Hx&Hw).
  eapply findTask_kept; try done. lia.
Qed.

Lemma findTasks_returns : n < zlen (tasks s) → wp (findTasks s batch (zlen batch) n) (tasks_kept s (tasks s)).
Proof. intros Hn. apply findTasks_kept; try done. intros i ts. apply findTask_returns. Qed.

(** The whole distribution. *)
Lemma prepare_distinct :
  n < zlen (tasks s) → NDEBUG = true ∨ (∀ t, at_ (tasks s) n = Some t → is_type (type t) INVERSE_MERGE = false) →
  ∃ ts fits, prepare s batch (zlen batch) n = Ok (set_tasks s ts, false, fits) ∧ separate_tasks s batch n ts ∧
    clean (tasks s) ts ∧ (fits = true → tasks_fit n ts).
Proof. intros Hn Hdebug. apply prepare_found; try done. by apply findTasks_returns. Qed.
End array.
End distinct.
