(* ===== verification/GbpmaOutBatch.v ===== *)
(** * Inserting a batch through the second array, with several threads

    When some task does not fit into its range, every task moves its blocks, merged with its
    part of the batch, to its part of the second array, one part behind the other; then all
    blocks are spread over the pma.  Run one after the other, the tasks merge the whole
    batch into the array, provided no two splitters are in the same block. *)

From S2P Require Export GbpmaPrepare.
Import BlockSeq OverallocatedBatchedSparseArray OverallocatedInsertion OverallocatedDistribution.
Import PmaEntry(PmaEntry).
Import HierarchicalBlockSizeManager(AggregateWidth).

(** ** A task without batch elements *)

Section copy.
Context `{T : SdsTypes} `{C : BlockConfig}.
Context `{BC : !BlockConfigOk} `{HB : !HalfBlocks} `{FM : !FasterMergeOk}.
Implicit Types (s : Sds) (e : PmaEntry) (u w m : list PmaEntry) (ks : list Z).

Implicit Types (z : PmaEntry) (pre es post : list ValueType).
Variables (sa : list PmaEntry) (N : nat) (sz : list PmaEntry) (pmaOutputRange : Interval).
Hypothesis (output_left : Interval.left pmaOutputRange = zlen sa).

(** The cells [m1] are moved, the cells [m2] follow. *)
Definition copied s u m1 m2 w s' : Prop :=
  frame s s' ∧ pma s' = (u ++ replicate (length m1) PmaEntry.null_entry) ++ m2 ++ w ∧
  out_cells sa N sz (swapPma s') (blocks_of m1).

Definition copyBlock (blockIndex : Z) '((s, written) : Sds * Z) : result (Sds * Z) :=
  b ← empty s blockIndex;
  if negb b then
    s ← moveBlock s blockIndex (Interval.left pmaOutputRange) written;
    Ok (s, written + 1)
  else Ok (s, written).

Lemma copied_step s u m1 e m2 w s' :
  copied s u m1 (e :: m2) w s' → cell_ok e → zlen u + zlen (m1 ++ e :: m2) ≤ managed s → out_room s sa N →
  Forall (λ x, good_size x.1) (blocks_of (m1 ++ [e])) → zlen (blocks_of (m1 ++ [e])) ≤ Z.of_nat N →
  ∃ s'', copyBlock (zlen u + zlen m1) (s', zlen (blocks_of m1)) = Ok (s'', zlen (blocks_of (m1 ++ [e]))) ∧
    copied s u (m1 ++ [e]) m2 w s''.
Proof.
  intros (Hf&Hp&Ho) He Hmg Hr Hg Hle. unfold copyBlock, copied. rewrite length_app, Nat.add_1_r, replicate_S_end.
  replace (zlen u + zlen m1) with (zlen (u ++ replicate (length m1) PmaEntry.null_entry)) by (rewrite zlen_app, zlen_replicate; unfold zlen; lia).
  rewrite (empty_at _ _ _ _ Hp He). cbn [mbind result_bind]. rewrite negb_involutive. rewrite blocks_of_app in *.
  destruct He as [->|(v&l&rest&Hrep&Hnull)].
  - rewrite blocks_of_null, app_nil_r. eexists. split; [done|]. split_and!; [done| |done]. rewrite Hp. by simplify_list_eq.
  - rewrite (block_ok_has e) by (by exists v, l, rest). rewrite blocks_of_cons, (group_of_block _ _ _ Hrep) in Hg, Hle |- *.
    rewrite app_nil_r in *. apply Forall_app in Hg as [_ [Hg _]%Forall_cons]. pose proof Hf as (?&?&?&?&Hc&Hm).
    rewrite zlen_app in Hle. change (zlen [(v :: l, rest)]) with 1 in Hle.
    destruct (moveBlock_ok sa N sz pmaOutputRange output_left s' (u ++ replicate (length m1) PmaEntry.null_entry) e (m2 ++ w)
      (blocks_of m1) (v :: l) rest (keys rest)) as (s2&->&[Hf2 Hp2 Ho2 _ _ _]); try done.
    + split; try done; [|by eapply frame_room]. rewrite (proj1 Hm), zlen_app, zlen_replicate. rewrite zlen_app, zlen_cons in Hmg.
      pose proof (zlen_nonneg m2). unfold zlen in *. lia.
    + intros y Hy. apply elem_of_app. right. apply elem_of_keys. by exists y.
    + lia.
    + cbn [mbind result_bind]. exists s2. split; [do 2 f_equal; zlen|]. split_and!; [by eapply frame_trans| |done].
      rewrite Hp2. by simplify_list_eq.
Qed.

Lemma copyBlocks_ok s u m w ks pmaInputRange :
  pma s = u ++ m ++ w → Forall cell_ok m → pmaInputRange = mkInterval (zlen u) (zlen u + zlen m) →
  counts s → zlen u + zlen m ≤ managed s → out_cells sa N sz (swapPma s) [] → out_room s sa N →
  mergeable m ks [] (Z.of_nat N) →
  ∃ s', copyBlocks s pmaInputRange pmaOutputRange = Ok (s', zlen (blocks_of m)) ∧
    task_done sa N sz s s' u (length m) w [] ks (blocks_of m) (elements (blocks_of m)).
Proof.
  intros Hp Hm -> Hc Hmg Ho Hr [Hg Hs Hst Hn _ _ _ Hroom].
  assert (∀ m1 m2, m = m1 ++ m2 → zlen (blocks_of m1) ≤ Z.of_nat N) as Hbound.
  { intros m1 m2 ->. apply Hroom. rewrite blocks_of_app in *. apply Forall_app in Hg as [Hg _].
    pose proof (blocks_bound _ Hg). rewrite elements_app, zlen_app. pose proof (zlen_nonneg (elements (blocks_of m2))).
    change (zlen (@nil ValueType)) with 0. lia. }
  change (copyBlocks s (mkInterval (zlen u) (zlen u + zlen m)) pmaOutputRange)
    with (for_range (zlen u) (zlen u + zlen m) copyBlock (s, 0)).
  cut (wp (for_range (zlen u) (zlen u + zlen m) copyBlock (s, 0)) (λ '(s', written), written = zlen (blocks_of m) ∧ copied s u m [] w s')).
  { intros ([s' written]&Hloop&->&Hf&Hp'&Ho')%wp_returns. exists s'. split; [exact Hloop|]. split_and!; try done.
    rewrite Hp'. by simplify_list_eq. }
  apply (wp_for (λ i '(s', written), ∃ m1 m2, m = m1 ++ m2 ∧ i = zlen u + zlen m1 ∧ written = zlen (blocks_of m1) ∧ copied s u m1 m2 w s')).
  - intros i [s' written] Hi (m1&m2&Heq&->&->&Hcp). destruct m2 as [|e m2]; [rewrite Heq, app_nil_r in Hi; lia|].
    rewrite Heq in Hm, Hmg, Hg. assert (m = (m1 ++ [e]) ++ m2) as Heq' by (rewrite Heq; by simplify_list_eq).
    destruct (copied_step s u m1 e m2 w s' Hcp) as (s''&->&Hcp''); try done.
    + by apply Forall_app in Hm as [_ [? _]%Forall_cons].
    + rewrite <-Heq, Heq', blocks_of_app in Hg. by apply Forall_app in Hg as [? _].
    + by apply (Hbound _ m2).
    + cbn [wp]. exists (m1 ++ [e]), m2. split_and!; [done|zlen|done|exact Hcp''].
  - exists [], m. split_and!; [done|zlen|done|]. split_and!; [by apply frame_refl|by rewrite app_nil_r|done].
  - intros [s' written]. rewrite Z.max_r by (pose proof (zlen_nonneg m); lia). intros (m1&m2&Heq&Hlen&->&Hcp).
    assert (m2 = []) as ->; [|rewrite app_nil_r in Heq; by subst m1].
    destruct m2 as [|? m2]; [done|]. rewrite Heq in Hlen. pose proof (zlen_nonneg m2). zlen.
Qed.

(** A task moves its blocks, with or without batch elements. *)
Lemma part_moved s u e m z w pre es post ks pmaInputRange :
  pma s = u ++ (e :: m) ++ z :: w → block_ok e → Forall cell_ok m → cell_ok z →
  (z = PmaEntry.null_entry ∨ ∀ k, k ∈ keys es → k < PmaEntry.head z) →
  pmaInputRange = mkInterval (zlen u) (zlen u + zlen (e :: m)) →
  counts s → zlen u + zlen (e :: m) ≤ managed s → out_cells sa N sz (swapPma s) [] → out_room s sa N →
  keyOfValue zeroValue ∈ ks → mergeable (e :: m) ks es (Z.of_nat N) →
  ∃ s' bs, (if zlen pre + zlen es - zlen pre =? 0 then copyBlocks s pmaInputRange pmaOutputRange
            else insertBatchRangeOutOfPlace s (pre ++ es ++ post) (mkInterval (zlen pre) (zlen pre + zlen es))
                   pmaInputRange pmaOutputRange) = Ok (s', zlen bs) ∧
    task_done sa N sz s s' u (length (e :: m)) (z :: w) [] ks bs (smerge (elements (blocks_of (e :: m))) es).
Proof.
  intros Hp He Hm Hz Hzk -> Hc Hmg Ho Hr Hzero Hmrg. destruct es as [|x es].
  - change (zlen (@nil ValueType)) with 0. replace (zlen pre + 0 - zlen pre) with 0 by lia. rewrite Z.eqb_refl, smerge_nil.
    destruct (copyBlocks_ok s u (e :: m) (z :: w) ks (mkInterval (zlen u) (zlen u + zlen (e :: m)))) as (s'&Hcopy&Hdone); try done; [|by eexists s', _].
    constructor; [by right|done].
  - destruct (Z.eqb_spec (zlen pre + zlen (x :: es) - zlen pre) 0); [pose proof (zlen_nonneg es); zlen|].
    by apply insertBatchRangeOutOfPlace_ok.
Qed.
End copy.

Section out_of_place.
Context `{T : SdsTypes} `{C : BlockConfig} `{O : OverallocationConfig}.
Context `{BC : !BlockConfigOk} `{HB : !HalfBlocks} `{FM : !FasterMergeOk}.
Implicit Types (e z : PmaEntry) (u w m : list PmaEntry) (v : ValueType) (t : TaskInfo) (gs : list group).

Section tasks.
Variables (s : Sds) (xs : list (list ValueType * list ValueType)) (a : list PmaEntry) (k : nat).
Variables (batch : list ValueType) (n : Z) (ts : list TaskInfo).
Hypothesis (valid : valid_array s xs) (some : xs ≠ []).
Hypothesis (cells : pma s = a ++ nulls (S k)) (used : zlen a = size s) (a_ok : Forall cell_ok a) (blocks : blocks_of a = xs).
Hypothesis (good_batch : insertable batch) (n_one : 1 ≤ n) (n_batch : n ≤ zlen batch).
Hypothesis (good_tasks : separate_tasks s batch n ts).
Hypothesis (machine : AllowInPlaceInserts = true → zlen (elements xs) + zlen batch < 2 ^ 52).

#[local] Abbreviation piece_of := (pieces s xs a k batch n valid some cells used a_ok blocks good_batch n_one n_batch ts good_tasks).

(** ** The start indices *)

(** The cells in front of the tasks. *)
Variables (u0 : list PmaEntry) (t_first : TaskInfo).
Hypothesis (first_task : at_ ts 0 = Some t_first) (front : zlen u0 = blockForBatchSplitter t_first).
Hypothesis (in_front : ∃ ar, a = u0 ++ ar).

(** The width of a task in the second array, and where its part starts. *)
Definition width_of (i : Z) : Z :=
  match at_ ts i with Some t => overallocatedWidth s (requiredWidth t) | None => 0 end.
Definition start_of (i : Z) : Z := zlen u0 + sum_range width_of 0 i.

Lemma width_room_ok i t : 0 ≤ i < n → at_ ts i = Some t → 0 ≤ requiredWidth t ≤ width_of i.
Proof.
  intros Hi Ht. destruct (piece_of i Hi) as (t1&t'&a1&e&m&a3&Ht1&_&_&Hpc&_). rewrite Ht in Ht1. injection Ht1 as <-.
  pose proof (pc_width _ _ _ _ _ _ _ _ Hpc) as Hw. rewrite blocks in Hw. unfold width_of. rewrite Ht.
  split; [lia|]. apply overallocatedWidth_bounds; [apply valid| |lia]. intros Ha. specialize (machine Ha).
  change (2 ^ 53) with (2 * 2 ^ 52). lia.
Qed.

Lemma width_nonneg i : 0 ≤ i < n → 0 ≤ width_of i.
Proof.
  intros Hi. destruct (piece_of i Hi) as (t&_&_&_&_&_&Ht&_). pose proof (width_room_ok i t Hi Ht). lia.
Qed.

Lemma start_next i : 0 ≤ i → start_of (i + 1) = start_of i + width_of i.
Proof. intros Hi. unfold start_of. rewrite sum_range_snoc by lia. lia. Qed.

Lemma start_le i j : 0 ≤ i ≤ j → j ≤ n → start_of i ≤ start_of j.
Proof.
  intros Hij Hj. unfold start_of. rewrite (sum_range_split _ 0 i j) by lia.
  assert (0 ≤ sum_range width_of i j); [|lia]. apply sum_range_nonneg. intros l Hl. apply width_nonneg. lia.
Qed.

Lemma starts_ok :
  ∃ ts', computeStartIndices (set_tasks s ts) n = Ok (set_tasks s ts', start_of n) ∧ same_kinds ts ts' ∧
    ∀ i t, 0 ≤ i ≤ n → at_ ts i = Some t → at_ ts' i = Some (set_startIndex t (start_of i)).
Proof.
  destruct (it_end _ _ _ _ good_tasks) as (tn&Htn&Hwn). pose proof (at_Some_bound _ _ _ Htn) as Hlen.
  cut (wp (computeStartIndices (set_tasks s ts) n) (λ '(s', w), ∃ ts', s' = set_tasks s ts' ∧ w = start_of (n + 1) ∧ same_kinds ts ts' ∧
    ∀ i t, 0 ≤ i ≤ n → at_ ts i = Some t → at_ ts' i = Some (set_startIndex t (start_of i)))).
  { intros ([s' w]&->&ts'&->&->&?&?)%wp_returns. exists ts'. split; [|done]. rewrite start_next by lia. unfold width_of.
    rewrite Htn, Hwn. pose proof (overallocatedWidth_bounds s 0 (va_factor _ _ valid)). do 2 f_equal. lia. }
  unfold computeStartIndices. cbn [tasks set_tasks]. rewrite (zget_at _ _ _ first_task). cbn [mbind result_bind].
  apply (wp_for (λ i '(s', w), ∃ ts', s' = set_tasks s ts' ∧ w = start_of i ∧ same_kinds ts ts' ∧
    (∀ j t, 0 ≤ j < i → at_ ts j = Some t → at_ ts' j = Some (set_startIndex t (start_of j))) ∧
    (∀ j, i ≤ j → at_ ts' j = at_ ts j))).
  - intros i [s' w] Hi (ts'&->&->&Hc&Hbelow&Habove). destruct (at_in_bound ts i) as [t Ht]; [lia|].
    cbn [tasks set_tasks]. rewrite (zget_at _ _ t) by (by rewrite Habove by lia). cbn [mbind result_bind].
    apply wp_bind, wp_write_task; [rewrite (kinds_length _ _ Hc); lia|]. intros t1 Ht1. rewrite Habove, Ht in Ht1 by lia. injection Ht1 as <-.
    cbn [wp]. eexists. split; [done|]. split; [rewrite start_next by lia; unfold width_of; by rewrite Ht|].
    assert (0 ≤ i < zlen ts') as Hi' by (rewrite (kinds_length _ _ Hc); lia). split_and!.
    + eapply kinds_trans; [exact Hc|]. by apply (kinds_update _ _ t); [rewrite Habove by lia|].
    + intros j t2 Hj Ht2. destruct (decide (j = i)) as [->|]; [rewrite Ht in Ht2; injection Ht2 as <-; by rewrite at_zupd_eq|].
      rewrite at_zupd_ne by lia. by apply Hbelow; [lia|].
    + intros j Hj. rewrite at_zupd_ne by lia. apply Habove. lia.
  - exists ts. split; [done|]. split; [unfold start_of; rewrite sum_range_nil by lia; lia|]. split; [done|]. split; [lia|done].
  - intros [s' w]. rewrite Z.max_r by lia. intros (ts'&->&->&Hc&Hbelow&_). exists ts'. split_and!; try done.
    intros i t Hi Ht. apply Hbelow; [lia|done].
Qed.

(** ** The tasks *)

Lemma piece_mergeable t t' a1 e m a3 pre es post (N : nat) :
  piece a batch t t' a1 e m a3 → batch_around batch t t' pre es post → requiredWidth t ≤ Z.of_nat N →
  mergeable (e :: m) (keys (elements (blocks_of a3)) ++ [keyOfValue zeroValue]) es (Z.of_nat N).
Proof.
  intros Hpc Hba Hwidth. pose proof (va_good _ _ valid) as Hg. pose proof (va_sorted _ _ valid) as Hs.
  pose proof (va_stales _ _ valid) as Hst. pose proof (va_null _ _ valid) as Hn.
  rewrite <-blocks, (pc_cells _ _ _ _ _ _ _ _ Hpc), !blocks_of_app in Hg, Hs, Hst, Hn.
  rewrite !elements_app in Hs, Hn. rewrite !keys_app, !elem_of_app in Hn.
  apply Forall_app in Hg as [_ [Hg _]%Forall_app]. apply sorted_app in Hs as (_&Hs&_). apply sorted_app in Hs as (Hs&_&_).
  apply stales_app in Hst as [_ [Hst _]%stales_app]. destruct good_batch as [Hbs Hbn Hbz].
  rewrite (ba_batch _ _ _ _ _ _ Hba) in Hbs, Hbn, Hbz. rewrite !keys_app, !elem_of_app in Hbn, Hbz.
  apply sorted_app in Hbs as (_&Hbs&_). apply sorted_app in Hbs as (Hbs&_&_).
  split; try done; try tauto.
  - intros key Hk [Hin| ->%list_elem_of_singleton]%elem_of_app; [|tauto].
    by apply (above_not_in _ _ (proj2 (piece_between a batch good_batch _ _ _ _ _ _ _ _ _ key Hpc Hba Hk))).
  - intros q Hq. etrans; [|exact Hwidth]. apply (pc_room _ _ _ _ _ _ _ _ Hpc).
    rewrite <-(ba_left _ _ _ _ _ _ Hba), <-(ba_right _ _ _ _ _ _ Hba). zlen.
Qed.

(** The cell behind the range of a task. *)
Lemma cell_behind t t' a1 e m a3 pre es post :
  piece a batch t t' a1 e m a3 → batch_around batch t t' pre es post →
  ∃ z w, a3 ++ nulls (S k) = z :: w ∧ cell_ok z ∧ (z = PmaEntry.null_entry ∨ ∀ key, key ∈ keys es → key < PmaEntry.head z).
Proof.
  intros Hpc Hba. pose proof a_ok as Hok. rewrite (pc_cells _ _ _ _ _ _ _ _ Hpc) in Hok. apply Forall_app in Hok as [_ [_ Hok]%Forall_app].
  destruct a3 as [|z a3]; [exists PmaEntry.null_entry, (nulls k); split_and!; [done|by left|by left]|].
  exists z, (a3 ++ nulls (S k)). apply Forall_cons in Hok as [Hz _]. split_and!; [done|done|].
  destruct Hz as [->|Hz]; [by left|right]. intros key Hk.
  destruct (piece_between a batch good_batch _ _ _ _ _ _ _ _ _ key Hpc Hba Hk) as [_ Ha].
  destruct (head_first z a3 Hz) as (v&l&Hv&->). rewrite Hv in Ha. by apply above_cons in Ha as [? _].
Qed.

Section loop.
Variables (ts1 : list TaskInfo) (c : Z).
Hypothesis (started : ∀ i t, 0 ≤ i ≤ n → at_ ts i = Some t → at_ ts1 i = Some (set_startIndex t (start_of i))).
Hypothesis (large : start_of n < c) (divides : (AggregateWidth (sizeManager s) | c)) (kinds : same_kinds ts ts1).
Let s1 := with_swap (set_tasks s ts1) c (start_of n).

(** The cells [a1] are moved to the groups [gs], the cells [ar] follow. *)
Definition state_of (a1 ar : list PmaEntry) gs (r : nat) mm ts' : Sds :=
  set_tasks (set_sizeManager (set_swapPma (set_pma s1 (nulls (length a1) ++ ar ++ nulls (S k))) (u0 ++ groups_cells gs ++ nulls r)) mm) ts'.

Record moved_state (i : Z) t a1 ar gs (r : nat) mm ts' : Prop := {
  ms_cells : a = a1 ++ ar;
  ms_index : zlen a1 = blockForBatchSplitter t;
  ms_count : zlen gs = i;
  ms_start : zlen (u0 ++ groups_cells gs) = start_of i;
  ms_room : c = start_of i + Z.of_nat r;
  ms_counts : counts (set_sizeManager s1 mm);
  ms_alike : alike s1 (set_sizeManager s1 mm);
  ms_groups : Forall group_ok gs;
  ms_elements : elements (blocks_of u0 ++ groups_blocks gs) =
    smerge (elements (blocks_of a1)) (take (Z.to_nat (firstBatchElement t)) batch);
  ms_good : Forall (λ x, good_size x.1) (groups_blocks gs);
  ms_stales : stales (keys (elements (blocks_of ar)) ++ [keyOfValue zeroValue]) (blocks_of u0 ++ groups_blocks gs);
  ms_wrote : wrote ts' u0 gs;
  ms_rest : ∀ j, i ≤ j → at_ ts' j = at_ ts1 j;
  ms_kinds : same_kinds ts1 ts';
  ms_first : ∃ t0, at_ ts' 0 = Some t0 ∧ blockForBatchSplitter t0 = zlen u0;
}.

Definition moved_until (i : Z) s' : Prop := ∃ t a1 ar gs r mm ts',
  at_ ts i = Some t ∧ moved_state i t a1 ar gs r mm ts' ∧ s' = state_of a1 ar gs r mm ts'.

(** The blocks in front of the first task move first. *)
Lemma moved_start :
  ∃ s', copyFront s1 (blockForBatchSplitter t_first) = Ok s' ∧ moved_until 0 s'.
Proof.
  destruct in_front as [ar Har]. destruct (piece_of 0 ltac:(lia)) as (t&_&_&_&_&_&Ht&_&_&_&Hz&_).
  rewrite first_task in Ht. injection Ht as <-. specialize (Hz eq_refl).
  pose proof a_ok as Hok. rewrite Har in Hok. apply Forall_app in Hok as [Hu0 _].
  assert (start_of 0 = zlen u0) as H0 by (unfold start_of; rewrite sum_range_nil by lia; lia).
  pose proof (start_le 0 n ltac:(lia) ltac:(lia)).
  assert (∃ r : nat, c = zlen u0 + Z.of_nat r) as [r Hr] by (exists (Z.to_nat (c - zlen u0)); lia).
  pose proof (va_stales _ _ valid) as Hst. rewrite <-blocks, Har, blocks_of_app in Hst. apply stales_app in Hst as [Hst _].
  rewrite <-front, (copyFront_ok s1 u0 (ar ++ nulls (S k)) r).
  - eexists. split; [done|]. exists t_first, u0, ar, [], r, (sizeManager s1), ts1. split; [done|].
    split; [|unfold state_of; change (groups_cells []) with (@nil PmaEntry); reflexivity].
    change (groups_cells []) with (@nil PmaEntry). change (groups_blocks []) with (@nil (list ValueType * list ValueType)).
    split; rewrite ?app_nil_r; try done.
    + lia.
    + split; apply (va_manager _ _ valid).
    + by rewrite Hz.
    + intros [|? ?] ? ? Heq; discriminate Heq.
    + exists (set_startIndex t_first (start_of 0)). split; [apply started; [lia|done]|]. by rewrite front.
  - change (pma s = u0 ++ ar ++ nulls (S k)). rewrite cells, Har. by rewrite app_assoc.
  - done.
  - change (nulls (Z.to_nat c) = nulls (length u0 + r)). f_equal. unfold zlen in Hr. lia.
Qed.

Lemma managed_enough : zlen a ≤ managed s1.
Proof.
  pose proof (va_managed _ _ valid) as Hmg. pose proof (va_manager _ _ valid) as [(HW&_&_) _].
  unfold managed. simpl. rewrite Hmg, used.
  pose proof (Z.mul_succ_div_gt (size s) (AggregateWidth (sizeManager s)) HW). lia.
Qed.

(** The written blocks of one more task. *)
Lemma wrote_snoc ts' gs g t t' :
  wrote ts' u0 gs → at_ ts' (zlen gs) = Some t → at_ ts' (zlen gs + 1) = Some t' →
  startIndex t = zlen (u0 ++ groups_cells gs) → startIndex t' = zlen (u0 ++ groups_cells gs) + Z.of_nat (g_width g) →
  wrote (zupd ts' (zlen gs) (set_numberOfBlocksWritten t (zlen (g_blocks g)))) u0 (gs ++ [g]).
Proof.
  intros Hw Ht Ht' Hs Hs' gs1 g' gs2 Heq. pose proof (at_Some_bound _ _ _ Ht) as Hb.
  destruct gs2 as [|g2 gs2 _] using rev_ind.
  - apply app_inj_tail in Heq as [<- <-]. eexists _, t'. rewrite at_zupd_eq by done. rewrite at_zupd_ne by lia. by split_and!.
  - rewrite app_comm_cons, app_assoc in Heq. apply app_inj_tail in Heq as [Heq _].
    destruct (Hw gs1 g' gs2 Heq) as (x&x'&Hx&Hx'&Hrest).
    assert (zlen gs1 + 1 ≤ zlen gs) as Hlt by (rewrite Heq, zlen_app, zlen_cons; pose proof (zlen_nonneg gs2); lia).
    rewrite at_zupd_ne by lia. destruct (decide (zlen gs1 + 1 = zlen gs)) as [He|].
    + rewrite He, Ht in Hx'. injection Hx' as <-. eexists x, _. rewrite He, at_zupd_eq by done. split; [exact Hx|]. split; [reflexivity|exact Hrest].
    + rewrite at_zupd_ne by lia. exists x, x'. done.
Qed.

(** What a task adds to the blocks that are moved. *)
Lemma moved_blocks i t t' a1 e m a3 pre es post gs (r : nat) mm ts' bs :
  moved_state i t a1 ((e :: m) ++ a3) gs r mm ts' → piece a batch t t' a1 e m a3 → batch_around batch t t' pre es post →
  elements bs = smerge (elements (blocks_of (e :: m))) es →
  stales (keys (elements (blocks_of a3)) ++ [keyOfValue zeroValue]) bs →
  elements (blocks_of u0 ++ groups_blocks gs ++ bs) =
    smerge (elements (blocks_of (a1 ++ e :: m))) (take (Z.to_nat (firstBatchElement t')) batch) ∧
  stales (keys (elements (blocks_of a3)) ++ [keyOfValue zeroValue]) (blocks_of u0 ++ groups_blocks gs ++ bs).
Proof.
  intros Hms Hpc Hba Hel Hst. pose proof (ms_elements _ _ _ _ _ _ _ _ Hms) as Hold.
  pose proof (ms_stales _ _ _ _ _ _ _ _ Hms) as Hso. rewrite app_assoc, elements_app, Hold, Hel. split.
  - rewrite (ba_take _ _ _ _ _ _ Hba), (ba_take' _ _ _ _ _ _ Hba).
    by rewrite (piece_merge a batch good_batch _ _ _ _ _ _ _ _ _ Hpc Hba).
  - apply stales_app. split; [|exact Hst]. eapply stales_mono; [exact Hso|]. intros key.
    rewrite blocks_of_app, elements_app, Hel, !keys_app, !elem_of_app, keys_smerge. tauto.
Qed.

(** One task, when it is its turn: its range, its part of the batch, and what it does. *)
Record task_run (i : Z) t t' a1 e m a3 pre es post gs (r : nat) (s' s'' : Sds) (bs : list (list ValueType * list ValueType)) : Prop := {
  tr_next : at_ ts (i + 1) = Some t';
  tr_type : is_type (type t) INSERTION = true;
  tr_piece : piece a batch t t' a1 e m a3;
  tr_batch : batch_around batch t t' pre es post;
  tr_run : (if firstBatchElement t' - firstBatchElement t =? 0
     then copyBlocks s' (mkInterval (blockForBatchSplitter t) (blockForBatchSplitter t')) (mkInterval (start_of i) (start_of (i + 1)))
     else insertBatchRangeOutOfPlace s' batch (mkInterval (firstBatchElement t) (firstBatchElement t'))
            (mkInterval (blockForBatchSplitter t) (blockForBatchSplitter t')) (mkInterval (start_of i) (start_of (i + 1)))) = Ok (s'', zlen bs);
  tr_done : task_done (u0 ++ groups_cells gs) (Z.to_nat (width_of i)) (nulls (r - Z.to_nat (width_of i))) s' s'' (nulls (length a1))
     (length (e :: m)) (a3 ++ nulls (S k)) [] (keys (elements (blocks_of a3)) ++ [keyOfValue zeroValue]) bs (smerge (elements (blocks_of (e :: m))) es);
}.

Lemma move_task i t a1 ar gs (r : nat) mm ts' :
  0 ≤ i < n → at_ ts i = Some t → moved_state i t a1 ar gs r mm ts' →
  ∃ t' e m a3 pre es post s'' bs, ar = (e :: m) ++ a3 ∧
    task_run i t t' a1 e m a3 pre es post gs r (state_of a1 ar gs r mm ts') s'' bs.
Proof.
  intros Hi Ht Hms. destruct (piece_of i Hi) as (t2&t'&b1&e&m&a3&Ht2&Ht'&Hty&Hpc&_&_).
  rewrite Ht in Ht2. injection Ht2 as <-.
  assert (a1 = b1 ∧ ar = (e :: m) ++ a3) as [<- ->].
  { pose proof (pc_cells _ _ _ _ _ _ _ _ Hpc) as Hc. pose proof (pc_left _ _ _ _ _ _ _ _ Hpc) as Hl.
    rewrite (ms_cells _ _ _ _ _ _ _ _ Hms) in Hc. rewrite <-(ms_index _ _ _ _ _ _ _ _ Hms) in Hl.
    apply app_inj_1 in Hc; [done|]. unfold zlen in *. lia. }
  destruct (piece_batch a batch _ _ _ _ _ _ Hpc) as (pre&es&post&Hba).
  destruct (cell_behind _ _ _ _ _ _ _ _ _ Hpc Hba) as (z&w&Hzw&Hz&Hzk).
  pose proof a_ok as Hok. rewrite (pc_cells _ _ _ _ _ _ _ _ Hpc) in Hok. apply Forall_app in Hok as [_ [[_ Hm]%Forall_cons _]%Forall_app].
  pose proof (width_room_ok i t Hi Ht) as [Hw0 Hw]. pose proof (start_next i ltac:(lia)) as Hnext.
  pose proof (start_le (i + 1) n ltac:(lia) ltac:(lia)) as Hle. pose proof (ms_room _ _ _ _ _ _ _ _ Hms) as Hroom.
  pose proof managed_enough as Hmg. rewrite (pc_cells _ _ _ _ _ _ _ _ Hpc), !zlen_app in Hmg. pose proof (zlen_nonneg a3).
  assert (zlen (nulls (length a1)) = zlen a1) as Hnulls by (rewrite zlen_nulls; done).
  set (s' := state_of a1 ((e :: m) ++ a3) gs r mm ts'). set (N := Z.to_nat (width_of i)).
  destruct (part_moved (u0 ++ groups_cells gs) N (nulls (r - N)) (mkInterval (start_of i) (start_of (i + 1)))
    (eq_sym (ms_start _ _ _ _ _ _ _ _ Hms)) s' (nulls (length a1)) e m z w pre es post
    (keys (elements (blocks_of a3)) ++ [keyOfValue zeroValue]) (mkInterval (zlen a1) (zlen a1 + zlen (e :: m)))) as (s''&bs&Hrun&Hdone); try done.
  - unfold s', state_of. cbn [pma set_pma set_swapPma set_sizeManager set_tasks]. by rewrite <-app_assoc, Hzw.
  - apply Hpc.
  - by rewrite Hnulls.
  - apply (ms_counts _ _ _ _ _ _ _ _ Hms).
  - rewrite Hnulls. change (managed s') with (managed (set_sizeManager s1 mm)). rewrite (proj1 (ms_alike _ _ _ _ _ _ _ _ Hms)). lia.
  - change (swapPma s') with (u0 ++ groups_cells gs ++ nulls r). assert (nulls r = nulls N ++ nulls (r - N)) as ->.
    { rewrite nulls_app. f_equal. unfold N. lia. }
    rewrite app_assoc. apply out_cells_start.
  - split; [change (zlen (u0 ++ groups_cells gs) + Z.of_nat N ≤ c)|change (zlen (u0 ++ groups_cells gs) + Z.of_nat N ≤ start_of n)];
      rewrite (ms_start _ _ _ _ _ _ _ _ Hms); unfold N; lia.
  - apply elem_of_app. right. by left.
  - eapply piece_mergeable; [exact Hpc|exact Hba|]. unfold N. lia.
  - exists t', e, m, a3, pre, es, post, s'', bs. split; [done|].
    rewrite <-(ba_batch _ _ _ _ _ _ Hba), (ba_left _ _ _ _ _ _ Hba) in Hrun. split; try done.
    + rewrite <-(ba_left _ _ _ _ _ _ Hba) at 1. rewrite <-(pc_left _ _ _ _ _ _ _ _ Hpc), <-(pc_right _ _ _ _ _ _ _ _ Hpc).
      pose proof (ba_right _ _ _ _ _ _ Hba) as Hr. rewrite zlen_app, (ba_left _ _ _ _ _ _ Hba) in Hr. rewrite Hr in Hrun.
      by rewrite (ba_left _ _ _ _ _ _ Hba).
    + by rewrite Hzw.
Qed.

(** The state behind the task. *)
Lemma moved_next i t t' a1 e m a3 pre es post gs (r : nat) mm ts' s'' bs t1 :
  0 ≤ i < n → moved_state i t a1 ((e :: m) ++ a3) gs r mm ts' →
  task_run i t t' a1 e m a3 pre es post gs r (state_of a1 ((e :: m) ++ a3) gs r mm ts') s'' bs →
  at_ ts i = Some t → t1 = set_startIndex t (start_of i) →
  moved_until (i + 1) (set_tasks s'' (zupd ts' i (set_numberOfBlocksWritten t1 (zlen bs)))).
Proof.
  intros Hi Hms [Ht' Hty Hpc Hba _ ((p&q&mm'&->&Hc&Hm)&Hp&(ents&Hq&Hents&Hlen)&Hel&Hg&Hst)] Ht ->.
  destruct (moved_blocks _ _ _ _ _ _ _ _ _ _ _ _ _ _ _ Hms Hpc Hba Hel Hst) as [Hel' Hst'].
  pose proof Hms as [Hcells Hindex Hcount Hstart Hroom Hcounts Halike Hgs _ Hgood _ Hwrote Hrest Hkinds (t0&Ht0&Hb0)].
  pose proof (width_room_ok i t Hi Ht) as [Hw0 Hw]. pose proof (start_next i ltac:(lia)) as Hnext.
  pose proof (start_le (i + 1) n ltac:(lia) ltac:(lia)) as Hle. set (N := Z.to_nat (width_of i)) in *.
  set (g := mkGroup N ents bs). assert (group_ok g) as Hgo by (by split). pose proof (zlen_group g Hgo) as Hgw. cbn [g_width g] in Hgw.
  destruct (groups_one g) as [Hgc Hgb].
  assert (at_ ts' i = Some (set_startIndex t (start_of i))) as Hti by (rewrite Hrest by lia; by apply started; [lia|]).
  assert (at_ ts' (i + 1) = Some (set_startIndex t' (start_of (i + 1)))) as Hti' by (rewrite Hrest by lia; by apply started; [lia|]).
  pose proof (at_Some_bound _ _ _ Hti) as Hbi.
  exists t', (a1 ++ e :: m), a3, (gs ++ [g]), (r - N)%nat, mm', (zupd ts' i (set_numberOfBlocksWritten (set_startIndex t (start_of i)) (zlen bs))).
  split; [done|]. split.
  - split; rewrite ?groups_cells_app, ?groups_blocks_app, ?Hgc, ?Hgb.
    + rewrite Hcells. by simplify_list_eq.
    + rewrite <-(pc_right _ _ _ _ _ _ _ _ Hpc). zlen.
    + zlen.
    + rewrite app_assoc, zlen_app, Hstart, Hgw. unfold N. lia.
    + unfold N. lia.
    + exact Hc.
    + destruct Halike as [H1 H2], Hm as [H3 H4]. split; [exact (eq_trans H3 H1)|exact (eq_trans H4 H2)].
    + by apply Forall_app; split; [|apply Forall_singleton].
    + exact Hel'.
    + by apply Forall_app.
    + exact Hst'.
    + rewrite <-Hcount. apply (wrote_snoc _ _ g _ (set_startIndex t' (start_of (i + 1)))); rewrite ?Hcount, ?Hstart; try done.
      simpl. unfold N. lia.
    + intros j Hj. rewrite at_zupd_ne by lia. apply Hrest. lia.
    + eapply kinds_trans; [exact Hkinds|]. by eapply kinds_update.
    + destruct (decide (i = 0)) as [->|]; [|exists t0; by rewrite at_zupd_ne by lia].
      rewrite at_zupd_eq by done. eexists. split; [done|]. rewrite Hti in Ht0. injection Ht0 as <-. exact Hb0.
  - unfold state_of. cbn [pma swapPma set_pma set_swapPma set_sizeManager set_tasks] in Hp, Hq. rewrite Hp, Hq.
    rewrite groups_cells_app, Hgc. unfold group_cells. cbn [g_width g_entries g_blocks g]. rewrite <-!app_assoc.
    assert (nulls (length (a1 ++ e :: m)) = nulls (length a1) ++ replicate (length (e :: m)) PmaEntry.null_entry) as ->.
    { by rewrite length_app, <-nulls_app. }
    by rewrite <-!app_assoc.
Qed.

Definition tasks_moved (i : Z) s' : Prop := (i = 0 ∧ s' = s1) ∨ (0 < i ∧ moved_until i s').

Lemma startTask_ok i s' : 0 ≤ i < n → tasks_moved i s' → wp (startTaskOutOfPlace batch (zlen batch) i s') (tasks_moved (i + 1)).
Proof.
  intros Hi Hcase.
  assert (∃ s2, (if i =? 0 then copyFront s' (blockForBatchSplitter t_first) else Ok s') = Ok s2 ∧ moved_until i s2 ∧
    ∀ j, i ≤ j → at_ (tasks s') j = at_ ts1 j) as (s2&Hfront&(t&a1&ar&gs&r&mm&ts'&Ht&Hms&->)&Htasks).
  { destruct Hcase as [[-> ->]|[Hpos Hm]].
    - destruct moved_start as (s2&Hcopy&Hm). by exists s2.
    - destruct (Z.eqb_spec i 0); [lia|]. exists s'. split; [done|]. split; [done|].
      destruct Hm as (t&a1&ar&gs&r&mm&ts'&_&Hms&->). apply (ms_rest _ _ _ _ _ _ _ _ Hms). }
  destruct (move_task i t a1 ar gs r mm ts' Hi Ht Hms) as (t'&e&m&a3&pre&es&post&s''&bs&->&Htr).
  pose proof (started i t ltac:(lia) Ht) as Ht1. pose proof (started (i + 1) t' ltac:(lia) (tr_next _ _ _ _ _ _ _ _ _ _ _ _ _ _ _ Htr)) as Ht1'.
  unfold startTaskOutOfPlace. rewrite (zget_at _ _ _ (eq_trans (Htasks i ltac:(lia)) Ht1)), (zget_at _ _ _ (eq_trans (Htasks (i + 1) ltac:(lia)) Ht1')).
  cbn [mbind result_bind Interval.left Interval.right blockForBatchSplitter firstBatchElement startIndex type set_startIndex].
  assert ((if i =? 0 then copyFront s' (blockForBatchSplitter t) else Ok s') = Ok (state_of a1 ((e :: m) ++ a3) gs r mm ts')) as ->.
  { rewrite <-Hfront. destruct (Z.eqb_spec i 0) as [->|]; [|done]. rewrite first_task in Ht. by injection Ht as <-. }
  cbn [mbind result_bind]. rewrite (tr_type _ _ _ _ _ _ _ _ _ _ _ _ _ _ _ Htr). unfold Interval.length. cbn [Interval.left Interval.right].
  rewrite (tr_run _ _ _ _ _ _ _ _ _ _ _ _ _ _ _ Htr). cbn [mbind result_bind].
  assert (at_ ts' i = Some (set_startIndex t (start_of i))) as Hti by (by rewrite (ms_rest _ _ _ _ _ _ _ _ Hms)).
  destruct (tr_done _ _ _ _ _ _ _ _ _ _ _ _ _ _ _ Htr) as ((p&q&mm'&Hs''&_)&_).
  assert (tasks s'' = ts') as Hts by (by rewrite Hs''). unfold write_task. rewrite Hts, (zget_at _ _ _ Hti). cbn [mbind result_bind].
  rewrite zset_in by (by eapply at_Some_bound). cbn [mbind result_bind wp]. right. split; [lia|]. by eapply moved_next.
Qed.

Lemma tasks_ok : ∃ s', for_range 0 n (startTaskOutOfPlace batch (zlen batch)) s1 = Ok s' ∧ moved_until n s'.
Proof.
  cut (wp (for_range 0 n (startTaskOutOfPlace batch (zlen batch)) s1) (moved_until n)).
  { intros (s'&?&?)%wp_returns. by exists s'. }
  apply (wp_for tasks_moved); [apply startTask_ok|by left|]. intros s'. rewrite Z.max_r by lia. by intros [[? _]|[_ ?]]; [lia|].
Qed.

(** ** Everything together *)

Lemma second_kind ts' : same_kinds ts1 ts' →
  ∃ t0 t1 tl, ts' = t0 :: t1 :: tl ∧ (NDEBUG = true ∨ is_type (type t1) INVERSE_MERGE = false).
Proof.
  intros Hk. destruct (second_task s xs batch n valid n_one n_batch ts good_tasks) as (x0&x1&tl&Hts&Hx1).
  pose proof (kinds_trans _ _ _ kinds Hk) as Hk'. rewrite Hts in Hk'.
  destruct ts' as [|y0 [|y1 tl']]; [discriminate Hk'..|]. injection Hk' as _ Hy _. exists y0, y1, tl'. by rewrite Hy.
Qed.

Lemma all_moved_ok s' :
  moved_until n s' → ∃ gs (r : nat) t0, zlen gs = n ∧ all_moved s' u0 r gs t0 ∧ contents_ok (blocks_of u0 ++ groups_blocks gs) ∧
    elements (blocks_of u0 ++ groups_blocks gs) = smerge (elements xs) batch ∧ same_kinds ts (tasks s').
Proof.
  intros (t&a1&ar&gs&r&mm&ts'&Ht&[Hcells Hindex Hcount Hstart Hroom [HW Hl] [HM HA] Hgs Hel Hg Hst Hwrote Hrest Hkinds (t0&Ht0&Hb0)]&->).
  destruct (it_sentinel _ _ _ _ good_tasks) as (tn&_&Htn&_&Hbn&Hfn&_). rewrite Ht in Htn. injection Htn as <-.
  assert (ar = []) as ->.
  { rewrite Hbn, <-used, Hcells, zlen_app in Hindex. destruct ar as [|? ar]; [done|]. pose proof (zlen_nonneg ar). zlen. }
  rewrite app_nil_r in Hcells. subst a1. rewrite Hfn in Hel. unfold zlen in Hel. rewrite Nat2Z.id, firstn_all, blocks in Hel.
  destruct r as [|r]; [lia|]. exists gs, r, t0. split; [done|]. destruct in_front as [ar Har].
  pose proof a_ok as Hu0. rewrite Har in Hu0. apply Forall_app in Hu0 as [Hu0 _].
  pose proof (va_good _ _ valid) as Hgx. rewrite <-blocks, Har, blocks_of_app in Hgx. apply Forall_app in Hgx as [Hgx _].
  assert (nulls (length a) ++ [] ++ nulls (S k) = nulls (length (pma s))) as Hnulls.
  { simpl app. by rewrite nulls_app, cells, length_app, length_nulls. }
  split; [|split; [|split; [exact Hel|exact (kinds_trans _ _ _ kinds Hkinds)]]].
  - split; try done; unfold state_of; cbn [pma set_tasks set_sizeManager set_swapPma set_pma]; rewrite ?Hnulls.
    + by rewrite length_nulls.
    + rewrite zlen_nulls. apply (va_capacity _ _ valid).
    + change (c = Z.of_nat (length u0 + length (groups_cells gs) + S r)). rewrite Hroom, <-Hstart. unfold zlen. rewrite length_app. lia.
    + intros ->. change (zlen []) with 0 in Hcount. lia.
    + by apply second_kind.
    + change (AggregateWidth mm | c). change (AggregateWidth mm = AggregateWidth (sizeManager s)) in HA. by rewrite HA.
    + apply (va_factor _ _ valid).
  - destruct good_batch as [Hbs Hbn' Hbz]. split.
    + by apply Forall_app.
    + rewrite Hel. apply sorted_smerge, valid.
    + exact Hst.
    + rewrite Hel, keys_smerge. intros [Hk|Hk]; [|done]. by apply (va_null _ _ valid).
    + intros Hnil. rewrite Hnil in Hel. change (elements []) with (@nil ValueType) in Hel.
      pose proof (length_smerge (elements xs) batch) as [Hlen _]. rewrite <-Hel in Hlen. change (zlen []) with 0 in Hlen.
      destruct some. apply no_elements; [apply valid|]. destruct (elements xs) as [|? l]; [done|]. pose proof (zlen_nonneg l). zlen.
Qed.

End loop.

End tasks.

(** ** The whole operation *)

Lemma insertOutOfPlace_ok s xs batch (n : Z) ts :
  valid_array s xs → xs ≠ [] → insertable batch → 1 ≤ n ≤ zlen batch → separate_tasks s batch n ts →
  (AllowInPlaceInserts = true → zlen (elements xs) + zlen batch < 2 ^ 52) →
  ∃ s' xs', insertOutOfPlace (set_tasks s ts) batch (zlen batch) n false = Ok s' ∧ valid_array s' xs' ∧
    elements xs' = smerge (elements xs) batch ∧ same_kinds ts (tasks s').
Proof.
  intros Hv Hne Hins [Hn Hnb] Hsep Hmachine. destruct (va_pma _ _ Hv) as (a&k&Hp&Hs&Ha&Hxs).
  destruct (pieces s xs a k batch n Hv Hne Hp Hs Ha Hxs Hins Hn Hnb ts Hsep 0 ltac:(lia)) as (t&t'&u0&e&m&a3&Ht&_&_&Hpc&_).
  pose proof (pc_left _ _ _ _ _ _ _ _ Hpc) as Hfront.
  assert (∃ ar, a = u0 ++ ar) as Hin by (eexists; apply (pc_cells _ _ _ _ _ _ _ _ Hpc)).
  destruct (starts_ok s xs batch n ts Hv Hn Hsep u0 t Ht Hfront) as (ts1&Hstart&Hkinds&Hstarted).
  assert (0 ≤ start_of s ts u0 n) as Hpos.
  { pose proof (start_le s xs a k batch n ts Hv Hne Hp Hs Ha Hxs Hins Hn Hnb Hsep Hmachine u0 0 n ltac:(lia) ltac:(lia)) as Hle.
    unfold start_of at 1 in Hle. rewrite sum_range_nil in Hle by lia. pose proof (zlen_nonneg u0). lia. }
  destruct (grow_ok s xs ts1 _ Hv Hpos) as (c&Hgrow&Hlt&Hdiv).
  destruct (tasks_ok s xs a k batch n ts Hv Hne Hp Hs Ha Hxs Hins Hn Hnb Hsep Hmachine u0 t Ht Hfront Hin ts1 c Hstarted Hlt) as (s1&Htasks&Hmoved).
  destruct (all_moved_ok s xs a k batch n ts Hv Hne Hp Hs Ha Hxs Hins Hn Hnb Hsep Hmachine u0 Hin ts1 c Hlt Hdiv Hkinds s1 Hmoved)
    as (gs&r&t0&Hgs&Hall&Hok&Hel&Hkinds').
  destruct (rewriting_finishes s1 u0 r gs t0 Hall Hok) as (s'&Hfinish&Hv'&Hts'). rewrite Hgs in Hfinish.
  exists s', (blocks_of u0 ++ groups_blocks gs). split; [|split; [done|split; [done|by rewrite Hts']]].
  unfold insertOutOfPlace. rewrite Hstart. cbn [mbind result_bind]. rewrite Hgrow. cbn [mbind result_bind].
  rewrite Htasks. cbn [mbind result_bind]. exact Hfinish.
Qed.

(** A batch whose splitters are in different blocks, either way. *)
Lemma insertBatch_distinct s xs batch (n : Z) :
  valid_array s xs → xs ≠ [] → insertable batch → 1 ≤ n ≤ MaxThreads → n ≤ zlen batch → n < zlen (tasks s) →
  NDEBUG = true ∨ (∀ key, key ∈ keys batch → NULL_KEY ≤ key) →
  NDEBUG = true ∨ (∀ t, at_ (tasks s) n = Some t → is_type (type t) INVERSE_MERGE = false) →
  (AllowInPlaceInserts = true → zlen (elements xs) + zlen batch < 2 ^ 52) → distinct_splitters s batch n →
  ∃ s' xs', insertBatch s batch (zlen batch) n = Ok s' ∧ valid_array s' xs' ∧ elements xs' = smerge (elements xs) batch ∧
    clean (tasks s) (tasks s').
Proof.
  intros Hv Hne Hins Hn Hnb Htasks Hkeys Hsent Hmachine Hdist. destruct (va_pma _ _ Hv) as (a&k&Hp&Hs&Ha&Hxs).
  destruct (prepare_distinct s xs a k batch n Hv Hne Hp Hs Ha Hxs Hins (proj1 Hn) Hnb Hdist Htasks Hsent)
    as (ts&fits&Hprep&Hsep&Hclean&Hfit).
  rewrite (insertBatch_prepared _ _ _ _ _ _ (sorted_nondecreasing _ (in_sorted _ Hins)) Hkeys (proj2 Hn) Hnb Hprep).
  destruct fits.
  - destruct (insertInPlace_ok s xs a k batch n ts Hv Hne Hp Hs Ha Hxs Hins (proj1 Hn) Hnb Hsep (Hfit eq_refl)) as (s'&xs'&Hdone&Hv'&Hel&_&_&_&Hts).
    exists s', xs'. split_and!; try done. by rewrite Hts.
  - destruct (insertOutOfPlace_ok s xs batch n ts Hv Hne Hins (conj (proj1 Hn) Hnb) Hsep Hmachine) as (s'&xs'&Hdone&Hv'&Hel&Hkinds).
    exists s', xs'. split_and!; try done. by eapply clean_trans; [exact Hclean|apply kinds_clean].
Qed.

End out_of_place.
