(* ===== verification/GbpmaClient.v ===== *)
(** * Inserting a batch with one thread

    Into a filled array it is a batch whose splitters, there is only one, are in different
    blocks.  An empty array has no block to start from: its first batch fills new blocks.
    The constructed array is valid. *)

From S2P Require Export GbpmaOutBatch.
Import BlockSeq OverallocatedBatchedSparseArray OverallocatedInsertion OverallocatedDistribution.
Import PmaEntry(PmaEntry).

Section one_thread.
Context `{T : SdsTypes} `{C : BlockConfig} `{O : OverallocationConfig}.
Context `{BC : !BlockConfigOk} `{HB : !HalfBlocks} `{FM : !FasterMergeOk}.
Implicit Types (s : Sds) (e z : PmaEntry) (u w a m : list PmaEntry) (v : ValueType).
Implicit Types (batch l es pre post : list ValueType).
Implicit Types (xs : list (list ValueType * list ValueType)).

(** Widths are converted to [double], where 53 bits are exact. *)
Definition fits_machine xs batch : Prop :=
  AllowInPlaceInserts = true → zlen (elements xs) + zlen batch < 2 ^ 52.

(** One thread has its task and the entry behind it. *)
Lemma only_thread s xs : valid_array s xs →
  1 < zlen (tasks s) ∧ (NDEBUG = true ∨ ∀ t, at_ (tasks s) 1 = Some t → is_type (type t) INVERSE_MERGE = false).
Proof.
  intros Hv. destruct (va_tasks _ _ Hv) as (t0&t1&ts&->&Hsent). split; [pose proof (zlen_nonneg ts); zlen|].
  destruct Hsent as [?|Hty]; [by left|right]. intros t [= <-]. done.
Qed.

(** ** The first batch

    It goes into an empty array, through the second array; the only task fills its part
    with new blocks. *)

Section first_batch.
Variables (s : Sds) (k : nat) (v : ValueType) (es : list ValueType).
Let batch := v :: es.
Hypothesis (valid : valid_array s []) (cells : pma s = nulls (S k)).
Hypothesis (good_batch : insertable batch) (large : MinSize ≤ zlen batch).

Lemma empty_size : size s = 0.
Proof. by apply (va_some _ _ valid). Qed.

Lemma empty_search : findBlockIndex s (keyOfValue v) = Ok 0.
Proof.
  destruct (locate s [] (keyOfValue v) valid) as (u&m&k'&Hi&_&_&_&_&Hxs&_&[[-> _]|(e&m'&->&He&_)]); [done|].
  destruct (head_first e m' He) as (x&l&Hx&_). symmetry in Hxs. apply app_nil in Hxs as [_ Hxs]. by rewrite Hxs in Hx.
Qed.

Lemma empty_splitter :
  splitterBlock s batch (zlen batch ÷ 1) 0 = Ok 0 ∧
  ∃ first : Z, splitterElement s batch (zlen batch ÷ 1) 0 0 = Ok first ∧ 0 ≤ first ≤ 1.
Proof.
  split; [exact empty_search|]. unfold splitterElement, OverallocatedBatchedSparseArray.head. rewrite cells.
  change (zget (nulls (S k)) 0) with (Ok PmaEntry.null_entry). cbn [mbind result_bind].
  pose proof (countBelow_bounds batch (PmaEntry.head PmaEntry.null_entry)).
  rewrite walkDown_ok; [eexists; split; [done|]; lia| |].
  - apply sorted_nondecreasing, good_batch.
  - unfold batch. pose proof (zlen_nonneg es). zlen.
Qed.

Lemma empty_count : getNumberOfElements s 0 0 = Ok 0.
Proof. apply (numberOfElements_range s [] [] [] (nulls (S k)) valid cells); [by rewrite empty_size|constructor]. Qed.

Lemma empty_prepare :
  NDEBUG = true ∨ (∀ t, at_ (tasks s) 1 = Some t → is_type (type t) INVERSE_MERGE = false) → 1 < zlen (tasks s) →
  ∃ ts fits, prepare s batch (zlen batch) 1 = Ok (set_tasks s ts, false, fits) ∧ separate_tasks s batch 1 ts ∧
    clean (tasks s) ts ∧ (fits = true → tasks_fit 1 ts).
Proof.
  intros Hdebug Hn. destruct empty_splitter as (Hb&first&He&Hfirst). pose proof MinSize_two.
  apply prepare_found; [done|intros i Hi; lia| |done|done]. apply findTasks_kept; [done|done|].
  intros i ts Hi Hts. assert (i = 0) as -> by lia.
  assert (∃ width, maxRedistributionWidth 0 (zlen batch - first) = Ok width) as [width Hw].
  { unfold maxRedistributionWidth. rewrite assert_ok; [by eexists|]. apply andb_true_intro. split; apply Z.leb_le; lia. }
  apply (findTask_kept s batch 1 0 0 first 0 (zlen batch) 0 width ts); [lia|exact Hb|exact He| |exact empty_count|exact Hw].
  simpl. by rewrite empty_size.
Qed.

(** The only task, and the entry behind it. *)
Lemma empty_task ts : separate_tasks s batch 1 ts →
  ∃ t t', at_ ts 0 = Some t ∧ at_ ts 1 = Some t' ∧ is_type (type t) INSERTION = true ∧
    blockForBatchSplitter t = 0 ∧ blockForBatchSplitter t' = 0 ∧ firstBatchElement t = 0 ∧ firstBatchElement t' = zlen batch ∧
    (∀ q, q * MinSize ≤ zlen batch → q ≤ requiredWidth t) ∧ 0 < requiredWidth t ≤ zlen batch + 1.
Proof.
  intros Hsep. destruct empty_splitter as (Hb&first&He&Hfirst). pose proof MinSize_two.
  destruct (it_task _ _ _ _ Hsep 0) as (t0&t&t'&[Hb0 Hf0 (nb&nf&x&Hnext&Hx&Hw)]&Ht&Ht'&Hty&Hbt&Hft&Hreq&_); [lia|].
  destruct (it_sentinel _ _ _ _ Hsep) as (tn&_&Htn&_&Hbn&Hfn&_). change (0 + 1) with 1 in Ht'. rewrite Htn in Ht'. injection Ht' as <-.
  rewrite Hb0 in Hb. injection Hb as Hb. rewrite Hb in *. rewrite Hf0 in He. injection He as <-.
  destruct Hnext as [-> ->]. rewrite empty_size in Hx, Hbn. rewrite empty_count in Hx. injection Hx as <-.
  assert (∀ q, q * MinSize ≤ zlen batch → q ≤ requiredWidth t) as Hroom.
  { intros q Hq. rewrite Hreq. eapply width_room; [exact Hw|lia|reflexivity|lia]. }
  exists t, tn. split_and!; try done; [specialize (Hroom 1); lia|]. rewrite Hreq. apply width_bound in Hw; lia.
Qed.

(** It writes the blocks of the batch. *)
Lemma fill_task ts t t' (W : Z) (r : nat) s' :
  at_ ts 0 = Some t → at_ ts 1 = Some t' → is_type (type t) INSERTION = true →
  blockForBatchSplitter t = 0 → blockForBatchSplitter t' = 0 → firstBatchElement t = 0 → firstBatchElement t' = zlen batch →
  startIndex t = 0 → startIndex t' = W → 0 < W → (∀ q, q * MinSize ≤ zlen batch → q ≤ W) →
  s' = with_swap (set_tasks s ts) (W + Z.of_nat (S r)) W →
  ∃ g, g_width g = Z.to_nat W ∧ group_ok g ∧ elements (g_blocks g) = batch ∧ Forall (λ x, good_size x.1) (g_blocks g) ∧
    stales [keyOfValue zeroValue] (g_blocks g) ∧
    startTaskOutOfPlace batch (zlen batch) 0 s' = Ok (set_tasks (set_swapPma s' (group_cells g ++ nulls (S r)))
      (zupd ts 0 (set_numberOfBlocksWritten t (zlen (g_blocks g))))).
Proof.
  intros Ht Ht' Hty Hb Hb' Hf Hf' Hs Hs' HW Hroom ->. destruct good_batch as [Hbs Hbn Hbz]. set (s1 := with_swap _ _ _).
  set (N := Z.to_nat W). assert (Z.of_nat N = W) as HN by (unfold N; lia).
  assert (swapPma s1 = [] ++ replicate N PmaEntry.null_entry ++ nulls (S r)) as Hswap.
  { change (nulls (Z.to_nat (W + Z.of_nat (S r))) = nulls N ++ nulls (S r)). rewrite nulls_app. f_equal. lia. }
  destruct (insertIntoEmptyRange_swap s1 [] N (nulls (S r)) []) with (pmaOutputRange := mkInterval 0 W)
    (pre := @nil ValueType) (es := batch) (post := @nil ValueType) as (cs&bs&Hfill&(ents&Hcs&Hents&Hlen)&Hel&Hg&Hst); try done.
  - split; change (zlen (@nil PmaEntry)) with 0; [change (0 + Z.of_nat N ≤ W + Z.of_nat (S r))|change (0 + Z.of_nat N ≤ W)]; lia.
  - intros q Hq. change (zlen (@nil (list ValueType * list ValueType))) with 0. specialize (Hroom q Hq). lia.
  - rewrite Hswap. apply out_cells_start.
  - rewrite app_nil_r in Hfill. change (zlen (@nil ValueType)) with 0 in Hfill. rewrite Z.add_0_l in Hfill. simpl app in Hfill, Hcs, Hents, Hlen.
    change (zlen (@nil (list ValueType * list ValueType))) with 0 in Hfill.
    assert (0 < zlen batch) as Hpos by (unfold batch; pose proof (zlen_nonneg es); zlen).
    exists (mkGroup N ents bs). split_and!; try done. unfold startTaskOutOfPlace. cbn [tasks s1 with_swap set_size set_swapPma set_swapCapacity set_tasks].
    change (0 + 1) with 1. rewrite (zget_at _ _ _ Ht), (zget_at _ _ _ Ht'). cbn [mbind result_bind Interval.left Interval.right]. rewrite Z.eqb_refl, Hb, Hb', Hf, Hf', Hs, Hs'.
    unfold copyFront. rewrite for_range_nil by lia. cbn [mbind result_bind]. rewrite Hty. unfold Interval.length at 1. cbn [Interval.left Interval.right].
    destruct (Z.eqb_spec (zlen batch - 0) 0); [lia|].
    unfold insertBatchRangeOutOfPlace, Interval.length. cbn [Interval.left Interval.right]. rewrite Z.sub_diag, Z.eqb_refl.
    rewrite AssertM_ok by done. cbn [mbind result_bind]. unfold findNext, Search.findNext, Search.skipEmpty.
    rewrite while_exit by done. cbn [mbind result_bind]. rewrite while_exit by done. cbn [mbind result_bind].
    rewrite Hfill. cbn [mbind result_bind]. unfold write_task. cbn [tasks s1 with_swap set_size set_swapPma set_swapCapacity set_tasks].
    rewrite (zget_at _ _ _ Ht). cbn [mbind result_bind]. rewrite zset_in by (by eapply at_Some_bound). cbn [mbind result_bind].
    rewrite Hcs. unfold group_cells. cbn [g_entries g_width g_blocks]. by rewrite <-app_assoc.
Qed.

Lemma insertOutOfPlace_empty ts :
  separate_tasks s batch 1 ts → (AllowInPlaceInserts = true → zlen batch < 2 ^ 52) →
  ∃ s' xs', insertOutOfPlace (set_tasks s ts) batch (zlen batch) 1 false = Ok s' ∧ valid_array s' xs' ∧
    elements xs' = batch ∧ same_kinds ts (tasks s').
Proof.
  intros Hsep Hmachine. destruct (empty_task ts Hsep) as (t&t'&Ht&Ht'&Hty&Hb&Hb'&Hf&Hf'&Hroom&Hw).
  destruct (starts_ok s [] batch 1 ts valid ltac:(lia) Hsep [] t Ht ltac:(by rewrite Hb)) as (ts1&Hstart&Hkinds&Hstarted).
  set (W := start_of s ts [] 1) in *.
  assert (W = overallocatedWidth s (requiredWidth t)) as HWt.
  { unfold W, start_of, width_of. change 1 with (0 + 1). rewrite sum_range_snoc, sum_range_nil, Ht by lia. change (zlen (@nil PmaEntry)) with 0. lia. }
  assert (requiredWidth t ≤ W) as Hle.
  { rewrite HWt. apply overallocatedWidth_bounds; [apply (va_factor _ _ valid)| |lia]. intros Ha. specialize (Hmachine Ha).
    change (2 ^ 53) with (2 * 2 ^ 52). lia. }
  destruct (grow_ok s [] ts1 W valid ltac:(lia)) as (c&Hgrow&Hlt&Hdiv).
  assert (∃ r : nat, c = W + Z.of_nat (S r)) as [r ->] by (exists (Z.to_nat (c - W - 1)); lia).
  pose proof (Hstarted 0 t ltac:(lia) Ht) as Ht1. pose proof (Hstarted 1 t' ltac:(lia) Ht') as Ht1'. fold W in Ht1'.
  destruct (fill_task ts1 _ _ W r (with_swap (set_tasks s ts1) (W + Z.of_nat (S r)) W) Ht1 Ht1' Hty Hb Hb' Hf Hf')
    as (g&Hgw&Hgo&Hel&Hg&Hst&Hrun); try done; [lia|intros q Hq; specialize (Hroom q Hq); lia|].
  destruct (groups_one g) as [Hgc Hgb]. pose proof (zlen_group g Hgo) as Hlen. rewrite Hgw in Hlen.
  set (s1 := set_tasks (set_swapPma _ _) _) in Hrun. pose proof (va_manager _ _ valid) as [(HW0&HL&_) _].
  destruct (rewriting_finishes s1 [] r [g] (set_numberOfBlocksWritten (set_startIndex t (start_of s ts [] 0)) (zlen (g_blocks g)))) as (s'&Hfin&Hv'&Hts').
  - split; try done; rewrite ?Hgc.
    + change (pma s = nulls (length (pma s))). by rewrite cells, length_nulls.
    + apply (va_capacity _ _ valid).
    + change (W + Z.of_nat (S r) = Z.of_nat (0 + length (group_cells g) + S r)). unfold zlen in Hlen. lia.
    + reflexivity.
    + change (W = zlen (group_cells g)). lia.
    + apply (at_zupd_eq _ 0). by eapply at_Some_bound.
    + intros [|? gs1] g' gs2 Hgs; [|by destruct gs1]. injection Hgs as <- _. eexists _, _.
      split; [apply (at_zupd_eq _ 0); by eapply at_Some_bound|].
      split; [etrans; [apply (at_zupd_ne _ 0 1); done|exact Ht1']|].
      rewrite Hgw. split_and!; [done|change (W = 0 + Z.of_nat (Z.to_nat W)); lia|done].
    + apply (second_kind s [] batch 1 ts valid ltac:(lia) ltac:(pose proof MinSize_two; lia) Hsep ts1 Hkinds). by eapply kinds_update.
    + by apply Forall_singleton.
    + apply (va_factor _ _ valid).
  - rewrite Hgb. destruct good_batch as [Hbs Hbn Hbz]. split; try done; simpl app; rewrite ?Hel; try done.
    intros Hnil. simpl in Hnil. rewrite Hnil in Hel. done.
  - change (zlen [g]) with 1 in Hfin. exists s', (blocks_of [] ++ groups_blocks [g]). split; [|split; [done|split]].
    + unfold insertOutOfPlace. rewrite Hstart. cbn [mbind result_bind]. fold W. rewrite Hgrow. cbn [mbind result_bind].
      rewrite for_range_once, Hrun by lia. cbn [mbind result_bind]. exact Hfin.
    + by rewrite Hgb.
    + rewrite Hts'. eapply kinds_trans; [exact Hkinds|]. by eapply kinds_update.
Qed.

(** It does not fit into no cells. *)
Lemma insertBatch_empty :
  NDEBUG = true ∨ (∀ key, key ∈ keys batch → NULL_KEY ≤ key) →
  (AllowInPlaceInserts = true → zlen batch < 2 ^ 52) → 1 ≤ MaxThreads →
  ∃ s' xs', insertBatch s batch (zlen batch) 1 = Ok s' ∧ valid_array s' xs' ∧ elements xs' = batch ∧ clean (tasks s) (tasks s').
Proof.
  intros Hkeys Hmachine Hthreads. destruct (only_thread s [] valid) as [Hn Hsent].
  destruct (empty_prepare Hsent Hn) as (ts&fits&Hprep&Hsep&Hclean&Hfit). pose proof MinSize_two.
  rewrite (insertBatch_prepared _ _ _ _ _ _ (sorted_nondecreasing _ (in_sorted _ good_batch)) Hkeys Hthreads ltac:(lia) Hprep).
  destruct fits.
  - destruct (empty_task ts Hsep) as (t&t'&Ht&Ht'&_&Hb&Hb'&_&_&_&Hw&_).
    pose proof (Hfit eq_refl 0 t t' ltac:(lia) Ht Ht'). lia.
  - destruct (insertOutOfPlace_empty ts Hsep Hmachine) as (s'&xs'&Hdone&Hv'&Hel&Hkinds).
    exists s', xs'. split_and!; try done. eapply clean_trans; [exact Hclean|by apply kinds_clean].
Qed.

End first_batch.

(** ** One thread *)

Lemma insertBatch_one s xs batch :
  valid_array s xs → insertable batch → batch ≠ [] → (xs = [] → MinSize ≤ zlen batch) →
  fits_machine xs batch → 1 ≤ MaxThreads →
  NDEBUG = true ∨ (∀ k, k ∈ keys batch → NULL_KEY ≤ k) →
  ∃ s' xs', insertBatch s batch (zlen batch) 1 = Ok s' ∧ valid_array s' xs' ∧
    elements xs' = smerge (elements xs) batch ∧ clean (tasks s) (tasks s').
Proof.
  intros Hv Hins Hne Hmin Hmachine Hthreads Hkeys. destruct (only_thread s xs Hv) as [Hn Hsent].
  destruct batch as [|v es]; [done|]. assert (1 ≤ zlen (v :: es)) as Hone by (pose proof (zlen_nonneg es); zlen).
  destruct (decide (xs = [])) as [->|Hsome].
  - destruct (va_pma _ _ Hv) as (u&k&Hp&Hs&_&_). rewrite (va_some _ _ Hv eq_refl) in Hs.
    assert (u = []) as -> by (destruct u as [|? u]; [done|]; pose proof (zlen_nonneg u); zlen).
    destruct (insertBatch_empty s k v es Hv Hp Hins (Hmin eq_refl) Hkeys) as (s'&xs'&Hdone&Hv'&Hel&Hclean); try done.
    exists s', xs'. split_and!; try done. rewrite Hel. symmetry. apply smerge_empty, Hins.
  - apply insertBatch_distinct; try done. intros i Hi. lia.
Qed.

(** ** The empty array *)

Context `{M : TaskMemory}.

(** With assertions compiled, [validateTaskDistribution] reads the type of the sentinel task,
    which nobody has written after the constructor; the assertion behind it may fail if the
    memory happens to hold [INVERSE_MERGE] there. *)
Definition benign_memory : Prop :=
  NDEBUG = true ∨ ∀ i, is_type (type (uninitializedTask i)) INVERSE_MERGE = false.

Lemma nulls_sizes (n : nat) i : size_at (mkSizeView 0 (PmaEntry.size <$> nulls n)) i = 0.
Proof.
  unfold size_at, nulls. simpl. rewrite fmap_replicate. unfold at_. destruct (0 <=? i); [|done].
  destruct (replicate _ _ !! _) eqn:Hl; [|done]. by apply lookup_replicate in Hl as [-> _].
Qed.

Lemma create_manager : manager_valid create.
Proof.
  split; [split_and!|].
  - done.
  - done.
  - cbn [sizeView create sds_blockSizes pma size]. unfold null_entries. fold (nulls (Z.to_nat InitialArrayCapacity)).
    unfold zlen. rewrite length_fmap, length_nulls. done.
  - intros i Hi. change (0 ≤ i < 1) in Hi. assert (i = 0) as -> by lia. unfold aggregate_sum.
    rewrite sum_range_zero; [done|]. intros i _. apply nulls_sizes.
Qed.

Lemma create_valid : 1 ≤ MaxThreads → benign_memory → valid_array create [].
Proof.
  intros Hthreads Hmem. destruct (uninitializedTasks_two MaxThreads Hthreads) as [ts Hts].
  assert (pma create = nulls (Z.to_nat InitialArrayCapacity)) as Hp by done.
  split.
  - exists [], (Z.to_nat InitialArrayCapacity - 1)%nat. rewrite Hp. split_and!; [done|done|constructor|done].
  - by rewrite Hp, zlen_nulls.
  - rewrite Hp, length_nulls. done.
  - done.
  - constructor.
  - constructor.
  - done.
  - intros ?%elem_of_nil. done.
  - done.
  - apply create_manager.
  - done.
  - by exists 64.
  - eexists _, _, ts. split; [exact Hts|]. destruct Hmem as [?|Hty]; [by left|by right].
  - done.
Qed.

(** ** Several threads

    The tasks of all threads, none of them left over from a merge. *)
Definition threads_ready s : Prop :=
  zlen (tasks s) = MaxThreads + 1 ∧ (NDEBUG = true ∨ no_inverse (tasks s)).

Lemma ready_clean s s' : threads_ready s → clean (tasks s) (tasks s') → threads_ready s'.
Proof. intros [Hn Hno] [Hlen Hclean]. split; [congruence|]. destruct Hno as [?|?]; [by left|right; auto]. Qed.

Lemma create_ready : 0 ≤ MaxThreads → benign_memory → threads_ready create.
Proof.
  intros Hthreads Hmem. split; [apply uninitializedTasks_length; lia|]. destruct Hmem as [?|Hty]; [by left|right].
  intros i t [_ Ht]%at_lookup. apply list_elem_of_lookup_2, uninitializedTasks_in in Ht as [k ->]. apply Hty.
Qed.

Lemma insertBatch_threads s xs batch (n : Z) :
  valid_array s xs → threads_ready s → xs ≠ [] → insertable batch → fits_machine xs batch →
  NDEBUG = true ∨ (∀ k, k ∈ keys batch → NULL_KEY ≤ k) →
  1 ≤ n ≤ MaxThreads → n ≤ zlen batch → distinct_splitters s batch n →
  ∃ s' xs', insertBatch s batch (zlen batch) n = Ok s' ∧ valid_array s' xs' ∧ threads_ready s' ∧
    elements xs' = smerge (elements xs) batch.
Proof.
  intros Hv Hr Hne Hins Hmachine Hkeys Hn Hnb Hdist. pose proof Hr as [Hlen Hno].
  destruct (insertBatch_distinct s xs batch n) as (s'&xs'&Hdone&Hv'&Hel&Hclean); try done; [lia| |].
  - destruct Hno as [?|Hno]; [by left|right]. apply Hno.
  - exists s', xs'. split_and!; try done. by eapply ready_clean.
Qed.

End one_thread.

(** * A client of the overallocated array

    It inserts batches one after the other, each with a single thread, from the constructor
    on.  What a batch must satisfy, and the contents of the array after a sequence of them. *)

Import BlockSeq OverallocatedBatchedSparseArray OverallocatedDistribution.

Section client.
Context `{T : SdsTypes} `{C : BlockConfig} `{O : OverallocationConfig}.
Context `{BC : !BlockConfigOk} `{HB : !HalfBlocks} `{FM : !FasterMergeOk}.
Implicit Types (s : Sds) (batch : list ValueType) (xs : list (list ValueType * list ValueType)).

(** A client that inserts batches. *)
Definition insertBatches (batches : list (list ValueType)) s : result Sds :=
  foldr (λ batch rest s, s ← insertBatch s batch (zlen batch) 1; rest s) Ok batches s.

(** What it may insert. *)
Definition good_batch batch : Prop :=
  insertable batch ∧ batch ≠ [] ∧ (NDEBUG = true ∨ ∀ k, k ∈ keys batch → NULL_KEY ≤ k).

Lemma insertBatches_ok batches s xs :
  fits_machine xs (concat batches) → 1 ≤ MaxThreads → Forall good_batch batches → valid_array s xs →
  (xs = [] → ∀ b, batches !! 0%nat = Some b → MinSize ≤ zlen b) →
  ∃ s' xs', insertBatches batches s = Ok s' ∧ valid_array s' xs' ∧ elements xs' = foldl smerge (elements xs) batches.
Proof.
  intros Hfits Hthreads Hb. revert s xs Hfits. induction Hb as [|b bs (Hins&Hne&Hk) Hbs IH]; intros s xs Hfits Hv Hmin.
  - by exists s, xs.
  - destruct (insertBatch_one s xs b) as (s1&xs1&Hi&Hv1&Hel&_); try done.
    { intros Hx. by apply (Hmin Hx). }
    { intros Ha. specialize (Hfits Ha). simpl in Hfits. rewrite zlen_app in Hfits. pose proof (zlen_nonneg (concat bs)). lia. }
    destruct (IH s1 xs1) as (s'&xs'&Hr&Hv'&Hel').
    { intros Ha. specialize (Hfits Ha). simpl in Hfits. rewrite zlen_app in Hfits. rewrite Hel.
      pose proof (length_smerge (elements xs) b). lia. }
    { done. }
    { intros Hx. exfalso. subst xs1. destruct b as [|v b]; [done|].
      assert (keyOfValue v ∈ keys (smerge (elements xs) (v :: b))) as Hin.
      { apply keys_smerge. right. apply elem_of_keys_cons. by left. }
      rewrite <-Hel in Hin. by apply elem_of_nil in Hin. }
    exists s', xs'. unfold insertBatches. simpl. rewrite Hi. cbn [mbind result_bind].
    split; [exact Hr|]. split; [done|]. by rewrite Hel', Hel.
Qed.

Lemma insertBatches_create `{M : TaskMemory} (batches : list (list ValueType)) :
  fits_machine [] (concat batches) → 1 ≤ MaxThreads → benign_memory → Forall good_batch batches →
  (∀ b, batches !! 0%nat = Some b → MinSize ≤ zlen b) →
  ∃ s xs, insertBatches batches create = Ok s ∧ valid_array s xs ∧ elements xs = foldl smerge [] batches.
Proof. intros Hfits Hthreads Hmem Hb Hmin. by apply (insertBatches_ok batches create [] Hfits Hthreads Hb (create_valid Hthreads Hmem)). Qed.
End client.
