(* ===== verification/Generator.v ===== *)
(** * Generators of the benchmark inputs (helpers/randomDistributions.hpp,
    helpers/zipfian_int_distribution.h, helpers/definitions.hpp, helpers/configuration.hpp,
    helpers/inputGenerator.hpp, helpers/operationsGenerator.hpp, helpers/prefillGenerator.hpp)

    The random engine and the distributions of the standard library, whose sequences the
    standard does not fix, are a parameter, as is [std::pow].  Memory obtained by [malloc] is
    a list.  Keys are those of the benchmark, [std::uint64_t]: converting a [double] to a key
    can be undefined. *)

From S2P Require Export Keys Types Float64.

(** ** The standard library *)

Class RandomSource := {
  RandomEngine : Type;
  seeded : Z → RandomEngine;
  uniform_int : Z → Z → RandomEngine → Z * RandomEngine;
  NormalState : Type;
  normal_init : NormalState;
  normal : double → double → NormalState → RandomEngine → double * (NormalState * RandomEngine);
  generate_canonical : RandomEngine → double * RandomEngine;
  discrete : list double → RandomEngine → Z * RandomEngine;
  pow : double → double → double;
}.

(** The weights of [std::discrete_distribution] must be neither negative nor infinite nor NaN,
    and one of them positive. *)
Definition is_positive (w : double) : bool := dltb (to_double 0) w.
Definition is_weight (w : double) : bool := is_finite w && negb (dltb w (to_double 0)).
Definition discrete_weights (ws : list double) : Prop := Forall is_weight ws ∧ Exists is_positive ws.

(** [std::uniform_int_distribution] and [std::discrete_distribution] stay in their range. *)
Class RandomLaws `{RandomSource} : Prop := {
  uniform_range : ∀ lo hi rng, lo ≤ hi → lo ≤ (uniform_int lo hi rng).1 ≤ hi;
  discrete_index : ∀ ws rng, discrete_weights ws → ∃ w, at_ ws (discrete ws rng).1 = Some w ∧ is_positive w;
}.

(** [n] elements from [f], which changes the state. *)
Definition generate {St A} (n : Z) (f : St → result (A * St)) (s : St) : result (list A * St) :=
  for_range 0 n (λ _ '(l, s), '(a, s) ← f s; Ok (l ++ [a], s)) ([], s).

(** [std::sort], ascending and with [std::greater], and [std::unique] with [==]. *)
Definition std_sort (l : list Z) : list Z := merge_sort Z.le l.
Definition std_sort_greater (l : list Z) : list Z := merge_sort Z.ge l.
Fixpoint unique_after (k : Z) (l : list Z) : list Z :=
  match l with
  | [] => []
  | x :: l => if x =? k then unique_after k l else x :: unique_after x l
  end.
Definition std_unique (l : list Z) : list Z :=
  match l with [] => [] | x :: l => x :: unique_after x l end.

(** ** Distributions of keys *)

Inductive KeyDistribution :=
| UNIFORM | SKEWED_UNIFORM | NORMAL | DENSE_NORMAL | ZIPF | ASCENDING | DESCENDING
| ASCENDING_STAR | DESCENDING_STAR | numberOfKeyDistributions.

Module Zipfian.
Section definitions.
Context `{RandomSource}.

Record param_type := mkParam { a : Z; b : Z; theta : double; zeta : double; zeta2theta : double }.

(** The loop of [param_type::zeta] and of [ZipfDistribution::computeZeta]. *)
Definition zetaSum (n : Z) (theta : double) : double :=
  foldl (λ ans i, dadd ans (pow (ddiv (to_double 1) (to_double i)) theta)) (to_double 0) (seqZ 1 n).

(** [param_type(a, b, theta, zeta)]. *)
Definition create (a b : Z) (theta zeta : double) : param_type :=
  mkParam a b theta zeta (zetaSum 2 theta).

(** [operator()]. *)
Definition draw (p : param_type) (rng : RandomEngine) : result (Z * RandomEngine) :=
  let one := to_double 1 in
  let alpha := ddiv one (dsub one (theta p)) in
  let width := to_double (u64 (b p - a p + 1)) in
  let eta := ddiv (dsub one (pow (ddiv (to_double 2) width) (dsub one (theta p))))
                  (dsub one (ddiv (zeta2theta p) (zeta p))) in
  let '(u, rng) := generate_canonical rng in
  let uz := dmul u (zeta p) in
  if dltb uz one then Ok (a p, rng)
  else if dltb uz (dadd one (pow (literal 5 10) (theta p))) then Ok (u64 (a p + 1), rng)
  else k ← to_uint64 (dadd (to_double (a p)) (dmul width (pow (dadd (dsub (dmul eta u) eta) one) alpha))); Ok (k, rng).
End definitions.
End Zipfian.

Module ZipfDistribution.
Section definitions.
Context `{RandomSource}.

Definition Theta : double := literal 99 100.

(** The initial content of [precomputedZetaValues]. *)
Definition precomputedZetaValues : gmap Z double :=
  list_to_map [(1000, literal 772895 100000); (10000, literal 102244 10000); (50000, literal 120033 10000);
    (100000, literal 127783 10000); (1000000, literal 153918 10000); (10000000, literal 180662 10000);
    (100000000, literal 208029 10000); (1000000000, literal 236034 10000); (10000000000, literal 26469 1000);
    (100000000000, literal 294014 10000); (1000000000000, literal 324022 10000); (10000000000000, literal 354726 10000)].

Definition getZeta (zetas : gmap Z double) (minKey maxKey : Z) : double * gmap Z double :=
  match zetas !! maxKey with
  | Some zeta => (zeta, zetas)
  | None => let zeta := Zipfian.zetaSum (u64 (maxKey - minKey + 1)) Theta in (zeta, <[maxKey := zeta]> zetas)
  end.

Definition create (zetas : gmap Z double) (minKey maxKey : Z) : Zipfian.param_type * gmap Z double :=
  let '(zeta, zetas) := getZeta zetas minKey maxKey in (Zipfian.create minKey maxKey Theta zeta, zetas).
End definitions.
End ZipfDistribution.

(** [NormalDistribution] and [DenseNormalDistribution]. *)
Module NormalDistribution.
Section definitions.
Context `{RandomSource}.

Definition MeanPosition : double := literal 5 10.
Definition RelativeStandardDeviation : double := literal 2 100.
Definition DenseRelativeStandardDeviation : double := literal 2 1000.

Record NormalDistribution := mkNormal { min : Z; max : Z; mean : double; deviation : double; saved : NormalState }.

Definition create (relativeDeviation : double) (minKey maxKey : Z) : NormalDistribution :=
  let width := to_double (u64 (maxKey - minKey)) in
  mkNormal minKey maxKey (dadd (to_double minKey) (dmul MeanPosition width)) (dmul relativeDeviation width) normal_init.

Definition set_saved (d : NormalDistribution) (s : NormalState) : NormalDistribution :=
  mkNormal (min d) (max d) (mean d) (deviation d) s.

(** [operator()]: guesses until one is in the range. *)
Definition outside (d : NormalDistribution) (guess : Z) : bool := (guess <? min d) || (max d <? guess).
Definition guess (d : NormalDistribution) (st : Z * NormalState * RandomEngine) : result (Z * NormalState * RandomEngine) :=
  let '(_, saved, rng) := st in
  let '(x, (saved, rng)) := normal (mean d) (deviation d) saved rng in
  k ← to_uint64 x;
  Ok (k, saved, rng).
Definition draw (fuel : nat) (d : NormalDistribution) (rng : RandomEngine) : result (Z * NormalDistribution * RandomEngine) :=
  '(k, saved, rng) ← while fuel (λ '(k, _, _), Ok (outside d k)) (guess d) (0, saved d, rng);
  Ok (k, set_saved d saved, rng).
End definitions.
End NormalDistribution.

Module DistributionWrapper.
Section definitions.
Context `{T : SdsTypes} `{RandomSource}.
(** How many guesses a normal distribution may need. *)
Variable patience : NormalState → RandomEngine → nat.

(** The member of the union that is in use. *)
Inductive Distribution :=
| uniformDistribution (minKey maxKey : Z)
| normalDistribution (d : NormalDistribution.NormalDistribution)
| denseNormalDistribution (d : NormalDistribution.NormalDistribution)
| zipfDistribution (p : Zipfian.param_type)
| ascDistribution (minKey maxKey : Z)
| descDistribution (minKey maxKey : Z).

Record DistributionWrapper := mkWrapper {
  distributionType : KeyDistribution;
  maxNumberOfAccesses : Z;
  batchSize : Z;
  precomputedIndex : Z;
  numberOfPrecomputedElements : Z;
  distribution : Distribution;
  precomputed : list Z;
}.

Definition set_distribution (w : DistributionWrapper) (x : Distribution) : DistributionWrapper :=
  mkWrapper (distributionType w) (maxNumberOfAccesses w) (batchSize w) (precomputedIndex w)
    (numberOfPrecomputedElements w) x (precomputed w).
Definition set_precomputedIndex (w : DistributionWrapper) (x : Z) : DistributionWrapper :=
  mkWrapper (distributionType w) (maxNumberOfAccesses w) (batchSize w) x
    (numberOfPrecomputedElements w) (distribution w) (precomputed w).
Definition set_precomputed (w : DistributionWrapper) (x : list Z) : DistributionWrapper :=
  mkWrapper (distributionType w) (maxNumberOfAccesses w) (batchSize w) (precomputedIndex w)
    (maxNumberOfAccesses w * batchSize w) (distribution w) x.

(** [precomputeRandomNumbers]: called for the two ordered distributions. *)
Definition precomputeRandomNumbers (w : DistributionWrapper) (rng : RandomEngine)
    : result (DistributionWrapper * RandomEngine) :=
  match distributionType w, distribution w with
  | ASCENDING, ascDistribution lo hi =>
      '(l, rng) ← generate (maxNumberOfAccesses w * batchSize w) (λ rng, Ok (uniform_int lo hi rng)) rng;
      Ok (set_precomputed w (std_sort l), rng)
  | DESCENDING, descDistribution lo hi =>
      '(l, rng) ← generate (maxNumberOfAccesses w * batchSize w) (λ rng, Ok (uniform_int lo hi rng)) rng;
      Ok (set_precomputed w (std_sort_greater l), rng)
  | _, _ => Ok (w, rng)
  end.

(** The constructor; [zetas] is the content of [precomputedZetaValues]. *)
Definition create (zetas : gmap Z double) (keyDistribution : KeyDistribution) (minKey maxKey numberOfOperations batch : Z)
    (rng : RandomEngine) : result (DistributionWrapper * gmap Z double * RandomEngine) :=
  let w x := mkWrapper keyDistribution numberOfOperations batch 0 0 x [] in
  match keyDistribution with
  | SKEWED_UNIFORM | UNIFORM => Ok (w (uniformDistribution minKey maxKey), zetas, rng)
  | NORMAL => Ok (w (normalDistribution (NormalDistribution.create NormalDistribution.RelativeStandardDeviation
                       minKey maxKey)), zetas, rng)
  | DENSE_NORMAL => Ok (w (denseNormalDistribution (NormalDistribution.create
                       NormalDistribution.DenseRelativeStandardDeviation minKey maxKey)), zetas, rng)
  | ZIPF => let '(p, zetas) := ZipfDistribution.create zetas minKey maxKey in Ok (w (zipfDistribution p), zetas, rng)
  | ASCENDING => '(w, rng) ← precomputeRandomNumbers (w (ascDistribution minKey maxKey)) rng; Ok (w, zetas, rng)
  | DESCENDING => '(w, rng) ← precomputeRandomNumbers (w (descDistribution minKey maxKey)) rng; Ok (w, zetas, rng)
  | _ => Err Terminated
  end.

Definition nextPrecomputed (w : DistributionWrapper) (rng : RandomEngine)
    : result (Z * (DistributionWrapper * RandomEngine)) :=
  AssertMsg (precomputedIndex w <? numberOfPrecomputedElements w);;
  k ← zget (precomputed w) (precomputedIndex w);
  Ok (k, (set_precomputedIndex w (precomputedIndex w + 1), rng)).

(** [operator()].  The type and the member of the union agree from the constructor on. *)
Definition draw (st : DistributionWrapper * RandomEngine) : result (Z * (DistributionWrapper * RandomEngine)) :=
  let '(w, rng) := st in
  match distributionType w, distribution w with
  | SKEWED_UNIFORM, uniformDistribution lo hi | UNIFORM, uniformDistribution lo hi =>
      let '(k, rng) := uniform_int lo hi rng in Ok (k, (w, rng))
  | NORMAL, normalDistribution d =>
      '(k, d, rng) ← NormalDistribution.draw (patience (NormalDistribution.saved d) rng) d rng;
      Ok (k, (set_distribution w (normalDistribution d), rng))
  | DENSE_NORMAL, denseNormalDistribution d =>
      '(k, d, rng) ← NormalDistribution.draw (patience (NormalDistribution.saved d) rng) d rng;
      Ok (k, (set_distribution w (denseNormalDistribution d), rng))
  | ZIPF, zipfDistribution p => '(k, rng) ← Zipfian.draw p rng; Ok (k, (w, rng))
  | ASCENDING, _ | DESCENDING, _ => nextPrecomputed w rng
  | (ASCENDING_STAR | DESCENDING_STAR | numberOfKeyDistributions), _ => Err Terminated
  | _, _ => Err BadAccess
  end.

Definition generateBatch (st : DistributionWrapper * RandomEngine) : result (list Z * (DistributionWrapper * RandomEngine)) :=
  '(l, st) ← generate (batchSize st.1) draw st; Ok (std_sort l, st).

Definition generateBatchWithoutDuplicates (st : DistributionWrapper * RandomEngine)
    : result (list Z * (DistributionWrapper * RandomEngine)) :=
  '(l, st) ← generate (batchSize st.1) draw st; Ok (std_unique (std_sort l), st).
End definitions.
End DistributionWrapper.

(** ** Operations *)

Inductive OperationType := Insert | Remove | Search | BatchInsert | BatchRemove.
#[export] Instance OperationType_eq_dec : EqDecision OperationType.
Proof. solve_decision. Defined.

(** [static_cast<OperationType>(i)], for an index that names one. *)
Definition operationType (i : Z) : result OperationType :=
  zget [Insert; Remove; Search; BatchInsert; BatchRemove] i.

Definition is_batch (op : OperationType) : bool :=
  match op with BatchInsert | BatchRemove => true | _ => false end.

Module Operation.
Section definitions.
Context `{T : SdsTypes} {V : Type}.

(** The union holds a key or a batch. *)
Record Operation := mkOperation { type : OperationType; payload : Z + list V }.

Definition default : Operation := mkOperation Insert (inl 0).
Definition ofValue (op : OperationType) (v : Z) : result Operation :=
  AssertMsg (negb (is_batch op));; Ok (mkOperation op (inl v)).
Definition ofBatch (op : OperationType) (b : list V) : result Operation :=
  AssertMsg (is_batch op);; Ok (mkOperation op (inr b)).

(** Reading the union. *)
Definition value (o : Operation) : result Z := match payload o with inl v => Ok v | inr _ => Err BadAccess end.
Definition batch (o : Operation) : result (list V) := match payload o with inr b => Ok b | inl _ => Err BadAccess end.
End definitions.
Arguments Operation : clear implicits.
End Operation.

(** The fields of [Configuration] that the generators use. *)
Record Configuration := mkConfiguration {
  numPrefill : Z;
  numOperations : Z;
  numThreads : Z;
  insertWeight : double;
  removeWeight : double;
  searchWeight : double;
  configBatchSize : Z;
  seed : Z;
  minKey : Z;
  maxKey : Z;
  keyDistribution : KeyDistribution;
}.

(** [Configuration()], for a key type with the greatest value [greatest]. *)
Definition defaultConfiguration (greatest : Z) : Configuration :=
  mkConfiguration 100000 100000 4 (literal 5 10) (literal 2 10) (literal 3 10) 1024 1 1 greatest UNIFORM.

Module BatchGenerator.
Section definitions.
Context `{T : SdsTypes} `{RandomSource}.
Variable patience : NormalState → RandomEngine → nat.
Import DistributionWrapper.
Implicit Types (st : DistributionWrapper * RandomEngine).

(** The weights of [opDist]. *)
Definition weights (batchInsertWeight batchRemoveWeight searchWeight : double) : list double :=
  [to_double 0; to_double 0; searchWeight; batchInsertWeight; batchRemoveWeight].

(** One call of the lambda of [generateOperations]. *)
Definition generateOperation (ws : list double) st : result (Operation.Operation Z * (DistributionWrapper * RandomEngine)) :=
  let '(w, rng) := st in
  let '(i, rng) := discrete ws rng in
  op ← operationType i;
  match op with
  | Search => '(v, st) ← draw patience (w, rng); o ← Operation.ofValue op v; Ok (o, st)
  | BatchInsert | BatchRemove =>
      '(b, st) ← generateBatchWithoutDuplicates patience (w, rng); o ← Operation.ofBatch op b; Ok (o, st)
  | _ => AssertMsg false;; Err Terminated
  end.

Definition generateOperations (numOperations : Z) (batchInsertWeight batchRemoveWeight searchWeight : double) st
    : result (list (Operation.Operation Z) * (DistributionWrapper * RandomEngine)) :=
  generate numOperations (generateOperation (weights batchInsertWeight batchRemoveWeight searchWeight)) st.

Definition generatePrefill (numPrefill batchSize : Z) st
    : result (list (Operation.Operation Z) * (DistributionWrapper * RandomEngine)) :=
  if batchSize =? 0 then Err BadAccess else
  generate (numPrefill ÷ batchSize)
    (λ st,
       '(b, st) ← generateBatchWithoutDuplicates patience st;
       o ← Operation.ofBatch BatchInsert b;
       AssertMsg (bool_decide (Operation.type o = BatchInsert));;
       Ok (o, st)) st.

Record BatchGenerator := mkBatchGenerator {
  prefillOps : list (Operation.Operation Z);
  ops : list (Operation.Operation Z);
}.

(** Both kinds of operations from one distribution: the second call goes on where the first
    one has stopped. *)
Definition createCombined (kind : KeyDistribution) (c : Configuration) (zetas : gmap Z double) (rng : RandomEngine)
    : result (BatchGenerator * gmap Z double * RandomEngine) :=
  let total := numOperations c + numPrefill c ÷ configBatchSize c + 1 in
  '(w, zetas, rng) ← create zetas kind (minKey c) (maxKey c) total (configBatchSize c) rng;
  '(prefill, st) ← generatePrefill (numPrefill c) (configBatchSize c) (w, rng);
  '(l, (_, rng)) ← generateOperations (numOperations c) (insertWeight c) (removeWeight c) (searchWeight c) st;
  Ok (mkBatchGenerator prefill l, zetas, rng).

Definition createSeparate (c : Configuration) (zetas : gmap Z double) (rng : RandomEngine)
    : result (BatchGenerator * gmap Z double * RandomEngine) :=
  '(w1, zetas, rng) ← create zetas UNIFORM (minKey c) (maxKey c)
    (numPrefill c ÷ configBatchSize c + 1) (configBatchSize c) rng;
  '(w2, zetas, rng) ← create zetas (keyDistribution c) (minKey c) (maxKey c) (numOperations c) (configBatchSize c) rng;
  '(prefill, (_, rng)) ← generatePrefill (numPrefill c) (configBatchSize c) (w1, rng);
  '(l, (_, rng)) ← generateOperations (numOperations c) (insertWeight c) (removeWeight c) (searchWeight c) (w2, rng);
  Ok (mkBatchGenerator prefill l, zetas, rng).

(** [InputGenerator::BatchGenerator(config, rng)]. *)
Definition create (c : Configuration) (zetas : gmap Z double) (rng : RandomEngine)
    : result (BatchGenerator * gmap Z double * RandomEngine) :=
  if configBatchSize c =? 0 then Err BadAccess else
  match keyDistribution c with
  | ASCENDING_STAR => createCombined ASCENDING c zetas rng
  | DESCENDING_STAR => createCombined DESCENDING c zetas rng
  | _ => createSeparate c zetas rng
  end.
End definitions.
End BatchGenerator.

(** [ComplexBatchGenerator::generateOperations]: the keys get mapped values from a second
    distribution.  [batchSize] is the length of the array that is allocated for them. *)
Module ComplexBatchGenerator.
Section definitions.
Context `{T : SdsTypes} `{RandomSource} {V : Type}.
Variables (patience : NormalState → RandomEngine → nat) (makeValue : Z → Z → V).
Import DistributionWrapper.

Definition State : Type := DistributionWrapper * DistributionWrapper * RandomEngine.

Definition combine (batchSize : Z) (keyBatch mappedBatch : list Z) : result (list V) :=
  '(l, _) ← generate (zlen keyBatch)
    (λ i, k ← zget keyBatch i; m ← zget mappedBatch i;
          if i <? batchSize then Ok (makeValue k m, i + 1) else Err BadAccess) 0;
  Ok l.

Definition generateOperation (batchSize : Z) (ws : list double) (st : State) : result (Operation.Operation V * State) :=
  let '(keyGen, mappedGen, rng) := st in
  let '(i, rng) := discrete ws rng in
  op ← operationType i;
  match op with
  | Search =>
      '(v, (keyGen, rng)) ← draw patience (keyGen, rng);
      o ← Operation.ofValue op v; Ok (o, (keyGen, mappedGen, rng))
  | BatchInsert | BatchRemove =>
      '(keyBatch, (keyGen, rng)) ← generateBatchWithoutDuplicates patience (keyGen, rng);
      '(mappedBatch, (mappedGen, rng)) ← generateBatch patience (mappedGen, rng);
      b ← combine batchSize keyBatch mappedBatch;
      o ← Operation.ofBatch op b; Ok (o, (keyGen, mappedGen, rng))
  | _ => AssertMsg false;; Err Terminated
  end.

Definition generateOperations (numOperations : Z) (batchInsertWeight batchRemoveWeight searchWeight : double) (batchSize : Z)
    (st : State) : result (list (Operation.Operation V) * State) :=
  generate numOperations
    (generateOperation batchSize (BatchGenerator.weights batchInsertWeight batchRemoveWeight searchWeight)) st.
End definitions.
End ComplexBatchGenerator.

(** [PrefillGenerator::UniformGenerator] and [OperationsGenerator::RandomGenerator]: single
    keys, with an engine of their own.  C++ leaves open which of the two arguments of
    [Operation] is drawn first; here it is the type. *)
Module RandomGenerator.
Section definitions.
Context `{T : SdsTypes} `{RandomSource}.

Definition generatePrefill (numPrefill seed min max : Z) : result (list Z) :=
  '(l, _) ← generate numPrefill (λ rng, Ok (uniform_int min max rng)) (seeded seed); Ok l.

Definition generateOperation (ws : list double) (min max : Z) (rng : RandomEngine)
    : result (Operation.Operation Z * RandomEngine) :=
  let '(i, rng) := discrete ws rng in
  op ← operationType i;
  let '(k, rng) := uniform_int min max rng in
  o ← Operation.ofValue op k; Ok (o, rng).

Definition generateOperations (numOperations : Z) (insertWeight removeWeight searchWeight : double) (seed min max : Z)
    : result (list (Operation.Operation Z)) :=
  '(l, _) ← generate numOperations (generateOperation [insertWeight; removeWeight; searchWeight] min max) (seeded seed);
  Ok l.
End definitions.
End RandomGenerator.
