(* ===== verification/GeneratorFacts.v ===== *)
(** * Facts on the generators

    [usable w lo hi n]: the distribution [w] can deliver [n] more keys, all of them between
    [lo] and [hi].  Batches without duplicates are strictly increasing, and [n] operations
    need at most [n] batches of keys. *)

From S2P Require Export BlockMoves Generator.
Import DistributionWrapper.

(** ** Sequences *)

Section generate.
Context {St A : Type}.
Implicit Types (f : St → result (A * St)) (s : St) (l : list A) (n : Z).

Lemma generate_ok (I : Z → St → Prop) (P : A → Prop) n f s :
  (∀ i s, 0 ≤ i < n → I (n - i) s → wp (f s) (λ '(a, s'), P a ∧ I (n - i - 1) s')) →
  0 ≤ n → I n s → wp (generate n f s) (λ '(l, s'), zlen l = n ∧ Forall P l ∧ I 0 s').
Proof.
  intros Hf Hn HI. unfold generate.
  apply (wp_for (λ i '(l, s), zlen l = i ∧ Forall P l ∧ I (n - i) s)).
  - intros i [l s'] Hi (Hl&HP&HI'). apply wp_bind. eapply wp_mono; [apply (Hf i s' Hi HI')|].
    intros [a s''] [Ha HI'']. simpl. split_and!; [zlen| |by replace (n - (i + 1)) with (n - i - 1) by lia].
    apply Forall_app. by split; [|constructor].
  - split_and!; [done|constructor|by rewrite Z.sub_0_r].
  - intros [l s'] (Hl&HP&HI'). rewrite Z.max_r in Hl, HI' by lia. by rewrite Z.sub_diag in HI'.
Qed.
End generate.

Section sequences.
Implicit Types (l : list Z) (k lo hi : Z) (P : Z → Prop).

Lemma std_sort_sorted l : StronglySorted Z.le (std_sort l).
Proof. apply (StronglySorted_merge_sort Z.le). Qed.

Lemma unique_after_in k l P : Forall P l → Forall P (unique_after k l).
Proof. intros Hl. revert k. induction Hl as [|x l Hx Hl IH]; intros k; simpl; [constructor|]. destruct (x =? k); [done|by constructor]. Qed.

Lemma unique_after_length k l : zlen (unique_after k l) ≤ zlen l.
Proof. revert k. induction l as [|x l IH]; intros k; simpl; [done|]. specialize (IH k) as IH1. specialize (IH x). destruct (x =? k); zlen. Qed.

Lemma unique_after_sorted k l : Forall (Z.le k) l → StronglySorted Z.le l →
  StronglySorted Z.lt (unique_after k l) ∧ Forall (Z.lt k) (unique_after k l).
Proof.
  intros Hk Hl. revert k Hk. induction Hl as [|x l Hl IH Hx]; intros k Hk; simpl; [by split; constructor|].
  apply Forall_cons in Hk as [Hkx Hk]. destruct (Z.eqb_spec x k) as [->|Hne]; [by apply IH|].
  destruct (IH x Hx) as [Hs Hgt]. split; constructor; try done; [lia|].
  eapply Forall_impl; [exact Hgt|]. intros y ?. lia.
Qed.

Lemma std_unique_sorted l : StronglySorted Z.le l → StronglySorted Z.lt (std_unique l).
Proof.
  intros Hl. destruct Hl as [|x l Hl Hx]; simpl; [constructor|]. destruct (unique_after_sorted x l Hx Hl). by constructor.
Qed.

Lemma std_unique_in l P : Forall P l → Forall P (std_unique l).
Proof. destruct 1 as [|x l Hx Hl]; simpl; [constructor|]. constructor; [done|]. by apply unique_after_in. Qed.

Lemma std_unique_length l : zlen (std_unique l) ≤ zlen l.
Proof. destruct l as [|x l]; simpl; [done|]. pose proof (unique_after_length x l). zlen. Qed.

Lemma std_unique_nonempty l : l ≠ [] → std_unique l ≠ [].
Proof. by destruct l. Qed.

Lemma std_sort_in l P : Forall P l → Forall P (std_sort l).
Proof. intros Hl. unfold std_sort. by rewrite (merge_sort_Permutation Z.le l). Qed.

Lemma std_sort_length l : zlen (std_sort l) = zlen l.
Proof. unfold zlen, std_sort. by rewrite (Permutation_length (merge_sort_Permutation Z.le l)). Qed.

Lemma std_sort_greater_in l P : Forall P l → Forall P (std_sort_greater l).
Proof. intros Hl. unfold std_sort_greater. by rewrite (merge_sort_Permutation Z.ge l). Qed.

Lemma std_sort_greater_length l : zlen (std_sort_greater l) = zlen l.
Proof. unfold zlen, std_sort_greater. by rewrite (Permutation_length (merge_sort_Permutation Z.ge l)). Qed.
End sequences.

(** ** One key *)

Section draws.
Context `{T : SdsTypes} `{R : RandomSource} `{Laws : !RandomLaws}.
Variable patience : NormalState → RandomEngine → nat.
Implicit Types (w : DistributionWrapper) (st : DistributionWrapper * RandomEngine) (lo hi n k : Z).
Implicit Types (d : NormalDistribution.NormalDistribution) (kd : KeyDistribution) (zetas : gmap Z double).

Definition within lo hi k : Prop := lo ≤ k ≤ hi.

(** A normal distribution reaches its range in time: one of the next [fuel] values, truncated,
    is in the range, and those before it can be converted to keys. *)
Fixpoint reaches (fuel : nat) d saved rng : Prop :=
  match fuel with
  | 0%nat => False
  | S fuel =>
      let '(x, (saved, rng)) := normal (NormalDistribution.mean d) (NormalDistribution.deviation d) saved rng in
      ∃ k, to_uint64 x = Ok k ∧ (NormalDistribution.outside d k = false ∨ reaches fuel d saved rng)
  end.

(** It does so in every state, before the patience is over. *)
Definition settles d : Prop := ∀ saved rng, ∃ fuel, (fuel < patience saved rng)%nat ∧ reaches fuel d saved rng.

Lemma normal_guess d k saved rng :
  NormalDistribution.guess d (k, saved, rng) =
    (let '(x, (saved, rng)) := normal (NormalDistribution.mean d) (NormalDistribution.deviation d) saved rng in
     k ← to_uint64 x; Ok (k, saved, rng)).
Proof. done. Qed.

(** The loop ends with the first value in the range. *)
Lemma normal_loop d fuel m k saved rng : reaches fuel d saved rng → (fuel < m)%nat →
  ∃ k' saved' rng', while m (λ '(k, _, _), Ok (NormalDistribution.outside d k)) (NormalDistribution.guess d) (k, saved, rng) =
    Ok (k', saved', rng') ∧ NormalDistribution.outside d k' = false.
Proof.
  revert m k saved rng. induction fuel as [|fuel IH]; intros m k saved rng Hr Hm; [done|].
  destruct m as [|m]; [lia|]. destruct (NormalDistribution.outside d k) eqn:Hk.
  - rewrite while_unfold, Hk. cbn [mbind result_bind]. rewrite normal_guess. cbn [reaches] in Hr.
    destruct (normal _ _ saved rng) as [x [saved' rng']]. destruct Hr as (k'&Hx&Hr). rewrite Hx. cbn [mbind result_bind].
    destruct Hr as [Hin|Hr].
    + exists k', saved', rng'. split; [|done]. destruct m as [|m]; [lia|]. rewrite while_exit; [done|by rewrite Hin].
    + apply IH; [done|lia].
  - exists k, saved, rng. split; [|done]. rewrite while_exit; [done|by rewrite Hk].
Qed.

Lemma reaches_saved fuel d sv saved rng : reaches fuel d saved rng → reaches fuel (NormalDistribution.set_saved d sv) saved rng.
Proof.
  revert saved rng. induction fuel as [|fuel IH]; intros saved rng; cbn [reaches]; [done|].
  change (NormalDistribution.mean (NormalDistribution.set_saved d sv)) with (NormalDistribution.mean d).
  change (NormalDistribution.deviation (NormalDistribution.set_saved d sv)) with (NormalDistribution.deviation d).
  destruct (normal _ _ saved rng) as [x [saved' rng']]. intros (k&Hx&[Hin|Hr]); exists k; (split; [done|]); [by left|right; by apply IH].
Qed.

Lemma normal_draw d rng : settles d →
  wp (NormalDistribution.draw (patience (NormalDistribution.saved d) rng) d rng) (λ '(k, d', _),
    within (NormalDistribution.min d) (NormalDistribution.max d) k ∧ ∃ saved, d' = NormalDistribution.set_saved d saved).
Proof.
  intros Hd. destruct (Hd (NormalDistribution.saved d) rng) as (fuel&Hf&Hr). unfold NormalDistribution.draw.
  destruct (normal_loop d fuel _ 0 _ rng Hr Hf) as (k&sv&rng'&Hw&Hk). rewrite Hw. cbn [mbind result_bind wp].
  apply orb_false_iff in Hk as [H1%Z.ltb_ge H2%Z.ltb_ge]. split; [done|by exists sv].
Qed.

Lemma settles_saved d saved : settles d → settles (NormalDistribution.set_saved d saved).
Proof. intros Hd sv rng. destruct (Hd sv rng) as (fuel&Hf&Hr). exists fuel. split; [done|by apply reaches_saved]. Qed.

(** [n] more keys between [lo] and [hi], in batches of [b]. *)
Definition deliverable lo hi n w : Prop :=
  match distributionType w, distribution w with
  | (UNIFORM | SKEWED_UNIFORM), uniformDistribution l h => l = lo ∧ h = hi
  | NORMAL, normalDistribution d | DENSE_NORMAL, denseNormalDistribution d =>
      NormalDistribution.min d = lo ∧ NormalDistribution.max d = hi ∧ settles d
  | (ASCENDING | DESCENDING), _ =>
      0 ≤ precomputedIndex w ∧ precomputedIndex w + n ≤ zlen (precomputed w) ∧
      numberOfPrecomputedElements w = zlen (precomputed w) ∧ Forall (within lo hi) (precomputed w)
  | _, _ => False
  end.
Definition usable lo hi (b : Z) n st : Prop := batchSize st.1 = b ∧ deliverable lo hi n st.1.

Lemma nextPrecomputed_ok lo hi n w rng : 1 ≤ n →
  0 ≤ precomputedIndex w → precomputedIndex w + n ≤ zlen (precomputed w) →
  numberOfPrecomputedElements w = zlen (precomputed w) → Forall (within lo hi) (precomputed w) →
  ∃ k, nextPrecomputed w rng = Ok (k, (set_precomputedIndex w (precomputedIndex w + 1), rng)) ∧ within lo hi k.
Proof.
  intros Hn H0 Hi Hz Hf. unfold nextPrecomputed. rewrite assert_ok by (apply Z.ltb_lt; lia). cbn [mbind result_bind].
  destruct (at_in_bound (precomputed w) (precomputedIndex w) ltac:(lia)) as [k Hk]. rewrite (zget_at _ _ _ Hk).
  exists k. split; [done|]. apply at_lookup in Hk as [_ Hk]. rewrite Forall_forall in Hf. apply Hf. by eapply list_elem_of_lookup_2.
Qed.

Lemma draw_ok lo hi b n st : lo ≤ hi → 1 ≤ n → usable lo hi b n st →
  wp (draw patience st) (λ '(k, st'), within lo hi k ∧ usable lo hi b (n - 1) st').
Proof.
  intros Hlh Hn. destruct st as [w rng]. unfold usable, deliverable. simpl. intros [Hb Hu].
  destruct (distributionType w) eqn:Ht, (distribution w) eqn:Hd; try done;
    try (destruct Hu as (H0&Hi&Hz&Hf); destruct (nextPrecomputed_ok lo hi n w rng) as (k&->&Hk); try done; simpl;
      rewrite Ht; split_and!; (done || lia)).
  - destruct Hu as [-> ->]. destruct (uniform_int lo hi rng) as [k rng'] eqn:Hk. simpl. rewrite Ht, Hd.
    pose proof (uniform_range lo hi rng Hlh) as Hr. by rewrite Hk in Hr.
  - destruct Hu as [-> ->]. destruct (uniform_int lo hi rng) as [k rng'] eqn:Hk. simpl. rewrite Ht, Hd.
    pose proof (uniform_range lo hi rng Hlh) as Hr. by rewrite Hk in Hr.
  - destruct Hu as (<-&<-&Hs). apply wp_bind. eapply wp_mono; [apply (normal_draw d rng Hs)|].
    intros [[k d'] rng'] [Hk [saved ->]]. simpl. rewrite Ht. split; [done|]. split; [done|]. by split_and!; [..|apply settles_saved].
  - destruct Hu as (<-&<-&Hs). apply wp_bind. eapply wp_mono; [apply (normal_draw d rng Hs)|].
    intros [[k d'] rng'] [Hk [saved ->]]. simpl. rewrite Ht. split; [done|]. split; [done|]. by split_and!; [..|apply settles_saved].
Qed.
(** ** A distribution *)

(** What the constructor needs to know of the ones that it does not precompute.  A Zipf
    distribution can leave its range, see [zipf_leaves_range] in BenchmarkProps.v. *)
Definition member_ok kd lo hi : Prop :=
  match kd with
  | NORMAL => settles (NormalDistribution.create NormalDistribution.RelativeStandardDeviation lo hi)
  | DENSE_NORMAL => settles (NormalDistribution.create NormalDistribution.DenseRelativeStandardDeviation lo hi)
  | ZIPF | ASCENDING_STAR | DESCENDING_STAR | numberOfKeyDistributions => False
  | _ => True
  end.

Lemma precompute_ok lo hi n rng : lo ≤ hi → 0 ≤ n →
  wp (generate n (λ rng, Ok (uniform_int lo hi rng)) rng) (λ '(l, _), zlen l = n ∧ Forall (within lo hi) l).
Proof.
  intros Hlh Hn. eapply wp_mono; [apply (generate_ok (λ _ _, True) (within lo hi)); [|done|done]|].
  - intros i rng' _ _. simpl. pose proof (uniform_range lo hi rng' Hlh) as Hr. by destruct (uniform_int lo hi rng').
  - intros [l rng'] (Hl&Hf&_). done.
Qed.

Lemma create_usable zetas kd lo hi n b rng : lo ≤ hi → 0 ≤ n → 0 ≤ b → member_ok kd lo hi →
  wp (create zetas kd lo hi n b rng) (λ '(w, zetas', rng'), usable lo hi b (n * b) (w, rng') ∧ zetas' = zetas).
Proof.
  intros Hlh Hn Hb Hk. assert (0 ≤ n * b) as Hnb by nia. destruct kd; simpl in *; try done.
  - apply wp_bind, wp_bind. eapply wp_mono; [by apply precompute_ok|]. intros [l rng'] [Hl Hf]. simpl in *.
    split; [|done]. split; [done|]. unfold deliverable. simpl. rewrite std_sort_length. split_and!; try lia. by apply std_sort_in.
  - apply wp_bind, wp_bind. eapply wp_mono; [by apply precompute_ok|]. intros [l rng'] [Hl Hf]. simpl in *.
    split; [|done]. split; [done|]. unfold deliverable. simpl. rewrite std_sort_greater_length. split_and!; try lia.
    by apply std_sort_greater_in.
Qed.

(** ** Batches *)

Definition good_keys lo hi (b : Z) (l : list Z) : Prop :=
  StronglySorted Z.lt l ∧ Forall (within lo hi) l ∧ 1 ≤ zlen l ≤ b.

Lemma keys_drawn lo hi b n st : lo ≤ hi → 0 ≤ b → usable lo hi b (n + b) st → 0 ≤ n →
  wp (generate (batchSize st.1) (draw patience) st) (λ '(l, st'), zlen l = b ∧ Forall (within lo hi) l ∧ usable lo hi b n st').
Proof.
  intros Hlh Hb0 Hu Hn. pose proof (proj1 Hu) as ->.
  eapply wp_mono; [apply (generate_ok (λ m st, usable lo hi b (n + m) st) (within lo hi)); [|done|done]|].
  - intros i st' Hi Hst. replace (n + (b - i - 1)) with (n + (b - i) - 1) by lia. apply draw_ok; [done|lia|done].
  - intros [l st'] (Hl&Hf&Hst). by rewrite Z.add_0_r in Hst.
Qed.

Lemma generateBatchWithoutDuplicates_ok lo hi b n st : lo ≤ hi → 1 ≤ b → usable lo hi b (n + b) st → 0 ≤ n →
  wp (generateBatchWithoutDuplicates patience st) (λ '(l, st'), good_keys lo hi b l ∧ usable lo hi b n st').
Proof.
  intros Hlh Hb Hu Hn. unfold generateBatchWithoutDuplicates. apply wp_bind.
  eapply wp_mono; [apply (keys_drawn lo hi b n); (done || lia)|]. intros [l st'] (Hl&Hf&Hst). simpl. split; [|done]. split_and!.
  - apply std_unique_sorted, std_sort_sorted.
  - by apply std_unique_in, std_sort_in.
  - assert (std_unique (std_sort l) ≠ []) as Hne.
    { apply std_unique_nonempty. intros Hnil. pose proof (std_sort_length l) as Hs. rewrite Hnil in Hs. zlen. }
    destruct (std_unique (std_sort l)) as [|x y]; [done|]. pose proof (zlen_nonneg y). zlen.
  - pose proof (std_unique_length (std_sort l)). rewrite std_sort_length in *. lia.
Qed.

(** ** Operations *)

(** A search for a key of the range or a batch of such keys. *)
Definition operation_ok lo hi (b : Z) (o : Operation.Operation Z) : Prop :=
  match Operation.payload o with
  | inl k => Operation.type o = Search ∧ within lo hi k
  | inr l => is_batch (Operation.type o) = true ∧ good_keys lo hi b l
  end.

Lemma usable_le lo hi b n m st : m ≤ n → usable lo hi b n st → usable lo hi b m st.
Proof.
  intros Hm [Hb Hd]. split; [done|]. unfold deliverable in *.
  destruct (distributionType st.1), (distribution st.1); try done; destruct Hd as (?&?&?&?); split_and!; (done || lia).
Qed.

Lemma usable_rng lo hi b n w rng rng' : usable lo hi b n (w, rng) → usable lo hi b n (w, rng').
Proof. done. Qed.

(** The three weights are weights, and one of them is positive. *)
Definition some_weight (insertWeight removeWeight searchWeight : double) : Prop :=
  (is_weight insertWeight ∧ is_weight removeWeight ∧ is_weight searchWeight) ∧
  (is_positive insertWeight ∨ is_positive removeWeight ∨ is_positive searchWeight).

(** Only searches and batches are drawn. *)
Lemma discrete_type wi wr ws rng : some_weight wi wr ws →
  ∃ op, operationType (discrete (BatchGenerator.weights wi wr ws) rng).1 = Ok op ∧ (op = Search ∨ is_batch op = true).
Proof.
  intros Hw. destruct (discrete_index (BatchGenerator.weights wi wr ws) rng) as (w&Hi&Hp).
  { destruct Hw as [(?&?&?) Hw]. unfold BatchGenerator.weights. split; [by repeat constructor|].
    do 2 apply Exists_cons_tl. destruct Hw as [?|[?|?]].
    - by apply Exists_cons_tl, Exists_cons_hd.
    - by do 2 apply Exists_cons_tl; apply Exists_cons_hd.
    - by apply Exists_cons_hd. }
  destruct (discrete (BatchGenerator.weights wi wr ws) rng) as [i rng']. simpl in *. pose proof (at_Some_bound _ _ _ Hi) as Hb.
  unfold zlen in Hb. simpl in Hb. assert (i = 0 ∨ i = 1 ∨ i = 2 ∨ i = 3 ∨ i = 4) as [->|[->|[->|[->| ->]]]] by lia.
  - injection Hi as <-. by vm_compute in Hp.
  - injection Hi as <-. by vm_compute in Hp.
  - exists Search. split; [done|by left].
  - exists BatchInsert. split; [done|by right].
  - exists BatchRemove. split; [done|by right].
Qed.

Lemma generateOperation_ok lo hi b n wi wr ws st : lo ≤ hi → 1 ≤ b → 0 ≤ n → some_weight wi wr ws → usable lo hi b (n + b) st →
  wp (BatchGenerator.generateOperation patience (BatchGenerator.weights wi wr ws) st)
    (λ '(o, st'), operation_ok lo hi b o ∧ usable lo hi b n st').
Proof.
  intros Hlh Hb Hn Hw Hu. destruct st as [w rng]. unfold BatchGenerator.generateOperation.
  destruct (discrete_type wi wr ws rng Hw) as (op&Hop&Hkind). destruct (discrete _ rng) as [i rng']. simpl in Hop. rewrite Hop.
  cbn [mbind result_bind]. assert (usable lo hi b (n + b) (w, rng')) as Hu' by exact Hu.
  assert (is_batch op = true → wp ('(l, st) ← generateBatchWithoutDuplicates patience (w, rng'); o ← Operation.ofBatch op l; Ok (o, st))
    (λ '(o, st'), operation_ok lo hi b o ∧ usable lo hi b n st')) as Hbatch.
  { intros Hop'. apply wp_bind. eapply wp_mono; [by apply (generateBatchWithoutDuplicates_ok lo hi b n)|].
    intros [l st'] [Hl Hst]. unfold Operation.ofBatch. rewrite (assert_ok (is_batch op)) by done. simpl. split; [|done]. by split. }
  destruct Hkind as [->|Hb']; [|destruct op; try done; by apply Hbatch].
  apply wp_bind. eapply wp_mono; [apply (draw_ok lo hi b (n + b)); (done || lia)|]. intros [k st'] [Hk Hst].
  unfold Operation.ofValue. rewrite (assert_ok (negb (is_batch Search))) by done. simpl. split; [by split|].
  apply (usable_le lo hi b (n + b - 1)); [lia|done].
Qed.

Lemma generateOperations_ok lo hi b n m wi wr ws st : lo ≤ hi → 1 ≤ b → 0 ≤ n → 0 ≤ m → some_weight wi wr ws →
  usable lo hi b (n + m * b) st →
  wp (BatchGenerator.generateOperations patience m wi wr ws st)
    (λ '(l, st'), zlen l = m ∧ Forall (operation_ok lo hi b) l ∧ usable lo hi b n st').
Proof.
  intros Hlh Hb Hn Hm Hw Hu. unfold BatchGenerator.generateOperations.
  eapply wp_mono; [apply (generate_ok (λ i st, usable lo hi b (n + i * b) st) (operation_ok lo hi b)); [|done|done]|].
  - intros i st' Hi Hst. apply generateOperation_ok; try done; [nia|].
    by replace (n + (m - i - 1) * b + b) with (n + (m - i) * b) by lia.
  - intros [l st'] (Hl&Hf&Hst). rewrite Z.mul_0_l, Z.add_0_r in Hst. done.
Qed.

Lemma generatePrefill_ok lo hi b n m st : lo ≤ hi → 1 ≤ b → 0 ≤ n → 0 ≤ m → usable lo hi b (n + m ÷ b * b) st →
  wp (BatchGenerator.generatePrefill patience m b st) (λ '(l, st'), zlen l = m ÷ b ∧
    Forall (λ o, operation_ok lo hi b o ∧ Operation.type o = BatchInsert) l ∧ usable lo hi b n st').
Proof.
  intros Hlh Hb Hn Hm Hu. unfold BatchGenerator.generatePrefill. destruct (Z.eqb_spec b 0) as [?|_]; [lia|].
  eapply wp_mono; [apply (generate_ok (λ i st, usable lo hi b (n + i * b) st)
    (λ o, operation_ok lo hi b o ∧ Operation.type o = BatchInsert)); [|by apply Z.quot_pos; lia|done]|].
  - intros i st' Hi Hst. apply wp_bind. eapply wp_mono; [apply (generateBatchWithoutDuplicates_ok lo hi b (n + (m ÷ b - i - 1) * b)); try done|].
    + by replace (n + (m ÷ b - i - 1) * b + b) with (n + (m ÷ b - i) * b) by lia.
    + nia.
    + intros [l st''] [Hl Hst']. unfold Operation.ofBatch. rewrite (assert_ok (is_batch BatchInsert)) by done. cbn [mbind result_bind].
      rewrite assert_ok by (by apply bool_decide_eq_true_2). simpl. split; [|done]. split; [by split|done].
  - intros [l st'] (Hl&Hf&Hst). rewrite Z.mul_0_l, Z.add_0_r in Hst. done.
Qed.

(** ** The generator *)

(** The arguments are in the ranges of their types, and the number of keys to precompute fits
    into its type. *)
Record configuration_ok (c : Configuration) : Prop := {
  co_range : minKey c ≤ maxKey c;
  co_keys : 0 ≤ minKey c ∧ maxKey c < 2 ^ 64;
  co_batch : 1 ≤ configBatchSize c;
  co_prefill : 0 ≤ numPrefill c;
  co_operations : 0 ≤ numOperations c;
  co_size : (numOperations c + numPrefill c ÷ configBatchSize c + 1) * configBatchSize c < 2 ^ 64;
  co_weight : some_weight (insertWeight c) (removeWeight c) (searchWeight c);
  co_member : keyDistribution c ≠ ASCENDING_STAR → keyDistribution c ≠ DESCENDING_STAR →
    member_ok (keyDistribution c) (minKey c) (maxKey c);
}.

Record generated (c : Configuration) (g : BatchGenerator.BatchGenerator) : Prop := {
  ge_prefill : zlen (BatchGenerator.prefillOps g) = numPrefill c ÷ configBatchSize c;
  ge_inserts : Forall (λ o, operation_ok (minKey c) (maxKey c) (configBatchSize c) o ∧ Operation.type o = BatchInsert)
    (BatchGenerator.prefillOps g);
  ge_ops : zlen (BatchGenerator.ops g) = numOperations c;
  ge_operations : Forall (operation_ok (minKey c) (maxKey c) (configBatchSize c)) (BatchGenerator.ops g);
}.

Lemma createCombined_ok kind c zetas rng : configuration_ok c → kind = ASCENDING ∨ kind = DESCENDING →
  wp (BatchGenerator.createCombined patience kind c zetas rng) (λ '(g, _, _), generated c g).
Proof.
  intros [Hr _ Hb Hp Ho _ Hw _] Hkind. set (q := numPrefill c ÷ configBatchSize c). assert (0 ≤ q) as Hq by (apply Z.quot_pos; lia).
  unfold BatchGenerator.createCombined. fold q. apply wp_bind.
  eapply wp_mono; [apply create_usable; [done|lia|lia|by destruct Hkind as [->| ->]]|]. intros [[w zetas'] rng'] [Hu _].
  apply wp_bind. eapply wp_mono.
  { apply (generatePrefill_ok (minKey c) (maxKey c) (configBatchSize c) (numOperations c * configBatchSize c)); try done; [nia|].
    fold q. eapply usable_le; [|exact Hu]. nia. }
  intros [prefill st] (Hl&Hf&Hst). apply wp_bind. eapply wp_mono.
  { by apply (generateOperations_ok (minKey c) (maxKey c) (configBatchSize c) 0). }
  intros [l [w' rng'']] (Hl'&Hf'&_). by split.
Qed.

Lemma createSeparate_ok c zetas rng : configuration_ok c → member_ok (keyDistribution c) (minKey c) (maxKey c) →
  wp (BatchGenerator.createSeparate patience c zetas rng) (λ '(g, _, _), generated c g).
Proof.
  intros [Hr _ Hb Hp Ho _ Hw _] Hmember. set (q := numPrefill c ÷ configBatchSize c). assert (0 ≤ q) as Hq by (apply Z.quot_pos; lia).
  unfold BatchGenerator.createSeparate. fold q. apply wp_bind.
  eapply wp_mono; [apply create_usable; [done|lia|lia|done]|]. intros [[w1 zetas1] rng1] [Hu1 ->].
  apply wp_bind. eapply wp_mono; [apply create_usable; [done|lia|lia|done]|]. intros [[w2 zetas2] rng2] [Hu2 _].
  apply wp_bind. eapply wp_mono.
  { apply (generatePrefill_ok (minKey c) (maxKey c) (configBatchSize c) 0); try done. fold q. eapply usable_le; [|exact Hu1]. nia. }
  intros [prefill [w3 rng3]] (Hl&Hf&_). apply wp_bind. eapply wp_mono.
  { by apply (generateOperations_ok (minKey c) (maxKey c) (configBatchSize c) 0). }
  intros [l [w4 rng4]] (Hl'&Hf'&_). by split.
Qed.

Lemma generator_ok c zetas rng : configuration_ok c →
  wp (BatchGenerator.create patience c zetas rng) (λ '(g, _, _), generated c g).
Proof.
  intros Hc. pose proof (co_batch _ Hc). unfold BatchGenerator.create. destruct (Z.eqb_spec (configBatchSize c) 0); [lia|].
  pose proof (co_member _ Hc) as Hm. destruct (keyDistribution c) eqn:Hk;
    try (apply createSeparate_ok; [done|rewrite Hk; by apply Hm]); apply createCombined_ok; auto.
Qed.
End draws.
