(* ===== verification/BucketMapProps.v ===== *)
(** * Properties of the concurrent bucket map

    Calls of [insert] by different threads are atomic steps in some order; the contents
    do not depend on that order. *)

From S2P Require Import BucketMapFacts Instances.
Import ConcurrentBucketMap.

Section properties.
Context `{H : Hash}.

(** C23: in whatever order the threads' insertions into the concurrent map take effect,
    none of them fails and the map ends with the same contents: a node is present when
    it was there or inserted, and its flag is raised when it was raised or some
    insertion raised it. *)
Theorem insertions_commute m (l1 l2 : list (Z * bool)) :
  wf m → l1 ≡ₚ l2 →
  ∃ m1 m2, insert_all m l1 = Ok m1 ∧ insert_all m l2 = Ok m2 ∧ wf m1 ∧
    contents m1 = contents m2 ∧
    (∀ k, is_Some (contents m1 !! k) ↔ is_Some (contents m !! k) ∨ k ∈ l1.*1) ∧
    (∀ k, contents m1 !! k = Some true ↔ contents m !! k = Some true ∨ (k, true) ∈ l1).
Proof.
  intros Hm Hp. destruct (insert_all_refines m l1 Hm) as (m1&H1&Hm1&Hc1).
  destruct (insert_all_refines m l2 Hm) as (m2&H2&_&Hc2). exists m1, m2.
  rewrite Hc1, Hc2. split_and!; [done|done|done|by rewrite Hp|..];
    intros k; apply spec_insert_all_lookup.
Qed.

(** A traversal of the map ([executeInParallel]) visits every node exactly once with
    its flag, and [numberOfElements] counts the nodes; [clear] leaves an empty map. *)
Lemma traversal_visits_once m :
  wf m →
  entries m ≡ₚ map_to_list (contents m) ∧ NoDup (entries m).*1 ∧
  numberOfElements m = Z.of_nat (size (contents m)) ∧
  wf (clear m) ∧ entries (clear m) = [] .
Proof.
  intros Hm. destruct (clear_spec m Hm) as [Hw Hc]. split_and!; [by apply entries_permutation|
    by apply NoDup_entries|by apply numberOfElements_spec|done|].
  apply Permutation_nil_r. rewrite (entries_permutation _ Hw), Hc. by rewrite map_to_list_empty.
Qed.
End properties.

(** ** Witnesses *)

(** Node numbers are their own hash value. *)
#[export] Instance absHash : Hash.
Proof. refine {| hash := Z.abs |}. lia. Defined.

Lemma insertions_commute_witness :
  ∃ m1 m2, insert_all (create 2) [(3, false); (23, true); (3, true)] = Ok m1 ∧
    insert_all (create 2) [(3, true); (3, false); (23, true)] = Ok m2 ∧ contents m1 = contents m2.
Proof.
  destruct (insertions_commute (create 2) [(3, false); (23, true); (3, true)]
    [(3, true); (3, false); (23, true)]) as (m1&m2&?&?&_&?&_).
  - by apply wf_create.
  - by apply (Permutation_app_comm [(3, false); (23, true)] [(3, true)]).
  - by exists m1, m2.
Defined.

Lemma traversal_visits_once_witness :
  entries (create 2) ≡ₚ map_to_list (contents (create 2)) ∧ numberOfElements (create 2) = 0.
Proof.
  destruct (traversal_visits_once (create 2)) as (?&_&->&_); [by apply wf_create|]. by split.
Defined.
