(* ===== verification/SizeManagerProps.v ===== *)
(** * Properties of the block size managers *)

From S2P Require Import SizeManager Instances.
Import HierarchicalBlockSizeManager.

(** C22: with valid aggregates the hierarchical manager answers every range query like the
    linear one, which adds up the block sizes; ranges inside one aggregate, ranges that
    start or end at an aggregate and the empty range included. *)
Theorem hierarchical_equals_linear m sds l r :
  valid m sds → 0 ≤ l ≤ r → r ≤ zlen (sds_blockSizes sds) → r ÷ AggregateWidth m ≤ size m →
  getNumberOfElements m sds l r = LinearBlockSizeManager.getNumberOfElements sds l r ∧
  getNumberOfElements m sds l r = Ok (sum_range (size_at sds) l r).
Proof.
  intros Hv Hlr Hr Hs. rewrite getNumberOfElements_ok by done. split; [|done].
  unfold LinearBlockSizeManager.getNumberOfElements. by rewrite addBlockSizes_ok by lia.
Qed.

(** [recompute] makes the aggregates valid whatever they held, also when the number of
    aggregates changes, and [validate] accepts exactly the valid aggregates. *)
Lemma recompute_establishes m sds n ndebug :
  0 < AggregateWidth m → zlen (aggregates m) = size m → 0 ≤ sds_size sds →
  (sds_size sds / AggregateWidth m + 1) * AggregateWidth m ≤ zlen (sds_blockSizes sds) →
  ∃ m', recompute m sds n = Ok m' ∧ valid m' sds ∧ validate m' sds ndebug = Ok tt ∧
    (∀ m'', covers m'' sds → size m'' ≤ sds_size sds ÷ AggregateWidth m'' + 1 →
       validate m'' sds false = Ok tt ↔ valid m'' sds).
Proof.
  intros HW Hl Hp Hc. destruct (manager_recompute_ok m sds n HW Hl Hp Hc) as (m'&Hr&Hv&_).
  exists m'. split_and!; [done|done|by apply manager_validate_ok|].
  intros m'' Hcov Hsz. split; [by intros; apply validate_sound|apply manager_validate_ok].
Qed.

(** C21: the incremental updates keep the aggregates valid: [adjustBlockSize] and
    [addElement] for a block that changes its size, [shiftLeft] and [shiftRight] for a
    run of blocks that moved by one place over any number of aggregate borders. *)
Theorem updates_preserve_valid m sds sds' j x left right :
  valid m sds →
  (0 ≤ j < size m * AggregateWidth m →
     (∃ m', adjustBlockSize m j (size_at sds j) x = Ok m' ∧ valid m' (update_size sds j x)) ∧
     (∃ m', addElement m j = Ok m' ∧ valid m' (update_size sds j (size_at sds j + 1)))) ∧
  (shifted_left sds sds' left right → 0 ≤ left ≤ right → right + 1 < size m * AggregateWidth m →
     ∃ m', shiftLeft m sds' left right = Ok m' ∧ valid m' sds') ∧
  (shifted_right sds sds' left right → 1 ≤ left ≤ right → right < size m * AggregateWidth m →
     ∃ m', shiftRight m sds' left right = Ok m' ∧ valid m' sds').
Proof.
  intros Hv. split_and!.
  - intros Hj. split; [by apply adjustBlockSize_ok|by apply addElement_ok].
  - intros. by apply (shiftLeft_ok m sds).
  - intros. by apply (shiftRight_ok m sds).
Qed.

(** ** Witnesses *)

(** Seven blocks, aggregated two by two. *)
Definition sizesExample : SizeView := mkSizeView 5 [3; 4; 0; 2; 4; 0; 0].
Definition managerExample : HierarchicalBlockSizeManager := mkManager [7; 2; 4] 3 2.

Lemma managerExample_valid : valid managerExample sizesExample.
Proof.
  split; [split_and!; simpl; unfold zlen; simpl; lia|]. simpl. intros i Hi.
  assert (i = 0 ∨ i = 1 ∨ i = 2) as [->|[->| ->]] by lia; reflexivity.
Qed.

Lemma hierarchical_equals_linear_witness :
  getNumberOfElements managerExample sizesExample 1 5 = Ok 10.
Proof.
  destruct (hierarchical_equals_linear managerExample sizesExample 1 5) as [_ ->].
  - apply managerExample_valid.
  - lia.
  - unfold zlen. simpl. lia.
  - vm_compute. discriminate.
  - reflexivity.
Defined.

Lemma recompute_establishes_witness :
  ∃ m', recompute (mkManager [0] 1 2) sizesExample 2 = Ok m' ∧ valid m' sizesExample.
Proof.
  destruct (recompute_establishes (mkManager [0] 1 2) sizesExample 2 false) as (m'&?&?&_).
  - done.
  - reflexivity.
  - vm_compute. discriminate.
  - vm_compute. discriminate.
  - by exists m'.
Defined.

Lemma updates_preserve_valid_witness :
  (∃ m', adjustBlockSize managerExample 3 2 4 = Ok m' ∧ valid m' (update_size sizesExample 3 4)) ∧
  (∃ m', shiftLeft managerExample (mkSizeView 5 [3; 4; 2; 4; 0; 0; 0]) 2 3 = Ok m' ∧
     valid m' (mkSizeView 5 [3; 4; 2; 4; 0; 0; 0])).
Proof.
  destruct (updates_preserve_valid managerExample sizesExample (mkSizeView 5 [3; 4; 2; 4; 0; 0; 0]) 3 4 2 3)
    as (Hadj&Hleft&_); [apply managerExample_valid|]. split.
  - destruct Hadj as [Hadj _]; [vm_compute; split; congruence|exact Hadj].
  - apply Hleft; [|lia|vm_compute; reflexivity]. split_and!; [reflexivity..| |].
    + intros i Hi. assert (i = 2 ∨ i = 3) as [->| ->] by lia; reflexivity.
    + intros i Hi. unfold size_at. simpl.
      destruct (decide (i < 0)) as [Hneg|]; [by rewrite !at_None_bound by lia|].
      destruct (decide (7 ≤ i)) as [Hbig|]; [by rewrite !at_None_bound by (unfold zlen; simpl; lia)|].
      assert (i = 0 ∨ i = 1 ∨ i = 5 ∨ i = 6) as [->|[->|[->| ->]]] by lia; reflexivity.
Defined.
