(* ===== verification/RebalancingProps.v ===== *)
(** * Properties of the rebalancing hierarchy *)

From S2P Require Import RebalancingTasks.
From S2P Require Import Instances BucketMapProps.
Import BinaryRebalancingManager.

Section properties.
Context `{T : SdsTypes} `{R : RebalancingConfig} `{D : DensityManager} `{H : ConcurrentBucketMap.Hash}.
Implicit Types (m : Manager) (l i : Z).

(** C14: the update after an insertion.  When the hierarchy was exact before the
    insertion, no rebalancing is pending and every segment whose count changed is in the
    recounting map (flagged if it no longer fits), [update] returns; every node then holds
    the exact number of blocks below it; the nodes to rebalance are exactly the flagged
    ones; each of them lies within its density threshold, the super root only being
    chosen when the blocks exceed the root; and every flagged segment lies below a node to
    rebalance, except when the root is over its threshold but not over its capacity. *)
Theorem update_correct `{!ThresholdLaw} m sds map before after :
  shape m → 0 ≤ logCapacity m ≤ 60 → counts_match m before →
  (∀ l i, node_in (logCapacity m) l i → flg m l i = false) →
  wf map → wf (nextLevelRecountingNodes m) →
  (∀ k, is_Some (contents (nextLevelRecountingNodes m) !! k) → node_in (logCapacity m) 1 k) →
  (∀ j, is_Some (contents map !! j) → 0 ≤ j < 2 ^ logCapacity m) →
  (∀ j, 0 ≤ j < 2 ^ logCapacity m → aggregateNodeRangeLevelZero sds j = Ok (after j) ∧
     (before j ≠ after j → is_Some (contents map !! j)) ∧
     (AggregateWidth < after j → contents map !! j = Some true)) →
  ∃ m' map' nodes, update m sds map [] = Ok (m', map', nodes) ∧
    shape m' ∧ logCapacity m' = logCapacity m ∧ counts_match m' after ∧
    (∀ l i, node_in (logCapacity m) l i → flg m' l i = true ↔ mkRebalancingNode l i ∈ nodes) ∧
    (∀ nd, nd ∈ nodes → node_in (logCapacity m) (level nd) (index nd) ∧
       (level nd ≤ logCapacity m → target after (level nd) (index nd)
          ≤ threshold (level nd) (logCapacity m) (2 ^ level nd)) ∧
       (level nd = logCapacity m + 1 →
          AggregateWidth * 2 ^ logCapacity m < target after (logCapacity m) 0)) ∧
    (∀ j, contents map !! j = Some true →
       (∃ l, 0 ≤ l ≤ logCapacity m + 1 ∧ mkRebalancingNode l (j / 2 ^ l) ∈ nodes) ∨
       threshold (logCapacity m) (logCapacity m) (2 ^ logCapacity m)
         < target after (logCapacity m) 0 ≤ AggregateWidth * 2 ^ logCapacity m).
Proof.
  intros Hs Hlog Hc Hf Hmap Hnext Hkeys Hleaves Hseg.
  assert (∀ j, 0 ≤ j < 2 ^ logCapacity m → cnt m 0 j = before j) as Hleaf.
  { intros j Hj. rewrite Hc; [done| |lia]. left. rewrite Z.sub_0_r. lia. }
  pose proof (update_ok m after (contents map) (counts_consistent m before Hc) Hleaves Hlog sds map
    Hs Hmap eq_refl Hnext Hkeys Hf) as Hu.
  destruct (proj1 (wp_returns _ _) (Hu (λ j Hj, proj1 (Hseg j Hj))
    (λ j Hj Hne, proj1 (proj2 (Hseg j Hj)) (λ Heq, Hne (eq_trans (Hleaf j Hj) Heq)))
    (λ j Hj, proj2 (proj2 (Hseg j Hj))))) as ([[m' map'] nodes]&Hup&[Hs' Hlog' Hcnt Hfl Hnd Hcov _ _ _]&_).
  exists m', map', nodes. split_and!; [done|done|done|..].
  - intros l i. rewrite Hlog'. by apply Hcnt.
  - intros l i Hn. apply Hfl. by rewrite Hlog'.
  - done.
  - intros j Hj. destruct (Hcov j Hj) as [(l&Hl&Hin)|?]; [left|by right]. exists l. split; [lia|done].
Qed.

(** C27: [recompute] fills the hierarchy with the counts of the array, keeping the flags, and
    [validate] accepts the result. *)
Theorem recompute_then_validate m sds is_empty buffers sdsSize :
  shape m → 0 < AggregateWidth → readable sds is_empty buffers sdsSize →
  ∃ m', recompute m sds sdsSize = Ok m' ∧ shape m' ∧ logCapacity m' = logCapacity m ∧
    counts_match m' (segment is_empty buffers sdsSize) ∧
    (∀ l i, node_in (logCapacity m) l i → flg m' l i = flg m l i) ∧
    validate m' sds sdsSize = Ok tt.
Proof.
  intros Hs HW Hr. destruct (recompute_ok sds is_empty buffers m sdsSize sdsSize) as (m'&Hm&Hs'&Hl&Hc&Hf);
    [done..|]. assert (counts_match m' (segment is_empty buffers sdsSize)) as Hc' by (intros l i; rewrite Hl; apply Hc).
  exists m'. split_and!; try done. by apply (validate_ok sds is_empty buffers m' sdsSize).
Qed.

(** C19: when the counts are exact, [findBlockInRebalancingTask] returns the place of the
    block with a given number below a node: the blocks of the node's range before that
    place, buffer blocks included, are exactly that many; numbers beyond the last block
    give the end of the range. *)
Theorem findBlock_correct m sds is_empty buffers sdsSize l i n :
  shape m → 0 < AggregateWidth →
  readable sds is_empty buffers (2 ^ logCapacity m * AggregateWidth) →
  (∀ j, sdsSize ≤ j → weight is_empty buffers j = 0) →
  counts_match m (segment is_empty buffers sdsSize) →
  node_in (logCapacity m) l i → l ≤ logCapacity m → 0 ≤ n →
  (n ≤ cnt m l i → ∃ p, findBlockInRebalancingTask m sds (mkRebalancingNode l i) n = Ok p ∧
     place_in buffers (node_left l i) (node_left l (i + 1)) p ∧
     blocks_before is_empty buffers (node_left l i) p = n) ∧
  (cnt m l i < n → findBlockInRebalancingTask m sds (mkRebalancingNode l i) n =
     Ok (mkExtendedPmaIndex (node_left l (i + 1)) (-1))).
Proof.
  intros Hs HW Hr Hz Hc Hn Hl Hpos. split.
  - intros Hle. destruct (findBlock_ok sds is_empty buffers m Hs HW Hr) with (l := l) (i := i) (n := n)
      as (p&?&?&?&_); try done; [|by exists p]. clear l i Hn Hl Hle.
    intros l i Hn Hl. rewrite Hc by done. rewrite <-target_range by (destruct Hn as [[? ?]|[? ?]]; lia).
    unfold target. generalize (Z.to_nat l). intros k. clear Hn Hl. revert i.
    induction k as [|k IH]; intros i; simpl; [by apply segment_range|]. by rewrite !IH.
  - intros Hlt. by apply (findBlock_end sds m).
Qed.

(** C28: a node to rebalance is dominated when some node above it is flagged as well;
    [rebalancingNodeDominated] decides this and takes the flag of a dominated node back,
    changing nothing else. *)
Theorem dominance_correct m l i :
  shape m → node_in (logCapacity m) l i → l ≤ logCapacity m → flg m l i = true →
  ∃ m' (b : bool), rebalancingNodeDominated m (mkRebalancingNode l i) = Ok (m', b) ∧
    (b = true ↔ ∃ k, 0 < k ∧ l + k ≤ logCapacity m + 1 ∧ flg m (l + k) (i / 2 ^ k) = true) ∧
    shape m' ∧
    (∀ l' i', node_in (logCapacity m) l' i' → cnt m' l' i' = cnt m l' i' ∧
       flg m' l' i' = if bool_decide ((l', i') = (l, i)) then negb b else flg m l' i').
Proof.
  intros Hs Hn Hl Hf. destruct (rebalancingNodeDominated_ok m l i Hs Hn Hl Hf)
    as (m'&b&Hd&Hb&Hs'&_&Hc&Hflg&_). exists m', b. split_and!; [done|done|done|]. intros l' i' Hn'.
  split; [by apply Hc|by apply Hflg].
Qed.

(** C36: [resize] returns (the loop that doubles the capacity ends), has room for the new
    number of segments, keeps the hierarchy when its capacity suffices, and starts an
    empty one with a larger capacity otherwise. *)
Theorem resize_correct m newSdsSize :
  shape m → 0 < AggregateWidth → 0 ≤ newSdsSize → logCapacity m ≤ 60 →
  newSdsSize / AggregateWidth < 2 ^ 58 → size m ≤ capacity m →
  ∃ m', resize m newSdsSize = Ok m' ∧ shape m' ∧
    size m' = newSdsSize / AggregateWidth + 1 ∧ size m' ≤ capacity m' ∧
    (size m' ≤ capacity m → aggregates m' = aggregates m) ∧
    (capacity m < size m' → ∀ l i, cnt m' l i = 0 ∧ flg m' l i = false).
Proof.
  intros Hs HW Hn Hl Hb Hc. destruct (resize_ok m newSdsSize) as (m'&?&?&?&?&?&Hk&_&_); [done..|].
  exists m'. split_and!; try done. intros Hle. by apply Hk.
Qed.

End properties.

(** ** Witnesses

    Four segments of two entries; entries 0 and 5 hold a block each, entry 0 has one
    buffer block and entry 5 two. *)

#[export] Instance pairSegments : RebalancingConfig := {| AggregateWidth := 2 |}.
#[export] Existing Instance densityThree.

#[export] Instance densityThree_law : ThresholdLaw.
Proof.
  intros l Lc Hl HLc. apply Z.leb_le. by apply (every_level (λ l Lc, threshold l Lc (2 ^ l) <=? 2 * 2 ^ l)); [vm_compute|..].
Qed.

Definition hierarchyOf (counts : list Z) : Manager :=
  mkManager ((λ n, mkEntry n false) <$> counts) [0; 4; 6; 7] [1; 2; 4; maxSizeType] 4 2 3 4
    (ConcurrentBucketMap.create 1) 1.

Lemma node_in_two l i : node_in 2 l i → l ≤ 3 ∧
  (l, i) ∈ [(0, 0); (0, 1); (0, 2); (0, 3); (1, 0); (1, 1); (2, 0); (3, 0)].
Proof.
  intros [[Hl Hi]|[-> ->]]; [|split; [lia|set_solver]]. split; [lia|].
  assert (l = 0 ∨ l = 1 ∨ l = 2) as [->|[->| ->]] by lia; simpl in Hi.
  - assert (i = 0 ∨ i = 1 ∨ i = 2 ∨ i = 3) as [->|[->|[->| ->]]] by lia; set_solver.
  - assert (i = 0 ∨ i = 1) as [->| ->] by lia; set_solver.
  - assert (i = 0) as -> by lia. set_solver.
Qed.

(** Decides a statement on all the nodes of such a hierarchy. *)
Ltac each_node := intros l i [? Hin]%node_in_two; revert Hin;
  rewrite !elem_of_cons, elem_of_nil;
  intros Hin; repeat destruct Hin as [[= -> ->]|Hin]; try done; try (vm_compute; congruence).

Lemma hierarchyOf_shape counts : zlen counts = 8 → shape (hierarchyOf counts).
Proof.
  intros Hl. split; try done.
  - unfold hierarchyOf. simpl. unfold zlen in *. by rewrite length_fmap.
  - intros l Hb. simpl in Hb. assert (l = 0 ∨ l = 1 ∨ l = 2 ∨ l = 3) as [->|[->|[->| ->]]] by lia; reflexivity.
  - intros l Hb. simpl in Hb. assert (l = 0 ∨ l = 1 ∨ l = 2) as [->|[->| ->]] by lia; reflexivity.
Qed.

Definition emptyExample (i : Z) : bool := negb ((i =? 0) || (i =? 5)).
Definition buffersExample (i : Z) : Z := if i =? 0 then 1 else if i =? 5 then 2 else 0.
Definition viewExample : SdsView :=
  mkSdsView 8 (λ i, Ok (emptyExample i)) (λ i, Ok (buffersExample i)).

Lemma viewExample_readable n : readable viewExample emptyExample buffersExample n.
Proof. intros i _. split_and!; [done|done|]. unfold buffersExample. bool_cases; lia. Qed.

Lemma recompute_then_validate_witness :
  ∃ m', recompute (hierarchyOf [0; 0; 0; 0; 0; 0; 0; 0]) viewExample 8 = Ok m' ∧
    validate m' viewExample 8 = Ok tt.
Proof.
  destruct (recompute_then_validate (hierarchyOf [0; 0; 0; 0; 0; 0; 0; 0]) viewExample emptyExample buffersExample 8)
    as (m'&?&_&_&_&_&?).
  - by apply hierarchyOf_shape.
  - done.
  - apply viewExample_readable.
  - by exists m'.
Defined.

(** The fourth block below the root lies in segment 2. *)
Lemma findBlock_correct_witness :
  ∃ p, findBlockInRebalancingTask (hierarchyOf [2; 0; 3; 0; 2; 3; 5; 0]) viewExample (mkRebalancingNode 2 0) 4 = Ok p ∧
    blocks_before emptyExample buffersExample 0 p = 4.
Proof.
  destruct (findBlock_correct (hierarchyOf [2; 0; 3; 0; 2; 3; 5; 0]) viewExample emptyExample buffersExample 8 2 0 4)
    as [Hfind _].
  - by apply hierarchyOf_shape.
  - done.
  - apply viewExample_readable.
  - intros j Hj. unfold weight, emptyExample, buffersExample. bool_cases; simpl; lia.
  - each_node.
  - left. vm_compute. intuition congruence.
  - done.
  - done.
  - destruct Hfind as (p&?&_&?); [vm_compute; discriminate|]. by exists p.
Defined.

(** Entry 5 has just received its buffer blocks; segment 2 is flagged. *)
Definition recountExample : ConcurrentBucketMap.ConcurrentBucketMap :=
  default (ConcurrentBucketMap.create 1)
    (match ConcurrentBucketMap.insert (ConcurrentBucketMap.create 1) 2 true with Ok m => Some m | Err _ => None end).

Lemma recountExample_spec : wf recountExample ∧ contents recountExample = {[2 := true]}.
Proof.
  destruct (insert_refines (ConcurrentBucketMap.create 1) 2 true) as (m&Hi&Hm&Hc); [by apply wf_create|].
  unfold recountExample. rewrite Hi. simpl. split; [done|]. rewrite Hc. by vm_compute.
Qed.

Lemma create_contents n : contents (ConcurrentBucketMap.create n) = ∅.
Proof. apply contents_empty. Qed.

Lemma update_correct_witness :
  ∃ m' map', update (hierarchyOf [2; 0; 1; 0; 2; 1; 3; 0]) viewExample recountExample [] =
      Ok (m', map', [mkRebalancingNode 1 1]) ∧
    cnt m' 0 2 = 3 ∧ cnt m' 1 1 = 3 ∧ cnt m' 2 0 = 5.
Proof.
  destruct recountExample_spec as [Hwf Hc].
  destruct (update_correct (hierarchyOf [2; 0; 1; 0; 2; 1; 3; 0]) viewExample recountExample
    (λ j, nth (Z.to_nat j) [2; 0; 1; 0] 0) (λ j, nth (Z.to_nat j) [2; 0; 3; 0] 0))
    as (m'&map'&nodes&Hu&_&Hlog&Hcnt&_).
  - by apply hierarchyOf_shape.
  - done.
  - each_node.
  - each_node.
  - done.
  - by apply wf_create.
  - intros k. simpl. rewrite create_contents, lookup_empty. by intros [? ?].
  - intros j. rewrite Hc. intros [? Hj]. apply lookup_singleton_Some in Hj as [<- _]. done.
  - intros j Hj. rewrite Hc. simpl in Hj. assert (j = 0 ∨ j = 1 ∨ j = 2 ∨ j = 3) as [->|[->|[->| ->]]] by lia;
      (split; [vm_compute; reflexivity|split; [first [by intros []|intros _; eexists; vm_compute; reflexivity]|by vm_compute]]).
  - exists m', map'. split.
    + assert ((match update (hierarchyOf [2; 0; 1; 0; 2; 1; 3; 0]) viewExample recountExample [] with
        Ok (_, _, l) => l | Err _ => [] end) = [mkRebalancingNode 1 1]) as Hn by (vm_compute; reflexivity).
      rewrite Hu in Hn. by rewrite Hu, Hn.
    + assert (∀ l i, node_in 2 l i → l ≤ 2 → cnt m' l i = target (λ j, nth (Z.to_nat j) [2; 0; 3; 0] 0) l i) as Hc'
        by (intros l i; specialize (Hcnt l i); rewrite Hlog in Hcnt; exact Hcnt).
      rewrite !Hc' by first [lia|left; vm_compute; intuition congruence]. split_and!; vm_compute; reflexivity.
Defined.

(** The two children of the root are flagged, the left one twice dominated below. *)
Definition flagsExample : Manager :=
  mkManager [mkEntry 2 true; mkEntry 0 false; mkEntry 3 false; mkEntry 0 false; mkEntry 2 true;
    mkEntry 3 true; mkEntry 5 false; mkEntry 0 false] [0; 4; 6; 7] [1; 2; 4; maxSizeType] 4 2 3 4
    (ConcurrentBucketMap.create 1) 1.

Lemma flagsExample_shape : shape flagsExample.
Proof.
  split; try done.
  - intros l Hb. simpl in Hb. assert (l = 0 ∨ l = 1 ∨ l = 2 ∨ l = 3) as [->|[->|[->| ->]]] by lia; reflexivity.
  - intros l Hb. simpl in Hb. assert (l = 0 ∨ l = 1 ∨ l = 2) as [->|[->| ->]] by lia; reflexivity.
Qed.

Lemma dominance_correct_witness :
  (∃ m', rebalancingNodeDominated flagsExample (mkRebalancingNode 0 0) = Ok (m', true)) ∧
  (∃ m', rebalancingNodeDominated flagsExample (mkRebalancingNode 1 1) = Ok (m', false)).
Proof.
  split.
  - destruct (dominance_correct flagsExample 0 0) as (m'&[|]&Hd&Hb&_).
    + apply flagsExample_shape.
    + left. vm_compute. intuition congruence.
    + done.
    + done.
    + by exists m'.
    + exfalso. discriminate (proj2 Hb). exists 1. split_and!; [lia|done|done].
  - destruct (dominance_correct flagsExample 1 1) as (m'&[|]&Hd&Hb&_).
    + apply flagsExample_shape.
    + left. vm_compute. intuition congruence.
    + done.
    + done.
    + exfalso. destruct (proj1 Hb eq_refl) as (k&Hk&Hk2&Hf). simpl in Hk2.
      assert (k = 1 ∨ k = 2) as [->| ->] by lia; by vm_compute in Hf.
    + by exists m'.
Defined.

Lemma resize_correct_witness :
  ∃ m', resize (hierarchyOf [2; 0; 1; 0; 2; 1; 3; 0]) 21 = Ok m' ∧ size m' = 11 ∧ 11 ≤ capacity m' ∧
    cnt m' 0 0 = 0.
Proof.
  destruct (resize_correct (hierarchyOf [2; 0; 1; 0; 2; 1; 3; 0]) 21) as (m'&Hr&_&Hs&Hc&_&Hn).
  - by apply hierarchyOf_shape.
  - done.
  - done.
  - done.
  - vm_compute. reflexivity.
  - done.
  - change (21 / AggregateWidth + 1) with 11 in Hs. exists m'. rewrite Hs in Hc, Hn.
    split_and!; [done|done|done|]. by apply Hn.
Defined.
