(* ===== verification/ArrayProps.v ===== *)
(** * Properties of membership, lookup, iteration and range queries

    They hold of every array that stores sorted blocks ([stores]), which both packed
    memory arrays do between two batch insertions. *)

From S2P Require Import ArrayContents Instances BucketMapProps RebalancingProps Sds.
Import BatchedSparseArray.

(** [n] steps of [for (it = ...; it != end(); ++it)]: the values visited. *)
Fixpoint visit `{SdsTypes} {A} `{!SparseArray A} (s : A) (n : nat) (it : Iterator.iterator)
    : result (list ValueType * Iterator.iterator) :=
  match n with
  | O => Ok ([], it)
  | S n =>
    v ← Iterator.dereference s it;
    '(it, _) ← Iterator.preIncrement s it;
    '(vs, it) ← visit s n it;
    Ok (v :: vs, it)
  end.

Section properties.
Context `{T : SdsTypes} `{C : BlockConfig} `{BC : !BlockConfigOk} {A : Type} `{Arr : !SparseArray A}.
Implicit Types (s : A) (ls : list (list ValueType)).

Lemma visit_from s ls l1 l2 it :
  stores s ls → concat ls = l1 ++ l2 → position s ls it (zlen l1) →
  visit s (length l2) it = Ok (l2, Iterator.end_ s).
Proof.
  intros Hs. revert l1 it. induction l2 as [|v l2 IH]; intros l1 it Hc Hp; simpl.
  - rewrite app_nil_r in Hc. subst l1. pose proof (position_last s ls Hs it _ Hp) as He.
    rewrite Z.eqb_refl in He. unfold Iterator.eqb in He. apply andb_true_iff in He as [H1%Z.eqb_eq H2%Z.eqb_eq].
    destruct it as [i j]. simpl in *. unfold Iterator.end_. simpl. congruence.
  - assert (zlen l1 < zlen (concat ls)) as Hlt by (rewrite Hc; zlen).
    destruct (dereference_ok s ls Hs it _ Hp Hlt) as (w&Hw&->). cbn [mbind result_bind].
    rewrite Hc, at_middle in Hw. injection Hw as ->.
    destruct (iterator_findNext_ok s ls Hs it _ Hp Hlt) as (it'&Hn&Hp'). unfold Iterator.preIncrement.
    rewrite Hn. cbn [mbind result_bind]. rewrite (IH (l1 ++ [w]) it'); [done|by rewrite <-app_assoc|].
    by replace (zlen (l1 ++ [w])) with (zlen l1 + 1) by zlen.
Qed.

(** C15: [contains] decides whether some block of the array holds the key. *)
Theorem array_contains_correct s ls e :
  stores s ls → Search.contains s e = Ok (bool_decide (e ∈ keys (concat ls))).
Proof. intros Hs. by apply array_contains_ok. Qed.

(** C37: iterating from [begin()] to [end()] visits every element once, in key order;
    empty entries between the blocks are skipped. *)
Theorem iteration_correct s ls :
  stores s ls → ∃ it, Iterator.begin_ s = Ok it ∧
    visit s (length (concat ls)) it = Ok (concat ls, Iterator.end_ s) ∧ sorted (concat ls).
Proof.
  intros Hs. destruct (begin_ok s ls Hs) as (it&Hb&Hp). exists it.
  split_and!; [done| |apply (st_sorted s ls Hs)]. by apply (visit_from s ls [] _ it).
Qed.

(** [find] returns the position of the element with the key, and [end()] exactly when
    there is none. *)
Lemma find_correct s ls e :
  stores s ls → ∃ it, Iterator.find s e = Ok it ∧
    (it = Iterator.end_ s ↔ (e ∉ keys (concat ls))) ∧
    (it ≠ Iterator.end_ s → ∃ v, Iterator.dereference s it = Ok v ∧ v ∈ concat ls ∧ keyOfValue v = e).
Proof.
  intros Hs. destruct (find_ok s ls Hs e) as (it&Hf&[(n&v&Hp&Hv&He)|[-> Hne]]); exists it || eexists;
    (split; [exact Hf|]).
  - pose proof (at_Some_bound _ _ _ Hv) as Hb.
    destruct (dereference_ok s ls Hs it n Hp ltac:(lia)) as (v'&Hv'&Hd). rewrite Hv in Hv'. injection Hv' as <-.
    assert (v ∈ concat ls) as Hin by (apply at_lookup in Hv as [_ Hl]; by eapply list_elem_of_lookup_2).
    assert (it ≠ Iterator.end_ s) as Hne.
    { intros ->. pose proof (position_last s ls Hs _ n Hp) as Hl. unfold Iterator.eqb in Hl.
      rewrite !Z.eqb_refl in Hl. symmetry in Hl. apply Z.eqb_eq in Hl. lia. }
    split; [|intros _; by exists v]. split; [done|]. intros Hnk. destruct Hnk. apply elem_of_keys. by exists v.
  - split; [done|]. done.
Qed.

(** C25: [lowerBound] returns the position of the first element whose key is at least the
    given one, [end()] if all keys are smaller. *)
Theorem lowerBound_correct s ls e :
  stores s ls → ∃ it l1 l2, Iterator.lowerBound s e = Ok it ∧ concat ls = l1 ++ l2 ∧
    below l1 e ∧ above (e - 1) l2 ∧ visit s (length l2) it = Ok (l2, Iterator.end_ s).
Proof.
  intros Hs. destruct (lowerBound_ok s ls Hs e) as (it&l1&l2&Hl&Hc&H1&H2&Hp).
  exists it, l1, l2. split_and!; [done..|]. by apply (visit_from s ls l1 l2).
Qed.

(** C26: [rangeQuery] calls the function on the elements with keys in the half-open range,
    in key order, and terminates: no assertion of its loop fails. *)
Theorem rangeQuery_correct s ls lft rgt (fuel : nat) :
  stores s ls → zlen (concat ls) < Z.of_nat fuel →
  Iterator.rangeQuery s lft rgt fuel = Ok (filter (λ v, lft ≤ keyOfValue v < rgt) (concat ls)).
Proof. intros Hs Hf. by apply rangeQuery_ok. Qed.

End properties.

(** ** Witnesses: two blocks with an empty entry between them and one behind *)

#[export] Instance fourThreads : ThreadConfig := {| MaxNumberOfThreads := 4 |}.

Definition sdsExample : Sds :=
  mkSds 4 4 4 3
    [blockOf [(1, 10); (3, 30)]; PmaEntry.null_entry; blockOf [(5, 50); (7, 70); (9, 90)]; PmaEntry.null_entry]
    (replicate 4 PmaEntry.null_entry) (replicate 4 PmaEntry.null_entry) (replicate 4 Interval.empty)
    (hierarchyOf [2; 0; 0; 0; 2; 0; 2; 0]) [] (ConcurrentBucketMap.create 1) [] [] [] 1 0 0.

Definition contentsExample : list (list (@ValueType pairTypes)) := [[(1, 10); (3, 30)]; []; [(5, 50); (7, 70); (9, 90)]].

Lemma sdsExample_stores : stores sdsExample contentsExample.
Proof.
  split; try done.
  - intros i l Hl. pose proof (at_Some_bound _ _ _ Hl) as Hb. unfold zlen in Hb. simpl in Hb.
    assert (i = 0 ∨ i = 1 ∨ i = 2) as [->|[->| ->]] by lia; injection Hl as <-.
    + right. split; [done|]. exists (blockOf [(1, 10); (3, 30)]), [(0, 0); (0, 0)]. split; [done|]. concrete.
    + by left.
    + right. split; [done|]. exists (blockOf [(5, 50); (7, 70); (9, 90)]), [(0, 0)]. split; [done|]. concrete.
  - intros i Hi. simpl in Hi. assert (i = 0 ∨ i = 1 ∨ i = 2) as [->|[->| ->]] by lia; done.
  - simpl. concrete.
  - simpl. vm_compute. intros Hin. repeat (apply elem_of_cons in Hin as [?|Hin]; [done|]). by apply elem_of_nil in Hin.
Qed.

Lemma array_contains_correct_witness :
  Search.contains sdsExample 7 = Ok true ∧ Search.contains sdsExample 4 = Ok false.
Proof.
  split; rewrite (array_contains_correct sdsExample contentsExample) by apply sdsExample_stores; vm_compute; reflexivity.
Defined.

Lemma iteration_correct_witness :
  ∃ it, Iterator.begin_ sdsExample = Ok it ∧
    visit sdsExample 5 it = Ok ([(1, 10); (3, 30); (5, 50); (7, 70); (9, 90)], Iterator.mkIterator 3 0).
Proof.
  destruct (iteration_correct sdsExample contentsExample) as (it&?&?&_); [apply sdsExample_stores|]. by exists it.
Defined.

Lemma find_correct_witness :
  (∃ it, Iterator.find sdsExample 7 = Ok it ∧ it ≠ Iterator.end_ sdsExample) ∧
  Iterator.find sdsExample 6 = Ok (Iterator.end_ sdsExample).
Proof.
  split.
  - destruct (find_correct sdsExample contentsExample 7) as (it&?&Hn&_); [apply sdsExample_stores|].
    exists it. split; [done|]. intros ->. apply (proj1 Hn); [done|]. vm_compute. set_solver.
  - destruct (find_correct sdsExample contentsExample 6) as (it&?&Hn&_); [apply sdsExample_stores|].
    rewrite (proj2 Hn) in *; [done|]. vm_compute. set_solver.
Defined.

Lemma lowerBound_correct_witness :
  ∃ it, Iterator.lowerBound sdsExample 6 = Ok it ∧ Iterator.dereference sdsExample it = Ok (7, 70).
Proof.
  destruct (lowerBound_correct sdsExample contentsExample 6) as (it&_&_&Hl&_); [apply sdsExample_stores|].
  exists it. split; [done|]. revert Hl. vm_compute. by intros [= <-].
Defined.

Lemma rangeQuery_correct_witness :
  Iterator.rangeQuery sdsExample 3 9 6 = Ok [(3, 30); (5, 50); (7, 70)].
Proof. rewrite (rangeQuery_correct sdsExample contentsExample) by (apply sdsExample_stores || done). reflexivity. Defined.
