(* ===== verification/InsertionProps.v ===== *)
(** * Properties of the insertion routines

    A thread inserts its part of the batch into its range of the pma; blocks that overflow
    move to the buffer array.  [layout s gs] says that entry [i] of the array holds the
    blocks [gs !! i] (its own block and its buffer blocks), that all blocks are at least
    half full and that the keys are strictly sorted. *)

From S2P Require Import SdsRange SdsFill ArrayProps Instances RebalancingProps BucketMapProps.
Import BlockSeq BatchedSparseArray Insertion.

Section properties.
Context `{T : SdsTypes} `{C : BlockConfig}.
Context `{BC : !BlockConfigOk} `{HB : !HalfBlocks}.
Context `{R : RebalancingConfig} `{D : DensityManager}.
Context `{H : ConcurrentBucketMap.Hash} `{P : ThreadConfig}.
Implicit Types (s : Sds) (l rest batch es : list ValueType) (bs : list (list ValueType * list ValueType)).

(** C9: inserting a range of the batch into a range of the pma ([insertBatchRange], the
    whole task of an inserting thread).  When the range starts with a block, has no buffer
    blocks yet, and the blocks outside of it lie on the right sides of the batch keys, the
    task returns; the array then holds its old elements merged with the batch elements of
    new keys, in blocks that are again half full and sorted; entries outside the range and
    buffer cells outside the task's own are untouched; every entry with new buffer blocks
    has its node flagged for rebalancing; and the task uses at most two buffer blocks per
    batch element. *)
Theorem insertBatchRange_correct s gs (pre es post : list ValueType) lo up bufferRange :
  layout s gs → 0 ≤ lo < up ∧ up ≤ size s → full s lo → (∀ j, lo ≤ j < up → unbuffered s j) →
  sorted es → (NULL_KEY ∉ keys es) → (keyOfValue zeroValue ∉ keys es) →
  (∀ j b, j < lo → at_ gs j = Some b → ∀ k, k ∈ keys es → below (elements b) k) →
  (∀ j b, up ≤ j → at_ gs j = Some b → ∀ k, k ∈ keys es → above k (elements b)) →
  wf (recountingNodesMap s) → 0 ≤ Interval.left bufferRange →
  room s (Interval.left bufferRange) (Interval.right bufferRange) →
  Interval.left bufferRange + 2 * zlen es ≤ Interval.right bufferRange →
  ∃ s' gs' n,
    insertBatchRange s (pre ++ es ++ post) (mkInterval (zlen pre) (zlen pre + zlen es))
      (mkInterval lo up) bufferRange = Ok (s', n) ∧
    layout s' gs' ∧ elements (concat gs') = smerge (elements (concat gs)) es ∧
    0 ≤ n ≤ 2 * zlen es ∧
    (∀ j, j < lo ∨ up ≤ j → at_ gs' j = at_ gs j ∧ at_ (bufferPointers s') j = at_ (bufferPointers s) j) ∧
    (∀ c, c < Interval.left bufferRange ∨ Interval.left bufferRange + n ≤ c →
       at_ (bufferArray s') c = at_ (bufferArray s) c) ∧
    (∀ i x, at_ (bufferPointers s') i = Some x → Interval.length x ≠ 0 →
       at_ (bufferPointers s) i = Some x ∨ contents (recountingNodesMap s') !! node i = Some true) ∧
    buffer_blocks (bufferPointers s') = buffer_blocks (bufferPointers s) + n.
Proof.
  intros Hl Hr Hf Hu Hs Hn Hz Hlow Hup Hwf Hb0 Hroom Hsp.
  destruct (insertBatchRange_ok s gs pre es post lo up bufferRange) as (s'&gs'&n&Hi&Hl'&He&Hins&Hle&Hout);
    [done..|]. exists s', gs', n. pose proof (in_nonneg _ _ _ _ Hins).
  split_and!; [done|done|done|done|done|done|by apply (in_other _ _ _ _ Hins)|
    by apply (in_marked _ _ _ _ Hins)|by apply (in_blocks _ _ _ _ Hins)].
Qed.

(** C18: a block that cannot take its part of the batch is split
    ([insertIntoBlockWithSplit]): the block leaves the pma, all its elements and the batch
    elements of new keys end up, sorted, in at least half full blocks in consecutive cells
    of the buffer array, to which the entry now points; each is recorded for recounting
    with its node flagged; the other cells of the three arrays and the other nodes of the map
    stay as they are. *)
Theorem insertIntoBlockWithSplit_correct s i e (l rest : list ValueType) ks (pre es post : list ValueType) range out :
  at_ (pma s) i = Some e → represents e l rest → sorted l → MinSize ≤ zlen l →
  stale (keys l ++ ks) rest → keyOfValue zeroValue ∈ ks → sorted es → es ≠ [] →
  (∀ k, k ∈ keys es → k ∉ ks) → 0 ≤ i < zlen (bufferPointers s) → wf (recountingNodesMap s) →
  0 ≤ Interval.left range + out → room s (Interval.left range + out) (Interval.right range) →
  Interval.left range + out + 2 * zlen es ≤ Interval.right range →
  ∃ s' bs, insertIntoBlockWithSplit s i (pre ++ es ++ post) (zlen pre) (zlen pre + zlen es) range out
      = Ok (s', zlen pre + zlen es, out + zlen bs) ∧
    elements bs = smerge l es ∧ Forall (λ x, good_size x.1) bs ∧ bs ≠ [] ∧ zlen bs ≤ 2 * zlen es ∧
    at_ (bufferPointers s') i = Some (mkInterval (Interval.left range + out) (Interval.left range + out + zlen bs)) ∧
    at_ (pma s') i = Some PmaEntry.null_entry ∧
    (∀ j x, at_ bs j = Some x → ∃ e', at_ (bufferArray s') (Interval.left range + out + j) = Some e' ∧ entry_is e' x) ∧
    (∀ j, j ≠ i → at_ (pma s') j = at_ (pma s) j ∧ at_ (bufferPointers s') j = at_ (bufferPointers s) j) ∧
    (∀ c, c < Interval.left range + out ∨ Interval.left range + out + zlen bs ≤ c →
       at_ (bufferArray s') c = at_ (bufferArray s) c) ∧
    contents (recountingNodesMap s') = recounted (contents (recountingNodesMap s)) bs i.
Proof.
  intros Hat Hrep Hsl Hmin Hst Hzk Hse Hne Hfr Hi Hwf Hpos Hroom Hsp.
  destruct (insertIntoBlockWithSplit_ok s i e l rest ks pre es post range out) as (s'&bs&Hins&[F Hlen Hother Hblocks _ Hcont _]&He&Hg&_&Hbs&Hle);
    [done..|]. exists s', bs. unfold fixed in F. injection F as F1 F2 F3 F4 Hpma F5 Hptr F6 F7 F8 F9 F10 F11 F12.
  pose proof (at_Some_bound _ _ _ Hat) as Hib.
  rewrite Hptr, Hpma. simpl.
  split_and!; [done|done|done|done|done|by apply at_zupd_eq|by apply at_zupd_eq|done| |done|by apply Hcont].
  intros j Hj. by rewrite !at_zupd_ne by lia.
Qed.

(** The first insertion into an empty array ([insertIntoEmptyRange]) cuts the batch
    range into at least half full blocks in consecutive cells of the buffer array, to
    which the first entry of the range then points. *)
Lemma insertIntoEmptyRange_correct s range inputRange (pre es post : list ValueType) :
  wf (recountingNodesMap s) → room s (Interval.left range) (Interval.right range) →
  Interval.left range + 2 * zlen es ≤ Interval.right range →
  sorted es → (keyOfValue zeroValue ∉ keys es) → MinSize ≤ zlen es →
  0 ≤ Interval.left inputRange < zlen (bufferPointers s) →
  ∃ s' bs, insertIntoEmptyRange s (pre ++ es ++ post) (mkInterval (zlen pre) (zlen pre + zlen es))
      (zlen pre) inputRange range 0 = Ok (s', zlen pre + zlen es, zlen bs) ∧
    elements bs = es ∧ Forall (λ x, good_size x.1) bs ∧
    at_ (bufferPointers s') (Interval.left inputRange) =
      Some (mkInterval (Interval.left range) (Interval.left range + zlen bs)) ∧
    (∀ j x, at_ bs j = Some x → ∃ e', at_ (bufferArray s') (Interval.left range + j) = Some e' ∧ entry_is e' x) ∧
    pma s' = pma s ∧
    contents (recountingNodesMap s') = recounted (contents (recountingNodesMap s)) bs (Interval.left inputRange).
Proof.
  intros Hwf Hroom Hsp Hs Hz Hen Hptr.
  assert (room s (Interval.left range + 0) (Interval.right range)) as Hroom' by (by rewrite Z.add_0_r).
  destruct (insertIntoEmptyRange_ok s range inputRange pre es post Hwf Hroom' Hsp Hs Hz Hen Hptr)
    as (s'&bs&->&[F Hlen Hother Hblocks _ Hcont _]&He&Hg&_).
  eexists _, bs. split; [done|]. unfold fixed in F. rewrite Z.add_0_r in Hblocks.
  split_and!; [done|done|by apply at_zupd_eq|done|simpl; congruence|by apply Hcont].
Qed.

(** C20: an inverse merge task ([inverseMerge]) merges a section [m] of one block with a
    range of the batch: the result is written, sorted and with elements of the block
    taking precedence over batch elements of the same key, to at least half full blocks
    in consecutive cells of the buffer array; the block itself stays as it is. *)
Theorem inverseMerge_correct s range inputRange (pre es post m0 m m1 : list ValueType) mb (rest : list ValueType) :
  wf (recountingNodesMap s) → room s (Interval.left range) (Interval.right range) →
  (∀ n, n * MinSize ≤ zlen m + zlen es → Interval.left range + n ≤ Interval.right range) →
  at_ (pma s) (Interval.left inputRange) = Some mb → represents mb (m0 ++ m ++ m1) rest →
  sorted es → sorted m → (keyOfValue zeroValue ∉ keys es) → (NULL_KEY ∉ keys es) →
  (keyOfValue zeroValue ∉ keys m) → MinSize ≤ Z.max (zlen es) (zlen m) →
  ∃ s' bs, inverseMerge s (pre ++ es ++ post) (mkInterval (zlen pre) (zlen pre + zlen es))
      (mkInterval (zlen m0) (zlen m0 + zlen m)) inputRange range = Ok (s', zlen bs) ∧
    elements bs = smerge m es ∧ Forall (λ x, good_size x.1) bs ∧
    (∀ j x, at_ bs j = Some x → ∃ e', at_ (bufferArray s') (Interval.left range + j) = Some e' ∧ entry_is e' x) ∧
    (∀ c, c < Interval.left range ∨ Interval.left range + zlen bs ≤ c →
       at_ (bufferArray s') c = at_ (bufferArray s) c) ∧
    pma s' = pma s ∧ bufferPointers s' = bufferPointers s ∧
    contents (recountingNodesMap s') = recounted (contents (recountingNodesMap s)) bs (Interval.left inputRange).
Proof.
  intros Hwf Hroom Hsp Hat Hrep Hs Hsm Hz Hn Hzm Hen.
  assert (room s (Interval.left range + 0) (Interval.right range)) as Hroom' by (by rewrite Z.add_0_r).
  destruct (inverseMerge_ok s range inputRange pre es post m0 m m1 mb rest)
    as (s'&bs&->&[F Hlen Hother Hblocks _ Hcont _]&He&Hg&_); [done..|].
  eexists _, bs. split; [done|]. unfold fixed in F. rewrite Z.add_0_r in Hblocks, Hother.
  split_and!; [done|done|done|done|congruence|congruence|by apply Hcont].
Qed.

End properties.

(** ** Witnesses *)

(** The array of ArrayProps.v with eight free buffer cells. *)
Definition roomyExample : Sds :=
  mkSds 4 4 8 3
    [blockOf [(1, 10); (3, 30)]; PmaEntry.null_entry; blockOf [(5, 50); (7, 70); (9, 90)]; PmaEntry.null_entry]
    (replicate 4 PmaEntry.null_entry) (replicate 8 PmaEntry.null_entry) (replicate 4 Interval.empty)
    (hierarchyOf [2; 0; 0; 0; 2; 0; 2; 0]) [] (ConcurrentBucketMap.create 1) [] [] [] 1 0 0.

Definition blocksExample : list (list (list (@ValueType pairTypes) * list (@ValueType pairTypes))) :=
  [[([(1, 10); (3, 30)], [(0, 0); (0, 0)])]; []; [([(5, 50); (7, 70); (9, 90)], [(0, 0)])]].

Ltac small_index := repeat match goal with
  | Hb : _ ≤ ?i < 3 |- _ => assert (i = 0 ∨ i = 1 ∨ i = 2) as [->|[->| ->]] by lia; clear Hb
  | Hb : _ ≤ ?i < 4 |- _ => assert (i = 0 ∨ i = 1 ∨ i = 2 ∨ i = 3) as [->|[->|[->| ->]]] by lia; clear Hb
  end.

Ltac no_key := vm_compute; intros Hin; repeat (apply elem_of_cons in Hin as [?|Hin]; [done|]); by apply elem_of_nil in Hin.

Lemma blocksExample_ok : blocks_ok (concat blocksExample).
Proof.
  split_and!.
  - repeat constructor; vm_compute; congruence.
  - simpl. concrete.
  - simpl. split_and!; [intros v Hv..|done]; repeat (apply elem_of_cons in Hv as [->|Hv]; [vm_compute; set_solver|]); by apply elem_of_nil in Hv.
  - no_key.
  - no_key.
Qed.

(** Parts of an entry without buffer blocks. *)
Ltac no_buffers := split_and!; try done; try concrete; split; [done|];
  intros j y Hj; apply at_Some_bound in Hj; unfold zlen in Hj; simpl in Hj; lia.

Lemma roomyExample_layout : layout roomyExample blocksExample.
Proof.
  split; try done.
  - intros i bs Hbs. pose proof (at_Some_bound _ _ _ Hbs) as Hb. change (zlen blocksExample) with 3 in Hb.
    small_index; injection Hbs as <-.
    + eexists [_], []. split; [done|]. exists (blockOf [(1, 10); (3, 30)]), Interval.empty. no_buffers.
    + exists [], []. split; [done|]. exists PmaEntry.null_entry, Interval.empty. no_buffers.
    + eexists [_], []. split; [done|]. exists (blockOf [(5, 50); (7, 70); (9, 90)]), Interval.empty. no_buffers.
  - intros i Hi. change (zlen blocksExample) with 3 in Hi. simpl in Hi. assert (i = 3) as -> by lia. done.
  - intros i j x y c _ Hx Hy Hc. pose proof (at_Some_bound _ _ _ Hx) as Hb. change (zlen (bufferPointers roomyExample)) with 4 in Hb.
    small_index; injection Hx as <-; unfold Interval.contains in Hc; simpl in Hc; lia.
  - apply blocksExample_ok.
Qed.

Lemma roomyExample_room : room roomyExample 0 8.
Proof.
  split; [done|]. intros i Hi. exists PmaEntry.null_entry. split; [|done].
  assert (i = 0 ∨ i = 1 ∨ i = 2 ∨ i = 3 ∨ i = 4 ∨ i = 5 ∨ i = 6 ∨ i = 7) as Hcases by lia.
  repeat destruct Hcases as [->|Hcases]; try done. by subst i.
Qed.

(** Entry 0 has room for 2 and 4, entry 2 overflows. *)
Lemma insertBatchRange_correct_witness :
  ∃ s' gs' n, insertBatchRange roomyExample [(2, 20); (4, 40); (6, 60); (8, 80)] (mkInterval 0 4) (mkInterval 0 3)
      (mkInterval 0 8) = Ok (s', n) ∧ layout s' gs' ∧
    elements (concat gs') = [(1, 10); (2, 20); (3, 30); (4, 40); (5, 50); (6, 60); (7, 70); (8, 80); (9, 90)].
Proof.
  destruct (insertBatchRange_correct roomyExample blocksExample [] [(2, 20); (4, 40); (6, 60); (8, 80)] [] 0 3 (mkInterval 0 8))
    as (s'&gs'&n&Hi&Hl&He&_).
  - apply roomyExample_layout.
  - simpl. lia.
  - by split.
  - intros j Hj. exists Interval.empty. split; [|done]. by small_index.
  - concrete.
  - no_key.
  - no_key.
  - intros j b Hj Hb. apply at_Some_bound in Hb. lia.
  - intros j b Hj Hb. apply at_Some_bound in Hb. change (zlen blocksExample) with 3 in Hb. lia.
  - by apply wf_create.
  - done.
  - apply roomyExample_room.
  - done.
  - exists s', gs', n. done.
Defined.

Lemma insertIntoBlockWithSplit_correct_witness :
  ∃ s' bs, insertIntoBlockWithSplit roomyExample 2 [(6, 60); (8, 80)] 0 2 (mkInterval 0 8) 0 = Ok (s', 2, 0 + zlen bs) ∧
    elements bs = [(5, 50); (6, 60); (7, 70); (8, 80); (9, 90)].
Proof.
  destruct (insertIntoBlockWithSplit_correct roomyExample 2 (blockOf [(5, 50); (7, 70); (9, 90)]) [(5, 50); (7, 70); (9, 90)]
    [(0, 0)] [0] [] [(6, 60); (8, 80)] [] (mkInterval 0 8) 0) as (s'&bs&?&?&_).
  - done.
  - concrete.
  - concrete.
  - vm_compute. congruence.
  - intros v ->%list_elem_of_singleton. apply elem_of_app. right. by left.
  - by left.
  - concrete.
  - done.
  - intros k Hk. vm_compute in Hk. set_solver.
  - simpl. done.
  - by apply wf_create.
  - done.
  - apply roomyExample_room.
  - done.
  - by exists s', bs.
Defined.

Lemma insertIntoEmptyRange_correct_witness :
  ∃ s' bs, insertIntoEmptyRange roomyExample [(2, 20); (4, 40); (6, 60)] (mkInterval 0 3) 0 (mkInterval 3 3) (mkInterval 0 8) 0
      = Ok (s', 3, zlen bs) ∧ elements bs = [(2, 20); (4, 40); (6, 60)].
Proof.
  destruct (insertIntoEmptyRange_correct roomyExample (mkInterval 0 8) (mkInterval 3 3) [] [(2, 20); (4, 40); (6, 60)] [])
    as (s'&bs&?&?&_).
  - by apply wf_create.
  - apply roomyExample_room.
  - done.
  - concrete.
  - no_key.
  - vm_compute. congruence.
  - simpl. done.
  - by exists s', bs.
Defined.

(** The second half of entry 2 is merged with batch elements around it. *)
Lemma inverseMerge_correct_witness :
  ∃ s' bs, inverseMerge roomyExample [(6, 60); (7, 71); (8, 80); (11, 110)] (mkInterval 0 4) (mkInterval 1 3) (mkInterval 2 3)
      (mkInterval 0 8) = Ok (s', zlen bs) ∧
    elements bs = [(6, 60); (7, 70); (8, 80); (9, 90); (11, 110)].
Proof.
  destruct (inverseMerge_correct roomyExample (mkInterval 0 8) (mkInterval 2 3) [] [(6, 60); (7, 71); (8, 80); (11, 110)] []
    [(5, 50)] [(7, 70); (9, 90)] [] (blockOf [(5, 50); (7, 70); (9, 90)]) [(0, 0)]) as (s'&bs&?&?&_).
  - by apply wf_create.
  - apply roomyExample_room.
  - intros n Hn. change (n * 2 ≤ 6) in Hn. simpl. lia.
  - done.
  - concrete.
  - concrete.
  - concrete.
  - no_key.
  - no_key.
  - no_key.
  - vm_compute. congruence.
  - by exists s', bs.
Defined.
