(* ===== verification/GbpmaProps.v ===== *)
(** * Properties of the overallocated batched sparse array *)

From S2P Require Import GbpmaRewrite Instances.
Import BlockSeq OverallocatedBatchedSparseArray OverallocatedInsertion OverallocatedDistribution.
Import PmaEntry(PmaEntry).

Section properties.
Context `{T : SdsTypes} `{C : BlockConfig}.
Context `{BC : !BlockConfigOk} `{HB : !HalfBlocks}.
Implicit Types (s : Sds) (e : PmaEntry) (u m w : list PmaEntry).

(** C17: [writeBlockInPlace] writes a new block into a range of the pma with a free cell,
    wherever that cell is.  With the cells [m1] of the range in front of the target index
    and [m2] behind it, the block lands between the blocks of [m1] and those of [m2]; the
    range keeps its length and its blocks their order, no cell outside of it changes; the
    returned index is that of the new block; and the aggregates of the size manager are
    those of the new block sizes, although only [adjustBlockSize] and one shift are
    reported to it. *)
Theorem writeBlockInPlace_correct s e u m1 m2 w :
  pma s = u ++ m1 ++ m2 ++ w → Forall cell_ok (m1 ++ m2) →
  zlen (blocks_of (m1 ++ m2)) < zlen (m1 ++ m2) → block_ok e →
  zlen u + zlen (m1 ++ m2) ≤ size s →
  valid (sizeManager s) (sizeView s) → zlen u + zlen (m1 ++ m2) ≤ managed s →
  ∃ s' m1' m2',
    writeBlockInPlace s e (zlen u + zlen m1) (mkInterval (zlen u) (zlen u + zlen (m1 ++ m2))) =
      Ok (s', zlen u + zlen m1') ∧
    pma s' = u ++ m1' ++ e :: m2' ++ w ∧ zlen (m1' ++ e :: m2') = zlen (m1 ++ m2) ∧
    blocks_of m1' = blocks_of m1 ∧ blocks_of m2' = blocks_of m2 ∧ Forall cell_ok (m1' ++ m2') ∧
    valid (sizeManager s') (sizeView s') ∧ size s' = size s ∧ swapPma s' = swapPma s.
Proof.
  intros Hp Hc Hg He Hs Hv Hm.
  destruct (writeBlockInPlace_ok s e u m1 m2 w (mkInterval (zlen u) (zlen u + zlen (m1 ++ m2))))
    as (s'&i&->&m1'&m2'&(m&->&Hv'&_)&->&H1&H2&Hl&Hc'&_); [done..|].
  by exists (set_sizeManager (set_pma s (u ++ m1' ++ e :: m2' ++ w)) m), m1', m2'.
Qed.

(** C32: the blocks of the second array, of [MaxSize = 2 * MinSize] elements, [MinSize] at least
    two and [MaxSize] less than 65535. For a block that is not empty and strictly increasing,
    and a neighbour: [remove] takes out the element with the given key and says whether there
    was one; [removeLast] takes out the last element; [split] cuts a full block into two halves;
    [mergeSmaller] puts the neighbour's elements in front, if both together fit; and if the
    block has at most [MinSize] elements and both together at least twice as many, [steal] from
    the larger neighbour and [stealFromSmaller] from the smaller one leave both with at least
    [MinSize] elements, in order and complete. In all cases the operation returns and the heads
    are those of the new sequences. *)
Theorem entries_correct (b o : PmaEntry) (e : ValueType) (l lo rest resto : list ValueType) :
  represents b l rest → represents o lo resto → sorted l → l ≠ [] → MaxSize < 65535 →
  (∃ b' rest', OverallocatedPmaEntry.remove b e = Ok (b', bool_decide (keyOfValue e ∈ keys l)) ∧
     represents b' (filter (λ v, keyOfValue v ≠ keyOfValue e) l) rest') ∧
  (∃ b' l' v, OverallocatedPmaEntry.removeLast b = Ok b' ∧ l = l' ++ [v] ∧ represents b' l' (v :: rest)) ∧
  (rest = [] → ∃ b' r l1 l2 rest1 rest2, OverallocatedPmaEntry.split b = Ok (b', r) ∧ l = l1 ++ l2 ∧
     zlen l1 = MinSize ∧ zlen l2 = MinSize ∧ represents b' l1 rest1 ∧ represents r l2 rest2) ∧
  (zlen l + zlen lo ≤ MaxSize →
     ∃ b' rest', OverallocatedPmaEntry.mergeSmaller b o = Ok b' ∧ represents b' (lo ++ l) rest') ∧
  (zlen l ≤ MinSize → 2 * MinSize ≤ zlen l + zlen lo →
     (∃ b' o' l' lo' rest' resto', OverallocatedPmaEntry.steal b o = Ok (b', o') ∧ l' ++ lo' = l ++ lo ∧
        represents b' l' rest' ∧ represents o' lo' resto' ∧ zlen l' = MinSize ∧ MinSize ≤ zlen lo') ∧
     (∃ b' o' l' lo' rest' resto', OverallocatedPmaEntry.stealFromSmaller b o = Ok (b', o') ∧ lo' ++ l' = lo ++ l ∧
        represents b' l' rest' ∧ represents o' lo' resto' ∧ zlen l' = MinSize ∧ MinSize ≤ zlen lo')).
Proof.
  intros Hb Ho Hs Hl Hmax. pose proof MinSize_two. pose proof MaxSize_double as Hdouble. split_and!.
  - destruct (remove_keeps b l rest e Hb Hs Hmax) as (b'&rest'&Hr%remove_forgets&?). by exists b', rest'.
  - destruct (exists_last Hl) as (l'&v&->). destruct (removeLast_ok b l' v rest Hb) as (b'&Hr%removeLast_forgets&?). by exists b', l', v.
  - intros ->. destruct (split_keeps b l Hb) as (b'&r&l1&l2&r1&r2&Hr%split_forgets&?&H1&H2&?&?); [rewrite Hdouble; Z.div_mod_to_equations; lia|].
    exists b', r, l1, l2, r1, r2. rewrite Hdouble, Z.mul_comm, Z.div_mul in H1, H2 by done. by split_and!.
  - intros Hfit. destruct (mergeSmaller_keeps b o l lo rest resto) as (b'&rest'&Hr%mergeSmaller_forgets&?); [done..|]. by exists b', rest'.
  - intros Hsmall Hboth. split.
    + destruct (steal_keeps b o l lo rest resto) as (b'&o'&l'&lo'&r1&r2&Hr%steal_forgets&?&?&?&?&?); [done|done|lia|done..|].
      exists b', o', l', lo', r1, r2. by split_and!.
    + destruct (stealFromSmaller_keeps b o l lo rest resto) as (b'&o'&l'&lo'&r1&r2&Hr%stealFromSmaller_forgets&?&?&?&?&?); [done|done|lia|done..|].
      exists b', o', l', lo', r1, r2. by split_and!.
Qed.

(** C16: a task out of place.  The blocks of its range go, one after the other, to the
    cells of [swapPma] from [startIndex] on, merged with the task's part of the batch: the
    null cells of the range stay, the written blocks hold the old elements and the batch
    elements of new keys in order, are at least half full, and are as many as the returned
    number.  [merge] and [mergeFaster] are chosen by the number of new elements; blocks
    that overflow are split.  No other cell of either array changes. *)
Theorem insertBatchRangeOutOfPlace_correct `{O : OverallocationConfig} `{FM : !FasterMergeOk}
    s e u m z w (sa sz : list PmaEntry) (N : nat) pre es post range :
  pma s = u ++ (e :: m) ++ z :: w → block_ok e → Forall cell_ok m → cell_ok z →
  (z = PmaEntry.null_entry ∨ ∀ k, k ∈ keys es → k < PmaEntry.head z) →
  counts s → zlen u + zlen (e :: m) ≤ managed s →
  swapPma s = sa ++ nulls N ++ sz → out_room s sa N → Interval.left range = zlen sa →
  mergeable (e :: m) [keyOfValue zeroValue] es (Z.of_nat N) →
  ∃ s' ents bs, insertBatchRangeOutOfPlace s (pre ++ es ++ post) (mkInterval (zlen pre) (zlen pre + zlen es))
      (mkInterval (zlen u) (zlen u + zlen (e :: m))) range = Ok (s', zlen bs) ∧
    pma s' = u ++ nulls (length (e :: m)) ++ z :: w ∧
    swapPma s' = sa ++ ents ++ nulls (N - length bs) ++ sz ∧ Forall2 entry_is ents bs ∧
    elements bs = smerge (elements (blocks_of (e :: m))) es ∧
    Forall (λ x, good_size x.1) bs ∧ stales [keyOfValue zeroValue] bs.
Proof.
  intros Hp He Hm Hz Hzk Hc Hmg Hsw Hr Hleft Hmrg.
  destruct (insertBatchRangeOutOfPlace_ok sa N sz range Hleft s u e m z w pre es post [keyOfValue zeroValue])
    as (s'&bs&Hi&(_&Hp'&(ents&Hsw'&Hents&_)&Hel&Hg&Hst)); try done.
  - rewrite Hsw. apply out_cells_start.
  - by left.
  - exists s', ents, bs. by split_and!.
Qed.

(** C29: [rewrite], which moves the blocks of a task from the second array back to its part
    of the pma.  If they are not more than the cells of the part, every write index is
    inside the part and the cell there is still free; afterwards the part holds the same
    blocks in the same order, the cells of the second array are null again, and nothing
    else changes. *)
Theorem rewrite_correct s u ents sz (n k : nat) :
  pma s = u ++ nulls n ++ nulls k → swapPma s = nulls (length u) ++ ents ++ sz →
  Forall block_ok ents → (length ents ≤ n)%nat → zlen u + Z.of_nat n ≤ size s →
  ∃ v, OverallocatedDistribution.rewrite s (mkInterval (zlen u) (zlen u + Z.of_nat n)) (zlen ents) =
      Ok (set_swapPma (set_pma s (u ++ v ++ nulls k)) (nulls (length u + length ents) ++ sz)) ∧
    length v = n ∧ blocks_of v = blocks_of ents ∧ Forall cell_ok v.
Proof. intros. by apply rewrite_ok. Qed.
End properties.

(** ** Witnesses *)

(** Four blocks in six cells, the free one of the range behind its three blocks. *)
Definition shiftExample : Sds :=
  mkSds 6 6 6 InitialOverallocationFactor
    [blockOf [(1, 10); (2, 20)]; blockOf [(3, 30); (4, 40)]; blockOf [(7, 70); (8, 80)];
     PmaEntry.null_entry; blockOf [(9, 90); (10, 100)]; PmaEntry.null_entry]
    (null_entries 6) (HierarchicalBlockSizeManager.mkManager [4; 2; 2] 3 2) [] 3.

Lemma shiftExample_valid : valid (sizeManager shiftExample) (sizeView shiftExample).
Proof.
  split; [split_and!; simpl; unfold zlen; simpl; lia|]. simpl. intros i Hi.
  assert (i = 0 ∨ i = 1 ∨ i = 2) as [->|[->| ->]] by lia; reflexivity.
Qed.

Lemma entries_correct_witness :
  (∃ b rest, OverallocatedPmaEntry.remove (blockOf [(8, 8)]) (7, 0) = Ok (b, false) ∧ represents b [(8, 8)] rest) ∧
  ∃ b o, OverallocatedPmaEntry.stealFromSmaller (blockOf [(8, 8)]) (blockOf [(1, 1); (3, 3); (5, 5)]) = Ok (b, o).
Proof.
  destruct (entries_correct (blockOf [(8, 8)]) (blockOf [(1, 1); (3, 3); (5, 5)]) (7, 0)
    [(8, 8)] [(1, 1); (3, 3); (5, 5)] [(0, 0); (0, 0); (0, 0)] [(0, 0)]) as (Hremove&_&_&_&Hsteal).
  1-5: concrete. split.
  - destruct Hremove as (b&rest&Hr&Hb). exists b, rest. split; [exact Hr|exact Hb].
  - destruct Hsteal as [_ (b&o&_&_&_&_&Hr&_)]; [vm_compute; congruence..|]. exists b, o. exact Hr.
Defined.

Lemma writeBlockInPlace_correct_witness :
  ∃ s' m1' m2', writeBlockInPlace shiftExample (blockOf [(5, 50); (6, 60)]) 2 (mkInterval 0 4) =
      Ok (s', zlen m1') ∧
    valid (sizeManager s') (sizeView s') ∧
    pma s' = m1' ++ blockOf [(5, 50); (6, 60)] :: m2' ++
      [blockOf [(9, 90); (10, 100)]; PmaEntry.null_entry].
Proof.
  assert (∀ x y : Z * Z, fst x ≠ 0 → block_ok (blockOf [x; y])) as Hblock.
  { intros x y Hx. exists x, [y], [(0, 0); (0, 0)]. split; [|done]. by repeat split. }
  destruct (writeBlockInPlace_correct shiftExample (blockOf [(5, 50); (6, 60)]) []
    [blockOf [(1, 10); (2, 20)]; blockOf [(3, 30); (4, 40)]]
    [blockOf [(7, 70); (8, 80)]; PmaEntry.null_entry]
    [blockOf [(9, 90); (10, 100)]; PmaEntry.null_entry])
    as (s'&m1'&m2'&Hw&Hp&_&_&_&_&Hv&_).
  - reflexivity.
  - repeat (constructor; [first [by right; apply Hblock|by left]|]). constructor.
  - vm_compute. reflexivity.
  - by apply Hblock.
  - vm_compute. discriminate.
  - apply shiftExample_valid.
  - vm_compute. discriminate.
  - by exists s', m1', m2'.
Defined.

(** Two blocks, the second one behind a free cell, and three new keys; the first block
    overflows. *)
Definition movingExample : Sds :=
  mkSds 4 8 8 InitialOverallocationFactor
    [blockOf [(1, 10); (2, 20); (4, 40)]; PmaEntry.null_entry; blockOf [(7, 70); (8, 80)]; PmaEntry.null_entry]
    (null_entries 8) (HierarchicalBlockSizeManager.mkManager [3; 2; 0] 3 2) [] 3.

#[local] Instance outOfPlaceExample : OverallocationConfig := {| MaxThreads := 4; AllowInPlaceInserts := false |}.

#[local] Instance pairFaster : FasterMergeOk.
Proof. split; [vm_compute; congruence|by right]. Qed.

Lemma blockOf_ok (x y : Z * Z) (l : list (Z * Z)) :
  fst x ≠ 0 → zlen l ≤ 2 → block_ok (blockOf (x :: y :: l)).
Proof.
  intros Hx Hl. exists x, (y :: l), (replicate (2 - length l) (0, 0)). split; [|done].
  split; [split_and!|done]; [done| |done].
  unfold zlen in *. simpl. rewrite length_replicate. change (@MaxSize smallBlocks) with 4. lia.
Qed.

Lemma insertBatchRangeOutOfPlace_correct_witness :
  ∃ s' ents bs, insertBatchRangeOutOfPlace movingExample [(3, 30); (5, 50); (9, 90)] (mkInterval 0 3) (mkInterval 0 3)
      (mkInterval 0 6) = Ok (s', zlen bs) ∧
    swapPma s' = ents ++ nulls (6 - length bs) ++ nulls 2 ∧ Forall2 entry_is ents bs ∧
    elements bs = [(1, 10); (2, 20); (3, 30); (4, 40); (5, 50); (7, 70); (8, 80); (9, 90)].
Proof.
  destruct (insertBatchRangeOutOfPlace_correct movingExample (blockOf [(1, 10); (2, 20); (4, 40)]) []
    [PmaEntry.null_entry; blockOf [(7, 70); (8, 80)]] PmaEntry.null_entry [] [] (nulls 2) 6
    [] [(3, 30); (5, 50); (9, 90)] [] (mkInterval 0 6)) as (s'&ents&bs&Hi&_&Hsw&Hents&Hel&_).
  - reflexivity.
  - apply blockOf_ok; [done|vm_compute; congruence].
  - constructor; [by left|]. constructor; [|constructor]. right. apply blockOf_ok; [done|vm_compute; congruence].
  - by left.
  - by left.
  - split; reflexivity.
  - vm_compute. congruence.
  - reflexivity.
  - split; vm_compute; congruence.
  - reflexivity.
  - split.
    + repeat constructor; vm_compute; congruence.
    + concrete.
    + repeat split; intros v; vm_compute; set_solver.
    + concrete.
    + concrete.
    + intros k Hk. vm_compute in Hk. vm_compute. set_solver.
    + vm_compute. set_solver.
    + intros n Hn. change (n * 2 ≤ 8) in Hn. simpl. lia.
  - exists s', ents, bs. by split_and!.
Defined.

Lemma rewrite_correct_witness :
  let s := mkSds 8 8 8 InitialOverallocationFactor (null_entries 8)
    [PmaEntry.null_entry; blockOf [(1, 10); (2, 20)]; blockOf [(3, 30); (4, 40)]; PmaEntry.null_entry;
     PmaEntry.null_entry; PmaEntry.null_entry; PmaEntry.null_entry; PmaEntry.null_entry]
    (HierarchicalBlockSizeManager.mkManager [0] 1 64) [] 3 in
  ∃ s' v, OverallocatedDistribution.rewrite s (mkInterval 1 6) 2 = Ok s' ∧
    pma s' = [PmaEntry.null_entry] ++ v ++ nulls 2 ∧ blocks_of v =
      [([(1, 10); (2, 20)], [(0, 0); (0, 0)]); ([(3, 30); (4, 40)], [(0, 0); (0, 0)])].
Proof.
  set (s := mkSds _ _ _ _ _ _ _ _ _). cbn zeta.
  destruct (rewrite_correct s [PmaEntry.null_entry] [blockOf [(1, 10); (2, 20)]; blockOf [(3, 30); (4, 40)]]
    (nulls 5) 5 2) as (v&Hr&_&Hb&_).
  - reflexivity.
  - reflexivity.
  - repeat (constructor; [apply blockOf_ok; [done|vm_compute; congruence]|]). constructor.
  - simpl. lia.
  - vm_compute. congruence.
  - eexists _, v. split; [exact Hr|]. split; [reflexivity|]. rewrite Hb. reflexivity.
Defined.
