(* ===== verification/GbpmaBatchProps.v ===== *)
(** * Properties of batch insertion into the overallocated array

    The insertions of a single thread, from the constructor on: the array is a sorted
    sequence without duplicates, and to its users a set of keys.  The insertions of several
    threads, in place and through the second array. *)

From S2P Require Import GbpmaClient Instances.
Import BlockSeq OverallocatedBatchedSparseArray OverallocatedDistribution.

Section properties.
Context `{T : SdsTypes} `{C : BlockConfig} `{O : OverallocationConfig}.
Context `{BC : !BlockConfigOk} `{HB : !HalfBlocks} `{FM : !FasterMergeOk}.
Implicit Types (s : Sds) (batch : list ValueType) (xs : list (list ValueType * list ValueType)).

(** C4: one batch, inserted by one thread into a valid array with overallocation, in place if
    the blocks fit into their range and through the second array otherwise. The batch is not
    empty, its keys strictly increase, and it has neither [NULL_KEY] nor the key of a
    value-initialised element nor, in debug builds, a key below [NULL_KEY]; if the array is
    empty, the batch has at least [MinSize] elements; old and new elements are less than [2^52]
    if insertions in place are allowed. The class is made for at least one thread, blocks have
    [MaxSize = 2 * MinSize] elements, between 4 and 32768, and in debug builds [NULL_KEY] is
    zero. The insertion returns: no assertion fails and no access is out of bounds, also when
    the array is empty, has to grow, or has to be replaced by a larger one. The array is valid
    again (blocks at least half full and in order, unused cells and the second array null, the
    counters of the size manager right), and its contents are those before merged with the
    batch, where an element that is present keeps its place. *)
Theorem insertBatch_maintains s xs batch :
  valid_array s xs → insertable batch → batch ≠ [] → (xs = [] → MinSize ≤ zlen batch) →
  fits_machine xs batch → 1 ≤ MaxThreads →
  NDEBUG = true ∨ (∀ k, k ∈ keys batch → NULL_KEY ≤ k) →
  ∃ s' xs', insertBatch s batch (zlen batch) 1 = Ok s' ∧ valid_array s' xs' ∧
    elements xs' = smerge (elements xs) batch.
Proof.
  intros Hv Hins Hne Hmin Hfits Hthreads Hk.
  destruct (insertBatch_one s xs batch Hv Hins Hne Hmin Hfits Hthreads Hk) as (s'&xs'&Hi&Hv'&Hel&_). by exists s', xs'.
Qed.

(** ** The array as a set *)

(** C1: the array with overallocation implements a set, when a single thread inserts. Starting
    from the constructor, batches are inserted one after the other. Each batch is not empty, its
    keys strictly increase, and it has neither [NULL_KEY] nor the key of a value-initialised
    element nor, in debug builds, a key below [NULL_KEY]. The first batch has at least [MinSize]
    elements, and all batches together have less than [2^52] elements if insertions in place are
    allowed. In debug builds, the memory in which the tasks are constructed does not hold
    [INVERSE_MERGE]. The class is made for at least one thread, blocks have [MaxSize = 2 *
    MinSize] elements, between 4 and 32768, and in debug builds [NULL_KEY] is zero. Then every
    batch is inserted without a failure, and afterwards [contains] answers whether a key was in
    one of the batches, and [rangeQuery] visits the elements of its range in order, each key
    once, namely the first element that came with it. *)
Theorem insertBatches_implement_set `{M : TaskMemory} (batches : list (list ValueType)) :
  fits_machine [] (concat batches) → 1 ≤ MaxThreads → benign_memory → Forall good_batch batches →
  (∀ b, batches !! 0%nat = Some b → MinSize ≤ zlen b) →
  ∃ s l, insertBatches batches create = Ok s ∧ l = foldl smerge [] batches ∧ sorted l ∧
    (∀ k, k ∈ keys l ↔ k ∈ keys (concat batches)) ∧
    (∀ e, contains s e = Ok (bool_decide (e ∈ keys l))) ∧
    (∀ lft rgt (fuel : nat), zlen l < Z.of_nat fuel →
       rangeQuery s lft rgt fuel = Ok (filter (λ v, lft ≤ keyOfValue v < rgt) l)).
Proof.
  intros Hfits Hthreads Hmem Hb Hmin.
  destruct (insertBatches_create batches Hfits Hthreads Hmem Hb Hmin) as (s&xs&Hi&Hv&Hel).
  destruct (valid_array_stores s xs Hv) as (ls&Hst&Hls). rewrite Hel in Hls.
  exists s, (foldl smerge [] batches). split_and!; [done|done| | | |].
  - rewrite <-Hel. apply Hv.
  - intros k. rewrite keys_foldl. split; [|tauto]. intros [?%elem_of_nil|?]; done.
  - intros e. rewrite <-Hls. by apply array_contains_ok.
  - intros lft rgt fuel. rewrite <-Hls. by apply rangeQuery_ok.
Qed.

End properties.

(** ** Witnesses *)

#[local] Instance inPlaceAllowed : OverallocationConfig := {| MaxThreads := 4; AllowInPlaceInserts := true |}.

#[local] Instance pairFasterMerge : FasterMergeOk.
Proof. split; [vm_compute; congruence|by right]. Qed.

Definition firstBatch : list (@ValueType pairTypes) := [(3, 30); (5, 50); (8, 80)].
Definition secondBatch : list (@ValueType pairTypes) := [(5, 51); (9, 90)].

Lemma good_pairs (batch : list (@ValueType pairTypes)) :
  sorted batch → batch ≠ [] → (∀ k, k ∈ keys batch → 0 < k) → good_batch batch.
Proof.
  intros Hs Hne Hk. split_and!; [|done|].
  - split; [done|..]; intros Hin%Hk; simpl in Hin; lia.
  - right. intros k Hin%Hk. simpl. lia.
Qed.

Lemma zeroMemory_benign : benign_memory.
Proof. by right. Qed.

Lemma firstBatch_good : good_batch firstBatch.
Proof. apply good_pairs; [concrete|done|positive_keys]. Qed.

Lemma secondBatch_good : good_batch secondBatch.
Proof. apply good_pairs; [concrete|done|positive_keys]. Qed.

Lemma insertBatch_maintains_witness :
  ∃ s' xs', insertBatch create firstBatch 3 1 = Ok s' ∧ valid_array s' xs' ∧ elements xs' = firstBatch.
Proof.
  destruct firstBatch_good as (Hi&Hne&Hk).
  destruct (insertBatch_maintains create [] firstBatch) as (s'&xs'&?&?&Hel).
  - apply create_valid; [vm_compute; congruence|exact zeroMemory_benign].
  - exact Hi.
  - exact Hne.
  - vm_compute. congruence.
  - intros _. reflexivity.
  - vm_compute. congruence.
  - exact Hk.
  - exists s', xs'. split; [assumption|]. split; [assumption|]. rewrite Hel. reflexivity.
Defined.

Lemma insertBatches_implement_set_witness :
  ∃ s, insertBatches [firstBatch; secondBatch] create = Ok s ∧
    contains s 9 = Ok true ∧ contains s 4 = Ok false ∧ rangeQuery s 4 9 10 = Ok [(5, 50); (8, 80)].
Proof.
  destruct (insertBatches_implement_set [firstBatch; secondBatch]) as (s&l&Hi&Hl&_&_&Hc&Hr).
  - intros _. reflexivity.
  - vm_compute. congruence.
  - exact zeroMemory_benign.
  - constructor; [apply firstBatch_good|]. constructor; [apply secondBatch_good|constructor].
  - intros b [= <-]. vm_compute. congruence.
  - assert (l = [(3, 30); (5, 50); (8, 80); (9, 90)]) as -> by (rewrite Hl; reflexivity).
    exists s. split; [exact Hi|]. rewrite !Hc, Hr by reflexivity. split_and!; reflexivity.
Defined.


(** With assertions compiled, the memory of a constructed array matters: if the element behind
    the task of the single thread happens to hold [INVERSE_MERGE], which nobody has written,
    the first batch fails an assertion of [validateTaskDistribution]. *)
Definition mergeMemory : TaskMemory := {|
  uninitializedTask := λ _, set_type (uninitializedTask 0) INVERSE_MERGE |}.

Lemma indeterminate_sentinel_fails :
  insertBatch (@create pairTypes inPlaceAllowed mergeMemory) firstBatch 3 1 = Err AssertionFailed.
Proof. vm_compute. reflexivity. Qed.

(** * Properties of insertion with several threads

    The decision for an insertion in place is safe, and so is the insertion through the
    second array when the splitters are in different blocks; the width that a task gets in
    the second array is bounded. *)

Section properties.
Context `{T : SdsTypes} `{C : BlockConfig} `{O : OverallocationConfig}.
Context `{BC : !BlockConfigOk} `{HB : !HalfBlocks} `{FM : !FasterMergeOk}.
Implicit Types (s : Sds) (batch : list ValueType) (xs : list (list ValueType * list ValueType)).

(** C12: a batch that is distributed to several threads of the array with overallocation, when
    the distribution decides for an insertion in place. The array is valid and not empty; the
    batch has at least one element for each thread, its keys strictly increase, and it has
    neither [NULL_KEY] nor the key of a value-initialised element nor, in debug builds, a key
    below [NULL_KEY]; blocks have [MaxSize = 2 * MinSize] elements, between 4 and 32768, and in
    debug builds [NULL_KEY] is zero; the threads are no more than the class is made for. The
    decision is safe: the tasks, one after the other, return (no assertion fails, no access
    leaves the range of a task or the array), the array is valid afterwards and holds its
    contents merged with the whole batch, and neither its size nor the second array has changed. *)
Theorem insertBatch_in_place_safe s xs batch (n : Z) s1 merged :
  valid_array s xs → xs ≠ [] → insertable batch → 1 ≤ n ≤ MaxThreads → n ≤ zlen batch →
  NDEBUG = true ∨ (∀ key, key ∈ keys batch → NULL_KEY ≤ key) →
  prepare s batch (zlen batch) n = Ok (s1, merged, true) →
  ∃ s' xs', insertBatch s batch (zlen batch) n = Ok s' ∧ valid_array s' xs' ∧ elements xs' = smerge (elements xs) batch ∧
    size s' = size s ∧ capacity s' = capacity s ∧ swapPma s' = swapPma s.
Proof. intros. by eapply insertBatch_in_place. Qed.

(** C5: a batch that is distributed to several threads of the array with overallocation, whose
    splitters lie in different blocks, whether it fits in place or the whole array is rewritten.
    The array is valid and not empty, it has a task for each possible thread and, in debug
    builds, none of these is an inverse merge left over; the keys of the batch strictly
    increase, it has neither [NULL_KEY] nor the key of a value-initialised element nor, in debug
    builds, a key below [NULL_KEY], and it has at least one element for each thread; old and new
    elements are less than [2^52] if insertions in place are allowed. Blocks have [MaxSize = 2 *
    MinSize] elements, between 4 and 32768, and in debug builds [NULL_KEY] is zero. The
    insertion returns: the distribution finds consecutive tasks and merges none of them, every
    task, one after the other, stays in its part of the pma and of the second array, and all
    blocks come back, spread over an array that has grown if necessary. Afterwards the array is
    valid, holds its contents merged with the whole batch, as with one thread, and is ready for
    the next batch. *)
Theorem insertBatch_threads_maintains s xs batch (n : Z) :
  valid_array s xs → threads_ready s → xs ≠ [] → insertable batch → fits_machine xs batch →
  NDEBUG = true ∨ (∀ k, k ∈ keys batch → NULL_KEY ≤ k) →
  1 ≤ n ≤ MaxThreads → n ≤ zlen batch → distinct_splitters s batch n →
  ∃ s' xs', insertBatch s batch (zlen batch) n = Ok s' ∧ valid_array s' xs' ∧ threads_ready s' ∧
    elements xs' = smerge (elements xs) batch.
Proof. apply insertBatch_threads. Qed.

(** The width of a task in the second array is computed in double precision. For
    widths below [2^53] the truncated product with the overallocation factor is at least
    the required width, so rounding takes no room away, and at most its double. *)
Lemma overallocatedWidth_bounded s (w : Z) :
  overallocationFactor s = InitialOverallocationFactor → 0 ≤ w < 2 ^ 53 → w ≤ overallocatedWidth s w ≤ 2 * w.
Proof. intros Hf Hw. apply overallocatedWidth_bounds; [done|intros _|]; apply Hw. Qed.
End properties.

(** ** Witnesses *)

Definition evenKeys : list (@ValueType pairTypes) := [(2, 0); (4, 0); (6, 0); (8, 0); (10, 0); (12, 0); (14, 0); (16, 0)].
Definition oddKeys : list (@ValueType pairTypes) := [(3, 1); (15, 2)].

(** Whether the batch [oddKeys] goes in place, with two threads. *)
Definition two_tasks_fit (s : Sds) : bool :=
  match prepare s oddKeys 2 2 with Ok (_, _, fits) => fits | Err _ => false end.

Lemma increasing_insertable (batch : list (@ValueType pairTypes)) :
  sorted batch → (∀ k, k ∈ keys batch → 0 < k) → insertable batch ∧ (NDEBUG = true ∨ ∀ k, k ∈ keys batch → NULL_KEY ≤ k).
Proof.
  intros Hs Hk. split; [|right; intros k Hin%Hk; simpl; lia].
  split; [done|..]; intros Hin%Hk; simpl in Hin; lia.
Qed.

(** The array with [evenKeys], and what the distribution of [oddKeys] makes of it. *)
Lemma evenKeys_inserted :
  ∃ s xs s1 merged, valid_array s xs ∧ elements xs = evenKeys ∧ prepare s oddKeys 2 2 = Ok (s1, merged, true).
Proof.
  destruct (increasing_insertable evenKeys) as [Hins Hk]; [concrete|positive_keys|].
  destruct (insertBatch_one create [] evenKeys) as (s&xs&Hi&Hv&Hel&Hclean).
  { by apply create_valid, zeroMemory_benign. }
  { exact Hins. }
  { done. }
  { intros _. vm_compute. congruence. }
  { intros _. reflexivity. }
  { done. }
  { exact Hk. }
  assert (two_tasks_fit s = true) as Hfit.
  { assert (match insertBatch create evenKeys 8 1 with Ok s => two_tasks_fit s | Err _ => false end = true) as Hc by (vm_compute; done).
    change (zlen evenKeys) with 8 in Hi. by rewrite Hi in Hc. }
  unfold two_tasks_fit in Hfit. destruct (prepare s oddKeys 2 2) as [[[s1 h] f]|] eqn:Hp; [|done].
  subst f. exists s, xs, s1, h. split; [exact Hv|]. split; [exact Hel|exact Hp].
Qed.

Lemma insertBatch_in_place_safe_witness :
  ∃ s s' xs', insertBatch s oddKeys 2 2 = Ok s' ∧ valid_array s' xs' ∧ elements xs' =
    [(2, 0); (3, 1); (4, 0); (6, 0); (8, 0); (10, 0); (12, 0); (14, 0); (15, 2); (16, 0)].
Proof.
  destruct evenKeys_inserted as (s&xs&s1&h&Hv&Hel&Hp).
  destruct (increasing_insertable oddKeys) as [Hins Hk].
  - concrete.
  - positive_keys.
  - destruct (insertBatch_in_place_safe s xs oddKeys 2 s1 h) as (s'&xs'&Hi&Hv'&Hel'&_).
    + exact Hv.
    + intros Hx. rewrite Hx in Hel. discriminate Hel.
    + exact Hins.
    + vm_compute. split; congruence.
    + vm_compute. congruence.
    + exact Hk.
    + exact Hp.
    + exists s, s', xs'. split; [exact Hi|]. split; [exact Hv'|]. rewrite Hel', Hel. vm_compute. reflexivity.
Defined.

(** A batch for two threads that does not fit in place, with splitters in different blocks. *)
Definition largeBatch : list (@ValueType pairTypes) :=
  [(3, 1); (5, 1); (7, 1); (9, 1); (11, 1); (13, 1); (15, 1); (17, 1); (18, 1); (19, 1)].

Definition block_at (s : Sds) (i : Z) : option Z :=
  match splitterBlock s largeBatch (zlen largeBatch ÷ 2) i with Ok b => Some b | Err _ => None end.

Definition two_tasks_distinct (s : Sds) : bool :=
  bool_decide (block_at s 1 ≠ block_at s 0) &&
  match prepare s largeBatch 10 2 with Ok (_, _, fits) => negb fits | Err _ => false end.

Lemma evenKeys_ready :
  ∃ s xs, valid_array s xs ∧ threads_ready s ∧ elements xs = evenKeys ∧ distinct_splitters s largeBatch 2.
Proof.
  destruct (increasing_insertable evenKeys) as [Hins Hk]; [concrete|positive_keys|].
  destruct (insertBatch_one create [] evenKeys) as (s&xs&Hi&Hv&Hel&Hclean).
  { by apply create_valid, zeroMemory_benign. }
  { exact Hins. }
  { done. }
  { intros _. vm_compute. congruence. }
  { intros _. reflexivity. }
  { done. }
  { exact Hk. }
  assert (two_tasks_distinct s = true) as [Hd _]%andb_true_iff.
  { assert (match insertBatch create evenKeys 8 1 with Ok s => two_tasks_distinct s | Err _ => false end = true) as Hc by (vm_compute; done).
    change (zlen evenKeys) with 8 in Hi. by rewrite Hi in Hc. }
  exists s, xs. split; [exact Hv|]. split; [|split; [exact Hel|]].
  - apply (ready_clean create); [|exact Hclean]. by apply create_ready, zeroMemory_benign.
  - intros i Hi' Heq. assert (i = 1) as -> by lia. apply bool_decide_eq_true in Hd. apply Hd.
    unfold block_at. by rewrite Heq.
Qed.

Lemma insertBatch_threads_maintains_witness :
  ∃ s s' xs', insertBatch s largeBatch 10 2 = Ok s' ∧ valid_array s' xs' ∧ elements xs' =
    [(2, 0); (3, 1); (4, 0); (5, 1); (6, 0); (7, 1); (8, 0); (9, 1); (10, 0); (11, 1); (12, 0); (13, 1);
     (14, 0); (15, 1); (16, 0); (17, 1); (18, 1); (19, 1)].
Proof.
  destruct evenKeys_ready as (s&xs&Hv&Hr&Hel&Hd).
  destruct (increasing_insertable largeBatch) as [Hins Hk].
  - concrete.
  - positive_keys.
  - destruct (insertBatch_threads_maintains s xs largeBatch 2) as (s'&xs'&Hi&Hv'&_&Hel').
    + exact Hv.
    + exact Hr.
    + intros Hx. rewrite Hx in Hel. discriminate Hel.
    + exact Hins.
    + intros _. rewrite Hel. vm_compute. congruence.
    + exact Hk.
    + vm_compute. split; congruence.
    + vm_compute. congruence.
    + exact Hd.
    + exists s, s', xs'. split; [exact Hi|]. split; [exact Hv'|]. rewrite Hel', Hel. vm_compute. reflexivity.
Defined.

Lemma overallocatedWidth_bounded_witness :
  overallocatedWidth create 11 = 19 ∧ 11 ≤ overallocatedWidth create 11 ≤ 2 * 11.
Proof.
  split; [vm_compute; reflexivity|]. apply (overallocatedWidth_bounded create 11).
  - reflexivity.
  - split; [lia|reflexivity].
Defined.
