(* ===== verification/BatchProps.v ===== *)
(** * Properties that both arrays share

    The first batch element for a block, and the batches that [insertBatch] rejects. *)

From S2P Require Import FirstElement Instances SdsRebalance GbpmaDistribute BucketMapProps RebalancingProps ArrayProps InsertionProps.
Section partition.
Context `{T : SdsTypes}.
Implicit Types (batch : list ValueType) (h : Z).

(** C31: on a sorted batch, possibly with repeated keys, the exponential search of the one array
    and the downward walk of the other find the same first element for a task that starts at a
    batch index [s] of at least 1, as those of all threads but the first do: the number of batch
    elements below the head [h], but at most [s + 1]. *)
Theorem findFirstBatchElement_equivalent batch (s h : Z) :
  nondecreasing batch → 1 ≤ s < zlen batch →
  Insertion.findFirstBatchElement batch s h = Ok (Z.min (countBelow batch h) (s + 1)) ∧
  OverallocatedInsertion.findFirstBatchElement batch s h = Ok (Z.min (countBelow batch h) (s + 1)).
Proof.
  intros Hs Hb. pose proof (countBelow_bounds batch h). split; [|apply walkDown_ok; [done|lia]].
  unfold Insertion.findFirstBatchElement.
  destruct (firstBatchElementStart_ok batch h Hs s Hb) as (current&delta&->&Hd&Hsum&Hds&Hlow&Hbelow&Hcount).
  cbn [mbind result_bind]. destruct (Z.ltb_spec current 0).
  - rewrite lower_bound_batch by (done || lia). f_equal. lia.
  - rewrite lower_bound_batch by (done || lia). f_equal. lia.
Qed.
End partition.

Lemma findFirstBatchElement_equivalent_witness :
  let batch : list (@ValueType pairTypes) := [(1, 10); (3, 30); (5, 50); (7, 70); (9, 90); (9, 91)] in
  nondecreasing batch ∧ 1 ≤ 4 < zlen batch ∧
  Insertion.findFirstBatchElement batch 4 5 = Ok 2 ∧
  OverallocatedInsertion.findFirstBatchElement batch 4 5 = Ok 2.
Proof.
  set (batch := _ : list (@ValueType pairTypes)). cbn zeta.
  assert (nondecreasing batch) as Hs by concrete.
  assert (1 ≤ 4 < zlen batch) as Hb by (split; [lia|reflexivity]).
  split_and!; [done|lia|lia| |];
    by destruct (findFirstBatchElement_equivalent batch 4 5 Hs Hb) as [H1 H2].
Defined.

(** * Properties: what batch insertion rejects

    The assertions at the beginning of [insertBatch], the same in both arrays. *)

Section rejects.
Context `{T : SdsTypes} `{C : BlockConfig}.
Context `{R : RebalancingConfig} `{D : DensityManager} `{H : ConcurrentBucketMap.Hash} `{P : ThreadConfig}.
Context `{O : OverallocationConfig}.
Implicit Types (batch : list ValueType).

(** A batch in order whose keys are not smaller than [NULL_KEY]. *)
Definition ordered batch : Prop := nondecreasing batch ∧ ∀ k, k ∈ keys batch → NULL_KEY ≤ k.

(** C30: with assertions compiled, [insertBatch] of either array, in whatever state the array is,
    ends with a failed assertion if the batch is out of order or has a key below [NULL_KEY], if
    more threads are asked for than the array has room for or than the batch has elements, and,
    for [BatchedSparseArray], if the number of threads is not that of the constructor. *)
Theorem insertBatch_rejects (s : BatchedSparseArray.Sds) (g : OverallocatedBatchedSparseArray.Sds) batch (n : Z) :
  NDEBUG = false →
  (¬ (ordered batch ∧ n ≤ MaxThreads ∧ n ≤ zlen batch) →
     OverallocatedDistribution.insertBatch g batch (zlen batch) n = Err AssertionFailed) ∧
  (¬ (ordered batch ∧ n ≤ MaxNumberOfThreads ∧ n ≤ zlen batch ∧ n = BatchedSparseArray.numberOfThreads s) →
     RebalancingPhase.insertBatch s batch (zlen batch) n = Err AssertionFailed).
Proof.
  intros Hdebug. destruct (batchSorted_spec batch) as (b&Hs&Hb). fold (ordered batch) in Hb.
  assert (∀ c, AssertMsg c = if c then Ok tt else Err AssertionFailed) as Hassert.
  { intros c. unfold AssertMsg. by rewrite Hdebug. }
  assert (∀ c, AssertM c = (b ← c; AssertMsg b)) as HassertM by (intros; unfold AssertM; by rewrite Hdebug).
  split; intros Hbad.
  - unfold OverallocatedDistribution.insertBatch. rewrite HassertM, Hs. cbn [mbind result_bind]. rewrite !Hassert.
    destruct b; [|done]. cbn [mbind result_bind].
    destruct (Z.leb_spec n MaxThreads); [|done]. cbn [mbind result_bind].
    destruct (Z.leb_spec n (zlen batch)); [|done]. tauto.
  - unfold RebalancingPhase.insertBatch. rewrite (Hassert (n =? _)).
    destruct (Z.eqb_spec n (BatchedSparseArray.numberOfThreads s)) as [->|]; [|done]. cbn [mbind result_bind].
    change (BatchedSparseArray.batchSorted batch (zlen batch)) with (OverallocatedBatchedSparseArray.batchSorted batch (zlen batch)).
    rewrite HassertM, Hs. cbn [mbind result_bind]. rewrite !Hassert.
    destruct b; [|done]. cbn [mbind result_bind]. rewrite Hdebug.
    change (BatchedSparseArray.numberOfThreads (BatchedSparseArray.set_bufferReads (BatchedSparseArray.set_bufferWrites s 0) 0))
      with (BatchedSparseArray.numberOfThreads s).
    destruct (Z.leb_spec (BatchedSparseArray.numberOfThreads s) MaxNumberOfThreads); [|done]. cbn [mbind result_bind].
    destruct (Z.leb_spec (BatchedSparseArray.numberOfThreads s) (zlen batch)); [|done]. tauto.
Qed.
End rejects.

#[local] Instance fourGbpmaThreads : OverallocationConfig := {| MaxThreads := 4; AllowInPlaceInserts := true |}.

Lemma unordered : ¬ ordered ([(3, 30); (2, 20)] : list (@ValueType pairTypes)).
Proof.
  intros [Hn _]. apply (proj1 (@nondecreasing_cons pairTypes (3, 30) [(2, 20)])) in Hn as [Ha _].
  apply Forall_cons in Ha as [Ha _]. vm_compute in Ha. congruence.
Qed.

(** A batch that is out of order, in either array. *)
Lemma insertBatch_rejects_witness :
  let batch : list (@ValueType pairTypes) := [(3, 30); (2, 20)] in
  OverallocatedDistribution.insertBatch OverallocatedBatchedSparseArray.create batch 2 1 = Err AssertionFailed ∧
  RebalancingPhase.insertBatch roomyExample batch 2 4 = Err AssertionFailed.
Proof.
  set (batch := [(3, 30); (2, 20)] : list (@ValueType pairTypes)). cbn zeta.
  split.
  - destruct (insertBatch_rejects roomyExample OverallocatedBatchedSparseArray.create batch 1 eq_refl) as [H1 _].
    apply H1. intros [Ho _]. exact (unordered Ho).
  - destruct (insertBatch_rejects roomyExample OverallocatedBatchedSparseArray.create batch 4 eq_refl) as [_ H2].
    apply H2. intros [Ho _]. exact (unordered Ho).
Defined.
