(* ===== verification/SdsProps.v ===== *)
(** * Properties of the batched sparse array

    What [insertBatch] with one thread does, from the constructor on, and its second phase:
    which tasks it creates and what their execution does to the array. *)

From S2P Require Import SdsClient GbpmaClient Instances BucketMapProps.
Import BlockSeq BatchedSparseArray RebalancingPhase Distribution.
Import BinaryRebalancingManager (logCapacity, threshold).

Section properties.
Context `{T : SdsTypes} `{C : BlockConfig}.
Context `{BC : !BlockConfigOk} `{HB : !HalfBlocks}.
Context `{R : RebalancingConfig} `{D : DensityManager} `{Law : !ThresholdLaw} `{Dense : !DenseLaw}.
Context `{H : ConcurrentBucketMap.Hash} `{P : ThreadConfig}.
Implicit Types (s : Sds) (batch : list ValueType) (batches : list (list ValueType)).
Implicit Types (gs : list (list (list ValueType * list ValueType))).

(** C2: the array with the global rebalancing implements a set, when a single thread inserts and
    the hierarchy does not fill up. The class is made for at least one thread. Starting from the
    constructor for one thread, batches are inserted one after the other. Each batch is not
    empty, its keys strictly increase, and it has neither [NULL_KEY] nor the key of a
    value-initialised element nor, in debug builds, a key below [NULL_KEY]. The first batch has
    at least [MinSize] elements, and all batches together have at most [key_limit] elements, so
    that their blocks stay below the thresholds of the root. Blocks have [MaxSize = 2 * MinSize]
    elements, [MinSize] at least two, and the density thresholds of a node are at most its
    entries and at least a block for each segment of its parent but one. Then every batch is
    inserted: no assertion fails, no access is out of bounds and every loop ends. Afterwards
    [contains] answers whether a key was in one of the batches, and [rangeQuery] visits the
    elements of its range in order, each key once, namely the first element that came with it. *)
Theorem batches_implement_set `{M : TaskMemory} batches :
  1 ≤ MaxNumberOfThreads → Forall SdsClient.good_batch batches →
  (∀ b, batches !! 0%nat = Some b → MinSize ≤ zlen b) → zlen (concat batches) ≤ key_limit →
  ∃ s0 s l, create 1 = Ok s0 ∧ SdsClient.insertBatches batches s0 = Ok s ∧ l = foldl smerge [] batches ∧ sorted l ∧
    (∀ k, k ∈ keys l ↔ k ∈ keys (concat batches)) ∧
    (∀ e, Search.contains s e = Ok (bool_decide (e ∈ keys l))) ∧
    (∀ lft rgt (fuel : nat), zlen l < Z.of_nat fuel →
       Iterator.rangeQuery s lft rgt fuel = Ok (filter (λ v, lft ≤ keyOfValue v < rgt) l)).
Proof.
  intros Hth Hb Hmin Hlim. destruct (insertBatches_from_create batches Hth Hb Hmin Hlim) as (s0&s&gs&Hc&Hi&Hid&Hel).
  destruct (quiet_stores s gs (id_quiet _ _ Hid)) as [Hst Hls]. rewrite Hel in Hls.
  exists s0, s, (foldl smerge [] batches). split_and!; [done|done|done| | | |].
  - rewrite <-Hls. apply (st_sorted _ _ Hst).
  - intros k. rewrite keys_foldl. split; [|tauto]. intros [?%elem_of_nil|?]; done.
  - intros e. rewrite <-Hls. by apply array_contains_ok.
  - intros lft rgt fuel. rewrite <-Hls. by apply rangeQuery_ok.
Qed.

(** C6: one batch in the array with the global rebalancing, inserted by one thread. Between two
    batches an array is idle: its blocks are at least half full and in order, no entry has
    blocks in the buffer array, the counts of the hierarchy are those of the segments that are
    not due for recounting, no rebalancing is pending, and the hierarchy has its initial height.
    The batch is not empty, its keys strictly increase, it has neither [NULL_KEY] nor the key of
    a value-initialised element nor, in debug builds, a key below [NULL_KEY]; it has at least
    [MinSize] elements if the array is empty; and old and new elements together are at most
    [key_limit]. The class is made for at least one thread, blocks have [MaxSize = 2 * MinSize]
    elements, [MinSize] at least two, and the density thresholds of a node are at most its
    entries and at least a block for each segment of its parent but one. Then [insertBatch]
    turns an idle array into an idle array whose contents are those before merged with the
    batch, where an element that is present keeps its place. *)
Theorem batch_keeps_array_idle s gs batch :
  idle s gs → SdsInsertPhase.insertable s batch → 1 ≤ MaxNumberOfThreads →
  NDEBUG = true ∨ (∀ k, k ∈ keys batch → NULL_KEY ≤ k) → zlen (elements (concat gs)) + zlen batch ≤ key_limit →
  ∃ s' gs', insertBatch s batch (zlen batch) 1 = Ok s' ∧ idle s' gs' ∧
    elements (concat gs') = smerge (elements (concat gs)) batch.
Proof. apply insertBatch_idle. Qed.

(** C8: the tasks of a batch. An idle array with one thread has been changed by the first phase
    of [insertBatch], is not empty, its blocks are no more than the thresholds of the root and
    of its children allow, and in debug builds the counters of the buffer accesses start at
    zero. Blocks have [MaxSize = 2 * MinSize] elements, [MinSize] at least two, and the density
    thresholds of a node are at most its entries and at least a block for each segment of its
    parent but one. Then the update of the hierarchy and [createTasks] return. If there are no
    tasks, no entry has buffer blocks. Otherwise the tasks can be executed: they belong to
    disjoint nodes of the hierarchy, cover all entries with buffer blocks and know how many
    blocks these entries hold. Each node has at least as many blocks as segments and at most
    those that its density threshold allows. (With more blocks than the root's threshold allows,
    the buffer blocks can be left without a task, see full_root_hides_blocks.) *)
Theorem createTasks_correct s s' gs gs' :
  idle s gs → stored s' gs' → batch_inserted s s' → small (rebalancingManager s') (zlen (concat gs')) →
  concat gs' ≠ [] → NDEBUG = true ∨ bufferReads s = 0 ∧ bufferWrites s = 0 →
  ∃ s1 s2, updateHierarchy s' = Ok s1 ∧ createTasks s1 = Ok s2 ∧ (rebalancingTasks s2 ≠ [] → executable s2 gs') ∧
    (rebalancingTasks s2 = [] → ∀ i, buffers s2 i = 0) ∧
    ∀ t, t ∈ rebalancingTasks s2 → 2 ^ level (rootNode t) ≤ rt_numberOfBlocks t ≤
      threshold (level (rootNode t)) (logCapacity (rebalancingManager s2)) (2 ^ level (rootNode t)).
Proof. apply tasks_created. Qed.

(** C7: the execution of the tasks by one thread. The tasks can be executed: there is at least
    one; they are nodes of the hierarchy with disjoint ranges that begin inside the array, cover
    all entries with buffer blocks, know the number of their blocks and have room for them; the
    flags of the hierarchy, which has at most 60 levels, are those of the tasks, and in debug
    builds the counters of the buffer accesses agree with the buffer blocks; the size is below
    the capacity, and the second array is empty and as large as the first; and either the ranges
    lie inside the size of the array, or there is one task, its range starts at 0 and the array
    grows to it. Then all blocks of a task, those of the pma and those of the buffer array, end
    up in the range of its node, in order and evenly spread: block [k] of [n] at entry [k *
    length / n]. Entries outside of the ranges keep their blocks, the buffer array and the
    second array are empty afterwards, no flag is left in the hierarchy, and the segments that
    received blocks are due for recounting. *)
Theorem executeTasks_correct s gs : executable s gs →
  ∃ s' gs', executeTasks s = Ok s' ∧ stored s' gs' ∧ concat gs' = concat gs ∧
    (∀ t k x, t ∈ rebalancingTasks s → at_ (SdsSpread.blocks_of (padded gs (newSize s)) (pmaRange t)) k = Some x →
      at_ gs' (place (task_left t) (task_length t) (rt_numberOfBlocks t) k) = Some [x]) ∧
    (∀ i, (∀ t, t ∈ rebalancingTasks s → Interval.contains (pmaRange t) i = false) →
      at_ gs' i = at_ (padded gs (newSize s)) i) ∧
    (∀ i, buffers s' i = 0) ∧ (∀ i e, at_ (bufferArray s') i = Some e → e = PmaEntry.null_entry) ∧
    swapPma s' = null_entries (capacity s') ∧ rebalancingTasks s' = [] ∧
    contents (recountingNodesMap s') =
      spec_insert_all (contents (recountingNodesMap s)) (all_places (rebalancingTasks s)) ∧
    resized (rebalancingManager s) (rebalancingManager s') (newSize s).
Proof.
  intros He. destruct (executeTasks_ok s gs He) as (s'&gs'&Hex&Hrb). exists s', gs'.
  split_and!; try apply Hrb; [done|].
  intros t k x. apply (rebalanced_at s s' gs gs' t k x (ex_ready _ _ He) Hrb).
Qed.
End properties.

(** ** The two arrays *)

Section arrays.
Context `{T : SdsTypes} `{C : BlockConfig} `{O : OverallocationConfig}.
Context `{BC : !BlockConfigOk} `{HB : !HalfBlocks} `{FM : !FasterMergeOk}.
Context `{R : RebalancingConfig} `{D : DensityManager} `{Law : !ThresholdLaw} `{Dense : !DenseLaw}.
Context `{H : ConcurrentBucketMap.Hash} `{P : ThreadConfig}.
Implicit Types (batches : list (list ValueType)).

Lemma good_in_both batch : SdsClient.good_batch batch → GbpmaClient.good_batch batch.
Proof. intros []. by repeat split. Qed.

(** C10: after the same batches, inserted by one thread each, the array with the global
    rebalancing and the array with the overallocation give the same answers, as long as the
    hierarchy of the former does not fill up: [contains] agrees on every key and [rangeQuery]
    visits the same elements in the same order. Each batch is not empty, its keys strictly
    increase, and it has neither [NULL_KEY] nor the key of a value-initialised element nor, in
    debug builds, a key below [NULL_KEY]; the first batch has at least [MinSize] elements; all
    batches together have at most [key_limit] elements and, if insertions in place are allowed,
    less than [2^52]; in debug builds, the memory in which the tasks of the second array are
    constructed does not hold [INVERSE_MERGE] and [NULL_KEY] is zero. Both classes are made for
    at least one thread, blocks have [MaxSize = 2 * MinSize] elements, between 4 and 32768, and
    the density thresholds of a node are at most its entries and at least a block for each
    segment of its parent but one. *)
Theorem arrays_agree `{M : TaskMemory} batches :
  1 ≤ MaxNumberOfThreads → 1 ≤ MaxThreads → benign_memory → fits_machine [] (concat batches) →
  Forall SdsClient.good_batch batches → (∀ b, batches !! 0%nat = Some b → MinSize ≤ zlen b) → zlen (concat batches) ≤ key_limit →
  ∃ s0 s g, create 1 = Ok s0 ∧ SdsClient.insertBatches batches s0 = Ok s ∧
    GbpmaClient.insertBatches batches OverallocatedBatchedSparseArray.create = Ok g ∧
    (∀ e, ∃ b, Search.contains s e = Ok b ∧ OverallocatedBatchedSparseArray.contains g e = Ok b) ∧
    ∀ lft rgt (fuel : nat), zlen (concat batches) < Z.of_nat fuel →
      ∃ visited, Iterator.rangeQuery s lft rgt fuel = Ok visited ∧
        OverallocatedBatchedSparseArray.rangeQuery g lft rgt fuel = Ok visited.
Proof.
  intros Hth Hths Hmem Hfits Hb Hmin Hlim. destruct (insertBatches_from_create batches Hth Hb Hmin Hlim) as (s0&s&gs&Hc&Hi&Hid&Hel).
  destruct (quiet_stores s gs (id_quiet _ _ Hid)) as [Hst Hls]. rewrite Hel in Hls.
  destruct (insertBatches_create batches Hfits Hths Hmem) as (g&xs&Hg&Hv&Helg); [|done|].
  { eapply Forall_impl; [exact Hb|]. apply good_in_both. }
  destruct (valid_array_stores g xs Hv) as (ls&Hstg&Hlsg). rewrite Helg in Hlsg.
  assert (zlen (foldl smerge [] batches) ≤ zlen (concat batches)) as Hlen by apply (length_foldl batches []).
  exists s0, s, g. split_and!; try done.
  - intros e. exists (bool_decide (e ∈ keys (foldl smerge [] batches))). split.
    + rewrite <-Hls. by apply array_contains_ok.
    + rewrite <-Hlsg. by apply array_contains_ok.
  - intros lft rgt fuel Hf. exists (filter (λ v, lft ≤ keyOfValue v < rgt) (foldl smerge [] batches)). split.
    + rewrite <-Hls. apply rangeQuery_ok; [done|]. rewrite Hls. lia.
    + rewrite <-Hlsg. apply rangeQuery_ok; [done|]. rewrite Hlsg. lia.
Qed.
End arrays.

(** ** Witnesses: segments of four entries, batches of pairs *)

#[local] Instance quadSegments : RebalancingConfig := {| AggregateWidth := 4 |}.
#[local] Existing Instance densityThree.
#[local] Instance fourThreads : ThreadConfig := {| MaxNumberOfThreads := 4 |}.
#[local] Instance fourInPlaceThreads : OverallocationConfig := {| MaxThreads := 4; AllowInPlaceInserts := true |}.

#[local] Instance pairFasterMerge : FasterMergeOk.
Proof. split; [vm_compute; congruence|by right]. Qed.

Lemma quad_levels l Lc : 0 ≤ l ≤ Lc → Lc ≤ 60 →
  threshold l Lc (2 ^ l) ≤ 4 * 2 ^ l ∧ (l < Lc → 2 ^ (l + 1) - 1 ≤ threshold l Lc (2 ^ l)).
Proof.
  intros Hl HLc. assert ((threshold l Lc (2 ^ l) <=? 4 * 2 ^ l) &&
    ((Lc <=? l) || (2 ^ (l + 1) - 1 <=? threshold l Lc (2 ^ l))) = true) as [H1 H2]%andb_true_iff.
  { apply (every_level (λ l Lc, (threshold l Lc (2 ^ l) <=? 4 * 2 ^ l) &&
      ((Lc <=? l) || (2 ^ (l + 1) - 1 <=? threshold l Lc (2 ^ l))))); [vm_compute; reflexivity|done|done]. }
  apply Z.leb_le in H1. split; [done|]. intros Hlt. apply orb_true_iff in H2 as [H2|H2]; apply Z.leb_le in H2; lia.
Qed.

#[local] Instance quadThreshold : ThresholdLaw.
Proof. intros l Lc Hl HLc. apply (quad_levels l Lc Hl HLc). Qed.

#[local] Instance quadDense : DenseLaw.
Proof. split; [done|]. intros l Lc Hl HLc. apply (quad_levels l Lc); lia. Qed.

Definition firstPairs : list (@ValueType pairTypes) := [(3, 30); (5, 50); (8, 80)].
Definition secondPairs : list (@ValueType pairTypes) := [(5, 51); (9, 90)].

Lemma good_positive (batch : list (@ValueType pairTypes)) :
  sorted batch → batch ≠ [] → (∀ k, k ∈ keys batch → 0 < k) → SdsClient.good_batch batch.
Proof.
  intros Hs Hne Hk. split; [done|done|..].
  - intros Hin%Hk. simpl in Hin. lia.
  - intros Hin%Hk. simpl in Hin. lia.
  - right. intros k Hin%Hk. simpl. lia.
Qed.

Lemma first_good : SdsClient.good_batch firstPairs.
Proof. apply good_positive; [concrete|done|positive_keys]. Qed.

Lemma pairs_good : Forall SdsClient.good_batch [firstPairs; secondPairs].
Proof. constructor; [apply first_good|]. constructor; [|constructor]. apply good_positive; [concrete|done|positive_keys]. Qed.

Lemma first_large (b : list (@ValueType pairTypes)) : [firstPairs; secondPairs] !! 0%nat = Some b → MinSize ≤ zlen b.
Proof. intros [= <-]. vm_compute. congruence. Qed.

Lemma batches_implement_set_witness :
  ∃ s0 s, create 1 = Ok s0 ∧ SdsClient.insertBatches [firstPairs; secondPairs] s0 = Ok s ∧
    Search.contains s 9 = Ok true ∧ Search.contains s 4 = Ok false ∧ Iterator.rangeQuery s 4 9 10 = Ok [(5, 50); (8, 80)].
Proof.
  destruct (batches_implement_set [firstPairs; secondPairs]) as (s0&s&l&Hc&Hi&Hl&_&_&Hcon&Hr).
  - vm_compute. congruence.
  - apply pairs_good.
  - apply first_large.
  - vm_compute. congruence.
  - assert (l = [(3, 30); (5, 50); (8, 80); (9, 90)]) as -> by (rewrite Hl; reflexivity).
    exists s0, s. split; [exact Hc|]. split; [exact Hi|]. rewrite !Hcon, Hr by reflexivity. split_and!; reflexivity.
Defined.

Lemma first_counters s0 : create 1 = Ok s0 → bufferReads s0 = 0 ∧ bufferWrites s0 = 0.
Proof.
  intros Hc. assert ((s ← create 1; Ok (bufferReads s, bufferWrites s)) = Ok (0, 0)) as Hz by (vm_compute; reflexivity).
  rewrite Hc in Hz. by injection Hz.
Qed.

(** The constructed array and what the first phase makes of it. *)
Lemma first_insertion :
  ∃ s0 s1 gs, create 1 = Ok s0 ∧ idle s0 [[]] ∧ insertionPhase s0 firstPairs 3 = Ok s1 ∧ stored s1 gs ∧
    elements (concat gs) = firstPairs ∧ batch_inserted s0 s1 ∧ small (rebalancingManager s1) (zlen (concat gs)) ∧ concat gs ≠ [] ∧
    bufferReads s0 = 0 ∧ bufferWrites s0 = 0.
Proof.
  destruct create_idle as (s0&Hc&Hid); [vm_compute; congruence|].
  destruct (insertionPhase_ok s0 [[]] firstPairs (id_quiet _ _ Hid)) as (s1&gs&Hi&Hst&Hel&Hbi).
  { apply good_insertable; [apply first_good|]. intros _. vm_compute. congruence. }
  exists s0, s1, gs. assert (elements (concat gs) = firstPairs) as Hel' by (rewrite Hel; reflexivity).
  split_and!; try done.
  - apply limit_small.
    + rewrite (inserted_manager s0 s1 Hbi). apply (id_log _ _ Hid).
    + apply (la_blocks _ _ (sd_layout _ _ Hst)).
    + rewrite Hel'. vm_compute. congruence.
  - intros Hn. by rewrite Hn in Hel'.
  - exact (proj1 (first_counters s0 Hc)).
  - exact (proj2 (first_counters s0 Hc)).
Qed.

Lemma batch_keeps_array_idle_witness :
  ∃ s0 s1 gs, create 1 = Ok s0 ∧ insertBatch s0 firstPairs 3 1 = Ok s1 ∧ idle s1 gs ∧ elements (concat gs) = firstPairs.
Proof.
  destruct create_idle as (s0&Hc&Hid); [vm_compute; congruence|].
  destruct (batch_keeps_array_idle s0 [[]] firstPairs Hid) as (s1&gs&?&?&Hel).
  - apply good_insertable; [apply first_good|]. intros _. vm_compute. congruence.
  - vm_compute. congruence.
  - exact (SdsClient.go_order _ first_good).
  - vm_compute. congruence.
  - exists s0, s1, gs. by split_and!.
Defined.

Lemma createTasks_correct_witness :
  ∃ s0 s1 s2 s3, create 1 = Ok s0 ∧ insertionPhase s0 firstPairs 3 = Ok s1 ∧ updateHierarchy s1 = Ok s2 ∧ createTasks s2 = Ok s3.
Proof.
  destruct first_insertion as (s0&s1&gs&Hc&Hid&Hi&Hst&_&Hbi&Hsm&Hne&Hcnt).
  destruct (createTasks_correct s0 s1 [[]] gs Hid Hst Hbi Hsm Hne) as (s2&s3&?&?&_).
  - right. exact Hcnt.
  - by exists s0, s1, s2, s3.
Defined.

(** The tasks of the first batch. *)
Lemma first_tasks : ∃ s0 s1 s2 s3 gs, create 1 = Ok s0 ∧ insertionPhase s0 firstPairs 3 = Ok s1 ∧
  updateHierarchy s1 = Ok s2 ∧ createTasks s2 = Ok s3 ∧ executable s3 gs ∧ elements (concat gs) = firstPairs.
Proof.
  destruct first_insertion as (s0&s1&gs&Hc&Hid&Hi&Hst&Hel&Hbi&Hsm&Hne&Hcnt).
  destruct (tasks_created s0 s1 [[]] gs Hid Hst Hbi Hsm Hne) as (s2&s3&Hu&Ht&Hex&_).
  - right. exact Hcnt.
  - exists s0, s1, s2, s3, gs. split_and!; try done. apply Hex.
    assert ((s0 ← create 1; s1 ← insertionPhase s0 firstPairs 3; s2 ← updateHierarchy s1; s3 ← createTasks s2;
      Ok (zlen (rebalancingTasks s3))) = Ok 1) as Hrun by (vm_compute; reflexivity).
    rewrite Hc in Hrun. cbn [mbind result_bind] in Hrun. rewrite Hi in Hrun. cbn [mbind result_bind] in Hrun.
    rewrite Hu in Hrun. cbn [mbind result_bind] in Hrun. rewrite Ht in Hrun. cbn [mbind result_bind] in Hrun.
    intros Hnil. rewrite Hnil in Hrun. discriminate Hrun.
Qed.

Lemma executeTasks_correct_witness :
  ∃ s3 s4 gs, executeTasks s3 = Ok s4 ∧ stored s4 gs ∧ elements (concat gs) = firstPairs.
Proof.
  destruct first_tasks as (_&_&_&s3&gs&_&_&_&_&Hex&Hel).
  destruct (executeTasks_correct s3 gs Hex) as (s4&gs'&?&?&Hcc&_).
  exists s3, s4, gs'. split_and!; try assumption. by rewrite Hcc.
Defined.

Lemma arrays_agree_witness :
  ∃ s0 s g, create 1 = Ok s0 ∧ SdsClient.insertBatches [firstPairs; secondPairs] s0 = Ok s ∧
    GbpmaClient.insertBatches [firstPairs; secondPairs] OverallocatedBatchedSparseArray.create = Ok g ∧
    ∃ visited, Iterator.rangeQuery s 4 9 10 = Ok visited ∧ OverallocatedBatchedSparseArray.rangeQuery g 4 9 10 = Ok visited.
Proof.
  destruct (arrays_agree [firstPairs; secondPairs]) as (s0&s&g&?&?&?&_&Hr).
  - vm_compute. congruence.
  - vm_compute. congruence.
  - right. reflexivity.
  - intros _. reflexivity.
  - apply pairs_good.
  - apply first_large.
  - vm_compute. congruence.
  - exists s0, s, g. split_and!; try assumption. apply Hr. reflexivity.
Defined.

(** * The batched sparse array when its hierarchy is full

    [key_limit] in the theorems on sequences of batches keeps the blocks below the density
    threshold of the root.  Beyond it the array loses elements.  The runs below start with an
    empty array like the constructed one, but with 16 entries and four segments instead of
    [InitialArrayCapacity] entries and [2 ^ LogInitialArrayCapacity] segments; the blocks hold
    up to four elements. *)

Import BinaryRebalancingManager (mkManager, mkEntry, maxSizeType).


Definition emptyArray : Sds :=
  mkSds 16 16 16 0 (null_entries 16) (null_entries 16) (null_entries 16) (replicate 16 Interval.empty)
    (mkManager (replicate 8 (mkEntry 0 false)) [0; 4; 6; 7] [1; 2; 4; maxSizeType] 1 2 3 4
      (ConcurrentBucketMap.create 1) 1)
    [] (ConcurrentBucketMap.create 1) [] [] (uninitializedTasks 5) 1 0 0.

(** A batch with the keys [l]. *)
Definition batchOf (l : list Z) : list (@ValueType pairTypes) := (λ k, (k, 0)) <$> l.
Definition multiples (n : Z) : list (@ValueType pairTypes) := batchOf ((λ i, 10 * i) <$> seqZ 1 n).

(** Whether [key] is in the array after the batches. *)
Definition found (batches : list (list (@ValueType pairTypes))) (key : Z) : result bool :=
  s ← SdsClient.insertBatches batches emptyArray; Search.contains s key.

(** Twelve blocks are more than the root may hold by its density (0.7 of 16 entries) and less
    than its capacity: neither the root nor the super root is rebalanced, the blocks stay in
    the buffer array, and none of the inserted keys is found. *)
Lemma full_root_hides_blocks : found [multiples 48] 10 = Ok false.
Proof. vm_compute. reflexivity. Qed.

(** Seventeen blocks lead to a rebalancing of the super root, after which 30 of 32 entries
    are in use and the segment of the first block is due for rebalancing again.  The next
    batch creates two tasks; the last one in the list is not the last one in the array, and
    the size of the array, taken from it, leaves out the block with the new key. *)
Lemma size_from_last_task_hides_block :
  found [multiples 68] 680 = Ok true ∧ found [multiples 68; batchOf [1001]] 1001 = Ok false.
Proof. split; vm_compute; reflexivity. Qed.

(** A task whose range reaches the capacity makes the arrays grow; the new [pma] is empty,
    and only the blocks of the tasks are written to it: the others are lost. *)
Lemma growth_loses_blocks :
  found [multiples 68; batchOf [15]] 10 = Ok true ∧ found [multiples 68; batchOf [15]; batchOf [1001]] 1001 = Ok true ∧
  found [multiples 68; batchOf [15]; batchOf [1001]] 10 = Ok false.
Proof. split_and!; vm_compute; reflexivity. Qed.
