(* ===== verification/ReferenceSetProps.v ===== *)
(** * Properties of the reference sets

    After the same batches, the two arrays and the reference set have the same content.  And
    the unordered set under contention: the calls that lock behave as if they ran one after
    the other, and all of them complete; [size] races with an insertion. *)

From S2P Require Import SdsClient GbpmaClient ReferenceSetFacts Instances BucketMapProps SdsProps.
Import BlockSeq.
#[local] Existing Instance BatchedSparseArray.sparseArray.
#[local] Existing Instance OverallocatedBatchedSparseArray.sparseArray.

(** ** The array against the reference *)

Section comparison.
Context `{T : SdsTypes} `{C : BlockConfig} `{O : OverallocationConfig} `{I : IterationOrder}.
Context `{BC : !BlockConfigOk} `{HB : !HalfBlocks} `{FM : !FasterMergeOk}.
Context `{R : RebalancingConfig} `{D : DensityManager} `{Law : !ThresholdLaw} `{Dense : !DenseLaw}.
Context `{H : ConcurrentBucketMap.Hash} `{P : ThreadConfig}.
Implicit Types (batches : list (list ValueType)).

Lemma zlen_keys (l : list ValueType) : zlen (keys l) = zlen l.
Proof. unfold zlen, keys. by rewrite length_fmap. Qed.

Lemma filter_keys (lft rgt : Z) (l : list ValueType) :
  keys (filter (λ v, lft ≤ keyOfValue v < rgt) l) = filter (λ k, lft ≤ k < rgt) (keys l).
Proof.
  induction l as [|v l IH]; [done|]. rewrite filter_cons, keys_cons, filter_cons.
  destruct (decide (lft ≤ keyOfValue v < rgt)); [by rewrite keys_cons, IH|done].
Qed.

Lemma filter_sorted (lft rgt : Z) (l : list ValueType) : sorted l → sorted (filter (λ v, lft ≤ keyOfValue v < rgt) l).
Proof.
  induction l as [|v l IH]; [done|]. intros [Hv Hl]%sorted_cons. rewrite filter_cons.
  destruct (decide (lft ≤ keyOfValue v < rgt)); [|by apply IH]. apply sorted_cons. split; [|by apply IH].
  unfold above in *. rewrite Forall_forall in *. intros w [_ Hw]%list_elem_of_filter. by apply Hv.
Qed.

(** The reference takes the keys of the same batches. *)
Definition referenceBatches batches (data : gset Z) : result (gset Z) :=
  foldr (λ batch rest data,
    data ← SimpleUnorderedSet.insertBatch data (keys batch) (zlen batch); rest data) Ok batches data.

Lemma referenceBatches_ok batches data :
  Forall (λ batch, zlen batch ≤ SimpleUnorderedSet.INT_MAX) batches →
  referenceBatches batches data = Ok (data ∪ list_to_set (keys (concat batches))).
Proof.
  intros Hb. revert data. induction Hb as [|b bs Hb _ IH]; intros data; cbn [referenceBatches foldr concat].
  - f_equal. set_solver.
  - rewrite <-(zlen_keys b) in Hb |- *. unfold SimpleUnorderedSet.insertBatch. rewrite (forBatch_ok _ _ _ Hb).
    cbn [mbind result_bind]. fold (referenceBatches bs). rewrite IH, foldl_insert, keys_app. f_equal. set_solver.
Qed.

(** The keys of a sorted sequence, as a set. *)
Lemma size_of_keys (l : list ValueType) : sorted l → SimpleUnorderedSet.size (list_to_set (keys l)) = zlen l.
Proof.
  intros Hs. unfold SimpleUnorderedSet.size. rewrite size_list_to_set by (by apply sorted_NoDup_keys).
  apply zlen_keys.
Qed.

(** The two functions with which a client reads, on an array and on the reference. *)
Definition agrees {A} `{!SparseArray A} (a : A) (data : gset Z) (n : Z) : Prop :=
  (∀ e, Search.contains a e = Ok (SimpleUnorderedSet.search data e)) ∧
  ∀ lft rgt (fuel : nat), n < Z.of_nat fuel →
    ∃ visited, Iterator.rangeQuery a lft rgt fuel = Ok visited ∧ sorted visited ∧
      keys visited ≡ₚ SimpleUnorderedSet.rangeQuery data lft rgt.

Lemma stored_agrees {A} `{!SparseArray A} (a : A) ls (n : Z) :
  stores a ls → zlen (concat ls) ≤ n → agrees a (list_to_set (keys (concat ls))) n.
Proof.
  intros Hst Hn. pose proof (st_sorted _ _ Hst) as Hs. split.
  - intros e. rewrite (array_contains_ok a ls Hst e). f_equal. unfold SimpleUnorderedSet.search.
    apply bool_decide_ext. by rewrite elem_of_list_to_set.
  - intros lft rgt fuel Hfuel. exists (filter (λ v, lft ≤ keyOfValue v < rgt) (concat ls)).
    rewrite (rangeQuery_ok a ls Hst) by lia. split; [done|]. split; [by apply filter_sorted|].
    rewrite rangeQuery_filter, iterate_elements, elements_list_to_set by (by apply sorted_NoDup_keys).
    by rewrite filter_keys.
Qed.

(** The same batches make the same set. *)
Lemma merged_set batches :
  ∅ ∪ list_to_set (keys (concat batches)) = (list_to_set (keys (foldl smerge [] batches)) : gset Z).
Proof. apply set_eq. intros k. rewrite elem_of_union, !elem_of_list_to_set, keys_foldl. set_solver. Qed.

(** C13: both arrays agree with the reference set. One thread inserts the same batches into each
    of them: each batch is not empty, its keys strictly increase, it has less than [2^31]
    elements (the range of the reference's loop variable), and neither [NULL_KEY] nor the key of
    a value-initialised element nor, in debug builds, a key below [NULL_KEY]; the first batch
    has at least [MinSize] elements. Both classes are made for at least one thread, blocks have
    [MaxSize = 2 * MinSize] elements, between 4 and 32768, in debug builds [NULL_KEY] is zero,
    and the density thresholds of a node are at most its entries and at least a block for each
    segment of its parent but one. Then the reference inserts all of them. So does the array
    with overallocation, with less than [2^52] elements if insertions in place are allowed, and
    in debug builds if the memory in which its tasks are constructed does not hold
    [INVERSE_MERGE]: it counts the same elements, and [contains] and [rangeQuery] agree with
    [search] and [rangeQuery] of the reference, the array in order. So does the array with the
    global rebalancing, if the batches together have at most [key_limit] elements: its
    [contains] and [rangeQuery] agree with those of the reference. *)
Theorem arrays_agree_with_reference `{M : TaskMemory} batches :
  1 ≤ MaxNumberOfThreads → 1 ≤ MaxThreads → Forall SdsClient.good_batch batches →
  (∀ b, batches !! 0%nat = Some b → MinSize ≤ zlen b) →
  Forall (λ batch, zlen batch ≤ SimpleUnorderedSet.INT_MAX) batches →
  ∃ data, referenceBatches batches ∅ = Ok data ∧
    (fits_machine [] (concat batches) → benign_memory →
     ∃ g, GbpmaClient.insertBatches batches OverallocatedBatchedSparseArray.create = Ok g ∧
       OverallocatedBatchedSparseArray.numberOfElements g = Ok (SimpleUnorderedSet.numberOfElements data) ∧
       agrees g data (zlen (concat batches))) ∧
    (zlen (concat batches) ≤ key_limit →
     ∃ s0 s, BatchedSparseArray.create 1 = Ok s0 ∧ SdsClient.insertBatches batches s0 = Ok s ∧
       agrees s data (zlen (concat batches))).
Proof.
  intros Hth Hths Hb Hmin Hmax. assert (zlen (foldl smerge [] batches) ≤ zlen (concat batches)) as Hlen by apply (length_foldl batches []).
  eexists. rewrite referenceBatches_ok, merged_set by done. split; [done|]. split.
  - intros Hfits Hmem. destruct (insertBatches_create batches Hfits Hths Hmem) as (g&xs&Hi&Hv&Hel); [|done|].
    { eapply Forall_impl; [exact Hb|]. intros b []. by repeat split. }
    destruct (valid_array_stores g xs Hv) as (ls&Hst&Hls). rewrite Hel in Hls. rewrite <-Hls in *.
    exists g. split; [done|]. split; [|by apply stored_agrees].
    rewrite (numberOfElements_ok _ _ Hv), Hel. f_equal. unfold SimpleUnorderedSet.numberOfElements.
    by rewrite size_of_keys by apply (st_sorted _ _ Hst).
  - intros Hlim. destruct (insertBatches_from_create batches Hth Hb Hmin Hlim) as (s0&s&gs&Hc&Hi&Hid&Hel).
    destruct (quiet_stores s gs (id_quiet _ _ Hid)) as [Hst Hls]. rewrite Hel in Hls. rewrite <-Hls in *.
    exists s0, s. split; [done|]. split; [done|]. by apply stored_agrees.
Qed.
End comparison.

(** ** Threads that share a set *)

Import SharedSet.

Section shared.
Context `{I : IterationOrder}.
Implicit Types (X : gset Z) (programs : list (list Call)) (c : State).

(** C39: the mutex makes the calls atomic.  Threads share an unordered set; each of them calls
    [insert], [remove], [search], [insertBatch] and [removeBatch] (with batches of less than
    [2^31] elements), and no function that does not lock.  In every state that their
    instructions reach, in any interleaving, no two threads are in an access to the content
    of which one writes it.  There is one order of the operations done so far, where a batch
    counts as one operation for each element, in which every thread's operations are in the
    order of its program, such that the content and all answers are those of a mathematical
    set to which the operations are applied in this order. *)
Theorem calls_linearize X programs c :
  Forall (Forall locking) programs → rtc step (start X programs) c →
  ¬ race c ∧
  ∃ history, data c = replay X history ∧
    ∀ i t, threads c !! i = Some t →
      ∃ program, programs !! i = Some program ∧ calls_of i history `prefix_of` operations program ∧
        (code t = [] → current t = None → calls_of i history = operations program) ∧
        answers t = answers_to i X history.
Proof.
  intros Hl Hr. rewrite (start_sections X programs Hl) in Hr. apply reachable_steps in Hr.
  split; [by eapply reachable_no_race|]. destruct (re_history _ _ _ Hr) as (history&Hd&_&Hc).
  exists history. split; [done|]. intros i t Ht. pose proof (Hc i t Ht) as [(l&h&Hp&_&Ho) Ha].
  pose proof (consistent_done _ _ _ _ _ _ (Hc i t Ht)) as Hdone.
  rewrite list_lookup_fmap in Ho, Hdone. destruct (programs !! i) as [program|]; [|done].
  exists program. injection Ho as Ho. split_and!; [done|by exists l| |done].
  intros H1 H2. specialize (Hdone H1 H2). by injection Hdone.
Qed.

(** C40: every call completes. Threads share an unordered set; each of them calls [insert],
    [remove], [search], [insertBatch] and [removeBatch] (with batches of less than [2^31]
    elements), and no function that does not lock. Whatever the schedule, after [n] instructions
    some thread can go on unless all have made all their calls, which is the case after exactly
    four instructions for each operation, where a batch counts as one operation for each
    element: no deadlock, and no schedule runs forever. Then an element that was there or was
    inserted, and is removed by no thread, is in the set; and one that was not there or was
    removed, and is inserted by no thread, is not. *)
Theorem calls_complete X programs (n : nat) c :
  Forall (Forall locking) programs → nsteps step n (start X programs) c →
  let all := concat (operations <$> programs) in
  (n ≤ 4 * length all)%nat ∧ (finished c ↔ n = (4 * length all)%nat) ∧ (¬ finished c → ∃ c', step c c') ∧
  (finished c → ∀ e,
     (RemoveOne e ∉ all → e ∈ X ∨ InsertOne e ∈ all → e ∈ data c) ∧
     (InsertOne e ∉ all → e ∉ X ∨ RemoveOne e ∈ all → e ∉ data c)).
Proof.
  intros Hl Hn all. rewrite (start_sections X programs Hl) in Hn. pose proof (steps_code _ _ _ Hn) as Htotal.
  rewrite total_start, sections_length in Htotal. fold all in Htotal.
  apply rtc_nsteps_2, reachable_steps in Hn. pose proof (finished_code _ _ _ Hn) as Hfin. split_and!.
  - lia.
  - rewrite Hfin. lia.
  - intros Hnot. by destruct (reachable_progress _ _ _ Hn).
  - intros Hdone. destruct (re_history _ _ _ Hn) as (history&Hd&Hb&Hc).
    pose proof (history_complete _ _ _ _ (re_threads _ _ _ Hn) Hdone Hc Hb) as Hops. fold all in Hops.
    intros e. rewrite Hd. rewrite <-!Hops. split; [apply replay_kept|apply replay_gone].
Qed.
End shared.

(** ** Witnesses *)

#[local] Existing Instance quadSegments.
#[local] Existing Instance densityThree.
#[local] Existing Instance fourThreads.
#[local] Existing Instance fourInPlaceThreads.
#[local] Existing Instance quadThreshold.
#[local] Existing Instance quadDense.
#[local] Existing Instance pairFasterMerge.

#[local] Instance elementsOrder : IterationOrder := {| iterate := base.elements; iterate_elements := λ _, Permutation_refl _ |}.

Lemma arrays_agree_with_reference_witness :
  ∃ data g s0 s, referenceBatches [firstPairs; secondPairs] ∅ = Ok data ∧
    GbpmaClient.insertBatches [firstPairs; secondPairs] OverallocatedBatchedSparseArray.create = Ok g ∧
    BatchedSparseArray.create 1 = Ok s0 ∧ SdsClient.insertBatches [firstPairs; secondPairs] s0 = Ok s ∧
    Search.contains g 9 = Ok (SimpleUnorderedSet.search data 9) ∧
    Search.contains s 9 = Ok (SimpleUnorderedSet.search data 9).
Proof.
  destruct (arrays_agree_with_reference [firstPairs; secondPairs]) as (data&Hd&Hg&Hs).
  - vm_compute. congruence.
  - vm_compute. congruence.
  - apply pairs_good.
  - apply first_large.
  - repeat constructor; vm_compute; congruence.
  - destruct Hg as (g&Hg&_&Hag&_); [intros _; reflexivity|right; reflexivity|].
    destruct Hs as (s0&s&Hc&Hi&Has&_); [vm_compute; congruence|].
    exists data, g, s0, s. split_and!; [exact Hd|exact Hg|exact Hc|exact Hi|apply Hag|apply Has].
Defined.

(** Two threads: the second one waits until the first one has left its call. *)
Definition twoPrograms : list (list Call) := [[Insert 5]; [Search 5]].

Lemma twoPrograms_locking : Forall (Forall locking) twoPrograms.
Proof. by repeat constructor. Qed.

Definition second_waits : State :=
  mkState (Some 1%nat) {[5]} [mkThread [] None [Done]; mkThread [Begin (DataFind 5); End; Unlock] None []].

Lemma second_locks : nsteps step 5 (start ∅ twoPrograms) second_waits.
Proof.
  eapply nsteps_l; [apply (step_lock 0); reflexivity|].
  eapply nsteps_l; [apply (step_begin 0); reflexivity|].
  eapply nsteps_l; [eapply (step_end 0); reflexivity|].
  eapply nsteps_l; [apply (step_unlock 0); reflexivity|].
  eapply nsteps_l; [apply (step_lock 1); reflexivity|].
  apply nsteps_O.
Qed.

Lemma calls_linearize_witness :
  ¬ race second_waits ∧
  ∃ history, ({[5]} : gset Z) = replay ∅ history ∧ calls_of 0 history = [InsertOne 5].
Proof.
  destruct (calls_linearize ∅ twoPrograms second_waits twoPrograms_locking (rtc_nsteps_2 _ _ _ second_locks))
    as [Hrace (history&Hd&Hc)].
  split; [exact Hrace|]. exists history. split; [exact Hd|].
  destruct (Hc 0%nat _ eq_refl) as (program&Hp&_&Hdone&_). injection Hp as <-. apply Hdone; reflexivity.
Defined.

Lemma calls_complete_witness : ∃ c', step second_waits c'.
Proof.
  destruct (calls_complete ∅ twoPrograms 5 second_waits twoPrograms_locking second_locks) as (_&Hfin&Hstep&_).
  apply Hstep. intros Hf. apply Hfin in Hf. discriminate Hf.
Defined.

(** ** Without the mutex

    [size] does not lock: it races with an insertion.  (So do the iteration, [rangeQuery] and
    [numberOfElements], see simpleUnorderedSet.hpp.) *)
Lemma size_races : ∃ c, rtc step (start ∅ [[Insert 5]; [Size]]) c ∧ race c.
Proof.
  eexists. split.
  - eapply rtc_l; [apply (step_lock 0); reflexivity|].
    eapply rtc_l; [apply (step_begin 0); reflexivity|].
    eapply rtc_l; [apply (step_begin 1); reflexivity|]. apply rtc_refl.
  - exists 0%nat, 1%nat. eexists _, _, _, _, _, _. split_and!; reflexivity || done.
Qed.

(** Two insertions that do not lock: one of the elements is lost. *)
Lemma unlocked_insertion_lost :
  ∃ c, rtc step (start_code ∅ [[Begin (DataInsert 5); End]; [Begin (DataInsert 6); End]]) c ∧ finished c ∧ data c = {[6]}.
Proof.
  eexists. split.
  - eapply rtc_l; [apply (step_begin 0); reflexivity|].
    eapply rtc_l; [apply (step_begin 1); reflexivity|].
    eapply rtc_l; [eapply (step_end 0); reflexivity|].
    eapply rtc_l; [eapply (step_end 1); reflexivity|]. apply rtc_refl.
  - split; [split; [done|]|vm_compute; reflexivity]. repeat constructor.
Qed.

(** A thread that locks twice waits forever. *)
Lemma second_lock_waits :
  ∃ c, rtc step (start_code ∅ [[Lock; Lock]]) c ∧ ¬ finished c ∧ ¬ ∃ c', step c c'.
Proof.
  eexists. split; [eapply rtc_l; [apply (step_lock 0); reflexivity|apply rtc_refl]|]. split; [by intros []|].
  intros [c' Hstep]. inversion Hstep; subst; match goal with Ht : _ !! ?i = Some _ |- _ => by destruct i end.
Qed.
