(* ===== verification/Benchmark.v ===== *)
(** * The benchmark (benchmark/benchmarks.hpp)

    [BatchBenchmark::run] on a data structure behind an interface, what both sparse arrays
    guarantee at this interface (their [removeBatch] does nothing), and the two instances.  Time measurement and profiling are left out;
    the answers of the searches, which the program only computes, are collected. *)

From S2P Require Export SdsClient GbpmaClient.
Import BlockSeq.
From S2P Require Export GeneratorFacts.

(** [Benchmark::DataType] with [Benchmark::KeyOf]: keys without values, a trivial type, in a
    release build. *)
Definition keyOnly (garbage : Z) : SdsTypes := {|
  ValueType := Z; keyOfValue := λ v, v; NULL_KEY := 0; zeroValue := 0; indeterminate := garbage; NDEBUG := true;
  IsTrivialType := true; trivial_release := λ _, eq_refl |}.

(** The members of the template parameter SearchDataStructure. *)
Class BatchStructure (V S : Type) := {
  insertBatch : S → list V → Z → Z → result S;
  removeBatch : S → list V → Z → Z → result S;
  contains : S → Z → result bool;
}.

Module BatchBenchmark.
Section definitions.
Context `{T : SdsTypes} {S : Type} `{B : !BatchStructure ValueType S}.
Implicit Types (s : S) (op : Operation.Operation ValueType) (ops : list (Operation.Operation ValueType)).

(** The body of the first loop of [run]. *)
Definition prefillOperation (numberOfThreads : Z) s op : result S :=
  AssertMsg (bool_decide (Operation.type op = BatchInsert));;
  b ← Operation.batch op;
  insertBatch s b (zlen b) numberOfThreads.

(** The body of the second loop; [answers] has the values of [success]. *)
Definition workOperation (numberOfThreads : Z) (st : S * list bool) op : result (S * list bool) :=
  let '(s, answers) := st in
  match Operation.type op with
  | Insert | Remove => Err Terminated
  | Search => v ← Operation.value op; success ← contains s v; Ok (s, answers ++ [success])
  | BatchInsert => b ← Operation.batch op; s ← insertBatch s b (zlen b) numberOfThreads; Ok (s, answers)
  | BatchRemove => b ← Operation.batch op; s ← removeBatch s b (zlen b) numberOfThreads; Ok (s, answers)
  end.

(** [for (auto op : ops)]. *)
Definition for_each {St} (body : St → Operation.Operation ValueType → result St) ops (st : St) : result St :=
  foldr (λ op rest st, st ← body st op; rest st) Ok ops st.

Definition run s (prefill ops : list (Operation.Operation ValueType)) (numberOfThreads : Z) : result (S * list bool) :=
  s ← for_each (prefillOperation numberOfThreads) prefill s;
  for_each (workOperation numberOfThreads) ops (s, []).
End definitions.
End BatchBenchmark.
Import BatchBenchmark.

(** ** What the two arrays have in common

    Both ignore [removeBatch]: a structure that removes elements is not an instance. *)

(** [has_elements s l]: the elements of [s] are [l].  [room n]: [n] elements can be stored. *)
Class BatchSet `{T : SdsTypes} {C : BlockConfig} (S : Type) `{B : !BatchStructure ValueType S} := {
  has_elements : S → list ValueType → Prop;
  room : Z → Prop;
  room_less : ∀ m n, m ≤ n → room n → room m;
  insert_law : ∀ s l batch, has_elements s l → SdsClient.good_batch batch → (l = [] → MinSize ≤ zlen batch) →
    room (zlen l + zlen batch) → ∃ s', insertBatch s batch (zlen batch) 1 = Ok s' ∧ has_elements s' (smerge l batch);
  remove_law : ∀ s l batch, has_elements s l → removeBatch s batch (zlen batch) 1 = Ok s;
  contains_law : ∀ s l k, has_elements s l → contains s k = Ok (bool_decide (k ∈ keys l));
}.

Section runs.
Context `{T : SdsTypes} `{C : BlockConfig} {S : Type} `{B : !BatchStructure ValueType S} `{BS : !BatchSet S}.
Implicit Types (s : S) (l batch : list ValueType) (op : Operation.Operation ValueType) (ops : list (Operation.Operation ValueType)).

(** What an operation means for the elements and the answers; [removeBatch] does nothing. *)
Definition after l op : list ValueType :=
  match Operation.type op, Operation.payload op with BatchInsert, inr batch => smerge l batch | _, _ => l end.
Definition answer l op : list bool :=
  match Operation.type op, Operation.payload op with Search, inl k => [bool_decide (k ∈ keys l)] | _, _ => [] end.
Fixpoint answers l ops : list bool :=
  match ops with [] => [] | op :: ops => answer l op ++ answers (after l op) ops end.

(** Operations that the generators create. *)
Definition operation_good op : Prop :=
  match Operation.payload op with
  | inl _ => Operation.type op = Search
  | inr batch => is_batch (Operation.type op) = true ∧ SdsClient.good_batch batch
  end.

(** The number of elements that an operation inserts at most. *)
Definition volume op : Z := match Operation.payload op with inl _ => 0 | inr batch => zlen batch end.
Definition total ops : Z := foldr (λ op n, volume op + n) 0 ops.

(** The first batch that is inserted into an empty structure makes a block. *)
Fixpoint first_batch_large ops : Prop :=
  match ops with
  | [] => True
  | op :: ops => match Operation.type op, Operation.payload op with
                 | BatchInsert, inr batch => MinSize ≤ zlen batch
                 | _, _ => first_batch_large ops
                 end
  end.

(** The same on the set of keys. *)
Definition set_after (X : gset Z) op : gset Z :=
  match Operation.type op, Operation.payload op with BatchInsert, inr batch => X ∪ list_to_set (keys batch) | _, _ => X end.
Fixpoint set_answers (X : gset Z) ops : list bool :=
  match ops with
  | [] => []
  | op :: ops => match Operation.type op, Operation.payload op with Search, inl k => [bool_decide (k ∈ X)] | _, _ => [] end ++
                 set_answers (set_after X op) ops
  end.

Lemma after_set l op : list_to_set (keys (after l op)) = set_after (list_to_set (keys l)) op.
Proof.
  unfold after, set_after. destruct (Operation.type op), (Operation.payload op) as [k|batch]; try done.
  apply set_eq. intros k. rewrite elem_of_union, !elem_of_list_to_set. apply keys_smerge.
Qed.

Lemma foldl_after_set ops l : list_to_set (keys (foldl after l ops)) = foldl set_after (list_to_set (keys l)) ops.
Proof. revert l. induction ops as [|op ops IH]; intros l; simpl; [done|]. by rewrite IH, after_set. Qed.

Lemma answers_set ops l : answers l ops = set_answers (list_to_set (keys l)) ops.
Proof.
  revert l. induction ops as [|op ops IH]; intros l; simpl; [done|]. rewrite IH, after_set. f_equal.
  unfold answer. destruct (Operation.type op), (Operation.payload op) as [k|batch]; try done. f_equal.
  apply bool_decide_ext. by rewrite elem_of_list_to_set.
Qed.

Lemma for_each_cons {St} (body : St → Operation.Operation ValueType → result St) op ops (st : St) :
  for_each body (op :: ops) st = (st ← body st op; for_each body ops st).
Proof. done. Qed.

Lemma volume_nonneg op : 0 ≤ volume op.
Proof. unfold volume. destruct (Operation.payload op); [done|apply zlen_nonneg]. Qed.

Lemma total_nonneg ops : 0 ≤ total ops.
Proof. induction ops as [|op ops IH]; simpl; [done|]. pose proof (volume_nonneg op). lia. Qed.

Lemma after_length l op : zlen (after l op) ≤ zlen l + volume op.
Proof.
  unfold after, volume. pose proof (zlen_nonneg l). destruct (Operation.type op), (Operation.payload op) as [k|batch]; try lia;
    pose proof (zlen_nonneg batch); try lia. apply length_smerge.
Qed.

Lemma merged_nonempty l batch : SdsClient.good_batch batch → smerge l batch ≠ [].
Proof.
  intros Hg Hnil. pose proof (go_some _ Hg) as Hne. destruct batch as [|v es]; [done|].
  assert (keyOfValue v ∈ keys (smerge l (v :: es))) as Hin by (apply keys_smerge; right; apply elem_of_keys_cons; by left).
  rewrite Hnil in Hin. by apply elem_of_nil in Hin.
Qed.

Lemma work_step s l xs op : has_elements s l → operation_good op → room (zlen l + volume op) →
  (∀ batch, l = [] → Operation.type op = BatchInsert → Operation.payload op = inr batch → MinSize ≤ zlen batch) →
  ∃ s', workOperation 1 (s, xs) op = Ok (s', xs ++ answer l op) ∧ has_elements s' (after l op).
Proof.
  unfold operation_good, volume, answer, after, workOperation, Operation.value, Operation.batch.
  intros Hs Hg Hr Hmin. destruct op as [ty [k|batch]]; simpl in *.
  - subst ty. rewrite (contains_law _ _ k Hs). simpl. by exists s.
  - destruct Hg as [Hty Hg]. destruct ty; try done; simpl.
    + destruct (insert_law s l batch Hs Hg) as (s'&->&Hs'); [|done|].
      { intros Hl. by apply Hmin. }
      exists s'. by rewrite app_nil_r.
    + rewrite (remove_law _ _ batch Hs). simpl. exists s. by rewrite app_nil_r.
Qed.

Lemma work_ok ops s l xs : has_elements s l → Forall operation_good ops → room (zlen l + total ops) → (l = [] → first_batch_large ops) →
  ∃ s', for_each (workOperation 1) ops (s, xs) = Ok (s', xs ++ answers l ops) ∧ has_elements s' (foldl after l ops).
Proof.
  intros Hs Hg. revert s l xs Hs. induction Hg as [|op ops Hop _ IH]; intros s l xs Hs Hr Hmin.
  - exists s. simpl. by rewrite app_nil_r.
  - simpl in Hr. pose proof (total_nonneg ops). pose proof (volume_nonneg op).
    destruct (work_step s l xs op Hs Hop) as (s1&Hw&Hs1).
    + apply (room_less _ (zlen l + (volume op + total ops))); [lia|done].
    + intros batch Hl Ht Hp. specialize (Hmin Hl). simpl in Hmin. by rewrite Ht, Hp in Hmin.
    + destruct (IH s1 (after l op) (xs ++ answer l op) Hs1) as (s'&Hw'&Hs').
      * pose proof (after_length l op). apply (room_less _ (zlen l + (volume op + total ops))); [lia|done].
      * intros Hl. assert (l = []) as Hnil.
        { unfold after in Hl. unfold operation_good in Hop. destruct (Operation.type op), (Operation.payload op); try done.
          destruct Hop as [_ Hop]. by apply merged_nonempty in Hl. }
        specialize (Hmin Hnil). simpl in Hmin. unfold after in Hl. unfold operation_good in Hop.
        destruct (Operation.type op), (Operation.payload op) as [k|batch]; try done.
        destruct Hop as [_ Hop]. by apply merged_nonempty in Hl.
      * exists s'. rewrite for_each_cons, Hw. cbn [mbind result_bind]. rewrite Hw'. simpl. by rewrite <-app_assoc.
Qed.

Lemma prefill_ok ops s l : has_elements s l → Forall (λ op, operation_good op ∧ Operation.type op = BatchInsert) ops →
  room (zlen l + total ops) → (l = [] → first_batch_large ops) →
  ∃ s', for_each (prefillOperation 1) ops s = Ok s' ∧ has_elements s' (foldl after l ops).
Proof.
  intros Hs Hg Hr Hmin. assert (Forall operation_good ops) as Hgood by (eapply Forall_impl; [exact Hg|]; by intros ? []).
  destruct (work_ok ops s l [] Hs Hgood Hr Hmin) as (s'&Hw&Hs'). exists s'. split; [|done]. clear - Hg Hw.
  assert (∀ ys, for_each (workOperation 1) ops (s, []) = Ok (s', ys) → for_each (prefillOperation 1) ops s = Ok s') as Hsame;
    [|by eapply Hsame]. clear Hw. revert s. induction Hg as [|op ops [Hop Ht] _ IH]; intros s ys; [by intros [= ->]|].
  rewrite !for_each_cons.
  unfold workOperation, prefillOperation. rewrite Ht. rewrite assert_ok by (by apply bool_decide_eq_true_2). cbn [mbind result_bind].
  destruct (Operation.batch op) as [b|]; [|done]. cbn [mbind result_bind]. destruct (insertBatch s b (zlen b) 1) as [s1|]; [|done].
  cbn [mbind result_bind]. apply IH.
Qed.

(** A whole run: first the prefill, then the work. *)
Lemma run_ok s prefill ops : has_elements s [] → Forall (λ op, operation_good op ∧ Operation.type op = BatchInsert) prefill →
  Forall operation_good ops → room (total prefill + total ops) → first_batch_large (prefill ++ ops) →
  ∃ s', run s prefill ops 1 = Ok (s', answers (foldl after [] prefill) ops) ∧ has_elements s' (foldl after (foldl after [] prefill) ops).
Proof.
  intros Hs Hp Ho Hr Hmin. pose proof (total_nonneg prefill). pose proof (total_nonneg ops).
  assert (zlen (foldl after [] prefill) ≤ total prefill ∧ (foldl after [] prefill = [] → prefill = [])) as [Hlen Hnil].
  { assert (∀ l, zlen (foldl after l prefill) ≤ zlen l + total prefill ∧ (foldl after l prefill = [] → prefill = [])) as Hl; [|exact (Hl [])].
    clear - Hp. induction Hp as [|op ps [Hop Ht] _ IH]; intros l; simpl; [split; [lia|done]|]. destruct (IH (after l op)) as [H1 H2].
    pose proof (after_length l op). split; [lia|]. intros Hnil. specialize (H2 Hnil) as ->. simpl in Hnil. exfalso.
    unfold after, operation_good in *. rewrite Ht in Hnil. destruct (Operation.payload op); [by rewrite Ht in Hop|].
    destruct Hop as [_ Hop]. by apply merged_nonempty in Hnil. }
  destruct (prefill_ok prefill s [] Hs Hp) as (s1&H1&Hs1).
  - apply (room_less _ (total prefill + total ops)); [change (zlen (@nil ValueType)) with 0; lia|done].
  - intros _. clear - Hmin Hp. destruct Hp as [|op ps [Hop Ht] _]; [done|]. simpl in *. rewrite Ht in *. unfold operation_good in Hop.
    destruct (Operation.payload op); [by rewrite Ht in Hop|done].
  - destruct (work_ok ops s1 (foldl after [] prefill) [] Hs1 Ho) as (s2&H2&Hs2).
    + apply (room_less _ (total prefill + total ops)); [lia|done].
    + intros Hl. rewrite (Hnil Hl) in Hmin. done.
    + exists s2. unfold run. rewrite H1. cbn [mbind result_bind]. by rewrite H2.
Qed.
End runs.

(** ** The two arrays *)

(** One thread is within the limits of both arrays. *)
Class OneThread `{P : ThreadConfig} `{O : OverallocationConfig} : Prop := {
  one_thread : 1 ≤ MaxNumberOfThreads;
  one_task : 1 ≤ MaxThreads;
}.

Section instances.
Context `{T : SdsTypes} `{C : BlockConfig} `{O : OverallocationConfig}.
Context `{BC : !BlockConfigOk} `{HB : !HalfBlocks} `{FM : !FasterMergeOk}.
Context `{R : RebalancingConfig} `{D : DensityManager} `{Law : !ThresholdLaw} `{Dense : !DenseLaw}.
Context `{H : ConcurrentBucketMap.Hash} `{P : ThreadConfig} `{One : !OneThread} `{M : TaskMemory}.

(** [removeBatch] of both arrays ignores its arguments. *)
#[export] Instance sparseArrayStructure : BatchStructure ValueType BatchedSparseArray.Sds := {|
  insertBatch := RebalancingPhase.insertBatch;
  removeBatch := λ s _ _ _, Ok s;
  contains := Search.contains (A := BatchedSparseArray.Sds) (SparseArray0 := BatchedSparseArray.sparseArray) |}.

#[export] Instance overallocatedStructure : BatchStructure ValueType OverallocatedBatchedSparseArray.Sds := {|
  insertBatch := OverallocatedDistribution.insertBatch;
  removeBatch := λ s _ _ _, Ok s;
  contains := OverallocatedBatchedSparseArray.contains |}.

#[export] Program Instance sparseArraySet : BatchSet BatchedSparseArray.Sds := {|
  has_elements s l := ∃ gs, idle s gs ∧ BlockSeq.elements (concat gs) = l;
  room n := n ≤ key_limit |}.
Next Obligation. intros m n Hmn Hn. simpl in *. lia. Qed.
Next Obligation.
  intros s l batch (gs&Hid&<-) Hg Hmin Hroom. destruct (insertBatch_idle s gs batch Hid) as (s'&gs'&Hi&Hid'&Hel).
  - apply good_insertable; [done|]. intros Hz. apply Hmin. by rewrite (empty_contents s gs (id_quiet _ _ Hid) Hz).
  - apply one_thread.
  - apply Hg.
  - done.
  - exists s'. split; [exact Hi|]. by exists gs'.
Qed.
Next Obligation. done. Qed.
Next Obligation.
  intros s l k (gs&Hid&<-). destruct (quiet_stores s gs (id_quiet _ _ Hid)) as [Hst <-]. by apply array_contains_ok.
Qed.

#[export] Program Instance overallocatedSet : BatchSet OverallocatedBatchedSparseArray.Sds := {|
  has_elements s l := ∃ xs, valid_array s xs ∧ BlockSeq.elements xs = l;
  room n := AllowInPlaceInserts = true → n < 2 ^ 52 |}.
Next Obligation. intros m n Hmn Hn Ha. specialize (Hn Ha). lia. Qed.
Next Obligation.
  intros s l batch (xs&Hv&<-) [Hne Hs Hn Hz Ho] Hmin Hroom. destruct (insertBatch_one s xs batch Hv) as (s'&xs'&Hi&Hv'&Hel&_); try done.
  - intros ->. by apply Hmin.
  - apply one_task.
  - exists s'. split; [exact Hi|]. by exists xs'.
Qed.
Next Obligation. done. Qed.
Next Obligation. intros s l k (xs&Hv&<-). destruct (valid_array_stores s xs Hv) as (ls&Hst&<-). by apply array_contains_ok. Qed.

(** The constructed arrays are empty. *)
Lemma sparseArray_empty : ∃ s, BatchedSparseArray.create 1 = Ok s ∧ has_elements s [].
Proof. destruct (create_idle one_thread) as (s&Hc&Hid). exists s. split; [done|]. by exists [[]]. Qed.

Lemma overallocated_empty : benign_memory → has_elements OverallocatedBatchedSparseArray.create [].
Proof. intros Hmem. exists []. split; [by apply (create_valid one_task)|done]. Qed.
End instances.

(** ** Generated operations *)

Section keys_only.
Context {garbage : Z}.
#[local] Instance keyTypes : SdsTypes := keyOnly garbage.
Implicit Types (l : list Z) (o : Operation.Operation Z) (ops : list (Operation.Operation Z)).

Lemma keys_only l : keys (l : list ValueType) = l.
Proof. apply list_fmap_id. Qed.

Lemma good_keys_batch lo hi b l : 1 ≤ lo → good_keys lo hi b l → SdsClient.good_batch (l : list ValueType).
Proof.
  intros Hlo (Hs&Hf&Hl). assert (∀ k, k ∈ l → 1 ≤ k) as Hpos.
  { intros k Hk. rewrite Forall_forall in Hf. destruct (Hf k Hk). lia. }
  split.
  - intros ->. destruct Hl as [Hl _]. by vm_compute in Hl.
  - exact Hs.
  - rewrite keys_only. intros Hk%Hpos. simpl in Hk. lia.
  - rewrite keys_only. intros Hk%Hpos. simpl in Hk. lia.
  - right. intros k. rewrite keys_only. intros Hk%Hpos. simpl. lia.
Qed.

Lemma operation_ok_good lo hi b o : 1 ≤ lo → 0 ≤ b → operation_ok lo hi b o → operation_good (o : Operation.Operation ValueType) ∧
  volume (o : Operation.Operation ValueType) ≤ b.
Proof.
  unfold operation_ok, operation_good, volume. intros Hlo Hb. destruct o as [ty [k|l]]; simpl; [intros [? _]; by split|].
  intros [Ht Hg]. pose proof (good_keys_batch lo hi b l Hlo Hg). by destruct Hg as (_&_&_&?).
Qed.

Lemma operations_good lo hi b ops : 1 ≤ lo → 0 ≤ b → Forall (operation_ok lo hi b) ops →
  Forall (operation_good (T := keyTypes)) ops ∧ total (T := keyTypes) ops ≤ zlen ops * b.
Proof.
  intros Hlo Hb. induction 1 as [|o ops Ho _ [IH1 IH2]]; [split; [constructor|done]|].
  destruct (operation_ok_good lo hi b o Hlo Hb Ho) as [Hg Hv]. split; [by constructor|].
  rewrite zlen_cons. change (total (T := keyTypes) (o :: ops)) with (volume (T := keyTypes) o + total (T := keyTypes) ops). lia.
Qed.
End keys_only.
