(* ===== verification/BenchmarkProps.v ===== *)
(** * Properties of the generators and of the benchmark

    What the generators produce, what a run of the benchmark on it gives with one thread for
    the two arrays, and a Zipf distribution that leaves its range. *)

From S2P Require Import Benchmark SdsProps Instances BucketMapProps.
Import BatchBenchmark.

(** ** The generators *)

Section generators.
Context `{T : SdsTypes} `{R : RandomSource} `{Laws : !RandomLaws}.
Variable patience : NormalState → RandomEngine → nat.
Implicit Types (c : Configuration) (o : Operation.Operation Z).

(** What an operation of a configuration is: the type tells which member of the union is
    there; a key is in the range; a batch is not empty, at most as long as configured,
    strictly increasing, and its keys are in the range. *)
Definition well_typed c o : Prop :=
  (Operation.type o = Search ∧ ∃ k, Operation.value o = Ok k ∧ minKey c ≤ k ≤ maxKey c) ∨
  (is_batch (Operation.type o) = true ∧ ∃ l, Operation.batch o = Ok l ∧ StronglySorted Z.lt l ∧
    Forall (λ k, minKey c ≤ k ≤ maxKey c) l ∧ 1 ≤ zlen l ≤ configBatchSize c).

Lemma ok_well_typed c o : operation_ok (minKey c) (maxKey c) (configBatchSize c) o → well_typed c o.
Proof.
  destruct o as [ty [k|l]]; unfold operation_ok; simpl; intros [Ht Hk].
  - left. split; [done|]. by exists k.
  - right. split; [done|]. by exists l.
Qed.

(** C11: the generator of batch operations. In a configuration the range of 64-bit keys is not
    empty, the batch size is at least one, the keys to be precomputed are less than [2^64], the
    weights are finite and not negative and one of them is positive, and the distribution is
    none of the rejected ones and not the Zipf distribution, which can leave its range. For a
    normal distribution, in every state of the random engine one of the next values (fewer than
    the loop has fuel) lies in the range, and the values before it can be converted to keys.
    Then the generator returns: no assertion fails, no conversion is undefined, no precomputed
    number is missing and the union is read as it was written. It creates the configured numbers
    of operations, insertions of batches first, and every operation is well typed: a search for
    a key of the range, or a batch of one to the configured number of keys of the range that
    strictly increase. *)
Theorem generator_correct c zetas rng : configuration_ok patience c →
  ∃ g zetas' rng', BatchGenerator.create patience c zetas rng = Ok (g, zetas', rng') ∧
    zlen (BatchGenerator.prefillOps g) = numPrefill c ÷ configBatchSize c ∧
    zlen (BatchGenerator.ops g) = numOperations c ∧
    Forall (λ o, Operation.type o = BatchInsert ∧ well_typed c o) (BatchGenerator.prefillOps g) ∧
    Forall (well_typed c) (BatchGenerator.ops g).
Proof.
  intros Hc. pose proof (generator_ok patience c zetas rng Hc) as Hg.
  destruct (BatchGenerator.create patience c zetas rng) as [[[g zetas'] rng']|]; [|done]. destruct Hg as [H1 H2 H3 H4].
  exists g, zetas', rng'. split_and!; try done.
  - eapply Forall_impl; [exact H2|]. intros o [Ho Ht]. split; [done|]. by apply ok_well_typed.
  - eapply Forall_impl; [exact H4|]. intros o. apply ok_well_typed.
Qed.
End generators.

(** ** Runs *)

Section runs.
Context {garbage : Z}.
#[local] Instance benchmarkTypes : SdsTypes := keyOnly garbage.
Context `{C : BlockConfig} `{R : RandomSource} `{Laws : !RandomLaws}.
Variable patience : NormalState → RandomEngine → nat.
Implicit Types (c : Configuration) (g : BatchGenerator.BatchGenerator).

(** The number of keys that a configuration generates at most. *)
Definition generated_keys c : Z := (numPrefill c ÷ configBatchSize c + numOperations c) * configBatchSize c.

(** The abstract run: the set of the keys, and the answers of the searches. *)
Definition abstract_run g : gset Z * list bool :=
  let X := foldl (set_after (T := benchmarkTypes)) ∅ (BatchGenerator.prefillOps g) in
  (foldl (set_after (T := benchmarkTypes)) X (BatchGenerator.ops g), set_answers (T := benchmarkTypes) X (BatchGenerator.ops g)).

Section structure.
Context {S : Type} `{B : !BatchStructure ValueType S} `{BS : !BatchSet S}.

Lemma generated_run c g s : 1 ≤ minKey c → 1 ≤ configBatchSize c → generated c g → has_elements s [] → room (generated_keys c) →
  first_batch_large (T := benchmarkTypes) (BatchGenerator.prefillOps g ++ BatchGenerator.ops g) →
  ∃ s' l, run (T := benchmarkTypes) s (BatchGenerator.prefillOps g) (BatchGenerator.ops g) 1 = Ok (s', (abstract_run g).2) ∧
    has_elements s' l ∧ list_to_set (keys (T := benchmarkTypes) l) = (abstract_run g).1.
Proof.
  intros Hlo Hb [H1 H2 H3 H4] Hs Hr Hf. assert (0 ≤ configBatchSize c) as Hb0 by lia.
  destruct (operations_good (garbage := garbage) _ _ _ _ Hlo Hb0 H4) as [Hgood Htotal].
  assert (Forall (operation_ok (minKey c) (maxKey c) (configBatchSize c)) (BatchGenerator.prefillOps g)) as H2'.
  { eapply Forall_impl; [exact H2|]. by intros o []. }
  destruct (operations_good (garbage := garbage) _ _ _ _ Hlo Hb0 H2') as [Hgood' Htotal'].
  destruct (run_ok (T := benchmarkTypes) s (BatchGenerator.prefillOps g) (BatchGenerator.ops g) Hs) as (s'&Hrun&Hs').
  - rewrite Forall_forall in *. intros o Ho. split; [by apply Hgood'|by apply (H2 o Ho)].
  - done.
  - eapply room_less; [|exact Hr]. unfold generated_keys. rewrite H1 in Htotal'. rewrite H3 in Htotal. change (@Benchmark.keyTypes garbage) with benchmarkTypes in *. lia.
  - done.
  - exists s', (foldl (after (T := benchmarkTypes)) (foldl (after (T := benchmarkTypes)) [] (BatchGenerator.prefillOps g)) (BatchGenerator.ops g)). split_and!; [|done|].
    + rewrite Hrun. unfold abstract_run. cbn [snd]. by rewrite answers_set, foldl_after_set.
    + unfold abstract_run. cbn [fst]. by rewrite !foldl_after_set.
Qed.

End structure.

Context `{O : OverallocationConfig} `{BC : !BlockConfigOk} `{HB : !HalfBlocks} `{FM : !FasterMergeOk}.
Context `{RC : RebalancingConfig} `{D : DensityManager} `{Law : !ThresholdLaw} `{Dense : !DenseLaw}.
Context `{H : ConcurrentBucketMap.Hash} `{P : ThreadConfig} `{One : !OneThread} `{M : TaskMemory}.

(** C3: the benchmark compares the two arrays on equal terms: a run with one thread of the
    release build, for keys without values. The keys are at least 1 and 64-bit, a batch has at
    least one key, the weights are finite and not negative and one of them is positive, the
    distribution is not the Zipf distribution, and normal distributions reach the range in time.
    At most [key_limit] keys are generated and, if insertions in place are allowed, less than
    [2^52]. Both classes are made for at least one thread, blocks have [MaxSize = 2 * MinSize]
    elements, between 4 and 32768, and the density thresholds of a node are at most its entries
    and at least a block for each segment of its parent but one. The generator returns, and if
    the first batch that is to be inserted has at least [MinSize] different keys, then both
    constructed arrays execute all generated operations without a failure and give the same
    answers to the searches, those of a set of keys to which the batches are added
    ([removeBatch] of both arrays does nothing). *)
Theorem benchmarked_arrays_agree c zetas rng :
  configuration_ok patience c → 1 ≤ minKey c → generated_keys c ≤ SdsBatch.key_limit →
  (AllowInPlaceInserts = true → generated_keys c < 2 ^ 52) →
  ∃ g zetas' rng' s0, BatchGenerator.create patience c zetas rng = Ok (g, zetas', rng') ∧
    BatchedSparseArray.create 1 = Ok s0 ∧
    (first_batch_large (T := benchmarkTypes) (BatchGenerator.prefillOps g ++ BatchGenerator.ops g) →
     ∃ s1 s2, run (T := benchmarkTypes) s0 (BatchGenerator.prefillOps g) (BatchGenerator.ops g) 1 =
         Ok (s1, (abstract_run g).2) ∧
       run (T := benchmarkTypes) OverallocatedBatchedSparseArray.create (BatchGenerator.prefillOps g) (BatchGenerator.ops g) 1 =
         Ok (s2, (abstract_run g).2)).
Proof.
  intros Hc Hlo Hlim Hmachine. pose proof (generator_ok patience c zetas rng Hc) as Hg.
  destruct (BatchGenerator.create patience c zetas rng) as [[[g zetas'] rng']|]; [|done].
  destruct sparseArray_empty as (s0&Hs0&He). exists g, zetas', rng', s0. split; [done|]. split; [done|]. intros Hf.
  pose proof (co_batch _ _ Hc) as Hb.
  assert (benign_memory (T := benchmarkTypes)) as Hmem by (left; reflexivity).
  destruct (generated_run c g s0 Hlo Hb Hg He Hlim Hf) as (s1&l1&H1&_).
  destruct (generated_run c g _ Hlo Hb Hg (overallocated_empty Hmem) Hmachine Hf) as (s2&l2&H2&_).
  by exists s1, s2.
Qed.
End runs.

(** ** Witnesses: a counter in place of the random engine *)

(** The indices of positive weights. *)
Definition positive_at (ws : list double) (i : Z) : bool :=
  match at_ ws i with Some w => is_positive w | None => false end.
Definition positive_indices (ws : list double) : list Z := filter (positive_at ws) (seqZ 0 (zlen ws)).

#[local] Instance counter : RandomSource := {|
  RandomEngine := Z;
  seeded n := n;
  uniform_int lo hi n := (lo + n mod (hi - lo + 1), n + 1);
  NormalState := unit;
  normal_init := tt;
  normal mean _ st n := (mean, (st, n + 1));
  generate_canonical n := (to_double 0, n + 1);
  discrete ws n := (default 0 (at_ (positive_indices ws) (n mod zlen (positive_indices ws))), n + 1);
  pow x _ := x |}.

#[local] Instance counterLaws : RandomLaws.
Proof.
  split.
  - intros lo hi n Hle. simpl. pose proof (Z.mod_pos_bound n (hi - lo + 1)). lia.
  - intros ws n Hex. simpl. assert (positive_indices ws ≠ []) as Hne.
    { apply proj2, Exists_exists in Hex as (w&[i Hi]%list_elem_of_lookup&Hw). intros Hnil.
      assert (at_ ws (Z.of_nat i) = Some w) as Hat by (by rewrite at_nat).
      assert (Z.of_nat i ∈ positive_indices ws) as Hin; [|rewrite Hnil in Hin; by apply elem_of_nil in Hin].
      apply list_elem_of_filter. unfold positive_at. rewrite Hat. split; [done|].
      apply elem_of_seqZ. apply at_Some_bound in Hat. lia. }
    assert (0 < zlen (positive_indices ws)) as Hpos.
    { destruct (positive_indices ws) as [|i l]; [done|]. pose proof (zlen_nonneg l). zlen. }
    destruct (at_in_bound (positive_indices ws) (n mod zlen (positive_indices ws))) as [i Hi]; [by apply Z.mod_pos_bound|].
    rewrite Hi. simpl. apply at_lookup in Hi as [_ Hi]. apply list_elem_of_lookup_2 in Hi.
    apply list_elem_of_filter in Hi as [Hp _].
    unfold positive_at in Hp. destruct (at_ ws i) as [w|]; [by exists w|done].
Qed.

#[local] Existing Instance quadSegments.
#[local] Existing Instance densityThree.
#[local] Existing Instance fourThreads.
#[local] Existing Instance fourInPlaceThreads.
#[local] Existing Instance quadThreshold.
#[local] Existing Instance quadDense.

#[local] Instance keyFasterMerge : FasterMergeOk (T := keyOnly 77).
Proof. split; [vm_compute; congruence|by right]. Qed.

#[local] Instance fourOneThread : OneThread.
Proof. split; vm_compute; congruence. Qed.

(** Two batches of four keys at the beginning, then six operations. *)
Definition smallConfiguration : Configuration :=
  mkConfiguration 8 6 1 (literal 5 10) (literal 2 10) (literal 3 10) 4 7 1 20 UNIFORM.

(** The same with keys around the middle of the range. *)
Definition normalConfiguration : Configuration :=
  mkConfiguration 8 6 1 (literal 5 10) (literal 2 10) (literal 3 10) 4 7 1 20 NORMAL.

Definition shortPatience (st : NormalState) (rng : RandomEngine) : nat := 2.

Lemma small_weights : some_weight (literal 5 10) (literal 2 10) (literal 3 10).
Proof. split; [split_and!; vm_compute; exact I|left; vm_compute; exact I]. Qed.

Lemma small_ok : configuration_ok shortPatience smallConfiguration.
Proof. split; try exact small_weights; vm_compute; intuition congruence. Qed.

(** The first value of the counter's normal distribution is the mean. *)
Lemma normal_member : member_ok shortPatience NORMAL 1 20.
Proof.
  intros saved rng. exists 1%nat. split; [unfold shortPatience; lia|]. exists 10.
  split; [vm_compute; reflexivity|left; vm_compute; reflexivity].
Qed.

Lemma normal_ok : configuration_ok shortPatience normalConfiguration.
Proof.
  split; try exact small_weights; try (intros _ _; exact normal_member); vm_compute; intuition congruence.
Qed.

#[local] Abbreviation small_generator :=
  (BatchGenerator.create (T := keyOnly 77) shortPatience smallConfiguration ∅ 7).

Lemma small_first g zetas rng : small_generator = Ok (g, zetas, rng) →
  first_batch_large (T := keyOnly 77) (BatchGenerator.prefillOps g ++ BatchGenerator.ops g).
Proof.
  intros Hg. assert (match small_generator with
    | Ok (g, _, _) => first_batch_large (T := keyOnly 77) (BatchGenerator.prefillOps g ++ BatchGenerator.ops g)
    | Err _ => False end) as Hf by (vm_compute; congruence). by rewrite Hg in Hf.
Qed.

(** Two of the operations are searches: one does not find its key, the other one does. *)
Lemma small_answers g zetas rng : small_generator = Ok (g, zetas, rng) →
  (abstract_run (garbage := 77) g).2 = [false; true].
Proof.
  intros Hg. assert (match small_generator with
    | Ok (g, _, _) => (abstract_run (garbage := 77) g).2
    | Err _ => [] end = [false; true]) as Hf by (vm_compute; reflexivity). by rewrite Hg in Hf.
Qed.

Lemma generator_correct_witness :
  (∃ g zetas rng, BatchGenerator.create (T := pairTypes) shortPatience smallConfiguration ∅ 7 = Ok (g, zetas, rng) ∧
     zlen (BatchGenerator.prefillOps g) = 2 ∧ zlen (BatchGenerator.ops g) = 6) ∧
  (∃ g zetas rng, BatchGenerator.create (T := pairTypes) shortPatience normalConfiguration ∅ 7 = Ok (g, zetas, rng) ∧
     zlen (BatchGenerator.prefillOps g) = 2 ∧ zlen (BatchGenerator.ops g) = 6).
Proof.
  split.
  - destruct (generator_correct (T := pairTypes) shortPatience smallConfiguration ∅ 7 small_ok) as (g&zetas&rng&Hg&H1&H2&_).
    exists g, zetas, rng. split_and!; [exact Hg|exact H1|exact H2].
  - destruct (generator_correct (T := pairTypes) shortPatience normalConfiguration ∅ 7 normal_ok) as (g&zetas&rng&Hg&H1&H2&_).
    exists g, zetas, rng. split_and!; [exact Hg|exact H1|exact H2].
Defined.

Lemma benchmarked_arrays_agree_witness :
  ∃ g zetas rng s s1 s2, small_generator = Ok (g, zetas, rng) ∧ BatchedSparseArray.create (T := keyOnly 77) 1 = Ok s ∧
    run (T := keyOnly 77) s (BatchGenerator.prefillOps g) (BatchGenerator.ops g) 1 = Ok (s1, [false; true]) ∧
    run (T := keyOnly 77) OverallocatedBatchedSparseArray.create (BatchGenerator.prefillOps g) (BatchGenerator.ops g) 1 =
      Ok (s2, [false; true]).
Proof.
  destruct (benchmarked_arrays_agree (garbage := 77) shortPatience smallConfiguration ∅ 7 small_ok)
    as (g&zetas&rng&s&Hg&Hs&Hrun).
  - vm_compute. congruence.
  - vm_compute. congruence.
  - intros _. reflexivity.
  - destruct (Hrun (small_first g zetas rng Hg)) as (s1&s2&H1&H2). rewrite (small_answers g zetas rng Hg) in H1, H2.
    exists g, zetas, rng, s, s1, s2. split_and!; [exact Hg|exact Hs|exact H1|exact H2].
Defined.

(** ** A Zipf distribution leaves its range

    The largest number below one that [std::generate_canonical] may return, with the values
    of [std::pow] rounded to ten digits: the sum [eta * u - eta + 1] is rounded to one, and
    the key is the one behind the range.  The keys of this distribution are 1 to 1000. *)

Definition largest_below_one : double := dsub (to_double 1) (literal 1 (2 ^ 53)).

Definition zipfPow (x y : double) : double :=
  if negb (dltb x (to_double 1)) && negb (dltb (to_double 1) x) then to_double 1
  else if dltb x (literal 1 10) then literal 9397455978 10000000000   (* 0.002 to the power 0.01 *)
  else literal 5034777750 10000000000.                                (* 0.5 to the power 0.99 *)

Definition lastCanonical : RandomSource := {|
  RandomEngine := unit;
  seeded _ := tt;
  uniform_int lo hi _ := (lo, tt);
  NormalState := unit;
  normal_init := tt;
  normal mean _ _ _ := (mean, (tt, tt));
  generate_canonical _ := (largest_below_one, tt);
  discrete ws _ := (2, tt);
  pow := zipfPow |}.

Lemma zipf_leaves_range :
  let p := @ZipfDistribution.create lastCanonical ZipfDistribution.precomputedZetaValues 1 1000 in
  @Zipfian.draw lastCanonical p.1 tt = Ok (1001, tt).
Proof. vm_compute. reflexivity. Qed.
